(* ===== verification/_CoqProject ===== *)
-Q . S2P
Prelude.v
GoBase.v
GoList.v
GoStrings.v
GoTime.v
GoRunes.v
HostMask.v
Term.v
GoNet.v
MemQueue.v
Position.v
Ledger.v
Claims.v
Client.v
Wire.v
BaitNames.v
Query.v
Schedule.v
Pace.v
LineReader.v
Tailer.v
Portscan.v
SmbAudit.v
Snmp.v
Events.v
Process.v
Poisoner.v
Delivery.v
Sql.v
Upgrade.v
Commands.v
RunCmd.v
Tokens.v
Enrolment.v
Watch.v
SelfTest.v
AuditLog.v
Server.v
Ingest.v
Verdicts.v
ScanRun.v
Settings.v
ClientCerts.v
Issuance.v
Credentials.v
Health.v
ServerSettings.v
History.v
Approval.v
Mailbox.v
MailText.v
Outbox.v
NeverBlock.v
Visitors.v
