(* ===== verification/Prelude.v ===== *)
(** * Birdcage: a verification development

    Birdcage is a self-hosted console for honeypots. An agent beside each
    honeypot (Mockingbird) reads its log, its webhooks and its own detectors
    (port scans, SNMP, SMB visits, name-service poisoners), queues what they
    report and pushes it in batches; the server (birdcage) stores the events,
    tells a self-test's from real ones, answers with what it stored and what it
    refused, hands commands to its agents and follows their credentials. This
    library models both sides as functions, step relations and processes and
    proves what makes them correct.

    ** The agent

    - [MemQueue] is [internal/agent/queue/queue.go], over [GoList], Go's
      [container/list] with its element pointers; [Position] is [position.go]
      of the same package; [Ledger] is [internal/agent/ledger]; [Claims] is
      [cmd/mockingbird/claim.go]; [Client] is [internal/agent/client/batch.go];
      [Events] is [internal/agent/event] and [internal/opencanary/service.go].
      A mutable object is a record, a method under its mutex one function of
      it; [MemQueue] and [Ledger] each come with a module [Spec], the contract,
      and a refinement theorem.
    - [LineReader] and [Tailer] are [internal/agent/tailer]: the bytes of the
      log file to its lines, the catch-up after a restart and the live file's
      rotation.
    - [Delivery] composes them: the goroutines of [cmd/mockingbird/intake.go],
      [sender.go] and [auth.go] as processes ([Process]) over the objects
      above, in any interleaving, with birdcage's answers, the file system and
      every timer as inputs. Its theorems are the delivery guarantees: the
      saved position stays behind the verdicts, no event is lost silently; and
      two executions that show what the code does not guarantee.
    - [Wire], [BaitNames], [Query], [Schedule] and [Pace] are
      [internal/agent/poisoner]: the datagrams of the name-service bait, the
      names asked for, one lookup, when the next one is due and the segment's
      measured rate. [Poisoner] is the detector that joins them, its counting
      and asking goroutines, the settings pushed to it and the lookups of a
      self-test in any interleaving, by the rules of [Process] for what one
      goroutine alone writes. [Portscan], [SmbAudit] and [Snmp] are the detectors and
      parsers of [internal/agent/portscan], [smbaudit] and [snmp].

    - [HostMask] is [internal/hostmask], shared by both sides: the host paths
      the scanner must not see, the flags that cover them and the check of the
      mount table before a scan, over the table as the kernel prints it.

    ** The server

    - [Sql] gives database programs: trees of statements, each of which may
      fail, or happen and lose its answer, interleaved by a step relation. A
      transaction is one atomic statement, which is what the single SQLite
      connection of [internal/db/db.go] makes of it; the concurrent
      transactions of a Postgres database are not modelled. A table is the list
      of its rows with its unique indexes; an invariant and an order of the
      states are kept by every statement, and the rule [Sql.runs_valid] carries
      them to every execution.
    - [Tokens], [Enrolment], [Upgrade], [Commands], [SelfTest] and [ScanRun] are
      [token.go], [enrolment.go], [upgrade_token.go], [version.go],
      [command.go], [selftest*.go], [pending.go], [scan.go] and [scanrun.go] of
      [internal/store], with the handlers that drive them where they decide
      something. Each of these models the tables it works on; [Credentials]
      joins those of tokens, sessions, settings, certificates and nodes.
    - [Watch] is [auditcoalesce.go] and [dualuse.go] of [internal/ingest],
      [AuditLog] is [internal/audit], [Server] the processes handlers are written
      in: statements, the clock, the limiter.
    - [Ingest] is the batch handler ([batch.go]) and the operations that run
      beside it, as processes over the database, the marker index and the
      coalescer; [Verdicts] proves what they guarantee together: an event is
      called synthetic only if a self-test planted it, what is acknowledged is
      stored, a verdict is given once and earned.
    - [ClientCerts] is [clientcert.go] and [provision.go] of [internal/store],
      [Issuance] the transactions that issue and revoke credentials
      ([rotate.go], [renew.go], [cmd/birdcage/canary.go]) with the invariant
      they keep, [Credentials] the check in front of every ingest route
      ([auth.go], [http.go]) and its guarantees: a request let through has shown
      live credentials of its node, no replacement locks a node out; and an
      execution in which requests in flight outrun a revocation.
    - [Settings] is both sides of a canary's settings: [canary_settings.go] and
      the heartbeat's answer, [cmd/mockingbird/agentsettings.go];
      [ServerSettings] is [settings.go] of [internal/store].
    - [Health] is [health.go], [credhealth.go], the listing and the heartbeats
      of [canary.go], read against conditions of the states that use none of
      the code's signals; [History] is
      [internal/history] and [history.go], the recorder that turns successive
      listings into spans. Its executions let every other writer of the database
      work between two statements of a start or a tick ([Sql.alone]). What a
      query compares as times ([timeCompare]) goes through the [Engine] of
      [SelfTest], whose clock is coarser than the stored times: SQLite's Julian
      days tell times apart to about a millisecond, Postgres exactly, and a
      theorem that depends on it says so.

    - [Approval] is [internal/agent/approval], the check of an administrator's
      mail, against the rules stated of its headers and signatures; [Mailbox] is
      what the server does with replies ([approval.go] of [internal/store] and
      of [cmd/birdcage], [internal/mailbox/imap.go]): the mailbox is part of the
      state its polls, other mail clients and the settings interleave on.
    - [MailText] and [Outbox] are [internal/mail] with [internal/store/mail.go]:
      [MailText] the configuration, the message and the conversation with the
      submission server, which is a record of its answers; [Outbox] the table,
      the two alerts and their limits, the sender, the daily check
      ([internal/driftsched]) and the loop that runs the recorder of [History],
      with the hook that writes the alert in its transaction, and the sender
      ([cmd/birdcage/main.go], [startup.go]).
    - [NeverBlock] is [internal/neverblock], the addresses no mitigation may
      touch, over [GoNet], the part of Go's [net/netip] and [net] it and the
      visitors' page need: addresses, prefixes, their text and their overlap.
    - [RunCmd] is [internal/runcmd]: the commands an operator pastes onto a host
      and the upgrade script, as lines given to a writer that may fail at any
      of them; what is printed of a value goes through [Term],
      [internal/term], over the runes of [GoRunes].
    - [Visitors] is the dashboard's reading of the alerts: [ListAlerts] and
      [alertsInRange] of [store.go], [visitor.go], and the pages the handlers of
      [internal/api/handlers.go] make of them, over a table that grows while a
      client follows the cursor.

    ** Groups of theorems

    Each property is a theorem whose comment starts with its number and names
    the values it does not hold of, where there are any: secrets with the
    characters of their replacement (C16), coarse IPv6 ranges (C17), rows out of
    order (C19), mount names with Unicode spaces (C21), object identifiers whose
    first arcs take two octets (C31), ports and pins with newlines (C33).
    Refinements (queue, ledger, detector windows, pace, dual use, names)
    relate the code's state to a contract or to an unbounded log of what
    happened. Equivalences and round trips (positions, lines, SMB and SNMP
    messages, replies, event ids) say that what is read is exactly what was
    written. Safety and invariant theorems about the server hold for every
    interleaving, failure and lost answer of the requests; those of [Delivery]
    for every interleaving of the agent's goroutines. Where a theorem has
    hypotheses, the lemma of the same name with [_witness] applies it to a
    concrete execution.

    ** Conventions

    Bytes and strings are lists of [Z] ([GoBase]), machine integers are [Z] at
    their width with the wrap-around written where an operation can reach it,
    times and durations are nanoseconds, times from the zero time and their
    difference saturating as [Sub]'s does. A Go [(T, error)] is a [res]; a nil
    pointer is [None]. The clock, random bytes and the order in which [range]
    visits a map are arguments.

    Code outside the repository is a parameter with the laws the code relies
    on: SHA-256 and HMAC, [encoding/json], the tables of [unicode], the
    calendar and the time zone, X.509 parsing and signing, mail parsing and
    DKIM, the text form of times, [sort.Slice] (in order, ties in any order), the
    seeded generator, sockets, the file system and the transport. The witnesses
    instantiate each of them.

    ** Fuel

    Loops that are not structural run on fuel, with a theorem that it is
    enough: evicting from the queue or a detector runs at most once per
    element, the ledger's advance once per entry, the SMB collapser's shedding
    once per visit, the line reader once per byte of a chunk, the SNMP scan
    once per byte of the datagram, decimal digits twenty times (the digits of
    2^64), and a name [readName_fuel] times, its jumps and its length being
    bounded. The polling loops of [Delivery] run forever in the code: their fuel
    only bounds the part of an execution that is looked at, and every theorem
    holds for any.

    ** Not modelled

    Pure input and output and configuration: the command lines and start-up of
    [cmd/birdcage], [cmd/mockingbird], [cmd/nightjar], [cmd/holder] and
    [cmd/seed-story], the end-to-end helpers, [internal/api] (which renders what
    the store answers), the TLS servers and their reloading, the
    configuration of the mailbox, logging, the event stream, packet capture and raw sockets, the
    probes a self-test fires and the database's migrations. X.509 certificates
    and their signing ([internal/ca], [internal/agent/certkey], [renewal]) rest
    on [crypto/x509]. The rate limiter is a third-party token bucket. The
    front end is not Go.

    Of the server's own logic: the detection of two builds on one credential in
    the heartbeat's handler, whose token database rows are [Health]'s and
    [Credentials]'s; the HTTP side of enrolment, around [FirstContact] and
    [Provision]; the trace page, a third reading of the alerts; the scheduler
    that mints the self-tests [SelfTest] follows; and the scanner's agent, which
    runs an external program and reads its report. *)
From stdpp Require Export base tactics numbers list gmap strings fin_maps sorting.
From Stdlib Require Export ZArith Lia.

#[export] Set Default Goal Selector "!".

(** ** Fallible code: Go's [(T, error)] results

    A Go function that returns a value and an error is modelled as a
    [res E T]: [Ok] carries the value returned with a nil error, [Err] the
    error, of a type each component declares. *)

Inductive res (E A : Type) : Type :=
| Ok (a : A)
| Err (e : E).
Arguments Ok {E A} a.
Arguments Err {E A} e.

Definition rbind {E A B : Type} (r : res E A) (f : A -> res E B) : res E B :=
  match r with
  | Ok a => f a
  | Err e => Err e
  end.

Definition is_ok {E A : Type} (r : res E A) : bool :=
  match r with Ok _ => true | Err _ => false end.

Declare Scope go_scope.
Delimit Scope go_scope with go.

Notation "'let?' x := r 'in' k" := (rbind r (fun x => k))
  (at level 10, x pattern, r at level 100, k at level 200)
  : go_scope.

Lemma rbind_ok {E A B} (r : res E A) (f : A -> res E B) (b : B) :
  rbind r f = Ok b -> exists a, r = Ok a /\ f a = Ok b.
Proof. destruct r; simpl; [eauto|discriminate]. Qed.

(** ** Tactics of the development *)

(** Case analysis on every boolean test, decision or match the goal or a
    hypothesis is stuck on. *)
Ltac go_cases :=
  repeat (case_match || case_decide || case_bool_decide); simplify_eq/=.

(** Boolean comparisons of the code to the propositions they decide. *)
Ltac go_bools :=
  repeat match goal with
  | H : (_ && _)%bool = true |- _ => apply andb_true_iff in H; destruct H
  | H : (_ || _)%bool = false |- _ => apply orb_false_iff in H; destruct H
  | H : negb _ = true |- _ => apply negb_true_iff in H
  | H : negb _ = false |- _ => apply negb_false_iff in H
  | H : Z.ltb _ _ = true |- _ => apply Z.ltb_lt in H
  | H : Z.ltb _ _ = false |- _ => apply Z.ltb_ge in H
  | H : Z.leb _ _ = true |- _ => apply Z.leb_le in H
  | H : Z.leb _ _ = false |- _ => apply Z.leb_gt in H
  | H : Z.eqb _ _ = true |- _ => apply Z.eqb_eq in H
  | H : Z.eqb _ _ = false |- _ => apply Z.eqb_neq in H
  | H : Nat.ltb _ _ = true |- _ => apply Nat.ltb_lt in H
  | H : Nat.ltb _ _ = false |- _ => apply Nat.ltb_ge in H
  | H : Nat.leb _ _ = true |- _ => apply Nat.leb_le in H
  | H : Nat.leb _ _ = false |- _ => apply Nat.leb_gt in H
  | H : Nat.eqb _ _ = true |- _ => apply Nat.eqb_eq in H
  | H : Nat.eqb _ _ = false |- _ => apply Nat.eqb_neq in H
  | H : bool_decide _ = true |- _ => apply bool_decide_eq_true in H
  | H : bool_decide _ = false |- _ => apply bool_decide_eq_false in H
  end.

(** Inversion of an [Ok] result through the sequencing of the error monad. *)
Ltac inv_ok :=
  repeat match goal with
  | H : rbind ?r _ = Ok _ |- _ =>
      let a := fresh "a" in let Ha := fresh "Hok" in
      apply rbind_ok in H; destruct H as [a [Ha H]]
  | H : Ok _ = Ok _ |- _ => inversion H; subst; clear H
  | H : Err _ = Ok _ |- _ => discriminate H
  end.

(** The hint database of the library's structural lemmas. *)
Create HintDb go.
Create Rewrite HintDb go.
#[export] Hint Constants Transparent : go.

(** ** Lists *)

Section lists.
Context {A : Type}.
Implicit Types l k : list A.

Lemma filter_all (P : A -> Prop) `{forall x, Decision (P x)} l :
  Forall P l -> filter P l = l.
Proof. induction 1; [done|]. rewrite filter_cons_True; congruence. Qed.

Lemma filter_none (P : A -> Prop) `{forall x, Decision (P x)} l :
  Forall (fun x => ~ P x) l -> filter P l = [].
Proof. induction 1; [done|]. rewrite filter_cons_False; done. Qed.

Lemma NoDup_fmap_filter {B} (f : A -> B) (P : A -> Prop)
    `{forall x, Decision (P x)} l :
  NoDup (f <$> l) -> NoDup (f <$> filter P l).
Proof. intros Hl. eapply sublist_NoDup, fmap_sublist, sublist_filter. done. Qed.

Lemma filter_fmap_ne {B} `{EqDecision B} (f : A -> B) (b : B) l :
  b ∉ f <$> l -> filter (fun x => f x ≠ b) l = l.
Proof.
  intros Hb. apply filter_all, Forall_forall. intros x Hx Heq.
  apply Hb, list_elem_of_fmap. eauto.
Qed.

(** The elements a left scan keeps dropping, and the first it keeps. *)
Fixpoint drop_while (p : A -> bool) l : list A :=
  match l with
  | [] => []
  | x :: l' => if p x then drop_while p l' else l
  end.

Fixpoint take_while (p : A -> bool) l : list A :=
  match l with
  | [] => []
  | x :: l' => if p x then x :: take_while p l' else []
  end.

Lemma take_drop_while p l : take_while p l ++ drop_while p l = l.
Proof. induction l as [|x l IH]; simpl; [done|]. destruct (p x); simpl; congruence. Qed.

Lemma take_while_forall p l : Forall (fun x => p x = true) (take_while p l).
Proof. induction l as [|x l IH]; simpl; [done|]. destruct (p x) eqn:E; auto. Qed.

Lemma drop_while_head p l x k : drop_while p l = x :: k -> p x = false.
Proof.
  induction l as [|y l IH]; simpl; [done|].
  destruct (p y) eqn:E; [auto|]. by intros [= -> ->].
Qed.

(** Induction two elements at a time. *)
Lemma list_two_ind (P : list A -> Prop) :
  P [] -> (forall x, P [x]) -> (forall x y l, P l -> P (x :: y :: l)) -> forall l, P l.
Proof. intros H0 H1 H2. fix IH 1. intros [|x [|y l]]; [exact H0|apply H1|apply H2, IH]. Qed.

Lemma drop_while_suffix p l : drop_while p l `suffix_of` l.
Proof. exists (take_while p l). by rewrite take_drop_while. Qed.
End lists.

(** The latest of the elements a scan meets. *)
Definition keep_latest {A : Type} (newer : A -> A -> bool) (o : option A) (a : A) : option A :=
  match o with
  | None => Some a
  | Some l => if newer l a then Some a else o
  end.

Lemma keep_latest_spec {A} (newer : A -> A -> bool) (le : relation A) `{!PreOrder le} l :
  (forall x a, newer x a = true -> le x a) -> (forall x a, newer x a = false -> le a x) ->
  match foldl (keep_latest newer) None l with
  | Some a => a ∈ l /\ forall b, b ∈ l -> le b a
  | None => l = []
  end.
Proof.
  intros Ht Hf. induction l as [|x l IH] using rev_ind; [done|]. rewrite foldl_snoc.
  destruct (foldl _ None l) as [a|]; cbn [keep_latest].
  - destruct IH as [Ha Hall]. destruct (newer a x) eqn:Hn; setoid_rewrite elem_of_app; setoid_rewrite list_elem_of_singleton.
    + split; [by right|]. intros b [Hb| ->]; [|reflexivity]. transitivity a; auto.
    + split; [by left|]. intros b [Hb| ->]; auto.
  - subst l. split; [by left|]. intros b ->%list_elem_of_singleton. reflexivity.
Qed.

Lemma sorted_filter {A} (R : A -> A -> Prop) (P : A -> Prop) `{forall x, Decision (P x)} (l : list A) :
  StronglySorted R l -> StronglySorted R (filter P l).
Proof.
  induction 1 as [|x l Hl IH Hx]; [constructor|]. rewrite filter_cons. case_decide; [|done]. constructor; [done|].
  apply Forall_forall. intros y [_ Hy]%list_elem_of_filter. by eapply Forall_forall in Hx.
Qed.

(** Sum of a measure over a list. *)
Definition sum_by {A : Type} (f : A -> Z) (l : list A) : Z :=
  foldr (fun x acc => f x + acc)%Z 0%Z l.

Lemma sum_by_app {A} (f : A -> Z) l k : (sum_by f (l ++ k) = sum_by f l + sum_by f k)%Z.
Proof. unfold sum_by. induction l; simpl; lia. Qed.

Lemma sum_by_nonneg {A} (f : A -> Z) l :
  (forall x, 0 <= f x)%Z -> (0 <= sum_by f l)%Z.
Proof. intros Hf. unfold sum_by. induction l as [|x l IH]; simpl; [lia|]. specialize (Hf x); lia. Qed.

Lemma sum_by_cons {A} (f : A -> Z) x l : (sum_by f (x :: l) = f x + sum_by f l)%Z.
Proof. done. Qed.

#[export] Hint Resolve sum_by_nonneg take_while_forall drop_while_suffix : go.
#[export] Hint Rewrite @sum_by_app @sum_by_cons : go.
