(* ===== verification/GoBase.v ===== *)
(** The fragment of the Go language and its standard library the modelled
    code uses: fixed-width integers, byte slices and strings as lists of
    bytes in [Z], [encoding/binary]'s big-endian words, and the functions of
    [strings], [bytes] and [strconv] the components call. *)
From S2P Require Import Prelude.
#[local] Open Scope Z_scope.

(** ** Fixed-width integers *)

Definition wrap_u (w x : Z) : Z := x mod 2 ^ w.
Definition wrap_i (w x : Z) : Z := (x + 2 ^ (w - 1)) mod 2 ^ w - 2 ^ (w - 1).

Abbreviation u8 := (wrap_u 8).
Abbreviation u16 := (wrap_u 16).
Abbreviation u64 := (wrap_u 64).
Abbreviation i64 := (wrap_i 64).

Definition in_u (w x : Z) : Prop := 0 <= x < 2 ^ w.
Definition in_i (w x : Z) : Prop := - 2 ^ (w - 1) <= x < 2 ^ (w - 1).

Lemma wrap_u_range w x : 0 <= w -> in_u w (wrap_u w x).
Proof. intros. apply Z.mod_pos_bound. lia. Qed.

Lemma wrap_u_small w x : in_u w x -> wrap_u w x = x.
Proof. intros. by apply Z.mod_small. Qed.

Lemma wrap_i_range w x : 1 <= w -> in_i w (wrap_i w x).
Proof.
  intros. unfold in_i, wrap_i.
  assert (2 ^ w = 2 * 2 ^ (w - 1)) as Hw.
  { rewrite <- Z.pow_succ_r by lia. f_equal; lia. }
  pose proof (Z.mod_pos_bound (x + 2 ^ (w - 1)) (2 ^ w)). lia.
Qed.

Lemma wrap_i_small w x : 1 <= w -> in_i w x -> wrap_i w x = x.
Proof.
  intros Hw [Hlo Hhi]. unfold wrap_i.
  assert (2 ^ w = 2 * 2 ^ (w - 1)) as ?.
  { rewrite <- Z.pow_succ_r by lia. f_equal; lia. }
  rewrite Z.mod_small; lia.
Qed.

(** Reading an unsigned word as signed undoes reading the signed as unsigned. *)
Lemma wrap_u_add w x y : wrap_u w (wrap_u w x + y) = wrap_u w (x + y).
Proof. unfold wrap_u. apply Zplus_mod_idemp_l. Qed.

Lemma wrap_i_u w x : 1 <= w -> in_i w x -> wrap_i w (wrap_u w x) = x.
Proof.
  intros Hw Hx. unfold wrap_i, wrap_u.
  rewrite Zplus_mod_idemp_l. by apply wrap_i_small.
Qed.

(** Times are nanoseconds from Go's zero time, durations nanoseconds;
    [a.Sub(b)] saturates at the range of a duration. *)
Definition time_sub (a b : Z) : Z := Z.max (- 2 ^ 63) (Z.min (a - b) (2 ^ 63 - 1)).

(** ** Bytes, byte slices and strings *)

Abbreviation bytes := (list Z).

Definition is_byte (b : Z) : Prop := 0 <= b < 256.
#[export] Instance is_byte_dec b : Decision (is_byte b).
Proof. unfold is_byte. apply _. Defined.

Abbreviation wf_bytes := (Forall is_byte).

Definition zlen {A : Type} (l : list A) : Z := Z.of_nat (length l).

Lemma zlen_nil {A} : zlen (@nil A) = 0.
Proof. done. Qed.
Lemma zlen_cons {A} (x : A) l : zlen (x :: l) = zlen l + 1.
Proof. unfold zlen. simpl. lia. Qed.
Lemma zlen_app {A} (l k : list A) : zlen (l ++ k) = zlen l + zlen k.
Proof. unfold zlen. rewrite length_app. lia. Qed.
Lemma zlen_nonneg {A} (l : list A) : 0 <= zlen l.
Proof. unfold zlen. lia. Qed.

Lemma zlen_pos {A} (l : list A) : l ≠ [] -> 0 < zlen l.
Proof. destruct l; [done|]. intros _. unfold zlen. simpl. lia. Qed.

#[export] Hint Resolve @zlen_nonneg : go.
#[export] Hint Rewrite @zlen_nil @zlen_cons @zlen_app : go.

(** A string literal of the source as its bytes. *)
Definition lit (s : string) : bytes :=
  (fun a => Z.of_N (Ascii.N_of_ascii a)) <$> String.list_ascii_of_string s.

Lemma ascii_is_byte a : is_byte (Z.of_N (Ascii.N_of_ascii a)).
Proof. unfold is_byte. pose proof (Ascii.N_ascii_bounded a). lia. Qed.

Lemma lit_wf s : wf_bytes (lit s).
Proof. apply Forall_fmap, Forall_true. intros. apply ascii_is_byte. Qed.
#[export] Hint Resolve lit_wf : go.

(** [b[i]]: [None] is Go's index-out-of-range panic. *)
Definition at_ (b : bytes) (i : Z) : option Z :=
  if decide (0 <= i) then b !! Z.to_nat i else None.

(** [b[i:j]] for [0 <= i <= j <= len(b)]. *)
Definition slice (b : bytes) (i j : Z) : bytes :=
  take (Z.to_nat (j - i)) (drop (Z.to_nat i) b).

Lemma at_some b i : 0 <= i < zlen b -> exists x, at_ b i = Some x.
Proof.
  intros Hi. unfold at_, zlen in *. rewrite decide_True by lia.
  apply lookup_lt_is_Some_2. lia.
Qed.

Lemma at_wf b i x : wf_bytes b -> at_ b i = Some x -> is_byte x.
Proof.
  unfold at_. intros Hb. case_decide; [|done].
  intros Hx. by eapply Forall_lookup_1 in Hx.
Qed.

Lemma at_bounds b i x : at_ b i = Some x -> 0 <= i < zlen b.
Proof.
  unfold at_, zlen. case_decide; [|done]. intros Hx%lookup_lt_Some. lia.
Qed.

Lemma zlen_slice b i j : 0 <= i -> i <= j -> j <= zlen b -> zlen (slice b i j) = j - i.
Proof. unfold slice, zlen. intros. rewrite length_take, length_drop. lia. Qed.

Lemma slice_wf b i j : wf_bytes b -> wf_bytes (slice b i j).
Proof. intros. unfold slice. by apply Forall_take, Forall_drop. Qed.

Lemma slice_app_mid (p m s : bytes) :
  slice (p ++ m ++ s) (zlen p) (zlen p + zlen m) = m.
Proof.
  unfold slice, zlen.
  rewrite Nat2Z.id, drop_app_length.
  replace (Z.to_nat _) with (length m) by lia.
  by rewrite take_app_length.
Qed.

Lemma at_app_mid (p : bytes) x s : at_ (p ++ x :: s) (zlen p) = Some x.
Proof.
  unfold at_, zlen. rewrite decide_True by lia. rewrite Nat2Z.id.
  by rewrite list_lookup_middle.
Qed.

#[export] Hint Resolve slice_wf at_wf : go.

(** The checked read of a byte, in the error type of the caller. *)
Definition byte_or {E : Type} (panic : E) (b : bytes) (i : Z) : res E Z :=
  match at_ b i with Some x => Ok x | None => Err panic end.

Lemma byte_or_in {E} (panic : E) b i :
  0 <= i < zlen b -> exists x, at_ b i = Some x /\ byte_or panic b i = Ok x.
Proof. intros [x Hx]%at_some. exists x. unfold byte_or. by rewrite Hx. Qed.

(** ** [encoding/binary]: big-endian words *)

Definition be_bytes (n : nat) (x : Z) : bytes :=
  (fun i => (x / 256 ^ Z.of_nat (n - 1 - i)) mod 256) <$> seq 0 n.

Definition be_val (b : bytes) : Z := foldl (fun acc x => acc * 256 + x) 0 b.

Definition put_u16 (x : Z) : bytes := be_bytes 2 x.
Definition put_u64 (x : Z) : bytes := be_bytes 8 x.

#[global] Arguments be_bytes _ _ : simpl never.
#[global] Arguments put_u16 _ : simpl never.
#[global] Arguments put_u64 _ : simpl never.

(** [binary.BigEndian.Uint16(b[i:i+2])] and [Uint64(b[i:i+8])]. *)
Definition get_u16 (b : bytes) (i : Z) : Z := be_val (slice b i (i + 2)).
Definition get_u64 (b : bytes) (i : Z) : Z := be_val (slice b i (i + 8)).

Lemma foldl_be (b : bytes) acc :
  foldl (fun acc x => acc * 256 + x) acc b = acc * 256 ^ zlen b + be_val b.
Proof.
  unfold be_val. revert acc. induction b as [|x b IH]; intros acc; cbn [foldl].
  { rewrite zlen_nil. lia. }
  rewrite zlen_cons, (IH (acc * 256 + x)), (IH (0 * 256 + x)).
  rewrite Z.pow_add_r by (pose proof (zlen_nonneg b); lia). lia.
Qed.

Lemma be_val_cons x b : be_val (x :: b) = x * 256 ^ zlen b + be_val b.
Proof. unfold be_val at 1. cbn [foldl]. rewrite foldl_be. lia. Qed.

Lemma be_val_range b : wf_bytes b -> 0 <= be_val b < 256 ^ zlen b.
Proof.
  induction 1 as [|x b Hx Hb IH]; [done|].
  rewrite be_val_cons, zlen_cons, Z.pow_add_r by (pose proof (zlen_nonneg b); lia).
  unfold is_byte in Hx. nia.
Qed.

Lemma be_bytes_S n x :
  be_bytes (S n) x = (x / 256 ^ Z.of_nat n) mod 256 :: be_bytes n x.
Proof.
  unfold be_bytes. simpl. f_equal; [do 3 f_equal; lia|].
  rewrite <- seq_shift. rewrite <- list_fmap_compose.
  apply list_fmap_ext. intros i y Hy. simpl. do 3 f_equal. lia.
Qed.

Lemma zlen_be_bytes n x : zlen (be_bytes n x) = Z.of_nat n.
Proof. unfold be_bytes, zlen. by rewrite length_fmap, length_seq. Qed.

Lemma be_bytes_wf n x : wf_bytes (be_bytes n x).
Proof. apply Forall_fmap, Forall_true. intros i. apply Z.mod_pos_bound. lia. Qed.

Lemma be_val_bytes n x : be_val (be_bytes n x) = x mod 256 ^ Z.of_nat n.
Proof.
  induction n as [|n IH]; [by rewrite Z.mod_1_r|].
  rewrite be_bytes_S, be_val_cons, zlen_be_bytes, IH.
  rewrite Nat2Z.inj_succ, Z.pow_succ_r, (Z.mul_comm 256) by lia.
  rewrite Z.rem_mul_r by lia. lia.
Qed.

Lemma be_bytes_mod n x y : be_bytes n (x + y * 256 ^ Z.of_nat n) = be_bytes n x.
Proof.
  revert y. induction n as [|n IH]; intros y; [done|]. rewrite !be_bytes_S.
  replace (x + y * 256 ^ Z.of_nat (S n)) with (x + (y * 256) * 256 ^ Z.of_nat n)
    by (rewrite Nat2Z.inj_succ, Z.pow_succ_r by lia; lia).
  rewrite IH. f_equal. rewrite Z.div_add by lia. by rewrite Z_mod_plus_full.
Qed.

Lemma be_bytes_val b : wf_bytes b -> be_bytes (length b) (be_val b) = b.
Proof.
  induction 1 as [|x b Hx Hb IH]; [done|].
  simpl length. rewrite be_bytes_S, be_val_cons.
  pose proof (be_val_range b Hb) as Hr. unfold zlen in *. f_equal.
  - rewrite Z.add_comm, Z.div_add, Z.div_small by lia. by apply Z.mod_small.
  - rewrite Z.add_comm, be_bytes_mod. done.
Qed.

Lemma wrap_u_i w x : 1 <= w -> in_u w x -> wrap_u w (wrap_i w x) = x.
Proof.
  intros Hw Hx. unfold wrap_i, wrap_u.
  rewrite Zminus_mod_idemp_l. replace (_ - _) with x by lia. by apply Z.mod_small.
Qed.

Lemma slice_split b i j k :
  0 <= i -> i <= j -> j <= k -> k <= zlen b -> slice b i k = slice b i j ++ slice b j k.
Proof.
  unfold slice, zlen. intros.
  replace (Z.to_nat (k - i)) with (Z.to_nat (j - i) + Z.to_nat (k - j))%nat by lia.
  rewrite <- take_take_drop, drop_drop. do 2 f_equal. f_equal. lia.
Qed.

Lemma slice_full b : slice b 0 (zlen b) = b.
Proof.
  unfold slice, zlen. rewrite Z.sub_0_r, Nat2Z.id. simpl. by rewrite firstn_all.
Qed.

Lemma put_u16_val x : in_u 16 x -> be_val (put_u16 x) = x.
Proof. intros. unfold put_u16. rewrite be_val_bytes. by apply Z.mod_small. Qed.

Lemma put_u64_val x : be_val (put_u64 x) = u64 x.
Proof. apply be_val_bytes. Qed.

Lemma zlen_put_u16 x : zlen (put_u16 x) = 2.
Proof. apply zlen_be_bytes. Qed.

Lemma zlen_put_u64 x : zlen (put_u64 x) = 8.
Proof. apply zlen_be_bytes. Qed.

#[export] Hint Resolve be_bytes_wf : go.
#[export] Hint Rewrite zlen_put_u16 zlen_put_u64 : go.

Lemma get_u16_range b i : wf_bytes b -> 0 <= i -> i + 2 <= zlen b -> in_u 16 (get_u16 b i).
Proof.
  intros. unfold get_u16.
  pose proof (be_val_range _ (slice_wf b i (i + 2) ltac:(done))) as Hr.
  rewrite zlen_slice in Hr by lia.
  by replace (i + 2 - i) with 2 in Hr by lia.
Qed.

(** A word written at offset [zlen p] is read back there. *)
Lemma get_u16_put p x s : in_u 16 x -> get_u16 (p ++ put_u16 x ++ s) (zlen p) = x.
Proof.
  intros Hx. unfold get_u16.
  replace (zlen p + 2) with (zlen p + zlen (put_u16 x)) by (rewrite zlen_put_u16; lia).
  rewrite slice_app_mid. by apply put_u16_val.
Qed.
