(* ===== verification/GoList.v ===== *)
(** Go's [container/list]: a doubly linked list whose elements are pointers.

    An element is an address; the list is the sequence of its elements,
    front first, each with the value it holds, and the next address the
    allocator hands out. Code that keeps a [*list.Element] (the queue's and
    the ledger's indexes, the tracker's recency entries) keeps the address,
    so the aliasing between an index and the list is in the model. *)
From S2P Require Import Prelude.

Record glist (A : Type) : Type := mkGlist {
  gl_next : nat;
  gl_elems : list (nat * A);
}.
Arguments mkGlist {A} _ _.
Arguments gl_next {A} _.
Arguments gl_elems {A} _.

Section glist.
Context {A : Type}.
Implicit Types (l : glist A) (a : nat) (v : A).

(** [list.New()] *)
Definition gl_new : glist A := mkGlist 0 [].

Definition gl_values l : list A := snd <$> gl_elems l.
Definition gl_addrs l : list nat := fst <$> gl_elems l.

(** [l.Len()] *)
Definition gl_len l : nat := length (gl_elems l).

(** [l.PushBack(v)], returning the new element *)
Definition gl_push_back l v : nat * glist A :=
  (gl_next l, mkGlist (S (gl_next l)) (gl_elems l ++ [(gl_next l, v)])).

(** [l.Front()] *)
Definition gl_front l : option (nat * A) := head (gl_elems l).

(** [e.Value] *)
Definition gl_value l a : option A :=
  snd <$> find (fun e => bool_decide (fst e = a)) (gl_elems l).

(** [l.Remove(e)] *)
Definition gl_remove l a : glist A :=
  mkGlist (gl_next l) (filter (fun e => fst e ≠ a) (gl_elems l)).

(** A write through the pointer an element holds. *)
Definition gl_update l a (f : A -> A) : glist A :=
  mkGlist (gl_next l)
    ((fun e => if decide (fst e = a) then (fst e, f (snd e)) else e) <$> gl_elems l).

(** [l.MoveToBack(e)] *)
Definition gl_move_to_back l a : glist A :=
  match gl_value l a with
  | Some v => mkGlist (gl_next l) (gl_elems (gl_remove l a) ++ [(a, v)])
  | None => l
  end.

(** Distinct elements have distinct addresses, all below the allocator's. *)
Definition gl_wf l : Prop :=
  NoDup (gl_addrs l) /\ Forall (fun a => a < gl_next l) (gl_addrs l).

Lemma gl_wf_new : gl_wf gl_new.
Proof. split; constructor. Qed.

Lemma gl_wf_fresh l : gl_wf l -> gl_next l ∉ gl_addrs l.
Proof. intros [_ Hlt] Hin. rewrite Forall_forall in Hlt. apply Hlt in Hin. lia. Qed.

Lemma gl_wf_push_back l v : gl_wf l -> gl_wf (gl_push_back l v).2.
Proof.
  intros Hwf. pose proof (gl_wf_fresh _ Hwf) as Hf. destruct Hwf as [Hnd Hlt].
  unfold gl_wf, gl_addrs, gl_push_back in *. simpl. rewrite fmap_app. simpl. split.
  - apply NoDup_app. split; [done|]. split; [|apply NoDup_singleton].
    intros x Hx Hx'%list_elem_of_singleton. by subst.
  - apply Forall_app. split; [|repeat constructor].
    eapply Forall_impl; [done|]. simpl. lia.
Qed.

Lemma gl_addrs_remove l a : gl_addrs (gl_remove l a) = filter (fun x => x ≠ a) (gl_addrs l).
Proof.
  unfold gl_addrs, gl_remove. simpl. induction (gl_elems l) as [|e es IH]; [done|].
  rewrite fmap_cons, !filter_cons. simpl. case_decide; simpl; [by f_equal|done].
Qed.

Lemma gl_wf_remove l a : gl_wf l -> gl_wf (gl_remove l a).
Proof.
  intros [Hnd Hlt]. unfold gl_wf. rewrite gl_addrs_remove. split.
  - eapply sublist_NoDup; [done|apply sublist_filter].
  - simpl. rewrite Forall_forall in *. intros x [_ Hx]%list_elem_of_filter. auto.
Qed.

Lemma gl_addrs_update l a f : gl_addrs (gl_update l a f) = gl_addrs l.
Proof.
  unfold gl_addrs, gl_update. simpl. rewrite <- list_fmap_compose.
  apply list_fmap_ext. intros i [x v] _. simpl. by case_decide.
Qed.

Lemma gl_wf_update l a f : gl_wf l -> gl_wf (gl_update l a f).
Proof. unfold gl_wf. by rewrite gl_addrs_update. Qed.

(** The element at an address, as membership. *)
Lemma gl_value_elem l a v : gl_value l a = Some v -> (a, v) ∈ gl_elems l.
Proof.
  unfold gl_value. intros H. apply fmap_Some in H as ([a' v'] & Hf & ->).
  apply find_some in Hf as [Hin Heq]. apply bool_decide_eq_true in Heq. simpl in *. subst.
  by apply list_elem_of_In.
Qed.

Lemma gl_elem_value l a v : gl_wf l -> (a, v) ∈ gl_elems l -> gl_value l a = Some v.
Proof.
  intros [Hnd _] Hin. unfold gl_value, gl_addrs in *.
  induction (gl_elems l) as [|[a' v'] es IH]; [by apply not_elem_of_nil in Hin|].
  rewrite fmap_cons, NoDup_cons in Hnd. destruct Hnd as [Hn Hnd]. simpl in *.
  case_bool_decide as Ha; simpl.
  - apply elem_of_cons in Hin as [Heq|Hin]; [by inversion Heq|].
    subst. destruct Hn. by apply (list_elem_of_fmap_2 fst) in Hin.
  - apply elem_of_cons in Hin as [Heq|Hin]; [by inversion Heq; subst|auto].
Qed.

Lemma gl_value_iff l a v : gl_wf l -> gl_value l a = Some v <-> (a, v) ∈ gl_elems l.
Proof. intros. split; [apply gl_value_elem|by apply gl_elem_value]. Qed.

Lemma gl_elem_addr l a v : (a, v) ∈ gl_elems l -> a ∈ gl_addrs l.
Proof. intros H. by apply (list_elem_of_fmap_2 fst) in H. Qed.

Lemma gl_addr_elem l a : a ∈ gl_addrs l -> exists v, (a, v) ∈ gl_elems l.
Proof. intros H. apply list_elem_of_fmap in H as ([a' v] & -> & H). by exists v. Qed.

Lemma gl_elems_inj l a v v' :
  gl_wf l -> (a, v) ∈ gl_elems l -> (a, v') ∈ gl_elems l -> v = v'.
Proof.
  intros Hwf H1%gl_elem_value H2%gl_elem_value; [|done..]. congruence.
Qed.

Lemma gl_elem_remove l a b v :
  (b, v) ∈ gl_elems (gl_remove l a) <-> b ≠ a /\ (b, v) ∈ gl_elems l.
Proof. unfold gl_remove. simpl. by rewrite list_elem_of_filter. Qed.

(** Removing the front element drops the head of the list. *)
Lemma gl_remove_front l a v es :
  gl_wf l -> gl_elems l = (a, v) :: es -> gl_elems (gl_remove l a) = es.
Proof.
  intros [Hnd _] Hl. unfold gl_remove, gl_addrs in *. rewrite Hl in *. simpl in *.
  apply NoDup_cons in Hnd as [Hn _]. rewrite filter_cons_False by (simpl; tauto).
  by apply filter_fmap_ne.
Qed.

Lemma gl_len_push_back l v : gl_len (gl_push_back l v).2 = S (gl_len l).
Proof. unfold gl_len. simpl. rewrite length_app. simpl. lia. Qed.

Lemma gl_values_push_back l v : gl_values (gl_push_back l v).2 = gl_values l ++ [v].
Proof. unfold gl_values. simpl. by rewrite fmap_app. Qed.

Lemma gl_len_values l : gl_len l = length (gl_values l).
Proof. unfold gl_len, gl_values. by rewrite length_fmap. Qed.

Lemma gl_front_none l : gl_front l = None <-> gl_elems l = [].
Proof. unfold gl_front. by destruct (gl_elems l). Qed.

Lemma gl_front_some l a v :
  gl_front l = Some (a, v) <-> exists es, gl_elems l = (a, v) :: es.
Proof.
  unfold gl_front. destruct (gl_elems l) as [|[a' v'] es]; simpl.
  - split; [discriminate|]. by intros [es Hes].
  - split; [intros [= -> ->]; eauto|intros [es' [= -> -> ->]]; done].
Qed.

(** Moving an element to the back keeps the elements. *)
Lemma gl_elem_move l a b v :
  gl_wf l -> (b, v) ∈ gl_elems (gl_move_to_back l a) <-> (b, v) ∈ gl_elems l.
Proof.
  intros Hwf. unfold gl_move_to_back.
  destruct (gl_value l a) as [w|] eqn:Ha; [|done]. simpl.
  apply gl_value_elem in Ha. rewrite elem_of_app, list_elem_of_singleton.
  rewrite (gl_elem_remove l a b v). split.
  - intros [[_ ?]|[= -> ->]]; done.
  - intros Hb. destruct (decide (b = a)) as [->|]; [right|by left].
    f_equal. by eapply gl_elems_inj.
Qed.

Lemma gl_wf_move l a : gl_wf l -> gl_wf (gl_move_to_back l a).
Proof.
  intros Hwf. unfold gl_move_to_back.
  destruct (gl_value l a) as [w|] eqn:Ha; [|done].
  apply gl_value_elem, gl_elem_addr in Ha.
  destruct (gl_wf_remove l a Hwf) as [Hnd Hlt].
  assert (gl_addrs (mkGlist (gl_next l) (gl_elems (gl_remove l a) ++ [(a, w)])) =
          gl_addrs (gl_remove l a) ++ [a]) as Haddr.
  { unfold gl_addrs. simpl. by rewrite fmap_app. }
  unfold gl_wf. rewrite Haddr. simpl. split.
  - apply NoDup_app. split; [done|]. split; [|apply NoDup_singleton].
    intros x Hx ->%list_elem_of_singleton.
    rewrite gl_addrs_remove in Hx. by apply list_elem_of_filter in Hx as [? _].
  - apply Forall_app. split; [done|]. repeat constructor.
    destruct Hwf as [_ Hall]. rewrite Forall_forall in Hall. auto.
Qed.

End glist.


#[export] Hint Resolve gl_wf_new gl_wf_push_back gl_wf_remove gl_wf_update gl_wf_move : go.
