(* ===== verification/GoStrings.v ===== *)
(** Go's [strings] and [strconv] as the modelled code uses them, over byte
    strings. On ASCII input they are written out; the tables of the [unicode]
    package, which they consult past ASCII, are the operations of the class
    [Unicode]. *)
From S2P Require Import Prelude GoBase.
#[local] Open Scope Z_scope.

Class Unicode : Type := {
  uni_upper : bytes -> bytes;
  uni_lower : bytes -> bytes;
  uni_trim : bytes -> bytes;
  uni_trim_right : bytes -> bytes;
  uni_fold_equal : bytes -> bytes -> bool;
}.

(** A table that maps nothing, for concrete runs on ASCII input. *)
Definition ascii_only : Unicode := {|
  uni_upper := id; uni_lower := id; uni_trim := id; uni_trim_right := id;
  uni_fold_equal s u := bool_decide (s = u)
|}.

Definition is_ascii (s : bytes) : bool := forallb (fun c => c <? 128) s.

Definition is_lower (c : Z) : bool := (97 <=? c) && (c <=? 122).
Definition is_upper (c : Z) : bool := (65 <=? c) && (c <=? 90).
Definition is_digit (c : Z) : bool := (48 <=? c) && (c <=? 57).

Definition upper_byte (c : Z) : Z := if is_lower c then c - 32 else c.
Definition lower_byte (c : Z) : Z := if is_upper c then c + 32 else c.

(** [strings.ToUpper], [strings.ToLower] *)
Definition ToUpper `{Unicode} (s : bytes) : bytes :=
  if is_ascii s then upper_byte <$> s else uni_upper s.
Definition ToLower `{Unicode} (s : bytes) : bytes :=
  if is_ascii s then lower_byte <$> s else uni_lower s.

(** [strings.EqualFold] *)
Definition EqualFold `{Unicode} (s u : bytes) : bool :=
  if is_ascii s && is_ascii u then bool_decide (lower_byte <$> s = lower_byte <$> u) else uni_fold_equal s u.

Definition ascii_space (c : Z) : bool := ((9 <=? c) && (c <=? 13)) || (c =? 32).

(** The right end of [strings.TrimSpace], on the reversed string. *)
Fixpoint trim_space_right `{Unicode} (r : bytes) : bytes :=
  match r with
  | [] => []
  | c :: r' =>
      if 128 <=? c then uni_trim_right (reverse r)
      else if ascii_space c then trim_space_right r' else reverse r
  end.

(** [strings.TrimSpace] *)
Fixpoint TrimSpace `{Unicode} (s : bytes) : bytes :=
  match s with
  | [] => []
  | c :: s' =>
      if 128 <=? c then uni_trim s
      else if ascii_space c then TrimSpace s' else trim_space_right (reverse s)
  end.

(** [strings.TrimRight(s, string(c))] for a one-byte cutset. *)
Definition TrimRight (s : bytes) (c : Z) : bytes :=
  reverse (drop_while (fun x => x =? c) (reverse s)).

Definition HasPrefix (s p : bytes) : bool := bool_decide (p `prefix_of` s).

(** [strings.TrimSuffix] *)
Definition TrimSuffix (s suf : bytes) : bytes :=
  if decide (suf `suffix_of` s) then take (length s - length suf)%nat s else s.

(** [strings.IndexByte]: the first index of [c], or -1. *)
Fixpoint IndexByte_from (s : bytes) (c i : Z) : Z :=
  match s with
  | [] => -1
  | x :: s' => if x =? c then i else IndexByte_from s' c (i + 1)
  end.
Definition IndexByte (s : bytes) (c : Z) : Z := IndexByte_from s c 0.

(** [strings.Split(s, string(c))] for a one-byte separator: the fields
    between separators, one even for the empty string. *)
Fixpoint split_acc (s : bytes) (c : Z) (cur : bytes) : list bytes :=
  match s with
  | [] => [reverse cur]
  | x :: s' => if x =? c then reverse cur :: split_acc s' c [] else split_acc s' c (x :: cur)
  end.
Definition Split (s : bytes) (c : Z) : list bytes := split_acc s c [].

(** [strings.Cut] around the first separator byte. *)
Fixpoint Cut (s : bytes) (c : Z) : bytes * bytes * bool :=
  match s with
  | [] => ([], [], false)
  | x :: s' =>
      if x =? c then ([], s', true)
      else let '(before, after, found) := Cut s' c in
           if (found : bool) then (x :: before, after, true) else (s, [], false)
  end.

(** [strings.Cut] around the first occurrence of [sep], and
    [strings.Contains]. *)
Fixpoint CutStr (s sep : bytes) : bytes * bytes * bool :=
  if HasPrefix s sep then ([], drop (length sep) s, true) else
  match s with
  | [] => ([], [], false)
  | x :: s' =>
      let '(before, after, found) := CutStr s' sep in
      if (found : bool) then (x :: before, after, true) else (s, [], false)
  end.

Definition ContainsStr (s sub : bytes) : bool := (CutStr s sub).2.

(** [strings.Join] with a one-byte separator. *)
Fixpoint Join (l : list bytes) (c : Z) : bytes :=
  match l with
  | [] => []
  | [x] => x
  | x :: l' => x ++ c :: Join l' c
  end.

(** The value of a string of decimal digits, and the digits of a number. *)
Definition dec_val (s : bytes) : Z := foldl (fun acc c => acc * 10 + (c - 48)) 0 s.

Fixpoint dec_digits_fuel (fuel : nat) (n : Z) (acc : bytes) : bytes :=
  match fuel with
  | O => acc
  | S fuel =>
      let acc := 48 + n mod 10 :: acc in
      if n / 10 =? 0 then acc else dec_digits_fuel fuel (n / 10) acc
  end.

(** [strconv.Itoa] on a 64-bit [int]: at most 19 digits and a sign. *)
Definition Itoa (n : Z) : bytes :=
  if n <? 0 then 45 :: dec_digits_fuel 20 (- n) [] else dec_digits_fuel 20 n [].

(** [strconv.Atoi]: an optional sign, then digits only, in the range of a
    64-bit [int]; anything else is an error. *)
Definition Atoi (s : bytes) : option Z :=
  let '(neg, ds) :=
    match s with
    | 43 :: r => (false, r)
    | 45 :: r => (true, r)
    | _ => (false, s)
    end in
  if bool_decide (ds = []) || negb (forallb is_digit ds) then None
  else
    let n := if (neg : bool) then - dec_val ds else dec_val ds in
    if (- 2 ^ 63 <=? n) && (n <? 2 ^ 63) then Some n else None.

(** ** Lemmas *)

Lemma lower_upper_byte c : is_upper c = false -> lower_byte (upper_byte c) = c.
Proof.
  unfold lower_byte, upper_byte. intros Hc. destruct (is_lower c) eqn:E; [|by rewrite Hc].
  unfold is_lower, is_upper in *.
  destruct ((65 <=? c - 32) && (c - 32 <=? 90))%bool eqn:E2; [lia|].
  apply andb_true_iff in E as [?%Z.leb_le ?%Z.leb_le].
  apply andb_false_iff in E2 as [?%Z.leb_gt|?%Z.leb_gt]; lia.
Qed.

Lemma lower_byte_not_upper c : is_upper (lower_byte c) = false.
Proof.
  unfold lower_byte, is_upper.
  destruct ((65 <=? c) && (c <=? 90))%bool eqn:E; [|done].
  apply andb_true_iff in E as [?%Z.leb_le ?%Z.leb_le].
  apply andb_false_iff. right. apply Z.leb_gt. lia.
Qed.

Lemma lower_byte_id c : is_upper c = false -> lower_byte c = c.
Proof. unfold lower_byte. by intros ->. Qed.

Lemma is_ascii_spec s : is_ascii s = true <-> Forall (fun c => c < 128) s.
Proof.
  unfold is_ascii. rewrite forallb_forall, Forall_forall.
  setoid_rewrite list_elem_of_In. by setoid_rewrite Z.ltb_lt.
Qed.

Lemma ToUpper_ascii `{Unicode} s :
  Forall (fun c => c < 128) s -> ToUpper s = upper_byte <$> s.
Proof. unfold ToUpper. by intros ->%is_ascii_spec. Qed.

Lemma ToLower_ascii `{Unicode} s :
  Forall (fun c => c < 128) s -> ToLower s = lower_byte <$> s.
Proof. unfold ToLower. by intros ->%is_ascii_spec. Qed.

Lemma drop_while_app_all {A} (p : A -> bool) l k :
  Forall (fun x => p x = true) l -> drop_while p (l ++ k) = drop_while p k.
Proof. induction 1 as [|x l Hx Hl IH]; simpl; [done|]. by rewrite Hx. Qed.

Lemma drop_while_keep {A} (p : A -> bool) l :
  Forall (fun x => p x = false) l -> drop_while p l = l.
Proof. induction 1 as [|x l Hx Hl IH]; simpl; [done|]. by rewrite Hx. Qed.

(** Trimming gives back what was padded, when it holds no padding itself. *)
Lemma TrimRight_pad s c n :
  Forall (fun x => x ≠ c) s -> TrimRight (s ++ replicate n c) c = s.
Proof.
  intros Hs. unfold TrimRight. rewrite reverse_app, drop_while_app_all.
  - rewrite drop_while_keep; [apply reverse_involutive|].
    apply Forall_reverse. eapply Forall_impl; [done|]. simpl. intros x. by rewrite Z.eqb_neq.
  - apply Forall_reverse, Forall_replicate. by rewrite Z.eqb_refl.
Qed.

Lemma TrimSuffix_app s suf : TrimSuffix (s ++ suf) suf = s.
Proof.
  unfold TrimSuffix. rewrite decide_True by (by apply suffix_app_r).
  rewrite length_app. replace (_ - _)%nat with (length s) by lia. apply take_app_length.
Qed.

Lemma Join_cons x l c : l ≠ [] -> Join (x :: l) c = x ++ c :: Join l c.
Proof. destruct l; done. Qed.

Lemma IndexByte_from_spec s c i :
  0 <= i ->
  (IndexByte_from s c i = -1 /\ c ∉ s) \/
  exists p r, s = p ++ c :: r /\ c ∉ p /\ IndexByte_from s c i = i + zlen p.
Proof.
  revert i. induction s as [|x s IH]; intros i Hi; simpl.
  { left. split; [done|apply not_elem_of_nil]. }
  destruct (x =? c) eqn:E; go_bools.
  - right. exists [], s. subst. split; [done|]. split; [apply not_elem_of_nil|].
    change (zlen []) with 0. lia.
  - destruct (IH (i + 1)) as [[-> Hn]|(p & r & -> & Hn & ->)]; [lia| |].
    + left. split; [done|]. rewrite elem_of_cons. naive_solver.
    + right. exists (x :: p), r. split; [done|].
      split; [rewrite elem_of_cons; naive_solver|]. rewrite zlen_cons. lia.
Qed.

(** The first occurrence splits the string, or there is none. *)
Lemma IndexByte_spec s c :
  (IndexByte s c = -1 /\ c ∉ s) \/
  exists p r, s = p ++ c :: r /\ c ∉ p /\ IndexByte s c = zlen p.
Proof. by apply IndexByte_from_spec. Qed.

Lemma split_acc_plain s c : forall cur, c ∉ s -> split_acc s c cur = [reverse cur ++ s].
Proof.
  induction s as [|x s IH]; intros cur Hs; simpl; [by rewrite app_nil_r|].
  apply not_elem_of_cons in Hs as [Hx Hs].
  destruct (x =? c) eqn:E; go_bools; [congruence|].
  rewrite IH by done. by rewrite reverse_cons, <- app_assoc.
Qed.

Lemma split_acc_last a b c : forall cur, c ∉ b ->
  split_acc (a ++ c :: b) c cur = split_acc a c cur ++ [b].
Proof.
  induction a as [|x a IH]; intros cur Hb; simpl.
  - rewrite Z.eqb_refl. by rewrite split_acc_plain.
  - destruct (x =? c); [by rewrite IH|by apply IH].
Qed.

(** The field after the last separator. *)
Lemma Split_last a b c : c ∉ b -> Split (a ++ c :: b) c = Split a c ++ [b].
Proof. by apply split_acc_last. Qed.

Lemma split_acc_ne s c cur : split_acc s c cur ≠ [].
Proof. revert cur. induction s as [|x s IH]; intros cur; simpl; [done|]. by destruct (x =? c). Qed.

Lemma Join_split_acc s c : forall cur, Join (split_acc s c cur) c = reverse cur ++ s.
Proof.
  induction s as [|x s IH]; intros cur; simpl; [by rewrite app_nil_r|].
  destruct (x =? c) eqn:E; go_bools.
  - rewrite Join_cons by apply split_acc_ne. rewrite IH. by subst.
  - rewrite IH, reverse_cons, <- app_assoc. done.
Qed.

(** Joining undoes splitting. *)
Lemma Join_Split s c : Join (Split s c) c = s.
Proof. apply Join_split_acc. Qed.

Lemma split_acc_fields s c : forall cur, c ∉ cur -> Forall (fun f => c ∉ f) (split_acc s c cur).
Proof.
  induction s as [|x s IH]; intros cur Hc; simpl.
  - constructor; [by rewrite elem_of_reverse|constructor].
  - destruct (x =? c) eqn:E; go_bools.
    + constructor; [by rewrite elem_of_reverse|]. apply IH, not_elem_of_nil.
    + apply IH. rewrite elem_of_cons. naive_solver.
Qed.

(** No field holds a separator. *)
Lemma Split_fields s c : Forall (fun f => c ∉ f) (Split s c).
Proof. apply split_acc_fields, not_elem_of_nil. Qed.

Lemma split_acc_first a b c : forall cur, c ∉ a ->
  split_acc (a ++ c :: b) c cur = (reverse cur ++ a) :: Split b c.
Proof.
  induction a as [|x a IH]; intros cur Ha; simpl.
  - by rewrite Z.eqb_refl, app_nil_r.
  - apply not_elem_of_cons in Ha as [Hx Ha]. destruct (x =? c) eqn:E; go_bools; [congruence|].
    rewrite IH by done. by rewrite reverse_cons, <- app_assoc.
Qed.

(** Splitting undoes joining fields without a separator. *)
Lemma Split_Join (l : list bytes) c : Forall (fun f => c ∉ f) l -> l ≠ [] -> Split (Join l c) c = l.
Proof.
  induction l as [|x l IH]; intros Hl Hne; [done|]. apply Forall_cons in Hl as [Hx Hl].
  destruct l as [|y l]; [by apply (split_acc_plain x c [])|].
  rewrite Join_cons by done. unfold Split. rewrite split_acc_first by done.
  unfold Split in IH. by rewrite <- IH at 2.
Qed.

(** The last separator determines the two sides. *)
Lemma app_sep_inj {A} (c : A) (a a' b b' : list A) :
  c ∉ b -> c ∉ b' -> a ++ c :: b = a' ++ c :: b' -> a = a' /\ b = b'.
Proof.
  revert a'. induction a as [|x a IH]; intros [|y a'] Hb Hb' Heq; simpl in Heq.
  - by injection Heq as ->.
  - injection Heq as -> ->. destruct Hb. apply elem_of_app. right. by left.
  - injection Heq as -> <-. destruct Hb'. apply elem_of_app. right. by left.
  - injection Heq as -> Heq. by destruct (IH a' Hb Hb' Heq) as [-> ->].
Qed.

(** The decimal digits of a number stand for it. *)
Lemma dec_digits_spec fuel : forall n acc,
  0 <= n < 10 ^ Z.of_nat (S fuel) ->
  exists ds, dec_digits_fuel (S fuel) n acc = ds ++ acc /\ Forall (fun c => is_digit c = true) ds /\
    dec_val ds = n /\ ds ≠ [].
Proof.
  induction fuel as [|fuel IH]; intros n acc Hn; cbn [dec_digits_fuel];
    pose proof (Z.mod_pos_bound n 10); pose proof (Z.div_mod n 10);
    assert (is_digit (48 + n mod 10) = true) as Hd by (unfold is_digit; apply andb_true_iff; lia).
  - assert (n / 10 = 0) as -> by (apply Z.div_small; lia). simpl. exists [48 + n mod 10].
    split; [done|]. split; [by constructor|]. split; [|done]. unfold dec_val. cbn [foldl].
    rewrite Z.mod_small by lia. lia.
  - destruct (n / 10 =? 0) eqn:E; go_bools.
    + exists [48 + n mod 10]. split; [done|]. split; [by constructor|]. split; [|done].
      unfold dec_val. cbn [foldl]. lia.
    + destruct (IH (n / 10) (48 + n mod 10 :: acc)) as (ds & Heq & Hds & Hv & _).
      { split; [apply Z.div_pos; lia|]. apply Z.div_lt_upper_bound; [lia|].
        rewrite Nat2Z.inj_succ, Z.pow_succ_r in Hn by lia. lia. }
      cbn [dec_digits_fuel] in Heq. rewrite Heq. exists (ds ++ [48 + n mod 10]).
      split; [by rewrite <- app_assoc|]. split; [apply Forall_app; split; [done|by constructor]|].
      split; [|by destruct ds]. unfold dec_val in *. rewrite foldl_app, Hv. cbn [foldl]. lia.
Qed.

#[export] Hint Resolve lower_byte_not_upper : go.

Lemma HasPrefix_drop s p : HasPrefix s p = true -> s = p ++ drop (length p) s.
Proof. intros [k ->]%bool_decide_eq_true. by rewrite drop_app_length. Qed.

Lemma HasPrefix_none s p : HasPrefix s p = false -> forall k, s ≠ p ++ k.
Proof. intros Hp%bool_decide_eq_false k ->. apply Hp. by exists k. Qed.

(** The first occurrence: nothing found before the end of [before]. *)
Lemma CutStr_spec s sep :
  match CutStr s sep with
  | (before, after, true) => s = before ++ sep ++ after /\
      forall a b, s = a ++ sep ++ b -> (length before <= length a)%nat
  | (before, after, false) => before = s /\ after = [] /\ forall a b, s ≠ a ++ sep ++ b
  end.
Proof.
  induction s as [|x s IH]; cbn [CutStr]; (destruct (HasPrefix _ sep) eqn:Hp; [|pose proof (HasPrefix_none _ _ Hp) as Hn]).
  - split; [by apply HasPrefix_drop|]. intros a b _. cbn. lia.
  - split; [done|]. split; [done|]. intros a b Hab. symmetry in Hab. apply app_eq_nil in Hab as [-> [-> ->]%app_eq_nil].
    by apply (Hn []).
  - split; [by apply HasPrefix_drop|]. intros a b _. cbn. lia.
  - destruct (CutStr s sep) as [[before after] [|]].
    + destruct IH as [-> Hmin]. split; [done|]. intros [|y a] b Hab; [by destruct (Hn b)|].
      injection Hab as <- Hab. cbn. specialize (Hmin a b Hab). lia.
    + destruct IH as (-> & -> & Hno). split; [done|]. split; [done|]. intros [|y a] b Hab; [by destruct (Hn b)|].
      injection Hab as <- Hab. by apply (Hno a b).
Qed.

Lemma ContainsStr_spec s sub : ContainsStr s sub = true <-> exists a b, s = a ++ sub ++ b.
Proof.
  unfold ContainsStr. pose proof (CutStr_spec s sub) as H. destruct (CutStr s sub) as [[before after] [|]]; cbn.
  - split; [|done]. intros _. exists before, after. apply H.
  - destruct H as (_ & _ & H). split; [done|]. intros (a & b & Hab). by destruct (H a b).
Qed.

Lemma Cut_spec s c :
  match Cut s c with
  | (before, after, true) => s = before ++ c :: after /\ c ∉ before
  | (before, after, false) => before = s /\ after = [] /\ c ∉ s
  end.
Proof.
  induction s as [|x s IH]; cbn [Cut]; [split; [done|]; split; [done|apply not_elem_of_nil]|].
  destruct (Z.eqb_spec x c) as [->|Hx]; [split; [done|apply not_elem_of_nil]|].
  destruct (Cut s c) as [[before after] [|]].
  - destruct IH as [-> H]. split; [done|]. by apply not_elem_of_cons.
  - destruct IH as (-> & -> & H). split; [done|]. split; [done|]. by apply not_elem_of_cons.
Qed.
