(* ===== verification/GoTime.v ===== *)
(** Go's [time] as the modelled code uses it: a duration is a 64-bit number of
    nanoseconds. [Duration.Seconds] and the fractions [ParseDuration] reads are
    computed in the float64 they are written in ([SpecFloat]'s, 53 bits of
    mantissa). *)
From S2P Require Import Prelude GoBase GoStrings.
From Stdlib Require Floats.SpecFloat.
#[local] Open Scope Z_scope.

(** ** float64 *)

Notation float := SpecFloat.spec_float.

Definition float64 (n : Z) : float := SpecFloat.binary_normalize 53 1024 n 0 false.
Definition fadd : float -> float -> float := SpecFloat.SFadd 53 1024.
Definition fmul : float -> float -> float := SpecFloat.SFmul 53 1024.
Definition fdiv : float -> float -> float := SpecFloat.SFdiv 53 1024.

(** The conversion to an integer, which drops the fraction. *)
Definition int_of (x : float) : Z :=
  match x with
  | SpecFloat.S754_finite s m e =>
      let a := if 0 <=? e then Z.pos m * 2 ^ e else Z.pos m / 2 ^ (- e) in
      if s then - a else a
  | _ => 0
  end.

(** ** Durations *)

Definition Second : Z := 1000000000.

(** The calendar day, in UTC, of a time in nanoseconds. *)
Definition UTCDay (t : Z) : Z := t / (86400 * Second).

Lemma UTCDay_mono a b : a <= b -> UTCDay a <= UTCDay b.
Proof. intros. unfold UTCDay. apply Z.div_le_mono; [by vm_compute|done]. Qed.

(** [int64(d.Seconds())] *)
Definition Seconds (d : Z) : Z :=
  int_of (fadd (float64 (Z.quot d Second)) (fdiv (float64 (Z.rem d Second)) (float64 Second))).

(** [leadingInt]: the digits at the front, [None] past 1<<63. *)
Fixpoint leadingInt (s : bytes) (x : Z) : option (Z * bytes) :=
  match s with
  | c :: rest =>
      if negb (is_digit c) then Some (x, s) else
      if 2 ^ 63 / 10 <? x then None else
      let x := x * 10 + (c - 48) in
      if 2 ^ 63 <? x then None else leadingInt rest x
  | [] => Some (x, s)
  end.

(** [leadingFraction]: digits that overflow are read and dropped. *)
Fixpoint leadingFraction (s : bytes) (x : Z) (scale : float) (overflow : bool) : Z * float * bytes :=
  match s with
  | c :: rest =>
      if negb (is_digit c) then (x, scale, s) else
      if overflow then leadingFraction rest x scale true else
      if (2 ^ 63 - 1) / 10 <? x then leadingFraction rest x scale true else
      let y := x * 10 + (c - 48) in
      if 2 ^ 63 <? y then leadingFraction rest x scale true
      else leadingFraction rest y (fmul scale (float64 10)) false
  | [] => (x, scale, s)
  end.

(** [unitMap] *)
Definition unit_of (u : bytes) : option Z :=
  if bool_decide (u = lit "ns") then Some 1
  else if bool_decide (u = lit "us") || bool_decide (u = [194; 181; 115]) || bool_decide (u = [206; 188; 115])
  then Some 1000
  else if bool_decide (u = lit "ms") then Some 1000000
  else if bool_decide (u = lit "s") then Some Second
  else if bool_decide (u = lit "m") then Some (60 * Second)
  else if bool_decide (u = lit "h") then Some (3600 * Second)
  else None.

Definition unit_char (c : Z) : bool := negb (c =? 46) && negb (is_digit c).

(** One number with its unit: its nanoseconds and what follows. *)
Definition duration_part (s : bytes) : option (Z * bytes) :=
  match s with
  | [] => None
  | c :: _ =>
      if negb ((c =? 46) || is_digit c) then None else
      match leadingInt s 0 with
      | None => None
      | Some (v, s1) =>
          let pre := negb (zlen s1 =? zlen s) in
          let '(f, scale, s2, post) :=
            match s1 with
            | 46 :: r => let '(f, scale, s2) := leadingFraction r 0 (float64 1) false in (f, scale, s2, negb (zlen s2 =? zlen r))
            | _ => (0, float64 1, s1, false)
            end in
          if negb pre && negb post then None else
          match unit_of (take_while unit_char s2) with
          | None => None
          | Some unit =>
              if 2 ^ 63 / unit <? v then None else
              let v := v * unit in
              let v := if 0 <? f then v + int_of (fmul (float64 f) (fdiv (float64 unit) scale)) else v in
              if 2 ^ 63 <? v then None else Some (v, drop_while unit_char s2)
          end
      end
  end.

Fixpoint duration_parts (fuel : nat) (s : bytes) (d : Z) : option Z :=
  match fuel, s with
  | _, [] => Some d
  | O, _ => None
  | S fuel, _ =>
      match duration_part s with
      | None => None
      | Some (v, s) => if 2 ^ 63 <? d + v then None else duration_parts fuel s (d + v)
      end
  end.

(** [time.ParseDuration] *)
Definition ParseDuration (s : bytes) : option Z :=
  let '(neg, s) :=
    match s with
    | c :: r => if (c =? 45) || (c =? 43) then (c =? 45, r) else (false, s)
    | [] => (false, s)
    end in
  if bool_decide (s = lit "0") then Some 0 else
  if bool_decide (s = []) then None else
  match duration_parts (length s) s 0 with
  | None => None
  | Some d => if neg then Some (- d) else if 2 ^ 63 - 1 <? d then None else Some d
  end.

(** ** What an accepted duration is written with *)

Definition plain (s : bytes) : Prop := (61 : Z) ∉ s.

Lemma plain_app a b : plain (a ++ b) <-> plain a /\ plain b.
Proof. unfold plain. rewrite elem_of_app. tauto. Qed.

Lemma plain_cons c s : c ≠ 61 -> plain s -> plain (c :: s).
Proof. unfold plain. rewrite elem_of_cons. intros Hc Hs [?|?]; [congruence|done]. Qed.

Lemma digit_plain c : is_digit c = true -> c ≠ 61.
Proof. unfold is_digit. intros H. go_bools. lia. Qed.

Lemma leadingInt_front s : forall x v r, leadingInt s x = Some (v, r) -> exists p, s = p ++ r /\ plain p.
Proof.
  assert (plain []) as Hnil by apply not_elem_of_nil.
  induction s as [|c s IH]; simpl; intros x v r Hr; [injection Hr as <- <-; by exists []|].
  destruct (is_digit c) eqn:Ed; simpl in Hr; [|injection Hr as <- <-; by exists []].
  destruct (_ <? x); [done|]. destruct (_ <? _); [done|]. apply IH in Hr as (p & -> & Hp).
  exists (c :: p). split; [done|]. apply plain_cons; [by apply digit_plain|done].
Qed.

Lemma leadingFraction_front s : forall x sc o v k r, leadingFraction s x sc o = (v, k, r) -> exists p, s = p ++ r /\ plain p.
Proof.
  assert (plain []) as Hnil by apply not_elem_of_nil.
  induction s as [|c s IH]; simpl; intros x sc o v k r Hr; [injection Hr as <- <- <-; by exists []|].
  destruct (is_digit c) eqn:Ed; simpl in Hr; [|injection Hr as <- <- <-; by exists []].
  assert (exists x' sc' o', leadingFraction s x' sc' o' = (v, k, r)) as (x' & sc' & o' & Hr').
  { destruct o; [eauto|]. destruct (_ <? x); [eauto|]. destruct (_ <? _); eauto. }
  apply IH in Hr' as (p & -> & Hp). exists (c :: p). split; [done|]. apply plain_cons; [by apply digit_plain|done].
Qed.

Definition units : list bytes := [lit "ns"; lit "us"; [194; 181; 115]; [206; 188; 115]; lit "ms"; lit "s"; lit "m"; lit "h"].

Lemma unit_plain u n : unit_of u = Some n -> plain u.
Proof.
  assert (Forall plain units) as Hu by (unfold plain; apply (bool_decide_unpack _); vm_compute; exact I).
  rewrite Forall_forall in Hu. intros H. apply Hu. unfold units. rewrite !elem_of_cons.
  unfold unit_of in H. destruct (bool_decide_reflect (u = lit "ns")); [tauto|].
  destruct (bool_decide_reflect (u = lit "us")); [tauto|].
  destruct (bool_decide_reflect (u = [194; 181; 115])); [tauto|].
  destruct (bool_decide_reflect (u = [206; 188; 115])); [tauto|]. cbn [orb] in H.
  destruct (bool_decide_reflect (u = lit "ms")); [tauto|]. destruct (bool_decide_reflect (u = lit "s")); [tauto|].
  destruct (bool_decide_reflect (u = lit "m")); [tauto|]. destruct (bool_decide_reflect (u = lit "h")); [tauto|]. done.
Qed.

Lemma duration_part_front s v r : duration_part s = Some (v, r) -> exists p, s = p ++ r /\ plain p.
Proof.
  unfold duration_part. destruct s as [|c s]; [done|]. destruct (negb _); [done|].
  destruct (leadingInt (c :: s) 0) as [[v1 s1]|] eqn:E1; [|done].
  apply leadingInt_front in E1 as (p1 & -> & Hp1). set (q := match s1 with 46 :: _ => _ | _ => _ end).
  assert (exists p2, s1 = p2 ++ q.1.2 /\ plain p2) as (p2 & Hs1 & Hp2).
  { assert (exists p2, s1 = p2 ++ s1 /\ plain p2) as Hid by (exists []; split; [done|apply not_elem_of_nil]).
    unfold q. destruct s1 as [|d s1]; [done|]. destruct (decide (d = 46)) as [->|Hd].
    - destruct (leadingFraction s1 0 (float64 1) false) as [[f sc] s2] eqn:E2.
      apply leadingFraction_front in E2 as (p2 & -> & Hp2). simpl. exists (46 :: p2). split; [done|].
      by apply plain_cons.
    - destruct d as [|d|d]; try done. repeat (destruct d as [d|d|]; try done). }
  clearbody q. destruct q as [[[f sc] s2] post]. simpl in *. subst s1.
  destruct (negb _ && _); [done|]. destruct (unit_of _) as [unit|] eqn:Eu; [|done].
  destruct (_ <? v1); [done|]. cbv zeta. destruct (_ <? _); [done|]. intros [= _ <-].
  exists (p1 ++ p2 ++ take_while unit_char s2). split; [rewrite <- !app_assoc; by rewrite take_drop_while|].
  apply plain_app. split; [done|]. apply plain_app. split; [done|]. by eapply unit_plain.
Qed.

Lemma duration_parts_plain fuel : forall s d v, duration_parts fuel s d = Some v -> plain s.
Proof.
  induction fuel as [|fuel IH]; intros [|c s] d v; cbn [duration_parts]; try (intros; apply not_elem_of_nil); [discriminate|].
  destruct (duration_part (c :: s)) as [[u r]|] eqn:E; [|done]. destruct (_ <? _); [done|]. intros Hr.
  apply duration_part_front in E as (p & -> & Hp). apply plain_app. split; [done|]. by eapply IH.
Qed.

Lemma ParseDuration_plain s d : ParseDuration s = Some d -> plain s.
Proof.
  unfold ParseDuration. intros H. set (q := match s with [] => _ | c :: r => _ end) in H.
  assert (plain q.2 -> plain s) as Hq.
  { unfold q. destruct s as [|c s]; [done|]. destruct ((c =? 45) || (c =? 43)) eqn:E; simpl; [|done].
    intros Hs. apply plain_cons; [|done]. intros ->. by vm_compute in E. }
  apply Hq. clearbody q. destruct q as [neg r]. simpl. destruct (bool_decide_reflect (r = lit "0")) as [Hr|_]; [rewrite Hr|].
  { unfold plain; apply (bool_decide_unpack _); vm_compute; exact I. }
  destruct (bool_decide _); [done|]. destruct (duration_parts _ r 0) as [d'|] eqn:E; [|done].
  by eapply duration_parts_plain.
Qed.
