(* ===== verification/GoRunes.v ===== *)
(** Go's [unicode/utf8]: the runes of a string and the bytes each was read
    from. *)
From S2P Require Import Prelude GoBase.
#[local] Open Scope Z_scope.

Definition RuneError : Z := 65533.

Definition cont (b : Z) : bool := (128 <=? b) && (b <=? 191).

(** The first two bytes of a rune of two, three and four. *)
Definition two (b0 b1 : Z) : bool := (194 <=? b0) && (b0 <=? 223) && cont b1.
Definition three (b0 b1 : Z) : bool :=
  (b0 =? 224) && (160 <=? b1) && (b1 <=? 191) || (b0 =? 237) && (128 <=? b1) && (b1 <=? 159) ||
  ((225 <=? b0) && (b0 <=? 236) || (238 <=? b0) && (b0 <=? 239)) && cont b1.
Definition four (b0 b1 : Z) : bool :=
  (b0 =? 240) && (144 <=? b1) && (b1 <=? 191) || (241 <=? b0) && (b0 <=? 243) && cont b1 ||
  (b0 =? 244) && (128 <=? b1) && (b1 <=? 143).

(** The runes of a string as [range] yields them, each with the bytes it was
    read from; a byte that starts no rune reads as [RuneError]. *)
Fixpoint runes (s : bytes) : list (Z * bytes) :=
  match s with
  | [] => []
  | b0 :: t0 =>
      if b0 <? 128 then (b0, [b0]) :: runes t0 else
      let bad := (RuneError, [b0]) :: runes t0 in
      match t0 with
      | [] => bad
      | b1 :: t1 =>
          if two b0 b1 then ((b0 - 192) * 64 + (b1 - 128), [b0; b1]) :: runes t1 else
          match t1 with
          | [] => bad
          | b2 :: t2 =>
              if three b0 b1 && cont b2
              then (((b0 - 224) * 64 + (b1 - 128)) * 64 + (b2 - 128), [b0; b1; b2]) :: runes t2 else
              match t2 with
              | [] => bad
              | b3 :: t3 =>
                  if four b0 b1 && cont b2 && cont b3
                  then ((((b0 - 240) * 64 + (b1 - 128)) * 64 + (b2 - 128)) * 64 + (b3 - 128), [b0; b1; b2; b3]) :: runes t3
                  else bad
              end
          end
      end
  end.

Definition ValidString (s : bytes) : bool := forallb (fun c => negb ((c.1 =? RuneError) && (zlen c.2 =? 1))) (runes s).
Definition RuneCountInString (s : bytes) : Z := zlen (runes s).

(** [utf8.AppendRune] *)
Definition AppendRune (r : Z) : bytes :=
  if r <? 128 then [r] else if r <? 2048 then [192 + r / 64; 128 + r mod 64] else
  let r := if ((55296 <=? r) && (r <=? 57343)) || (1114111 <? r) then RuneError else r in
  if r <? 65536 then [224 + r / 4096; 128 + r / 64 mod 64; 128 + r mod 64]
  else [240 + r / 262144; 128 + r / 4096 mod 64; 128 + r / 64 mod 64; 128 + r mod 64].

(** ** Lemmas *)

(** What a rune is read from. *)
Inductive read_from : Z * bytes -> Prop :=
| read_one b : b < 128 -> read_from (b, [b])
| read_two b0 b1 : two b0 b1 = true -> read_from ((b0 - 192) * 64 + (b1 - 128), [b0; b1])
| read_three b0 b1 b2 :
    three b0 b1 && cont b2 = true -> read_from (((b0 - 224) * 64 + (b1 - 128)) * 64 + (b2 - 128), [b0; b1; b2])
| read_four b0 b1 b2 b3 :
    four b0 b1 && cont b2 && cont b3 = true ->
    read_from ((((b0 - 240) * 64 + (b1 - 128)) * 64 + (b2 - 128)) * 64 + (b3 - 128), [b0; b1; b2; b3])
| read_bad b : 128 <= b -> read_from (RuneError, [b]).

(** Every string is read as some rune and the rest. *)
Lemma runes_cons b t : exists c r, runes (b :: t) = c :: runes r /\ b :: t = c.2 ++ r /\ c.2 ≠ [] /\ read_from c.
Proof.
  assert (b < 128 \/ exists r, runes (b :: t) = r /\ 128 <= b) as [Hb|(r0 & Hr & Hb)] by (destruct (Z.ltb_spec b 128); eauto).
  { exists (b, [b]), t. cbn [runes]. rewrite (proj2 (Z.ltb_lt _ _) Hb). repeat split; [done|by constructor]. }
  assert (exists c r, (RuneError, [b]) :: runes t = c :: runes r /\ b :: t = c.2 ++ r /\ c.2 ≠ [] /\ read_from c) as Hbad
    by (exists (RuneError, [b]), t; repeat split; [done|by constructor]).
  cbn [runes]. rewrite (proj2 (Z.ltb_ge _ _) Hb). cbv zeta. destruct t as [|b1 t1]; [done|].
  destruct (two b b1) eqn:H2; [eexists _, t1; repeat split; [done|by constructor]|].
  destruct t1 as [|b2 t2]; [done|].
  destruct (three b b1 && cont b2) eqn:H3; [eexists _, t2; repeat split; [done|by constructor]|].
  destruct t2 as [|b3 t3]; [done|].
  destruct (four b b1 && cont b2 && cont b3) eqn:H4; [eexists _, t3; repeat split; [done|by constructor]|done].
Qed.

(** Induction on a string by its runes. *)
Lemma runes_ind (P : bytes -> list (Z * bytes) -> Prop) :
  P [] [] -> (forall c r, read_from c -> P r (runes r) -> P (c.2 ++ r) (c :: runes r)) -> forall s, P s (runes s).
Proof.
  intros H0 HS s. induction s as [s IH] using (induction_ltof1 _ (@length Z)). unfold ltof in IH.
  destruct s as [|b t]; [exact H0|]. destruct (runes_cons b t) as (c & r & -> & Heq & Hne & Hc). rewrite Heq in IH |- *. apply HS; [done|].
  apply IH. rewrite length_app. destruct (c.2); [done|]. simpl. lia.
Qed.

Lemma runes_concat s : concat (snd <$> runes s) = s.
Proof. apply (runes_ind (fun s l => concat (snd <$> l) = s)); [done|]. intros c r _ IH. rewrite fmap_cons. simpl. by rewrite IH. Qed.

Lemma runes_read s : Forall read_from (runes s).
Proof. apply (runes_ind (fun _ l => Forall read_from l)); [constructor|]. intros c r Hc IH. by constructor. Qed.

(** A byte that starts no rune. *)
Definition invalid (c : Z * bytes) : Prop := c.1 = RuneError /\ zlen c.2 <= 1.

(** A rune that was read is read again from its bytes, whatever follows. *)
Lemma runes_again_valid c t : read_from c -> ~ invalid c -> runes (c.2 ++ t) = c :: runes t.
Proof.
  intros Hc Hne. destruct Hc as [b Hb|b0 b1 H2|b0 b1 b2 H3|b0 b1 b2 b3 H4|b Hb]; cbn [snd app runes].
  - by rewrite (proj2 (Z.ltb_lt _ _) Hb).
  - rewrite (proj2 (Z.ltb_ge b0 128)) by (unfold two in H2; lia). by rewrite H2.
  - rewrite (proj2 (Z.ltb_ge b0 128)) by (unfold three in H3; lia).
    assert (two b0 b1 = false) as -> by (unfold two, three in *; lia). by rewrite H3.
  - rewrite (proj2 (Z.ltb_ge b0 128)) by (unfold four in H4; lia).
    assert (two b0 b1 = false) as -> by (unfold two, four in *; lia).
    assert (three b0 b1 && cont b2 = false) as -> by (unfold three, four in *; lia). by rewrite H4.
  - by destruct Hne.
Qed.

Lemma runes_again c t : read_from c -> c.1 ≠ RuneError -> runes (c.2 ++ t) = c :: runes t.
Proof. intros Hc Hne. apply runes_again_valid; [done|]. by intros [? _]. Qed.

Lemma runes_valid_all l t :
  Forall read_from l -> Forall (fun c => ~ invalid c) l -> runes (concat (snd <$> l) ++ t) = l ++ runes t.
Proof.
  induction l as [|c l IH]; intros Hr Hn; [done|]. apply Forall_cons in Hr as [Hc Hr], Hn as [Hn0 Hn].
  rewrite fmap_cons. simpl. rewrite <- app_assoc, runes_again_valid by done. by rewrite IH.
Qed.

(** Encoding what was decoded gives the bytes back. *)
Lemma AppendRune_read c : read_from c -> ~ invalid c -> AppendRune c.1 = c.2.
Proof.
  intros Hc Hne. destruct Hc as [b Hb|b0 b1 H|b0 b1 b2 H|b0 b1 b2 b3 H|b Hb]; cbn [fst snd]; unfold AppendRune; [..|by destruct Hne].
  - by rewrite (proj2 (Z.ltb_lt _ _) Hb).
  - unfold two, cont in H. rewrite (proj2 (Z.ltb_ge _ 128)), (proj2 (Z.ltb_lt _ 2048)) by lia. repeat f_equal; Z.to_euclidean_division_equations; lia.
  - unfold three, cont in H. rewrite (proj2 (Z.ltb_ge _ 128)), (proj2 (Z.ltb_ge _ 2048)) by lia. cbv zeta.
    match goal with |- context [if ?b then RuneError else _] => assert (b = false) as -> by lia end.
    rewrite (proj2 (Z.ltb_lt _ 65536)) by lia. repeat f_equal; Z.to_euclidean_division_equations; lia.
  - unfold four, cont in H. rewrite (proj2 (Z.ltb_ge _ 128)), (proj2 (Z.ltb_ge _ 2048)) by lia. cbv zeta.
    match goal with |- context [if ?b then RuneError else _] => assert (b = false) as -> by lia end.
    rewrite (proj2 (Z.ltb_ge _ 65536)) by lia. repeat f_equal; Z.to_euclidean_division_equations; lia.
Qed.

Lemma runes_again_all l t :
  Forall read_from l -> Forall (fun c => c.1 ≠ RuneError) l -> runes (concat (snd <$> l) ++ t) = l ++ runes t.
Proof.
  induction l as [|c l IH]; intros Hr Hn; [done|]. apply Forall_cons in Hr as [Hc Hr], Hn as [Hn0 Hn].
  rewrite fmap_cons. simpl. rewrite <- app_assoc, runes_again by done. by rewrite IH.
Qed.

(** ** [strings.Fields] *)

(** [unicode.IsSpace] *)
Definition IsSpace (r : Z) : bool :=
  ((9 <=? r) && (r <=? 13)) || (r =? 32) || (r =? 133) || (r =? 160) || (r =? 5760) || ((8192 <=? r) && (r <=? 8202)) ||
  (r =? 8232) || (r =? 8233) || (r =? 8239) || (r =? 8287) || (r =? 12288).

(** The loop over the runes; [cur] is the field under way. *)
Fixpoint fields_loop (rs : list (Z * bytes)) (cur : bytes) : list bytes :=
  match rs with
  | [] => match cur with [] => [] | _ => [cur] end
  | (r, b) :: rs =>
      if IsSpace r then match cur with [] => fields_loop rs [] | _ => cur :: fields_loop rs [] end
      else fields_loop rs (cur ++ b)
  end.

Definition Fields (s : bytes) : list bytes := fields_loop (runes s) [].

(** No space of any kind. *)
Definition spaceless (s : bytes) : Prop := Forall (fun c => IsSpace c.1 = false) (runes s).

Lemma fields_loop_spaceless l k cur : Forall (fun c => IsSpace c.1 = false) l ->
  fields_loop (l ++ k) cur = fields_loop k (cur ++ concat (snd <$> l)).
Proof.
  intros Hl. revert cur. induction Hl as [|[r b] l Hr Hl IH]; intros cur; [by rewrite app_nil_r|]. cbn [app fields_loop]. cbn in Hr. rewrite Hr, IH.
  by rewrite fmap_cons, <- app_assoc.
Qed.


(** An ASCII byte ends the rune before it. *)
Lemma runes_ascii a s t : a < 128 -> runes (s ++ a :: t) = runes s ++ (a, [a]) :: runes t.
Proof.
  intros Ha. assert (cont a = false) as Hc by (unfold cont; lia).
  assert (forall b, two b a = false) as H2 by (intros b; unfold two; rewrite Hc; by rewrite andb_false_r).
  assert (forall b, three b a = false) as H3 by (intros b; unfold three; rewrite Hc; lia).
  assert (forall b, four b a = false) as H4 by (intros b; unfold four; rewrite Hc; lia).
  induction s as [s IH] using (induction_ltof1 _ (@length Z)). unfold ltof in IH.
  destruct s as [|b0 s0]; cbn [app runes]; [by rewrite (proj2 (Z.ltb_lt a 128) Ha)|].
  destruct (b0 <? 128); [cbn [app]; by rewrite IH by (cbn; lia)|]. cbv zeta.
  destruct s0 as [|b1 s1]; cbn [app].
  { rewrite H2, H3, H4. cbn [andb]. pose proof (IH [] ltac:(cbn; lia)) as E. cbn [app] in E. rewrite E. destruct t as [|? [|? ?]]; done. }
  destruct (two b0 b1); [cbn [app]; by rewrite IH by (cbn; lia)|]. pose proof (IH (b1 :: s1) ltac:(cbn; lia)) as E. cbn [app] in E. rewrite E. clear E.
  destruct s1 as [|b2 s2]; cbn [app].
  { rewrite Hc, !andb_false_r. destruct t; done. }
  destruct (three b0 b1 && cont b2); [cbn [app]; by rewrite IH by (cbn; lia)|].
  destruct s2 as [|b3 s3]; cbn [app].
  { by rewrite Hc, !andb_false_r. }
  destruct (four b0 b1 && cont b2 && cont b3); [cbn [app]; by rewrite IH by (cbn; lia)|done].
Qed.

(** A field and the space after it. *)
Lemma Fields_cons s t : spaceless s -> s ≠ [] -> Fields (s ++ 32 :: t) = s :: Fields t.
Proof.
  intros Hs Hne. unfold Fields. rewrite runes_ascii by lia. rewrite fields_loop_spaceless by exact Hs. cbn [app fields_loop]. rewrite runes_concat.
  change (IsSpace 32) with true. cbv iota. by destruct s.
Qed.

Lemma Fields_one s : spaceless s -> s ≠ [] -> Fields s = [s].
Proof.
  intros Hs Hne. unfold Fields. rewrite <- (app_nil_r (runes s)), fields_loop_spaceless by exact Hs. cbn [app fields_loop]. rewrite runes_concat. by destruct s.
Qed.

Lemma spaceless_nil : spaceless [].
Proof. constructor. Qed.

(** ASCII text other than spaces. *)
Lemma spaceless_ascii s : Forall (fun b => 32 < b < 128) s -> spaceless s.
Proof.
  unfold spaceless. induction 1 as [|b s Hb Hs IH]; [constructor|]. cbn [runes]. rewrite (proj2 (Z.ltb_lt b 128)) by lia. constructor; [|done].
  cbn. unfold IsSpace. lia.
Qed.
