(* ===== verification/HostMask.v ===== *)
(** The host paths a scanner must not see, [internal/hostmask]: the masks, the
    flags that cover them ([runflags.go]), the mount table as the kernel prints
    it ([mountinfo.go]) and the check before every scan ([check.go]).

    [Why], the text beside each mask, is left out. *)
From S2P Require Import Prelude GoBase GoStrings GoRunes.
#[local] Open Scope Z_scope.

(** ** hostmask.go, runflags.go *)

Inductive Kind : Type := File | Dir.

Record Mask : Type := mkMask { m_Path : bytes; m_Kind : Kind }.

Definition Masks : list Mask :=
  [mkMask (lit "/etc/shadow") File; mkMask (lit "/etc/gshadow") File; mkMask (lit "/etc/ssh") Dir; mkMask (lit "/root") Dir;
   mkMask (lit "/proc") Dir; mkMask (lit "/run") Dir; mkMask (lit "/sys") Dir; mkMask (lit "/dev") Dir; mkMask (lit "/tmp") Dir;
   mkMask (lit "/var/tmp") Dir; mkMask (lit "/home") Dir].

Definition Paths : list bytes := m_Path <$> Masks.

(** [filepath.Join] of a clean absolute [root] and a mask's path. *)
Definition HostMountPoint (m : Mask) (root : bytes) : bytes :=
  if bool_decide (root = lit "/") then m_Path m else root ++ m_Path m.

Definition run_flag (root : bytes) (m : Mask) : bytes :=
  match m_Kind m with
  | File => lit "-v /dev/null:" ++ HostMountPoint m root ++ lit ":ro"
  | Dir => lit "--tmpfs " ++ HostMountPoint m root ++ lit ":ro"
  end.

Definition RunFlags (root : bytes) : list bytes := run_flag root <$> Masks.

(** ** mountinfo.go *)

Record Mount : Type := mkMount { MountPoint : bytes; ReadOnly : bool }.

Definition isReadOnly (opts : bytes) : bool := bool_decide (lit "ro" ∈ Split opts 44).

Definition is_octal (c : Z) : bool := (48 <=? c) && (c <=? 55).

(** [strconv.ParseUint] of three digits to base 8, in 8 bits. *)
Definition octal (a b c : Z) : option Z :=
  if is_octal a && is_octal b && is_octal c then
    let n := (a - 48) * 64 + (b - 48) * 8 + (c - 48) in if n <? 256 then Some n else None
  else None.

(** The loop of [unescapeMountinfo]. *)
Fixpoint unescape_loop (s : bytes) : bytes :=
  match s with
  | [] => []
  | x :: t =>
      match t with
      | a :: b :: c :: rest =>
          if x =? 92 then match octal a b c with Some n => n :: unescape_loop rest | None => x :: unescape_loop t end
          else x :: unescape_loop t
      | _ => x :: unescape_loop t
      end
  end.

Definition unescapeMountinfo (s : bytes) : bytes := if ContainsStr s [92] then unescape_loop s else s.

(** [bufio.ScanLines] and the largest token the buffer takes. *)
Definition dropCR (line : bytes) : bytes := match last line with Some 13 => removelast line | _ => line end.

Definition scan_lines (data : bytes) : list bytes :=
  let l := Split data 10 in if bool_decide (last l = Some []) then removelast l else l.

Definition maxLine : Z := 1024 * 1024.

Definition parse_mount (line : bytes) : option Mount :=
  match Fields line with
  | _ :: _ :: _ :: _ :: point :: opts :: _ => Some (mkMount (unescapeMountinfo point) (isReadOnly opts))
  | _ => None
  end.

(** What the reader holds, and whether it ends in an error. *)
Definition ParseMountinfo (data : bytes) (failed : bool) : option (list Mount) :=
  let lines := scan_lines data in
  if failed || existsb (fun l => maxLine <=? zlen l) lines then None
  else Some (omap (fun l => parse_mount (dropCR l)) lines).

(** ** check.go *)

Inductive CheckFailure : Type := RootMissing (path : bytes) | NotCovered (path : bytes) | Writable (path : bytes).

Definition covers (mounts : list Mount) (path : bytes) : bool := existsb (fun m => bool_decide (MountPoint m = path)) mounts.

Definition under (root : bytes) (m : Mount) : bool :=
  bool_decide (MountPoint m = root) || HasPrefix (MountPoint m) (TrimRight root 47 ++ lit "/").

Definition Check (root : bytes) (mounts : list Mount) (exists_ : bytes -> bool) : option CheckFailure :=
  if negb (covers mounts root) then Some (RootMissing root) else
  match find (fun hp => exists_ hp && negb (covers mounts hp)) ((fun mk => HostMountPoint mk root) <$> Masks) with
  | Some hp => Some (NotCovered hp)
  | None =>
      match find (fun m => under root m && negb (ReadOnly m)) mounts with
      | Some m => Some (Writable (MountPoint m))
      | None => None
      end
  end.

(** ** The table the kernel prints *)

(** proc(5): a space, a tab, a newline and a backslash of a path are escaped. *)
Definition escape_byte (c : Z) : bytes :=
  if bool_decide (c ∈ [32; 9; 10; 92]) then [92; 48 + c / 64; 48 + c / 8 mod 8; 48 + c mod 8] else [c].

Definition escape (s : bytes) : bytes := concat (escape_byte <$> s).

Record mount_line : Type := mkLine {
  l_id : bytes;
  l_parent : bytes;
  l_dev : bytes;
  l_root : bytes;
  l_point : bytes;
  l_opts : list bytes;
  l_rest : bytes;
}.

Definition print_line (l : mount_line) : bytes :=
  l_id l ++ 32 :: l_parent l ++ 32 :: l_dev l ++ 32 :: escape (l_root l) ++ 32 :: escape (l_point l) ++ 32 ::
  Join (l_opts l) 44 ++ 32 :: l_rest l.

Definition print_table (ls : list mount_line) : bytes := concat ((fun l => print_line l ++ [10]) <$> ls).

(** A word of the table. *)
Definition word (s : bytes) : Prop := spaceless s /\ s ≠ [].

Record line_ok (l : mount_line) : Prop := {
  lo_id : word (l_id l);
  lo_parent : word (l_parent l);
  lo_dev : word (l_dev l);
  lo_root : word (escape (l_root l));
  lo_point : word (escape (l_point l));
  lo_opts : word (Join (l_opts l) 44) /\ l_opts l ≠ [] /\ Forall (fun o => 44 ∉ o) (l_opts l);
  lo_rest : 10 ∉ l_rest l;
  lo_len : zlen (print_line l) < maxLine;
}.

Definition mount_of (l : mount_line) : Mount := mkMount (l_point l) (bool_decide (lit "ro" ∈ l_opts l)).

Lemma octal_escape c : c ∈ [32; 9; 10; 92] -> octal (48 + c / 64) (48 + c / 8 mod 8) (48 + c mod 8) = Some c.
Proof. intros Hc. repeat (apply elem_of_cons in Hc as [->|Hc]; [reflexivity|]). by apply elem_of_nil in Hc. Qed.

Lemma unescape_loop_escape s : unescape_loop (escape s) = s.
Proof.
  unfold escape. induction s as [|c s IH]; [done|]. rewrite fmap_cons. cbn [concat]. unfold escape_byte at 1. case_bool_decide as Hc.
  - cbn [app unescape_loop]. change (92 =? 92) with true. cbv iota. by rewrite (octal_escape c Hc), IH.
  - assert (c ≠ 92) as Hn by (intros ->; apply Hc; by do 3 right; left). cbn [app unescape_loop].
    rewrite (proj2 (Z.eqb_neq c 92) Hn), IH. by destruct (concat (escape_byte <$> s)) as [|? [|? [|? ?]]].
Qed.

(** Without a backslash the loop changes nothing. *)
Lemma unescape_loop_plain s : 92 ∉ s -> unescape_loop s = s.
Proof.
  induction s as [|x s IH]; intros Hs; [done|]. rewrite not_elem_of_cons in Hs. destruct Hs as [Hx Hs]. cbn [unescape_loop].
  rewrite (proj2 (Z.eqb_neq x 92)), (IH Hs) by congruence. by destruct s as [|? [|? [|? ?]]].
Qed.

Lemma unescapeMountinfo_loop s : unescapeMountinfo s = unescape_loop s.
Proof.
  unfold unescapeMountinfo. destruct (ContainsStr s [92]) eqn:H; [done|]. rewrite unescape_loop_plain; [done|]. intros Hin.
  assert (ContainsStr s [92] = true); [|congruence]. apply ContainsStr_spec. apply list_elem_of_split in Hin as (a & b & ->). by exists a, b.
Qed.

(** ** Lemmas: the lines *)

Lemma read_from_ascii c b : read_from c -> b ∈ c.2 -> b < 128 -> c = (b, [b]).
Proof.
  intros Hc Hb Hlt. destruct Hc as [x Hx|x0 x1 H|x0 x1 x2 H|x0 x1 x2 x3 H|x Hx]; cbn in Hb; rewrite ?elem_of_cons, elem_of_nil in Hb;
    unfold two, three, four, cont in *; destruct_or!; try done; subst; try done; lia.
Qed.

(** A word holds no ASCII space. *)
Lemma spaceless_not_in s b : spaceless s -> b < 128 -> IsSpace b = true -> b ∉ s.
Proof.
  intros Hs Hb Hsp Hin. rewrite <- (runes_concat s) in Hin. apply list_elem_of_In, in_concat in Hin as (bs & Hbs%list_elem_of_In & Hin%list_elem_of_In).
  apply list_elem_of_fmap in Hbs as (c & -> & Hc). pose proof (proj1 (Forall_forall _ _) (runes_read s) c Hc) as Hr.
  rewrite (read_from_ascii c b Hr Hin Hb) in Hc. pose proof (proj1 (Forall_forall _ _) Hs _ Hc) as Hf. cbn in Hf. congruence.
Qed.

Lemma word_no_newline s : word s -> 10 ∉ s.
Proof. intros [Hs _]. by apply spaceless_not_in. Qed.

Lemma print_line_no_newline l : line_ok l -> 10 ∉ print_line l.
Proof.
  intros [H1 H2 H3 H4 H5 [H6 _] H7 _]. apply word_no_newline in H1, H2, H3, H4, H5, H6. unfold print_line.
  rewrite ?elem_of_app, ?elem_of_cons, ?elem_of_app, ?elem_of_cons. set_solver by lia.
Qed.

(** A carriage return at the end is taken off what follows the options. *)
Lemma dropCR_after a b : exists k, dropCR (a ++ 32 :: b) = a ++ 32 :: k.
Proof.
  assert (exists k, removelast (32 :: b) = 32 :: k \/ b = []) as [k Hk] by (destruct b; [by exists []; right|by eexists; left]).
  unfold dropCR. destruct (last (a ++ 32 :: b)) as [c|] eqn:Hl; [|by exists b]. destruct (decide (c = 13)) as [->|Hc].
  - rewrite removelast_app by done. destruct Hk as [Hk| ->]; [rewrite Hk; by exists k|]. rewrite last_snoc in Hl. done.
  - exists b. repeat (destruct c as [|c|c]; try done).
Qed.

Lemma isReadOnly_Join os : os ≠ [] -> Forall (fun o => 44 ∉ o) os -> isReadOnly (Join os 44) = bool_decide (lit "ro" ∈ os).
Proof. intros Hne Ho. unfold isReadOnly. by rewrite Split_Join. Qed.

Lemma parse_print_line l : line_ok l -> parse_mount (dropCR (print_line l)) = Some (mount_of l).
Proof.
  intros [H1 H2 H3 H4 H5 (H6 & Hne & Hos) _ _]. unfold print_line.
  destruct (dropCR_after (l_id l ++ 32 :: l_parent l ++ 32 :: l_dev l ++ 32 :: escape (l_root l) ++ 32 :: escape (l_point l) ++ 32 ::
    Join (l_opts l) 44) (l_rest l)) as [k Hk].
  repeat first [rewrite <- app_assoc in Hk | rewrite <- app_comm_cons in Hk]. rewrite Hk. unfold parse_mount.
  rewrite (Fields_cons (l_id l)), (Fields_cons (l_parent l)), (Fields_cons (l_dev l)), (Fields_cons (escape (l_root l))),
    (Fields_cons (escape (l_point l))), (Fields_cons (Join (l_opts l) 44)) by apply H1 || apply H2 || apply H3 || apply H4 || apply H5 || apply H6.
  by rewrite unescapeMountinfo_loop, unescape_loop_escape, isReadOnly_Join.
Qed.

Lemma scan_lines_print ls : Forall (fun l => 10 ∉ l) ls -> scan_lines (concat ((fun l => l ++ [10]) <$> ls)) = ls.
Proof.
  intros Hls. unfold scan_lines. assert (Split (concat ((fun l => l ++ [10]) <$> ls)) 10 = ls ++ [[]]) as ->.
  { rewrite <- (Split_Join (ls ++ [[]]) 10); [|by apply Forall_app; split; [|repeat constructor; apply not_elem_of_nil]|by destruct ls].
    f_equal. clear Hls. induction ls as [|l ls IH]; [done|]. rewrite fmap_cons. cbn [concat app]. rewrite IH, Join_cons by (by destruct ls).
    by rewrite <- app_assoc. }
  rewrite last_snoc, bool_decide_true by done. by rewrite removelast_last.
Qed.

(** What was printed is read back, escapes and all. *)
Lemma ParseMountinfo_print ls : Forall line_ok ls -> ParseMountinfo (print_table ls) false = Some (mount_of <$> ls).
Proof.
  intros Hls. unfold ParseMountinfo, print_table. replace ((fun l => print_line l ++ [10]) <$> ls) with ((fun s => s ++ [10]) <$> (print_line <$> ls))
    by (by rewrite <- list_fmap_compose). rewrite scan_lines_print; [|apply Forall_fmap; by eapply Forall_impl, print_line_no_newline].
  assert (existsb (fun l => maxLine <=? zlen l) (print_line <$> ls) = false) as ->.
  { apply not_true_iff_false. intros (s & Hs & Hlen)%existsb_exists. apply list_elem_of_In, list_elem_of_fmap in Hs as (l & -> & Hl).
    pose proof (lo_len _ (proj1 (Forall_forall _ _) Hls l Hl)). lia. }
  cbn [orb]. f_equal. induction Hls as [|l ls Hl Hls IH]; [done|]. rewrite !fmap_cons. cbn [omap list_omap]. by rewrite parse_print_line, IH.
Qed.

(** ** Lemmas: the check *)

Lemma find_first {A} (f : A -> bool) l x :
  find f l = Some x <-> exists a b, l = a ++ x :: b /\ f x = true /\ forall y, y ∈ a -> f y = false.
Proof.
  split.
  - induction l as [|y l IH]; [done|]. cbn [find]. destruct (f y) eqn:Hy.
    + intros [= ->]. exists [], l. repeat split; [done|]. by intros y ?%not_elem_of_nil.
    + intros (a & b & -> & Hx & Ha)%IH. exists (y :: a), b. repeat split; [done|]. intros z [->|Hz]%elem_of_cons; auto.
  - intros (a & b & -> & Hx & Ha). induction a as [|y a IH]; cbn [app find]; [by rewrite Hx|]. rewrite Ha by left. apply IH. intros z Hz. apply Ha. by right.
Qed.

Lemma find_nothing {A} (f : A -> bool) l : find f l = None <-> forall x, x ∈ l -> f x = false.
Proof.
  split; [intros H x Hx; apply (find_none f l H x), list_elem_of_In, Hx|]. intros H. destruct (find f l) as [x|] eqn:Hf; [|done].
  apply find_some in Hf as [Hx Hf]. rewrite H in Hf; [done|]. by apply list_elem_of_In.
Qed.

Lemma covers_spec ms p : covers ms p = true <-> exists m, m ∈ ms /\ MountPoint m = p.
Proof.
  unfold covers. rewrite existsb_exists. split; intros (m & Hm & Hp); exists m; rewrite list_elem_of_In in *; [by apply bool_decide_eq_true in Hp|].
  by rewrite bool_decide_eq_true.
Qed.

(** ** What the check promises *)

Definition at_point (ls : list mount_line) (p : bytes) : Prop := exists l, l ∈ ls /\ l_point l = p.

(** The mask's path is absent from the host, or something is mounted there. *)
Definition masked (root : bytes) (ls : list mount_line) (ex : bytes -> bool) (mk : Mask) : Prop :=
  ex (HostMountPoint mk root) = true -> at_point ls (HostMountPoint mk root).

Definition below (root : bytes) (l : mount_line) : Prop :=
  l_point l = root \/ exists t, l_point l = TrimRight root 47 ++ 47 :: t.

(** Not a mount of the host, or a read-only one. *)
Definition harmless (root : bytes) (l : mount_line) : Prop := below root l -> lit "ro" ∈ l_opts l.

Lemma covers_lines ls p : covers (mount_of <$> ls) p = true <-> at_point ls p.
Proof.
  rewrite covers_spec. split.
  - intros (m & Hm & Hp). apply list_elem_of_fmap in Hm as (l & -> & Hl). by exists l.
  - intros (l & Hl & Hp). exists (mount_of l). split; [by apply list_elem_of_fmap_2|done].
Qed.

Lemma uncovered_lines ls p : covers (mount_of <$> ls) p = false <-> ~ at_point ls p.
Proof. rewrite <- covers_lines. by destruct (covers _ p). Qed.

Lemma under_lines root l : under root (mount_of l) = true <-> below root l.
Proof.
  unfold under, below, HasPrefix. rewrite orb_true_iff, !bool_decide_eq_true. cbn [mount_of MountPoint].
  split; (intros [H|[t H]]; [by left|right; exists t]); [by rewrite H, <- app_assoc|by rewrite H, <- app_assoc].
Qed.

Definition lost (root : bytes) (ms : list Mount) (ex : bytes -> bool) (hp : bytes) : bool := ex hp && negb (covers ms hp).
Definition writable (root : bytes) (m : Mount) : bool := under root m && negb (ReadOnly m).

Lemma lost_lines root ls ex mk : lost root (mount_of <$> ls) ex (HostMountPoint mk root) = false <-> masked root ls ex mk.
Proof. unfold lost, masked. rewrite <- covers_lines. destruct (ex _), (covers _ _); cbn; naive_solver. Qed.

Lemma writable_lines root l : writable root (mount_of l) = false <-> harmless root l.
Proof.
  unfold writable, harmless. rewrite <- under_lines. cbn [mount_of ReadOnly]. case_bool_decide; destruct (under _ _); cbn; naive_solver.
Qed.

(** The first mask that is lost, the first mount that is writable. *)
Lemma find_lost root ls ex hp :
  find (lost root (mount_of <$> ls) ex) ((fun mk => HostMountPoint mk root) <$> Masks) = Some hp <->
  exists a mk b, Masks = a ++ mk :: b /\ hp = HostMountPoint mk root /\ ~ masked root ls ex mk /\ Forall (masked root ls ex) a.
Proof.
  rewrite find_first. split.
  - intros (a & b & H & Hx & Ha). apply fmap_app_inv in H as (a' & mb & -> & Hb & ->). symmetry in Hb. apply fmap_cons_inv in Hb as (mk & b' & -> & -> & ->).
    exists a', mk, b'. repeat split; [by rewrite <- lost_lines, Hx|]. apply Forall_forall. intros y Hy. apply lost_lines, Ha. by apply (list_elem_of_fmap_2 (fun mk => HostMountPoint mk root)).
  - intros (a & mk & b & -> & -> & Hx & Ha). rewrite fmap_app, fmap_cons. eexists _, _. repeat split.
    + rewrite <- lost_lines in Hx. by destruct (lost _ _ _ _).
    + intros y (mk' & -> & Hy)%list_elem_of_fmap. apply lost_lines. by rewrite Forall_forall in Ha; apply Ha.
Qed.

Lemma find_writable root ls m :
  find (writable root) (mount_of <$> ls) = Some m <->
  exists a l b, ls = a ++ l :: b /\ m = mount_of l /\ ~ harmless root l /\ Forall (harmless root) a.
Proof.
  rewrite find_first. split.
  - intros (a & b & H & Hx & Ha). apply fmap_app_inv in H as (a' & mb & -> & Hb & ->). symmetry in Hb. apply fmap_cons_inv in Hb as (l & b' & -> & -> & ->).
    exists a', l, b'. repeat split; [by rewrite <- writable_lines, Hx|]. apply Forall_forall. intros y Hy. apply writable_lines, Ha.
    by apply (list_elem_of_fmap_2 mount_of).
  - intros (a & l & b & -> & -> & Hx & Ha). rewrite fmap_app, fmap_cons. eexists _, _. repeat split.
    + rewrite <- writable_lines in Hx. by destruct (writable _ _).
    + intros y (l' & -> & Hy)%list_elem_of_fmap. apply writable_lines. by rewrite Forall_forall in Ha; apply Ha.
Qed.

Lemma nothing_lost root ls ex :
  find (lost root (mount_of <$> ls) ex) ((fun mk => HostMountPoint mk root) <$> Masks) = None <-> Forall (masked root ls ex) Masks.
Proof.
  rewrite find_nothing, Forall_forall. split.
  - intros H mk Hmk. apply lost_lines, H. by apply (list_elem_of_fmap_2 (fun mk => HostMountPoint mk root)).
  - intros H y (mk & -> & Hy)%list_elem_of_fmap. by apply lost_lines, H.
Qed.

Lemma nothing_writable root ls : find (writable root) (mount_of <$> ls) = None <-> Forall (harmless root) ls.
Proof.
  rewrite find_nothing, Forall_forall. split.
  - intros H l Hl. apply writable_lines, H. by apply (list_elem_of_fmap_2 mount_of).
  - intros H y (l & -> & Hy)%list_elem_of_fmap. by apply writable_lines, H.
Qed.

(** What each answer says of the table's lines. *)
Definition answers (root : bytes) (ls : list mount_line) (ex : bytes -> bool) (r : option CheckFailure) : Prop :=
  match r with
  | None => at_point ls root /\ Forall (masked root ls ex) Masks /\ Forall (harmless root) ls
  | Some (RootMissing p) => p = root /\ ~ at_point ls root
  | Some (NotCovered p) =>
      at_point ls root /\
      exists a mk b, Masks = a ++ mk :: b /\ p = HostMountPoint mk root /\ ~ masked root ls ex mk /\ Forall (masked root ls ex) a
  | Some (Writable p) =>
      at_point ls root /\ Forall (masked root ls ex) Masks /\
      exists a l b, ls = a ++ l :: b /\ p = l_point l /\ ~ harmless root l /\ Forall (harmless root) a
  end.

Lemma Check_answers root ls ex : answers root ls ex (Check root (mount_of <$> ls) ex).
Proof.
  unfold Check. destruct (covers _ root) eqn:Hroot; cbn [negb]; [apply covers_lines in Hroot|by apply uncovered_lines in Hroot].
  change (fun hp => ex hp && negb (covers (mount_of <$> ls) hp)) with (lost root (mount_of <$> ls) ex).
  change (fun m => under root m && negb (ReadOnly m)) with (writable root).
  destruct (find (lost _ _ _) _) as [hp|] eqn:Hl; [by apply find_lost in Hl|apply nothing_lost in Hl].
  destruct (find (writable _) _) as [m|] eqn:Hw; [|by apply nothing_writable in Hw].
  apply find_writable in Hw as (a & l & b & -> & -> & Hw). repeat split; [done..|]. by exists a, l, b.
Qed.

(** Two answers that both fit the table are the same. *)
Lemma first_failure_unique {A} (P : A -> Prop) a x b a' x' b' :
  a ++ x :: b = a' ++ x' :: b' -> ~ P x -> Forall P a -> ~ P x' -> Forall P a' -> x = x'.
Proof.
  revert a'. induction a as [|y a IH]; intros [|y' a'] H Hx Ha Hx' Ha'; cbn in H; injection H; intros Hr ->; try done.
  - by inversion Ha'.
  - by inversion Ha.
  - apply Forall_cons in Ha as [_ Ha], Ha' as [_ Ha']. by eapply IH.
Qed.

Lemma first_failure_fails {A} (P : A -> Prop) l a x b : l = a ++ x :: b -> ~ P x -> ~ Forall P l.
Proof. intros -> Hx [_ [H _]%Forall_cons]%Forall_app. done. Qed.

Lemma answers_unique root ls ex r r' : answers root ls ex r -> answers root ls ex r' -> r = r'.
Proof.
  destruct r as [[p|p|p]|], r' as [[q|q|q]|]; cbn [answers]; try (intros; destruct_and?; by subst).
  - intros (_ & a & mk & b & E & -> & Hn & Ha) (_ & a' & mk' & b' & E' & -> & Hn' & Ha'). rewrite E in E'.
    by rewrite (first_failure_unique _ _ _ _ _ _ _ E' Hn Ha Hn' Ha').
  - intros (_ & a & mk & b & E & -> & Hn & _) (_ & H & _). by destruct (first_failure_fails _ _ _ _ _ E Hn).
  - intros (_ & a & mk & b & E & -> & Hn & _) (_ & H & _). by destruct (first_failure_fails _ _ _ _ _ E Hn).
  - intros (_ & H & _) (_ & a & mk & b & E & -> & Hn & _). by destruct (first_failure_fails _ _ _ _ _ E Hn).
  - intros (_ & _ & a & l & b & E & -> & Hn & Ha) (_ & _ & a' & l' & b' & E' & -> & Hn' & Ha'). rewrite E in E'.
    by rewrite (first_failure_unique _ _ _ _ _ _ _ E' Hn Ha Hn' Ha').
  - intros (_ & _ & a & l & b & E & -> & Hn & _) (_ & _ & H). by destruct (first_failure_fails _ _ _ _ _ E Hn).
  - intros (_ & H & _) (_ & a & mk & b & E & -> & Hn & _). by destruct (first_failure_fails _ _ _ _ _ E Hn).
  - intros (_ & _ & H) (_ & _ & a & l & b & E & -> & Hn & _). by destruct (first_failure_fails _ _ _ _ _ E Hn).
Qed.

(** ** Properties *)

(** C21. The check of the table as the kernel prints it, names holding spaces,
    tabs, newlines and backslashes included, for mounts whose lines are shorter
    than a mebibyte and whose fields, once escaped, hold no character that
    Unicode counts as a space ([line_ok]; the kernel escapes only the four, and
    a name with another is read wrongly): the table is read
    without error, and the check's answer is the one that the printed lines call
    for and no other. It passes when the root is a mount point, when every
    masked path the host has is a mount point, and when every mount at or below
    the root is read-only; otherwise it names the root, or the first mask in
    the order of the list that has no mount, or, the masks being in place, the
    first writable mount in the order of the table. *)
Theorem host_masks_checked root ls ex r : Forall line_ok ls ->
  exists ms, ParseMountinfo (print_table ls) false = Some ms /\ (Check root ms ex = r <-> answers root ls ex r).
Proof.
  intros Hls. exists (mount_of <$> ls). split; [by apply ParseMountinfo_print|]. split; [intros <-; apply Check_answers|].
  apply answers_unique, Check_answers.
Qed.

(** A bind of the host's root onto /host, a mount at each masked path but
    [dropped], and [more]. *)
Definition a_line (point : bytes) (mode : string) : mount_line :=
  mkLine (lit "36") (lit "25") (lit "0:40") (lit "/") point [lit mode; lit "relatime"] (lit "- ext4 /dev/sda1 rw").

Definition a_table (dropped : list bytes) (more : list mount_line) : list mount_line :=
  a_line (lit "/host") "ro" ::
  ((fun p => a_line (lit "/host" ++ p) "ro") <$> filter (fun p => p ∉ dropped) Paths) ++ more.

Definition wordb (s : bytes) : bool := forallb (fun c => negb (IsSpace c.1)) (runes s) && negb (bool_decide (s = [])).

Lemma wordb_spec s : wordb s = true -> word s.
Proof.
  unfold wordb. rewrite andb_true_iff, negb_true_iff, bool_decide_eq_false, forallb_forall. intros [H Hne]. split; [|done].
  apply Forall_forall. intros c Hc%list_elem_of_In%H. by apply negb_true_iff in Hc.
Qed.

Definition line_okb (l : mount_line) : bool :=
  forallb wordb [l_id l; l_parent l; l_dev l; escape (l_root l); escape (l_point l); Join (l_opts l) 44] &&
  negb (bool_decide (l_opts l = [])) && forallb (fun o => bool_decide (44 ∉ o)) (l_opts l) &&
  bool_decide (10 ∉ l_rest l) && (zlen (print_line l) <? maxLine).

Lemma line_okb_spec l : line_okb l = true -> line_ok l.
Proof.
  unfold line_okb. rewrite !andb_true_iff, negb_true_iff, !forallb_forall. setoid_rewrite <- list_elem_of_In.
  intros ((((Hw & Hne) & Ho) & Hr) & Hlen). constructor; try (apply wordb_spec, Hw; by set_solver).
  - split; [apply wordb_spec, Hw; set_solver|]. split; [by apply bool_decide_eq_false in Hne|].
    apply Forall_forall. intros o Ho'%Ho. by apply bool_decide_eq_true in Ho'.
  - by apply bool_decide_eq_true in Hr.
  - lia.
Qed.

Lemma lines_okb_spec ls : forallb line_okb ls = true -> Forall line_ok ls.
Proof. rewrite forallb_forall, Forall_forall. setoid_rewrite <- list_elem_of_In. intros H l Hl. apply line_okb_spec. auto. Qed.

(** Every mask in place but the one over /home, which the host mounts from a
    partition of its own: the check passes. A writable mount with a space in its
    name fails it, by its own name. *)
Lemma host_masks_checked_witness :
  let home := a_table [lit "/home"] [a_line (lit "/host/home") "ro"] in
  let disk := a_table [] [a_line (lit "/host/mnt/My Disk") "rw"] in
  let bare := a_table [lit "/etc/ssh"] [] in
  answers (lit "/host") home (fun _ => true) None /\
  answers (lit "/host") disk (fun _ => true) (Some (Writable (lit "/host/mnt/My Disk"))) /\
  answers (lit "/host") bare (fun _ => true) (Some (NotCovered (lit "/host/etc/ssh"))).
Proof.
  intros home disk bare.
  assert (Forall line_ok home) as Hhome by (apply lines_okb_spec; vm_compute; reflexivity).
  assert (Forall line_ok disk) as Hdisk by (apply lines_okb_spec; vm_compute; reflexivity).
  assert (Forall line_ok bare) as Hbare by (apply lines_okb_spec; vm_compute; reflexivity).
  destruct (host_masks_checked (lit "/host") home (fun _ => true) None Hhome) as (ms1 & H1 & Ha1 & _).
  destruct (host_masks_checked (lit "/host") disk (fun _ => true) (Some (Writable (lit "/host/mnt/My Disk"))) Hdisk) as (ms2 & H2 & Ha2 & _).
  destruct (host_masks_checked (lit "/host") bare (fun _ => true) (Some (NotCovered (lit "/host/etc/ssh"))) Hbare) as (ms3 & H3 & Ha3 & _).
  split; [apply Ha1|split; [apply Ha2|apply Ha3]].
  - vm_compute in H1. injection H1 as <-. vm_compute. reflexivity.
  - vm_compute in H2. injection H2 as <-. vm_compute. reflexivity.
  - vm_compute in H3. injection H3 as <-. vm_compute. reflexivity.
Defined.
