(* ===== verification/Term.v ===== *)
(** Text made safe to print on an operator's terminal, [internal/term]. *)
From S2P Require Import Prelude GoBase GoStrings GoRunes.
#[local] Open Scope Z_scope.

Definition isBidi (r : Z) : bool :=
  (r =? 8206) || (r =? 8207) || ((8234 <=? r) && (r <=? 8238)) || ((8294 <=? r) && (r <=? 8297)).

(** [hexDigits], indexed. *)
Definition hexDigit (n : Z) : Z := if n <? 10 then 48 + n else 87 + n.

Definition writeHexByte (c : Z) : bytes := lit "\x" ++ [hexDigit (Z.shiftr c 4); hexDigit (Z.land c 15)].

Definition writeControlEscape (r : Z) : bytes :=
  if r =? 10 then lit "\n" else if r =? 13 then lit "\r" else if r =? 9 then lit "\t" else writeHexByte (u8 r).

Definition writeUnicodeEscape (r : Z) : bytes :=
  lit "\u" ++ [hexDigit (Z.land (Z.shiftr r 12) 15); hexDigit (Z.land (Z.shiftr r 8) 15);
               hexDigit (Z.land (Z.shiftr r 4) 15); hexDigit (Z.land r 15)].

(** What one turn of the loop writes for the rune at [s[i:]] and the bytes it
    was decoded from. *)
Definition undecoded (c : Z * bytes) : bool := (c.1 =? RuneError) && (zlen c.2 <=? 1).

Definition escape_rune (c : Z * bytes) : bytes :=
  if undecoded c then concat (writeHexByte <$> c.2)
  else if (c.1 <? 32) || (c.1 =? 127) then writeControlEscape c.1
  else if ((128 <=? c.1) && (c.1 <=? 159)) || isBidi c.1 then writeUnicodeEscape c.1
  else AppendRune c.1.

Definition needsEscape (s : bytes) : bool :=
  existsb (fun c => undecoded c || ((c.1 <? 32) || (c.1 =? 127) || ((128 <=? c.1) && (c.1 <=? 159)) || isBidi c.1)) (runes s).

Definition Escape (s : bytes) : bytes := if needsEscape s then concat (escape_rune <$> runes s) else s.

(** ** Lemmas *)

(** A rune a terminal only shows. *)
Definition shown (c : Z * bytes) : bool :=
  negb (undecoded c || ((c.1 <? 32) || (c.1 =? 127) || ((128 <=? c.1) && (c.1 <=? 159)) || isBidi c.1)).

Lemma undecoded_spec c : undecoded c = true <-> invalid c.
Proof. unfold undecoded, invalid. rewrite andb_true_iff, Z.eqb_eq, Z.leb_le. done. Qed.

Lemma needsEscape_shown s : needsEscape s = negb (forallb shown (runes s)).
Proof. unfold needsEscape, shown. induction (runes s) as [|c l IH]; [done|]. cbn [existsb forallb]. by rewrite IH, negb_andb, negb_involutive. Qed.

(** A rune as read from a string of bytes. *)
Definition of_bytes (c : Z * bytes) : Prop := read_from c /\ wf_bytes c.2.

Lemma runes_of_bytes s : wf_bytes s -> Forall of_bytes (runes s).
Proof.
  rewrite <- (runes_concat s) at 1. generalize (runes_read s). induction 1 as [|c l Hc Hl IH]; intros Hs; [constructor|].
  rewrite fmap_cons in Hs. cbn [concat] in Hs. apply Forall_app in Hs as [H1 H2]. constructor; [by split|auto].
Qed.

Lemma escape_shown c : read_from c -> shown c = true -> escape_rune c = c.2.
Proof.
  unfold shown, escape_rune. rewrite negb_true_iff, !orb_false_iff. intros Hc (Hu & ((H1 & H2) & H3) & H4). rewrite Hu, H1, H2, H3, H4. cbn [orb].
  apply AppendRune_read; [done|]. rewrite <- undecoded_spec. by rewrite Hu.
Qed.

(** Printable ASCII. *)
Abbreviation printable := (Forall (fun b => 32 <= b < 127)).

Lemma hexDigit_printable n : 0 <= n < 16 -> 32 <= hexDigit n < 127.
Proof. unfold hexDigit. intros Hn. destruct (Z.ltb_spec n 10); lia. Qed.

Lemma nibble_printable n : 32 <= hexDigit (Z.land n 15) < 127.
Proof. apply hexDigit_printable. change 15 with (Z.ones 4). rewrite Z.land_ones by lia. apply Z.mod_pos_bound. lia. Qed.

Lemma writeHexByte_printable c : 0 <= c < 256 -> printable (writeHexByte c).
Proof.
  intros Hc. unfold writeHexByte. apply Forall_app. split; [repeat constructor; vm_compute; done|].
  constructor; [|constructor; [apply nibble_printable|constructor]]. apply hexDigit_printable. rewrite Z.shiftr_div_pow2 by lia.
  change (2 ^ 4) with 16. split; [apply Z.div_pos; lia|apply Z.div_lt_upper_bound; lia].
Qed.

Lemma writeControlEscape_printable r : printable (writeControlEscape r).
Proof.
  unfold writeControlEscape. repeat case_match; try (repeat constructor; vm_compute; done). apply writeHexByte_printable, Z.mod_pos_bound. lia.
Qed.

Lemma writeUnicodeEscape_printable r : printable (writeUnicodeEscape r).
Proof.
  unfold writeUnicodeEscape. apply Forall_app. split; [repeat constructor; vm_compute; done|].
  repeat (constructor; [apply nibble_printable|]). constructor.
Qed.

Lemma escape_rune_printable c : of_bytes c -> shown c = false -> printable (escape_rune c).
Proof.
  intros [Hc Hb] Hs. unfold shown in Hs. apply negb_false_iff in Hs. unfold escape_rune. destruct (undecoded c) eqn:Hu.
  - apply undecoded_spec in Hu as [_ Hlen]. destruct c as [r [|b [|b' bs]]]; cbn [snd] in *; [constructor| |unfold zlen in Hlen; cbn in Hlen; lia].
    rewrite fmap_cons, fmap_nil. cbn [concat]. rewrite app_nil_r. apply writeHexByte_printable. by apply Forall_cons in Hb as [Hb _].
  - cbn [orb] in Hs. destruct ((c.1 <? 32) || (c.1 =? 127)); [apply writeControlEscape_printable|]. cbn [orb] in Hs. rewrite Hs.
    apply writeUnicodeEscape_printable.
Qed.

Lemma shown_ascii b : 32 <= b < 127 -> shown (b, [b]) = true.
Proof. intros Hb. unfold shown, undecoded, isBidi, RuneError. cbn [fst]. lia. Qed.

(** Printable ASCII is read byte by byte, whatever follows. *)
Lemma runes_printable p t : printable p -> runes (p ++ t) = ((fun b => (b, [b])) <$> p) ++ runes t.
Proof.
  induction 1 as [|b p Hb Hp IH]; [done|]. cbn [app runes]. rewrite (proj2 (Z.ltb_lt b 128)) by lia. by rewrite IH.
Qed.

(** What is written for a rune is read as runes that are only shown. *)
Lemma escape_rune_runes c t : of_bytes c ->
  exists l, runes (escape_rune c ++ t) = l ++ runes t /\ Forall (fun c => shown c = true) l.
Proof.
  intros Hc. destruct (shown c) eqn:Hs.
  - destruct Hc as [Hc _]. exists [c]. rewrite escape_shown by done. split; [|by constructor]. rewrite runes_again_valid; [done|done|].
    rewrite <- undecoded_spec. unfold shown in Hs. by destruct (undecoded c).
  - pose proof (escape_rune_printable c Hc Hs) as Hp. eexists. split; [by apply runes_printable|]. apply Forall_fmap. eapply Forall_impl; [exact Hp|].
    intros b Hb. by apply shown_ascii.
Qed.

Lemma escaped_runes_shown l : Forall of_bytes l -> Forall (fun c => shown c = true) (runes (concat (escape_rune <$> l))).
Proof.
  induction 1 as [|c l Hc Hl IH]; [constructor|]. rewrite fmap_cons. cbn [concat].
  destruct (escape_rune_runes c (concat (escape_rune <$> l)) Hc) as (k & -> & Hk). apply Forall_app. by split.
Qed.

Lemma escape_all_shown l : Forall read_from l -> Forall (fun c => shown c = true) l -> concat (escape_rune <$> l) = concat (snd <$> l).
Proof.
  induction 1 as [|c l Hc Hl IH]; intros Hs; [done|]. apply Forall_cons in Hs as [Hs Hs']. rewrite !fmap_cons. cbn [concat].
  by rewrite escape_shown, IH.
Qed.

Lemma forallb_shown l : forallb shown l = true <-> Forall (fun c => shown c = true) l.
Proof. rewrite forallb_forall, Forall_forall. by setoid_rewrite list_elem_of_In. Qed.

(** The short cut for clean text is the loop. *)
Lemma Escape_loop s : Escape s = concat (escape_rune <$> runes s).
Proof.
  unfold Escape. rewrite needsEscape_shown. destruct (forallb shown (runes s)) eqn:H; [|done]. cbn [negb].
  apply forallb_shown in H. by rewrite (escape_all_shown _ (runes_read s) H), runes_concat.
Qed.

Lemma Escape_shown s : wf_bytes s -> Forall (fun c => shown c = true) (runes (Escape s)).
Proof. intros Hs. rewrite Escape_loop. apply escaped_runes_shown. by apply runes_of_bytes. Qed.

Lemma Escape_clean s : Forall (fun c => shown c = true) (runes s) -> Escape s = s.
Proof. intros Hs%forallb_shown. unfold Escape. by rewrite needsEscape_shown, Hs. Qed.

(** A byte below 128 is a rune of its own. *)
Lemma ascii_byte_rune s b : b ∈ s -> b < 128 -> (b, [b]) ∈ runes s.
Proof.
  intros Hin Hlt. destruct (list_elem_of_split _ _ Hin) as (x & y & ->). rewrite runes_ascii by done. rewrite elem_of_app. right. left.
Qed.

Lemma shown_no_control s b : Forall (fun c => shown c = true) (runes s) -> b ∈ s -> 32 <= b /\ b ≠ 127.
Proof.
  intros Hs Hin. destruct (Z.lt_ge_cases b 128); [|lia]. pose proof (proj1 (Forall_forall _ _) Hs _ (ascii_byte_rune s b Hin ltac:(lia))) as H'.
  unfold shown in H'. cbn [fst] in H'. lia.
Qed.

(** A value printed in a line cannot end it. *)
Lemma Escape_no_newline s : wf_bytes s -> 10 ∉ Escape s.
Proof. intros Hs Hin. pose proof (shown_no_control _ _ (Escape_shown s Hs) Hin). lia. Qed.

Lemma shown_valid l : Forall (fun c => shown c = true) l -> Forall (fun c => ~ invalid c) l.
Proof. intros H. eapply Forall_impl; [exact H|]. intros c Hc. rewrite <- undecoded_spec. unfold shown in Hc. by destruct (undecoded c). Qed.

Lemma Escape_app s t : Forall (fun c => ~ invalid c) (runes s) -> Escape (s ++ t) = Escape s ++ Escape t.
Proof.
  intros Hs. rewrite !Escape_loop. rewrite <- (runes_concat s) at 1. rewrite (runes_valid_all _ _ (runes_read s) Hs).
  by rewrite fmap_app, concat_app.
Qed.

Lemma escape_rune_backslash c : read_from c -> shown c = false -> exists e, escape_rune c = 92 :: e.
Proof.
  intros Hc Hs. unfold shown in Hs. apply negb_false_iff in Hs. unfold escape_rune. destruct (undecoded c) eqn:Hu.
  - destruct Hc; try (apply undecoded_spec in Hu as [? Hl]; unfold zlen in Hl; cbn in Hl; lia); by eexists.
  - cbn [orb] in Hs. destruct ((c.1 <? 32) || (c.1 =? 127)); [unfold writeControlEscape; repeat case_match; by eexists|]. cbn [orb] in Hs.
    rewrite Hs. by eexists.
Qed.

(** Text begins as it was, or with an escape. *)
Lemma Escape_head s : head (Escape s) = head s \/ head (Escape s) = Some 92.
Proof.
  destruct s as [|b s]; [by left|]. rewrite Escape_loop. destruct (runes_cons b s) as (c & r & -> & Heq & Hne & Hc). rewrite fmap_cons. cbn [concat].
  destruct (shown c) eqn:Hs; [|right; destruct (escape_rune_backslash c Hc Hs) as [e ->]; done]. left. rewrite escape_shown by done. rewrite Heq.
  by destruct (c.2).
Qed.

(** ** Properties *)

(** What a terminal acts on, or lays out in another order than it was written:
    the C0 and C1 controls, DEL, the directional marks, embeddings, overrides and
    isolates. *)
Definition acted_on (r : Z) : Prop :=
  r < 32 \/ 127 <= r <= 159 \/ r ∈ [8206; 8207; 8234; 8235; 8236; 8237; 8238; 8294; 8295; 8296; 8297].

Definition plain_rune (c : Z * bytes) : Prop := ~ invalid c /\ ~ acted_on c.1.

Lemma shown_plain c : shown c = true <-> plain_rune c.
Proof.
  unfold shown, plain_rune, acted_on, isBidi. rewrite negb_true_iff, orb_false_iff, <- undecoded_spec, !elem_of_cons, elem_of_nil.
  destruct (undecoded c); [intuition congruence|]. assert (false ≠ true) as Hf by done. split; intros [_ H]; (split; [done|lia]).
Qed.

Lemma Forall_plain l : Forall plain_rune l <-> Forall (fun c => shown c = true) l.
Proof. rewrite !Forall_forall. by setoid_rewrite shown_plain. Qed.

(** The rune itself, or an escape in printable ASCII in its place. *)
Definition rendered (c : Z * bytes) (e : bytes) : Prop :=
  (plain_rune c /\ e = c.2) \/ (~ plain_rune c /\ printable e /\ exists e', e = 92 :: e').

Lemma escape_rune_rendered c : of_bytes c -> rendered c (escape_rune c).
Proof.
  intros Hc. unfold rendered. rewrite <- shown_plain. destruct (shown c) eqn:Hs; [left; split; [done|]; by apply escape_shown; [apply Hc|]|right].
  split; [done|]. split; [by apply escape_rune_printable|]. by apply escape_rune_backslash; [apply Hc|].
Qed.

(** Text from anywhere, once escaped, does nothing to the terminal it is
    printed on: it decodes as UTF-8 throughout and holds no control character
    and no character that turns the direction of the text, so that no byte of
    it ends the line. Every other rune stands as it was and in its place, and
    each of those that do not is shown as an escape; text with none of them is
    returned unchanged, escaping twice changes nothing more, and text made up of
    parts is escaped part by part. *)
Theorem escaped_text_is_inert s : wf_bytes s ->
  Forall plain_rune (runes (Escape s)) /\
  (forall b, b ∈ Escape s -> 32 <= b /\ b ≠ 127) /\
  (exists es, Forall2 rendered (runes s) es /\ Escape s = concat es) /\
  (Escape s = s <-> Forall plain_rune (runes s)) /\
  Escape (Escape s) = Escape s /\
  (forall t, ValidString s = true -> Escape (s ++ t) = Escape s ++ Escape t).
Proof.
  intros Hs. rewrite !Forall_plain. pose proof (Escape_shown s Hs) as Hsh. repeat split.
  - done.
  - by apply shown_no_control with (Escape s).
  - intros ->. by destruct (shown_no_control _ _ Hsh H).
  - exists (escape_rune <$> runes s). split; [|apply Escape_loop]. apply Forall2_fmap_r, Forall_Forall2_diag.
    eapply Forall_impl; [by apply runes_of_bytes|]. apply escape_rune_rendered.
  - intros He. by rewrite He in Hsh.
  - apply Escape_clean.
  - by apply Escape_clean.
  - intros t Hv. apply Escape_app. unfold ValidString in Hv. rewrite Forall_forall. intros c Hc [H1 H2]. rewrite forallb_forall in Hv.
    specialize (Hv c (proj1 (list_elem_of_In _ _) Hc)). apply negb_true_iff, andb_false_iff in Hv as [Hv|Hv]; [lia|].
    destruct (proj1 (Forall_forall _ _) (runes_read s) c Hc); cbn [snd] in H2, Hv; unfold zlen in H2, Hv; cbn in H2, Hv; first [done | lia].
Qed.

(** An escape sequence that recolours, a newline, a right-to-left override, a
    stray byte and a name in Japanese. *)
Lemma escaped_text_is_inert_witness :
  let s := 27 :: lit "[31m" ++ [10; 226; 128; 174; 255] ++ [231; 140; 171] in
  Escape s = lit "\x1b[31m\n\u202e\xff" ++ [231; 140; 171] /\ (forall b, b ∈ Escape s -> 32 <= b /\ b ≠ 127) /\
  Escape (Escape s) = Escape s.
Proof.
  intros s. assert (wf_bytes s) as Hs by (apply (bool_decide_eq_true_1 _); vm_compute; reflexivity).
  destruct (escaped_text_is_inert s Hs) as (_ & Hb & _ & _ & Hi & _). split; [vm_compute; reflexivity|]. by split.
Defined.
