(* ===== verification/GoNet.v ===== *)
(** Go's [net/netip] and [net] addresses, as far as the code uses them: parsing,
    prefixes and their overlap, the classes of an address. An address is its
    value, of 32 or 128 bits. *)
From S2P Require Import Prelude GoBase GoStrings.
#[local] Open Scope Z_scope.

(** ** [netip.Addr] *)

Inductive Addr : Type :=
| V4 (v : Z)
| V6 (v : Z) (zone : bytes).

#[export] Instance Addr_eq_dec : EqDecision Addr.
Proof. solve_decision. Defined.

Definition Is4 (a : Addr) : bool := match a with V4 _ => true | V6 _ _ => false end.
Definition BitLen (a : Addr) : Z := if Is4 a then 32 else 128.
Definition value (a : Addr) : Z := match a with V4 v | V6 v _ => v end.
Definition withValue (a : Addr) (v : Z) : Addr := match a with V4 _ => V4 v | V6 _ _ => V6 v [] end.

Definition mapped (v : Z) : bool := Z.shiftr v 32 =? 65535.
Definition Is4In6 (a : Addr) : bool := match a with V4 _ => false | V6 v _ => mapped v end.

Definition Unmap (a : Addr) : Addr :=
  match a with V6 v _ => if mapped v then V4 (v mod 2 ^ 32) else a | V4 _ => a end.

(** The bits of a value of width [w] before its [bits]-th, the others cleared. *)
Definition network (w v bits : Z) : Z := Z.shiftl (Z.shiftr v (w - bits)) (w - bits).

(** *** Parsing *)

Definition octet (f : bytes) : option Z :=
  if bool_decide (f = []) || negb (forallb is_digit f) then None else
  if (1 <? zlen f) && bool_decide (head f = Some 48) then None else
  if 255 <? dec_val f then None else Some (dec_val f).

Definition parseIPv4 (s : bytes) : option Z :=
  match octet <$> Split s 46 with
  | [Some a; Some b; Some c; Some d] => Some (((a * 256 + b) * 256 + c) * 256 + d)
  | _ => None
  end.

Definition hex_of (c : Z) : option Z :=
  if is_digit c then Some (c - 48)
  else if (97 <=? c) && (c <=? 102) then Some (c - 87)
  else if (65 <=? c) && (c <=? 70) then Some (c - 55)
  else None.

Definition is_hex (c : Z) : bool := bool_decide (is_Some (hex_of c)).
Definition hex_val (s : bytes) : Z := foldl (fun acc c => acc * 16 + default 0 (hex_of c)) 0 s.

(** The loop of [parseIPv6] over the fields that are left: the 16-bit groups
    read, the place of the ellipsis and the rest. *)
Fixpoint v6_fields (todo : nat) (s : bytes) (groups : list Z) (ellipsis : option nat) : option (list Z * option nat * bytes) :=
  match todo with
  | O => Some (groups, ellipsis, s)
  | S todo =>
      let h := take_while is_hex s in
      let rest := drop (length h) s in
      if (4 <? zlen h) || bool_decide (h = []) then None else
      match rest with
      | 46 :: _ =>
          if (bool_decide (ellipsis = None) && negb (length groups =? 6)%nat) || (6 <? length groups)%nat then None else
          match parseIPv4 s with
          | None => None
          | Some v => Some (groups ++ [v / 65536; v mod 65536], ellipsis, [])
          end
      | [] => Some (groups ++ [hex_val h], ellipsis, [])
      | 58 :: r =>
          let groups := groups ++ [hex_val h] in
          match r with
          | [] => None
          | 58 :: r =>
              match ellipsis with
              | Some _ => None
              | None => if bool_decide (r = []) then Some (groups, Some (length groups), [])
                        else v6_fields todo r groups (Some (length groups))
              end
          | _ => v6_fields todo r groups ellipsis
          end
      | _ => None
      end
  end.

Definition v6_value (groups : list Z) : Z := foldl (fun acc g => acc * 65536 + g) 0 groups.

(** The ellipsis stands for the groups that are missing, one at least. *)
Definition v6_groups (r : list Z * option nat * bytes) : option (list Z) :=
  let '(groups, ellipsis, rest) := r in
  if negb (bool_decide (rest = [])) then None else
  match ellipsis with
  | None => if (length groups =? 8)%nat then Some groups else None
  | Some e =>
      if (length groups <? 8)%nat then Some (take e groups ++ repeat 0 (8 - length groups) ++ drop e groups) else None
  end.

Definition parseIPv6 (s : bytes) : option Addr :=
  let '(s, zone, zoned) := Cut s 37 in
  if zoned && bool_decide (zone = []) then None else
  let fields :=
    match s with
    | 58 :: 58 :: [] => Some ([], Some 0%nat, [])
    | 58 :: 58 :: s => v6_fields 8 s [] (Some 0%nat)
    | _ => v6_fields 8 s [] None
    end in
  match fields ≫= v6_groups with Some g => Some (V6 (v6_value g) zone) | None => None end.

Definition ParseAddr (s : bytes) : option Addr :=
  match find (fun c => (c =? 46) || (c =? 58) || (c =? 37)) s with
  | Some 46 => V4 <$> parseIPv4 s
  | Some 58 => parseIPv6 s
  | _ => None
  end.

(** ** [netip.Prefix] *)

(** A valid prefix; the zero [Prefix] is [None]. *)
Record Prefix : Type := mkPrefix { p_addr : Addr; p_bits : Z }.

#[export] Instance Prefix_eq_dec : EqDecision Prefix.
Proof. solve_decision. Defined.

(** [PrefixFrom]: the zone is dropped. *)
Definition PrefixFrom (a : Addr) (bits : Z) : option Prefix :=
  if (0 <=? bits) && (bits <=? BitLen a) then Some (mkPrefix (withValue a (value a)) bits) else None.

Definition ParsePrefix (s : bytes) : option Prefix :=
  let i := zlen s - 1 - IndexByte (reverse s) 47 in
  if IndexByte (reverse s) 47 <? 0 then None else
  match ParseAddr (slice s 0 i) with
  | None => None
  | Some ip =>
      if match ip with V6 _ z => negb (bool_decide (z = [])) | V4 _ => false end then None else
      let bits := slice s (i + 1) (zlen s) in
      if (1 <? zlen bits) && match bits with c :: _ => (c <? 49) || (57 <? c) | [] => false end then None else
      match Atoi bits with
      | None => None
      | Some n => if (n <? 0) || (BitLen ip <? n) then None else PrefixFrom ip n
      end
  end.

(** [Addr.Prefix], and [Masked]. *)
Definition with_bits (a : Addr) (bits : Z) : Addr := withValue a (network (BitLen a) (value a) bits).
Definition Masked (p : Prefix) : Prefix := mkPrefix (with_bits (p_addr p) (p_bits p)) (p_bits p).

Definition Overlaps (p o : Prefix) : bool :=
  if bool_decide (p = o) then true else
  if negb (Bool.eqb (Is4 (p_addr p)) (Is4 (p_addr o))) then false else
  let minBits := if p_bits p <? p_bits o then p_bits p else p_bits o in
  if minBits =? 0 then true else
  bool_decide (with_bits (p_addr p) minBits = with_bits (p_addr o) minBits).

(** ** [net.IP] *)

(** The sixteen bytes of an address as one number. *)
Definition IP : Type := Z.

Definition As16 (a : Addr) : IP := match a with V4 v => 65535 * 2 ^ 32 + v | V6 v _ => v end.

Definition unzoned (s : bytes) : option Addr :=
  match ParseAddr s with
  | Some (V6 v z) => if bool_decide (z = []) then Some (V6 v z) else None
  | a => a
  end.

Definition ParseIP (s : bytes) : option IP := As16 <$> unzoned s.

Definition To4 (ip : IP) : option Z := if mapped ip then Some (ip mod 2 ^ 32) else None.

Definition IsPrivate (ip : IP) : bool :=
  match To4 ip with
  | Some v => (Z.shiftr v 24 =? 10) || (Z.shiftr v 20 =? 2753) || (Z.shiftr v 16 =? 49320)
  | None => Z.shiftr ip 121 =? 126
  end.

Definition IsLinkLocalUnicast (ip : IP) : bool :=
  match To4 ip with
  | Some v => Z.shiftr v 16 =? 43518
  | None => Z.shiftr ip 118 =? 1018
  end.

(** [IPNet]: an address of four bytes or sixteen, already masked. *)
Record IPNet : Type := mkIPNet { n_four : bool; n_ip : Z; n_ones : Z }.

Definition ParseCIDR (s : bytes) : option IPNet :=
  let '(addr, mask, found) := Cut s 47 in
  if negb found then None else
  match unzoned addr with
  | None => None
  | Some a =>
      if bool_decide (mask = []) || negb (forallb is_digit mask) || (BitLen a <? dec_val mask) then None
      else Some (mkIPNet (Is4 a) (network (BitLen a) (value a) (dec_val mask)) (dec_val mask))
  end.

Definition Contains (n : IPNet) (ip : IP) : bool :=
  let '(four, nn, ones) :=
    if n_four n then (true, n_ip n, n_ones n) else
    match To4 (n_ip n) with Some v => (true, v, Z.max 0 (n_ones n - 96)) | None => (false, n_ip n, n_ones n) end in
  match To4 ip with
  | Some v => (four : bool) && (network 32 nn ones =? network 32 v ones)
  | None => negb four && (network 128 nn ones =? network 128 ip ones)
  end.

(** ** Lemmas *)

Definition addr_ok (a : Addr) : Prop := 0 <= value a < 2 ^ BitLen a.
Definition prefix_ok (p : Prefix) : Prop := addr_ok (p_addr p) /\ 0 <= p_bits p <= BitLen (p_addr p).

(** The addresses of a prefix, whatever their zone. *)
Definition within (a : Addr) (p : Prefix) : Prop :=
  Is4 a = Is4 (p_addr p) /\
  network (BitLen a) (value a) (p_bits p) = network (BitLen a) (value (p_addr p)) (p_bits p).

#[export] Instance within_dec a p : Decision (within a p).
Proof. unfold within. apply _. Defined.

Lemma network_div w v bits : bits <= w -> network w v bits = v / 2 ^ (w - bits) * 2 ^ (w - bits).
Proof. intros Hb. unfold network. by rewrite Z.shiftr_div_pow2, Z.shiftl_mul_pow2 by lia. Qed.

Lemma network_eq w u v bits : bits <= w -> network w u bits = network w v bits <-> u / 2 ^ (w - bits) = v / 2 ^ (w - bits).
Proof.
  intros Hb. rewrite !network_div by done. split; [|congruence].
  intros H%Z.mul_cancel_r; [done|]. apply Z.pow_nonzero; lia.
Qed.

(** Fewer bits agree where more do. *)
Lemma network_coarser w u v b b' : 0 <= b <= b' -> b' <= w -> network w u b' = network w v b' -> network w u b = network w v b.
Proof.
  intros Hb Hw. rewrite !network_eq by lia. intros H.
  replace (w - b) with ((w - b') + (b' - b)) by lia.
  rewrite Z.pow_add_r, <- !Z.div_div by first [lia|apply Z.pow_pos_nonneg; lia|apply Z.pow_nonzero; lia]. by rewrite H.
Qed.

Lemma network_none w u : 0 <= u < 2 ^ w -> network w u 0 = 0.
Proof.
  intros Hu. assert (0 <= w) by (destruct (Z.lt_ge_cases w 0); [rewrite Z.pow_neg_r in Hu by lia|]; lia).
  rewrite network_div, Z.sub_0_r, Z.div_small by lia. lia.
Qed.

Lemma network_again w u b : b <= w -> network w (network w u b) b = network w u b.
Proof.
  intros Hb. rewrite !network_div by done. by rewrite Z.div_mul by (apply Z.pow_nonzero; lia).
Qed.

Lemma network_range w u b : b <= w -> 0 <= u < 2 ^ w -> 0 <= network w u b < 2 ^ w.
Proof.
  intros Hb Hu. rewrite network_div by done.
  pose proof (Z.mul_div_le u (2 ^ (w - b)) ltac:(apply Z.pow_pos_nonneg; lia)).
  pose proof (Z.div_pos u (2 ^ (w - b)) ltac:(lia) ltac:(apply Z.pow_pos_nonneg; lia)).
  assert (0 < 2 ^ (w - b)) by (apply Z.pow_pos_nonneg; lia). nia.
Qed.

Lemma withValue_value a v : value (withValue a v) = v.
Proof. by destruct a. Qed.

Lemma withValue_Is4 a v : Is4 (withValue a v) = Is4 a.
Proof. by destruct a. Qed.

Lemma withValue_eq a b u v : withValue a u = withValue b v <-> Is4 a = Is4 b /\ u = v.
Proof. destruct a, b; cbn [withValue Is4]; split; [naive_solver..]. Qed.

(** Two prefixes overlap exactly when an address is in both. *)
Lemma Overlaps_spec p o : prefix_ok p -> prefix_ok o ->
  Overlaps p o = true <-> exists a, addr_ok a /\ within a p /\ within a o.
Proof.
  intros [Hp Hpb] [Ho Hob].
  assert (forall q r, addr_ok (p_addr q) -> addr_ok (p_addr r) -> Is4 (p_addr q) = Is4 (p_addr r) ->
    0 <= p_bits q <= p_bits r -> p_bits r <= BitLen (p_addr r) ->
    network (BitLen (p_addr q)) (value (p_addr q)) (p_bits q) = network (BitLen (p_addr r)) (value (p_addr r)) (p_bits q) ->
    within (p_addr r) q /\ within (p_addr r) r) as Hin.
  { intros q r _ _ H4 Hb Hr He. assert (BitLen (p_addr q) = BitLen (p_addr r)) as Hl by (unfold BitLen; by rewrite H4).
    unfold within. rewrite Hl in He. by rewrite H4, He. }
  unfold Overlaps. case_bool_decide as Heq.
  { subst o. split; [|done]. intros _. exists (p_addr p). by unfold within. }
  destruct (Bool.eqb_spec (Is4 (p_addr p)) (Is4 (p_addr o))) as [H4|H4]; cbn [negb].
  2:{ split; [done|]. intros (a & _ & [H1 _] & [H2 _]). congruence. }
  assert (BitLen (p_addr p) = BitLen (p_addr o)) as Hl by (unfold BitLen; by rewrite H4).
  set (m := if p_bits p <? p_bits o then p_bits p else p_bits o).
  assert (m <= p_bits p /\ m <= p_bits o /\ 0 <= m) as (Hm1 & Hm2 & Hm0) by (unfold m; destruct (Z.ltb_spec (p_bits p) (p_bits o)); lia).
  assert (network (BitLen (p_addr p)) (value (p_addr p)) m = network (BitLen (p_addr o)) (value (p_addr o)) m <->
    exists a, addr_ok a /\ within a p /\ within a o) as Hmain.
  { split.
    - intros He. unfold m in He. destruct (Z.ltb_spec (p_bits p) (p_bits o)).
      + exists (p_addr o). split; [done|]. apply Hin; [done|done|done|lia|lia|done].
      + exists (p_addr p). split; [done|]. apply and_comm, Hin; [done|done|done|lia|lia|done].
    - intros (a & _ & [Ha1 Hn1] & [Ha2 Hn2]).
      assert (BitLen a = BitLen (p_addr p)) as Hla by (unfold BitLen; by rewrite Ha1).
      rewrite Hla in Hn1, Hn2. rewrite <- Hl.
      rewrite <- (network_coarser _ (value a) (value (p_addr p)) m (p_bits p)) by (try done; lia).
      rewrite <- (network_coarser _ (value a) (value (p_addr o)) m (p_bits o)) by (try done; lia). done. }
  rewrite <- Hmain. destruct (Z.eqb_spec m 0) as [Hz|Hz].
  - split; [|done]. intros _. rewrite Hz, !network_none; done.
  - rewrite bool_decide_eq_true. unfold with_bits. rewrite withValue_eq. naive_solver.
Qed.

(** *** What is parsed is in range *)

Lemma foldl_radix {A} (f : A -> Z) (r : Z) (l : list A) : forall acc n,
  1 < r -> 0 <= acc < r ^ n -> 0 <= n -> Forall (fun x => 0 <= f x < r) l ->
  0 <= foldl (fun acc x => acc * r + f x) acc l < r ^ (n + zlen l).
Proof.
  induction l as [|x l IH]; intros acc n Hr Ha Hn Hl; cbn [foldl].
  { by replace (n + zlen (@nil A)) with n by (unfold zlen; cbn; lia). }
  inversion Hl as [|? ? Hx Hl']; subst. rewrite zlen_cons. replace (n + (zlen l + 1)) with ((n + 1) + zlen l) by lia.
  apply IH; [done| |lia|done]. rewrite Z.pow_add_r, Z.pow_1_r by lia. nia.
Qed.

Lemma octet_ok f v : octet f = Some v -> 0 <= v < 256.
Proof.
  unfold octet. destruct (_ || _) eqn:Hf; [done|]. destruct (_ && _); [done|]. destruct (Z.ltb_spec 255 (dec_val f)); [done|].
  intros [= <-]. go_bools. split; [|lia]. unfold dec_val.
  assert (Forall (fun c => 0 <= c - 48 < 10) f) as Hd.
  { apply Forall_forall. intros c Hc. apply list_elem_of_In in Hc. match goal with H : forallb _ _ = true |- _ => rewrite forallb_forall in H; specialize (H c Hc) end.
    unfold is_digit in *. lia. }
  by apply (foldl_radix (fun c => c - 48) 10 f 0 0).
Qed.

Lemma parseIPv4_ok s v : parseIPv4 s = Some v -> 0 <= v < 2 ^ 32.
Proof.
  unfold parseIPv4. destruct (octet <$> Split s 46) as [|[a|] [|[b|] [|[c|] [|[d|] [|]]]]] eqn:Hs; try done. intros [= <-].
  assert (forall x, Some x ∈ octet <$> Split s 46 -> 0 <= x < 256) as Ho.
  { intros x (f & Hf & _)%list_elem_of_fmap. by apply (octet_ok f). }
  rewrite Hs in Ho. assert (0 <= a < 256 /\ 0 <= b < 256 /\ 0 <= c < 256 /\ 0 <= d < 256) as (? & ? & ? & ?).
  { split_and!; apply Ho; rewrite !elem_of_cons; naive_solver. }
  change (2 ^ 32) with 4294967296. lia.
Qed.

Lemma hex_val_ok h : Forall (fun c => is_hex c = true) h -> zlen h <= 4 -> 0 <= hex_val h < 65536.
Proof.
  intros Hh Hl. assert (Forall (fun c => 0 <= default 0 (hex_of c) < 16) h) as Hd.
  { eapply Forall_impl; [exact Hh|]. intros c Hc. unfold is_hex in Hc. apply bool_decide_eq_true in Hc as [x Hx]. rewrite Hx. change (0 <= x < 16).
    unfold hex_of, is_digit in Hx.
    destruct (Z.leb_spec 48 c), (Z.leb_spec c 57), (Z.leb_spec 97 c), (Z.leb_spec c 102), (Z.leb_spec 65 c), (Z.leb_spec c 70); cbn [andb] in Hx; simplify_eq; lia. }
  pose proof (foldl_radix (fun c => default 0 (hex_of c)) 16 h 0 0 ltac:(lia) ltac:(lia) ltac:(lia) Hd) as Hv.
  pose proof (Z.pow_le_mono_r 16 (0 + zlen h) 4 ltac:(lia) ltac:(lia)). unfold hex_val. change 65536 with (16 ^ 4). cbv beta in Hv. lia.
Qed.

Definition groups_ok : list Z -> Prop := Forall (fun g => 0 <= g < 65536).

Lemma v6_fields_ok todo : forall s groups ell g' e' r,
  groups_ok groups -> v6_fields todo s groups ell = Some (g', e', r) -> groups_ok g'.
Proof.
  induction todo as [|todo IH]; intros s groups ell g' e' r Hg; cbn [v6_fields]; [naive_solver|].
  destruct (_ || _) eqn:Hh; [done|]. apply orb_false_iff in Hh as [Hlen _]. apply Z.ltb_ge in Hlen.
  pose proof (hex_val_ok _ (take_while_forall is_hex s) Hlen) as Hv.
  assert (groups_ok (groups ++ [hex_val (take_while is_hex s)])) as Hg' by (apply Forall_app; split; [done|by constructor]).
  destruct (drop _ s) as [|c rest]; [naive_solver|].
  destruct (decide (c = 46)) as [->|Hc].
  { destruct (_ || _); [done|]. destruct (parseIPv4 s) as [v|] eqn:Hp; [|done]. intros [= <- <- <-]. apply Forall_app. split; [done|].
    apply parseIPv4_ok in Hp. change (2 ^ 32) with (65536 * 65536) in Hp. repeat constructor; first [apply Z.div_pos; lia|apply Z.div_lt_upper_bound; lia|apply Z.mod_pos_bound; lia]. }
  destruct (decide (c = 58)) as [->|Hc'].
  2:{ intros H. exfalso. repeat (destruct c as [|c|c]; try done). }
  destruct rest as [|c rest]; [done|]. destruct (decide (c = 58)) as [->|Hc'].
  - destruct ell; [done|]. case_bool_decide; [naive_solver|]. by apply IH.
  - intros H. apply (IH (c :: rest) (groups ++ [hex_val (take_while is_hex s)]) ell g' e' r Hg').
    rewrite <- H. repeat (destruct c as [|c|c]; try done).
Qed.

Lemma v6_groups_ok r g : groups_ok r.1.1 -> v6_groups r = Some g -> groups_ok g /\ length g = 8%nat.
Proof.
  destruct r as [[groups ell] rest]. cbn [fst v6_groups]. intros Hg. destruct (negb _); [done|]. destruct ell as [e|].
  - destruct (Nat.ltb_spec (length groups) 8); [|done]. intros [= <-]. split.
    + unfold groups_ok. rewrite !Forall_app. split_and!; [by apply Forall_take| |by apply Forall_drop].
      apply Forall_forall. intros x Hx%list_elem_of_In%repeat_spec. subst x. lia.
    + rewrite !length_app, repeat_length, length_take, length_drop. lia.
  - destruct (Nat.eqb_spec (length groups) 8); [|done]. by intros [= <-].
Qed.

Lemma v6_value_ok g : groups_ok g -> length g = 8%nat -> 0 <= v6_value g < 2 ^ 128.
Proof.
  intros Hg Hl. pose proof (foldl_radix id 65536 g 0 0 ltac:(lia) ltac:(lia) ltac:(lia) Hg) as H.
  unfold zlen in H. rewrite Hl in H. exact H.
Qed.

Lemma parseIPv6_ok s a : parseIPv6 s = Some a -> addr_ok a /\ Is4 a = false.
Proof.
  unfold parseIPv6. destruct (Cut s 37) as [[s' zone] zoned]. destruct (_ && _); [done|].
  match goal with |- context [?f ≫= v6_groups] => set (fields := f); assert (forall r, fields = Some r -> groups_ok r.1.1) as Hf end.
  { intros [[g e] r] Hr. unfold fields in Hr. assert (groups_ok []) as Hn by constructor.
    destruct s' as [|c s']; [by eapply v6_fields_ok in Hr|]. destruct (decide (c = 58)) as [->|Hc].
    2:{ assert (v6_fields 8 (c :: s') [] None = Some (g, e, r)) as Hr'; [|by eapply v6_fields_ok in Hr'].
        rewrite <- Hr. repeat (destruct c as [|c|c]; try done). }
    destruct s' as [|c s']; [by eapply v6_fields_ok in Hr|]. destruct (decide (c = 58)) as [->|Hc].
    2:{ assert (v6_fields 8 (58 :: c :: s') [] None = Some (g, e, r)) as Hr'; [|by eapply v6_fields_ok in Hr'].
        rewrite <- Hr. repeat (destruct c as [|c|c]; try done). }
    destruct s' as [|c s']; [by injection Hr as <- <- <-|]. by eapply v6_fields_ok in Hr. }
  destruct fields as [r|]; cbn; [|done]. destruct (v6_groups r) as [g|] eqn:Hg; [|done]. intros [= <-].
  destruct (v6_groups_ok r g (Hf r eq_refl) Hg) as [H8 Hl]. split; [|done]. by apply v6_value_ok.
Qed.

Lemma ParseAddr_ok s a : ParseAddr s = Some a -> addr_ok a.
Proof.
  unfold ParseAddr. destruct (find _ s) as [c|]; [|done]. destruct (decide (c = 46)) as [->|H46].
  { destruct (parseIPv4 s) as [v|] eqn:Hv; cbn; [|done]. intros [= <-]. by apply (parseIPv4_ok s). }
  destruct (decide (c = 58)) as [->|H58]; [by intros [? _]%parseIPv6_ok|].
  intros H. exfalso. repeat (destruct c as [|c|c]; try done).
Qed.

Lemma withValue_ok a v : 0 <= v < 2 ^ BitLen a -> addr_ok (withValue a v).
Proof. by destruct a. Qed.

Lemma PrefixFrom_ok a bits p : addr_ok a -> PrefixFrom a bits = Some p -> prefix_ok p.
Proof.
  unfold PrefixFrom. intros Ha. destruct (_ && _) eqn:Hb; [|done]. intros [= <-]. go_bools. split; cbn [p_addr p_bits].
  - by apply withValue_ok.
  - unfold BitLen in *. rewrite withValue_Is4. lia.
Qed.

Lemma ParsePrefix_ok s p : ParsePrefix s = Some p -> prefix_ok p.
Proof.
  unfold ParsePrefix. destruct (_ <? 0); [done|]. destruct (ParseAddr _) as [ip|] eqn:Hp; [|done]. destruct (match ip with V4 _ => _ | V6 _ _ => _ end); [done|].
  destruct (_ && _); [done|]. destruct (Atoi _) as [n|]; [|done]. destruct (_ || _); [done|]. apply PrefixFrom_ok. by eapply ParseAddr_ok.
Qed.

Lemma Unmap_ok a : addr_ok a -> addr_ok (Unmap a).
Proof. destruct a as [v|v z]; cbn [Unmap]; [done|]. intros Hv. destruct (mapped v); [|done]. by apply (Z.mod_pos_bound v (2 ^ 32)). Qed.

Lemma Masked_ok p : prefix_ok p -> prefix_ok (Masked p).
Proof.
  intros [Ha Hb]. unfold Masked, with_bits. split; cbn [p_addr p_bits].
  - apply withValue_ok, network_range; [lia|done].
  - unfold BitLen in *. by rewrite withValue_Is4.
Qed.

Lemma within_Masked a p : prefix_ok p -> within a (Masked p) <-> within a p.
Proof.
  intros [Ha Hb]. unfold within, Masked, with_bits; cbn [p_addr p_bits]. rewrite withValue_Is4, withValue_value.
  split; intros [H4 Hn]; (split; [done|]); revert Hn;
  (assert (BitLen a = BitLen (p_addr p)) as -> by (unfold BitLen; by rewrite H4)); by rewrite network_again by lia.
Qed.

Lemma mapped_spec v : mapped v = true <-> v / 2 ^ 32 = 65535.
Proof. unfold mapped. rewrite Z.shiftr_div_pow2 by lia. apply Z.eqb_eq. Qed.

(** In a prefix past the ninety-sixth bit all addresses are mapped, or none. *)
Lemma within_mapped v z p : within (V6 v z) p -> 96 <= p_bits p <= 128 -> mapped v = mapped (value (p_addr p)).
Proof.
  intros [_ Hn] Hb. cbn [BitLen Is4 value] in Hn. apply (network_coarser _ _ _ 96) in Hn; [|lia|lia]. rewrite network_eq in Hn by lia.
  unfold mapped. by rewrite !Z.shiftr_div_pow2 by lia; change (128 - 96) with 32 in Hn; rewrite Hn.
Qed.

(** Unmapping a prefix unmaps its addresses. *)
Lemma within_Unmap v z n b : mapped v = true -> mapped n = true -> 96 <= b <= 128 ->
  within (V6 v z) (mkPrefix (V6 n []) b) <-> within (V4 (v mod 2 ^ 32)) (mkPrefix (V4 (n mod 2 ^ 32)) (b - 96)).
Proof.
  intros Hv%mapped_spec Hn%mapped_spec Hb. unfold within; cbn [p_addr p_bits Is4 BitLen value].
  rewrite !network_eq by lia. replace (32 - (b - 96)) with (128 - b) by lia.
  assert (forall u, u / 2 ^ 32 = 65535 -> u / 2 ^ (128 - b) = 65535 * 2 ^ (32 - (128 - b)) + u mod 2 ^ 32 / 2 ^ (128 - b)) as Hsplit.
  { intros u Hu. pose proof (Z.div_mod u (2 ^ 32) ltac:(lia)) as Hd. rewrite Hu in Hd. rewrite Hd at 1.
    replace (2 ^ 32 * 65535) with (65535 * 2 ^ (32 - (128 - b)) * 2 ^ (128 - b)).
    2:{ rewrite <- Z.mul_assoc, <- Z.pow_add_r by lia. replace (32 - (128 - b) + (128 - b)) with 32 by lia. lia. }
    rewrite Z.div_add_l by (apply Z.pow_nonzero; lia). done. }
  rewrite (Hsplit v Hv), (Hsplit n Hn). split; intros [_ H]; (split; [done|]); lia.
Qed.
