(* ===== verification/MemQueue.v ===== *)
(** The agent's memory-only send queue, [internal/agent/queue/queue.go].

    [Spec] is the contract: a bounded first-in first-out list of events with
    distinct ids. [mem_queue] is the code's state, the [container/list] of
    events and the index from event id to list element; the refinement
    theorems say every operation on it does to its events what the contract
    says. [EventQueue] is the interface the sender's model is proved against. *)
From S2P Require Import Prelude GoBase GoList.
#[local] Open Scope Z_scope.

(** An event awaiting delivery ([queue.Event]). *)
Record Event : Type := mkEvent { ID : string; Payload : bytes }.

#[export] Instance Event_eq_dec : EqDecision Event.
Proof. solve_decision. Defined.

Definition ev_len (e : Event) : Z := zlen (Payload e).

Lemma ev_len_nonneg e : 0 <= ev_len e.
Proof. apply zlen_nonneg. Qed.
#[export] Hint Resolve ev_len_nonneg : go.

Record Config : Type := mkConfig { MaxEvents : Z; MaxBytes : Z }.

Definition DefaultMaxEvents : Z := 10000.
Definition DefaultMaxQueueBytes : Z := 32 * 1024 * 1024.

(** ** The contract *)
Module Spec.
(** The events a queue bounded by [cfg] keeps when [n] more payload bytes
    arrive: the oldest are given up until both caps have room. *)
Fixpoint make_room (cfg : Config) (n : Z) (l : list Event) : list Event :=
  match l with
  | [] => []
  | _ :: l' =>
      if (MaxEvents cfg <=? zlen l) || (MaxBytes cfg <? sum_by ev_len l + n)
      then make_room cfg n l' else l
  end.

Definition push (cfg : Config) (e : Event) (l : list Event) : list Event :=
  if decide (ID e ∈ ID <$> l) then l else make_room cfg (ev_len e) l ++ [e].

Definition remove (id : string) (l : list Event) : list Event :=
  filter (fun e => ID e ≠ id) l.

(** What holds of the events of a queue at any time. *)
Definition bounded (cfg : Config) (l : list Event) : Prop :=
  NoDup (ID <$> l) /\ zlen l <= MaxEvents cfg /\
  (sum_by ev_len l <= MaxBytes cfg \/ zlen l = 1).

Lemma make_room_suffix cfg n l : make_room cfg n l `suffix_of` l.
Proof.
  induction l as [|e l IH]; [done|]. cbn [make_room].
  case_match; [by apply suffix_cons_r|done].
Qed.

Lemma make_room_room cfg n l :
  make_room cfg n l = [] \/
  zlen (make_room cfg n l) < MaxEvents cfg /\
  sum_by ev_len (make_room cfg n l) + n <= MaxBytes cfg.
Proof.
  induction l as [|e l IH]; [by left|]. cbn [make_room].
  case_match eqn:E; [done|]. right. go_bools. lia.
Qed.

Lemma bounded_push cfg e l :
  0 < MaxEvents cfg -> bounded cfg l -> bounded cfg (push cfg e l).
Proof.
  intros Hpos (Hnd & Hlen & Hsum). unfold push. case_decide as Hin; [done|].
  destruct (make_room_suffix cfg (ev_len e) l) as [k Hk].
  pose proof (make_room_room cfg (ev_len e) l) as Hroom.
  set (r := make_room cfg (ev_len e) l) in *. rewrite Hk in Hnd, Hin.
  rewrite fmap_app in Hnd, Hin. apply NoDup_app in Hnd as (_ & _ & Hr).
  split; [|split].
  - rewrite fmap_app. apply NoDup_app. split; [done|]. split; [|apply NoDup_singleton].
    intros x Hx ->%list_elem_of_singleton. apply Hin, elem_of_app. by right.
  - rewrite zlen_app, zlen_cons, zlen_nil. destruct Hroom as [->|]; [|lia].
    rewrite zlen_nil. lia.
  - destruct Hroom as [->|Hroom]; [by right|left].
    rewrite sum_by_app, sum_by_cons. unfold sum_by at 2. simpl. lia.
Qed.

Lemma zlen_filter_le {A} (P : A -> Prop) `{forall x, Decision (P x)} (l : list A) :
  zlen (filter P l) <= zlen l.
Proof. unfold zlen. pose proof (length_filter P l). lia. Qed.

Lemma sum_by_filter_le {A} (f : A -> Z) (P : A -> Prop) `{forall x, Decision (P x)} l :
  (forall x, 0 <= f x) -> sum_by f (filter P l) <= sum_by f l.
Proof.
  intros Hf. induction l as [|x l IH]; [done|].
  rewrite filter_cons. specialize (Hf x). case_decide; rewrite ?sum_by_cons; lia.
Qed.

Lemma bounded_remove cfg id l :
  0 < MaxBytes cfg -> bounded cfg l -> bounded cfg (remove id l).
Proof.
  intros Hb (Hnd & Hlen & Hsum). unfold remove.
  split; [by apply NoDup_fmap_filter|].
  pose proof (zlen_filter_le (fun e => ID e ≠ id) l).
  pose proof (sum_by_filter_le ev_len (fun e => ID e ≠ id) l ev_len_nonneg).
  split; [lia|]. destruct Hsum as [|Hone]; [left; lia|].
  destruct (filter (fun e => ID e ≠ id) l) as [|e' r] eqn:E; [left; cbn; lia|right].
  rewrite zlen_cons in *. pose proof (zlen_nonneg r). lia.
Qed.
End Spec.

(** ** The code *)

Record mem_queue : Type := mkQueue {
  maxEvents : Z;
  maxBytes : Z;
  qbytes : Z;
  order : glist Event;
  index : gmap string nat;
  dropped : Z;
  rejected : Z;
}.

(** [NewMemQueue]; [None] is its panic. *)
Definition NewMemQueue (cfg : Config) : option mem_queue :=
  if (MaxEvents cfg <=? 0) || (MaxBytes cfg <=? 0) then None
  else Some (mkQueue (MaxEvents cfg) (MaxBytes cfg) 0 gl_new ∅ 0 0).

(** The eviction loop of [Push], one iteration per unit of fuel; the number
    of queued events is enough, since each iteration removes one. *)
Definition must_evict (q : mem_queue) (e : Event) : bool :=
  (0 <? Z.of_nat (gl_len (order q))) &&
  ((maxEvents q <=? Z.of_nat (gl_len (order q))) ||
   (maxBytes q <? qbytes q + ev_len e)).

Definition evict_oldest (q : mem_queue) : mem_queue :=
  match gl_front (order q) with
  | None => q
  | Some (oldest, oldestEvent) =>
      mkQueue (maxEvents q) (maxBytes q) (qbytes q - ev_len oldestEvent)
        (gl_remove (order q) oldest) (delete (ID oldestEvent) (index q))
        (u64 (dropped q + 1)) (rejected q)
  end.

Fixpoint evict_loop (fuel : nat) (q : mem_queue) (e : Event) : mem_queue :=
  match fuel with
  | O => q
  | S fuel => if must_evict q e then evict_loop fuel (evict_oldest q) e else q
  end.

Definition Push (q : mem_queue) (e : Event) : mem_queue * bool :=
  match index q !! ID e with
  | Some _ => (q, false)
  | None =>
      let q := evict_loop (gl_len (order q)) q e in
      let '(elem, ord) := gl_push_back (order q) e in
      (mkQueue (maxEvents q) (maxBytes q) (qbytes q + ev_len e) ord
         (<[ID e := elem]> (index q)) (dropped q) (rejected q), true)
  end.

Definition Peek (q : mem_queue) (n : nat) : list Event := take n (gl_values (order q)).

Definition removeLocked (q : mem_queue) (id : string) : mem_queue * bool :=
  match index q !! id with
  | None => (q, false)
  | Some elem =>
      match gl_value (order q) elem with
      | None => (q, false)
      | Some ev =>
          (mkQueue (maxEvents q) (maxBytes q) (qbytes q - ev_len ev)
             (gl_remove (order q) elem) (delete id (index q)) (dropped q) (rejected q), true)
      end
  end.

Definition Ack (q : mem_queue) (id : string) : mem_queue := (removeLocked q id).1.

Definition Reject (q : mem_queue) (id : string) : mem_queue :=
  let '(q, removed) := removeLocked q id in
  if removed then
    mkQueue (maxEvents q) (maxBytes q) (qbytes q) (order q) (index q) (dropped q)
      (u64 (rejected q + 1))
  else q.

Definition Depth (q : mem_queue) : nat := gl_len (order q).
Definition Dropped (q : mem_queue) : Z := dropped q.
Definition RejectedCount (q : mem_queue) : Z := rejected q.

(** ** The representation invariant *)

Definition events (q : mem_queue) : list Event := gl_values (order q).
Definition config (q : mem_queue) : Config := mkConfig (maxEvents q) (maxBytes q).

(** The index holds exactly the list's elements under their events' ids, and
    the byte count is the sum of the payload lengths. *)
Record queue_repr (q : mem_queue) : Prop := {
  repr_list : gl_wf (order q);
  repr_index id a :
    index q !! id = Some a <-> exists ev, (a, ev) ∈ gl_elems (order q) /\ ID ev = id;
  repr_bytes : qbytes q = sum_by ev_len (events q);
  repr_ids : NoDup (ID <$> events q);
}.

Record queue_wf (q : mem_queue) : Prop := {
  wf_repr : queue_repr q;
  wf_caps : 0 < maxEvents q /\ 0 < maxBytes q;
  wf_bounded : Spec.bounded (config q) (events q);
  wf_counters : in_u 64 (dropped q) /\ in_u 64 (rejected q);
}.

Lemma queue_depth q : Z.of_nat (gl_len (order q)) = zlen (events q).
Proof. unfold zlen, events. by rewrite gl_len_values. Qed.

Lemma index_events q id :
  queue_repr q -> is_Some (index q !! id) <-> id ∈ ID <$> events q.
Proof.
  intros Hr. split.
  - intros [a (ev & Hin & <-)%(repr_index q Hr)].
    apply list_elem_of_fmap_2. by apply (list_elem_of_fmap_2 snd) in Hin.
  - intros (ev & -> & Hin)%list_elem_of_fmap.
    apply list_elem_of_fmap in Hin as ([a ev'] & -> & Hin).
    exists a. apply (repr_index q Hr). eauto.
Qed.

Lemma index_none q id : queue_repr q -> index q !! id = None <-> id ∉ ID <$> events q.
Proof.
  intros Hr. rewrite <- (index_events q id Hr). rewrite eq_None_not_Some. done.
Qed.

(** Removing an element of the list by its address removes the one event with
    that id. *)
Lemma remove_elem_events q a ev :
  queue_repr q -> (a, ev) ∈ gl_elems (order q) ->
  gl_values (gl_remove (order q) a) = Spec.remove (ID ev) (events q).
Proof.
  intros Hr Hin. destruct (repr_list q Hr) as [Hnd _]. pose proof (repr_ids q Hr) as Hids.
  unfold events, gl_values, gl_addrs, gl_remove, Spec.remove in *. simpl.
  induction (gl_elems (order q)) as [|[b w] es IH]; [done|].
  rewrite !fmap_cons in *. apply NoDup_cons in Hnd as [Hb Hnd].
  apply NoDup_cons in Hids as [Hw Hids]. simpl in *.
  rewrite !filter_cons. simpl. apply elem_of_cons in Hin as [Heq|Hin].
  - inversion Heq; subst b w. rewrite !decide_False by tauto.
    rewrite (filter_fmap_ne fst) by done. by rewrite filter_fmap_ne.
  - assert (b ≠ a) by (intros ->; by apply (list_elem_of_fmap_2 fst) in Hin).
    assert (ID w ≠ ID ev).
    { intros Hw'. apply Hw. rewrite Hw'. apply list_elem_of_fmap_2.
      by apply (list_elem_of_fmap_2 snd) in Hin. }
    rewrite !decide_True by done. rewrite fmap_cons. simpl. f_equal. auto.
Qed.

Lemma sum_by_remove (l : list Event) ev :
  NoDup (ID <$> l) -> ev ∈ l ->
  sum_by ev_len (Spec.remove (ID ev) l) = sum_by ev_len l - ev_len ev.
Proof.
  unfold Spec.remove. induction l as [|w l IH]; [by intros _ ?%not_elem_of_nil|].
  rewrite fmap_cons, NoDup_cons, elem_of_cons. intros [Hw Hnd] Hin.
  rewrite filter_cons. destruct (decide (ID w ≠ ID ev)) as [Hne|Heq].
  - destruct Hin as [->|Hin]; [done|]. rewrite !sum_by_cons, IH by done. lia.
  - assert (ID w = ID ev) as Heq' by (by destruct (decide (ID w = ID ev))).
    destruct Hin as [->|Hin].
    + rewrite filter_fmap_ne by done. rewrite sum_by_cons. lia.
    + destruct Hw. rewrite Heq'. by apply list_elem_of_fmap_2.
Qed.

(** The state after an element leaves both the list and the index. *)
Definition drop_elem (q : mem_queue) (a : nat) (ev : Event) (d r : Z) : mem_queue :=
  mkQueue (maxEvents q) (maxBytes q) (qbytes q - ev_len ev) (gl_remove (order q) a)
    (delete (ID ev) (index q)) d r.

Lemma drop_elem_repr q a ev d r :
  queue_repr q -> (a, ev) ∈ gl_elems (order q) -> queue_repr (drop_elem q a ev d r).
Proof.
  intros Hr Hin.
  pose proof (remove_elem_events q a ev Hr Hin) as Hev.
  assert (ev ∈ events q) as Hevin by (by apply (list_elem_of_fmap_2 snd) in Hin).
  split; unfold drop_elem, events; simpl.
  - apply gl_wf_remove, Hr.
  - intros id b. rewrite lookup_delete_Some, (repr_index q Hr). split.
    + intros (Hne & w & Hw & <-). exists w. split; [|done].
      apply gl_elem_remove. split; [|done]. intros ->.
      pose proof (gl_elems_inj _ _ _ _ (repr_list q Hr) Hin Hw). congruence.
    + intros (w & [Hba Hw]%gl_elem_remove & <-). split; [|by exists w].
      intros Hid. assert (index q !! ID ev = Some a) as Ha by (apply (repr_index q Hr); eauto).
      assert (index q !! ID ev = Some b) as Hb by (apply (repr_index q Hr); eauto).
      congruence.
  - rewrite Hev, sum_by_remove; [by rewrite (repr_bytes q Hr)|apply Hr|done].
  - rewrite Hev. apply NoDup_fmap_filter, Hr.
Qed.

(** ** Refinement of the contract *)

Lemma evict_oldest_spec q ev evs :
  queue_repr q -> events q = ev :: evs ->
  queue_repr (evict_oldest q) /\ events (evict_oldest q) = evs /\
  config (evict_oldest q) = config q /\
  dropped (evict_oldest q) = u64 (dropped q + 1) /\ rejected (evict_oldest q) = rejected q.
Proof.
  intros Hr Hev. unfold events, gl_values in Hev.
  destruct (gl_elems (order q)) as [|[a w] es] eqn:Hes; [done|].
  simpl in Hev. injection Hev as -> <-.
  assert (gl_front (order q) = Some (a, ev)) as Hf by (apply gl_front_some; eauto).
  unfold evict_oldest. rewrite Hf.
  split; [|split; [|done]].
  - apply (drop_elem_repr q a ev); [done|]. rewrite Hes. by left.
  - unfold events, gl_values. simpl order.
    by rewrite (gl_remove_front _ _ _ _ (repr_list q Hr) Hes).
Qed.

Lemma must_evict_spec q e :
  queue_repr q ->
  must_evict q e = true <->
  events q ≠ [] /\ (zlen (events q) >= maxEvents q \/
                    sum_by ev_len (events q) + ev_len e > maxBytes q).
Proof.
  intros Hr. unfold must_evict. rewrite queue_depth, (repr_bytes q Hr).
  rewrite andb_true_iff, orb_true_iff, Z.leb_le, !Z.ltb_lt.
  destruct (events q) as [|ev evs].
  - split; [intros [H _]; done|]. by intros [? _].
  - rewrite zlen_cons. pose proof (zlen_nonneg evs).
    split; [intros [_ ?]; split; [done|lia]|intros [_ ?]; lia].
Qed.

Lemma make_room_cons cfg n ev evs :
  Spec.make_room cfg n (ev :: evs) =
  if (MaxEvents cfg <=? zlen (ev :: evs)) || (MaxBytes cfg <? sum_by ev_len (ev :: evs) + n)
  then Spec.make_room cfg n evs else ev :: evs.
Proof. done. Qed.

Lemma evict_loop_spec fuel q e :
  queue_repr q -> (length (events q) <= fuel)%nat ->
  let q' := evict_loop fuel q e in
  queue_repr q' /\ config q' = config q /\ rejected q' = rejected q /\
  events q' = Spec.make_room (config q) (ev_len e) (events q) /\
  (in_u 64 (dropped q) ->
   dropped q' = u64 (dropped q + (zlen (events q) - zlen (events q')))).
Proof.
  revert q. induction fuel as [|fuel IH]; intros q Hr Hfuel; simpl.
  { destruct (events q) as [|] eqn:E; [|simpl in Hfuel; lia].
    split; [done|]. do 3 (split; [done|]). intros Hd. rewrite ?E, Z.sub_diag, Z.add_0_r. by rewrite wrap_u_small. }
  destruct (events q) as [|ev evs] eqn:E.
  { assert (must_evict q e = false) as ->.
    { apply not_true_is_false. rewrite must_evict_spec by done. rewrite E. tauto. }
    split; [done|]. do 2 (split; [done|]). rewrite E. split; [done|].
    intros Hd. rewrite Z.sub_diag, Z.add_0_r. by rewrite wrap_u_small. }
  destruct (evict_oldest_spec q ev evs Hr E) as (Hr' & Hev' & Hc' & Hd' & Hj').
  rewrite make_room_cons.
  destruct (must_evict q e) eqn:Hm.
  - assert (((MaxEvents (config q) <=? zlen (ev :: evs)) ||
             (MaxBytes (config q) <? sum_by ev_len (ev :: evs) + ev_len e)) = true) as ->.
    { apply must_evict_spec in Hm; [|done]. rewrite E in Hm.
      change (MaxEvents (config q)) with (maxEvents q).
      change (MaxBytes (config q)) with (maxBytes q).
      apply orb_true_iff. rewrite Z.leb_le, Z.ltb_lt. lia. }
    simpl in Hfuel. specialize (IH (evict_oldest q) Hr').
    rewrite Hev' in IH. destruct IH as (IHr & IHc & IHj & IHe & IHd); [lia|].
    split; [done|]. split; [congruence|]. split; [congruence|].
    split; [by rewrite IHe, Hc'|]. intros Hd.
    rewrite IHd by (rewrite Hd'; apply wrap_u_range; lia).
    rewrite Hd', zlen_cons. unfold wrap_u. rewrite Zplus_mod_idemp_l. f_equal. lia.
  - assert (((MaxEvents (config q) <=? zlen (ev :: evs)) ||
             (MaxBytes (config q) <? sum_by ev_len (ev :: evs) + ev_len e)) = false) as ->.
    { apply not_true_iff_false in Hm. rewrite must_evict_spec in Hm by done.
      rewrite E in Hm.
      change (MaxEvents (config q)) with (maxEvents q).
      change (MaxBytes (config q)) with (maxBytes q).
      apply orb_false_iff. rewrite Z.leb_gt, Z.ltb_ge.
      destruct (decide (zlen (ev :: evs) >= maxEvents q \/
                        sum_by ev_len (ev :: evs) + ev_len e > maxBytes q)); [|lia].
      by destruct Hm. }
    split; [done|]. do 2 (split; [done|]). split; [done|].
    intros Hd. rewrite E, Z.sub_diag, Z.add_0_r. by rewrite wrap_u_small.
Qed.

Lemma push_back_repr q e :
  queue_repr q -> ID e ∉ ID <$> events q ->
  let '(elem, ord) := gl_push_back (order q) e in
  let q' := mkQueue (maxEvents q) (maxBytes q) (qbytes q + ev_len e) ord
              (<[ID e := elem]> (index q)) (dropped q) (rejected q) in
  queue_repr q' /\ events q' = events q ++ [e].
Proof.
  intros Hr Hnew. simpl. split; [|unfold events, gl_values; simpl; by rewrite fmap_app].
  pose proof (gl_wf_fresh _ (repr_list q Hr)) as Hfresh.
  split.
  - apply (gl_wf_push_back (order q) e), Hr.
  - intros id a. simpl. rewrite lookup_insert_Some, (repr_index q Hr). split.
    + intros [[<- <-]|[Hne (w & Hw & <-)]].
      * exists e. split; [|done]. apply elem_of_app. right. by left.
      * exists w. split; [|done]. apply elem_of_app. by left.
    + intros (w & [Hw|[= -> ->]%list_elem_of_singleton]%elem_of_app & <-); [|by left].
      right. split; [|by exists w]. intros Hid. apply Hnew. rewrite Hid.
      apply list_elem_of_fmap_2. by apply (list_elem_of_fmap_2 snd) in Hw.
  - pose proof (repr_bytes q Hr) as Hb. unfold events, gl_values in *. simpl.
    rewrite fmap_app, sum_by_app, Hb. simpl. lia.
  - pose proof (repr_ids q Hr) as Hids. unfold events, gl_values in *. simpl.
    rewrite !fmap_app. apply NoDup_app. split; [done|]. split; [|apply NoDup_singleton].
    intros x Hx ->%list_elem_of_singleton. done.
Qed.

Lemma make_room_ids cfg n l : forall id, id ∉ ID <$> l -> id ∉ ID <$> Spec.make_room cfg n l.
Proof.
  intros id Hid. destruct (Spec.make_room_suffix cfg n l) as [k Hk].
  rewrite Hk, fmap_app, elem_of_app in Hid. tauto.
Qed.

(** What [Push] does, to the events, the counters and the answer. *)
Lemma Push_spec q e :
  queue_wf q ->
  let q' := (Push q e).1 in
  queue_wf q' /\ config q' = config q /\
  events q' = Spec.push (config q) e (events q) /\
  (Push q e).2 = bool_decide (ID e ∉ ID <$> events q) /\
  rejected q' = rejected q /\
  (ID e ∉ ID <$> events q ->
   dropped q' = u64 (dropped q + (zlen (events q) + 1 - zlen (events q')))).
Proof.
  intros [Hr Hcaps Hb [Hd Hj]]. unfold Push, Spec.push.
  destruct (index q !! ID e) as [a|] eqn:Hi.
  - assert (ID e ∈ ID <$> events q) as Hin by (apply (index_events q _ Hr); eauto).
    rewrite decide_True by done. rewrite bool_decide_eq_false_2 by tauto. simpl.
    split; [by split|]. repeat (split; [done|]). tauto.
  - apply (index_none q _ Hr) in Hi. rewrite decide_False by done.
    rewrite bool_decide_eq_true_2 by done.
    assert (length (events q) <= gl_len (order q))%nat as Hfuel
      by (unfold events; by rewrite gl_len_values).
    destruct (evict_loop_spec _ q e Hr Hfuel) as (Hr1 & Hc1 & Hj1 & He1 & Hd1).
    set (q1 := evict_loop (gl_len (order q)) q e) in *.
    assert (ID e ∉ ID <$> events q1) as Hnew by (rewrite He1; by apply make_room_ids).
    pose proof (push_back_repr q1 e Hr1 Hnew) as Hpb. simpl in Hpb. destruct Hpb as [Hr2 He2].
    simpl. set (q2 := mkQueue _ _ _ _ _ _ _) in *.
    assert (config q2 = config q) as Hc2 by done.
    assert (events q2 = Spec.make_room (config q) (ev_len e) (events q) ++ [e]) as Hp
      by congruence.
    pose proof (Spec.bounded_push (config q) e (events q) (proj1 Hcaps) Hb) as Hb2.
    unfold Spec.push in Hb2. rewrite decide_False in Hb2 by done.
    split; [split|].
    + done.
    + change (0 < MaxEvents (config q2) /\ 0 < MaxBytes (config q2)). by rewrite Hc2.
    + by rewrite Hc2, Hp.
    + split; [|by rewrite <- Hj1 in Hj].
      simpl. rewrite Hd1 by done. apply wrap_u_range. lia.
    + do 4 (split; [done|]). intros _.
      simpl dropped. rewrite Hd1 by done. f_equal. rewrite He2, zlen_app, zlen_cons, zlen_nil. lia.
Qed.

Lemma removeLocked_spec q id :
  queue_wf q ->
  let q' := (removeLocked q id).1 in
  queue_wf q' /\ config q' = config q /\
  events q' = Spec.remove id (events q) /\
  (removeLocked q id).2 = bool_decide (id ∈ ID <$> events q) /\
  dropped q' = dropped q /\ rejected q' = rejected q.
Proof.
  intros [Hr Hcaps Hb Hcnt]. unfold removeLocked.
  destruct (index q !! id) as [a|] eqn:Hi.
  - pose proof Hi as (ev & Hin & <-)%(repr_index q Hr).
    assert (ID ev ∈ ID <$> events q) as Hid by (apply (index_events q _ Hr); eauto).
    rewrite (gl_elem_value _ _ _ (repr_list q Hr) Hin). simpl.
    rewrite bool_decide_eq_true_2 by done.
    pose proof (remove_elem_events q a ev Hr Hin) as Hev.
    split; [split|done].
    + by apply (drop_elem_repr q a ev).
    + done.
    + unfold events at 1. simpl. rewrite Hev. apply Spec.bounded_remove; [apply Hcaps|done].
    + done.
  - apply (index_none q _ Hr) in Hi. simpl.
    rewrite bool_decide_eq_false_2 by done.
    split; [by split|]. split; [done|]. split; [|done].
    unfold Spec.remove. by rewrite filter_fmap_ne.
Qed.

Lemma Ack_spec q id :
  queue_wf q ->
  queue_wf (Ack q id) /\ config (Ack q id) = config q /\
  events (Ack q id) = Spec.remove id (events q) /\
  dropped (Ack q id) = dropped q /\ rejected (Ack q id) = rejected q.
Proof. intros H. destruct (removeLocked_spec q id H) as (?&?&?&_&?&?). done. Qed.

Lemma Reject_spec q id :
  queue_wf q ->
  queue_wf (Reject q id) /\ config (Reject q id) = config q /\
  events (Reject q id) = Spec.remove id (events q) /\
  dropped (Reject q id) = dropped q /\
  rejected (Reject q id) =
    if decide (id ∈ ID <$> events q) then u64 (rejected q + 1) else rejected q.
Proof.
  intros H. destruct (removeLocked_spec q id H) as (Hwf & Hc & He & Hb & Hd & Hj).
  unfold Reject. destruct (removeLocked q id) as [q' b]. simpl in *. subst b.
  case_bool_decide; [rewrite decide_True by done|by rewrite decide_False].
  destruct Hwf as [[Hl Hi Hby Hids] Hcaps Hbd [? ?]]. rewrite Hj.
  split; [|done]. split; [by split|done|done|].
  split; [done|]. apply wrap_u_range. lia.
Qed.

Lemma NewMemQueue_spec cfg :
  NewMemQueue cfg = None /\ (MaxEvents cfg <= 0 \/ MaxBytes cfg <= 0) \/
  exists q, NewMemQueue cfg = Some q /\ queue_wf q /\ config q = cfg /\ events q = [] /\
    dropped q = 0 /\ rejected q = 0.
Proof.
  unfold NewMemQueue.
  destruct (MaxEvents cfg <=? 0) eqn:E1; [left; go_bools; auto|].
  destruct (MaxBytes cfg <=? 0) eqn:E2; [left; go_bools; auto|].
  right. simpl. eexists. split; [done|]. go_bools. destruct cfg. simpl in *.
  split; [|done]. split; [split| |split|]; try done.
  - apply gl_wf_new.
  - intros id a. simpl. rewrite lookup_empty. split; [done|].
    by intros (ev & ?%not_elem_of_nil & _).
  - constructor.
  - constructor.
  - unfold events, zlen, gl_values, sum_by. simpl. lia.
Qed.

(** ** The interface the sender and the intake are proved against *)

Class EventQueue (Q : Type) : Type := {
  eq_wf : Q -> Prop;
  eq_events : Q -> list Event;
  eq_dropped : Q -> Z;
  eq_depth : Q -> nat;
  eq_push : Q -> Event -> Q * bool;
  eq_peek : Q -> nat -> list Event;
  eq_ack : Q -> string -> Q;
  eq_reject : Q -> string -> Q;
  eq_push_wf q e : eq_wf q -> eq_wf (eq_push q e).1;
  eq_ack_wf q id : eq_wf q -> eq_wf (eq_ack q id);
  eq_reject_wf q id : eq_wf q -> eq_wf (eq_reject q id);
  eq_ids q : eq_wf q -> NoDup (ID <$> eq_events q);
  eq_depth_events q : eq_depth q = length (eq_events q);
  (** A push finds its id queued already and changes nothing, or drops the
      front of the queue, counts what it drops and adds the event. *)
  eq_push_events q e : eq_wf q ->
    (ID e ∈ (ID <$> eq_events q) /\ (eq_push q e).1 = q) \/
    (ID e ∉ (ID <$> eq_events q) /\
     exists d k, eq_events q = d ++ k /\ eq_events (eq_push q e).1 = k ++ [e] /\
       eq_dropped (eq_push q e).1 = u64 (eq_dropped q + zlen d));
  eq_ack_events q id : eq_wf q ->
    eq_events (eq_ack q id) = Spec.remove id (eq_events q) /\ eq_dropped (eq_ack q id) = eq_dropped q;
  eq_reject_events q id : eq_wf q ->
    eq_events (eq_reject q id) = Spec.remove id (eq_events q) /\ eq_dropped (eq_reject q id) = eq_dropped q;
  eq_peek_events q n : eq_wf q -> eq_peek q n = take n (eq_events q);
}.

#[export] Program Instance mem_queue_EventQueue : EventQueue mem_queue := {|
  eq_wf := queue_wf;
  eq_events := events;
  eq_dropped := Dropped;
  eq_depth := Depth;
  eq_push := Push;
  eq_peek := Peek;
  eq_ack := Ack;
  eq_reject := Reject;
|}.
Next Obligation. intros q e H. by apply Push_spec. Qed.
Next Obligation. intros q id H. by apply Ack_spec. Qed.
Next Obligation. intros q id H. by apply Reject_spec. Qed.
Next Obligation. intros q H. apply H. Qed.
Next Obligation. intros q. unfold Depth, events. by rewrite gl_len_values. Qed.
Next Obligation.
  intros q e H. destruct (Push_spec q e H) as (_ & _ & He & _ & _ & Hd). simpl in *.
  destruct (decide (ID e ∈ ID <$> events q)) as [Hin|Hin].
  - left. split; [done|]. unfold Push. apply (index_events q _ (wf_repr q H)) in Hin as [a ->]. done.
  - right. split; [done|]. unfold Spec.push in He. rewrite decide_False in He by done.
    destruct (Spec.make_room_suffix (config q) (ev_len e) (events q)) as [d Hs].
    exists d, (Spec.make_room (config q) (ev_len e) (events q)).
    split; [done|]. split; [done|]. unfold Dropped. rewrite Hd by done. f_equal.
    rewrite He, Hs at 1. rewrite !zlen_app, zlen_cons, zlen_nil. lia.
Qed.
Next Obligation. intros q id H. split; apply Ack_spec, H. Qed.
Next Obligation. intros q id H. split; apply Reject_spec, H. Qed.
Next Obligation. done. Qed.

(** ** Properties *)

(** The operations the producer and the sender interleave on one queue. *)
Inductive queue_op : Type :=
| OpPush (e : Event)
| OpAck (id : string)
| OpReject (id : string).

Definition queue_step (q : mem_queue) (o : queue_op) : mem_queue :=
  match o with
  | OpPush e => (Push q e).1
  | OpAck id => Ack q id
  | OpReject id => Reject q id
  end.

Definition queue_run (q : mem_queue) (os : list queue_op) : mem_queue :=
  foldl queue_step q os.

(** The contract's reading of the same operation. *)
Definition spec_step (cfg : Config) (l : list Event) (o : queue_op) : list Event :=
  match o with
  | OpPush e => Spec.push cfg e l
  | OpAck id | OpReject id => Spec.remove id l
  end.

Lemma queue_step_spec q o :
  queue_wf q ->
  queue_wf (queue_step q o) /\ config (queue_step q o) = config q /\
  events (queue_step q o) = spec_step (config q) (events q) o.
Proof.
  intros H. destruct o; simpl.
  - by destruct (Push_spec q e H) as (?&?&?&_).
  - by destruct (Ack_spec q id H) as (?&?&?&_).
  - by destruct (Reject_spec q id H) as (?&?&?&_).
Qed.

Lemma queue_run_spec os : forall q,
  queue_wf q ->
  queue_wf (queue_run q os) /\ config (queue_run q os) = config q /\
  events (queue_run q os) = foldl (spec_step (config q)) (events q) os.
Proof.
  induction os as [|o os IH]; intros q H; [done|]. simpl.
  destruct (queue_step_spec q o H) as (Hw & Hc & He).
  destruct (IH _ Hw) as (? & Hc' & He').
  split; [done|]. split; [congruence|]. by rewrite He', Hc, He.
Qed.

(** C1. The queue refines its contract over any interleaving of pushes,
    acknowledgements and rejections: a queue built by [NewMemQueue] with
    positive caps always holds the events a bounded first-in first-out list
    with the same history holds, its event ids stay distinct, it never holds
    more than [MaxEvents] events, and its payload bytes stay within [MaxBytes]
    except when one oversize event is queued alone. *)
Theorem queue_refines_bounded_fifo (cfg : Config) (q : mem_queue) (os : list queue_op) :
  NewMemQueue cfg = Some q ->
  let q' := queue_run q os in
  events q' = foldl (spec_step cfg) [] os /\
  Spec.bounded cfg (events q') /\
  qbytes q' = sum_by ev_len (events q').
Proof.
  intros Hq. destruct (NewMemQueue_spec cfg) as [[Hn _]|(q0 & Hq0 & Hwf & Hc & He & _)];
    [congruence|].
  rewrite Hq in Hq0. injection Hq0 as <-.
  destruct (queue_run_spec os q Hwf) as (Hwf' & Hc' & He').
  rewrite Hc, He in He'. split; [done|]. split; [|apply Hwf'].
  rewrite <- Hc, <- Hc'. apply Hwf'.
Qed.

Definition ex_ops : list queue_op :=
  [OpPush (mkEvent "a" [1; 2]); OpPush (mkEvent "b" [3]); OpPush (mkEvent "a" [9]);
   OpPush (mkEvent "c" [4; 5]); OpAck "b"; OpPush (mkEvent "d" [1; 2; 3; 4; 5; 6; 7])].

Lemma queue_refines_bounded_fifo_witness :
  events (queue_run (mkQueue 2 5 0 gl_new ∅ 0 0) ex_ops) = [mkEvent "d" [1; 2; 3; 4; 5; 6; 7]] /\
  Spec.bounded (mkConfig 2 5) (events (queue_run (mkQueue 2 5 0 gl_new ∅ 0 0) ex_ops)).
Proof.
  split; [vm_compute; reflexivity|].
  apply (queue_refines_bounded_fifo (mkConfig 2 5) (mkQueue 2 5 0 gl_new ∅ 0 0) ex_ops eq_refl).
Defined.

(** What one [Push] does to a well-formed queue: a queued id makes it a
    no-op answering [false]; otherwise it answers [true], the event is queued
    last, only the oldest events are evicted and only until both caps have
    room for it, and the dropped counter grows by exactly the number evicted. *)
Theorem push_evicts_oldest_only (q : mem_queue) (e : Event) :
  queue_wf q ->
  let '(q', added) := Push q e in
  queue_wf q' /\
  if added then
    ID e ∉ (ID <$> events q) /\
    (exists gone kept,
      events q = gone ++ kept /\ events q' = kept ++ [e] /\
      dropped q' = u64 (dropped q + zlen gone) /\
      (kept = [] \/ zlen kept < maxEvents q /\ sum_by ev_len kept + ev_len e <= maxBytes q) /\
      (forall g gs, gone = gs ++ [g] ->
         maxEvents q <= zlen (g :: kept) \/ maxBytes q < sum_by ev_len (g :: kept) + ev_len e))
  else ID e ∈ ID <$> events q /\ q' = q.
Proof.
  intros Hwf. destruct (Push_spec q e Hwf) as (Hwf' & Hc & He & Ha & _ & Hd).
  destruct (Push q e) as [q' added] eqn:Hp. simpl in *. split; [done|]. subst added.
  case_bool_decide as Hin.
  2: { split; [done|].
       unfold Push in Hp.
       apply (index_events q _ (wf_repr q Hwf)) in Hin as [a Ha]. rewrite Ha in Hp. congruence. }
  split; [done|]. unfold Spec.push in He. rewrite decide_False in He by done.
  specialize (Hd Hin).
  destruct (Spec.make_room_suffix (config q) (ev_len e) (events q)) as [gone Hgone].
  exists gone, (Spec.make_room (config q) (ev_len e) (events q)).
  split; [done|]. split; [done|]. split.
  { rewrite Hd, He. f_equal. rewrite Hgone at 1.
    rewrite !zlen_app, zlen_cons, zlen_nil. lia. }
  split; [apply (Spec.make_room_room (config q))|].
  intros g gs ->. clear -Hgone. revert Hgone.
  generalize (events q) as l. revert gs.
  assert (forall l gs kept, Spec.make_room (config q) (ev_len e) l = kept ->
    l = gs ++ g :: kept ->
    maxEvents q <= zlen (g :: kept) \/ maxBytes q < sum_by ev_len (g :: kept) + ev_len e) as H.
  { induction l as [|x l IH]; intros gs kept Hk Hl; [by destruct gs|].
    rewrite make_room_cons in Hk. destruct gs as [|y gs]; injection Hl as -> ->.
    - case_match eqn:E; [|apply (f_equal length) in Hk; simpl in Hk; lia].
      apply orb_true_iff in E. rewrite Z.leb_le, Z.ltb_lt in E. exact E.
    - case_match; [by eapply IH|].
      apply (f_equal length) in Hk. rewrite length_cons, length_app in Hk. simpl in Hk. lia. }
  intros gs l Hl. eapply (H l gs); [done|]. rewrite Hl at 1. by rewrite <- app_assoc.
Qed.

(** A well-formed queue of two events, for the witnesses. *)
Definition ex_queue : mem_queue :=
  queue_run (mkQueue 2 5 0 gl_new ∅ 0 0) [OpPush (mkEvent "a" [1; 2]); OpPush (mkEvent "b" [3])].

Lemma ex_queue_wf : queue_wf ex_queue.
Proof.
  destruct (NewMemQueue_spec (mkConfig 2 5)) as [[H _]|(q & H & Hw & _)]; [discriminate H|].
  apply queue_run_spec. injection H as <-. exact Hw.
Qed.

Lemma push_evicts_oldest_only_witness :
  queue_wf ex_queue /\
  events (Push ex_queue (mkEvent "c" [4; 5])).1 = [mkEvent "b" [3]; mkEvent "c" [4; 5]] /\
  let '(q', added) := Push ex_queue (mkEvent "c" [4; 5]) in
  queue_wf q' /\ (if added then dropped q' = 1 else False).
Proof.
  pose proof (push_evicts_oldest_only ex_queue (mkEvent "c" [4; 5]) ex_queue_wf) as H.
  split; [exact ex_queue_wf|]. split; [vm_compute; reflexivity|].
  destruct (Push ex_queue (mkEvent "c" [4; 5])) as [q' added] eqn:E.
  destruct H as [Hw _]. split; [exact Hw|].
  vm_compute in E. injection E as <- <-. reflexivity.
Defined.
