(* ===== verification/Position.v ===== *)
(** The acknowledged log position and its on-disk record,
    [internal/agent/queue/position.go].

    [crypto/sha256] is the standard library's, outside the repository: it is
    the section variable [sha256], of which the code relies on the digest's
    length only. The file operations of [PositionStore] are modelled over the
    bytes of the one file they write, with the failure points of [Save]. *)
From S2P Require Import Prelude GoBase.
#[local] Open Scope Z_scope.

(** [queue.Position]: [Inode] is a [uint64], [Offset] an [int64]. *)
Record Position : Type := mkPosition { Inode : Z; Offset : Z }.

#[export] Instance Position_eq_dec : EqDecision Position.
Proof. solve_decision. Defined.

Definition position_ok (p : Position) : Prop := in_u 64 (Inode p) /\ in_i 64 (Offset p).

Definition sha256_size : Z := 32.

Section position.
Context (sha256 : bytes -> bytes).

Definition positionRecordLen : Z := 8 + 8 + sha256_size.

Definition encodePosition (pos : Position) : bytes :=
  let head := put_u64 (Inode pos) ++ put_u64 (u64 (Offset pos)) in
  head ++ sha256 head.

Definition decodePosition (buf : bytes) : option Position :=
  if negb (zlen buf =? positionRecordLen) then None
  else
    let sum := sha256 (slice buf 0 16) in
    if negb (bool_decide (sum = slice buf 16 positionRecordLen)) then None
    else Some (mkPosition (get_u64 buf 0) (i64 (get_u64 buf 8))).

(** The position file: [None] when it does not exist. *)
Definition pos_file := option bytes.

(** What a file says: none, a torn record and a corrupted one all say that no
    position was saved. *)
Definition saved (f : pos_file) : option Position :=
  match f with
  | None => None
  | Some buf => decodePosition buf
  end.

Inductive pos_error : Type := ErrReadPosition.

(** [Load]; [readable] says whether the read met no other trouble than that
    there is no file. *)
Definition Load (readable : bool) (f : pos_file) : res pos_error (option Position) :=
  if readable then Ok (saved f) else Err ErrReadPosition.

(** [Save] writes the record to a temporary file and renames it over the
    path; [renamed] says whether the attempt got as far as the rename. The
    steps before it (create, chmod, write, sync, close) leave the path
    untouched, and so does a failed rename. *)
Definition Save (f : pos_file) (pos : Position) (renamed : bool) : pos_file :=
  if renamed then Some (encodePosition pos) else f.

Hypothesis sha256_length : forall b, zlen (sha256 b) = sha256_size.

Lemma encode_length p : zlen (encodePosition p) = positionRecordLen.
Proof.
  unfold encodePosition, positionRecordLen.
  rewrite !zlen_app, !zlen_put_u64, sha256_length. lia.
Qed.

Lemma slice_prefix (h t : bytes) : slice (h ++ t) 0 (zlen h) = h.
Proof.
  unfold slice, zlen. rewrite Z.sub_0_r, Nat2Z.id. change (Z.to_nat 0) with 0%nat.
  by rewrite drop_0, take_app_length.
Qed.

Lemma slice_suffix (h t : bytes) : slice (h ++ t) (zlen h) (zlen h + zlen t) = t.
Proof. pose proof (slice_app_mid h t []) as H. by rewrite app_nil_r in H. Qed.

Lemma get_u64_put (p : bytes) x (s : bytes) :
  get_u64 (p ++ put_u64 x ++ s) (zlen p) = u64 x.
Proof.
  unfold get_u64.
  replace (zlen p + 8) with (zlen p + zlen (put_u64 x)) by (rewrite zlen_put_u64; lia).
  rewrite slice_app_mid. apply put_u64_val.
Qed.

Lemma decode_encode p : position_ok p -> decodePosition (encodePosition p) = Some p.
Proof.
  intros [Hi Ho]. unfold decodePosition. rewrite encode_length, Z.eqb_refl. simpl.
  unfold encodePosition. cbv zeta. set (h := put_u64 _ ++ put_u64 _).
  assert (zlen h = 16) as Hh by (unfold h; rewrite zlen_app, !zlen_put_u64; lia).
  replace (slice (h ++ sha256 h) 0 16) with h by (rewrite <- Hh; by rewrite slice_prefix).
  replace (slice (h ++ sha256 h) 16 positionRecordLen) with (sha256 h).
  2: { replace positionRecordLen with (zlen h + zlen (sha256 h)).
       - rewrite <- Hh at 1. by rewrite slice_suffix.
       - rewrite sha256_length, Hh. done. }
  rewrite bool_decide_eq_true_2 by done. cbn [negb].
  pose proof (get_u64_put [] (Inode p) (put_u64 (u64 (Offset p)) ++ sha256 h)) as H0.
  pose proof (get_u64_put (put_u64 (Inode p)) (u64 (Offset p)) (sha256 h)) as H8.
  rewrite app_nil_l, zlen_nil, app_assoc in H0. rewrite app_assoc, zlen_put_u64 in H8.
  fold h in H0, H8. rewrite H0, H8.
  rewrite (wrap_u_small 64 (u64 (Offset p))) by (apply wrap_u_range; lia).
  rewrite wrap_u_small by done. rewrite wrap_i_u by (done || lia). by destruct p.
Qed.

(** A record that decodes is the encoding of what it decodes to. *)
Lemma decode_some buf p :
  wf_bytes buf -> decodePosition buf = Some p ->
  position_ok p /\ buf = encodePosition p.
Proof.
  intros Hwf. unfold decodePosition. case_match eqn:E1; [done|]. case_match eqn:E2; [done|].
  go_bools. intros [= <-].
  assert (0 <= 8 /\ 8 <= 16 /\ 16 <= zlen buf) as (? & ? & ?)
    by (rewrite E1; unfold positionRecordLen, sha256_size; lia).
  assert (forall i, 0 <= i -> i + 8 <= zlen buf ->
    put_u64 (get_u64 buf i) = slice buf i (i + 8) /\ in_u 64 (get_u64 buf i)) as Hw.
  { intros i Hi Hl. pose proof (zlen_slice buf i (i + 8)) as Hsl.
    pose proof (slice_wf buf i (i + 8) Hwf) as Hsw. unfold get_u64, put_u64. split.
    - rewrite <- (be_bytes_val _ Hsw) at 2. f_equal. unfold zlen in *. lia.
    - pose proof (be_val_range _ Hsw) as Hr. rewrite Hsl in Hr by lia.
      replace (i + 8 - i) with 8 in Hr by lia. exact Hr. }
  destruct (Hw 0) as [G0 Hr0]; [lia..|]. destruct (Hw 8) as [G8 Hr8]; [lia..|].
  split; [split; [done|apply wrap_i_range; lia]|].
  unfold encodePosition. cbn [Inode Offset]. rewrite wrap_u_i by (done || lia).
  rewrite G0, G8. cbv zeta. change (0 + 8) with 8. change (8 + 8) with 16.
  rewrite <- (slice_split buf 0 8 16) by lia. rewrite E2.
  rewrite <- slice_split by lia. rewrite <- E1. by rewrite slice_full.
Qed.

(** C4. The saved position survives a restart and is never misread: after any
    sequence of save attempts of valid positions starting from no file,
    [Load] returns the position of the last attempt that reached its rename,
    and nothing if none did; and whatever the file holds, [Load] accepts it
    exactly when it is, byte for byte, the record [Save] writes for a valid
    position, and answers that position, so a torn, truncated, padded or
    altered record reads as no saved position; a file that cannot be read is an
    error, and no position. *)
Theorem saved_position_restored (attempts : list (Position * bool)) (buf : bytes) :
  Forall (fun a => position_ok (fst a)) attempts ->
  wf_bytes buf ->
  Load true (foldl (fun f a => Save f (fst a) (snd a)) None attempts) =
    Ok (last (fst <$> filter (fun a => snd a = true) attempts)) /\
  (forall p, Load true (Some buf) = Ok (Some p) <-> position_ok p /\ Save None p true = Some buf) /\
  (exists r, Load true (Some buf) = Ok r) /\ forall f, Load false f = Err ErrReadPosition.
Proof.
  intros Hall Hwf. cbn [Load]. split; [clear Hwf; f_equal|split; [|split; [by eexists|done]]].
  - induction attempts as [|[p ok] attempts IH] using rev_ind; [done|].
    apply Forall_app in Hall as [Hall Hp]. apply Forall_cons in Hp as [Hp _]. simpl in Hp.
    rewrite foldl_snoc, filter_app. simpl. destruct ok; simpl.
    + rewrite decode_encode by done.
      rewrite filter_cons_True by done. rewrite filter_nil, fmap_app.
      cbn [fmap list_fmap fst]. by rewrite last_snoc.
    + rewrite filter_cons_False by done. rewrite app_nil_r. auto.
  - intros p. simpl. split.
    + intros [= H]. destruct (decode_some _ _ Hwf H) as [? ->]. done.
    + intros [Hp [= <-]]. by rewrite decode_encode.
Qed.
End position.

(** A digest for the witnesses: the first 32 bytes of the data, zero padded. *)
Definition toy_digest (b : bytes) : bytes := take 32 (b ++ replicate 32 0).

Lemma toy_digest_length b : zlen (toy_digest b) = sha256_size.
Proof.
  unfold toy_digest, zlen, sha256_size. rewrite length_take, length_app, length_replicate. lia.
Qed.

Lemma saved_position_restored_witness :
  Load toy_digest true
    (foldl (fun f a => Save toy_digest f (fst a) (snd a)) None
       [(mkPosition 7 100, true); (mkPosition 8 (-1), true); (mkPosition 9 5, false)]) =
    Ok (Some (mkPosition 8 (-1))) /\
  Load toy_digest true (Some (encodePosition toy_digest (mkPosition 7 100))) = Ok (Some (mkPosition 7 100)).
Proof.
  pose proof (saved_position_restored toy_digest toy_digest_length
    [(mkPosition 7 100, true); (mkPosition 8 (-1), true); (mkPosition 9 5, false)]
    (encodePosition toy_digest (mkPosition 7 100))) as H.
  destruct H as (H1 & H2 & _).
  - repeat constructor; vm_compute; intuition discriminate.
  - apply (bool_decide_unpack _); vm_compute; exact I.
  - split; [exact H1|]. apply H2.
    split; [repeat constructor; vm_compute; intuition discriminate|reflexivity].
Defined.
