(* ===== verification/Ledger.v ===== *)
(** The ordered record of log-road lines the acknowledged position is built
    from, [internal/agent/ledger/ledger.go].

    [Spec] is the contract, a list of entries in log order. [ledger] is the
    code's state: the [container/list] of entries, the index from an event id
    to the elements that carry it, and the bounded window of discarded ids.
    The simulation lemmas relate the two, and the history theorem says what
    every position [Advance] ever reports stands for. *)
From S2P Require Import Prelude GoBase GoList Position.
#[local] Open Scope Z_scope.

(** [Verdict] is an [int]: the two valid values start at one, so that the
    zero value is neither. *)
Definition Stored : Z := 1.
Definition Rejected : Z := 2.
Definition DefaultCollisionWindow : Z := 1024.

Record entry : Type := mkEntry { eid : string; epos : Position; resolved : bool }.

Definition set_resolved (e : entry) : entry := mkEntry (eid e) (epos e) true.

Record ledger : Type := mkLedger {
  collisionWindow : Z;
  order : glist entry;
  byID : gmap string (list nat);
  discardedOrder : list string;
  discardedSet : gmap string Z;
  collisions : Z;
}.

(** [New]; [None] is its panic on a negative window. *)
Definition New (window : Z) : option ledger :=
  if window <? 0 then None else Some (mkLedger window gl_new ∅ [] ∅ 0).

(** A map read of an absent key is the zero value. *)
Definition ids_at (l : ledger) (id : string) : list nat := default [] (byID l !! id).
Definition count_at (m : gmap string Z) (id : string) : Z := default 0 (m !! id).

Definition Append (l : ledger) (id : string) (pos : Position) : ledger :=
  let live := bool_decide (is_Some (byID l !! id)) in
  let c := if live || (0 <? count_at (discardedSet l) id)
           then u64 (collisions l + 1) else collisions l in
  let '(elem, ord) := gl_push_back (order l) (mkEntry id pos false) in
  mkLedger (collisionWindow l) ord (<[id := ids_at l id ++ [elem]]> (byID l))
    (discardedOrder l) (discardedSet l) c.

(** The loop of [Resolve]: the first unresolved element of the id's slice. *)
Fixpoint resolve_loop (ord : glist entry) (elems : list nat) : glist entry :=
  match elems with
  | [] => ord
  | a :: elems =>
      match gl_value ord a with
      | Some e => if negb (resolved e) then gl_update ord a set_resolved
                  else resolve_loop ord elems
      | None => resolve_loop ord elems
      end
  end.

(** [Resolve]; [None] is its panic on an invalid verdict. *)
Definition Resolve (l : ledger) (id : string) (v : Z) : option ledger :=
  if negb (v =? Stored) && negb (v =? Rejected) then None
  else Some (mkLedger (collisionWindow l) (resolve_loop (order l) (ids_at l id)) (byID l)
               (discardedOrder l) (discardedSet l) (collisions l)).

(** The eviction loop of [rememberDiscarded], structural on the window list. *)
Fixpoint trim_window (w : Z) (ord : list string) (set : gmap string Z) :
    list string * gmap string Z :=
  match ord with
  | [] => (ord, set)
  | oid :: ord' =>
      if w <? zlen ord then
        let n := count_at set oid - 1 in
        trim_window w ord' (if n =? 0 then delete oid set else <[oid := n]> set)
      else (ord, set)
  end.

Definition rememberDiscarded (l : ledger) (id : string) : ledger :=
  if collisionWindow l =? 0 then l
  else
    let '(ord, set) :=
      trim_window (collisionWindow l) (discardedOrder l ++ [id])
        (<[id := count_at (discardedSet l) id + 1]> (discardedSet l)) in
    mkLedger (collisionWindow l) (order l) (byID l) ord set (collisions l).

(** One iteration of the loop of [Advance]: the resolved front entry leaves
    the list and the index; [None] when the loop stops. *)
Definition discard_front (l : ledger) : option (ledger * Position) :=
  match gl_front (order l) with
  | None => None
  | Some (front, e) =>
      if resolved e then
        let rest := tail (ids_at l (eid e)) in
        let byID' := if bool_decide (rest = []) then delete (eid e) (byID l)
                     else <[eid e := rest]> (byID l) in
        let l' := mkLedger (collisionWindow l) (gl_remove (order l) front) byID'
                    (discardedOrder l) (discardedSet l) (collisions l) in
        Some (rememberDiscarded l' (eid e), epos e)
      else None
  end.

(** The loop of [Advance], a unit of fuel per iteration; the ledger's length
    is enough. *)
Fixpoint advance_loop (fuel : nat) (l : ledger) (pos : option Position) :
    ledger * option Position :=
  match fuel with
  | O => (l, pos)
  | S fuel =>
      match discard_front l with
      | None => (l, pos)
      | Some (l, p) => advance_loop fuel l (Some p)
      end
  end.

Definition Advance (l : ledger) : ledger * option Position :=
  advance_loop (gl_len (order l)) l None.

Definition Collisions (l : ledger) : Z := collisions l.
Definition Len (l : ledger) : nat := gl_len (order l).

(** ** The contract *)
Module Spec.
Definition append (id : string) (pos : Position) (es : list entry) : list entry :=
  es ++ [mkEntry id pos false].

(** Settle the oldest unresolved entry of the id. *)
Fixpoint resolve (id : string) (es : list entry) : list entry :=
  match es with
  | [] => []
  | e :: es =>
      if bool_decide (eid e = id) && negb (resolved e) then set_resolved e :: es
      else e :: resolve id es
  end.

(** Give up the resolved prefix and report its last position. *)
Definition advance (es : list entry) : list entry * option Position :=
  (drop_while resolved es, epos <$> last (take_while resolved es)).

Definition line (e : entry) : string * Position := (eid e, epos e).

Lemma resolve_lines id es : line <$> resolve id es = line <$> es.
Proof.
  induction es as [|e es IH]; [done|]. cbn [resolve]. case_match; [done|].
  by rewrite !fmap_cons, IH.
Qed.
End Spec.

(** ** The representation *)

Definition entries (l : ledger) : list entry := gl_values (order l).

Definition addrs_of (id : string) (es : list (nat * entry)) : list nat :=
  fst <$> filter (fun e => eid (snd e) = id) es.

Definition occurrences (id : string) (ids : list string) : Z :=
  zlen (filter (fun x => x = id) ids).

Record ledger_wf (l : ledger) : Prop := {
  lwf_list : gl_wf (order l);
  (** Each id's slice is that id's live elements, oldest first; no empty
      slice is kept. *)
  lwf_index id : ids_at l id = addrs_of id (gl_elems (order l));
  lwf_nonempty id : byID l !! id ≠ Some [];
  (** The set counts the ids of the window, and the window is bounded. *)
  lwf_window id : count_at (discardedSet l) id = occurrences id (discardedOrder l);
  lwf_positive id n : discardedSet l !! id = Some n -> 0 < n;
  lwf_bound : zlen (discardedOrder l) <= collisionWindow l;
  lwf_counter : in_u 64 (collisions l);
}.

Lemma occurrences_app id a b : occurrences id (a ++ b) = occurrences id a + occurrences id b.
Proof. unfold occurrences. by rewrite filter_app, zlen_app. Qed.

Lemma occurrences_cons id x a :
  occurrences id (x :: a) = (if decide (x = id) then 1 else 0) + occurrences id a.
Proof. unfold occurrences. rewrite filter_cons. case_decide; rewrite ?zlen_cons; lia. Qed.

Lemma occurrences_nonneg id a : 0 <= occurrences id a.
Proof. apply zlen_nonneg. Qed.

Lemma occurrences_nil id : occurrences id [] = 0.
Proof. done. Qed.

Lemma occurrences_pos id a : 0 < occurrences id a <-> id ∈ a.
Proof.
  induction a as [|x a IH].
  - rewrite occurrences_nil. split; [lia|by intros ?%not_elem_of_nil].
  - rewrite occurrences_cons, elem_of_cons. pose proof (occurrences_nonneg id a).
    case_decide; [split; [by left|lia]|]. rewrite <- IH. split; [right; lia|intros [|]; [congruence|lia]].
Qed.

Lemma addrs_of_app id a b : addrs_of id (a ++ b) = addrs_of id a ++ addrs_of id b.
Proof. unfold addrs_of. by rewrite filter_app, fmap_app. Qed.

Lemma addrs_of_cons id a e es :
  addrs_of id ((a, e) :: es) = if decide (eid e = id) then a :: addrs_of id es else addrs_of id es.
Proof. unfold addrs_of. rewrite filter_cons. simpl. by case_decide. Qed.

Lemma addrs_of_nonempty id es : addrs_of id es ≠ [] <-> id ∈ eid <$> (snd <$> es).
Proof.
  induction es as [|[a e] es IH]; [split; [done|by intros ?%not_elem_of_nil]|].
  rewrite addrs_of_cons, !fmap_cons, elem_of_cons. simpl.
  case_decide; [split; [by left|done]|]. rewrite IH. split; [by right|intros [|]; [congruence|done]].
Qed.

Lemma index_live l id : ledger_wf l -> is_Some (byID l !! id) <-> id ∈ eid <$> entries l.
Proof.
  intros H. unfold entries, gl_values. rewrite <- addrs_of_nonempty, <- (lwf_index l H id).
  unfold ids_at. pose proof (lwf_nonempty l H id).
  destruct (byID l !! id) as [as'|]; simpl; [|split; [by intros []|done]].
  split; [congruence|eauto].
Qed.

(** ** The operations implement the contract *)

Lemma New_spec w l : New w = Some l -> ledger_wf l /\ entries l = [] /\ 0 <= w.
Proof.
  unfold New. case_match eqn:E; [done|]. intros [= <-]. go_bools.
  split; [|done]. split; simpl; try done. apply gl_wf_new.
Qed.

Lemma Append_spec l id pos :
  ledger_wf l ->
  let l' := Append l id pos in
  ledger_wf l' /\ entries l' = Spec.append id pos (entries l) /\
  collisions l' =
    if decide (id ∈ eid <$> entries l \/ id ∈ discardedOrder l)
    then u64 (collisions l + 1) else collisions l.
Proof.
  intros H. unfold Append. simpl.
  set (c := if (_ || _)%bool then _ else _).
  assert (c = if decide (id ∈ eid <$> entries l \/ id ∈ discardedOrder l)
              then u64 (collisions l + 1) else collisions l) as Hc.
  { unfold c. rewrite (bool_decide_ext _ _ (index_live l id H)).
    rewrite (lwf_window l H id).
    destruct (decide (id ∈ eid <$> entries l)).
    - rewrite bool_decide_eq_true_2 by done. rewrite decide_True by (by left). done.
    - rewrite bool_decide_eq_false_2 by done. simpl.
      pose proof (occurrences_pos id (discardedOrder l)) as Hp.
      destruct (0 <? occurrences id (discardedOrder l)) eqn:E; go_bools.
      + rewrite decide_True; [done|]. right. tauto.
      + rewrite decide_False; [done|]. intros [|Hin]; [done|]. apply Hp in Hin. lia. }
  split; [|split; [unfold entries, gl_values; simpl; by rewrite fmap_app|done]].
  assert (in_u 64 c) as Hcu.
  { rewrite Hc. case_decide; [apply wrap_u_range; lia|apply H]. }
  split; simpl; try apply H; [..|exact Hcu].
  - apply (gl_wf_push_back (order l)), H.
  - intros id'. unfold ids_at. simpl. rewrite addrs_of_app, addrs_of_cons. simpl.
    rewrite <- (lwf_index l H id'). unfold ids_at.
    destruct (decide (id = id')) as [->|Hne].
    + by rewrite lookup_insert_eq.
    + rewrite lookup_insert_ne by done. cbn. by rewrite app_nil_r.
  - intros id'. rewrite lookup_insert_Some. intros [[_ Hnil]|[_ Hnil]].
    + by apply app_nil in Hnil as [_ ?].
    + by eapply lwf_nonempty.
Qed.

(** The list element an index slice's first unresolved address names. *)
Lemma resolve_loop_elems ord id : forall es es0,
  gl_wf ord -> gl_elems ord = es0 ++ es ->
  (forall e, e ∈ es0 -> eid (snd e) = id -> resolved (snd e) = true) ->
  gl_elems (resolve_loop ord (addrs_of id es)) =
    es0 ++ zip (fst <$> es) (Spec.resolve id (snd <$> es)).
Proof.
  induction es as [|[a e] es IH]; intros es0 Hwf Hes Hpre; [exact Hes|].
  rewrite addrs_of_cons.
  assert ((a, e) ∈ gl_elems ord) as Hin by (rewrite Hes; apply elem_of_app; right; left).
  rewrite !fmap_cons. cbn [fst snd Spec.resolve].
  destruct (decide (eid e = id)) as [Hid|Hid].
  - rewrite bool_decide_eq_true_2 by done. cbn [resolve_loop].
    rewrite (gl_elem_value _ _ _ Hwf Hin). simpl negb.
    destruct (resolved e) eqn:Hr; simpl.
    + rewrite (IH (es0 ++ [(a, e)])); [by rewrite <- app_assoc|done|by rewrite <- app_assoc|].
      intros e' [He'| ->%list_elem_of_singleton]%elem_of_app; auto.
    + destruct Hwf as [Hnd _]. unfold gl_addrs in Hnd. rewrite Hes in Hnd.
      unfold gl_update. cbn [gl_elems]. rewrite Hes.
      rewrite fmap_app, fmap_cons in Hnd. simpl in Hnd.
      apply NoDup_app in Hnd as (_ & Hdis & [Ha _]%NoDup_cons).
      rewrite fmap_app, fmap_cons. simpl. rewrite decide_True by done. rewrite zip_fst_snd.
      assert (forall k : list (nat * entry), a ∉ fst <$> k ->
        (fun e : nat * entry => if decide (fst e = a) then (fst e, set_resolved (snd e)) else e) <$> k = k) as Hk.
      { intros k Hnk. induction k as [|x k IHk]; [done|]. rewrite fmap_cons in *.
        apply not_elem_of_cons in Hnk as [? ?]. simpl. rewrite decide_False by done.
        f_equal. auto. }
      rewrite !Hk; [done|done|]. intros Ha0. apply (Hdis a Ha0). by left.
  - rewrite bool_decide_eq_false_2 by done. simpl.
    rewrite (IH (es0 ++ [(a, e)])); [by rewrite <- app_assoc|done|by rewrite <- app_assoc|].
    intros e' [He'| ->%list_elem_of_singleton]%elem_of_app; [auto|done].
Qed.

Lemma resolve_loop_next ord elems : gl_next (resolve_loop ord elems) = gl_next ord.
Proof.
  revert ord. induction elems as [|a elems IH]; intros ord; [done|]. simpl.
  destruct (gl_value ord a) as [e|]; [|apply IH]. destruct (resolved e); [apply IH|done].
Qed.

Lemma resolve_ids id es : eid <$> Spec.resolve id es = eid <$> es.
Proof.
  pose proof (Spec.resolve_lines id es) as H. apply (f_equal (fmap fst)) in H.
  by rewrite <- !list_fmap_compose in H.
Qed.

Lemma length_resolve id es : length (Spec.resolve id es) = length es.
Proof. rewrite <- (length_fmap eid), resolve_ids. apply length_fmap. Qed.

(** Which addresses carry an id depends on the entries' ids only. *)
Lemma addrs_of_zip id (ads : list nat) es es' :
  eid <$> es' = eid <$> es -> addrs_of id (zip ads es') = addrs_of id (zip ads es).
Proof.
  revert es es'. induction ads as [|a ads IH]; intros es es' H; [done|].
  destruct es as [|e es], es' as [|e' es']; try done. simpl in H. injection H as He H.
  simpl. rewrite !addrs_of_cons, He. case_decide; [f_equal|]; by apply IH.
Qed.

Lemma Resolve_spec l id v :
  ledger_wf l -> v = Stored \/ v = Rejected ->
  exists l', Resolve l id v = Some l' /\ ledger_wf l' /\
    entries l' = Spec.resolve id (entries l) /\
    collisions l' = collisions l /\ collisionWindow l' = collisionWindow l.
Proof.
  intros H Hv. unfold Resolve.
  replace (negb (v =? Stored) && negb (v =? Rejected)) with false
    by (destruct Hv as [-> | ->]; done).
  eexists. split; [done|]. rewrite (lwf_index l H id).
  set (ord := resolve_loop _ _).
  assert (gl_elems ord = zip (gl_addrs (order l)) (Spec.resolve id (entries l))) as Hel.
  { unfold ord. apply (resolve_loop_elems (order l) id (gl_elems (order l)) []); [apply H|done|].
    by intros e ?%not_elem_of_nil. }
  assert (length (gl_addrs (order l)) = length (entries l)) as Hlen.
  { unfold gl_addrs, entries, gl_values. by rewrite !length_fmap. }
  assert (gl_addrs ord = gl_addrs (order l)) as Had.
  { unfold gl_addrs at 1. rewrite Hel, fst_zip; [done|]. rewrite length_resolve. lia. }
  split; [|split; [|done]].
  - split; simpl; try apply H.
    + destruct (lwf_list l H) as [Hnd Hlt]. split; [by rewrite Had|].
      unfold ord. rewrite resolve_loop_next. fold ord. by rewrite Had.
    + intros id'. unfold ids_at. simpl.
      change (ids_at l id' = addrs_of id' (gl_elems ord)).
      rewrite (lwf_index l H id'), Hel.
      rewrite (addrs_of_zip id' _ (entries l)) by apply resolve_ids.
      unfold entries, gl_values, gl_addrs. by rewrite zip_fst_snd.
  - unfold entries at 1, gl_values. simpl. rewrite Hel, snd_zip; [done|].
    rewrite length_resolve. lia.
Qed.

(** *** The discarded window *)

Lemma count_at_insert m (id id' : string) n :
  count_at (<[id := n]> m) id' = if decide (id = id') then n else count_at m id'.
Proof.
  unfold count_at. case_decide; subst; [by rewrite lookup_insert_eq|by rewrite lookup_insert_ne].
Qed.

Lemma count_at_delete m (id id' : string) :
  count_at (delete id m) id' = if decide (id = id') then 0 else count_at m id'.
Proof.
  unfold count_at. case_decide; subst; [by rewrite lookup_delete_eq|by rewrite lookup_delete_ne].
Qed.

Definition window_wf (ord : list string) (set : gmap string Z) : Prop :=
  (forall id, count_at set id = occurrences id ord) /\
  (forall id n, set !! id = Some n -> 0 < n).

Lemma trim_window_spec w ord set :
  0 <= w -> window_wf ord set ->
  let '(ord', set') := trim_window w ord set in
  window_wf ord' set' /\ ord' = drop (length ord - Z.to_nat w) ord.
Proof.
  intros Hw. revert set. induction ord as [|oid ord IH]; intros set [Hc Hp]; simpl; [done|].
  destruct (w <? zlen (oid :: ord)) eqn:E; go_bools; unfold zlen in E; simpl in E.
  - set (set' := if _ : bool then _ else _).
    assert (window_wf ord set') as Hwf.
    { specialize (Hc oid) as Hoid. rewrite occurrences_cons, decide_True in Hoid by done.
      split.
      - intros id. specialize (Hc id). rewrite occurrences_cons in Hc. unfold set'.
        destruct (count_at set oid - 1 =? 0) eqn:E2;
          rewrite ?count_at_insert, ?count_at_delete; go_bools;
          revert Hc; destruct (decide (oid = id)) as [->|]; intros Hc; lia.
      - intros id n. unfold set'. case_match eqn:E2; go_bools.
        + rewrite lookup_delete_Some. intros [_ ?]. by eapply Hp.
        + rewrite lookup_insert_Some. intros [[_ <-]|[_ ?]]; [|by eapply Hp].
          pose proof (occurrences_nonneg oid ord). lia. }
    specialize (IH set' Hwf). destruct (trim_window w ord set') as [ord' set''].
    destruct IH as [? ->]. split; [done|].
    replace (S (length ord) - Z.to_nat w)%nat with (S (length ord - Z.to_nat w)) by lia. done.
  - split; [done|]. replace (S (length ord) - Z.to_nat w)%nat with 0%nat by lia. done.
Qed.

(** The last [w] of some ids. *)
Definition last_ids (w : Z) (ids : list string) : list string := drop (length ids - Z.to_nat w) ids.

Lemma last_ids_app w a b : last_ids w (last_ids w a ++ b) = last_ids w (a ++ b).
Proof.
  unfold last_ids. set (k := (length a - Z.to_nat w)%nat).
  assert (drop k a ++ b = drop k (a ++ b)) as -> by (rewrite drop_app_le; [done|unfold k; lia]).
  rewrite drop_drop, length_drop, length_app. f_equal. unfold k. lia.
Qed.

Lemma last_ids_all w ids : zlen ids <= w -> last_ids w ids = ids.
Proof. intros Hl. unfold last_ids, zlen in *. replace (length ids - Z.to_nat w)%nat with 0%nat by lia. done. Qed.

Lemma rememberDiscarded_spec l id :
  0 <= collisionWindow l -> window_wf (discardedOrder l) (discardedSet l) ->
  zlen (discardedOrder l) <= collisionWindow l ->
  let l' := rememberDiscarded l id in
  window_wf (discardedOrder l') (discardedSet l') /\
  zlen (discardedOrder l') <= collisionWindow l /\
  order l' = order l /\ byID l' = byID l /\ collisions l' = collisions l /\
  collisionWindow l' = collisionWindow l /\
  discardedOrder l' = last_ids (collisionWindow l) (discardedOrder l ++ [id]).
Proof.
  intros Hw Hwf Hlen. unfold rememberDiscarded.
  destruct (collisionWindow l =? 0) eqn:E.
  { go_bools. split_and!; try done. destruct (discardedOrder l); [|unfold zlen in Hlen; simpl in Hlen; lia].
    unfold last_ids. rewrite E. done. }
  set (ord := discardedOrder l ++ [id]). set (set1 := <[_ := _]> _).
  assert (window_wf ord set1) as Hwf1.
  { destruct Hwf as [Hc Hp]. split.
    - intros id'. unfold set1, ord. rewrite count_at_insert, occurrences_app, occurrences_cons.
      rewrite occurrences_nil. pose proof (Hc id'). case_decide; subst; lia.
    - intros id' n. unfold set1. rewrite lookup_insert_Some. intros [[_ <-]|[_ ?]]; [|by eapply Hp].
      rewrite Hc. pose proof (occurrences_nonneg id (discardedOrder l)). lia. }
  pose proof (trim_window_spec (collisionWindow l) ord set1 Hw Hwf1) as Ht.
  destruct (trim_window (collisionWindow l) ord set1) as [ord' set']. simpl.
  destruct Ht as [? ->]. split; [done|]. split; [|done].
  unfold zlen. rewrite length_drop. lia.
Qed.

(** *** The frontier *)

Lemma discard_front_spec l :
  ledger_wf l ->
  match entries l with
  | e :: es =>
      if resolved e then
        exists l', discard_front l = Some (l', epos e) /\ ledger_wf l' /\ entries l' = es /\
          collisions l' = collisions l /\ collisionWindow l' = collisionWindow l /\
          discardedOrder l' = last_ids (collisionWindow l) (discardedOrder l ++ [eid e])
      else discard_front l = None
  | [] => discard_front l = None
  end.
Proof.
  intros H. unfold entries, gl_values, discard_front.
  destruct (gl_elems (order l)) as [|[a e] es] eqn:Hes; simpl.
  { unfold gl_front. by rewrite Hes. }
  assert (gl_front (order l) = Some (a, e)) as -> by (apply gl_front_some; eauto).
  destruct (resolved e) eqn:Hr; [|done].
  pose proof (lwf_index l H (eid e)) as Hidx. rewrite Hes, addrs_of_cons, decide_True in Hidx by done.
  rewrite Hidx. simpl tail. set (l1 := mkLedger _ _ _ _ _ _).
  pose proof (lwf_bound l H) as Hb. pose proof (zlen_nonneg (discardedOrder l)) as Hz.
  destruct (rememberDiscarded_spec l1 (eid e)) as (Hw & Hbd & Ho & Hi & Hc & Hcw & Hdo).
  { simpl. lia. }
  { split; [apply H|]. apply (lwf_positive l H). }
  { exact Hb. }
  assert (gl_elems (order (rememberDiscarded l1 (eid e))) = es) as Hes'.
  { rewrite Ho. exact (gl_remove_front _ _ _ _ (lwf_list l H) Hes). }
  eexists. split; [done|]. split; [split|split].
  - rewrite Ho. apply gl_wf_remove, H.
  - intros id. rewrite Hes'. unfold ids_at. rewrite Hi. simpl.
    pose proof (lwf_index l H id) as Hid. rewrite Hes, addrs_of_cons in Hid. unfold ids_at in Hid.
    destruct (decide (eid e = id)) as [<-|Hne].
    + case_bool_decide as Hnil; [by rewrite lookup_delete_eq, Hnil|by rewrite lookup_insert_eq].
    + case_bool_decide; [by rewrite lookup_delete_ne|by rewrite lookup_insert_ne].
  - intros id. rewrite Hi. simpl. case_bool_decide.
    + rewrite lookup_delete_Some. intros [_ ?]. by eapply lwf_nonempty.
    + rewrite lookup_insert_Some. intros [[_ ?]|[_ ?]]; [done|]. by eapply lwf_nonempty.
  - apply Hw.
  - apply Hw.
  - rewrite Hcw. done.
  - rewrite Hc. apply H.
  - by rewrite Hes'.
  - by split_and!.
Qed.

Lemma advance_loop_spec fuel : forall l pos,
  ledger_wf l -> (length (entries l) <= fuel)%nat ->
  let '(l', pos') := advance_loop fuel l pos in
  ledger_wf l' /\ entries l' = drop_while resolved (entries l) /\
  pos' = match last (take_while resolved (entries l)) with
         | Some e => Some (epos e)
         | None => pos
         end /\
  collisions l' = collisions l /\ collisionWindow l' = collisionWindow l /\
  discardedOrder l' = last_ids (collisionWindow l) (discardedOrder l ++ (eid <$> take_while resolved (entries l))).
Proof.
  assert (forall l, ledger_wf l -> discardedOrder l = last_ids (collisionWindow l) (discardedOrder l ++ [])) as Hnil.
  { intros l0 Hl0. rewrite app_nil_r, last_ids_all; [done|apply Hl0]. }
  induction fuel as [|fuel IH]; intros l pos H Hf; simpl.
  { destruct (entries l) eqn:E; [|simpl in Hf; lia]. split_and!; try done. by apply Hnil. }
  pose proof (discard_front_spec l H) as Hd.
  destruct (entries l) as [|e es] eqn:E; [rewrite Hd, E; split_and!; try done; by apply Hnil|]. simpl.
  destruct (resolved e); [|rewrite Hd; split_and!; try done; by apply Hnil].
  destruct Hd as (l1 & -> & Hl1 & He1 & Hc1 & Hw1 & Hd1). simpl in Hf.
  specialize (IH l1 (Some (epos e)) Hl1). rewrite He1 in IH.
  destruct (advance_loop fuel l1 (Some (epos e))) as [l' pos'].
  destruct IH as (? & ? & -> & ? & Hw' & Hd'); [lia|]. split; [done|]. split; [done|]. split; [|split; [congruence|split; [congruence|]]].
  - rewrite last_cons. by destruct (last (take_while resolved es)).
  - rewrite Hd', Hw1, Hd1, last_ids_app, <- app_assoc. done.
Qed.

Lemma Advance_spec l :
  ledger_wf l ->
  let '(l', pos) := Advance l in
  ledger_wf l' /\ (entries l', pos) = Spec.advance (entries l) /\ collisions l' = collisions l /\
  collisionWindow l' = collisionWindow l /\
  discardedOrder l' = last_ids (collisionWindow l) (discardedOrder l ++ (eid <$> take_while resolved (entries l))).
Proof.
  intros H. unfold Advance.
  assert (length (entries l) <= gl_len (order l))%nat as Hf
    by (unfold entries; by rewrite gl_len_values).
  pose proof (advance_loop_spec _ l None H Hf) as Hs.
  destruct (advance_loop (gl_len (order l)) l None) as [l' pos].
  destruct Hs as (? & -> & -> & ? & ? & ?). split; [done|]. split; [|done].
  unfold Spec.advance. by destruct (last _).
Qed.

(** ** Histories *)

Inductive ledger_op : Type :=
| OpAppend (id : string) (pos : Position)
| OpResolve (id : string) (v : Z)
| OpAdvance.

(** The code's state and the last position [Advance] reported. *)
Definition ledger_step (s : ledger * option Position) (o : ledger_op) :
    option (ledger * option Position) :=
  let '(l, p) := s in
  match o with
  | OpAppend id pos => Some (Append l id pos, p)
  | OpResolve id v => l' ← Resolve l id v; Some (l', p)
  | OpAdvance =>
      let '(l', pos) := Advance l in
      Some (l', match pos with Some _ => pos | None => p end)
  end.

Fixpoint ledger_run (s : ledger * option Position) (os : list ledger_op) :
    option (ledger * option Position) :=
  match os with
  | [] => Some s
  | o :: os => s ← ledger_step s o; ledger_run s os
  end.

(** The log lines recorded and the verdicts given by a history. *)
Definition appended (os : list ledger_op) : list (string * Position) :=
  omap (fun o => match o with OpAppend id p => Some (id, p) | _ => None end) os.
Definition verdicts (os : list ledger_op) : list string :=
  omap (fun o => match o with OpResolve id _ => Some id | _ => None end) os.

Definition settled (id : string) (es : list entry) : Z :=
  zlen (filter (fun e => eid e = id /\ resolved e = true) es).

(** [n] lines are behind the frontier: the live entries are the lines after
    them, the reported position is the last of theirs, and every one of them,
    and every live entry marked resolved, has had a verdict of its own. *)
Definition accounted (os : list ledger_op) (es : list entry) (p : option Position) (n : nat) : Prop :=
  (n <= length (appended os))%nat /\
  Spec.line <$> es = drop n (appended os) /\
  p = snd <$> last (take n (appended os)) /\
  forall id, occurrences id (fst <$> take n (appended os)) + settled id es
             <= occurrences id (verdicts os).

Lemma settled_app id a b : settled id (a ++ b) = settled id a + settled id b.
Proof. unfold settled. by rewrite filter_app, zlen_app. Qed.

Lemma settled_cons id e es :
  settled id (e :: es) = (if decide (eid e = id /\ resolved e = true) then 1 else 0) + settled id es.
Proof. unfold settled. rewrite filter_cons. case_decide; rewrite ?zlen_cons; lia. Qed.

Lemma settled_nil id : settled id [] = 0.
Proof. done. Qed.

Lemma settled_resolve id id' es :
  settled id' (Spec.resolve id es) <= settled id' es + (if decide (id = id') then 1 else 0).
Proof.
  induction es as [|e es IH]; [case_decide; simpl; rewrite ?settled_nil; lia|].
  cbn [Spec.resolve]. destruct (bool_decide (eid e = id) && negb (resolved e)) eqn:E.
  - go_bools. subst id. rewrite !settled_cons. simpl.
    destruct (decide (eid e = id')), (decide (eid e = id' /\ resolved e = true)),
      (decide (eid e = id' /\ true = true)); try tauto; lia.
  - rewrite !settled_cons. lia.
Qed.

(** Every entry of a resolved prefix counts as settled. *)
Lemma settled_prefix id es :
  Forall (fun e => resolved e = true) es -> settled id es = occurrences id (eid <$> es).
Proof.
  induction 1 as [|e es He Hes IH]; [done|].
  rewrite fmap_cons, settled_cons, occurrences_cons, IH.
  destruct (decide (eid e = id)).
  - rewrite decide_True by done. done.
  - rewrite decide_False by tauto. done.
Qed.

Lemma accounted_append os id pos es p n :
  accounted os es p n ->
  accounted (os ++ [OpAppend id pos]) (Spec.append id pos es) p n.
Proof.
  unfold accounted, appended, verdicts. rewrite !omap_app. simpl. rewrite app_nil_r.
  intros (Hn & Hl & Hp & Hc). unfold Spec.append. split; [|split; [|split]].
  - rewrite length_app. lia.
  - rewrite fmap_app, Hl, drop_app_le by lia. done.
  - by rewrite take_app_le by lia.
  - intros id'. rewrite take_app_le by lia.
    rewrite settled_app, settled_cons, settled_nil.
    rewrite decide_False by (simpl; by intros [_ [=]]). specialize (Hc id'). lia.
Qed.

Lemma accounted_resolve os id v es p n :
  accounted os es p n -> accounted (os ++ [OpResolve id v]) (Spec.resolve id es) p n.
Proof.
  unfold accounted, appended, verdicts. rewrite !omap_app. simpl. rewrite app_nil_r.
  intros (Hn & Hl & Hp & Hc). rewrite Spec.resolve_lines. do 3 (split; [done|]).
  intros id'. rewrite occurrences_app, occurrences_cons, occurrences_nil.
  pose proof (settled_resolve id id' es) as Hs. specialize (Hc id').
  destruct (decide (id = id')); lia.
Qed.

(** The resolved entries at the front are the lines after the [n]-th. *)
Lemma accounted_take os es p n :
  accounted os es p n ->
  take (n + length (take_while resolved es)) (appended os) = take n (appended os) ++ (Spec.line <$> take_while resolved es).
Proof.
  intros (_ & Hl & _ & _). rewrite <- take_take_drop, <- Hl. f_equal.
  rewrite <- (take_drop_while resolved es) at 2. rewrite fmap_app, <- (length_fmap Spec.line (take_while resolved es)).
  by rewrite take_app_length.
Qed.

Lemma accounted_advance os es p n :
  accounted os es p n ->
  let '(es', pos) := Spec.advance es in
  accounted (os ++ [OpAdvance]) es' (match pos with Some _ => pos | None => p end)
    (n + length (take_while resolved es)).
Proof.
  unfold accounted, appended, verdicts, Spec.advance. rewrite !omap_app. simpl. rewrite !app_nil_r.
  intros (Hn & Hl & Hp & Hc). set (app := omap _ os) in *.
  pose proof (take_while_forall resolved es) as Hall.
  pose proof (take_drop_while resolved es) as Hes.
  set (tw := take_while resolved es) in *. set (dw := drop_while resolved es) in *.
  clearbody tw dw app. subst es.
  assert (Spec.line <$> tw = take (length tw) (drop n app)) as Htw.
  { rewrite <- Hl, fmap_app, <- (length_fmap Spec.line tw). by rewrite take_app_length. }
  assert (take (n + length tw) app = take n app ++ (Spec.line <$> tw)) as Htake
    by (by rewrite Htw, take_take_drop).
  split; [|split; [|split]].
  - pose proof (f_equal length Hl) as Hlen.
    rewrite length_fmap, length_drop, length_app in Hlen. lia.
  - rewrite <- drop_drop, <- Hl, fmap_app, <- (length_fmap Spec.line tw).
    by rewrite drop_app_length.
  - rewrite Htake, last_app, fmap_last. by destruct (last tw) as [e|].
  - intros id. rewrite Htake, fmap_app, occurrences_app.
    specialize (Hc id). rewrite settled_app, (settled_prefix id tw) in Hc by done.
    rewrite <- list_fmap_compose. change (fst ∘ Spec.line) with eid. lia.
Qed.

Definition op_valid (o : ledger_op) : Prop :=
  match o with OpResolve _ v => v = Stored \/ v = Rejected | _ => True end.

(** The contract's reading of a history. *)
Definition spec_step (s : list entry * option Position) (o : ledger_op) :
    list entry * option Position :=
  let '(es, p) := s in
  match o with
  | OpAppend id pos => (Spec.append id pos es, p)
  | OpResolve id _ => (Spec.resolve id es, p)
  | OpAdvance =>
      let '(es', pos) := Spec.advance es in
      (es', match pos with Some _ => pos | None => p end)
  end.

(** Where a history has left a ledger of window [w]: its entries and position
    are the contract's, [n] lines are behind the frontier, and the discarded ids
    it remembers are the last [w] of theirs. *)
Record run_ok (w : Z) (os : list ledger_op) (l : ledger) (p : option Position) (n : nat) : Prop := {
  ro_wf : ledger_wf l;
  ro_window : collisionWindow l = w;
  ro_spec : (entries l, p) = foldl spec_step ([], None) os;
  ro_accounted : accounted os (entries l) p n;
  ro_discarded : discardedOrder l = last_ids w (fst <$> take n (appended os));
}.

Lemma run_ok_step w os l p n o :
  run_ok w os l p n -> op_valid o ->
  exists l' p' n', ledger_step (l, p) o = Some (l', p') /\ run_ok w (os ++ [o]) l' p' n'.
Proof.
  intros [H Hw Hs Ha Hd] Hv. destruct o as [id pos|id v|]; cbn [op_valid ledger_step] in *.
  - destruct (Append_spec l id pos H) as (Hwf & He & _). exists (Append l id pos), p, n. split; [done|].
    split; rewrite ?He; [done|done| |by apply accounted_append|].
    + by rewrite foldl_snoc, <- Hs.
    + unfold appended. rewrite omap_app, take_app_le by apply Ha. exact Hd.
  - destruct (Resolve_spec l id v H Hv) as (l' & Hl' & Hwf & He & _ & Hw'). rewrite Hl'. simpl. exists l', p, n. split; [done|].
    split; rewrite ?He; [done|congruence| |by apply accounted_resolve|].
    + by rewrite foldl_snoc, <- Hs.
    + unfold appended. rewrite omap_app, take_app_le by apply Ha. fold (appended os). rewrite <- Hd. unfold Resolve in Hl'. destruct (_ && _); [done|].
      by injection Hl' as <-.
  - pose proof (Advance_spec l H) as Hadv. destruct (Advance l) as [l' pos]. destruct Hadv as (Hwf & He & _ & Hw' & Hd').
    pose proof (accounted_advance os (entries l) p n Ha) as Ha'. pose proof (accounted_take os (entries l) p n Ha) as Ht.
    destruct (Spec.advance (entries l)) as [es' pos'] eqn:Hadv. injection He as <- <-.
    eexists _, _, _. split; [done|]. split; [done|congruence| |exact Ha'|].
    + rewrite foldl_snoc, <- Hs. cbn [spec_step]. by rewrite Hadv.
    + unfold appended at 1. rewrite omap_app. cbn [omap list_omap]. rewrite app_nil_r. fold (appended os).
      rewrite Ht, fmap_app, Hd', Hd, Hw, last_ids_app, <- (list_fmap_compose Spec.line fst). done.
Qed.

Lemma ledger_run_snoc os o : forall s, ledger_run s (os ++ [o]) = ledger_run s os ≫= fun s => ledger_step s o.
Proof.
  induction os as [|x os IH]; intros s; cbn [ledger_run app]; [by simpl; destruct (ledger_step s o)|].
  destruct (ledger_step s x); simpl; [apply IH|done].
Qed.

Lemma ledger_run_ok w l0 os :
  New w = Some l0 -> Forall op_valid os -> exists l p n, ledger_run (l0, None) os = Some (l, p) /\ run_ok w os l p n.
Proof.
  intros Hn. induction os as [|o os IH] using rev_ind; intros Hv.
  - exists l0, None, 0%nat. split; [done|]. destruct (New_spec w l0 Hn) as (H0 & He0 & _). unfold New in Hn. destruct (w <? 0); [done|].
    injection Hn as <-. split; [done|done|done| |].
    + split; [done|]. split; [done|]. split; [done|]. by intros id.
    + done.
  - apply Forall_app in Hv as [Hv Ho]. apply Forall_cons in Ho as [Ho _]. destruct (IH Hv) as (l & p & n & Hr & Hok).
    rewrite ledger_run_snoc, Hr. simpl. by apply (run_ok_step w os l p n).
Qed.

(** ** Properties *)

Definition ex_hist : list ledger_op :=
  [OpAppend "a" (mkPosition 1 10); OpAppend "b" (mkPosition 1 20);
   OpAppend "a" (mkPosition 1 30); OpResolve "b" Stored; OpAdvance;
   OpResolve "a" Rejected; OpAdvance].

Lemma ex_hist_valid : Forall op_valid ex_hist.
Proof. repeat apply Forall_cons_2; simpl; auto. Qed.

(** C22. The code refines its contract, collisions included: after any valid
    history the entries and the reported position are those of the contract's
    ordered list, and every id's index slice names exactly that id's live entries
    in log order. The frontier never passes an event without a verdict of its
    own: the position reported is that of the [n]-th line appended (none if [n]
    is zero), the ledger still holds exactly the lines after it, and each event
    id occurs among the passed lines at most as often as birdcage gave a verdict
    for it. The window of the ledger holds the ids of the last [w] of the lines
    passed, no more and no fewer, and a further [Append] counts a collision
    exactly when its id is that of a line after the [n]-th or of one of those. *)
Theorem ledger_refines_contract (w : Z) (l0 : ledger) (os : list ledger_op)
    (id : string) (pos : Position) :
  New w = Some l0 -> Forall op_valid os ->
  exists l p n,
    ledger_run (l0, None) os = Some (l, p) /\
    (entries l, p) = foldl spec_step ([], None) os /\
    (forall i, ids_at l i = addrs_of i (gl_elems (order l))) /\
    (n <= length (appended os))%nat /\
    p = snd <$> last (take n (appended os)) /\
    (fun e => (eid e, epos e)) <$> entries l = drop n (appended os) /\
    (forall i, occurrences i (fst <$> take n (appended os)) <= occurrences i (verdicts os)) /\
    discardedOrder l = last_ids w (fst <$> take n (appended os)) /\
    entries (Append l id pos) = entries l ++ [mkEntry id pos false] /\
    let seen := id ∈ fst <$> drop n (appended os) \/ id ∈ last_ids w (fst <$> take n (appended os)) in
    (seen -> collisions (Append l id pos) = u64 (collisions l + 1)) /\
    (~ seen -> collisions (Append l id pos) = collisions l).
Proof.
  intros Hn Hv. destruct (ledger_run_ok w l0 os Hn Hv) as (l & p & n & Hr & [Hw _ Hs (Hle & Hl & Hp & Hc) Hd]).
  exists l, p, n. destruct (Append_spec l id pos Hw) as (_ & Ha & Hcol). rewrite <- Hd, <- Hl.
  split_and!; [done|done|apply Hw|done|done|done| |done|done|].
  - intros i. specialize (Hc i). pose proof (zlen_nonneg (filter (fun e => eid e = i /\ resolved e = true) (entries l))). unfold settled in Hc. lia.
  - rewrite <- list_fmap_compose. change (fst ∘ Spec.line) with eid. rewrite Hcol. split; intros Hseen; [by rewrite decide_True|by rewrite decide_False].
Qed.

Lemma ledger_refines_contract_witness :
  exists l0 l p, New 1024 = Some l0 /\ ledger_run (l0, None) ex_hist = Some (l, p) /\
    (entries l, p) = foldl spec_step ([], None) ex_hist /\ discardedOrder l = ["a"; "b"]%string /\
    collisions (Append l "b" (mkPosition 1 40)) = u64 (collisions l + 1).
Proof.
  eexists.
  destruct (ledger_refines_contract 1024 _ ex_hist "b" (mkPosition 1 40) eq_refl ex_hist_valid)
    as (l & p & n & Hr & He & _ & _ & _ & _ & _ & Hd & _ & Hc & _).
  vm_compute in Hr. injection Hr as <- <-. eexists _, _. split; [reflexivity|]. split; [reflexivity|]. split; [exact He|].
  split; [reflexivity|]. apply Hc. right. rewrite <- Hd. right. left.
Defined.
