(* ===== verification/Claims.v ===== *)
(** The self-test claim tracker of the agent, [cmd/mockingbird/claim.go].

    A window is a [*claimWindow] shared between the probe that opened it and
    the tracker that records candidates in it, so the model keeps a heap of
    windows; [windows] is the tracker's slice of still-open ones. *)
From S2P Require Import Prelude GoBase.

Record claimWindow : Type := mkWindow {
  cw_service : string;
  cw_address : string;
  cw_marker : string;
  candidates : list string;
}.

Record claimTracker : Type := mkTracker {
  cheap : gmap nat claimWindow;
  cnext : nat;
  windows : list nat;
  claimed : gmap string string;
}.

Definition newClaimTracker : claimTracker := mkTracker ∅ 0 [] ∅.

Definition active (t : claimTracker) : bool := (0 <? length (windows t)).

Definition startWindow (t : claimTracker) (service address marker : string) :
    nat * claimTracker :=
  (cnext t,
   mkTracker (<[cnext t := mkWindow service address marker []]> (cheap t)) (S (cnext t))
     (windows t ++ [cnext t]) (claimed t)).

(** The slice without its first occurrence of the pointer. *)
Fixpoint remove_first (w : nat) (ws : list nat) : list nat :=
  match ws with
  | [] => []
  | cur :: ws' => if decide (cur = w) then ws' else cur :: remove_first w ws'
  end.

Definition resolveWindow (t : claimTracker) (w : nat) : claimTracker :=
  let ws := remove_first w (windows t) in
  match cheap t !! w with
  | Some win =>
      match candidates win with
      | [id] => mkTracker (cheap t) (cnext t) ws (<[id := cw_marker win]> (claimed t))
      | _ => mkTracker (cheap t) (cnext t) ws (claimed t)
      end
  | None => mkTracker (cheap t) (cnext t) ws (claimed t)
  end.

(** The body of the loop of [observe] on one window. *)
Definition observe_one (id service sourceIP : string) (w : claimWindow) : claimWindow :=
  if bool_decide (cw_service w = service) && bool_decide (cw_address w = sourceIP) then
    if decide (id ∈ candidates w) then w
    else mkWindow (cw_service w) (cw_address w) (cw_marker w) (candidates w ++ [id])
  else w.

Definition observe (t : claimTracker) (id service sourceIP : string) : claimTracker :=
  mkTracker (foldl (fun h a => alter (observe_one id service sourceIP) a h) (cheap t) (windows t))
    (cnext t) (windows t) (claimed t).

Definition pending (t : claimTracker) (id : string) : bool :=
  existsb (fun a => match cheap t !! a with
                    | Some w => bool_decide (id ∈ candidates w)
                    | None => false
                    end) (windows t).

Definition marker (t : claimTracker) (id : string) : option string := claimed t !! id.

Definition forget (t : claimTracker) (id : string) : claimTracker :=
  mkTracker (cheap t) (cnext t) (windows t) (delete id (claimed t)).

(** ** Invariant: open windows are distinct, allocated, and hold each
    candidate once. *)

Record claims_wf (t : claimTracker) : Prop := {
  cwf_nodup : NoDup (windows t);
  cwf_alloc a : a ∈ windows t -> is_Some (cheap t !! a);
  cwf_fresh a : is_Some (cheap t !! a) -> a < cnext t;
  cwf_candidates a w : cheap t !! a = Some w -> NoDup (candidates w);
}.

Lemma remove_first_spec w ws :
  NoDup ws -> forall x, x ∈ remove_first w ws <-> x ∈ ws /\ x ≠ w.
Proof.
  induction 1 as [|y ws Hy Hnd IH]; intros x; simpl.
  - split; [by intros ?%not_elem_of_nil|by intros [?%not_elem_of_nil _]].
  - rewrite elem_of_cons. case_decide as Hyw; subst; [|rewrite elem_of_cons, IH]; naive_solver.
Qed.

Lemma remove_first_nodup w ws : NoDup ws -> NoDup (remove_first w ws).
Proof.
  induction 1 as [|y ws Hy Hnd IH]; simpl; [constructor|]. case_decide; [done|].
  constructor; [|done]. intros [? _]%(remove_first_spec w ws Hnd). done.
Qed.

Lemma newClaimTracker_wf : claims_wf newClaimTracker.
Proof.
  split; simpl.
  - constructor.
  - by intros a ?%not_elem_of_nil.
  - intros a [x Hx]. by rewrite lookup_empty in Hx.
  - intros a w Hw. by rewrite lookup_empty in Hw.
Qed.

Lemma startWindow_wf t s a m : claims_wf t -> claims_wf (startWindow t s a m).2.
Proof.
  intros [Hn Ha Hf Hc].
  assert (cnext t ∉ windows t) as Hnew by (intros Hin; apply Ha, Hf in Hin; lia).
  split; simpl.
  - apply NoDup_app. split; [done|]. split; [|apply NoDup_singleton].
    by intros x Hx ->%list_elem_of_singleton.
  - intros x [Hx| ->%list_elem_of_singleton]%elem_of_app.
    + destruct (decide (x = cnext t)) as [->|]; [done|]. rewrite lookup_insert_ne by done. auto.
    + by rewrite lookup_insert_eq.
  - intros x [w Hw]. apply lookup_insert_Some in Hw as [[<- _]|[_ Hw]]; [lia|].
    assert (x < cnext t) by eauto. lia.
  - intros x w [[_ <-]|[_ Hw]]%lookup_insert_Some; [constructor|eauto].
Qed.

Lemma resolveWindow_wf t w : claims_wf t -> claims_wf (resolveWindow t w).
Proof.
  intros [Hn Ha Hf Hc].
  assert (forall m, claims_wf (mkTracker (cheap t) (cnext t) (remove_first w (windows t)) m)).
  { intros m. split; simpl; [by apply remove_first_nodup| |done|done].
    intros a [? _]%(remove_first_spec w _ Hn). auto. }
  unfold resolveWindow. repeat case_match; auto.
Qed.

(** [observe] updates each open window once and no other. *)
Lemma observe_lookup t id s ip a :
  claims_wf t ->
  cheap (observe t id s ip) !! a =
    if decide (a ∈ windows t) then observe_one id s ip <$> cheap t !! a else cheap t !! a.
Proof.
  intros [Hn _ _ _]. simpl. revert Hn. generalize (cheap t) as h. generalize (windows t) as ws.
  induction ws as [|w ws IH]; intros h Hn; simpl; [done|].
  apply NoDup_cons in Hn as [Hw Hn]. rewrite IH by done.
  destruct (decide (a = w)) as [->|Hne].
  - rewrite decide_False by done. rewrite decide_True by (by left).
    by rewrite lookup_alter_eq.
  - rewrite lookup_alter_ne by done.
    destruct (decide (a ∈ ws)); [rewrite decide_True by (by right)|rewrite decide_False]; try done.
    by rewrite elem_of_cons; intros [|].
Qed.

Lemma observe_one_candidates id s ip w c :
  c ∈ candidates (observe_one id s ip w) <->
  c ∈ candidates w \/ c = id /\ cw_service w = s /\ cw_address w = ip.
Proof.
  unfold observe_one. do 2 case_bool_decide; simpl; try (naive_solver; fail).
  case_decide; simpl; rewrite ?elem_of_app, ?list_elem_of_singleton; naive_solver.
Qed.

Lemma observe_wf t id s ip : claims_wf t -> claims_wf (observe t id s ip).
Proof.
  intros Hwf. pose proof (observe_lookup t id s ip) as Hl. destruct Hwf as [Hn Ha Hf Hc].
  split; [done| | |].
  - intros a Hin. rewrite Hl by done. rewrite decide_True by done. by apply fmap_is_Some, Ha.
  - intros a. rewrite Hl by done. case_decide; [rewrite fmap_is_Some|]; apply Hf.
  - intros a w. rewrite Hl by done. case_decide; [|apply Hc].
    intros (w0 & Hw & ->)%fmap_Some. apply Hc in Hw. unfold observe_one.
    destruct (bool_decide _ && bool_decide _)%bool; [|done]. case_decide; [done|]. simpl. apply NoDup_app.
    split; [done|]. split; [|apply NoDup_singleton].
    by intros x Hx ->%list_elem_of_singleton.
Qed.

Lemma forget_wf t id : claims_wf t -> claims_wf (forget t id).
Proof. by intros [? ? ? ?]. Qed.

#[export] Hint Resolve newClaimTracker_wf startWindow_wf resolveWindow_wf observe_wf forget_wf : go.

Lemma pending_spec t id :
  pending t id = true <->
  exists a w, a ∈ windows t /\ cheap t !! a = Some w /\ id ∈ candidates w.
Proof.
  unfold pending. rewrite existsb_exists. split.
  - intros (a & Ha%list_elem_of_In & Hm). case_match eqn:E; [|done].
    apply bool_decide_eq_true in Hm. eauto.
  - intros (a & w & Ha & Hw & Hid). exists a. rewrite <- list_elem_of_In, Hw. split; [done|].
    by apply bool_decide_eq_true.
Qed.

(** ** Histories *)

Inductive claim_op : Type :=
| OpStart (service address mk : string)
| OpResolve (w : nat)
| OpObserve (id service sourceIP : string)
| OpForget (id : string).

Definition claim_step (t : claimTracker) (o : claim_op) : claimTracker :=
  match o with
  | OpStart s a m => (startWindow t s a m).2
  | OpResolve w => resolveWindow t w
  | OpObserve id s ip => observe t id s ip
  | OpForget id => forget t id
  end.

Lemma claim_step_wf t o : claims_wf t -> claims_wf (claim_step t o).
Proof.
  intros. destruct o.
  - by apply startWindow_wf.
  - by apply resolveWindow_wf.
  - by apply observe_wf.
  - by apply forget_wf.
Qed.

Lemma claim_run_wf os : forall t, claims_wf t -> claims_wf (foldl claim_step t os).
Proof. induction os; simpl; auto using claim_step_wf. Qed.

(** The markers of a state: an event is claimed by at most one step, the
    resolution of a window that had it as its only candidate. *)
Lemma claim_step_marker t o id m :
  claims_wf t -> marker (claim_step t o) id = Some m ->
  marker t id = Some m \/
  exists w win, o = OpResolve w /\ cheap t !! w = Some win /\
    candidates win = [id] /\ cw_marker win = m.
Proof.
  intros Hwf. unfold marker. destruct o as [s a m'|w|id' s ip|id']; simpl; [by left| |by left|].
  - unfold resolveWindow. destruct (cheap t !! w) as [win|] eqn:Hw; [|by left].
    destruct (candidates win) as [|c [|]] eqn:Hc; simpl; try (by left).
    intros [[<- <-]|[_ ?]]%lookup_insert_Some; [right; by exists w, win|by left].
  - intros [_ ?]%lookup_delete_Some. by left.
Qed.

(** What an open window collects over a run that does not resolve it. *)
Lemma claim_run_window w os : forall t win,
  claims_wf t -> w ∈ windows t -> cheap t !! w = Some win -> OpResolve w ∉ os ->
  let t' := foldl claim_step t os in
  w ∈ windows t' /\ exists win', cheap t' !! w = Some win' /\
    cw_service win' = cw_service win /\ cw_address win' = cw_address win /\
    cw_marker win' = cw_marker win /\
    forall c, c ∈ candidates win' <->
      c ∈ candidates win \/ OpObserve c (cw_service win) (cw_address win) ∈ os.
Proof.
  induction os as [|o os IH]; intros t win Hwf Hin Hw Hno; simpl.
  { split; [done|]. exists win. split_and!; try done. intros c.
    split; [by left|intros [|?%not_elem_of_nil]; done]. }
  apply not_elem_of_cons in Hno as [Ho Hno].
  assert (exists win1, cheap (claim_step t o) !! w = Some win1 /\ w ∈ windows (claim_step t o) /\
    cw_service win1 = cw_service win /\ cw_address win1 = cw_address win /\
    cw_marker win1 = cw_marker win /\
    forall c, c ∈ candidates win1 <->
      c ∈ candidates win \/ OpObserve c (cw_service win) (cw_address win) = o) as
    (win1 & Hw1 & Hin1 & Hs1 & Ha1 & Hm1 & Hc1).
  { destruct o as [s a m|w'|id s ip|id]; simpl.
    - exists win. split_and!; try done; [|by apply elem_of_app; left|].
      + rewrite lookup_insert_ne; [done|]. intros <-.
        pose proof (cwf_fresh t Hwf (cnext t)) as Hf. apply Nat.lt_irrefl with (cnext t).
        apply Hf. by eexists.
      + intros c. split; [by left|by intros [|]].
    - exists win. assert (w ∈ remove_first w' (windows t)) as Hrm.
      { apply remove_first_spec; [apply Hwf|]. split; [done|]. by intros ->. }
      unfold resolveWindow. split_and!; try done; [by repeat case_match|by repeat case_match|].
      intros c. split; [by left|by intros [|]].
    - exists (observe_one id s ip win).
      split_and!; try (unfold observe_one; by repeat case_match).
      + change (cheap (observe t id s ip) !! w = Some (observe_one id s ip win)).
        rewrite observe_lookup, decide_True, Hw by done. done.
      + intros c. rewrite observe_one_candidates. naive_solver.
    - exists win. split_and!; try done. intros c. split; [by left|by intros [|]]. }
  destruct (IH (claim_step t o) win1) as (Hin' & win' & Hw' & Hs' & Ha' & Hm' & Hc');
    [by apply claim_step_wf|done..|].
  split; [done|]. exists win'. split_and!; try congruence. intros c.
  rewrite Hc', Hc1, Hs1, Ha1, elem_of_cons. tauto.
Qed.

Lemma singleton_list (l : list string) id :
  NoDup l -> (forall c, c ∈ l <-> c = id) -> l = [id].
Proof.
  intros Hn Hl. destruct l as [|x l]; [by destruct (not_elem_of_nil id); apply Hl|].
  assert (x = id) as -> by (apply Hl; by left). f_equal.
  destruct l as [|y l]; [done|]. assert (y = id) as -> by (apply Hl; right; by left).
  apply NoDup_cons in Hn as [Hn _]. destruct Hn. by left.
Qed.

(** ** Property *)

(** A window claims an event exactly when it is unambiguous: from any
    reachable tracker, open a window, let any operations but its own resolution
    happen, then resolve it. Every event seen for the window's service and
    address meanwhile was held back as pending; if exactly one distinct event
    was seen it is given the window's marker, and otherwise no marker changes. *)
Theorem window_claims_sole_candidate (os0 os : list claim_op) (s a m : string) :
  let t := foldl claim_step newClaimTracker os0 in
  let '(w, t1) := startWindow t s a m in
  OpResolve w ∉ os ->
  let t2 := foldl claim_step t1 os in
  let t3 := resolveWindow t2 w in
  (forall id, OpObserve id s a ∈ os -> pending t2 id = true) /\
  ((exists id, (forall c, OpObserve c s a ∈ os <-> c = id) /\
     claimed t3 = <[id := m]> (claimed t2)) \/
   (~ exists id, forall c, OpObserve c s a ∈ os <-> c = id) /\ claimed t3 = claimed t2) /\
  w ∉ windows t3.
Proof.
  intros t. pose proof (claim_run_wf os0 _ newClaimTracker_wf : claims_wf t) as Hwf.
  pose proof (startWindow_wf t s a m Hwf) as Hwf1.
  destruct (startWindow t s a m) as [w t1] eqn:E. simpl in Hwf1. intros Hno t2 t3.
  unfold startWindow in E. injection E as <- Ht1.
  destruct (claim_run_window (cnext t) os t1 (mkWindow s a m [])) as
    (Hin & win & Hw & _ & _ & Hm & Hc); [done|subst t1; simpl..|done|].
  { apply elem_of_app. right. by left. }
  { by rewrite lookup_insert_eq. }
  fold t2 in Hin, Hw. simpl in Hc, Hm.
  assert (forall c, c ∈ candidates win <-> OpObserve c s a ∈ os) as Hc'.
  { intros c. rewrite Hc. split; [intros [?%not_elem_of_nil|]; done|by right]. }
  pose proof (claim_run_wf os t1 Hwf1 : claims_wf t2) as Hwf2.
  pose proof (cwf_candidates _ Hwf2 _ _ Hw) as Hnd.
  split; [|split].
  - intros id Hid. apply pending_spec. exists (cnext t), win. by rewrite Hc'.
  - unfold t3, resolveWindow. rewrite Hw. destruct (candidates win) as [|id [|id' l]] eqn:Hl.
    + right. split; [|done]. intros [id Hid]. apply (not_elem_of_nil id), Hc', Hid. done.
    + left. exists id. rewrite Hm. split; [|done]. intros c.
      by rewrite <- Hc', list_elem_of_singleton.
    + right. split; [|done]. intros [x Hx].
      assert (id :: id' :: l = [x]) as Hbad; [|done].
      apply singleton_list; [done|]. intros c. by rewrite Hc', Hx.
  - assert (windows t3 = remove_first (cnext t) (windows t2)) as ->
      by (unfold t3, resolveWindow; by repeat case_match).
    intros [_ ?]%remove_first_spec; [done|apply Hwf2].
Qed.

Lemma window_claims_sole_candidate_witness :
  exists t3, t3 = resolveWindow (foldl claim_step (startWindow newClaimTracker "ssh" "10.0.0.5" "m1").2
                    [OpObserve "e1" "ssh" "10.0.0.5"; OpObserve "e2" "ftp" "10.0.0.5";
                     OpObserve "e1" "ssh" "10.0.0.5"]) 0 /\
  0 ∉ windows t3 /\ marker t3 "e1" = Some "m1" /\ marker t3 "e2" = None.
Proof.
  eexists. split; [reflexivity|].
  destruct (window_claims_sole_candidate []
    [OpObserve "e1" "ssh" "10.0.0.5"; OpObserve "e2" "ftp" "10.0.0.5";
     OpObserve "e1" "ssh" "10.0.0.5"] "ssh" "10.0.0.5" "m1") as (_ & _ & H).
  - intros H. repeat (apply elem_of_cons in H as [H|H]; [discriminate H|]). by apply not_elem_of_nil in H.
  - split; [exact H|]. split; vm_compute; reflexivity.
Defined.
