(* ===== verification/Client.v ===== *)
(** The batch push of the agent's HTTP client, [internal/agent/client/batch.go].

    The birdcage end of the connection is another process: it is the section
    variable [post], a state-passing function from a batch to the outcome of
    one POST, so that answers may depend on what was sent before. *)
From S2P Require Import Prelude GoBase.

Definition MaxEventsPerBatch : nat := 100.
Definition RequestsPerMinuteLimit : Z := 3000.
Definition EventsPerMinuteLimit : Z := 60000.

(** [client.Event] *)
Record CEvent : Type := mkCEvent {
  ceID : string;
  SourceIP : string;
  DestPort : Z;
  Service : string;
  Raw : bytes;
  SelfTestMarker : string;
}.

(** [wireAck]: what a 200 response decodes to. *)
Record wireAck : Type := mkAck { ackStored : list string; ackRejected : gmap string string }.

Record BatchResult : Type := mkResult {
  brStored : list string;
  brRejected : gmap string string;
  brRetry : list string;
}.

Definition emptyResult : BatchResult := mkResult [] ∅ [].

Inductive client_error : Type :=
| ErrUnauthorized
| ErrRetryable.

(** The outcome of one POST: the status, and for a 200 whether its body
    decoded within bounds. *)
Inductive outcome : Type :=
| OutOK (body : option wireAck)
| OutBadRequest (reason : string)
| OutTooLarge (reason : string)
| OutUnauthorized
| OutOther
| OutTransport.

(** [resolveAck]: an id the response names in neither list is a retry. *)
Definition resolveAck (sent : list CEvent) (ack : wireAck) : BatchResult :=
  let pending : gset string := list_to_set (ceID <$> sent) in
  let pending := pending ∖ list_to_set (ackStored ack) in
  let pending := pending ∖ dom (ackRejected ack) in
  mkResult (ackStored ack) (ackRejected ack)
    (filter (fun id => id ∈ pending) (ceID <$> sent)).

Section client.
Context {S : Type} (post : S -> list CEvent -> S * outcome).

(** The three ways [pushOnce] returns. *)
Inductive pushed : Type :=
| PushResult (r : BatchResult)
| PushEnvelopeRejected (reason : string)
| PushError (e : client_error).

Definition pushOnce (st : S) (events : list CEvent) : S * pushed :=
  let '(st, out) := post st events in
  (st, match out with
       | OutOK (Some ack) => PushResult (resolveAck events ack)
       | OutOK None => PushError ErrRetryable
       | OutBadRequest reason | OutTooLarge reason => PushEnvelopeRejected reason
       | OutUnauthorized => PushError ErrUnauthorized
       | OutOther | OutTransport => PushError ErrRetryable
       end).

Fixpoint pushSingly (st : S) (events : list CEvent) (out : BatchResult) :
    S * BatchResult * option client_error :=
  match events with
  | [] => (st, out, None)
  | ev :: rest =>
      let '(st, p) := pushOnce st [ev] in
      match p with
      | PushError e =>
          (st, mkResult (brStored out) (brRejected out) (brRetry out ++ (ceID <$> ev :: rest)),
           Some e)
      | PushEnvelopeRejected reason =>
          pushSingly st rest
            (mkResult (brStored out) (<[ceID ev := reason]> (brRejected out)) (brRetry out))
      | PushResult single =>
          pushSingly st rest
            (mkResult (brStored out ++ brStored single) (brRejected single ∪ brRejected out)
               (brRetry out ++ brRetry single))
      end
  end.

Definition PushBatch (st : S) (events : list CEvent) : S * BatchResult * option client_error :=
  match events with
  | [] => (st, emptyResult, None)
  | _ =>
      let '(st, p) := pushOnce st events in
      match p with
      | PushError e => (st, emptyResult, Some e)
      | PushResult r => (st, r, None)
      | PushEnvelopeRejected reason =>
          match events with
          | [ev] => (st, mkResult [] {[ceID ev := reason]} [], None)
          | _ => pushSingly st events emptyResult
          end
      end
  end.

(** An id the result accounts for. *)
Definition accounted_for (r : BatchResult) (id : string) : Prop :=
  id ∈ brStored r \/ id ∈ dom (brRejected r) \/ id ∈ brRetry r.

Lemma resolveAck_retry sent ack id :
  id ∈ brRetry (resolveAck sent ack) <->
  id ∈ ceID <$> sent /\ id ∉ ackStored ack /\ id ∉ dom (ackRejected ack).
Proof. unfold resolveAck. simpl. rewrite list_elem_of_filter. set_solver. Qed.

Lemma resolveAck_accounts sent ack id :
  id ∈ ceID <$> sent -> accounted_for (resolveAck sent ack) id.
Proof.
  intros Hid. unfold accounted_for. rewrite resolveAck_retry. simpl.
  destruct (decide (id ∈ ackStored ack)); [by left|].
  destruct (decide (id ∈ dom (ackRejected ack))); [by right; left|].
  right. right. done.
Qed.

Lemma pushSingly_accounts events : forall st out,
  let '(_, r, _) := pushSingly st events out in
  forall id, id ∈ ceID <$> events \/ accounted_for out id -> accounted_for r id.
Proof.
  induction events as [|ev rest IH]; intros st out; simpl.
  { intros id [?%not_elem_of_nil|?]; done. }
  destruct (pushOnce st [ev]) as [st' p] eqn:Hp. destruct p as [single|reason|e].
  - assert (forall id, id = ceID ev -> accounted_for single id) as Hs.
    { unfold pushOnce in Hp. destruct (post st [ev]) as [st1 [[ack|]|?|?| | |]]; try discriminate.
      injection Hp as _ <-. intros id ->. apply resolveAck_accounts. simpl. by left. }
    specialize (IH st' (mkResult (brStored out ++ brStored single)
      (brRejected single ∪ brRejected out) (brRetry out ++ brRetry single))).
    destruct (pushSingly _ _ _) as [[st2 r] err]. intros id Hid. apply IH.
    destruct Hid as [[Hid|?]%elem_of_cons|Ha]; [|by left|];
      right; unfold accounted_for in *; simpl; rewrite !elem_of_app, dom_union_L, elem_of_union.
    + specialize (Hs id Hid). tauto.
    + tauto.
  - specialize (IH st' (mkResult (brStored out) (<[ceID ev := reason]> (brRejected out)) (brRetry out))).
    destruct (pushSingly _ _ _) as [[st2 r] err]. intros id Hid. apply IH.
    destruct Hid as [[Hid|?]%elem_of_cons|Ha]; [|by left|];
      right; unfold accounted_for in *; simpl; rewrite dom_insert_L; set_solver.
  - intros id Hid. unfold accounted_for in *. simpl. rewrite elem_of_app, elem_of_cons.
    destruct Hid as [[?|?]%elem_of_cons|?]; tauto.
Qed.

(** What the server named stored, against what the client reports stored: any
    property of every id the server ever answers as stored. *)
Definition honest (P : string -> Prop) : Prop :=
  forall st events st' ack,
    post st events = (st', OutOK (Some ack)) -> Forall P (ackStored ack).

Lemma pushSingly_stored P : honest P -> forall events st out,
  Forall P (brStored out) -> Forall P (brStored (pushSingly st events out).1.2).
Proof.
  intros HP. induction events as [|ev rest IH]; intros st out Hout; simpl; [done|].
  unfold pushOnce. destruct (post st [ev]) as [st1 o] eqn:Hp.
  destruct o as [[ack|]|?|?| | |]; simpl; try done; try (by apply IH).
  apply IH. simpl. apply Forall_app. split; [done|]. by eapply HP.
Qed.

(** C23. Nothing a push sends is lost or invented: whatever the server does,
    each event sent is reported stored, rejected or for retry when the push
    returns no error, an id reported stored was named stored by some response,
    and a push that reports an error was never an envelope rejection of a
    single event. *)
Theorem push_accounts_for_every_event (P : string -> Prop) (st : S) (events : list CEvent) :
  honest P ->
  let '(_, r, err) := PushBatch st events in
  (err = None -> forall id, id ∈ ceID <$> events -> accounted_for r id) /\
  Forall P (brStored r) /\
  (forall ev st' reason, events = [ev] -> pushOnce st events = (st', PushEnvelopeRejected reason) ->
     r = mkResult [] {[ceID ev := reason]} [] /\ err = None).
Proof.
  intros HP. destruct events as [|ev rest].
  { simpl. split; [by intros _ id ?%not_elem_of_nil|]. split; [constructor|done]. }
  unfold PushBatch. destruct (pushOnce st (ev :: rest)) as [st' p] eqn:Hp.
  destruct p as [r|reason|e].
  - unfold pushOnce in Hp.
    destruct (post st (ev :: rest)) as [st1 [[ack|]|?|?| | |]] eqn:Hpost; try discriminate.
    injection Hp as <- <-. split; [intros _ id; apply resolveAck_accounts|].
    split; [by eapply HP|]. intros ? ? ? _ [=].
  - destruct rest as [|ev' rest].
    + split; [|split; [constructor|]].
      * intros _ id ->%list_elem_of_singleton. right. left. simpl. by rewrite dom_singleton_L, elem_of_singleton.
      * intros ev0 st0 reason0 [= <-] [= _ <-]. done.
    + pose proof (pushSingly_accounts (ev :: ev' :: rest) st' emptyResult) as Ha.
      pose proof (pushSingly_stored P HP (ev :: ev' :: rest) st' emptyResult (Forall_nil_2 _)) as Hs.
      destruct (pushSingly st' (ev :: ev' :: rest) emptyResult) as [[st2 r] err].
      split; [intros _ id Hid; apply Ha; by left|]. split; [done|]. done.
  - split; [done|]. split; [constructor|]. intros ? ? ? _ [=].
Qed.
End client.

(** A server for the witness: it stores ids below ["m"] and turns down a batch
    of more than one event as a whole. *)
Definition ex_post (st : nat) (events : list CEvent) : nat * outcome :=
  (Datatypes.S st,
   match events with
   | [ev] => if String.ltb (ceID ev) "m" then OutOK (Some (mkAck [ceID ev] ∅))
             else OutBadRequest "bad event"
   | _ => OutTooLarge "batch"
   end).

Definition ex_event (id : string) : CEvent := mkCEvent id "10.0.0.9" 22 "ssh" [] "".

Lemma push_accounts_for_every_event_witness :
  PushBatch ex_post 0 [ex_event "a"; ex_event "z"] =
    (3, mkResult ["a"] {["z" := "bad event"]} [], None) /\
  (let '(_, r, err) := PushBatch ex_post 0 [ex_event "a"; ex_event "z"] in
   Forall (fun id => String.ltb id "m" = true) (brStored r) /\
   (err = None -> forall id, id ∈ ["a"; "z"] -> accounted_for r id)).
Proof.
  split; [vm_compute; reflexivity|].
  pose proof (push_accounts_for_every_event ex_post (fun id => String.ltb id "m" = true) 0
    [ex_event "a"; ex_event "z"]) as H.
  destruct (PushBatch ex_post 0 [ex_event "a"; ex_event "z"]) as [[st r] err].
  destruct H as (Ha & Hs & _); [|split; [exact Hs|exact Ha]].
  intros st0 events st' ack Heq. unfold ex_post in Heq.
  destruct events as [|ev [|ev' evs]]; try discriminate Heq.
  destruct (String.ltb (ceID ev) "m") eqn:E; inversion Heq; subst.
  repeat constructor. exact E.
Defined.
