(* ===== verification/Wire.v ===== *)
(** The name-service datagrams of the bait sender:
    [internal/agent/poisoner/encode.go] (the LLMNR, mDNS and NBT-NS queries it
    sends) and [parse.go] (the replies it reads off the network).

    Reads of the datagram are the checked reads [byte_at] and [u16_at], whose
    failure is Go's index panic; the name loop runs on fuel. That neither
    [Panic] nor [OutOfFuel] is ever the result is part of the theorems. *)
From S2P Require Import Prelude GoBase GoStrings.
#[local] Open Scope Z_scope.
#[local] Open Scope go_scope.

Inductive wire_error : Type :=
| ErrEmptyName
| ErrLabelTooLong
| ErrNetBIOSTooLong
| ErrNetBIOSField
| ErrNetBIOSEncoding
| ErrDatagramTooLong
| ErrDatagramShort
| ErrNotResponse
| ErrQuestions
| ErrNoSections
| ErrNameTruncated
| ErrPointerTruncated
| ErrPointerForward
| ErrTooManyPointers
| ErrReservedLabel
| ErrLabelTruncated
| ErrNameTooLong
| ErrSectionTruncated
| ErrNetBIOSTruncated
| ErrNetBIOSPointerChain
| ErrNetBIOSLength
| ErrNetBIOSScope
| ErrProtocol
| Panic
| OutOfFuel.

Abbreviation wres := (res wire_error).

Definition fails {A : Type} (r : wres A) : Prop := r = Err Panic \/ r = Err OutOfFuel.

Definition byte_at (b : bytes) (i : Z) : wres Z :=
  match at_ b i with Some x => Ok x | None => Err Panic end.
Definition u16_at (b : bytes) (i : Z) : wres Z :=
  if decide (0 <= i /\ i + 2 <= zlen b) then Ok (get_u16 b i) else Err Panic.

(** ** Constants *)

Definition typeA : Z := 1.
Definition typeAAAA : Z := 28.
Definition classIN : Z := 0x0001.
Definition mdnsUnicastResponseBit : Z := 0x8000.
Definition llmnrQueryFlags : Z := 0x0000.
Definition mdnsQueryFlags : Z := 0x0000.
Definition mdnsQueryID : Z := 0x0000.
Definition nbnsBroadcastQueryFlags : Z := 0x0110.
Definition nbnsTypeNB : Z := 0x0020.
Definition nbnsNameLen : Z := 16.
Definition nbnsNamePadLen : Z := 15.
Definition nbnsSuffixWorkstation : Z := 0x00.
Definition nbnsEncodedLen : Z := nbnsNameLen * 2.
Definition nbnsEncodeBase : Z := 65.
Definition mdnsTopLevelDomain : bytes := lit "local".
Definition dnsHeaderLen : Z := 12.
Definition maxLabelLen : Z := 63.

Definition MaxDatagramLen : Z := 512.
Definition maxNameLen : Z := 255.
Definition maxNameJumps : Z := 16.
Definition compressionMask : Z := 0xc0.
Definition compressionOffsetMask : Z := 0x3fff.
Definition headerFlagResponse : Z := 0x8000.

(** ** encode.go *)

Definition dnsQuery (id flags : Z) (qname : bytes) (qtype qclass : Z) : bytes :=
  put_u16 id ++ put_u16 flags ++ put_u16 1 ++ put_u16 0 ++ put_u16 0 ++ put_u16 0 ++
  qname ++ put_u16 qtype ++ put_u16 qclass.

Fixpoint encodeLabels_loop (labels : list bytes) (out : bytes) : wres bytes :=
  match labels with
  | [] => Ok out
  | label :: rest =>
      if bool_decide (label = []) then Err ErrEmptyName
      else if maxLabelLen <? zlen label then Err ErrLabelTooLong
      else encodeLabels_loop rest (out ++ u8 (zlen label) :: label)
  end.

Definition encodeLabels (labels : list bytes) : wres bytes :=
  let? out := encodeLabels_loop labels [] in
  if zlen out =? 0 then Err ErrEmptyName else Ok (out ++ [0]).

(** First-level encoding: a byte as two letters. *)
Definition nibbles (b : Z) : bytes :=
  [u8 (nbnsEncodeBase + Z.shiftr b 4); u8 (nbnsEncodeBase + Z.land b 0x0f)].

Definition encodeNBNSName `{Unicode} (name : bytes) (suffix : Z) : wres bytes :=
  if bool_decide (name = []) then Err ErrEmptyName else
  let upper := ToUpper name in
  if nbnsNamePadLen <? zlen upper then Err ErrNetBIOSTooLong else
  let raw := upper ++ replicate (Z.to_nat (nbnsNamePadLen - zlen upper)) 32 ++ [suffix] in
  Ok ([nbnsEncodedLen] ++ concat (nibbles <$> raw) ++ [0]).

Fixpoint decode_nibbles (encoded : bytes) : wres bytes :=
  match encoded with
  | h :: l :: rest =>
      let hi := u8 (h - nbnsEncodeBase) in
      let lo := u8 (l - nbnsEncodeBase) in
      if (0x0f <? hi) || (0x0f <? lo) then Err ErrNetBIOSEncoding
      else
        let? raw := decode_nibbles rest in
        Ok (u8 (Z.lor (Z.shiftl hi 4) lo) :: raw)
  | _ => Ok []
  end.

Definition decodeNBNSName (encoded : bytes) : wres (bytes * Z) :=
  if negb (zlen encoded =? nbnsEncodedLen) then Err ErrNetBIOSField else
  let? raw := decode_nibbles encoded in
  let? suffix := byte_at raw nbnsNamePadLen in
  Ok (TrimRight (slice raw 0 nbnsNamePadLen) 32, suffix).

Definition encodeLLMNRQuery (id : Z) (name : bytes) (qtype : Z) : wres bytes :=
  let? qname := encodeLabels [name] in
  Ok (dnsQuery id llmnrQueryFlags qname qtype classIN).

Definition encodeMDNSQuery (name : bytes) (qtype : Z) (unicastResponse : bool) : wres bytes :=
  let? qname := encodeLabels [name; mdnsTopLevelDomain] in
  let qclass := if unicastResponse then Z.lor classIN mdnsUnicastResponseBit else classIN in
  Ok (dnsQuery mdnsQueryID mdnsQueryFlags qname qtype qclass).

Definition encodeNBNSQuery `{Unicode} (id : Z) (name : bytes) : wres bytes :=
  let? qname := encodeNBNSName name nbnsSuffixWorkstation in
  Ok (dnsQuery id nbnsBroadcastQueryFlags qname nbnsTypeNB classIN).

(** ** parse.go *)

Record reply : Type := mkReply { replyID : Z; replyName : bytes; Answers : Z }.
Record header : Type := mkHeader { hdrID : Z; hdrFlags : Z; questions : Z; answers : Z }.

Definition lowerASCII (b : bytes) : bytes := lower_byte <$> b.

Definition trimLocal (name : bytes) : bytes := TrimSuffix name (46 :: mdnsTopLevelDomain).

Definition parseHeader (b : bytes) : wres (header * Z) :=
  if MaxDatagramLen <? zlen b then Err ErrDatagramTooLong else
  if zlen b <? dnsHeaderLen then Err ErrDatagramShort else
  let? id := u16_at b 0 in
  let? flags := u16_at b 2 in
  let? qd := u16_at b 4 in
  let? an := u16_at b 6 in
  if Z.land flags headerFlagResponse =? 0 then Err ErrNotResponse
  else Ok (mkHeader id flags qd an, dnsHeaderLen).

(** The string builder after one more label. *)
Definition extend (sb label : bytes) : bytes :=
  (if 0 <? zlen sb then sb ++ [46] else sb) ++ lowerASCII label.

Fixpoint readName_loop (fuel : nat) (b : bytes) (off : Z) (sb : bytes) (end_ jumps total : Z) :
    wres (bytes * Z) :=
  match fuel with
  | O => Err OutOfFuel
  | S fuel =>
      if (off <? 0) || (zlen b <=? off) then Err ErrNameTruncated else
      let? n := byte_at b off in
      if Z.land n compressionMask =? compressionMask then
        if zlen b <=? off + 1 then Err ErrPointerTruncated else
        let? w := u16_at b off in
        let target := Z.land w compressionOffsetMask in
        if off <=? target then Err ErrPointerForward else
        let jumps := jumps + 1 in
        if maxNameJumps <? jumps then Err ErrTooManyPointers else
        let end_ := if end_ =? 0 then off + 2 else end_ in
        readName_loop fuel b target sb end_ jumps total
      else if negb (Z.land n compressionMask =? 0) then Err ErrReservedLabel
      else if n =? 0 then
        let end_ := if end_ =? 0 then off + 1 else end_ in
        Ok (sb, end_)
      else if zlen b <? off + 1 + n then Err ErrLabelTruncated
      else
        let total := total + (n + 1) in
        if maxNameLen <? total then Err ErrNameTooLong
        else
          readName_loop fuel b (off + 1 + n) (extend sb (slice b (off + 1) (off + 1 + n)))
            end_ jumps total
  end.

(** One unit of fuel per pointer followed and per byte of name, and one for
    the root label. *)
Definition readName_fuel : nat := Z.to_nat (maxNameJumps + maxNameLen + 1).

Definition readName (b : bytes) (off : Z) : wres (bytes * Z) :=
  readName_loop readName_fuel b off [] 0 0 0.

Definition readNBNSNameField (b : bytes) (off : Z) : wres (bytes * Z) :=
  if zlen b <=? off then Err ErrNetBIOSTruncated else
  let? n := byte_at b off in
  let? oe :=
    if Z.land n compressionMask =? compressionMask then
      if zlen b <=? off + 1 then Err ErrPointerTruncated else
      let? w := u16_at b off in
      let target := Z.land w compressionOffsetMask in
      if off <=? target then Err ErrPointerForward else
      if zlen b <=? target then Err ErrNetBIOSTruncated else
      let? n' := byte_at b target in
      if Z.land n' compressionMask =? compressionMask then Err ErrNetBIOSPointerChain
      else Ok (target, off + 2)
    else Ok (off, 0) in
  let '(off, end_) := oe in
  let? n := byte_at b off in
  if negb (n =? nbnsEncodedLen) then Err ErrNetBIOSLength else
  let start := off + 1 in
  if zlen b <? start + nbnsEncodedLen then Err ErrNetBIOSTruncated else
  let encoded := slice b start (start + nbnsEncodedLen) in
  if end_ =? 0 then
    let scope := start + nbnsEncodedLen in
    if zlen b <=? scope then Err ErrNetBIOSScope else
    let? c := byte_at b scope in
    if negb (c =? 0) then Err ErrNetBIOSScope else Ok (encoded, scope + 1)
  else Ok (encoded, end_).

Definition parseDNSReply (b : bytes) : wres reply :=
  let? (hdr, off) := parseHeader b in
  if 1 <? questions hdr then Err ErrQuestions else
  if (questions hdr =? 0) && (answers hdr =? 0) then Err ErrNoSections else
  let? (name, end_) := readName b off in
  if zlen b <? end_ + 4 then Err ErrSectionTruncated else
  Ok (mkReply (hdrID hdr) (trimLocal name) (answers hdr)).

Definition parseNBNSReply `{Unicode} (b : bytes) : wres reply :=
  let? (hdr, off) := parseHeader b in
  if 1 <? questions hdr then Err ErrQuestions else
  let? (encoded, _) := readNBNSNameField b off in
  let? (name, _) := decodeNBNSName encoded in
  Ok (mkReply (hdrID hdr) (ToLower name) (answers hdr)).

(** ** Specification of names in a datagram *)

(** [name_at b off ls j t e]: at [off] stands the name with labels [ls], its
    decoding follows [j] pointers and takes [t] bytes of labels, and its
    encoding in place ends before [e]. *)
Inductive name_at (b : bytes) : Z -> list bytes -> Z -> Z -> Z -> Prop :=
| name_root off :
    at_ b off = Some 0 -> name_at b off [] 0 0 (off + 1)
| name_label off n ls j t e :
    at_ b off = Some n -> 0 < n < 64 -> off + 1 + n <= zlen b ->
    name_at b (off + 1 + n) ls j t e ->
    name_at b off (slice b (off + 1) (off + 1 + n) :: ls) j (t + (n + 1)) e
| name_pointer off n ls j t e :
    at_ b off = Some n -> 192 <= n -> off + 2 <= zlen b ->
    Z.land (get_u16 b off) 0x3fff < off ->
    name_at b (Z.land (get_u16 b off) 0x3fff) ls j t e ->
    name_at b off ls (j + 1) t (off + 2).

(** The name readers make of labels: lower case, joined by dots. *)
Definition dotted (ls : list bytes) : bytes := Join (lowerASCII <$> ls) 46.

(** ** Lemmas *)

(** What the top two bits of a length byte say, checked over all bytes. *)
Definition classify_ok (n : Z) : bool :=
  let m := Z.land n compressionMask in
  Bool.eqb (m =? compressionMask) (192 <=? n) && Bool.eqb (m =? 0) (n <? 64).

Lemma classify_all : forallb classify_ok (Z.of_nat <$> seq 0 256) = true.
Proof. vm_compute. reflexivity. Qed.

Lemma byte_forall (P : Z -> bool) n :
  forallb P (Z.of_nat <$> seq 0 256) = true -> is_byte n -> P n = true.
Proof.
  intros Hall Hn. apply forallb_forall with (x := n) in Hall; [done|].
  apply list_elem_of_In, list_elem_of_fmap. exists (Z.to_nat n). unfold is_byte in Hn.
  split; [lia|]. apply elem_of_seq. lia.
Qed.

Lemma classify_pointer n :
  is_byte n -> (Z.land n compressionMask =? compressionMask) = (192 <=? n).
Proof.
  intros Hn. pose proof (byte_forall _ n classify_all Hn) as H.
  unfold classify_ok in H. go_bools. by apply eqb_prop.
Qed.

Lemma classify_label n :
  is_byte n -> (Z.land n compressionMask =? 0) = (n <? 64).
Proof.
  intros Hn. pose proof (byte_forall _ n classify_all Hn) as H.
  unfold classify_ok in H. go_bools. by apply eqb_prop.
Qed.

Lemma name_at_bounds b off ls j t e :
  name_at b off ls j t e ->
  0 <= off < zlen b /\ 0 <= j /\ 0 <= t /\ off < e <= zlen b /\
  (length ls <= Z.to_nat t)%nat /\ Forall (fun l => l ≠ []) ls.
Proof.
  induction 1 as [off Ha|off n ls j t e Ha Hn Hl _ IH|off n ls j t e Ha Hn Hl Hp _ IH];
    apply at_bounds in Ha.
  - split_and!; simpl; try lia. constructor.
  - destruct IH as (? & ? & ? & ? & ? & ?). split_and!; simpl; try lia.
    constructor; [|done]. intros Heq%(f_equal zlen).
    rewrite zlen_slice in Heq by lia. unfold zlen at 1 in Heq. simpl in Heq. lia.
  - destruct IH as (? & ? & ? & ? & ? & ?). split_and!; try lia. done.
Qed.

Lemma zlen_lowerASCII s : zlen (lowerASCII s) = zlen s.
Proof. unfold zlen, lowerASCII. by rewrite length_fmap. Qed.

Lemma extend_nil l : extend [] l = lowerASCII l.
Proof. done. Qed.

Lemma extend_ne sb l : sb ≠ [] -> extend sb l = sb ++ 46 :: lowerASCII l.
Proof.
  intros Hsb%zlen_pos. unfold extend. apply Z.ltb_lt in Hsb as ->. by rewrite <- app_assoc.
Qed.

Lemma fold_extend_ne ls : forall sb, sb ≠ [] -> ls ≠ [] ->
  foldl extend sb ls = sb ++ 46 :: dotted ls.
Proof.
  induction ls as [|l ls IH]; intros sb Hsb Hls; [done|]. simpl.
  rewrite extend_ne by done. destruct (decide (ls = [])) as [->|Hne]; [done|].
  rewrite IH by (done || by destruct sb). unfold dotted. simpl fmap.
  rewrite Join_cons by (by destruct ls). rewrite <- app_assoc. done.
Qed.

(** The builder's content is the dotted name. *)
Lemma fold_extend ls : Forall (fun l => l ≠ []) ls -> foldl extend [] ls = dotted ls.
Proof.
  destruct 1 as [|l ls Hl Hls]; [done|]. simpl. rewrite extend_nil.
  destruct (decide (ls = [])) as [->|Hne]; [done|].
  rewrite fold_extend_ne; [|by destruct l|done].
  unfold dotted. simpl fmap. rewrite Join_cons by (by destruct ls). done.
Qed.

(** ** The name loop implements the specification *)

Lemma byte_at_in b i : 0 <= i < zlen b -> exists x, at_ b i = Some x /\ byte_at b i = Ok x.
Proof. intros [x Hx]%at_some. exists x. unfold byte_at. by rewrite Hx. Qed.

Lemma u16_at_in b i : 0 <= i -> i + 2 <= zlen b -> u16_at b i = Ok (get_u16 b i).
Proof. intros. unfold u16_at. by rewrite decide_True. Qed.

Lemma readName_loop_sound b : wf_bytes b -> forall fuel off sb end_ jumps total name e,
  readName_loop fuel b off sb end_ jumps total = Ok (name, e) ->
  exists ls j t e0, name_at b off ls j t e0 /\
    jumps + j <= Z.max jumps maxNameJumps /\ total + t <= Z.max total maxNameLen /\
    name = foldl extend sb ls /\ e = (if end_ =? 0 then e0 else end_).
Proof.
  intros Hwf. induction fuel as [|fuel IH]; intros off sb end_ jumps total name e; [done|].
  cbn [readName_loop].
  destruct ((off <? 0) || (zlen b <=? off))%bool eqn:Hoff; [done|]. go_bools.
  destruct (byte_at_in b off) as (n & Hn & ->); [lia|]. cbn [rbind].
  pose proof (at_wf _ _ _ Hwf Hn) as Hb. rewrite classify_pointer, classify_label by done.
  destruct (192 <=? n) eqn:Hptr; go_bools.
  - destruct (zlen b <=? off + 1) eqn:?; [done|]. go_bools.
    rewrite u16_at_in by lia. cbn [rbind]. unfold compressionOffsetMask.
    destruct (off <=? _) eqn:Hf; [done|]. destruct (maxNameJumps <? _) eqn:Hj; [done|]. go_bools.
    intros (ls & j & t & e0 & Hat & Hj' & Ht & -> & ->)%IH.
    exists ls, (j + 1), t, (off + 2). split; [by econstructor; eauto; lia|].
    unfold maxNameJumps in *. split; [lia|]. split; [lia|]. split; [done|].
    destruct (end_ =? 0) eqn:He; [|by rewrite He].
    by destruct (off + 2 =? 0) eqn:?; go_bools; [lia|].
  - destruct (n <? 64) eqn:H64; simpl negb; cbv iota; [|done]. go_bools.
    destruct (n =? 0) eqn:Hz; go_bools.
    + intros [= <- <-]. subst n. exists [], 0, 0, (off + 1). split; [by constructor|].
      split; [lia|]. split; [lia|]. split; [done|]. by destruct (end_ =? 0).
    + destruct (zlen b <? _) eqn:?; [done|]. destruct (maxNameLen <? _) eqn:?; [done|]. go_bools.
      intros (ls & j & t & e0 & Hat & Hj' & Ht & -> & ->)%IH.
      exists (slice b (off + 1) (off + 1 + n) :: ls), j, (t + (n + 1)), e0.
      unfold is_byte in Hb. split; [by econstructor; eauto; lia|].
      split; [lia|]. split; [lia|]. done.
Qed.

Lemma readName_loop_complete b off ls j t e0 :
  wf_bytes b -> name_at b off ls j t e0 -> forall fuel sb end_ jumps total,
  0 <= end_ -> jumps + j <= maxNameJumps -> total + t <= maxNameLen ->
  j + t < Z.of_nat fuel ->
  readName_loop fuel b off sb end_ jumps total =
    Ok (foldl extend sb ls, if end_ =? 0 then e0 else end_).
Proof.
  intros Hwf Hat.
  induction Hat as [off Ha|off n ls j t e Ha Hn Hl Hat IH|off n ls j t e Ha Hn Hl Hp Hat IH];
    intros fuel sb end_ jumps total Hend Hj Ht Hfuel; pose proof (at_bounds _ _ _ Ha) as Hoff;
    pose proof (at_wf _ _ _ Hwf Ha) as Hb;
    try (apply name_at_bounds in Hat as (? & ? & ? & _));
    (destruct fuel as [|fuel]; [lia|]); cbn [readName_loop];
    (destruct (_ || _)%bool eqn:E; [apply orb_true_iff in E as [?%Z.ltb_lt|?%Z.leb_le]; lia|clear E]);
    unfold byte_at at 1; rewrite Ha; cbn [rbind];
    rewrite classify_pointer, classify_label by done.
  - done.
  - destruct (192 <=? n) eqn:E; go_bools; [lia|]. destruct (n <? 64) eqn:E2; go_bools; [|lia].
    simpl negb. cbv iota. destruct (n =? 0) eqn:E3; go_bools; [lia|].
    destruct (zlen b <? _) eqn:E4; go_bools; [lia|].
    destruct (maxNameLen <? _) eqn:E5; go_bools; [unfold maxNameLen in *; lia|].
    rewrite IH by lia. done.
  - destruct (192 <=? n) eqn:E; go_bools; [|lia].
    destruct (zlen b <=? off + 1) eqn:E4; go_bools; [lia|].
    rewrite u16_at_in by lia. cbn [rbind]. unfold compressionOffsetMask.
    destruct (off <=? _) eqn:E5; go_bools; [lia|].
    destruct (maxNameJumps <? _) eqn:E6; go_bools; [lia|].
    rewrite IH by (try case_match; lia). do 2 f_equal.
    destruct (end_ =? 0) eqn:E7; [|by rewrite E7].
    by destruct (off + 2 =? 0) eqn:?; go_bools; [lia|].
Qed.

(** The loop decides: with the fuel given it neither panics nor runs out. *)
Lemma readName_loop_total b : wf_bytes b -> forall fuel off sb end_ jumps total,
  0 <= off -> jumps <= maxNameJumps -> total <= maxNameLen ->
  (maxNameJumps - jumps) + (maxNameLen - total) < Z.of_nat fuel ->
  ~ fails (readName_loop fuel b off sb end_ jumps total).
Proof.
  intros Hwf. unfold fails.
  induction fuel as [|fuel IH]; intros off sb end_ jumps total Hoff0 Hj Ht Hfuel; [lia|].
  cbn [readName_loop].
  destruct ((off <? 0) || (zlen b <=? off))%bool eqn:Hoff; [naive_solver|]. go_bools.
  destruct (byte_at_in b off) as (n & Hn & ->); [lia|]. cbn [rbind].
  pose proof (at_wf _ _ _ Hwf Hn) as Hb. unfold is_byte in Hb.
  destruct (Z.land n _ =? _).
  - destruct (zlen b <=? off + 1) eqn:?; [naive_solver|]. go_bools.
    rewrite u16_at_in by lia. cbn [rbind].
    destruct (off <=? _) eqn:Hf; [naive_solver|]. destruct (maxNameJumps <? _) eqn:?; [naive_solver|].
    go_bools. apply IH; try lia. apply Z.land_nonneg. right. unfold compressionOffsetMask. lia.
  - destruct (negb _); [naive_solver|]. destruct (n =? 0) eqn:?; [naive_solver|].
    destruct (zlen b <? _); [naive_solver|]. destruct (maxNameLen <? _) eqn:?; [naive_solver|].
    go_bools. apply IH; lia.
Qed.

Lemma readName_total b off : wf_bytes b -> 0 <= off -> ~ fails (readName b off).
Proof.
  intros. apply readName_loop_total; try done; unfold readName_fuel, maxNameLen, maxNameJumps; lia.
Qed.

Lemma readName_spec b off name e :
  wf_bytes b ->
  readName b off = Ok (name, e) <->
  exists ls j t, name_at b off ls j t e /\ j <= maxNameJumps /\ t <= maxNameLen /\ name = dotted ls.
Proof.
  intros Hwf. unfold readName. split.
  - intros (ls & j & t & e0 & Hat & Hj & Ht & -> & ->)%readName_loop_sound; [|done].
    exists ls, j, t. rewrite fold_extend by apply (name_at_bounds _ _ _ _ _ _ Hat).
    unfold maxNameJumps, maxNameLen in *. split_and!; try done; lia.
  - intros (ls & j & t & Hat & Hj & Ht & ->).
    pose proof (name_at_bounds _ _ _ _ _ _ Hat) as (_ & ? & ? & _ & _ & Hne).
    rewrite (readName_loop_complete b off ls j t e); try done; try lia.
    + by rewrite fold_extend.
    + assert (Z.of_nat readName_fuel = 272) as -> by done. unfold maxNameJumps, maxNameLen in *. lia.
Qed.

(** ** First-level encoding *)

Definition nibbles_ok (b : Z) : bool :=
  match nibbles b with
  | [h; l] =>
      let hi := u8 (h - nbnsEncodeBase) in
      let lo := u8 (l - nbnsEncodeBase) in
      negb ((0x0f <? hi) || (0x0f <? lo)) && (u8 (Z.lor (Z.shiftl hi 4) lo) =? b) &&
      bool_decide (is_byte h) && bool_decide (is_byte l)
  | _ => false
  end.

Lemma nibbles_all : forallb nibbles_ok (Z.of_nat <$> seq 0 256) = true.
Proof. vm_compute. reflexivity. Qed.

Lemma nibbles_spec x : is_byte x -> exists h l, nibbles x = [h; l] /\
  ((0x0f <? u8 (h - nbnsEncodeBase)) || (0x0f <? u8 (l - nbnsEncodeBase)))%bool = false /\
  u8 (Z.lor (Z.shiftl (u8 (h - nbnsEncodeBase)) 4) (u8 (l - nbnsEncodeBase))) = x /\
  is_byte h /\ is_byte l.
Proof.
  intros Hx. pose proof (byte_forall _ x nibbles_all Hx) as H. unfold nibbles_ok in H.
  destruct (nibbles x) as [|h [|l [|]]]; try done. exists h, l.
  apply andb_true_iff in H as [[[Hg%negb_true_iff He%Z.eqb_eq]%andb_true_iff Hh]%andb_true_iff Hl].
  apply bool_decide_eq_true in Hh, Hl. done.
Qed.

Lemma decode_nibbles_concat raw :
  wf_bytes raw -> decode_nibbles (concat (nibbles <$> raw)) = Ok raw.
Proof.
  induction 1 as [|x raw Hx Hraw IH]; [done|]. rewrite fmap_cons. cbn [concat].
  destruct (nibbles_spec x Hx) as (h & l & -> & Hg & He & _).
  cbn [app decode_nibbles]. rewrite Hg, IH. cbn [rbind]. by rewrite He.
Qed.

Lemma nibbles_wf raw : wf_bytes raw -> wf_bytes (concat (nibbles <$> raw)).
Proof.
  induction 1 as [|x raw Hx Hraw IH]; [constructor|]. rewrite fmap_cons. cbn [concat].
  destruct (nibbles_spec x Hx) as (h & l & -> & _ & _ & ? & ?). cbn [app].
  by do 2 (constructor; [done|]).
Qed.

Lemma zlen_nibbles raw : zlen (concat (nibbles <$> raw)) = 2 * zlen raw.
Proof.
  induction raw as [|x raw IH]; [done|]. rewrite fmap_cons. cbn [concat]. unfold nibbles at 1.
  cbn [app]. rewrite !zlen_cons, IH. lia.
Qed.

Lemma decode_nibbles_len enc : ~ fails (decode_nibbles enc) /\
  forall raw, decode_nibbles enc = Ok raw -> zlen raw = zlen enc / 2.
Proof.
  unfold fails. induction enc as [|h|h l rest IH] using list_two_ind; simpl.
  - split; [naive_solver|]. by intros ? [= <-].
  - split; [naive_solver|]. by intros ? [= <-].
  - destruct IH as [Hf Hl].
    destruct (_ || _)%bool; [naive_solver|].
    destruct (decode_nibbles rest) as [raw|e]; simpl; [|split; naive_solver].
    split; [naive_solver|]. intros ? [= <-]. rewrite !zlen_cons, (Hl raw) by done.
    replace (zlen rest + 1 + 1) with (zlen rest + 1 * 2) by lia. rewrite Z.div_add by lia. done.
Qed.

Lemma decodeNBNSName_total enc : ~ fails (decodeNBNSName enc).
Proof.
  unfold fails, decodeNBNSName. destruct (zlen enc =? nbnsEncodedLen) eqn:Hl; [|naive_solver].
  go_bools. simpl. destruct (decode_nibbles_len enc) as [Hf Hraw].
  destruct (decode_nibbles enc) as [raw|e]; simpl; [|unfold fails in *; naive_solver].
  destruct (byte_at_in raw nbnsNamePadLen) as (x & _ & ->); [|simpl; naive_solver].
  rewrite (Hraw raw), Hl by done. vm_compute. split; [discriminate|reflexivity].
Qed.

(** The padded name of an encoding. *)
Definition netbios_raw (upper : bytes) (suffix : Z) : bytes :=
  upper ++ replicate (Z.to_nat (nbnsNamePadLen - zlen upper)) 32 ++ [suffix].

Lemma netbios_raw_len upper suffix :
  zlen upper <= nbnsNamePadLen -> zlen (netbios_raw upper suffix) = nbnsNameLen.
Proof.
  intros. unfold netbios_raw. rewrite !zlen_app. unfold zlen in *.
  rewrite length_replicate. simpl. unfold nbnsNamePadLen, nbnsNameLen in *. lia.
Qed.

Lemma netbios_raw_wf upper suffix :
  wf_bytes upper -> is_byte suffix -> wf_bytes (netbios_raw upper suffix).
Proof.
  intros. unfold netbios_raw. rewrite !Forall_app. split; [done|].
  split; [|by constructor]. apply Forall_replicate. unfold is_byte. lia.
Qed.

Lemma decode_netbios_raw upper suffix :
  wf_bytes upper -> Forall (fun c => c ≠ 32) upper -> is_byte suffix ->
  zlen upper <= nbnsNamePadLen ->
  decodeNBNSName (concat (nibbles <$> netbios_raw upper suffix)) = Ok (upper, suffix).
Proof.
  intros Hwf Hsp Hs Hlen. unfold decodeNBNSName.
  rewrite zlen_nibbles, netbios_raw_len by done. simpl negb. cbv iota.
  rewrite decode_nibbles_concat by (by apply netbios_raw_wf). cbn [rbind].
  set (pad := Z.to_nat (nbnsNamePadLen - zlen upper)).
  assert (zlen (upper ++ replicate pad 32) = nbnsNamePadLen) as Hpl.
  { rewrite zlen_app. unfold zlen in *. rewrite length_replicate. unfold pad. lia. }
  assert (netbios_raw upper suffix = (upper ++ replicate pad 32) ++ [suffix]) as ->.
  { unfold netbios_raw. fold pad. by rewrite app_assoc. }
  unfold byte_at. rewrite <- Hpl at 1. rewrite at_app_mid. cbn [rbind].
  do 2 f_equal. rewrite <- Hpl.
  pose proof (slice_app_mid [] (upper ++ replicate pad 32) [suffix]) as Hsl.
  rewrite !app_nil_l in Hsl. change (zlen []) with 0 in Hsl. rewrite Z.add_0_l in Hsl.
  rewrite Hsl. by apply TrimRight_pad.
Qed.

(** ** The message readers on arbitrary bytes *)

Lemma u16_at_total b i : 0 <= i -> i + 2 <= zlen b -> exists w, u16_at b i = Ok w /\ w = get_u16 b i.
Proof. intros. exists (get_u16 b i). by rewrite u16_at_in. Qed.

Lemma parseHeader_spec b :
  parseHeader b =
    if MaxDatagramLen <? zlen b then Err ErrDatagramTooLong else
    if zlen b <? dnsHeaderLen then Err ErrDatagramShort else
    if Z.land (get_u16 b 2) headerFlagResponse =? 0 then Err ErrNotResponse
    else Ok (mkHeader (get_u16 b 0) (get_u16 b 2) (get_u16 b 4) (get_u16 b 6), dnsHeaderLen).
Proof.
  unfold parseHeader. destruct (_ <? zlen b); [done|]. destruct (zlen b <? _) eqn:E; [done|].
  go_bools. unfold dnsHeaderLen in E. by rewrite !u16_at_in by lia.
Qed.

Lemma parseHeader_total b : ~ fails (parseHeader b).
Proof. rewrite parseHeader_spec. unfold fails. repeat case_match; naive_solver. Qed.

Lemma readNBNSNameField_total b off : wf_bytes b -> 0 <= off -> ~ fails (readNBNSNameField b off).
Proof.
  intros Hwf Hoff. unfold readNBNSNameField, fails.
  destruct (zlen b <=? off) eqn:?; [naive_solver|]. go_bools.
  destruct (byte_at_in b off) as (n & Hn & ->); [lia|]. cbn [rbind].
  set (pick := if _ =? _ then _ else _).
  assert ((exists e, pick = Err e /\ e ≠ Panic /\ e ≠ OutOfFuel) \/
          exists o e, pick = Ok (o, e) /\ 0 <= o < zlen b) as [(e & -> & ? & ?)|(o & e & -> & Ho)].
  { unfold pick. destruct (_ =? compressionMask); [|right; exists off, 0; split; [done|lia]].
    destruct (zlen b <=? off + 1) eqn:?; [by left; eexists|]. go_bools. rewrite u16_at_in by lia. cbn [rbind].
    set (target := Z.land _ _).
    assert (0 <= target) by (apply Z.land_nonneg; right; unfold compressionOffsetMask; lia).
    destruct (off <=? target) eqn:?; [by left; eexists|].
    destruct (zlen b <=? target) eqn:?; [by left; eexists|]. go_bools.
    destruct (byte_at_in b target) as (n' & _ & ->); [lia|]. cbn [rbind].
    destruct (_ =? compressionMask); [by left; eexists|]. right. exists target, (off + 2). by split; [|lia]. }
  { simpl. naive_solver. }
  cbn [rbind]. destruct (byte_at_in b o) as (n' & _ & ->); [done|]. cbn [rbind].
  destruct (negb _); [naive_solver|]. destruct (zlen b <? _) eqn:?; [naive_solver|].
  destruct (e =? 0); [|naive_solver]. destruct (zlen b <=? _) eqn:?; [naive_solver|]. go_bools.
  destruct (byte_at_in b (o + 1 + nbnsEncodedLen)) as (c & _ & ->);
    [unfold nbnsEncodedLen, nbnsNameLen in *; lia|].
  cbn [rbind]. destruct (negb _); naive_solver.
Qed.

Lemma rbind_total {A B} (r : wres A) (f : A -> wres B) :
  ~ fails r -> (forall a, r = Ok a -> ~ fails (f a)) -> ~ fails (rbind r f).
Proof. destruct r as [a|e]; simpl; [eauto|]. unfold fails. naive_solver. Qed.

Lemma parseDNSReply_total b : wf_bytes b -> ~ fails (parseDNSReply b).
Proof.
  intros Hwf. unfold parseDNSReply. apply rbind_total; [apply parseHeader_total|].
  intros [hdr off] Hh. rewrite parseHeader_spec in Hh. repeat case_match; simplify_eq.
  - unfold fails; naive_solver.
  - unfold fails; naive_solver.
  - apply rbind_total; [by apply readName_total|]. intros [name e] _.
    case_match; unfold fails; naive_solver.
Qed.

Lemma parseNBNSReply_total `{Unicode} b : wf_bytes b -> ~ fails (parseNBNSReply b).
Proof.
  intros Hwf. unfold parseNBNSReply. apply rbind_total; [apply parseHeader_total|].
  intros [hdr off] Hh. rewrite parseHeader_spec in Hh. repeat case_match; simplify_eq.
  - unfold fails; naive_solver.
  - apply rbind_total; [by apply readNBNSNameField_total|]. intros [enc e] _.
    apply rbind_total; [apply decodeNBNSName_total|]. intros [name s] _.
    unfold fails; naive_solver.
Qed.

(** What the DNS-shaped reader accepts, and what it makes of it. *)
Definition dns_reply_at (b : bytes) (r : reply) : Prop :=
  dnsHeaderLen <= zlen b <= MaxDatagramLen /\
  Z.land (get_u16 b 2) headerFlagResponse ≠ 0 /\
  (get_u16 b 4 = 1 \/ get_u16 b 4 = 0 /\ get_u16 b 6 ≠ 0) /\
  exists ls j t e, name_at b dnsHeaderLen ls j t e /\
    j <= maxNameJumps /\ t <= maxNameLen /\ e + 4 <= zlen b /\
    r = mkReply (get_u16 b 0) (trimLocal (dotted ls)) (get_u16 b 6).

Lemma parseDNSReply_sound b r : wf_bytes b -> parseDNSReply b = Ok r -> dns_reply_at b r.
Proof.
  intros Hwf. unfold parseDNSReply. rewrite parseHeader_spec.
  destruct (MaxDatagramLen <? zlen b) eqn:H1; [done|].
  destruct (zlen b <? dnsHeaderLen) eqn:H2; [done|].
  destruct (_ =? 0) eqn:H3; [done|]. cbn [rbind questions answers hdrID].
  destruct (1 <? get_u16 b 4) eqn:H4; [done|].
  destruct ((get_u16 b 4 =? 0) && (get_u16 b 6 =? 0))%bool eqn:H5; [done|]. go_bools.
  destruct (readName b dnsHeaderLen) as [[name e]|] eqn:Hn; cbn [rbind]; [|done].
  destruct (zlen b <? e + 4) eqn:H6; [done|]. intros [= <-]. go_bools.
  apply readName_spec in Hn as (ls & j & t & Hat & Hj & Ht & ->); [|done].
  unfold dnsHeaderLen in *.
  pose proof (get_u16_range b 4 Hwf ltac:(lia) ltac:(lia)) as [? _].
  split; [unfold dnsHeaderLen; lia|]. split; [done|]. split.
  - apply andb_false_iff in H5 as [?%Z.eqb_neq|?%Z.eqb_neq]; lia.
  - by exists ls, j, t, e.
Qed.

Lemma parseDNSReply_complete b r : wf_bytes b -> dns_reply_at b r -> parseDNSReply b = Ok r.
Proof.
  intros Hwf ([Hlo Hhi] & Hresp & Hq & ls & j & t & e & Hat & Hj & Ht & He & ->).
  unfold parseDNSReply. rewrite parseHeader_spec.
  destruct (MaxDatagramLen <? zlen b) eqn:H1; go_bools; [lia|].
  destruct (zlen b <? dnsHeaderLen) eqn:H2; go_bools; [lia|].
  apply Z.eqb_neq in Hresp as ->. cbn [rbind questions answers hdrID].
  destruct (1 <? get_u16 b 4) eqn:H4; go_bools; [lia|].
  destruct ((get_u16 b 4 =? 0) && (get_u16 b 6 =? 0))%bool eqn:H5; go_bools; [lia|].
  assert (readName b dnsHeaderLen = Ok (dotted ls, e)) as ->.
  { apply readName_spec; [done|]. by exists ls, j, t. }
  cbn [rbind]. destruct (zlen b <? e + 4) eqn:H6; go_bools; [lia|]. done.
Qed.

(** A name is short and has no capital left, so it compares byte for byte with
    the lower-case name asked for. *)
Lemma dotted_bounds b off ls j t e :
  name_at b off ls j t e ->
  zlen (dotted ls) <= t /\ Forall (fun c => is_upper c = false) (dotted ls).
Proof.
  unfold dotted.
  induction 1 as [off Ha|off n ls j t e Ha Hn Hl Hat IH|off n ls j t e Ha Hn Hl Hp _ IH].
  - split; [vm_compute; discriminate|constructor].
  - destruct IH as [IHl IHu]. pose proof (zlen_slice b (off + 1) (off + 1 + n)) as Hs.
    rewrite fmap_cons. set (l := slice b (off + 1) (off + 1 + n)) in *.
    assert (Forall (fun c => is_upper c = false) (lowerASCII l)) as Hu.
    { apply Forall_fmap, Forall_true. intros. apply lower_byte_not_upper. }
    pose proof (zlen_lowerASCII l). apply at_bounds in Ha.
    specialize (Hs ltac:(lia) ltac:(lia) ltac:(lia)).
    destruct (decide (ls = [])) as [->|Hne].
    + split; [|done]. apply name_at_bounds in Hat. simpl. lia.
    + rewrite Join_cons by (by destruct ls). split.
      * rewrite zlen_app, zlen_cons. lia.
      * apply Forall_app. split; [done|]. by constructor.
  - done.
Qed.

(** ** Properties *)

(** Reading a name. *)
Lemma readName_refines_names (b : bytes) (off : Z) :
  wf_bytes b -> 0 <= off ->
  ~ fails (readName b off) /\
  forall name e, readName b off = Ok (name, e) <->
    exists ls j t, name_at b off ls j t e /\ j <= maxNameJumps /\ t <= maxNameLen /\
      name = dotted ls /\ off < e <= zlen b /\
      zlen name <= maxNameLen /\ Forall (fun c => is_upper c = false) name.
Proof.
  intros Hwf Hoff. split; [by apply readName_total|]. intros name e.
  rewrite readName_spec by done. split.
  - intros (ls & j & t & Hat & Hj & Ht & ->). exists ls, j, t.
    pose proof (name_at_bounds _ _ _ _ _ _ Hat) as (_ & _ & _ & ? & _).
    pose proof (dotted_bounds _ _ _ _ _ _ Hat) as [? ?]. split_and!; try done; lia.
  - intros (ls & j & t & Hat & Hj & Ht & -> & _). by exists ls, j, t.
Qed.

(** A reply whose owner name is a pointer into the first label of another. *)
Definition ex_datagram : bytes := [4; 87; 80; 65; 68; 0; 2; 120; 121; 0xc0; 0].


(** Reading a reply. *)
Lemma replies_parsed_exactly `{Unicode} (b : bytes) :
  wf_bytes b ->
  ~ fails (parseDNSReply b) /\ ~ fails (parseNBNSReply b) /\
  forall r, parseDNSReply b = Ok r <-> dns_reply_at b r.
Proof.
  intros Hwf. split; [by apply parseDNSReply_total|]. split; [by apply parseNBNSReply_total|].
  intros r. split; [by apply parseDNSReply_sound|by apply parseDNSReply_complete].
Qed.

Definition ex_reply : bytes :=
  [0; 7; 0x80; 0; 0; 1; 0; 1; 0; 0; 0; 0; 4; 87; 80; 65; 68; 5; 76; 79; 67; 65; 76; 0; 0; 1; 0; 1].

(** C24. Reading a name always terminates without a panic, whatever the bytes
    and wherever it starts, and reads exactly the names the datagram holds:
    labels of at most 63 bytes and 255 in all, reached through at most 16
    pointers that each point strictly backwards. The name read is the labels
    in lower case joined by dots, and the offset returned is where the
    encoding in place ends. No datagram makes a reply reader panic or run on,
    and the DNS-shaped reader accepts exactly the datagrams of at most 512
    bytes that are responses with at most one question, carry a question or an
    answer, hold a well-formed name after the header and four more bytes after
    it; the reply is the header's id and answer count and the name without
    ".local". *)
Theorem datagrams_read_exactly `{Unicode} (b : bytes) :
  wf_bytes b ->
  (forall off, 0 <= off ->
  ~ fails (readName b off) /\
  forall name e, readName b off = Ok (name, e) <->
    exists ls j t, name_at b off ls j t e /\ j <= maxNameJumps /\ t <= maxNameLen /\
      name = dotted ls /\ off < e <= zlen b /\
      zlen name <= maxNameLen /\ Forall (fun c => is_upper c = false) name) /\
  (~ fails (parseDNSReply b) /\ ~ fails (parseNBNSReply b) /\
  forall r, parseDNSReply b = Ok r <-> dns_reply_at b r).
Proof.
  intros Hwf. split; [intros off; by apply readName_refines_names|by apply replies_parsed_exactly].
Qed.

Lemma datagrams_read_exactly_witness :
  readName ex_datagram 6 = Ok (lit "xy.wpad", 11) /\ ~ fails (readName ex_datagram 6) /\
  parseDNSReply ex_reply = Ok (mkReply 7 (lit "wpad") 1) /\
  dns_reply_at ex_reply (mkReply 7 (lit "wpad") 1).
Proof.
  split; [vm_compute; reflexivity|]. split.
  - apply (datagrams_read_exactly (H := ascii_only) ex_datagram); [|lia].
    apply (bool_decide_unpack _). vm_compute. exact I.
  - split; [vm_compute; reflexivity|].
    apply (datagrams_read_exactly (H := ascii_only) ex_reply); [|vm_compute; reflexivity].
    apply (bool_decide_unpack _). vm_compute. exact I.
Defined.
