(* ===== verification/BaitNames.v ===== *)
(** The bait names the sender asks for, [internal/agent/poisoner/name.go]:
    the operator's list, the neighbours derived from the canary's hostname and
    the protocol name that is always last.

    [rand.Shuffle] of a seeded generator is the variable [Shuffle]. *)
From S2P Require Import Prelude GoBase GoStrings Wire.
#[local] Open Scope Z_scope.
#[local] Open Scope go_scope.

Definition maxBaitNameLen : Z := nbnsNamePadLen.
Definition MaxOperatorNames : Z := 3.
Definition derivedNameCount : Z := 2.
Definition WPADName : bytes := lit "wpad".

Inductive name_error : Type := ErrNoName | ErrBadName | ErrNoneUsable.

Definition bait_char (c : Z) : bool := is_lower c || is_digit c || (c =? 45).

Definition normaliseName `{Unicode} (name : bytes) : res name_error bytes :=
  let name := ToLower (TrimSpace name) in
  if bool_decide (name = []) then Err ErrNoName else
  if maxBaitNameLen <? zlen name then Err ErrBadName else
  if bool_decide (head name = Some 45) || bool_decide (last name = Some 45) then Err ErrBadName else
  if forallb bait_char name then Ok name else Err ErrBadName.

Definition contains (n : list bytes) (name : bytes) : bool := existsb (fun have => bool_decide (have = name)) n.

Fixpoint ParseNames_loop `{Unicode} (fields : list bytes) (names : list bytes) (refused : Z) :
    list bytes * Z :=
  match fields with
  | [] => (names, refused)
  | field :: rest =>
      let field := TrimSpace field in
      if bool_decide (field = []) then ParseNames_loop rest names refused else
      match normaliseName field with
      | Err _ => ParseNames_loop rest names (refused + 1)
      | Ok name =>
          if contains names name then ParseNames_loop rest names refused
          else if MaxOperatorNames <=? zlen names then ParseNames_loop rest names (refused + 1)
          else ParseNames_loop rest (names ++ [name]) refused
      end
  end.

(** The names kept, how many were refused, and the error if none is usable. *)
Definition ParseNames `{Unicode} (raw : bytes) : list bytes * Z * option name_error :=
  let '(names, refused) := ParseNames_loop (Split raw 44) [] 0 in
  if bool_decide (names = []) && (0 <? refused) then ([], refused, Some ErrNoneUsable)
  else (names, refused, None).

(** [fmt.Sprintf("%0*d", width, m)] for [m >= 0]. *)
Definition zero_padded (width m : Z) : bytes :=
  let d := Itoa m in replicate (Z.to_nat (width - zlen d)) 48 ++ d.

(** The trailing digits of a host name, split off. *)
Definition split_digits (host : bytes) : bytes * bytes :=
  let digits := reverse (take_while is_digit (reverse host)) in
  (take (length host - length digits)%nat host, digits).

Section derive.
Context `{Unicode} (Shuffle : Z -> list Z -> list Z).

Fixpoint neighbour_loop (host prefix : bytes) (n width count : Z) (offsets : list Z)
    (out : list bytes) : list bytes :=
  match offsets with
  | [] => out
  | off :: rest =>
      if zlen out =? count then out else
      let m := i64 (n + off) in
      if m <? 0 then neighbour_loop host prefix n width count rest out else
      let candidate := prefix ++ zero_padded width m in
      if negb (zlen candidate - zlen prefix =? width) then
        neighbour_loop host prefix n width count rest out
      else
        match normaliseName candidate with
        | Err _ => neighbour_loop host prefix n width count rest out
        | Ok name =>
            if bool_decide (name = host) || contains out name then
              neighbour_loop host prefix n width count rest out
            else neighbour_loop host prefix n width count rest (out ++ [name])
        end
  end.

Definition neighbourNames (hostname : bytes) (count seed : Z) : res name_error (list bytes) :=
  let host := ToLower (TrimSpace hostname) in
  let host := let i := IndexByte host 46 in if 0 <=? i then slice host 0 i else host in
  if bool_decide (host = []) then Err ErrNoName else
  let '(prefix, digits) := split_digits host in
  if bool_decide (digits = []) || bool_decide (prefix = []) then Err ErrNoName else
  match Atoi digits with
  | None => Err ErrNoName
  | Some n =>
      let width := zlen digits in
      let offsets := Shuffle seed [-1; 1; 2; -2; 3; 4; -3; 5; 6; -4] in
      let out := neighbour_loop host prefix n width count offsets [] in
      if bool_decide (out = []) then Err ErrNoName else Ok out
  end.

(** The rotation, and whether the caller is warned that it holds only the
    protocol name. *)
Definition DeriveNames (hostname : bytes) (operator : list bytes) (seed : Z) : list bytes * bool :=
  if 0 <? zlen operator then (operator ++ [WPADName], false) else
  match neighbourNames hostname derivedNameCount seed with
  | Err _ => ([WPADName], true)
  | Ok derived => (derived ++ [WPADName], false)
  end.

(** ** What a usable name is *)

Definition bait_name (n : bytes) : Prop :=
  0 < zlen n <= maxBaitNameLen /\ Forall (fun c => bait_char c = true) n /\
  head n ≠ Some 45 /\ last n ≠ Some 45.

Lemma bait_char_bounds c : bait_char c = true -> 45 <= c <= 122 /\ is_upper c = false /\ c ≠ 46.
Proof.
  unfold bait_char, is_lower, is_digit, is_upper. intros H0.
  apply orb_true_iff in H0 as [[H0|H0]%orb_true_iff|H0]; go_bools.
  - split; [lia|]. split; [|lia]. apply andb_false_iff. right. apply Z.leb_gt. lia.
  - split; [lia|]. split; [|lia]. apply andb_false_iff. left. apply Z.leb_gt. lia.
  - subst. done.
Qed.

Lemma normaliseName_valid raw name : normaliseName raw = Ok name -> bait_name name.
Proof.
  unfold normaliseName. intros Hn. repeat case_match; try done. simplify_eq.
  go_bools.
  split; [|split; [|done]].
  - split; [by apply zlen_pos|done].
  - rewrite Forall_forall. intros x. rewrite list_elem_of_In.
    match goal with Hf : forallb _ _ = true |- _ => by apply forallb_forall with (1 := Hf) end.
Qed.

(** A usable name is kept as it is: normalising is idempotent. *)
Lemma trim_space_right_keep s c r :
  s = c :: r -> c < 128 -> ascii_space c = false -> trim_space_right s = reverse s.
Proof.
  intros -> Hc Hs. cbn [trim_space_right]. rewrite Hs.
  by destruct (128 <=? c) eqn:E; go_bools; [lia|].
Qed.

Lemma TrimSpace_keep s :
  Forall (fun c => c < 128 /\ ascii_space c = false) s -> TrimSpace s = s.
Proof.
  intros Hs. destruct s as [|c s]; [done|]. pose proof Hs as Hs'.
  apply Forall_cons in Hs as [[Hc Hsp] _]. cbn [TrimSpace]. rewrite Hsp.
  destruct (128 <=? c) eqn:E; go_bools; [lia|].
  apply Forall_reverse in Hs'. destruct (reverse (c :: s)) as [|x r] eqn:Hr.
  { apply (f_equal length) in Hr. by rewrite length_reverse in Hr. }
  apply Forall_cons in Hs' as [[Hx Hxs] _].
  erewrite trim_space_right_keep by done. by rewrite <- Hr, reverse_involutive.
Qed.

Lemma bait_char_plain c : bait_char c = true -> c < 128 /\ ascii_space c = false.
Proof.
  intros [? _]%bait_char_bounds. split; [lia|]. unfold ascii_space.
  apply orb_false_iff. split; [apply andb_false_iff; right; apply Z.leb_gt; lia|apply Z.eqb_neq; lia].
Qed.

Lemma ToLower_keep n : Forall (fun c => bait_char c = true) n -> ToLower n = n.
Proof.
  intros Hn. rewrite ToLower_ascii.
  - induction Hn as [|c n Hc Hn IH]; [done|]. rewrite fmap_cons, IH.
    by rewrite lower_byte_id by apply (bait_char_bounds _ Hc).
  - eapply Forall_impl; [done|]. intros c [? _]%bait_char_plain. done.
Qed.

Lemma normaliseName_keep n : bait_name n -> normaliseName n = Ok n.
Proof.
  intros ([Hpos Hlen] & Hc & Hh & Hl). unfold normaliseName.
  rewrite TrimSpace_keep by (eapply Forall_impl; [done|]; intros c; apply bait_char_plain).
  rewrite ToLower_keep by done.
  rewrite bool_decide_eq_false_2 by (intros ->; done).
  destruct (_ <? zlen n) eqn:E; go_bools; [lia|].
  rewrite !bool_decide_eq_false_2 by done. simpl.
  assert (forallb bait_char n = true) as ->; [|done].
  apply forallb_forall. intros x Hx%list_elem_of_In. by eapply Forall_forall in Hc.
Qed.

Lemma contains_spec l n : contains l n = bool_decide (n ∈ l).
Proof.
  apply eq_true_iff_eq. unfold contains. rewrite existsb_exists, bool_decide_eq_true.
  setoid_rewrite bool_decide_eq_true. setoid_rewrite <- list_elem_of_In. naive_solver.
Qed.

Lemma ParseNames_loop_spec fields : forall names refused,
  Forall bait_name names -> NoDup names -> zlen names <= MaxOperatorNames ->
  let '(names', refused') := ParseNames_loop fields names refused in
  Forall bait_name names' /\ NoDup names' /\ zlen names' <= MaxOperatorNames /\
  refused <= refused' /\ names `prefix_of` names' /\
  (refused' = refused -> forall f name, f ∈ fields -> TrimSpace f ≠ [] ->
     normaliseName (TrimSpace f) = Ok name -> name ∈ names').
Proof.
  induction fields as [|f fields IH]; intros names refused Hv Hnd Hlen; cbn [ParseNames_loop].
  { split_and!; try done. by intros _ f name ?%not_elem_of_nil. }
  destruct (bool_decide (TrimSpace f = [])) eqn:He; go_bools.
  { specialize (IH names refused Hv Hnd Hlen). destruct (ParseNames_loop _ _ _).
    destruct IH as (? & ? & ? & ? & ? & Hk). split_and!; try done.
    intros Hr f' name [->|Hf]%elem_of_cons; [done|by apply Hk]. }
  destruct (normaliseName (TrimSpace f)) as [name|e] eqn:Hn.
  2: { specialize (IH names (refused + 1) Hv Hnd Hlen). destruct (ParseNames_loop _ _ _) as [ns r].
    destruct IH as (? & ? & ? & ? & ? & Hk). split_and!; try done; [lia|lia]. }
  rewrite contains_spec. destruct (bool_decide (name ∈ names)) eqn:Hin; go_bools.
  { specialize (IH names refused Hv Hnd Hlen). destruct (ParseNames_loop _ _ _) as [ns r].
    destruct IH as (? & ? & ? & ? & Hp & Hk). split_and!; try done.
    intros Hr f' name' [->|Hf]%elem_of_cons; [|by apply Hk]. rewrite Hn. intros _ [= <-].
    destruct Hp as [k ->]. apply elem_of_app. by left. }
  destruct (MaxOperatorNames <=? zlen names) eqn:Hm; go_bools.
  { specialize (IH names (refused + 1) Hv Hnd Hlen). destruct (ParseNames_loop _ _ _) as [ns r].
    destruct IH as (? & ? & ? & ? & ? & Hk). split_and!; try done; [lia|lia]. }
  assert (name ∈ names ++ [name]) as Hnew by (apply elem_of_app; right; by left).
  specialize (IH (names ++ [name]) refused).
  destruct (ParseNames_loop _ _ _) as [ns r]. destruct IH as (? & ? & ? & ? & Hp & Hk).
  - apply Forall_app. split; [done|]. constructor; [by eapply normaliseName_valid|done].
  - apply NoDup_app. split; [done|]. split; [|apply NoDup_singleton].
    by intros x Hx ->%list_elem_of_singleton.
  - rewrite zlen_app. unfold zlen at 2. simpl. lia.
  - split_and!; try done.
    + destruct Hp as [k ->]. exists ([name] ++ k). by rewrite app_assoc.
    + intros Hr f' name' [->|Hf]%elem_of_cons; [|by apply Hk]. rewrite Hn. intros _ [= <-].
      destruct Hp as [k ->]. apply elem_of_app. by left.
Qed.

(** A name made of the prefix and a number written in [width] digits. *)
Definition sibling (prefix : bytes) (width : Z) (name : bytes) : Prop :=
  exists m, 0 <= m /\ zlen (zero_padded width m) = width /\
    normaliseName (prefix ++ zero_padded width m) = Ok name.

Lemma neighbour_loop_spec host prefix n width count offsets : forall out,
  0 <= count -> Forall bait_name out -> NoDup out -> host ∉ out -> zlen out <= count ->
  Forall (sibling prefix width) out ->
  let out' := neighbour_loop host prefix n width count offsets out in
  Forall bait_name out' /\ NoDup out' /\ host ∉ out' /\ zlen out' <= count /\
  Forall (sibling prefix width) out'.
Proof.
  induction offsets as [|off offsets IH]; intros out Hc Hv Hnd Hh Hlen Hs; cbn [neighbour_loop]; [done|].
  destruct (zlen out =? count) eqn:Hl; [done|]. go_bools.
  destruct (_ <? 0) eqn:Hm; [by apply IH|]. destruct (negb _) eqn:Hw; [by apply IH|].
  destruct (normaliseName _) as [name|] eqn:Hn; [|by apply IH]. go_bools.
  assert (sibling prefix width name) as Hsib.
  { eexists. split; [exact Hm|]. split; [|exact Hn]. rewrite zlen_app in Hw. lia. }
  rewrite contains_spec.
  destruct (_ || _)%bool eqn:Hor; [by apply IH|].
  apply orb_false_iff in Hor as [Hne%bool_decide_eq_false Hnin%bool_decide_eq_false].
  apply normaliseName_valid in Hn. apply IH; [done|..].
  - apply Forall_app. by split; [|constructor].
  - apply NoDup_app. split; [done|]. split; [|apply NoDup_singleton].
    by intros x Hx ->%list_elem_of_singleton.
  - rewrite elem_of_app, list_elem_of_singleton. naive_solver.
  - rewrite zlen_app. unfold zlen at 2. simpl. lia.
  - apply Forall_app. by split; [|constructor].
Qed.

Lemma WPADName_valid : bait_name WPADName.
Proof.
  split; [vm_compute; split; [reflexivity|discriminate]|]. split; [|done].
  apply (bool_decide_unpack _). vm_compute. exact I.
Qed.

Lemma neighbourNames_spec hostname count seed out :
  0 <= count -> neighbourNames hostname count seed = Ok out ->
  Forall bait_name out /\ NoDup out /\ zlen out <= count /\ out ≠ [] /\
  exists prefix width, Forall (sibling prefix width) out.
Proof.
  intros Hc. unfold neighbourNames. intros Hn.
  destruct (bool_decide _); [done|]. destruct (split_digits _) as [prefix digits].
  destruct (_ || _)%bool; [done|]. destruct (Atoi digits) as [n|]; [|done].
  cbv zeta in Hn. destruct (bool_decide _) eqn:Hne; [done|]. go_bools. injection Hn as <-.
  destruct (neighbour_loop_spec (let host := ToLower (TrimSpace hostname) in
      if 0 <=? IndexByte host 46 then slice host 0 (IndexByte host 46) else host)
    prefix n (zlen digits) count
    (Shuffle seed [-1; 1; 2; -2; 3; 4; -3; 5; 6; -4]) []) as (? & ? & ? & ? & ?);
    try done; try (by constructor); [by apply not_elem_of_nil|].
  split_and!; try done. by exists prefix, (zlen digits).
Qed.

Lemma DeriveNames_valid hostname operator seed : Forall bait_name operator ->
  Forall bait_name (DeriveNames hostname operator seed).1 /\ (DeriveNames hostname operator seed).1 ≠ [].
Proof.
  intros Ho. unfold DeriveNames. destruct (0 <? zlen operator).
  { cbn. split; [|by destruct operator]. apply Forall_app. split; [done|]. constructor; [apply WPADName_valid|done]. }
  destruct (neighbourNames hostname derivedNameCount seed) as [derived|e] eqn:Hn; cbn.
  - apply neighbourNames_spec in Hn as (Hv & _); [|done]. split; [|by destruct derived]. apply Forall_app. split; [done|]. constructor; [apply WPADName_valid|done].
  - split; [constructor; [apply WPADName_valid|done]|done].
Qed.

(** ** Property *)

(** The rotation is usable whatever the operator wrote and whatever the
    host is called: it is never empty, holds at most four names, each of 1 to
    15 letters, digits and inner hyphens, and ends in the protocol name. The
    operator's names are distinct, at most three, and all of them when none
    was refused; the derived ones are distinct siblings of one prefix and
    digit count; the warning comes exactly with the protocol name alone. *)
Theorem rotation_usable (raw hostname : bytes) (seed : Z) :
  let '(ops, refused, err) := ParseNames raw in
  let '(rotation, warned) := DeriveNames hostname ops seed in
  Forall bait_name rotation /\ last rotation = Some WPADName /\ 1 <= zlen rotation <= 4 /\
  NoDup ops /\ zlen ops <= MaxOperatorNames /\
  (err ≠ None <-> ops = [] /\ 0 < refused) /\
  (refused = 0 -> forall f name, f ∈ Split raw 44 -> TrimSpace f ≠ [] ->
     normaliseName (TrimSpace f) = Ok name -> name ∈ ops) /\
  (warned = true <-> rotation = [WPADName]) /\
  (ops ≠ [] -> rotation = ops ++ [WPADName]) /\
  (ops = [] -> exists derived prefix width, rotation = derived ++ [WPADName] /\
     NoDup derived /\ Forall (sibling prefix width) derived).
Proof.
  unfold ParseNames. pose proof (ParseNames_loop_spec (Split raw 44) [] 0) as Hp.
  destruct (ParseNames_loop _ _ _) as [names refused].
  destruct Hp as (Hv & Hnd & Hlen & Hr & _ & Hk); [by constructor..|done|].
  assert ((if bool_decide (names = []) && (0 <? refused) then ([], refused, Some ErrNoneUsable)
           else (names, refused, None)) =
          (names, refused, if bool_decide (names = []) && (0 <? refused) then Some ErrNoneUsable else None)) as ->.
  { destruct (bool_decide (names = [])) eqn:E; [|done]. go_bools. subst. simpl. by destruct (0 <? refused). }
  assert ((if bool_decide (names = []) && (0 <? refused) then Some ErrNoneUsable else None) ≠ None <->
          names = [] /\ 0 < refused) as Herr.
  { destruct (bool_decide (names = []) && (0 <? refused))%bool eqn:E.
    - apply andb_true_iff in E as [->%bool_decide_eq_true ?%Z.ltb_lt]. done.
    - split; [done|]. intros [-> Hpos%Z.ltb_lt]. rewrite Hpos in E. done. }
  unfold DeriveNames. destruct (0 <? zlen names) eqn:Hpos; go_bools.
  { assert (names ≠ []) as Hne by (by intros ->).
    split_and!; try done.
    - apply Forall_app. split; [done|]. constructor; [apply WPADName_valid|done].
    - by rewrite last_snoc.
    - rewrite zlen_app. unfold zlen at 2. simpl. lia.
    - rewrite zlen_app. change (zlen [WPADName]) with 1. unfold MaxOperatorNames in *. lia.
    - split; [done|]. intros Heq. by destruct names as [|x [|]]. }
  assert (names = []) as -> by (destruct names; [done|]; rewrite zlen_cons in Hpos; pose proof (zlen_nonneg names); lia).
  destruct (neighbourNames hostname derivedNameCount seed) as [derived|e] eqn:Hn.
  - apply neighbourNames_spec in Hn as (Hv' & Hnd' & Hlen' & Hne & prefix & width & Hsib); [|done].
    split_and!; try done.
    + apply Forall_app. split; [done|]. constructor; [apply WPADName_valid|done].
    + by rewrite last_snoc.
    + rewrite zlen_app. unfold zlen at 2. simpl. pose proof (zlen_nonneg derived). lia.
    + rewrite zlen_app. change (zlen [WPADName]) with 1. unfold derivedNameCount in *. lia.
    + split; [done|]. intros Heq. by destruct derived as [|x [|]].
    + intros _. by exists derived, prefix, width.
  - split_and!; try done.
    + constructor; [apply WPADName_valid|done].
    + intros _. exists [], [], 0. split; [done|]. split; constructor.
Qed.
End derive.

Example derive_ex :
  DeriveNames (H := ascii_only) (fun _ l => l) (lit "FS-lon-03.example.org") [] 1 =
    ([lit "fs-lon-02"; lit "fs-lon-04"; WPADName], false).
Proof. vm_compute. reflexivity. Qed.
