(* ===== verification/Query.v ===== *)
(** Asking and recognising: the segment profile
    ([internal/agent/poisoner/profile.go]), the questions of one lookup and
    the answers collected for it ([query.go]).

    The generator's [Uint32] is the state-passing variable [Uint32]; opening
    sockets is [openSockets]; what arrives on them before the deadline is the
    sequence of datagrams in the order the reader goroutines hand them on. *)
From S2P Require Import Prelude GoBase GoStrings Wire BaitNames.
#[local] Open Scope Z_scope.
#[local] Open Scope go_scope.

(** ** profile.go *)

Inductive Protocol : Type :=
| ProtocolLLMNR
| ProtocolNBNS
| ProtocolMDNS
| ProtocolOther (s : string).

#[export] Instance Protocol_eq_dec : EqDecision Protocol.
Proof. solve_decision. Defined.

(** A profile is the text of its setting. *)
Definition ProfileWindows : bytes := lit "windows".
Definition ProfileLinux : bytes := lit "linux".
Definition ProfileOff : bytes := lit "off".
Definition DefaultProfile : bytes := ProfileWindows.

Definition ParseProfile (raw : bytes) : option bytes :=
  if bool_decide (raw = []) then Some DefaultProfile
  else if bool_decide (raw = ProfileWindows) || bool_decide (raw = ProfileLinux)
          || bool_decide (raw = ProfileOff) then Some raw
  else None.

(** Durations are nanoseconds. *)
Definition Millisecond : Z := 1000000.
Definition Second : Z := 1000 * Millisecond.

Definition llmnrTriesWindows : Z := 2.
Definition llmnrTriesLinux : Z := 2.
Definition llmnrRetryGap : Z := 100 * Millisecond.
Definition nbnsTries : Z := 3.
Definition nbnsRetryGap : Z := 750 * Millisecond.
Definition mdnsTriesWindows : Z := 1.
Definition mdnsTriesLinux : Z := 2.
Definition mdnsRetryGap : Z := Second.

Record Shape : Type := mkShape {
  Protocols : list Protocol;
  LLMNRTries : Z;
  LLMNRRetryGap : Z;
  NBNSTries : Z;
  NBNSRetryGap : Z;
  MDNSTries : Z;
  MDNSRetryGap : Z;
  MDNSUnicastResponse : bool;
  QueryIPv6 : bool;
}.

Definition shape_of (p : bytes) : Shape :=
  if bool_decide (p = ProfileLinux) then
    mkShape [ProtocolLLMNR; ProtocolMDNS] llmnrTriesLinux llmnrRetryGap 0 0
      mdnsTriesLinux mdnsRetryGap true true
  else if bool_decide (p = ProfileOff) then
    mkShape [] 0 0 0 0 0 0 false false
  else
    mkShape [ProtocolLLMNR; ProtocolNBNS; ProtocolMDNS] llmnrTriesWindows llmnrRetryGap
      nbnsTries nbnsRetryGap mdnsTriesWindows mdnsRetryGap false true.

Definition Sends (p : bytes) : bool := (0 <? length (Protocols (shape_of p)))%nat.

Definition Asks (p : bytes) (proto : Protocol) : bool :=
  existsb (fun have => bool_decide (have = proto)) (Protocols (shape_of p)).

(** ** query.go *)

Record question : Type := mkQuestion { qid : Z; datagram : bytes }.

Record asked : Type := mkAsked { askedName : bytes; askedProto : Protocol; ids : gset Z }.

Definition matches (a : asked) (r : reply) : bool :=
  if Answers r =? 0 then false
  else if bool_decide (replyID r ∈ ids a) && negb (replyID r =? mdnsQueryID) then true
  else bool_decide (replyName r = askedName a).

Definition tries (proto : Protocol) (shape : Shape) : Z * Z :=
  match proto with
  | ProtocolLLMNR => (LLMNRTries shape, LLMNRRetryGap shape)
  | ProtocolNBNS => (NBNSTries shape, NBNSRetryGap shape)
  | ProtocolMDNS => (MDNSTries shape, MDNSRetryGap shape)
  | ProtocolOther _ => (0, 0)
  end.

Record Answer : Type := mkAnswer {
  ansSource : string;
  ansSourcePort : Z;
  ansProtocol : Protocol;
  ansName : bytes;
  ansMAC : string;
  ansLocal : string;
  ansLocalPort : Z;
}.

(** A datagram, where it came from and the local end it came to. *)
Record arrival : Type := mkArrival {
  arrHost : string;
  arrPort : Z;
  arrLocal : string;
  arrLocalPort : Z;
  arrBytes : bytes;
}.

Section query.
Context `{Unicode} {R : Type} (Uint32 : R -> Z * R).

Fixpoint llmnr_questions (qtypes : list Z) (name : bytes) (r : R) (out : list question) :
    wres (list question) * R :=
  match qtypes with
  | [] => (Ok out, r)
  | qtype :: rest =>
      let '(x, r) := Uint32 r in
      let id := u16 x in
      match encodeLLMNRQuery id name qtype with
      | Err e => (Err e, r)
      | Ok d => llmnr_questions rest name r (out ++ [mkQuestion id d])
      end
  end.

Fixpoint mdns_questions (qtypes : list Z) (name : bytes) (unicast : bool) (out : list question) :
    wres (list question) :=
  match qtypes with
  | [] => Ok out
  | qtype :: rest =>
      let? d := encodeMDNSQuery name qtype unicast in
      mdns_questions rest name unicast (out ++ [mkQuestion mdnsQueryID d])
  end.

Definition buildQuestions (proto : Protocol) (name : bytes) (shape : Shape) (r : R) :
    wres (list question) * R :=
  match proto with
  | ProtocolLLMNR => llmnr_questions [typeA; typeAAAA] name r []
  | ProtocolMDNS => (mdns_questions [typeA; typeAAAA] name (MDNSUnicastResponse shape) [], r)
  | ProtocolNBNS =>
      let '(x, r) := Uint32 r in
      let id := u16 x in
      (let? d := encodeNBNSQuery id name in Ok [mkQuestion id d], r)
  | ProtocolOther _ => (Err ErrProtocol, r)
  end.

Definition parseReplyFor (proto : Protocol) (b : bytes) : wres reply :=
  if decide (proto = ProtocolNBNS) then parseNBNSReply b else parseDNSReply b.

(** One datagram in the loop of [readSocketAnswers]: the read fills a buffer of
    [MaxDatagramLen] bytes and drops the rest; [mac] is [lookupMACWithRetry]. *)
Definition read_answer (mac : string -> string) (record : asked) (a : arrival) : option Answer :=
  match parseReplyFor (askedProto record) (take (Z.to_nat MaxDatagramLen) (arrBytes a)) with
  | Err _ => None
  | Ok r =>
      if matches record r then
        Some (mkAnswer (arrHost a) (arrPort a) (askedProto record) (askedName record)
                (mac (arrHost a)) (arrLocal a) (arrLocalPort a))
      else None
  end.

Fixpoint collect_loop (answers : list Answer) (seen : gset string) (out : list Answer) :
    list Answer :=
  match answers with
  | [] => out
  | a :: rest =>
      if decide (ansSource a ∈ seen) then collect_loop rest seen out
      else collect_loop rest ({[ansSource a]} ∪ seen) (out ++ [a])
  end.

Definition collectAnswers (mac : string -> string) (record : asked) (arrived : list arrival) :
    list Answer :=
  collect_loop (omap (read_answer mac record) arrived) ∅ [].

(** The writes of [lookup]: on each try, every question on every socket. The
    wait before the try numbered [i] is cut short when [cancelled i]. *)
Fixpoint send_tries {K : Type} (cancelled : nat -> bool) (sockets : list K) (qs : list question)
    (try_ : nat) (more : nat) : list (K * bytes) * bool :=
  match more with
  | O => ([], true)
  | Datatypes.S more =>
      if ((0 <? try_)%nat && cancelled try_)%bool then ([], false) else
      let now := sock ← sockets; q ← qs; [(sock, datagram q)] in
      let '(later, done) := send_tries cancelled sockets qs (Datatypes.S try_) more in
      (now ++ later, done)
  end.

Inductive lookup_result : Type :=
| LookupFailed (e : option wire_error)
| LookupCancelled
| LookupAnswers (a : list Answer).

Definition lookup {K : Type} (openSockets : Protocol -> Shape -> option (list K))
    (cancelled : nat -> bool) (mac : string -> string) (arrived : list arrival)
    (proto : Protocol) (name : bytes) (shape : Shape) (r : R) :
    list (K * bytes) * lookup_result * R :=
  let '(built, r) := buildQuestions proto name shape r in
  match built with
  | Err e => ([], LookupFailed (Some e), r)
  | Ok qs =>
      let '(count, gap) := tries proto shape in
      if (count <=? 0) || bool_decide (qs = []) then ([], LookupFailed None, r) else
      match openSockets proto shape with
      | None => ([], LookupFailed None, r)
      | Some sockets =>
          let record := mkAsked name proto (list_to_set (qid <$> qs)) in
          let '(sent, done) := send_tries cancelled sockets qs 0 (Z.to_nat count) in
          (sent, if (done : bool) then LookupAnswers (collectAnswers mac record arrived)
                 else LookupCancelled, r)
      end
  end.

(** ** Lemmas *)

Definition encoded_labels (ls : list bytes) : bytes := concat ((fun l => zlen l :: l) <$> ls).

Definition good_label (l : bytes) : Prop := 0 < zlen l <= maxLabelLen.

Lemma encodeLabels_loop_ok ls : forall out,
  Forall good_label ls -> encodeLabels_loop ls out = Ok (out ++ encoded_labels ls).
Proof.
  induction ls as [|l ls IH]; intros out Hls; [by rewrite app_nil_r|].
  apply Forall_cons in Hls as [[Hpos Hmax] Hls]. cbn [encodeLabels_loop].
  rewrite bool_decide_eq_false_2 by (by intros ->).
  destruct (_ <? zlen l) eqn:E; go_bools; [lia|]. rewrite IH by done.
  rewrite wrap_u_small by (unfold in_u, maxLabelLen in *; lia).
  unfold encoded_labels. by rewrite fmap_cons, <- app_assoc.
Qed.

Lemma encodeLabels_ok ls :
  ls ≠ [] -> Forall good_label ls -> encodeLabels ls = Ok (encoded_labels ls ++ [0]).
Proof.
  intros Hne Hls. unfold encodeLabels. rewrite encodeLabels_loop_ok by done. cbn [rbind app].
  destruct ls as [|l ls]; [done|]. unfold encoded_labels at 1. rewrite fmap_cons. cbn [concat app].
  rewrite zlen_cons. destruct (_ =? 0) eqn:E; go_bools; [|done].
  pose proof (zlen_nonneg (l ++ concat ((fun l => zlen l :: l) <$> ls))). lia.
Qed.

(** Encoded labels are read back where they stand. *)
Lemma name_at_encoded ls : forall p s,
  Forall good_label ls ->
  name_at (p ++ encoded_labels ls ++ 0 :: s) (zlen p) ls 0
    (zlen (encoded_labels ls)) (zlen p + zlen (encoded_labels ls) + 1).
Proof.
  induction ls as [|l ls IH]; intros p s Hls.
  { unfold encoded_labels. simpl. change (zlen []) with 0. rewrite Z.add_0_r.
    constructor. apply at_app_mid. }
  apply Forall_cons in Hls as [[Hpos Hmax] Hls].
  assert (encoded_labels (l :: ls) = zlen l :: l ++ encoded_labels ls) as Henc by done.
  assert (p ++ encoded_labels (l :: ls) ++ 0 :: s =
          (p ++ zlen l :: l) ++ encoded_labels ls ++ 0 :: s) as Heq.
  { rewrite Henc. simpl. by rewrite <- !app_assoc. }
  assert (zlen (p ++ zlen l :: l) = zlen p + 1 + zlen l) as Hp.
  { rewrite zlen_app, zlen_cons. lia. }
  assert (slice (p ++ encoded_labels (l :: ls) ++ 0 :: s) (zlen p + 1) (zlen p + 1 + zlen l) = l) as Hsl.
  { assert (p ++ encoded_labels (l :: ls) ++ 0 :: s =
            (p ++ [zlen l]) ++ l ++ (encoded_labels ls ++ 0 :: s)) as ->.
    { rewrite Henc. simpl. by rewrite <- !app_assoc. }
    replace (zlen p + 1) with (zlen (p ++ [zlen l])) by (rewrite zlen_app; done).
    apply slice_app_mid. }
  assert (zlen p + zlen (encoded_labels (l :: ls)) + 1 =
          zlen (p ++ zlen l :: l) + zlen (encoded_labels ls) + 1) as He.
  { rewrite Henc, zlen_cons, !zlen_app, zlen_cons. lia. }
  pose proof (name_label (p ++ encoded_labels (l :: ls) ++ 0 :: s) (zlen p) (zlen l) ls 0
    (zlen (encoded_labels ls)) (zlen p + zlen (encoded_labels (l :: ls)) + 1)) as Hn.
  rewrite Hsl in Hn. replace (zlen (encoded_labels (l :: ls))) with (zlen (encoded_labels ls) + (zlen l + 1)) at 1
    by (rewrite Henc, zlen_cons, zlen_app; lia).
  apply Hn.
  - rewrite Henc. apply at_app_mid.
  - unfold maxLabelLen in *. lia.
  - rewrite Heq, zlen_app, Hp. pose proof (zlen_nonneg (encoded_labels ls ++ 0 :: s)). lia.
  - rewrite Heq, <- Hp, He. by apply IH.
Qed.

Lemma header_words id fl qd an s :
  in_u 16 id -> in_u 16 fl -> in_u 16 qd -> in_u 16 an ->
  let b := put_u16 id ++ put_u16 fl ++ put_u16 qd ++ put_u16 an ++ s in
  get_u16 b 0 = id /\ get_u16 b 2 = fl /\ get_u16 b 4 = qd /\ get_u16 b 6 = an.
Proof.
  intros ? ? ? ? b. split_and!.
  - by apply (get_u16_put []).
  - by apply (get_u16_put (put_u16 id)).
  - unfold b. rewrite app_assoc. by apply (get_u16_put (put_u16 id ++ put_u16 fl)).
  - unfold b. rewrite app_assoc, app_assoc.
    by apply (get_u16_put ((put_u16 id ++ put_u16 fl) ++ put_u16 qd)).
Qed.

(** What answers a question: its id in a response's header, and its question
    section repeated before the answers. *)
Definition answer_to (q : question) (flags an ns ar : Z) (rest : bytes) : bytes :=
  put_u16 (qid q) ++ put_u16 flags ++ put_u16 1 ++ put_u16 an ++ put_u16 ns ++ put_u16 ar ++
  drop 12 (datagram q) ++ rest.

Lemma drop_dnsQuery id flags qname qtype qclass :
  drop 12 (dnsQuery id flags qname qtype qclass) = qname ++ put_u16 qtype ++ put_u16 qclass.
Proof.
  unfold dnsQuery. rewrite !app_assoc. rewrite <- !(app_assoc _ _ (put_u16 qclass)), <- (app_assoc _ qname).
  by apply drop_app_length'.
Qed.

Lemma zlen_dnsQuery id flags qname qtype qclass :
  zlen (dnsQuery id flags qname qtype qclass) = 16 + zlen qname.
Proof. unfold dnsQuery. rewrite !zlen_app, !zlen_put_u16. lia. Qed.

(** The header of an answer, and the rest of it. *)
Definition answer_header (q : question) (flags an ns ar : Z) : bytes :=
  put_u16 (qid q) ++ put_u16 flags ++ put_u16 1 ++ put_u16 an ++ put_u16 ns ++ put_u16 ar.

Lemma answer_to_split q flags an ns ar rest :
  answer_to q flags an ns ar rest =
    answer_header q flags an ns ar ++ drop 12 (datagram q) ++ rest.
Proof. unfold answer_to, answer_header. by rewrite <- !app_assoc. Qed.

Lemma zlen_answer_header q flags an ns ar : zlen (answer_header q flags an ns ar) = dnsHeaderLen.
Proof. unfold answer_header. by rewrite !zlen_app, !zlen_put_u16. Qed.

Lemma answer_header_wf q flags an ns ar : wf_bytes (answer_header q flags an ns ar).
Proof. unfold answer_header, put_u16. rewrite !Forall_app. auto 10 with go. Qed.

(** A response's header, as both readers see it. *)
Definition answering (q : question) (flags an : Z) : Prop :=
  in_u 16 (qid q) /\ in_u 16 flags /\ 0 < an < 2 ^ 16 /\ Z.land flags headerFlagResponse ≠ 0.

Lemma answer_words q flags an ns ar rest :
  answering q flags an ->
  let b := answer_to q flags an ns ar rest in
  get_u16 b 0 = qid q /\ get_u16 b 2 = flags /\ get_u16 b 4 = 1 /\ get_u16 b 6 = an.
Proof. intros (? & ? & ? & _). apply header_words; unfold in_u in *; lia. Qed.

Lemma answer_parseHeader q flags an ns ar rest :
  answering q flags an -> zlen (answer_to q flags an ns ar rest) <= MaxDatagramLen ->
  parseHeader (answer_to q flags an ns ar rest) =
    Ok (mkHeader (qid q) flags 1 an, dnsHeaderLen).
Proof.
  intros Ha Hlen. destruct (answer_words q flags an ns ar rest Ha) as (H1 & H2 & H3 & H4).
  rewrite parseHeader_spec, H1, H2, H3, H4. destruct Ha as (_ & _ & _ & Hr).
  destruct (_ <? zlen _) eqn:E; go_bools; [lia|]. rewrite answer_to_split in *.
  destruct (zlen _ <? _) eqn:E2; go_bools.
  { rewrite zlen_app, zlen_answer_header in E2.
    pose proof (zlen_nonneg (drop 12 (datagram q) ++ rest)). lia. }
  by apply Z.eqb_neq in Hr as ->.
Qed.

Lemma dns_answer_parsed q flags an ns ar rest ls id' fl' qt qc :
  answering q flags an -> Forall good_label ls -> Forall wf_bytes ls ->
  zlen (encoded_labels ls) <= maxNameLen ->
  datagram q = dnsQuery id' fl' (encoded_labels ls ++ [0]) qt qc -> wf_bytes rest ->
  zlen (answer_to q flags an ns ar rest) <= MaxDatagramLen ->
  parseDNSReply (answer_to q flags an ns ar rest) = Ok (mkReply (qid q) (trimLocal (dotted ls)) an).
Proof.
  intros Ha Hls Hwf Hmax Hd Hrest Hlen. set (b := answer_to _ _ _ _ _ _) in *.
  set (qtc := put_u16 qt ++ put_u16 qc).
  assert (b = answer_header q flags an ns ar ++ encoded_labels ls ++ 0 :: qtc ++ rest) as Hb.
  { unfold b. rewrite answer_to_split, Hd, drop_dnsQuery. unfold qtc.
    by rewrite <- !app_assoc. }
  assert (wf_bytes (encoded_labels ls)) as Henc.
  { unfold encoded_labels. apply Forall_concat, Forall_fmap, Forall_forall. intros l Hl.
    eapply Forall_forall in Hls, Hwf; [|done..]. simpl. constructor; [|done].
    unfold good_label, maxLabelLen, is_byte in *. lia. }
  apply parseDNSReply_complete.
  { rewrite Hb. apply Forall_app. split; [apply answer_header_wf|]. apply Forall_app. split; [done|].
    constructor; [done|]. unfold qtc, put_u16. rewrite !Forall_app. auto with go. }
  destruct (answer_words q flags an ns ar rest Ha) as (H1 & H2 & H3 & H4). fold b in H1, H2, H3, H4.
  unfold dns_reply_at. rewrite H1, H2, H3, H4.
  pose proof (name_at_encoded ls (answer_header q flags an ns ar) (qtc ++ rest) Hls) as Hat.
  rewrite <- Hb, zlen_answer_header in Hat.
  split; [|split; [apply Ha|split; [by left|]]].
  - split; [|done]. pose proof (name_at_bounds _ _ _ _ _ _ Hat). lia.
  - eexists ls, 0, _, _. split; [exact Hat|]. split; [done|]. split; [done|]. split; [|done].
    rewrite Hb, !zlen_app, zlen_cons, zlen_answer_header, !zlen_app.
    unfold qtc. rewrite zlen_app, !zlen_put_u16. pose proof (zlen_nonneg rest). lia.
Qed.

Lemma nbns_answer_parsed q flags an ns ar rest upper id' fl' qt qc :
  answering q flags an ->
  wf_bytes upper -> Forall (fun c => c ≠ 32) upper -> zlen upper <= nbnsNamePadLen ->
  datagram q = dnsQuery id' fl'
    ([nbnsEncodedLen] ++ concat (nibbles <$> netbios_raw upper nbnsSuffixWorkstation) ++ [0]) qt qc ->
  zlen (answer_to q flags an ns ar rest) <= MaxDatagramLen ->
  parseNBNSReply (answer_to q flags an ns ar rest) = Ok (mkReply (qid q) (ToLower upper) an).
Proof.
  intros Ha Hwf Hsp Hlen Hd Hmax. unfold parseNBNSReply.
  rewrite answer_parseHeader by done. cbn [rbind questions answers hdrID]. simpl (1 <? 1). cbv iota.
  set (enc := concat (nibbles <$> netbios_raw upper nbnsSuffixWorkstation)) in *.
  assert (zlen enc = nbnsEncodedLen) as Henc.
  { unfold enc. by rewrite zlen_nibbles, netbios_raw_len by done. }
  set (hd := answer_header q flags an ns ar). set (tl := put_u16 qt ++ put_u16 qc ++ rest).
  assert (answer_to q flags an ns ar rest = hd ++ nbnsEncodedLen :: enc ++ 0 :: tl) as ->.
  { rewrite answer_to_split, Hd, drop_dnsQuery. unfold tl. simpl. by rewrite <- !app_assoc. }
  assert (zlen hd = dnsHeaderLen) as Hhd by apply zlen_answer_header.
  assert (readNBNSNameField (hd ++ nbnsEncodedLen :: enc ++ 0 :: tl) dnsHeaderLen =
          Ok (enc, dnsHeaderLen + 1 + nbnsEncodedLen + 1)) as ->.
  2: { cbn [rbind]. unfold enc. rewrite decode_netbios_raw; done. }
  unfold readNBNSNameField. rewrite <- Hhd.
  set (b := hd ++ nbnsEncodedLen :: enc ++ 0 :: tl).
  assert (zlen b = zlen hd + 1 + nbnsEncodedLen + 1 + zlen tl) as Hb.
  { unfold b. rewrite zlen_app, zlen_cons, zlen_app, zlen_cons, Henc. lia. }
  pose proof (zlen_nonneg tl) as Htl. pose proof (zlen_nonneg hd) as Hhd0.
  unfold nbnsEncodedLen, nbnsNameLen in Hb.
  destruct (zlen b <=? zlen hd) eqn:E; go_bools; [lia|].
  assert (byte_at b (zlen hd) = Ok nbnsEncodedLen) as ->.
  { unfold byte_at, b. by rewrite at_app_mid. }
  cbn [rbind]. change (Z.land nbnsEncodedLen compressionMask =? compressionMask) with false.
  cbn [rbind]. unfold byte_at, b at 1. rewrite at_app_mid. fold b. cbn [rbind].
  rewrite Z.eqb_refl. simpl negb. cbv iota.
  destruct (zlen b <? zlen hd + 1 + nbnsEncodedLen) eqn:E2; go_bools.
  { unfold nbnsEncodedLen, nbnsNameLen in *. lia. }
  simpl (0 =? 0). cbv iota.
  assert (b = (hd ++ [nbnsEncodedLen]) ++ enc ++ 0 :: tl) as Hb2 by (unfold b; by rewrite <- app_assoc).
  assert (zlen (hd ++ [nbnsEncodedLen]) = zlen hd + 1) as Hp by (by rewrite zlen_app).
  destruct (zlen b <=? zlen hd + 1 + nbnsEncodedLen) eqn:E3; go_bools.
  { unfold nbnsEncodedLen, nbnsNameLen in *. lia. }
  assert (at_ b (zlen hd + 1 + nbnsEncodedLen) = Some 0) as ->.
  { rewrite Hb2, app_assoc, <- Hp, <- Henc, <- zlen_app. apply at_app_mid. }
  cbn [rbind]. simpl negb. cbv iota. do 2 f_equal.
  rewrite Hb2, <- Hp, <- Henc. apply slice_app_mid.
Qed.

(** ** The questions built for a usable name *)

Lemma bait_name_label name : bait_name name -> good_label name /\ wf_bytes name.
Proof.
  intros ([Hpos Hlen] & Hc & _). unfold maxBaitNameLen, nbnsNamePadLen in *.
  split; [unfold good_label, maxLabelLen; lia|].
  eapply Forall_impl; [done|]. intros c [Hb _]%bait_char_bounds. unfold is_byte. lia.
Qed.

Lemma bait_name_lower name : bait_name name -> lowerASCII name = name.
Proof.
  intros (_ & Hc & _). unfold lowerASCII. induction Hc as [|c l Hc Hl IH]; [done|].
  rewrite fmap_cons, IH, lower_byte_id by apply (bait_char_bounds _ Hc). done.
Qed.

Lemma bait_name_upper name :
  bait_name name ->
  let upper := upper_byte <$> name in
  ToUpper name = upper /\ ToLower upper = name /\ wf_bytes upper /\
  Forall (fun c => c ≠ 32) upper /\ zlen upper = zlen name.
Proof.
  intros (_ & Hc & _) upper.
  assert (forall c, bait_char c = true -> 45 <= upper_byte c <= 95) as Hb.
  { intros c Hcc. unfold upper_byte. unfold bait_char, is_lower, is_digit in *.
    apply orb_true_iff in Hcc as [[Hcc|Hcc]%orb_true_iff|Hcc].
    - rewrite Hcc. go_bools. lia.
    - go_bools. destruct (_ && _)%bool eqn:E; go_bools; lia.
    - go_bools. subst. simpl. lia. }
  assert (Forall (fun c => 45 <= c <= 95) upper) as Hu.
  { apply Forall_fmap. eapply Forall_impl; [done|]. intros c. apply Hb. }
  split_and!.
  - apply ToUpper_ascii. eapply Forall_impl; [done|]. intros c [? _]%bait_char_bounds. lia.
  - rewrite ToLower_ascii by (eapply Forall_impl; [done|]; simpl; lia).
    unfold upper. clear Hu upper. induction Hc as [|c l Hcc Hl IH]; [done|].
    rewrite !fmap_cons, IH, lower_upper_byte by apply (bait_char_bounds _ Hcc). done.
  - eapply Forall_impl; [done|]. unfold is_byte. simpl. lia.
  - eapply Forall_impl; [done|]. simpl. lia.
  - unfold upper, zlen. by rewrite length_fmap.
Qed.

Lemma trimLocal_bait name : bait_name name -> trimLocal name = name.
Proof.
  intros (_ & Hc & _). unfold trimLocal, TrimSuffix. rewrite decide_False; [done|].
  intros [k ->]. apply Forall_app in Hc as [_ [Hd _]%Forall_cons]. done.
Qed.

(** What a question of each protocol looks like. *)
Definition question_shape (proto : Protocol) (name : bytes) (q : question) : Prop :=
  in_u 16 (qid q) /\
  match proto with
  | ProtocolLLMNR => exists qt, datagram q =
      dnsQuery (qid q) llmnrQueryFlags (encoded_labels [name] ++ [0]) qt classIN
  | ProtocolMDNS => exists qt qc, datagram q =
      dnsQuery mdnsQueryID mdnsQueryFlags (encoded_labels [name; mdnsTopLevelDomain] ++ [0]) qt qc
  | ProtocolNBNS => datagram q =
      dnsQuery (qid q) nbnsBroadcastQueryFlags
        ([nbnsEncodedLen] ++
         concat (nibbles <$> netbios_raw (upper_byte <$> name) nbnsSuffixWorkstation) ++ [0])
        nbnsTypeNB classIN
  | ProtocolOther _ => False
  end.

Lemma local_label : good_label mdnsTopLevelDomain /\ wf_bytes mdnsTopLevelDomain.
Proof. split; [by vm_compute|]. apply lit_wf. Qed.

Lemma u16_in x : in_u 16 (u16 x).
Proof. by apply wrap_u_range. Qed.

Lemma buildQuestions_shape proto name shape r :
  bait_name name -> (forall s, proto ≠ ProtocolOther s) ->
  exists qs r', buildQuestions proto name shape r = (Ok qs, r') /\ qs ≠ [] /\
    Forall (question_shape proto name) qs.
Proof.
  intros Hn Hp. destruct (bait_name_label name Hn) as [Hg Hwf].
  destruct proto as [| | |s]; [| | |by destruct (Hp s)]; cbn [buildQuestions].
  - cbn [llmnr_questions]. unfold encodeLLMNRQuery. rewrite encodeLabels_ok by (done || by rewrite !Forall_cons, Forall_nil).
    cbn [rbind]. destruct (Uint32 r) as [x1 r1]. destruct (Uint32 r1) as [x2 r2].
    eexists _, _. split; [reflexivity|]. split; [done|].
    cbn [app]. rewrite !Forall_cons, Forall_nil. unfold question_shape. simpl.
    split_and!; try apply u16_in; eauto.
  - destruct (Uint32 r) as [x r1]. unfold encodeNBNSQuery, encodeNBNSName.
    rewrite bool_decide_eq_false_2 by (intros ->; by destruct Hg).
    destruct (bait_name_upper name Hn) as (-> & _ & _ & _ & Hl).
    destruct (_ <? zlen _) eqn:E; go_bools.
    { rewrite Hl in E. destruct Hn as ([_ ?] & _). unfold maxBaitNameLen in *. lia. }
    cbn [rbind]. eexists _, _. split; [reflexivity|]. split; [done|].
    constructor; [|constructor]. split; [apply u16_in|reflexivity].
  - destruct local_label. cbn [mdns_questions]. unfold encodeMDNSQuery.
    rewrite encodeLabels_ok by (done || by rewrite !Forall_cons, Forall_nil). cbn [rbind].
    eexists _, _. split; [reflexivity|]. split; [done|].
    assert (in_u 16 mdnsQueryID) by (by vm_compute).
    cbn [app]. rewrite !Forall_cons, Forall_nil. unfold question_shape. simpl. split_and!; eauto.
Qed.

(** A question's datagram fits the cap, and every answer to it is read as a
    reply with its id and the name asked. *)
Lemma question_answered proto name q :
  bait_name name -> question_shape proto name q ->
  zlen (datagram q) <= MaxDatagramLen /\
  forall flags an ns ar rest,
    in_u 16 flags -> Z.land flags headerFlagResponse ≠ 0 -> 0 < an < 2 ^ 16 -> wf_bytes rest ->
    zlen (answer_to q flags an ns ar rest) <= MaxDatagramLen ->
    parseReplyFor proto (answer_to q flags an ns ar rest) = Ok (mkReply (qid q) name an).
Proof.
  intros Hn [Hid Hq]. destruct (bait_name_label name Hn) as [Hg Hwf]. destruct local_label as [Hlg Hlw].
  assert (zlen name <= 15) as Hn15 by apply Hn.
  assert (zlen (encoded_labels [name]) = zlen name + 1) as Hz1.
  { unfold encoded_labels. simpl. rewrite app_nil_r, zlen_cons. lia. }
  assert (zlen (encoded_labels [name; mdnsTopLevelDomain]) = zlen name + 7) as Hz2.
  { unfold encoded_labels. simpl. rewrite zlen_cons, zlen_app. change (zlen (_ :: _)) with 6 at 1. lia. }
  unfold parseReplyFor. destruct proto as [| | |s]; [| | |done].
  - destruct Hq as [qt Hd]. split.
    { rewrite Hd, zlen_dnsQuery, zlen_app, Hz1. change (zlen [0]) with 1. unfold MaxDatagramLen. lia. }
    intros flags an ns ar rest Hf Hr Han Hrest Hlen. rewrite decide_False by done.
    erewrite dns_answer_parsed; [|done|..|exact Hd|done|done].
    + unfold dotted. simpl. rewrite bait_name_lower, trimLocal_bait by done. done.
    + by constructor.
    + by constructor.
    + rewrite Hz1. unfold maxNameLen. lia.
  - split.
    { rewrite Hq, zlen_dnsQuery, !zlen_app, zlen_nibbles, netbios_raw_len; [by vm_compute|].
      destruct (bait_name_upper name Hn) as (_ & _ & _ & _ & ->). apply Hn. }
    intros flags an ns ar rest Hf Hr Han Hrest Hlen. rewrite decide_True by done.
    destruct (bait_name_upper name Hn) as (_ & Hl & ? & ? & Hz).
    erewrite nbns_answer_parsed; [|done..| |exact Hq|done]; [by rewrite Hl|].
    rewrite Hz. apply Hn.
  - destruct Hq as (qt & qc & Hd). split.
    { rewrite Hd, zlen_dnsQuery, zlen_app, Hz2. change (zlen [0]) with 1. unfold MaxDatagramLen. lia. }
    intros flags an ns ar rest Hf Hr Han Hrest Hlen. rewrite decide_False by done.
    erewrite dns_answer_parsed; [|done|..|exact Hd|done|done].
    + unfold dotted. simpl. rewrite bait_name_lower by done. do 2 f_equal.
      change (lowerASCII _) with mdnsTopLevelDomain. apply TrimSuffix_app.
    + by rewrite !Forall_cons, Forall_nil.
    + by rewrite !Forall_cons, Forall_nil.
    + rewrite Hz2. unfold maxNameLen. lia.
Qed.

(** ** Collecting *)

Lemma collect_loop_spec answers : forall seen out,
  (forall a, a ∈ out -> ansSource a ∈ seen) -> NoDup (ansSource <$> out) ->
  NoDup (ansSource <$> collect_loop answers seen out) /\
  (forall a, a ∈ collect_loop answers seen out -> a ∈ out \/ a ∈ answers) /\
  (forall s, s ∈ ansSource <$> collect_loop answers seen out <->
     s ∈ ansSource <$> out \/ s ∉ seen /\ s ∈ ansSource <$> answers).
Proof.
  induction answers as [|a answers IH]; intros seen out Hs Hnd; cbn [collect_loop].
  { split; [done|]. split; [by left|]. intros s. rewrite fmap_nil. set_solver. }
  destruct (decide (ansSource a ∈ seen)) as [Hin|Hnin].
  - destruct (IH seen out Hs Hnd) as (? & Hin' & Hs'). split; [done|].
    split; [intros x [?|?]%Hin'; [by left|by right; right]|].
    intros s. rewrite Hs', fmap_cons, elem_of_cons. naive_solver.
  - destruct (IH ({[ansSource a]} ∪ seen) (out ++ [a])) as (? & Hin' & Hs').
    { intros x [Hx| ->%list_elem_of_singleton]%elem_of_app; set_solver. }
    { rewrite fmap_app. apply NoDup_app. split; [done|]. split; [|apply NoDup_singleton].
      intros s (x & -> & Hx)%list_elem_of_fmap Hsx%list_elem_of_singleton. simpl in Hsx.
      apply Hs in Hx. congruence. }
    split; [done|]. split.
    + intros x [[?| ->%list_elem_of_singleton]%elem_of_app|?]%Hin'; [by left|right; by left|by right; right].
    + intros s. rewrite Hs', fmap_app, fmap_cons, elem_of_app, !fmap_cons, fmap_nil, list_elem_of_singleton, elem_of_cons.
      rewrite elem_of_union, elem_of_singleton.
      destruct (decide (s = ansSource a)) as [->|]; tauto.
Qed.

(** What is collected is said of the name and protocol asked. *)
Lemma collectAnswers_own mac record arrived a : a ∈ collectAnswers mac record arrived ->
  ansName a = askedName record /\ ansProtocol a = askedProto record /\ exists arr, arr ∈ arrived /\ arrHost arr = ansSource a.
Proof.
  destruct (collect_loop_spec (omap (read_answer mac record) arrived) ∅ []) as (_ & Hin & _);
    [by intros x ?%not_elem_of_nil|by constructor|].
  intros [?%not_elem_of_nil|(arr & Harr & Hread)%list_elem_of_omap]%Hin; [done|].
  unfold read_answer in Hread. destruct (parseReplyFor _ _); [|done].
  destruct (matches _ _); [|done]. injection Hread as <-. simpl. eauto.
Qed.

(** A lookup never misses an answer to its own question: for a usable
    name every question encodes, within the 512-byte cap, on each protocol;
    and whatever else arrives, each host one of whose datagrams answers one of
    the questions - any response flags, at least one answer record, any
    bytes after the question - is reported, once, with the name asked. *)
Theorem own_answers_recognised (mac : string -> string) (proto : Protocol) (name : bytes)
    (shape : Shape) (r : R) (arrived : list arrival) :
  bait_name name -> (forall s, proto ≠ ProtocolOther s) ->
  exists qs r', buildQuestions proto name shape r = (Ok qs, r') /\ qs ≠ [] /\
    let record := mkAsked name proto (list_to_set (qid <$> qs)) in
    let out := collectAnswers mac record arrived in
    NoDup (ansSource <$> out) /\
    (forall a, a ∈ out -> ansName a = name /\ ansProtocol a = proto /\
       exists arr, arr ∈ arrived /\ arrHost arr = ansSource a) /\
    forall q flags an ns ar rest arr,
      q ∈ qs -> in_u 16 flags -> Z.land flags headerFlagResponse ≠ 0 -> 0 < an < 2 ^ 16 ->
      wf_bytes rest -> zlen (answer_to q flags an ns ar rest) <= MaxDatagramLen ->
      arr ∈ arrived -> arrBytes arr = answer_to q flags an ns ar rest ->
      zlen (datagram q) <= MaxDatagramLen /\ arrHost arr ∈ ansSource <$> out.
Proof.
  intros Hn Hp. destruct (buildQuestions_shape proto name shape r Hn Hp) as (qs & r' & Hb & Hne & Hqs).
  exists qs, r'. split; [done|]. split; [done|]. intros record out.
  destruct (collect_loop_spec (omap (read_answer mac record) arrived) ∅ []) as (Hnd & Hin & Hs);
    [by intros a ?%not_elem_of_nil|by constructor|].
  split; [done|]. split.
  - intros a. apply collectAnswers_own.
  - intros q flags an ns ar rest arr Hq Hf Hr Han Hrest Hlen Harr Hbytes.
    eapply Forall_forall in Hqs; [|done].
    destruct (question_answered proto name q Hn Hqs) as [Hmax Hparse]. split; [done|].
    apply Hs. right. split; [set_solver|]. apply list_elem_of_fmap.
    exists (mkAnswer (arrHost arr) (arrPort arr) proto name (mac (arrHost arr)) (arrLocal arr) (arrLocalPort arr)).
    split; [done|]. apply list_elem_of_omap. exists arr. split; [done|].
    unfold read_answer. rewrite Hbytes, firstn_all2; [|unfold zlen in Hlen; lia].
    simpl askedProto. rewrite Hparse by done. unfold matches. simpl Answers.
    destruct (an =? 0) eqn:E; go_bools; [lia|]. simpl replyName. simpl askedName.
    rewrite (bool_decide_eq_true_2 (name = name)) by done. by destruct (_ && _)%bool.
Qed.
End query.

Definition ex_rand (r : Z) : Z * Z := (r, r + 1).
Definition ex_answer : bytes :=
  answer_to (mkQuestion 7 (dnsQuery 7 0 (encoded_labels [lit "wpad"] ++ [0]) 1 1)) 0x8000 1 0 0 [1; 2; 3].

Lemma own_answers_recognised_witness :
  exists out, out = collectAnswers (H := ascii_only) (fun _ => ""%string)
      (mkAsked (lit "wpad") ProtocolLLMNR {[7; 8]})
      [mkArrival "10.0.0.9" 5355 "10.0.0.2" 4000 ex_answer;
       mkArrival "10.0.0.8" 5355 "10.0.0.2" 4000 [1; 2; 3];
       mkArrival "10.0.0.9" 5355 "10.0.0.2" 4000 ex_answer] /\
    ansSource <$> out = ["10.0.0.9"%string] /\ NoDup (ansSource <$> out).
Proof.
  eexists. split; [reflexivity|]. split; [vm_compute; reflexivity|].
  destruct (own_answers_recognised (H := ascii_only) ex_rand (fun _ => ""%string) ProtocolLLMNR (lit "wpad")
    (shape_of ProfileWindows) 7
    [mkArrival "10.0.0.9" 5355 "10.0.0.2" 4000 ex_answer;
     mkArrival "10.0.0.8" 5355 "10.0.0.2" 4000 [1; 2; 3];
     mkArrival "10.0.0.9" 5355 "10.0.0.2" 4000 ex_answer]) as (qs & r' & Hb & _ & Hnd & _).
  - apply WPADName_valid.
  - intros s. discriminate.
  - injection Hb as <- _. exact Hnd.
Defined.
