(* ===== verification/Schedule.v ===== *)
(** When the bait sender asks, [internal/agent/poisoner/schedule.go] and the
    pace settings of [pace.go]: working hours, the canary's own rhythm and the
    gap that matches the segment's measured rate.

    A time is nanoseconds since Go's zero time; a duration is nanoseconds. The
    location of a time, which decides its weekday and minute of the day, is
    the class [Location]. The seeded generator is the class [Rand]. *)
From S2P Require Import Prelude GoBase GoStrings BaitNames.
#[local] Open Scope Z_scope.
#[local] Open Scope go_scope.

Definition Second : Z := 1000000000.
Definition Minute : Z := 60 * Second.
Definition Hour : Z := 60 * Minute.
Definition Day : Z := 24 * Hour.

(** [t.Weekday()] and [t.Hour()*60 + t.Minute()] in the location of [t]. *)
Class Location : Type := {
  weekday : Z -> Z;
  minute_of_day : Z -> Z;
}.

(** UTC; the zero time is a Monday. *)
Definition utc : Location := {|
  weekday t := (1 + t / Day) mod 7;
  minute_of_day t := (t / Minute) mod 1440;
|}.

(** [t.Truncate(d)] for [d > 0]. *)
Definition truncate (t d : Z) : Z := t - t mod d.

(** ** Working hours *)

Definition minutesPerDay : Z := 24 * 60.
Definition minutesPerHour : Z := 60.

Record WorkingHours : Type := mkHours { Start : Z; End : Z; Days : list bool }.

(** [w.Days[d]] *)
Definition on_day (ds : list bool) (d : Z) : bool := default false (ds !! Z.to_nat d).

Definition set_day (ds : list bool) (d : Z) : list bool := <[Z.to_nat d := true]> ds.

Definition no_days : list bool := replicate 7 false.

Definition weekdays (ds : list bool) : list bool := foldl set_day ds [1; 2; 3; 4; 5].

Definition DefaultWorkingHours : WorkingHours :=
  mkHours (8 * minutesPerHour) (18 * minutesPerHour) (weekdays no_days).

Definition AllHours : WorkingHours :=
  mkHours 0 minutesPerDay (foldl set_day no_days [0; 1; 2; 3; 4; 5; 6]).

Definition zero (w : WorkingHours) : bool := negb (existsb id (Days w)).

Inductive hours_error : Type := ErrHoursForm | ErrClock | ErrNoWindow | ErrWeekday | ErrNoDays.

Definition parseClock `{Unicode} (raw : bytes) : res hours_error Z :=
  let '(hourText, minuteText, ok) := Cut (TrimSpace raw) 58 in
  if negb ok then Err ErrClock else
  match Atoi hourText with
  | None => Err ErrClock
  | Some hour =>
      match Atoi minuteText with
      | None => Err ErrClock
      | Some minute =>
          if (hour <? 0) || (24 <? hour) || (minute <? 0) || (59 <? minute) ||
             (minutesPerDay <? hour * minutesPerHour + minute)
          then Err ErrClock
          else Ok (hour * minutesPerHour + minute)
      end
  end.

Definition parseWeekday `{Unicode} (raw : bytes) : res hours_error Z :=
  let s := ToLower (TrimSpace raw) in
  if bool_decide (s = lit "sun") then Ok 0
  else if bool_decide (s = lit "mon") then Ok 1
  else if bool_decide (s = lit "tue") then Ok 2
  else if bool_decide (s = lit "wed") then Ok 3
  else if bool_decide (s = lit "thu") then Ok 4
  else if bool_decide (s = lit "fri") then Ok 5
  else if bool_decide (s = lit "sat") then Ok 6
  else Err ErrWeekday.

Fixpoint parseDays `{Unicode} (fields : list bytes) (ds : list bool) : res hours_error (list bool) :=
  match fields with
  | [] => Ok ds
  | field :: rest =>
      let? day := parseWeekday field in
      parseDays rest (set_day ds day)
  end.

Definition ParseWorkingHours `{Unicode} (raw : bytes) : res hours_error WorkingHours :=
  let raw := TrimSpace raw in
  if bool_decide (raw = []) then Ok DefaultWorkingHours else
  let '(window, dayList, hasDays) := Cut raw 47 in
  let '(startText, endText, ok) := Cut (TrimSpace window) 45 in
  if negb ok then Err ErrHoursForm else
  let? start := parseClock startText in
  let? end_ := parseClock endText in
  if start =? end_ then Err ErrNoWindow else
  if negb hasDays then Ok (mkHours start end_ (weekdays no_days)) else
  let? ds := parseDays (Split dayList 44) no_days in
  let w := mkHours start end_ ds in
  if zero w then Err ErrNoDays else Ok w.

Definition Contains `{Location} (w : WorkingHours) (t : Z) : bool :=
  if zero w then false else
  let minute := minute_of_day t in
  if Start w <? End w then
    on_day (Days w) (weekday t) && (Start w <=? minute) && (minute <? End w)
  else if Start w <=? minute then on_day (Days w) (weekday t)
  else on_day (Days w) ((weekday t + 6) mod 7) && (minute <? End w).

Fixpoint next_start_loop `{Location} (w : WorkingHours) (at_ : Z) (more : nat) : option Z :=
  match more with
  | O => None
  | S more => if Contains w at_ then Some at_ else next_start_loop w (at_ + Minute) more
  end.

Definition NextStart `{Location} (w : WorkingHours) (t : Z) : Z :=
  if zero w then t + 7 * 24 * Hour else
  match next_start_loop w (truncate t Minute) (Z.to_nat (8 * minutesPerDay + 1)) with
  | Some at_ => at_
  | None => t + 7 * 24 * Hour
  end.

(** Go's integer division truncates towards zero. *)
Definition DailySpan (w : WorkingHours) : Z :=
  let span := End w - Start w in
  let span := if span <? 0 then span + minutesPerDay else span in
  let days := zlen (filter (fun on : bool => on = true) (Days w)) in
  if (days =? 0) || (span <=? 0) then 0 else (span * Minute * days) ÷ 7.

(** ** Pace settings *)

Record PaceSettings : Type := mkPace { FloorGap : Z; CeilingGap : Z; Hours : WorkingHours }.

Definition DefaultFloorGap : Z := 2 * Hour.
Definition DefaultCeilingGap : Z := 30 * Minute.
Definition minTalkingHosts : Z := 3.
Definition MinCeilingGap : Z := Second.
Definition minBurstLookups : Z := 2.
Definition maxBurstLookups : Z := 5.
Definition burstSpread : Z := Minute.

Definition DefaultPaceSettings : PaceSettings :=
  mkPace DefaultFloorGap DefaultCeilingGap DefaultWorkingHours.

Definition normalise (s : PaceSettings) : PaceSettings :=
  let floor := if FloorGap s <=? 0 then DefaultFloorGap else FloorGap s in
  let ceiling := if CeilingGap s <=? 0 then DefaultCeilingGap else CeilingGap s in
  let ceiling := if ceiling <? MinCeilingGap then MinCeilingGap else ceiling in
  let ceiling := if floor <? ceiling then floor else ceiling in
  mkPace floor ceiling (if zero (Hours s) then DefaultWorkingHours else Hours s).

Definition matchedGap (queries hosts : Z) (s : PaceSettings) : Z :=
  let s := normalise s in
  if (hosts <? minTalkingHosts) || (queries <=? 0) then FloorGap s else
  let working := DailySpan (Hours s) in
  if working <=? 0 then FloorGap s else
  let burstsPerDay := i64 (2 * queries) ÷ (minBurstLookups + maxBurstLookups) in
  if burstsPerDay <=? 0 then FloorGap s else
  let gap := working ÷ burstsPerDay in
  if FloorGap s <? gap then FloorGap s
  else if gap <? CeilingGap s then CeilingGap s
  else gap.

(** ** The canary's own rhythm *)

(** The generator: [draw n] is [Int64N(n)] and [IntN(n)], which panic unless
    [n] is positive. *)
Class Rand (R : Type) : Type := {
  draw : Z -> R -> Z * R;
  draw_range n r : 0 < n -> 0 <= (draw n r).1 < n;
}.

Definition draw_checked `{Rand R} (n : Z) (r : R) : option (Z * R) :=
  if n <=? 0 then None else Some (draw n r).

Definition jitterFraction : Z := 4.
Definition startupDelayMax : Z := 3 * Minute.

Definition BurstSize `{Rand R} (r : R) : option (Z * R) :=
  match draw_checked (maxBurstLookups - minBurstLookups + 1) r with
  | None => None
  | Some (x, r) => Some (minBurstLookups + x, r)
  end.

Fixpoint burst_gaps_loop `{Rand R} (more : nat) (widest : Z) (r : R) (gaps : list Z) :
    option (list Z * R) :=
  match more with
  | O => Some (gaps, r)
  | S more =>
      match draw_checked widest r with
      | None => None
      | Some (x, r) => burst_gaps_loop more widest r (gaps ++ [x])
      end
  end.

Definition BurstGaps `{Rand R} (n : Z) (r : R) : option (list Z * R) :=
  if n <=? 1 then Some ([], r)
  else burst_gaps_loop (Z.to_nat (n - 1)) (burstSpread ÷ maxBurstLookups) r [].

Definition Jitter `{Rand R} (gap : Z) (settings : PaceSettings) (r : R) : option (Z * R) :=
  let settings := normalise settings in
  let swing := gap ÷ jitterFraction in
  let drawn :=
    if 0 <? swing then
      match draw_checked (i64 (2 * swing)) r with
      | None => None
      | Some (x, r) => Some (i64 (gap + (x - swing)), r)
      end
    else Some (gap, r) in
  match drawn with
  | None => None
  | Some (gap, r) =>
      let gap := if FloorGap settings <? gap then FloorGap settings else gap in
      let gap := if gap <? CeilingGap settings then CeilingGap settings else gap in
      Some (gap, r)
  end.

Definition StartupDelay `{Rand R} (settings : PaceSettings) (r : R) : option (Z * R) :=
  let settings := normalise settings in
  let longest := startupDelayMax in
  let longest := if FloorGap settings <? longest then FloorGap settings else longest in
  if longest <=? 0 then Some (0, r) else draw_checked longest r.

(** [names[s.rand.IntN(len(names))]]: [None] is a panic. *)
Definition NextName `{Rand R} (names : list bytes) (r : R) : option (bytes * R) :=
  if zlen names =? 0 then Some ([], r) else
  match draw_checked (zlen names) r with
  | None => None
  | Some (x, r) =>
      match names !! Z.to_nat x with
      | None => None
      | Some n => Some (n, r)
      end
  end.

(** ** Working hours as shifts *)

(** The values [ParseWorkingHours] can return. *)
Record hours_wf (w : WorkingHours) : Prop := {
  hw_start : 0 <= Start w <= minutesPerDay;
  hw_end : 0 <= End w <= minutesPerDay;
  hw_differ : Start w ≠ End w;
  hw_days : length (Days w) = 7%nat;
  hw_some : zero w = false;
}.

(** How long a shift is, in minutes. *)
Definition span (w : WorkingHours) : Z :=
  let s := End w - Start w in if s <? 0 then s + minutesPerDay else s.

Definition minutesPerWeek : Z := 7 * minutesPerDay.

(** The minute [m] of the week lies in the shift that starts on day [d]. *)
Definition in_shift (w : WorkingHours) (d m : Z) : Prop :=
  on_day (Days w) d = true /\ 0 <= d < 7 /\
  (m - (d * minutesPerDay + Start w)) mod minutesPerWeek < span w.

(** The week the location's weekday and minute of the day make. *)
Definition minute_of_week `{Location} (t : Z) : Z := weekday t * minutesPerDay + minute_of_day t.

(** The part of a location that the calendar guarantees. *)
Definition location_wf `{Location} : Prop :=
  forall t, 0 <= weekday t < 7 /\ 0 <= minute_of_day t < minutesPerDay.

Lemma set_day_length ds d : length (set_day ds d) = length ds.
Proof. apply length_insert. Qed.

Lemma parseWeekday_range `{Unicode} raw d : parseWeekday raw = Ok d -> 0 <= d < 7.
Proof.
  unfold parseWeekday. intros Hd. repeat (case_bool_decide; [injection Hd as <-; lia|]). done.
Qed.

Lemma parseDays_length `{Unicode} fields : forall ds ds',
  parseDays fields ds = Ok ds' -> length ds' = length ds.
Proof.
  induction fields as [|f fields IH]; simpl; intros ds ds' Hd; [by injection Hd as <-|].
  inv_ok. apply IH in Hd. by rewrite Hd, set_day_length.
Qed.

Lemma parseClock_range `{Unicode} raw m : parseClock raw = Ok m -> 0 <= m <= minutesPerDay.
Proof.
  unfold parseClock. intros Hm. repeat case_match; try done. injection Hm as <-. go_bools.
  unfold minutesPerHour in *. lia.
Qed.

Lemma DefaultWorkingHours_wf : hours_wf DefaultWorkingHours.
Proof. split; vm_compute; intuition discriminate. Qed.

Lemma ParseWorkingHours_wf `{Unicode} raw w : ParseWorkingHours raw = Ok w -> hours_wf w.
Proof.
  unfold ParseWorkingHours. intros Hw.
  destruct (bool_decide _); [injection Hw as <-; apply DefaultWorkingHours_wf|].
  destruct (Cut _ 47) as [[window dayList] hasDays].
  destruct (Cut _ 45) as [[startText endText] ok]. destruct ok; [|done]. simpl negb in Hw. cbv iota in Hw.
  apply rbind_ok in Hw as (s & Hs%parseClock_range & Hw).
  apply rbind_ok in Hw as (e & He%parseClock_range & Hw).
  destruct (s =? e) eqn:Hse; [done|]. go_bools.
  destruct hasDays; simpl negb in Hw; cbv iota in Hw.
  - apply rbind_ok in Hw as (ds & Hds%parseDays_length & Hw).
    destruct (zero _) eqn:Hz; [done|]. injection Hw as <-. by split.
  - injection Hw as <-. by split.
Qed.

(** [x mod m = r] from the quotient. *)
Lemma mod_is x m q r : 0 <= r < m -> x = m * q + r -> x mod m = r.
Proof. intros. symmetry. by apply Z.mod_unique_pos with q. Qed.

(** A window is open in exactly the shifts that start on its days. *)
Lemma Contains_shift `{Location} w t :
  location_wf -> hours_wf w ->
  Contains w t = true <-> exists d, in_shift w d (minute_of_week t).
Proof.
  intros HL [Hs He Hd Hlen Hz]. destruct (HL t) as [Hwd Hmin].
  unfold Contains, in_shift, minute_of_week. rewrite Hz.
  set (d0 := weekday t) in *. set (m := minute_of_day t) in *.
  assert (forall d, 0 <= d < 7 ->
    (d0 * minutesPerDay + m - (d * minutesPerDay + Start w)) mod minutesPerWeek < span w <->
    (d = d0 /\ Start w <= m < Start w + span w) \/
    (d = (d0 + 6) mod 7 /\ m + minutesPerDay < Start w + span w /\ Start w <= m + minutesPerDay))
    as Hshift.
  { intros d Hdr. assert (0 <= span w < minutesPerDay \/ span w = minutesPerDay) as Hspan.
    { unfold span, minutesPerDay in *. destruct (_ <? 0) eqn:?; go_bools; lia. }
    assert (Start w + span w <= 2 * minutesPerDay) as Hsum.
    { unfold span, minutesPerDay in *. destruct (_ <? 0) eqn:?; go_bools; lia. }
    assert ((d0 + 6) mod 7 = if decide (d0 = 0) then 6 else d0 - 1) as ->.
    { destruct (decide (d0 = 0)) as [->|]; [done|]. apply (mod_is _ _ 1); lia. }
    unfold minutesPerWeek, minutesPerDay in *.
    pose proof (Z.mod_pos_bound (d0 * (24 * 60) + m - (d * (24 * 60) + Start w)) (7 * (24 * 60))) as Hb.
    pose proof (Z.div_mod (d0 * (24 * 60) + m - (d * (24 * 60) + Start w)) (7 * (24 * 60))) as Hq.
    set (q := _ / _) in *. set (r := _ mod _) in *.
    destruct (decide (d0 = 0)); split; intros; lia. }
  assert (0 <= (d0 + 6) mod 7 < 7) as Hprev by (apply Z.mod_pos_bound; lia).
  assert ((exists d, on_day (Days w) d = true /\ 0 <= d < 7 /\
      (d0 * minutesPerDay + m - (d * minutesPerDay + Start w)) mod minutesPerWeek < span w) <->
    (on_day (Days w) d0 = true /\ Start w <= m < Start w + span w) \/
    (on_day (Days w) ((d0 + 6) mod 7) = true /\
     m + minutesPerDay < Start w + span w /\ Start w <= m + minutesPerDay)) as ->.
  { split.
    - intros (d & Hon & Hdr & Hlt). apply Hshift in Hlt; [|done].
      destruct Hlt as [[-> ?]|[-> ?]]; [by left|by right].
    - intros [[Hon Hm]|[Hon Hm]].
      + exists d0. split; [done|]. split; [done|]. apply Hshift; [done|]. by left.
      + exists ((d0 + 6) mod 7). split; [done|]. split; [done|]. apply Hshift; [done|]. by right. }
  unfold span, minutesPerDay in *. destruct (Start w <? End w) eqn:E1; go_bools.
  - destruct (End w - Start w <? 0) eqn:E2; go_bools; [lia|].
    rewrite !andb_true_iff, Z.leb_le, Z.ltb_lt. split; [intros; left; intuition lia|].
    intros [[? ?]|[? ?]]; [intuition lia|lia].
  - destruct (End w - Start w <? 0) eqn:E2; go_bools; [|lia].
    destruct (Start w <=? m) eqn:E3; go_bools.
    + split; [intros; left; split; [done|lia]|]. intros [[? ?]|[? ?]]; [done|lia].
    + rewrite andb_true_iff, Z.ltb_lt. split; [intros []; right; split; [done|lia]|].
      intros [[? ?]|[? ?]]; [lia|]. split; [done|lia].
Qed.

Lemma next_start_loop_spec `{Location} w : forall more at_,
  match next_start_loop w at_ more with
  | Some r => exists i, 0 <= i < Z.of_nat more /\ r = at_ + i * Minute /\ Contains w r = true /\
      forall j, 0 <= j < i -> Contains w (at_ + j * Minute) = false
  | None => forall i, 0 <= i < Z.of_nat more -> Contains w (at_ + i * Minute) = false
  end.
Proof.
  induction more as [|more IH]; intros at_; cbn [next_start_loop]; [lia|].
  destruct (Contains w at_) eqn:Hc.
  { exists 0. rewrite Z.mul_0_l, Z.add_0_r. split; [lia|]. split; [done|]. split; [done|lia]. }
  specialize (IH (at_ + Minute)). destruct (next_start_loop _ _ _) as [r|].
  - destruct IH as (i & Hi & -> & Hcr & Hj). exists (i + 1).
    split; [lia|]. split; [lia|]. split; [done|]. intros j Hjr.
    destruct (decide (j = 0)) as [->|]; [by rewrite Z.mul_0_l, Z.add_0_r|].
    replace (at_ + j * Minute) with (at_ + Minute + (j - 1) * Minute) by lia. apply Hj. lia.
  - intros i Hi. destruct (decide (i = 0)) as [->|]; [by rewrite Z.mul_0_l, Z.add_0_r|].
    replace (at_ + i * Minute) with (at_ + Minute + (i - 1) * Minute) by lia. apply IH. lia.
Qed.

Lemma utc_wf : @location_wf utc.
Proof. intros t. split; apply Z.mod_pos_bound; by vm_compute. Qed.

Lemma utc_minute_of_week t :
  @minute_of_week utc t = (minutesPerDay + t / Minute) mod minutesPerWeek.
Proof.
  unfold minute_of_week. simpl. symmetry.
  replace (t / Day) with (t / Minute / 1440)
    by (rewrite Z.div_div by (unfold Minute, Second; lia); done).
  set (q := t / Minute). unfold minutesPerWeek, minutesPerDay.
  pose proof (Z.mod_pos_bound (1 + q / 1440) 7). pose proof (Z.mod_pos_bound q 1440).
  apply (mod_is _ _ ((1 + q / 1440) / 7)); [lia|].
  pose proof (Z.div_mod (1 + q / 1440) 7). pose proof (Z.div_mod q 1440). lia.
Qed.

Lemma truncate_spec t d : 0 < d -> truncate t d = d * (t / d) /\ t - d < truncate t d <= t.
Proof.
  intros. unfold truncate. pose proof (Z.mod_pos_bound t d). pose proof (Z.div_mod t d). lia.
Qed.

Lemma Minute_pos : 0 < Minute.
Proof. by vm_compute. Qed.

(** Within a week of any minute some shift opens. *)
Lemma utc_opens w t :
  hours_wf w -> 0 < span w ->
  exists i, 0 <= i < minutesPerWeek /\ @Contains utc w (truncate t Minute + i * Minute) = true.
Proof.
  intros Hwf Hspan. pose proof (hw_some w Hwf) as Hz. unfold zero in Hz. go_bools.
  apply existsb_exists in Hz as (x & Hin & Hx). unfold id in Hx. subst x.
  apply list_elem_of_In, list_elem_of_lookup in Hin as [d Hd].
  pose proof (lookup_lt_Some _ _ _ Hd) as Hdl. rewrite (hw_days w Hwf) in Hdl.
  pose proof (truncate_spec t Minute Minute_pos) as [Htr _].
  set (target := Z.of_nat d * minutesPerDay + Start w).
  set (m0 := minutesPerDay + t / Minute).
  exists ((target - m0) mod minutesPerWeek). split; [by apply Z.mod_pos_bound|].
  apply Contains_shift; [apply utc_wf|done|]. exists (Z.of_nat d).
  split; [unfold on_day; by rewrite Nat2Z.id, Hd|]. split; [lia|].
  rewrite utc_minute_of_week, Htr.
  replace (Minute * (t / Minute) + (target - m0) mod minutesPerWeek * Minute)
    with ((t / Minute + (target - m0) mod minutesPerWeek) * Minute) by lia.
  rewrite Z.div_mul by (by vm_compute).
  rewrite Zminus_mod_idemp_l. fold target.
  replace (minutesPerDay + (t / Minute + (target - m0) mod minutesPerWeek) - target)
    with ((target - m0) mod minutesPerWeek - (target - m0)) by (unfold m0; lia).
  rewrite Zminus_mod_idemp_l, Z.sub_diag. exact Hspan.
Qed.

(** ** Pace limits *)

Record pace_ok (s : PaceSettings) : Prop := {
  po_ceiling : 0 < CeilingGap s <= FloorGap s;
  po_min : MinCeilingGap <= CeilingGap s \/ CeilingGap s = FloorGap s;
  po_hours : zero (Hours s) = false;
}.

Lemma normalise_ok s : pace_ok (normalise s).
Proof.
  unfold normalise. split; simpl.
  - unfold MinCeilingGap, DefaultFloorGap, DefaultCeilingGap, Hour, Minute, Second.
    repeat (case_match; go_bools); lia.
  - unfold MinCeilingGap, DefaultFloorGap, DefaultCeilingGap, Hour, Minute, Second.
    repeat (case_match; go_bools); lia.
  - destruct (zero (Hours s)) eqn:E; [by vm_compute|done].
Qed.

Lemma clamp_range gap s :
  pace_ok s ->
  let gap := if FloorGap s <? gap then FloorGap s else gap in
  CeilingGap s <= (if gap <? CeilingGap s then CeilingGap s else gap) <= FloorGap s.
Proof. intros [? _ _]. cbv zeta. repeat (case_match; go_bools); lia. Qed.

Lemma matchedGap_range queries hosts s :
  CeilingGap (normalise s) <= matchedGap queries hosts s <= FloorGap (normalise s).
Proof.
  pose proof (po_ceiling _ (normalise_ok s)). unfold matchedGap.
  repeat (case_match; go_bools); lia.
Qed.

Lemma Jitter_range `{Rand R} gap s (r : R) :
  in_i 64 gap -> exists gap' r', Jitter gap s r = Some (gap', r') /\
    CeilingGap (normalise s) <= gap' <= FloorGap (normalise s).
Proof.
  intros Hg. pose proof (clamp_range) as Hc. unfold Jitter. set (swing := gap ÷ jitterFraction).
  assert (0 <? swing = true -> i64 (2 * swing) = 2 * swing) as Hsw.
  { intros Hpos. go_bools. apply wrap_i_small; [lia|]. unfold in_i in *.
    assert (0 < gap). { destruct (decide (gap <= 0)); [|lia]. unfold swing in Hpos.
      pose proof (Z.quot_opp_l gap jitterFraction ltac:(done)).
      pose proof (Z.quot_pos (- gap) jitterFraction ltac:(lia) ltac:(by vm_compute)). lia. }
    pose proof (Z.quot_lt_upper_bound gap jitterFraction (2 ^ 61) ltac:(lia) ltac:(by vm_compute)) as Hub.
    unfold jitterFraction in *. unfold swing in *. lia. }
  destruct (0 <? swing) eqn:Hpos.
  - rewrite Hsw by done. go_bools. unfold draw_checked.
    destruct (2 * swing <=? 0) eqn:E; go_bools; [lia|].
    destruct (draw (2 * swing) r) as [x r']. eexists _, _. split; [reflexivity|].
    by apply Hc, normalise_ok.
  - eexists _, _. split; [reflexivity|]. by apply Hc, normalise_ok.
Qed.

Lemma burst_gaps_loop_spec `{Rand R} more widest : 0 < widest -> forall (r : R) gaps,
  Forall (fun g => 0 <= g < widest) gaps ->
  exists gaps' r', burst_gaps_loop more widest r gaps = Some (gaps', r') /\
    Forall (fun g => 0 <= g < widest) gaps' /\ length gaps' = (length gaps + more)%nat.
Proof.
  intros Hw. induction more as [|more IH]; intros r gaps Hg; cbn [burst_gaps_loop].
  { eexists _, _. split; [reflexivity|]. split; [done|lia]. }
  unfold draw_checked. destruct (widest <=? 0) eqn:E; go_bools; [lia|].
  pose proof (draw_range widest r Hw) as Hx. destruct (draw widest r) as [x r1].
  destruct (IH r1 (gaps ++ [x])) as (gaps' & r' & -> & ? & Hl).
  { apply Forall_app. split; [done|]. by constructor. }
  eexists _, _. split; [reflexivity|]. split; [done|]. rewrite Hl, length_app. simpl. lia.
Qed.

Lemma sum_bound l b : Forall (fun g => 0 <= g < b) l -> 0 <= b -> 0 <= sum_by id l <= b * zlen l.
Proof.
  intros Hl Hb. induction Hl as [|x l Hx Hl IH]; [change (0 <= 0 <= b * 0); lia|].
  rewrite sum_by_cons, zlen_cons. unfold id at 1 3. lia.
Qed.

Lemma Contains_span `{Location} w t : location_wf -> hours_wf w -> span w = 0 -> Contains w t = false.
Proof.
  intros HL Hw Hs. destruct (Contains w t) eqn:Hc; [|done].
  apply Contains_shift in Hc as (d & _ & _ & Hlt); [|done..]. rewrite Hs in Hlt.
  pose proof (Z.mod_pos_bound (minute_of_week t - (d * minutesPerDay + Start w)) minutesPerWeek
    ltac:(by vm_compute)). lia.
Qed.

Lemma span_nonneg w : hours_wf w -> 0 <= span w /\ (span w = 0 <-> Start w = minutesPerDay /\ End w = 0).
Proof.
  intros [Hs He Hd _ _]. unfold span. destruct (_ <? 0) eqn:E; go_bools; lia.
Qed.

(** The next start is the first minute mark, from the one [t] falls in,
    that is inside the working hours; only when none of the next eight days'
    marks is inside is it a week from [t]. In UTC, for every schedule with a
    non-empty window, a start is always found, within a week, and it is less
    than a minute before [t] at the earliest. *)
Lemma next_start_first (L : Location) (w : WorkingHours) (t : Z) :
  location_wf -> hours_wf w ->
  let mark j := truncate t Minute + j * Minute in
  ((exists i, 0 <= i <= 8 * minutesPerDay /\ NextStart w t = mark i /\ t - Minute < mark i /\
      Contains w (mark i) = true /\ forall j, 0 <= j < i -> Contains w (mark j) = false) \/
   NextStart w t = t + 7 * Day /\
     forall j, 0 <= j <= 8 * minutesPerDay -> Contains w (mark j) = false) /\
  (L = utc -> 0 < span w ->
     Contains w (NextStart w t) = true /\ t - Minute < NextStart w t < t + 7 * Day).
Proof.
  intros HL Hw mark. unfold NextStart. rewrite (hw_some w Hw).
  pose proof (next_start_loop_spec w (Z.to_nat (8 * minutesPerDay + 1)) (truncate t Minute)) as Hn.
  pose proof (truncate_spec t Minute Minute_pos) as [_ Ht]. pose proof Minute_pos as HM.
  destruct (next_start_loop _ _ _) as [r|].
  - destruct Hn as (i & Hi & -> & Hc & Hj).
    assert (0 <= i * Minute) by nia. split.
    + left. exists i. split; [lia|]. split; [done|]. split; [unfold mark; lia|]. done.
    + intros -> Hspan. split; [done|]. destruct (utc_opens w t Hw Hspan) as (k & Hk & Hck).
      assert (i <= k) as Hik.
      { destruct (decide (i <= k)); [done|]. rewrite Hj in Hck by lia. done. }
      assert (k * Minute < 7 * Day).
      { unfold Day, Hour, Minute, Second, minutesPerWeek, minutesPerDay in *. lia. }
      assert (i * Minute <= k * Minute) by nia. lia.
  - split.
    + right. split; [done|]. intros j Hj. apply Hn. unfold minutesPerDay in *. lia.
    + intros -> Hspan. destruct (utc_opens w t Hw Hspan) as (k & Hk & Hck).
      rewrite Hn in Hck; [done|]. unfold minutesPerWeek, minutesPerDay in *. lia.
Qed.

Lemma gaps_range `{Rand R} n (r : R) : minBurstLookups <= n <= maxBurstLookups ->
  exists gaps r', BurstGaps n r = Some (gaps, r') /\ zlen gaps = n - 1 /\ Forall (fun g => 0 <= g) gaps /\ sum_by id gaps < burstSpread.
Proof.
  intros Hn. destruct (burst_gaps_loop_spec (Z.to_nat (n - 1)) (burstSpread ÷ maxBurstLookups) ltac:(by vm_compute) r [])
    as (gaps & r2 & Hg & Hf & Hl); [constructor|].
  exists gaps, r2. unfold BurstGaps. destruct (_ <=? 1) eqn:E; go_bools; [unfold minBurstLookups in *; lia|].
  split; [done|]. assert (zlen gaps = n - 1) as Hz.
  { unfold zlen. rewrite Hl. simpl. unfold minBurstLookups in *. lia. }
  split; [done|]. split; [eapply Forall_impl; [done|]; simpl; lia|].
  pose proof (sum_bound _ _ Hf ltac:(by vm_compute)) as Hs. rewrite Hz in Hs.
  assert (burstSpread ÷ maxBurstLookups = 12 * Second) as Hw by done. rewrite Hw in Hs.
  unfold burstSpread, Minute, Second, minBurstLookups, maxBurstLookups in *. lia.
Qed.

Lemma normalise_idemp s : normalise (normalise s) = normalise s.
Proof.
  pose proof (normalise_ok s) as [Hc Hm Hh]. unfold normalise at 1. rewrite Hh. destruct (normalise s) as [f c h]. simpl in *.
  unfold MinCeilingGap in *. f_equal; repeat (case_match; go_bools); lia.
Qed.

Lemma normalise_floor s : in_i 64 (FloorGap s) -> in_i 64 (FloorGap (normalise s)).
Proof. unfold normalise, DefaultFloorGap, in_i, Hour, Minute, Second. simpl. case_match; go_bools; lia. Qed.

Lemma gap_range `{Rand R} s queries hosts (r : R) : in_i 64 (FloorGap s) ->
  exists gap r', Jitter (matchedGap queries hosts s) s r = Some (gap, r') /\
    CeilingGap (normalise s) <= matchedGap queries hosts s <= FloorGap (normalise s) /\
    CeilingGap (normalise s) <= gap <= FloorGap (normalise s).
Proof.
  intros Hin. pose proof (matchedGap_range queries hosts s) as Hr. pose proof (po_ceiling _ (normalise_ok s)).
  destruct (Jitter_range (matchedGap queries hosts s) s r) as (gap & r' & -> & Hj).
  { pose proof (normalise_floor s Hin). unfold in_i in *. lia. }
  eexists _, _. split; [reflexivity|]. by split.
Qed.

Lemma burst_range `{Rand R} (r : R) :
  exists n r1 gaps r2, BurstSize r = Some (n, r1) /\ minBurstLookups <= n <= maxBurstLookups /\
    BurstGaps n r1 = Some (gaps, r2) /\ zlen gaps = n - 1 /\
    Forall (fun g => 0 <= g) gaps /\ sum_by id gaps < burstSpread.
Proof.
  unfold BurstSize, draw_checked. simpl (_ <=? 0). cbv iota.
  pose proof (draw_range (maxBurstLookups - minBurstLookups + 1) r ltac:(by vm_compute)) as Hx.
  destruct (draw _ r) as [x r1]. simpl fst in Hx. unfold maxBurstLookups, minBurstLookups in Hx.
  destruct (gaps_range (minBurstLookups + x) r1) as (gaps & r2 & Hg & Hz & Hf & Hs).
  { unfold minBurstLookups, maxBurstLookups. lia. }
  exists (minBurstLookups + x), r1, gaps, r2. split; [reflexivity|]. split; [unfold maxBurstLookups, minBurstLookups; lia|]. done.
Qed.

Lemma startup_range `{Rand R} s (r : R) : exists d r', StartupDelay s r = Some (d, r') /\ 0 <= d < startupDelayMax.
Proof.
  unfold StartupDelay. pose proof (po_ceiling _ (normalise_ok s)).
  set (longest := if FloorGap (normalise s) <? startupDelayMax then FloorGap (normalise s) else startupDelayMax).
  assert (0 < longest <= startupDelayMax).
  { unfold longest. destruct (_ <? _) eqn:E; go_bools; [lia|]. split; [by vm_compute|lia]. }
  destruct (longest <=? 0) eqn:E; go_bools; [lia|]. unfold draw_checked.
  destruct (longest <=? 0) eqn:E2; go_bools; [lia|].
  pose proof (draw_range longest r ltac:(lia)). destruct (draw longest r) as [d r3].
  eexists _, _. split; [reflexivity|]. simpl in *. lia.
Qed.

(** ** Properties *)

(** C25. Whatever text is accepted as working hours, the schedule is a set of
    weekly shifts, one for each of at least one named day, each starting and
    ending on the minutes written: in any location a time is inside exactly
    when it lies in a shift, a shift that runs past midnight belonging to the
    day it started on. The one accepted window that holds no time at all is
    24:00-00:00. The next start is the first minute mark, from the one [t]
    falls in, that is inside; only when none of the next eight days' marks is
    inside is it a week from [t]; and in UTC a non-empty window is always
    entered within a week. *)
Theorem working_hours_are_shifts `{Unicode} (raw : bytes) (w : WorkingHours) :
  ParseWorkingHours raw = Ok w ->
  (0 <= Start w <= minutesPerDay /\ 0 <= End w <= minutesPerDay /\ Start w ≠ End w /\
   exists d, 0 <= d < 7 /\ on_day (Days w) d = true) /\
  (forall L : Location, location_wf -> forall t,
     Contains w t = true <-> exists d, in_shift w d (minute_of_week t)) /\
  ((forall t, @Contains utc w t = false) <-> Start w = minutesPerDay /\ End w = 0) /\
  (forall L : Location, location_wf -> forall t,
     let mark j := truncate t Minute + j * Minute in
     (exists i, 0 <= i <= 8 * minutesPerDay /\ NextStart w t = mark i /\ t - Minute < mark i /\
        Contains w (mark i) = true /\ forall j, 0 <= j < i -> Contains w (mark j) = false) \/
     NextStart w t = t + 7 * Day /\ forall j, 0 <= j <= 8 * minutesPerDay -> Contains w (mark j) = false) /\
  (Start w ≠ minutesPerDay \/ End w ≠ 0 -> forall t,
     @Contains utc w (@NextStart utc w t) = true /\ t - Minute < @NextStart utc w t < t + 7 * Day).
Proof.
  intros Hp%ParseWorkingHours_wf. pose proof Hp as [Hs He Hd Hl Hz]. destruct (span_nonneg w Hp) as [Hn H0].
  split; [split; [exact Hs|split; [exact He|split; [exact Hd|]]]|split; [|split; [|split]]].
  - unfold zero in Hz. go_bools. apply existsb_exists in Hz as (x & Hin & Hx). unfold id in Hx. subst x.
    apply list_elem_of_In, list_elem_of_lookup in Hin as [d Hd'].
    pose proof (lookup_lt_Some _ _ _ Hd'). exists (Z.of_nat d). split; [lia|].
    unfold on_day. by rewrite Nat2Z.id, Hd'.
  - intros L HL t. by apply Contains_shift.
  - rewrite <- H0. split.
    + intros Hno. destruct (decide (span w = 0)) as [|Hne]; [done|].
      destruct (utc_opens w 0 Hp ltac:(lia)) as (i & _ & Hc). by rewrite Hno in Hc.
    + intros Hs0 t. apply Contains_span; [apply utc_wf|done..].
  - intros L HL t. apply (next_start_first L w t HL Hp).
  - intros Hopen t. apply (next_start_first utc w t utc_wf Hp); [done|].
    destruct (decide (span w = 0)) as [[??]%H0|]; [tauto|lia].
Qed.

Lemma working_hours_are_shifts_witness :
  exists w, ParseWorkingHours (H := ascii_only) (lit "22:00-06:00/Fri") = Ok w /\
    Start w = 1320 /\ @Contains utc w (4 * Day + 23 * Hour) = true /\
    exists d, in_shift w d (@minute_of_week utc (4 * Day + 23 * Hour)).
Proof.
  eexists. split; [vm_compute; reflexivity|]. split; [reflexivity|]. split; [vm_compute; reflexivity|].
  apply (working_hours_are_shifts (H := ascii_only) (lit "22:00-06:00/Fri")).
  - vm_compute. reflexivity.
  - apply utc_wf.
  - vm_compute. reflexivity.
Defined.

(** Whatever the settings and the traffic measured, the gap to the next
    burst, jittered or not, lies between the ceiling and the floor in force,
    which are positive and ordered; the ceiling is at least [MinCeilingGap]
    unless the floor itself is shorter. No draw panics, a burst has two to
    five lookups, and its gaps sum to less than [burstSpread]. *)
Theorem pace_within_limits `{Rand R} (s : PaceSettings) (queries hosts : Z) (r : R) :
  let s' := normalise s in
  (0 < CeilingGap s' <= FloorGap s' /\
   (MinCeilingGap <= CeilingGap s' \/ CeilingGap s' = FloorGap s')) /\
  normalise s' = s' /\
  (in_i 64 (FloorGap s) ->
   exists gap r', Jitter (matchedGap queries hosts s) s r = Some (gap, r') /\
     CeilingGap s' <= matchedGap queries hosts s <= FloorGap s' /\
     CeilingGap s' <= gap <= FloorGap s') /\
  (exists n r1 gaps r2, BurstSize r = Some (n, r1) /\ minBurstLookups <= n <= maxBurstLookups /\
     BurstGaps n r1 = Some (gaps, r2) /\ zlen gaps = n - 1 /\
     Forall (fun g => 0 <= g) gaps /\ sum_by id gaps < burstSpread) /\
  (exists d r3, StartupDelay s r = Some (d, r3) /\ 0 <= d < startupDelayMax).
Proof.
  intros s'. pose proof (normalise_ok s) as [Hc Hm Hh]. fold s' in Hc, Hm, Hh.
  split; [done|]. split; [apply normalise_idemp|].
  split; [by apply gap_range|]. split; [apply burst_range|apply startup_range].
Qed.

(** A generator that always draws the least value. *)
#[export] Program Instance least_draw : Rand unit := {| draw n r := (0, r) |}.
Next Obligation. simpl. lia. Qed.

Lemma pace_within_limits_witness :
  exists gap r', Jitter (matchedGap 500 12 DefaultPaceSettings) DefaultPaceSettings tt = Some (gap, r') /\
    DefaultCeilingGap <= gap <= DefaultFloorGap /\
    (exists g r'', Jitter (matchedGap 500 12 DefaultPaceSettings) DefaultPaceSettings tt = Some (g, r'') /\
       DefaultCeilingGap <= matchedGap 500 12 DefaultPaceSettings <= DefaultFloorGap /\
       DefaultCeilingGap <= g <= DefaultFloorGap).
Proof.
  eexists _, _. split; [vm_compute; reflexivity|]. split; [vm_compute; split; discriminate|].
  apply (pace_within_limits DefaultPaceSettings 500 12 tt).
  vm_compute. split; [discriminate|reflexivity].
Defined.

(** ** What the comments say otherwise *)

(** A window with no minute in it is accepted. *)
Lemma empty_window_accepted :
  ParseWorkingHours (H := ascii_only) (lit "24:00-00:00") =
    Ok (mkHours minutesPerDay 0 (weekdays no_days)).
Proof. vm_compute. reflexivity. Qed.

(** The next start may be before the time asked about. *)
Lemma next_start_before :
  @NextStart utc DefaultWorkingHours (9 * Hour + 1) < 9 * Hour + 1.
Proof. vm_compute. reflexivity. Qed.

(** A floor shorter than [MinCeilingGap] takes the ceiling below it. *)
Lemma short_floor_short_ceiling :
  CeilingGap (normalise (mkPace 30000000 DefaultCeilingGap DefaultWorkingHours)) < MinCeilingGap.
Proof. vm_compute. reflexivity. Qed.
