(* ===== verification/Pace.v ===== *)
(** The segment's measured rate, [paceCounter] of
    [internal/agent/poisoner/pace.go]: a ring of hourly buckets that counts
    queries per host, and the median host of the last day.

    A bucket is a Go map that may be nil; writing to a nil map, and indexing
    out of range, panic, which is [None]. The mutex makes each operation
    atomic. Counts are far below the range of [int] and are unbounded here. *)
From S2P Require Import Prelude GoBase GoStrings Schedule.
#[local] Open Scope Z_scope.

Definition paceBuckets : Z := 24.
Definition paceWindow : Z := 24 * Hour.
Definition paceBucketWidth : Z := paceWindow / paceBuckets.
Definition maxTrackedHosts : nat := 1024.

Abbreviation bucket := (gmap string Z).

Record paceCounter : Type := mkCounter {
  buckets : list (option bucket);
  cur : Z;
  curStart : Z;
  overflowed : bool;
}.

Definition newPaceCounter (now : Z) : paceCounter :=
  mkCounter (<[0%nat := Some ∅]> (replicate 24 None)) 0 (truncate now paceBucketWidth) false.

(** [c.cur = (c.cur+1) % paceBuckets; c.buckets[c.cur] = make(...)], [steps] times. *)
Fixpoint roll (steps : nat) (bs : list (option bucket)) (cur : Z) : list (option bucket) * Z :=
  match steps with
  | O => (bs, cur)
  | S steps =>
      let cur := (cur + 1) mod paceBuckets in
      roll steps (<[Z.to_nat cur := Some ∅]> bs) cur
  end.

Definition advance (c : paceCounter) (now : Z) : paceCounter :=
  let at_ := truncate now paceBucketWidth in
  if at_ <=? curStart c then
    match buckets c !! Z.to_nat (cur c) with
    | Some None => mkCounter (<[Z.to_nat (cur c) := Some ∅]> (buckets c)) (cur c) (curStart c) (overflowed c)
    | _ => c
    end
  else
    let steps := time_sub at_ (curStart c) ÷ paceBucketWidth in
    if paceBuckets <=? steps then
      mkCounter (<[0%nat := Some ∅]> ((fun _ => None) <$> buckets c)) 0 at_ (overflowed c)
    else
      let '(bs, cu) := roll (Z.to_nat steps) (buckets c) (cur c) in
      mkCounter bs cu at_ (overflowed c).

Definition Observe (c : paceCounter) (host : string) (now : Z) : option paceCounter :=
  let c := advance c now in
  match buckets c !! Z.to_nat (cur c) with
  | None => None
  | Some ob =>
      let b := default ∅ ob in
      if bool_decide (b !! host = None) && (maxTrackedHosts <=? size b)%nat then
        Some (mkCounter (buckets c) (cur c) (curStart c) true)
      else
        match ob with
        | None => None
        | Some b =>
            Some (mkCounter (<[Z.to_nat (cur c) := Some (<[host := default 0 (b !! host) + 1]> b)]> (buckets c))
                    (cur c) (curStart c) (overflowed c))
        end
  end.

(** [totals[host] += n] over one bucket. *)
Definition add_bucket (totals b : bucket) : bucket := union_with (fun x y => Some (x + y)) totals b.

Definition window_totals (bs : list (option bucket)) : bucket :=
  foldl (fun totals ob => add_bucket totals (default ∅ ob)) ∅ bs.

(** The lower middle value and the number of them. *)
Definition lower_median (totals : bucket) : option (Z * Z) :=
  if decide (size totals = 0%nat) then Some (0, 0) else
  let counts := merge_sort Z.le ((map_to_list totals).*2) in
  match counts !! ((length counts - 1) / 2)%nat with
  | None => None
  | Some q => Some (q, zlen counts)
  end.

Definition Median (c : paceCounter) (now : Z) : option (Z * Z * paceCounter) :=
  let c := advance c now in
  match lower_median (window_totals (buckets c)) with
  | None => None
  | Some (q, n) => Some (q, n, c)
  end.

Definition Overflowed (c : paceCounter) : bool := overflowed c.

(** ** Specification: a log of what was counted, by hour *)

Module Spec.
Record log : Type := mkLog { hour : Z; counted : list (Z * string); full : bool }.

Definition hour_of (now : Z) : Z := now / paceBucketWidth.

Definition start (now : Z) : log := mkLog (hour_of now) [] false.

(** The clock of the log never goes backwards. *)
Definition tick (l : log) (now : Z) : log :=
  mkLog (Z.max (hour l) (hour_of now)) (counted l) (full l).

(** Per-host counts of the entries of the log whose hour is in [P]. *)
Definition tally (P : Z -> bool) (es : list (Z * string)) : bucket :=
  foldr (fun e m => if P e.1 then <[e.2 := default 0 (m !! e.2) + 1]> m else m) ∅ es.

Definition this_hour (l : log) : bucket := tally (fun h => h =? hour l) (counted l).
Definition last_day (l : log) : bucket :=
  tally (fun h => (hour l - paceBuckets <? h) && (h <=? hour l)) (counted l).

(** A host not yet seen this hour is turned away when 1024 others were. *)
Definition observe (l : log) (host : string) (now : Z) : log :=
  let l := tick l now in
  if bool_decide (this_hour l !! host = None) && (maxTrackedHosts <=? size (this_hour l))%nat then
    mkLog (hour l) (counted l) true
  else mkLog (hour l) ((hour l, host) :: counted l) (full l).
End Spec.

(** ** The ring stands for the log *)

Lemma paceBucketWidth_hour : paceBucketWidth = Hour.
Proof. done. Qed.

(** The hour whose counts the bucket at index [i] holds. *)
Definition hour_at (now_hour cur i : Z) : Z := now_hour - (cur - i) mod paceBuckets.

Record stands_for (c : paceCounter) (l : Spec.log) : Prop := {
  sf_len : length (buckets c) = 24%nat;
  sf_cur : 0 <= cur c < paceBuckets;
  sf_start : curStart c = Spec.hour l * paceBucketWidth;
  sf_past : Forall (fun e => e.1 <= Spec.hour l) (Spec.counted l);
  sf_bucket i : 0 <= i < paceBuckets ->
    exists ob, buckets c !! Z.to_nat i = Some ob /\
      default ∅ ob = Spec.tally (fun h => h =? hour_at (Spec.hour l) (cur c) i) (Spec.counted l) /\
      (i = cur c -> ob ≠ None);
  sf_full : overflowed c = Spec.full l;
}.

Ltac zmod_lia := unfold hour_at, paceBuckets in *; Z.to_euclidean_division_equations; lia.

Lemma tally_ext P Q es :
  Forall (fun e => P e.1 = Q e.1) es -> Spec.tally P es = Spec.tally Q es.
Proof. induction 1 as [|e es He _ IH]; simpl; [done|]. by rewrite He, IH. Qed.

Lemma tally_none P es : Forall (fun e => P e.1 = false) es -> Spec.tally P es = ∅.
Proof. induction 1 as [|e es He _ IH]; simpl; [done|]. by rewrite He. Qed.

Lemma hour_at_cur h cu : hour_at h cu cu = h.
Proof. unfold hour_at. rewrite Z.sub_diag. change (0 mod paceBuckets) with 0. lia. Qed.

Lemma newPaceCounter_stands now : stands_for (newPaceCounter now) (Spec.start now).
Proof.
  split; simpl; try done.
  - unfold truncate, Spec.hour_of. rewrite Z.mod_eq by (by vm_compute). lia.
  - intros i Hi. destruct (decide (i = 0)) as [->|Hne].
    + exists (Some ∅). done.
    + exists None. assert (Z.to_nat i ≠ 0%nat) by lia.
      change ((<[0%nat := Some ∅]> (replicate 24 None)) !! Z.to_nat i = Some (None : option bucket) /\
        default ∅ (None : option bucket) = ∅ /\ (i = 0 -> (None : option bucket) ≠ None)).
      rewrite list_lookup_insert_ne by lia. unfold paceBuckets in Hi.
      split; [apply lookup_replicate_2; lia|]. split; [done|]. by intros ->.
Qed.

(** One bucket further on, the hour being one later. *)
Lemma roll_one c l :
  stands_for c l ->
  stands_for
    (mkCounter (<[Z.to_nat ((cur c + 1) mod paceBuckets) := Some ∅]> (buckets c))
       ((cur c + 1) mod paceBuckets) (curStart c + paceBucketWidth) (overflowed c))
    (Spec.mkLog (Spec.hour l + 1) (Spec.counted l) (Spec.full l)).
Proof.
  intros [Hlen Hcur Hst Hpast Hb Hf].
  assert (0 <= (cur c + 1) mod paceBuckets < paceBuckets) as Hc' by (apply Z.mod_pos_bound; by vm_compute).
  split; simpl; try done.
  - by rewrite length_insert.
  - lia.
  - eapply Forall_impl; [done|]. simpl. lia.
  - intros i Hi. destruct (decide (i = (cur c + 1) mod paceBuckets)) as [->|Hne].
    + exists (Some ∅). rewrite list_lookup_insert_eq by (unfold paceBuckets in *; lia).
      split; [done|]. split; [|done]. simpl. symmetry. apply tally_none.
      eapply Forall_impl; [exact Hpast|]. intros e He. simpl in He. rewrite hour_at_cur. apply Z.eqb_neq. lia.
    + destruct (Hb i Hi) as (ob & Hob & Hd & Hnone). exists ob.
      rewrite list_lookup_insert_ne by lia. split; [done|]. split; [|lia].
      rewrite Hd. apply tally_ext, Forall_true. intros e. f_equal. zmod_lia.
Qed.

Lemma roll_stands steps : forall c l,
  stands_for c l ->
  let '(bs, cu) := roll steps (buckets c) (cur c) in
  stands_for (mkCounter bs cu (curStart c + Z.of_nat steps * paceBucketWidth) (overflowed c))
    (Spec.mkLog (Spec.hour l + Z.of_nat steps) (Spec.counted l) (Spec.full l)).
Proof.
  induction steps as [|steps IH]; intros c l Hs; cbn [roll].
  { rewrite Z.mul_0_l, !Z.add_0_r. by destruct c, l. }
  apply roll_one, IH in Hs. simpl buckets in Hs. simpl cur in Hs.
  destruct (roll steps _ _) as [bs cu]. simpl in Hs.
  replace (curStart c + Z.of_nat (S steps) * paceBucketWidth)
    with (curStart c + paceBucketWidth + Z.of_nat steps * paceBucketWidth) by lia.
  replace (Spec.hour l + Z.of_nat (S steps)) with (Spec.hour l + 1 + Z.of_nat steps) by lia. done.
Qed.

Lemma advance_stands c l now : stands_for c l -> stands_for (advance c now) (Spec.tick l now).
Proof.
  intros Hs. pose proof Hs as [Hlen Hcur Hst Hpast Hb Hf]. unfold advance, Spec.tick, Spec.hour_of.
  assert (truncate now paceBucketWidth = now / paceBucketWidth * paceBucketWidth) as Hat.
  { unfold truncate. rewrite Z.mod_eq by (by vm_compute). lia. }
  set (h := now / paceBucketWidth) in *. rewrite Hat, Hst.
  assert (0 < paceBucketWidth) as Hw by (by vm_compute).
  destruct (_ <=? _) eqn:E; go_bools.
  - assert (h <= Spec.hour l) by nia. rewrite Z.max_l by done.
    destruct (Hb (cur c) Hcur) as (ob & Hob & _ & Hn). rewrite Hob.
    destruct ob as [b|]; [|by destruct Hn]. by destruct l.
  - assert (Spec.hour l < h) by nia. rewrite Z.max_r by lia.
    set (d := h * paceBucketWidth - Spec.hour l * paceBucketWidth).
    assert (d = (h - Spec.hour l) * paceBucketWidth) as Hd by (unfold d; lia).
    assert (0 < d) by nia.
    destruct (decide (h - Spec.hour l < 24)) as [Hsmall|Hbig].
    + assert (time_sub (h * paceBucketWidth) (Spec.hour l * paceBucketWidth) ÷ paceBucketWidth =
              h - Spec.hour l) as ->.
      { unfold time_sub. fold d. rewrite Z.min_l, Z.max_r.
        - rewrite Hd. by rewrite Z.quot_mul by lia.
        - lia.
        - rewrite Hd, paceBucketWidth_hour. unfold Hour, Minute, Second. lia. }
      destruct (_ <=? h - Spec.hour l) eqn:E2; go_bools; [unfold paceBuckets in E2; lia|].
      pose proof (roll_stands (Z.to_nat (h - Spec.hour l)) c l Hs) as Hr.
      destruct (roll _ _ _) as [bs cu]. rewrite Z2Nat.id in Hr by lia.
      replace (curStart c + (h - Spec.hour l) * paceBucketWidth) with (h * paceBucketWidth) in Hr by lia.
      replace (Spec.hour l + (h - Spec.hour l)) with h in Hr by lia. done.
    + assert (paceBuckets <=? time_sub (h * paceBucketWidth) (Spec.hour l * paceBucketWidth) ÷ paceBucketWidth
              = true) as ->.
      { apply Z.leb_le. unfold time_sub. fold d. apply Z.quot_le_lower_bound; [done|].
        assert (paceBucketWidth * paceBuckets <= d) by (unfold paceBuckets; nia).
        assert (paceBucketWidth * paceBuckets <= 2 ^ 63 - 1) by (by vm_compute). lia. }
      split; simpl; try done.
      * by rewrite length_insert, length_fmap.
      * eapply Forall_impl; [done|]. simpl. lia.
      * intros i Hi. assert (hour_at h 0 i > Spec.hour l) by zmod_lia.
        assert (Spec.tally (fun h0 => h0 =? hour_at h 0 i) (Spec.counted l) = ∅) as ->.
        { apply tally_none. eapply Forall_impl; [done|]. simpl. intros e He. apply Z.eqb_neq. lia. }
        destruct (decide (i = 0)) as [->|Hne].
        { exists (Some ∅). rewrite list_lookup_insert_eq by (rewrite length_fmap; lia). done. }
        exists None. rewrite list_lookup_insert_ne, list_lookup_fmap by lia.
        destruct (Hb i Hi) as (ob & -> & _). split; [done|]. split; [done|lia].
Qed.

Lemma Observe_stands c l host now :
  stands_for c l ->
  exists c', Observe c host now = Some c' /\ stands_for c' (Spec.observe l host now).
Proof.
  intros Hs%(advance_stands _ _ now). unfold Observe, Spec.observe.
  set (c1 := advance c now) in *. set (l1 := Spec.tick l now) in *.
  pose proof Hs as [Hlen Hcur Hst Hpast Hb Hf].
  destruct (Hb (cur c1) Hcur) as (ob & Hob & Hd & Hn). rewrite Hob.
  rewrite hour_at_cur in Hd. destruct ob as [b|]; [|by destruct Hn].
  simpl in Hd. subst b. simpl default. fold (Spec.this_hour l1).
  destruct (_ && _)%bool eqn:E.
  { eexists. split; [reflexivity|]. split; simpl; try done. }
  eexists. split; [reflexivity|]. split; simpl; try done.
  - by rewrite length_insert.
  - constructor; [simpl; lia|done].
  - intros i Hi. destruct (decide (i = cur c1)) as [->|Hne].
    + eexists. rewrite list_lookup_insert_eq by (unfold paceBuckets in *; lia).
      split; [reflexivity|]. split; [|done]. rewrite hour_at_cur, Z.eqb_refl. done.
    + destruct (Hb i Hi) as (ob & Hob' & Hd' & _). exists ob.
      rewrite list_lookup_insert_ne by lia. split; [done|]. split; [|done].
      rewrite Hd'. destruct (_ =? hour_at _ _ i) eqn:E2; [|done]. go_bools. zmod_lia.
Qed.

(** ** The totals are the last day's *)

(** A map that holds exactly the non-zero counts of [f]. *)
Definition counts_as (m : bucket) (f : string -> Z) : Prop :=
  forall x, 0 <= f x /\ m !! x = if f x =? 0 then None else Some (f x).

(** How often an hour of [P] is recorded for a host. *)
Definition tallied (P : Z -> bool) (es : list (Z * string)) (x : string) : Z :=
  sum_by (fun e => if P e.1 && bool_decide (e.2 = x) then 1 else 0) es.

Lemma counts_as_eq m m' f g :
  counts_as m f -> counts_as m' g -> (forall x, f x = g x) -> m = m'.
Proof.
  intros Hm Hm' Hfg. apply map_eq. intros x. destruct (Hm x) as [_ ->], (Hm' x) as [_ ->].
  by rewrite Hfg.
Qed.

Lemma tally_counts P es : counts_as (Spec.tally P es) (tallied P es).
Proof.
  induction es as [|e es IH]; intros x; cbn [Spec.tally foldr].
  { split; [reflexivity|]. by rewrite lookup_empty. }
  destruct (IH x) as [Hx Hl]. unfold tallied. rewrite sum_by_cons. fold (tallied P es x).
  fold (Spec.tally P es). destruct (P e.1); simpl andb; cbv iota; [|by rewrite Z.add_0_l].
  case_bool_decide as He; [subst x|].
  - split; [lia|]. rewrite lookup_insert_eq, Hl.
    destruct (1 + _ =? 0) eqn:E; go_bools; [lia|].
    destruct (tallied P es e.2 =? 0) eqn:E2; go_bools; simpl; f_equal; lia.
  - rewrite lookup_insert_ne by done. by rewrite Z.add_0_l.
Qed.

Lemma add_bucket_counts m b f g :
  counts_as m f -> counts_as b g -> counts_as (add_bucket m b) (fun x => f x + g x).
Proof.
  intros Hm Hb x. destruct (Hm x) as [? Hmx], (Hb x) as [? Hbx]. split; [lia|].
  unfold add_bucket. rewrite lookup_union_with, Hmx, Hbx.
  destruct (f x =? 0) eqn:?, (g x =? 0) eqn:?, (f x + g x =? 0) eqn:?; go_bools; simpl;
    (lia || done || (f_equal; lia)).
Qed.

Lemma window_counts bs gs :
  Forall2 (fun ob g => counts_as (default ∅ ob) g) bs gs ->
  counts_as (window_totals bs) (fun x => sum_by (fun g => g x) gs).
Proof.
  intros H. assert (forall m f, counts_as m f ->
    counts_as (foldl (fun t ob => add_bucket t (default ∅ ob)) m bs) (fun x => f x + sum_by (fun g => g x) gs))
    as Hgen.
  { induction H as [|ob g bs gs Hob _ IH]; intros m f Hm; cbn [foldl].
    - intros x. destruct (Hm x) as [? ->]. change (sum_by (fun g => g x) []) with 0.
      rewrite Z.add_0_r. by split.
    - intros x. rewrite sum_by_cons, Z.add_assoc.
      exact (IH _ _ (add_bucket_counts _ _ _ _ Hm Hob) x). }
  intros x. specialize (Hgen ∅ (fun _ => 0)). simpl in Hgen. apply Hgen.
  intros y. by rewrite lookup_empty.
Qed.

(** Each hour of the last day has exactly one bucket. *)
Definition ring_hits (cu d : Z) : Z :=
  sum_by (fun i : nat => if (cu - Z.of_nat i) mod paceBuckets =? d then 1 else 0) (seq 0 24).

Definition ring_once : bool :=
  forallb (fun cu => forallb (fun d => ring_hits (Z.of_nat cu) (Z.of_nat d) =? 1) (seq 0 24)) (seq 0 24).

Lemma ring_once_ok : ring_once = true.
Proof. vm_compute. reflexivity. Qed.

Lemma ring_hits_one cu d :
  0 <= cu < paceBuckets -> ring_hits cu d = if (0 <=? d) && (d <? paceBuckets) then 1 else 0.
Proof.
  intros Hcu. destruct (_ && _)%bool eqn:E.
  - apply andb_true_iff in E as [?%Z.leb_le ?%Z.ltb_lt]. unfold paceBuckets in *.
    pose proof ring_once_ok as Hall. unfold ring_once in Hall.
    rewrite forallb_forall in Hall. specialize (Hall (Z.to_nat cu) ltac:(apply in_seq; lia)).
    rewrite forallb_forall in Hall. specialize (Hall (Z.to_nat d) ltac:(apply in_seq; lia)).
    rewrite !Z2Nat.id in Hall by lia. by apply Z.eqb_eq in Hall.
  - assert (forall l, sum_by (fun i : nat => if (cu - Z.of_nat i) mod paceBuckets =? d then 1 else 0) l = 0)
      as Hl; [|apply Hl].
    induction l as [|i l IH]; [done|]. rewrite sum_by_cons, IH.
    pose proof (Z.mod_pos_bound (cu - Z.of_nat i) paceBuckets ltac:(by vm_compute)).
    destruct (_ =? d) eqn:E2; [|done]. go_bools.
    apply andb_false_iff in E as [?%Z.leb_gt|?%Z.ltb_ge]; lia.
Qed.

Lemma sum_by_plus {A} (f g : A -> Z) l : sum_by (fun x => f x + g x) l = sum_by f l + sum_by g l.
Proof. induction l as [|x l IH]; [done|]. rewrite !sum_by_cons, IH. lia. Qed.

Lemma sum_by_ext {A} (f g : A -> Z) l : (forall x, f x = g x) -> sum_by f l = sum_by g l.
Proof. intros Hfg. induction l as [|x l IH]; [done|]. by rewrite !sum_by_cons, IH, Hfg. Qed.

Lemma sum_by_zero {A} (l : list A) : sum_by (fun _ => 0) l = 0.
Proof. induction l as [|x l IH]; [done|]. by rewrite sum_by_cons, IH. Qed.

Lemma ring_tallied h cu es x :
  0 <= cu < paceBuckets ->
  sum_by (fun i : nat => tallied (fun h' => h' =? hour_at h cu (Z.of_nat i)) es x) (seq 0 24) =
  tallied (fun h' => (h - paceBuckets <? h') && (h' <=? h)) es x.
Proof.
  intros Hcu. induction es as [|e es IH].
  { unfold tallied. change (sum_by _ []) with 0 at 2. apply sum_by_zero. }
  transitivity (sum_by (fun i : nat =>
    (if (e.1 =? hour_at h cu (Z.of_nat i)) && bool_decide (e.2 = x) then 1 else 0) +
    tallied (fun h' => h' =? hour_at h cu (Z.of_nat i)) es x) (seq 0 24)); [by apply sum_by_ext|].
  unfold tallied at 2. rewrite sum_by_cons. fold (tallied (fun h' => (h - paceBuckets <? h') && (h' <=? h)) es x).
  rewrite <- IH.
  rewrite sum_by_plus. f_equal. case_bool_decide.
  - rewrite andb_true_r. transitivity (ring_hits cu (h - e.1)).
    + apply sum_by_ext. intros i. rewrite andb_true_r. unfold hour_at.
      destruct (e.1 =? _) eqn:E1, (_ =? h - e.1) eqn:E2; go_bools; lia.
    + rewrite ring_hits_one by done.
      destruct (h - paceBuckets <? e.1) eqn:?, (e.1 <=? h) eqn:?, (0 <=? h - e.1) eqn:?,
        (h - e.1 <? paceBuckets) eqn:?; go_bools; (done || lia).
  - rewrite andb_false_r. erewrite sum_by_ext; [apply sum_by_zero|]. intros. by rewrite andb_false_r.
Qed.

Lemma totals_stand c l : stands_for c l -> window_totals (buckets c) = Spec.last_day l.
Proof.
  intros [Hlen Hcur Hst Hpast Hb Hf].
  eapply counts_as_eq; [apply (window_counts _
    ((fun i : nat => tallied (fun h' => h' =? hour_at (Spec.hour l) (cur c) (Z.of_nat i)) (Spec.counted l))
       <$> seq 0 24))|apply tally_counts|].
  - apply Forall2_same_length_lookup. split; [by rewrite length_fmap, length_seq|].
    intros i ob g Hob (k & -> & [Hk Hi]%lookup_seq)%list_lookup_fmap_Some. simpl in Hk. subst k.
    destruct (Hb (Z.of_nat i)) as (ob' & Hob' & Hd & _); [unfold paceBuckets; lia|].
    rewrite Nat2Z.id in Hob'. rewrite Hob in Hob'. injection Hob' as <-. rewrite Hd. apply tally_counts.
  - intros x. rewrite <- (ring_tallied _ _ _ _ Hcur).
    generalize (seq 0 24). intros ks. induction ks as [|i ks IH]; [done|].
    rewrite fmap_cons, !sum_by_cons. by rewrite IH.
Qed.

(** ** The median host *)

Lemma sorted_rank (l : list Z) : StronglySorted Z.le l -> forall (i : nat) (q : Z), l !! i = Some q ->
  (length (filter (fun x : Z => (x < q)%Z) l) <= i)%nat /\
  (i < length (filter (fun x : Z => (x <= q)%Z) l))%nat.
Proof.
  induction 1 as [|x l Hs IH Hx]; intros i q Hq; [done|].
  destruct i as [|i]; simpl in Hq.
  - injection Hq as ->. rewrite filter_cons_False by lia. rewrite filter_cons_True by lia.
    rewrite (filter_none (fun x => x < q) l).
    + simpl. lia.
    + eapply Forall_impl; [exact Hx|]. simpl. lia.
  - destruct (IH i q Hq) as [Hlt Hle].
    assert (x <= q) by (eapply Forall_lookup_1 in Hx; [exact Hx|done]).
    rewrite (filter_cons_True (fun x => x <= q)) by done. simpl. split; [|lia].
    rewrite filter_cons. case_decide; simpl; lia.
Qed.

(** The hosts whose count satisfies [P]. *)
Definition hosts_with (P : Z -> Prop) `{forall x, Decision (P x)} (totals : bucket) : nat :=
  length (filter P ((map_to_list totals).*2)).

Lemma lower_median_spec totals :
  (totals = ∅ /\ lower_median totals = Some (0, 0)) \/
  exists q n, lower_median totals = Some (q, n) /\ n = Z.of_nat (size totals) /\ 0 < n /\
    (exists host, totals !! host = Some q) /\
    2 * Z.of_nat (hosts_with (fun x => x < q) totals) < n <=
      2 * Z.of_nat (hosts_with (fun x => x <= q) totals).
Proof.
  unfold lower_median, hosts_with. destruct (decide (size totals = 0%nat)) as [H0|Hne].
  { left. split; [by apply map_size_empty_iff|done]. }
  right. set (vs := (map_to_list totals).*2). set (counts := merge_sort Z.le vs).
  assert (Permutation counts vs) as Hp by apply merge_sort_Permutation.
  assert (length vs = size totals) as Hlen.
  { unfold vs. by rewrite length_fmap, length_map_to_list. }
  assert (length counts = size totals) as Hlc by (by rewrite Hp).
  assert (((length counts - 1) / 2 < length counts)%nat) as Hi.
  { apply Nat.Div0.div_lt_upper_bound. lia. }
  destruct (lookup_lt_is_Some_2 counts _ Hi) as [q Hq]. rewrite Hq.
  exists q, (zlen counts). split; [done|]. unfold zlen. rewrite Hlc in *. split; [done|].
  split; [lia|]. split.
  - assert (q ∈ vs) as (kv & -> & Hkv)%list_elem_of_fmap.
    { rewrite <- Hp. by eapply list_elem_of_lookup_2. }
    destruct kv as [host q']. exists host. by apply elem_of_map_to_list in Hkv.
  - destruct (sorted_rank counts) with (i := ((size totals - 1) / 2)%nat) (q := q) as [Hlt Hle].
    { apply (StronglySorted_merge_sort Z.le). }
    { done. }
    rewrite <- Hp. pose proof (Nat.div_mod_eq (size totals - 1) 2).
    pose proof (Nat.mod_upper_bound (size totals - 1) 2). lia.
Qed.

(** ** Property *)

Inductive pace_op : Type :=
| OpObserve (host : string) (now : Z)
| OpMedian (now : Z).

Fixpoint pace_run (c : paceCounter) (os : list pace_op) : option (list (Z * Z) * paceCounter) :=
  match os with
  | [] => Some ([], c)
  | OpObserve host now :: os =>
      match Observe c host now with
      | None => None
      | Some c => pace_run c os
      end
  | OpMedian now :: os =>
      match Median c now with
      | None => None
      | Some (q, n, c) =>
          match pace_run c os with
          | None => None
          | Some (outs, c) => Some ((q, n) :: outs, c)
          end
      end
  end.

(** The answers the log gives: for each question, the log as it was then. *)
Fixpoint log_run (l : Spec.log) (os : list pace_op) : list Spec.log * Spec.log :=
  match os with
  | [] => ([], l)
  | OpObserve host now :: os => log_run (Spec.observe l host now) os
  | OpMedian now :: os =>
      let l := Spec.tick l now in
      let '(ls, l') := log_run l os in (l :: ls, l')
  end.

(** The answer [(q, n)] to the question what the median host of the log is. *)
Definition median_of (l : Spec.log) (a : Z * Z) : Prop :=
  let '(q, n) := a in
  (Spec.last_day l = ∅ /\ q = 0 /\ n = 0) \/
  (n = Z.of_nat (size (Spec.last_day l)) /\ 0 < n /\
   (exists host, Spec.last_day l !! host = Some q) /\
   2 * Z.of_nat (hosts_with (fun x => x < q) (Spec.last_day l)) < n <=
     2 * Z.of_nat (hosts_with (fun x => x <= q) (Spec.last_day l))).

Lemma Median_stands c l now : stands_for c l ->
  exists q n c', Median c now = Some (q, n, c') /\ median_of (Spec.tick l now) (q, n) /\ stands_for c' (Spec.tick l now).
Proof.
  intros Hs. unfold Median. apply (advance_stands _ _ now) in Hs. rewrite (totals_stand _ _ Hs). unfold median_of.
  destruct (lower_median_spec (Spec.last_day (Spec.tick l now))) as [[He ->]|(q & n & -> & Hm)].
  - exists 0, 0, (advance c now). split; [done|]. split; [by left|done].
  - exists q, n, (advance c now). split; [done|]. split; [by right|done].
Qed.

Lemma pace_run_stands os : forall c l, stands_for c l ->
  exists outs c', pace_run c os = Some (outs, c') /\
    Forall2 median_of (log_run l os).1 outs /\ stands_for c' (log_run l os).2.
Proof.
  induction os as [|[host now|now] os IH]; intros c l Hs; cbn [pace_run log_run].
  - exists [], c. split; [done|]. split; [constructor|done].
  - destruct (Observe_stands c l host now Hs) as (c' & -> & Hs'). by apply IH.
  - destruct (Median_stands c l now Hs) as (q & n & c1 & -> & Hm & Hs1).
    destruct (IH _ _ Hs1) as (outs & c' & -> & Hf & Hs').
    destruct (log_run (Spec.tick l now) os) as [ls l']. simpl in *.
    exists ((q, n) :: outs), c'. split; [done|]. split; [by constructor|done].
Qed.

(** The ring of hourly buckets answers as an hourly log of all that was
    counted would, for every sequence of observations and questions and even
    when the clock steps back: no operation panics, and each answer is a count
    some host of the last 24 hours really had, with fewer than half of those
    hosts below it and at least half at or below it, next to their number.
    What is not counted is only a host new to an hour in which 1024 others
    were, and then the overflow flag is set. *)
Theorem pace_counter_refines_log (start : Z) (os : list pace_op) :
  exists outs c', pace_run (newPaceCounter start) os = Some (outs, c') /\
    Forall2 median_of (log_run (Spec.start start) os).1 outs /\
    Overflowed c' = Spec.full (log_run (Spec.start start) os).2.
Proof.
  destruct (pace_run_stands os _ _ (newPaceCounter_stands start)) as (outs & c' & Hr & Hm & Hs).
  exists outs, c'. split; [done|]. split; [done|apply Hs].
Qed.

Example pace_ex :
  exists c', pace_run (newPaceCounter 0)
    [OpObserve "a" 5; OpObserve "b" 6; OpObserve "a" (2 * Hour); OpMedian (3 * Hour);
     OpObserve "c" (25 * Hour); OpMedian (25 * Hour); OpMedian (80 * Hour)] =
  Some ([(1, 2); (1, 2); (0, 0)], c').
Proof. eexists. vm_compute. reflexivity. Qed.
