(* ===== verification/LineReader.v ===== *)
(** The incremental line reader of the log tailer,
    [internal/agent/tailer/reader.go].

    The two callbacks of [feed] are modelled by the list of their calls. What
    the file's successive reads return is a list of chunks, each with the
    error that came with it. *)
From S2P Require Import Prelude GoBase GoStrings.
#[local] Open Scope Z_scope.

Definition newline : Z := 10.

Record lineReader : Type := mkReader {
  maxLine : Z;
  offset : Z;
  cur : bytes;
  oversize : bool;
}.

(** [emit(line, pos)] and [onReject(pos)]. *)
Inductive line_event : Type :=
| Emit (line : bytes) (pos : Z)
| Reject (pos : Z).

Definition newLineReader (start maxLine : Z) : lineReader := mkReader maxLine start [] false.

(** One round of the loop of [feed] on a non-empty chunk: the reader, the
    events and the rest of the chunk. *)
Definition feed_step (r : lineReader) (chunk : bytes) : lineReader * list line_event * bytes :=
  let nl := IndexByte chunk newline in
  let take_ := if 0 <=? nl then slice chunk 0 nl else chunk in
  let consumed := if 0 <=? nl then nl + 1 else zlen chunk in
  let r :=
    if oversize r then r
    else if zlen take_ <=? maxLine r - zlen (cur r) then
      mkReader (maxLine r) (offset r) (cur r ++ take_) false
    else mkReader (maxLine r) (offset r) [] true in
  let r := mkReader (maxLine r) (offset r + consumed) (cur r) (oversize r) in
  let '(r, evs) :=
    if 0 <=? nl then
      if oversize r then (mkReader (maxLine r) (offset r) (cur r) false, [Reject (offset r)])
      else (mkReader (maxLine r) (offset r) [] false, [Emit (cur r) (offset r)])
    else (r, []) in
  (r, evs, drop (Z.to_nat consumed) chunk).

(** Every round takes a byte at least, so the chunk's length is enough fuel. *)
Fixpoint feed_loop (fuel : nat) (r : lineReader) (chunk : bytes) : option (lineReader * list line_event) :=
  match chunk with
  | [] => Some (r, [])
  | _ =>
      match fuel with
      | O => None
      | S fuel =>
          let '(r, evs, rest) := feed_step r chunk in
          match feed_loop fuel r rest with
          | None => None
          | Some (r, evs') => Some (r, evs ++ evs')
          end
      end
  end.

Definition feed (r : lineReader) (chunk : bytes) : option (lineReader * list line_event) :=
  feed_loop (length chunk) r chunk.

Definition hasPending (r : lineReader) : bool := (0 <? zlen (cur r)) || oversize r.

Definition discardPending (r : lineReader) : lineReader :=
  mkReader (maxLine r) (offset r) [] false.

(** What came with a read: nothing, end of file, or another error. *)
Inductive read_end : Type := ReadOK | ReadEOF | ReadFailed.

(** [fill]: reads until the end of file, an error or an empty read. The result
    says whether it returned an error. *)
Fixpoint fill (r : lineReader) (reads : list (bytes * read_end)) :
    option (lineReader * list line_event * bool) :=
  match reads with
  | [] => Some (r, [], false)
  | (chunk, e) :: reads =>
      match (match chunk with [] => Some (r, []) | _ => feed r chunk end) with
      | None => None
      | Some (r, evs) =>
          match e with
          | ReadEOF => Some (r, evs, false)
          | ReadFailed => Some (r, evs, true)
          | ReadOK =>
              match chunk with
              | [] => Some (r, evs, false)
              | _ =>
                  match fill r reads with
                  | None => None
                  | Some (r, evs', failed) => Some (r, evs ++ evs', failed)
                  end
              end
          end
      end
  end.

(** ** Specification: the lines of a byte string *)

(** The complete lines, without their newlines, and what follows the last. *)
Fixpoint lines (s : bytes) : list bytes * bytes :=
  match s with
  | [] => ([], [])
  | c :: s =>
      let '(ls, rest) := lines s in
      if decide (c = newline) then ([] :: ls, rest)
      else match ls with
           | [] => ([], c :: rest)
           | l :: ls => ((c :: l) :: ls, rest)
           end
  end.

(** What is to happen to the lines that start at [off]: each is emitted if it
    fits, rejected if not, with the offset of the byte after its newline. *)
Fixpoint line_events (max off : Z) (ls : list bytes) : list line_event :=
  match ls with
  | [] => []
  | l :: ls =>
      let off := off + zlen l + 1 in
      (if zlen l <=? max then Emit l off else Reject off) :: line_events max off ls
  end.

(** The bytes of the lines, newlines included. *)
Definition unlines (ls : list bytes) : bytes := concat ((fun l => l ++ [newline]) <$> ls).

Lemma lines_plain p : newline ∉ p -> lines p = ([], p).
Proof.
  induction p as [|c p IH]; intros Hp; [done|]. apply not_elem_of_cons in Hp as [Hc Hp].
  simpl. rewrite IH by done. by rewrite decide_False by congruence.
Qed.

Lemma lines_line p s : newline ∉ p ->
  lines (p ++ newline :: s) = (p :: (lines s).1, (lines s).2).
Proof.
  induction p as [|c p IH]; intros Hp; simpl.
  { by destruct (lines s). }
  apply not_elem_of_cons in Hp as [Hc Hp]. rewrite IH by done. by rewrite decide_False by congruence.
Qed.

(** Every string is its lines followed by a newline-free rest. *)
Lemma lines_unlines s : s = unlines (lines s).1 ++ (lines s).2 /\
  newline ∉ (lines s).2 /\ Forall (fun l => newline ∉ l) (lines s).1.
Proof.
  induction s as [|c s (IHs & IHr & IHl)]; simpl.
  { split; [done|]. split; [apply not_elem_of_nil|constructor]. }
  destruct (lines s) as [ls rest]. simpl in *. destruct (decide (c = newline)) as [->|Hc].
  - simpl. split; [by f_equal|]. split; [done|]. constructor; [apply not_elem_of_nil|done].
  - destruct ls as [|l ls]; simpl in *.
    + split; [by rewrite IHs|]. split; [|constructor]. rewrite elem_of_cons. naive_solver.
    + split; [by rewrite IHs|]. split; [done|]. apply Forall_cons in IHl as [Hl IHl].
      constructor; [|done]. rewrite elem_of_cons. naive_solver.
Qed.

(** The lines of a concatenation: those of the first part, then those of its
    rest with the second. *)
Lemma lines_app s t :
  lines (s ++ t) = ((lines s).1 ++ (lines ((lines s).2 ++ t)).1, (lines ((lines s).2 ++ t)).2).
Proof.
  induction s as [|c s IH]; simpl; [by destruct (lines t)|]. rewrite IH.
  destruct (lines s) as [ls rest]. simpl. destruct (decide (c = newline)) as [->|Hc]; [done|].
  destruct ls as [|l ls]; simpl; [|done].
  destruct (lines (rest ++ t)) as [ls' rest']. destruct (decide (c = newline)); [done|]. by destruct ls'.
Qed.

Lemma line_events_app max ls ks : forall off,
  line_events max off (ls ++ ks) =
    line_events max off ls ++ line_events max (off + zlen (unlines ls)) ks.
Proof.
  induction ls as [|l ls IH]; intros off; simpl.
  { change (zlen (unlines [])) with 0. by rewrite Z.add_0_r. }
  rewrite IH. do 3 f_equal. unfold unlines. rewrite fmap_cons. cbn [concat].
  rewrite !zlen_app. change (zlen [newline]) with 1. lia.
Qed.

Lemma zlen_unlines s : zlen s = zlen (unlines (lines s).1) + zlen (lines s).2.
Proof. destruct (lines_unlines s) as [Hs _]. rewrite Hs at 1. apply zlen_app. Qed.

(** ** The reader implements the specification *)

(** The reader holds the unfinished line [p]; one that is over the cap is not
    held, only remembered. *)
Record holds (r : lineReader) (p : bytes) : Prop := {
  ho_oversize : oversize r = (maxLine r <? zlen p);
  ho_cur : cur r = if maxLine r <? zlen p then [] else p;
}.

Lemma holds_new start max : 0 <= max -> holds (newLineReader start max) [].
Proof.
  intros Hm. split; simpl; change (zlen []) with 0; by destruct (max <? 0) eqn:E; go_bools; [lia|].
Qed.

Lemma holds_bounded r p : 0 <= maxLine r -> holds r p -> zlen (cur r) <= maxLine r.
Proof.
  intros Hm [_ ->]. destruct (_ <? _) eqn:E; go_bools; [by change (zlen []) with 0|lia].
Qed.

(** The state after the bytes [q] of the same line. *)
Lemma holds_more r p q :
  holds r p ->
  let r1 :=
    if oversize r then r
    else if zlen q <=? maxLine r - zlen (cur r) then
      mkReader (maxLine r) (offset r) (cur r ++ q) false
    else mkReader (maxLine r) (offset r) [] true in
  maxLine r1 = maxLine r /\ offset r1 = offset r /\
  oversize r1 = (maxLine r <? zlen (p ++ q)) /\
  cur r1 = if maxLine r <? zlen (p ++ q) then [] else p ++ q.
Proof.
  intros [Ho Hc]. pose proof (zlen_nonneg q). rewrite zlen_app. cbv zeta.
  destruct (maxLine r <? zlen p) eqn:E; rewrite Ho, ?Hc; go_bools.
  - split_and!; try done; rewrite ?Ho, ?Hc; destruct (_ <? _) eqn:E2; go_bools; done || lia.
  - destruct (zlen q <=? _) eqn:E2; go_bools; simpl; split_and!; try done;
      destruct (_ <? zlen p + _) eqn:E3; go_bools; done || lia.
Qed.

Lemma feed_step_line r p l s :
  0 <= maxLine r -> holds r p -> newline ∉ l ->
  exists r', feed_step r (l ++ newline :: s) =
    (r', line_events (maxLine r) (offset r - zlen p) [p ++ l], s) /\
    holds r' [] /\ maxLine r' = maxLine r /\ offset r' = offset r + zlen l + 1.
Proof.
  intros Hmax Hr Hl. unfold feed_step.
  destruct (IndexByte_spec (l ++ newline :: s) newline) as [[_ Hn]|(p' & r' & Heq & Hp' & Hidx)].
  { exfalso. apply Hn, elem_of_app. right. by left. }
  assert (p' = l /\ r' = s) as [-> ->].
  { clear -Heq Hl Hp'. revert p' Heq Hp'. induction l as [|c l IH]; intros [|c' p'] Heq Hp'; simpl in Heq.
    - by injection Heq as ->.
    - injection Heq as <- _. apply not_elem_of_cons in Hp' as [? _]. done.
    - injection Heq as -> _. apply not_elem_of_cons in Hl as [? _]. done.
    - injection Heq as <- Heq. apply not_elem_of_cons in Hl as [_ Hl]. apply not_elem_of_cons in Hp' as [_ Hp'].
      destruct (IH Hl p' Heq Hp') as [-> ->]. done. }
  rewrite Hidx. pose proof (zlen_nonneg l).
  destruct (0 <=? zlen l) eqn:E; go_bools; [|lia].
  pose proof (slice_app_mid [] l (newline :: s)) as Hsl. change (zlen []) with 0 in Hsl.
  rewrite Z.add_0_l in Hsl. simpl app in Hsl. rewrite Hsl.
  assert (drop (Z.to_nat (zlen l + 1)) (l ++ newline :: s) = s) as ->.
  { rewrite Z2Nat.inj_add by lia. unfold zlen. rewrite Nat2Z.id.
    rewrite <- drop_drop, drop_app_length. done. }
  pose proof (holds_more r p l Hr) as Hm. cbv zeta in Hm.
  set (r1 := if oversize r then r else _) in *. destruct Hm as (Hm & Ho & Hov & Hc).
  cbn [oversize offset maxLine cur]. rewrite Hov, Hc, Hm, Ho. cbn [line_events].
  replace (offset r - zlen p + zlen (p ++ l) + 1) with (offset r + (zlen l + 1))
    by (rewrite zlen_app; lia).
  pose proof (holds_new (offset r + (zlen l + 1)) (maxLine r) Hmax) as Hnew.
  destruct (maxLine r <? zlen (p ++ l)) eqn:E2; destruct (zlen (p ++ l) <=? maxLine r) eqn:E3;
    go_bools; try lia;
    (eexists; split; [reflexivity|]; cbn [maxLine offset]; split; [exact Hnew|]; split; [done|lia]).
Qed.

Lemma feed_step_plain r p q :
  q ≠ [] -> holds r p -> newline ∉ q ->
  exists r', feed_step r q = (r', [], []) /\
    holds r' (p ++ q) /\ maxLine r' = maxLine r /\ offset r' = offset r + zlen q.
Proof.
  intros Hne Hr Hq. unfold feed_step.
  destruct (IndexByte_spec q newline) as [[-> _]|(p' & r' & -> & _)].
  2: { exfalso. apply Hq, elem_of_app. right. by left. }
  change (0 <=? -1) with false. cbv iota.
  assert (drop (Z.to_nat (zlen q)) q = []) as -> by (unfold zlen; by rewrite Nat2Z.id, drop_all).
  pose proof (holds_more r p q Hr) as Hm. cbv zeta in Hm.
  set (r1 := if oversize r then r else _) in *. destruct Hm as (Hm & Ho & Hov & Hc).
  eexists. split; [reflexivity|]. cbn [oversize offset maxLine cur].
  split; [|split; [done|lia]]. by split; cbn [oversize maxLine cur]; rewrite Hm.
Qed.

(** ** Feeding a chunk *)

Lemma feed_loop_spec fuel : forall r p chunk,
  0 <= maxLine r -> holds r p -> (length chunk <= fuel)%nat -> newline ∉ p ->
  exists r', feed_loop fuel r chunk =
    Some (r', line_events (maxLine r) (offset r - zlen p) (lines (p ++ chunk)).1) /\
    holds r' (lines (p ++ chunk)).2 /\ maxLine r' = maxLine r /\ offset r' = offset r + zlen chunk.
Proof.
  induction fuel as [|fuel IH]; intros r p chunk Hmax Hr Hlen Hp.
  { destruct chunk; simpl in Hlen; [|lia]. exists r. rewrite app_nil_r, lines_plain by done.
    change (zlen []) with 0. split; [done|]. split; [done|]. split; [done|lia]. }
  destruct (decide (chunk = [])) as [->|Hne].
  { exists r. rewrite app_nil_r, lines_plain by done. change (zlen []) with 0.
    split; [done|]. split; [done|]. split; [done|lia]. }
  assert (feed_loop (S fuel) r chunk =
    (let '(r, evs, rest) := feed_step r chunk in
     match feed_loop fuel r rest with None => None | Some (r, evs') => Some (r, evs ++ evs') end)) as ->
    by (by destruct chunk).
  destruct (IndexByte_spec chunk newline) as [[_ Hn]|(l & s & -> & Hl & _)].
  - destruct (feed_step_plain r p chunk Hne Hr Hn) as (r' & -> & Hr' & Hm & Ho).
    exists r'. destruct fuel; simpl; (rewrite lines_plain; [|rewrite elem_of_app; tauto]); done.
  - destruct (feed_step_line r p l s Hmax Hr Hl) as (r' & -> & Hr' & Hm & Ho).
    rewrite app_assoc, lines_line by (rewrite elem_of_app; tauto). simpl fst. simpl snd.
    rewrite length_app in Hlen. simpl in Hlen.
    destruct (IH r' [] s) as (r2 & -> & Hr2 & Hm2 & Ho2); [lia|done|lia|apply not_elem_of_nil|].
    simpl app in *. exists r2. change (zlen []) with 0 in *. cbn [line_events].
    rewrite Hm, Ho. split; [|split; [done|split; [congruence|rewrite zlen_app, zlen_cons; lia]]].
    do 2 f_equal. cbn [app]. f_equal. f_equal. rewrite zlen_app. lia.
Qed.

Lemma feed_spec r p chunk :
  0 <= maxLine r -> holds r p -> newline ∉ p ->
  exists r', feed r chunk =
    Some (r', line_events (maxLine r) (offset r - zlen p) (lines (p ++ chunk)).1) /\
    holds r' (lines (p ++ chunk)).2 /\ maxLine r' = maxLine r /\ offset r' = offset r + zlen chunk.
Proof. intros. by apply feed_loop_spec. Qed.

(** What a run of reads delivers, and whether it ends in an error. *)
Fixpoint delivered (reads : list (bytes * read_end)) : bytes * bool :=
  match reads with
  | [] => ([], false)
  | (chunk, ReadEOF) :: _ => (chunk, false)
  | (chunk, ReadFailed) :: _ => (chunk, true)
  | ([], ReadOK) :: _ => ([], false)
  | (chunk, ReadOK) :: reads => let '(rest, failed) := delivered reads in (chunk ++ rest, failed)
  end.

Lemma feed_any r p chunk :
  0 <= maxLine r -> holds r p -> newline ∉ p ->
  exists r', (match chunk with [] => Some (r, []) | _ => feed r chunk end) =
    Some (r', line_events (maxLine r) (offset r - zlen p) (lines (p ++ chunk)).1) /\
    holds r' (lines (p ++ chunk)).2 /\ maxLine r' = maxLine r /\ offset r' = offset r + zlen chunk.
Proof.
  intros Hm Hr Hp. destruct chunk; [|by apply feed_spec].
  exists r. rewrite app_nil_r, lines_plain by done. change (zlen []) with 0.
  split; [done|]. split; [done|]. split; [done|lia].
Qed.

Lemma fill_spec reads : forall r p,
  0 <= maxLine r -> holds r p -> newline ∉ p ->
  let '(got, failed) := delivered reads in
  exists r', fill r reads =
    Some (r', line_events (maxLine r) (offset r - zlen p) (lines (p ++ got)).1, failed) /\
    holds r' (lines (p ++ got)).2 /\ maxLine r' = maxLine r /\ offset r' = offset r + zlen got.
Proof.
  induction reads as [|[chunk e] reads IH]; intros r p Hm Hr Hp; cbn [delivered fill].
  { exists r. rewrite app_nil_r, lines_plain by done. change (zlen []) with 0.
    split; [done|]. split; [done|]. split; [done|lia]. }
  destruct (feed_any r p chunk Hm Hr Hp) as (r1 & -> & Hr1 & Hm1 & Ho1).
  destruct e; [|by destruct chunk; exists r1|by destruct chunk; exists r1].
  destruct chunk as [|c chunk]; [by exists r1|]. set (ch := c :: chunk) in *.
  specialize (IH r1 (lines (p ++ ch)).2 ltac:(lia) Hr1 (proj1 (proj2 (lines_unlines _)))).
  destruct (delivered reads) as [got failed].
  destruct IH as (r2 & -> & Hr2 & Hm2 & Ho2). exists r2.
  rewrite app_assoc, (lines_app (p ++ ch)). simpl fst. simpl snd. rewrite line_events_app, Hm1.
  pose proof (zlen_unlines (p ++ ch)) as Hz. rewrite zlen_app in Hz.
  replace (offset r1 - zlen (lines (p ++ ch)).2)
    with (offset r - zlen p + zlen (unlines (lines (p ++ ch)).1)) by lia.
  split; [done|]. split; [done|]. split; [congruence|]. rewrite zlen_app. lia.
Qed.

(** ** Property *)

Fixpoint fills (r : lineReader) (rs : list (list (bytes * read_end))) :
    option (lineReader * list line_event) :=
  match rs with
  | [] => Some (r, [])
  | reads :: rs =>
      match fill r reads with
      | None => None
      | Some (r, evs, _) =>
          match fills r rs with
          | None => None
          | Some (r, evs') => Some (r, evs ++ evs')
          end
      end
  end.

Lemma fills_spec rs : forall r p,
  0 <= maxLine r -> holds r p -> newline ∉ p ->
  let got := concat ((fun reads => (delivered reads).1) <$> rs) in
  exists r', fills r rs =
    Some (r', line_events (maxLine r) (offset r - zlen p) (lines (p ++ got)).1) /\
    holds r' (lines (p ++ got)).2 /\ maxLine r' = maxLine r /\ offset r' = offset r + zlen got.
Proof.
  induction rs as [|reads rs IH]; intros r p Hm Hr Hp; cbn [fills].
  { exists r. simpl. rewrite app_nil_r, lines_plain by done. change (zlen []) with 0.
    split; [done|]. split; [done|]. split; [done|lia]. }
  rewrite fmap_cons. cbn [concat].
  pose proof (fill_spec reads r p Hm Hr Hp) as Hf. destruct (delivered reads) as [ch failed].
  destruct Hf as (r1 & -> & Hr1 & Hm1 & Ho1). simpl fst.
  specialize (IH r1 (lines (p ++ ch)).2 ltac:(lia) Hr1 (proj1 (proj2 (lines_unlines _)))).
  cbv zeta in IH. destruct IH as (r2 & -> & Hr2 & Hm2 & Ho2). exists r2.
  rewrite app_assoc, (lines_app (p ++ ch)). simpl fst. simpl snd. rewrite line_events_app, Hm1.
  pose proof (zlen_unlines (p ++ ch)) as Hz. rewrite zlen_app in Hz.
  replace (offset r1 - zlen (lines (p ++ ch)).2)
    with (offset r - zlen p + zlen (unlines (lines (p ++ ch)).1)) by lia.
  split; [done|]. split; [done|]. split; [congruence|]. rewrite zlen_app. lia.
Qed.

(** C27. However the file's bytes arrive, cut into chunks and spread over calls
    of [fill], the reader emits exactly the complete lines within the cap and
    rejects exactly the longer ones, in order, each with the offset of the byte
    after its newline; it never holds more than the cap, ends at the offset of
    the last byte read, and has a pending line exactly when bytes follow the
    last newline. *)
Theorem lines_read_once (start max : Z) (rs : list (list (bytes * read_end))) :
  0 <= max ->
  let content := concat ((fun reads => (delivered reads).1) <$> rs) in
  exists r', fills (newLineReader start max) rs =
    Some (r', line_events max start (lines content).1) /\
    offset r' = start + zlen content /\
    zlen (cur r') <= max /\
    (hasPending r' = true <-> (lines content).2 ≠ []) /\
    (hasPending r' = true -> oversize r' = false -> cur r' = (lines content).2) /\
    content = unlines (lines content).1 ++ (lines content).2.
Proof.
  intros Hm content.
  destruct (fills_spec rs (newLineReader start max) []) as (r' & Hf & Hr & Hmax & Ho);
    [done|by apply holds_new|apply not_elem_of_nil|]. fold content in Hf, Hr, Ho.
  simpl app in *. exists r'. simpl maxLine in *. simpl offset in Hf, Ho. change (zlen []) with 0 in Hf.
  rewrite Z.sub_0_r in Hf. split; [done|]. split; [done|].
  split; [rewrite <- Hmax; apply (holds_bounded _ (lines content).2); [lia|done]|].
  destruct Hr as [Hov Hc]. rewrite Hmax in Hov, Hc. split; [|split].
  - unfold hasPending. rewrite Hov, Hc. split.
    + intros H%orb_true_iff Hnil. rewrite Hnil in H. change (zlen []) with 0 in H.
      destruct H as [H|H]; [by destruct (max <? 0)|]. go_bools. lia.
    + intros Hne%zlen_pos. apply orb_true_iff. destruct (max <? _) eqn:E; [by right|].
      left. by apply Z.ltb_lt.
  - intros _ Hno. rewrite Hc. by rewrite <- Hov, Hno.
  - apply lines_unlines.
Qed.

Lemma lines_read_once_witness :
  exists r', fills (newLineReader 100 3)
      [[(lit "ab", ReadOK); (lit "c" ++ [10] ++ lit "toolo", ReadEOF)];
       [(lit "ng" ++ [10; 10] ++ lit "x", ReadEOF)]] =
    Some (r', [Emit (lit "abc") 104; Reject 112; Emit [] 113]) /\ zlen (cur r') <= 3.
Proof.
  destruct (lines_read_once 100 3
    [[(lit "ab", ReadOK); (lit "c" ++ [10] ++ lit "toolo", ReadEOF)];
     [(lit "ng" ++ [10; 10] ++ lit "x", ReadEOF)]]) as (r' & Hf & _ & Hc & _); [lia|].
  exists r'. split; [rewrite Hf; vm_compute; reflexivity|exact Hc].
Defined.
