(* ===== verification/Tailer.v ===== *)
(** The log tailer: finding the files to read after a restart
    ([internal/agent/tailer/scan.go], [catchup.go]) and following the live
    file ([live.go]), over the line reader.

    The file system is an argument: what the directory lists, what opening a
    path gives, and what the reads, stats and seeks of one poll return. The
    emitted lines and the counters are results. *)
From S2P Require Import Prelude GoBase GoStrings Position LineReader.
#[local] Open Scope Z_scope.

(** ** Configuration *)

Record Config : Type := mkConfig {
  MaxLineBytes : Z;
  MaxRotatedFiles : Z;
  MaxRotatedBytes : Z;
  PollInterval : Z;
}.

Definition MaxLogLineBytes : Z := 64 * 1024.
Definition defaultMaxRotatedFiles : Z := 64.
Definition defaultMaxRotatedBytes : Z := 256 * 1024 * 1024.
Definition defaultPollInterval : Z := 500 * 1000000.

(** The configuration [New] keeps; [None] is its panic. *)
Definition New (cfg : Config) : option Config :=
  if (MaxLineBytes cfg <? 0) || (MaxRotatedFiles cfg <? 0) || (MaxRotatedBytes cfg <? 0)
     || (PollInterval cfg <? 0) then None
  else
    Some (mkConfig
      (if MaxLineBytes cfg =? 0 then MaxLogLineBytes else MaxLineBytes cfg)
      (if MaxRotatedFiles cfg =? 0 then defaultMaxRotatedFiles else MaxRotatedFiles cfg)
      (if MaxRotatedBytes cfg =? 0 then defaultMaxRotatedBytes else MaxRotatedBytes cfg)
      (if PollInterval cfg =? 0 then defaultPollInterval else PollInterval cfg)).

(** ** scan.go *)

Record candidate : Type := mkCand { path : string; inode : Z; size : Z; mtime : Z }.

(** A directory entry: its name, and what [Info] said of it. *)
Record info : Type := mkInfo {
  isSymlink : bool;
  isRegular : bool;
  infoInode : option Z;
  infoSize : Z;
  infoMtime : Z;
}.
Record dirent : Type := mkEntry { entName : string; entInfo : option info }.

(** [filepath.Join(dir, name)] for a cleaned [dir]. *)
Definition filepath_join (dir name : string) : string :=
  if String.eqb dir "." then name
  else if String.eqb dir "/" then "/" +:+ name
  else dir +:+ "/" +:+ name.

Definition entry_candidate (dir base : string) (e : dirent) : option candidate :=
  if negb (String.eqb (entName e) base) && negb (String.prefix base (entName e)) then None else
  match entInfo e with
  | None => None
  | Some i =>
      if isSymlink i || negb (isRegular i) then None else
      match infoInode i with
      | None => None
      | Some ino => Some (mkCand (filepath_join dir (entName e)) ino (infoSize i) (infoMtime i))
      end
  end.

(** Oldest first, the path deciding between equal times. *)
Definition older (a b : candidate) : Prop :=
  mtime a < mtime b \/ (mtime a = mtime b /\ String.leb (path a) (path b) = true).
#[export] Instance older_dec a b : Decision (older a b).
Proof. unfold older. apply _. Defined.

Definition listCandidates (dir base : string) (entries : option (list dirent)) : list candidate :=
  match entries with
  | None => []
  | Some entries => merge_sort older (omap (entry_candidate dir base) entries)
  end.

(** ** catchup.go: which files to read *)

(** [siblings[i:]] for the first [i] whose file holds the position. *)
Fixpoint find_position (siblings : list candidate) (pos : Position) : option (list candidate) :=
  match siblings with
  | [] => None
  | c :: rest =>
      if negb (inode c =? Inode pos) || (size c <? Offset pos) then find_position rest pos
      else Some siblings
  end.

(** The bytes of the proposed chain from the position on. *)
Definition chain_bytes (start : Z) (chain : list candidate) : Z :=
  match chain with
  | [] => 0
  | c :: rest => (size c - start) + sum_by size rest
  end.

(** The newest files that the two limits allow; [rev] is newest first. *)
Fixpoint keep_newest (cfg : Config) (rev : list candidate) (kept : list candidate) (keptBytes : Z) :
    list candidate :=
  match rev with
  | [] => kept
  | c :: rest =>
      if MaxRotatedFiles cfg <=? zlen kept then kept else
      let next := keptBytes + size c in
      if MaxRotatedBytes cfg <? next then kept
      else keep_newest cfg rest (kept ++ [c]) next
  end.

Definition selectChain (cfg : Config) (cands : list candidate) (liveIdx : option nat)
    (resumeFrom : Position) (hasResume : bool) : list candidate * Z * bool :=
  let siblings := match liveIdx with None => cands | Some i => take i cands ++ drop (S i) cands end in
  let fallback := (reverse (keep_newest cfg (reverse siblings) [] 0), 0, false) in
  if hasResume then
    let in_live :=
      match liveIdx ≫= (fun i => cands !! i) with
      | Some live => (inode live =? Inode resumeFrom) && (Offset resumeFrom <=? size live)
      | None => false
      end in
    if in_live then ([], 0, true) else
    match find_position siblings resumeFrom with
    | Some proposed =>
        if (zlen proposed <=? MaxRotatedFiles cfg) &&
           (chain_bytes (Offset resumeFrom) proposed <=? MaxRotatedBytes cfg)
        then (proposed, Offset resumeFrom, true)
        else fallback
    | None => fallback
    end
  else fallback.

(** ** Reading a file *)

(** A file as one open finds it: its inode, whether the seek worked, and what
    reads from an offset return. *)
Record opened : Type := mkOpened {
  opInode : option Z;
  opSeek : bool;
  opReads : Z -> list (bytes * read_end);
}.

(** [Line] *)
Record Line : Type := mkLine { Data : bytes; Pos : Position }.

Record counters : Type := mkCounters {
  oversizeLines : Z;
  discardedPartial : Z;
  skippedChain : Z;
}.

Definition add_skipped (k : counters) : counters :=
  mkCounters (oversizeLines k) (discardedPartial k) (skippedChain k + 1).
Definition add_discarded (k : counters) : counters :=
  mkCounters (oversizeLines k) (discardedPartial k + 1) (skippedChain k).

(** The callbacks of every [fill]: lines to [emit], rejections counted. *)
Definition emitted (ino : Z) (evs : list line_event) : list Line :=
  omap (fun e => match e with Emit l pos => Some (mkLine l (mkPosition ino pos)) | Reject _ => None end) evs.

Definition is_reject (e : line_event) : bool := match e with Reject _ => true | Emit _ _ => false end.

Definition count_rejected (k : counters) (evs : list line_event) : counters :=
  mkCounters
    (oversizeLines k + zlen (filter (fun e => is_reject e = true) evs))
    (discardedPartial k) (skippedChain k).

Definition readWhole (cfg : Config) (c : candidate) (start : Z) (f : option opened) (k : counters) :
    option (bool * list Line * counters) :=
  match f with
  | None => Some (false, [], add_skipped k)
  | Some f =>
      if bool_decide (opInode f = Some (inode c)) && opSeek f then
        match fill (newLineReader start (MaxLineBytes cfg)) (opReads f start) with
        | None => None
        | Some (lr, evs, _) =>
            let k := count_rejected k evs in
            let k := if hasPending lr then add_discarded k else k in
            Some (true, emitted (inode c) evs, k)
        end
      else Some (false, [], add_skipped k)
  end.

Fixpoint read_chain (cfg : Config) (openf : candidate -> option opened) (chain : list candidate)
    (start : Z) (k : counters) : option (bool * list Line * counters) :=
  match chain with
  | [] => Some (true, [], k)
  | c :: rest =>
      match readWhole cfg c start (openf c) k with
      | None => None
      | Some (ok, ls, k) =>
          match read_chain cfg openf rest 0 k with
          | None => None
          | Some (ok', ls', k) => Some (ok && ok', ls ++ ls', k)
          end
      end
  end.

Record caught_up : Type := mkCaught {
  PositionFound : bool;
  caughtReader : option (lineReader * Z);
  caughtLines : list Line;
  caughtCounters : counters;
}.

(** [catchUp] on what the directory lists; [livePath] is the tailer's path. *)
Definition index_of_path (livePath : string) (cands : list candidate) : option nat :=
  fst <$> list_find (fun c => path c = livePath) cands.

Definition catchUp (cfg : Config) (livePath : string) (cands : list candidate)
    (openf : candidate -> option opened) (resumeFrom : Position) (hasResume : bool) (k : counters) :
    option caught_up :=
  let liveIdx := index_of_path livePath cands in
  let '(chain, chainStart, positionFound) := selectChain cfg cands liveIdx resumeFrom hasResume in
  match read_chain cfg openf chain chainStart k with
  | None => None
  | Some (ok, ls, k) =>
      let positionFound := positionFound && ok in
      match liveIdx ≫= (fun i => cands !! i) with
      | None => Some (mkCaught positionFound None ls k)
      | Some live =>
          let liveStart := if bool_decide (chain = []) && positionFound then Offset resumeFrom else 0 in
          match openf live with
          | None => Some (mkCaught positionFound None ls k)
          | Some f =>
              match opInode f with
              | None => Some (mkCaught positionFound None ls k)
              | Some ino =>
                  if negb (opSeek f) then Some (mkCaught positionFound None ls k) else
                  match fill (newLineReader liveStart (MaxLineBytes cfg)) (opReads f liveStart) with
                  | None => None
                  | Some (lr, evs, failed) =>
                      Some (mkCaught positionFound (if (failed : bool) then None else Some (lr, ino))
                              (ls ++ emitted ino evs) (count_rejected k evs))
                  end
              end
          end
      end
  end.

(** ** live.go: one round of the loop of [followLive] *)

(** What the operating system answers in one round. *)
Record poll_env : Type := mkEnv {
  envOpen : option opened;
  envReads : list (bytes * read_end);
  envLstat : option (option Z);
  envDrain : list (bytes * read_end);
  envSize : option Z;
  envReseek : bool;
}.

Record live : Type := mkLive {
  lvReader : option (lineReader * Z);
  lvReadOK : bool;
  lvCounters : counters;
}.

(** The result of a round: the state, the lines emitted, and whether the loop
    sleeps before the next. *)
Definition poll_read (cfg : Config) (lr : lineReader) (ino : Z) (k : counters) (e : poll_env) :
    option (live * list Line * bool) :=
  match fill lr (envReads e) with
  | None => None
  | Some (lr, evs, true) => Some (mkLive None false (count_rejected k evs), emitted ino evs, true)
  | Some (lr, evs, false) =>
      let k := count_rejected k evs in
      match envLstat e with
      | None => Some (mkLive (Some (lr, ino)) true k, emitted ino evs, true)
      | Some st =>
          if negb (bool_decide (st = Some ino)) then
            match fill lr (envDrain e) with
            | None => None
            | Some (lr, evs', _) =>
                let k := count_rejected k evs' in
                let k := if hasPending lr then add_discarded k else k in
                Some (mkLive None true k, emitted ino (evs ++ evs'), false)
            end
          else
            match envSize e with
            | Some size =>
                if size <? offset lr then
                  let k := add_discarded k in
                  if envReseek e then
                    Some (mkLive (Some (newLineReader 0 (MaxLineBytes cfg), ino)) true k,
                          emitted ino evs, false)
                  else Some (mkLive None true k, emitted ino evs, false)
                else Some (mkLive (Some (lr, ino)) true k, emitted ino evs, true)
            | None => Some (mkLive (Some (lr, ino)) true k, emitted ino evs, true)
            end
      end
  end.

Definition poll (cfg : Config) (t : live) (e : poll_env) : option (live * list Line * bool) :=
  match lvReader t with
  | Some (lr, ino) => poll_read cfg lr ino (lvCounters t) e
  | None =>
      match envOpen e with
      | None => Some (mkLive None false (lvCounters t), [], true)
      | Some f =>
          match opInode f with
          | None => Some (mkLive None false (lvCounters t), [], true)
          | Some ino =>
              if negb (opSeek f) then Some (mkLive None false (lvCounters t), [], true)
              else poll_read cfg (newLineReader 0 (MaxLineBytes cfg)) ino (lvCounters t) e
          end
      end
  end.

(** ** Choosing the chain *)

Definition siblings_of (cands : list candidate) (liveIdx : option nat) : list candidate :=
  match liveIdx with None => cands | Some i => take i cands ++ drop (S i) cands end.

Lemma keep_newest_spec cfg revs : forall kept keptBytes,
  keptBytes = sum_by size kept -> zlen kept <= MaxRotatedFiles cfg -> keptBytes <= MaxRotatedBytes cfg ->
  let out := keep_newest cfg revs kept keptBytes in
  (exists more, out = kept ++ more /\ more `prefix_of` revs) /\
  zlen out <= MaxRotatedFiles cfg /\ sum_by size out <= MaxRotatedBytes cfg.
Proof.
  induction revs as [|c revs IH]; intros kept kb -> Hf Hb; cbn [keep_newest].
  { split; [|done]. exists []. by rewrite app_nil_r. }
  assert (forall l, exists more, l = l ++ more /\ more `prefix_of` c :: revs) as Hstop.
  { intros l. exists []. split; [by rewrite app_nil_r|apply prefix_nil]. }
  destruct (_ <=? zlen kept) eqn:E1; [by split|]. destruct (_ <? _) eqn:E2; [by split|]. go_bools.
  destruct (IH (kept ++ [c]) (sum_by size kept + size c)) as [(more & -> & Hp) Hrest].
  - rewrite sum_by_app, sum_by_cons. change (sum_by size []) with 0. lia.
  - rewrite zlen_app. change (zlen [c]) with 1. lia.
  - done.
  - split; [|done]. exists (c :: more). split; [by rewrite <- app_assoc|]. by apply prefix_cons.
Qed.

Lemma find_position_spec siblings pos :
  match find_position siblings pos with
  | Some chain => exists skipped c rest, siblings = skipped ++ chain /\ chain = c :: rest /\
      inode c = Inode pos /\ Offset pos <= size c /\
      Forall (fun c => inode c ≠ Inode pos \/ size c < Offset pos) skipped
  | None => Forall (fun c => inode c ≠ Inode pos \/ size c < Offset pos) siblings
  end.
Proof.
  induction siblings as [|c siblings IH]; cbn [find_position]; [constructor|].
  destruct (negb (inode c =? Inode pos)) eqn:E1, (size c <? Offset pos) eqn:E2; simpl orb; cbv iota; go_bools.
  4: { exists [], c, siblings. split; [done|]. split; [done|]. split; [done|]. split; [done|constructor]. }
  all: destruct (find_position siblings pos) as [chain|];
    [destruct IH as (sk & c' & rest & -> & -> & Hi & Ho & Hsk); exists (c :: sk), c', rest;
     split; [done|]; split; [done|]; split; [done|]; split; [done|]; constructor; [|done]
    |constructor; [|done]]; (by left) || (by right).
Qed.

Lemma zlen_reverse {A} (l : list A) : zlen (reverse l) = zlen l.
Proof. unfold zlen. by rewrite length_reverse. Qed.

Lemma sum_by_reverse {A} (f : A -> Z) l : sum_by f (reverse l) = sum_by f l.
Proof.
  induction l as [|x l IH]; [done|]. rewrite reverse_cons, sum_by_app, IH, !sum_by_cons.
  change (sum_by f []) with 0. lia.
Qed.

(** Whether the position lies in the live file. *)
Definition in_live (cands : list candidate) (liveIdx : option nat) (pos : Position) : bool :=
  match liveIdx ≫= (fun i => cands !! i) with
  | Some live => (inode live =? Inode pos) && (Offset pos <=? size live)
  | None => false
  end.

Lemma selectChain_spec cfg cands liveIdx pos hasResume :
  0 <= MaxRotatedFiles cfg -> 0 <= MaxRotatedBytes cfg ->
  let '(chain, start, found) := selectChain cfg cands liveIdx pos hasResume in
  (exists skipped, siblings_of cands liveIdx = skipped ++ chain) /\
  zlen chain <= MaxRotatedFiles cfg /\ chain_bytes start chain <= MaxRotatedBytes cfg /\
  (found = true -> hasResume = true /\
     ((in_live cands liveIdx pos = true /\ chain = []) \/
      (exists c rest, chain = c :: rest /\ inode c = Inode pos /\ start = Offset pos /\ Offset pos <= size c))) /\
  (found = false -> start = 0 /\
     (hasResume = false \/
      in_live cands liveIdx pos = false /\
      forall skipped c rest, siblings_of cands liveIdx = skipped ++ c :: rest ->
        inode c = Inode pos -> Offset pos <= size c ->
        Forall (fun c => inode c ≠ Inode pos \/ size c < Offset pos) skipped ->
        MaxRotatedFiles cfg < zlen (c :: rest) \/
        MaxRotatedBytes cfg < chain_bytes (Offset pos) (c :: rest))).
Proof.
  intros Hf Hb. unfold selectChain. fold (siblings_of cands liveIdx). fold (in_live cands liveIdx pos).
  set (sib := siblings_of cands liveIdx).
  destruct (keep_newest_spec cfg (reverse sib) [] 0) as [(more & Hk & [k Hp]) [Hkf Hkb]];
    [done|by change (zlen []) with 0|done|]. simpl app in Hk.
  set (kept := keep_newest cfg (reverse sib) [] 0) in *.
  assert (exists skipped, sib = skipped ++ reverse kept) as Hsuf.
  { exists (reverse k). by rewrite Hk, <- reverse_app, <- Hp, reverse_involutive. }
  assert (zlen (reverse kept) <= MaxRotatedFiles cfg) as Hkf' by (by rewrite zlen_reverse).
  assert (chain_bytes 0 (reverse kept) <= MaxRotatedBytes cfg) as Hkb'.
  { rewrite <- sum_by_reverse in Hkb. destruct (reverse kept) as [|c rest]; [done|].
    unfold chain_bytes. rewrite sum_by_cons in Hkb. lia. }
  destruct hasResume.
  2: { split; [done|]. split; [done|]. split; [done|]. split; [done|]. intros _. split; [done|by left]. }
  destruct (in_live cands liveIdx pos) eqn:El.
  { split; [exists sib; by rewrite app_nil_r|]. split; [by change (zlen []) with 0|]. split; [done|].
    split; [|done]. intros _. split; [done|by left]. }
  pose proof (find_position_spec sib pos) as Hfind.
  destruct (find_position sib pos) as [chain|].
  - destruct Hfind as (sk & c & rest & Hsib & -> & Hi & Ho & Hsk).
    assert (forall skipped c' rest', sib = skipped ++ c' :: rest' ->
      inode c' = Inode pos -> Offset pos <= size c' ->
      Forall (fun c => inode c ≠ Inode pos \/ size c < Offset pos) skipped -> c' :: rest' = c :: rest) as Huniq.
    { clearbody sib. clear -Hsib Hi Ho Hsk. subst sib. intros skipped c' rest'. revert skipped.
      induction Hsk as [|x sk Hx Hsk IH]; intros [|y skipped] Heq Hi' Ho' Hs'; simpl in Heq.
      - by injection Heq as -> ->.
      - apply Forall_cons in Hs' as [Hy _]. injection Heq as <- _. lia.
      - injection Heq as <- _. lia.
      - apply Forall_cons in Hs' as [_ Hs']. injection Heq as _ Heq.
        by apply (IH skipped). }
    destruct (_ && _)%bool eqn:E.
    + apply andb_true_iff in E as [?%Z.leb_le ?%Z.leb_le].
      split; [by exists sk|]. split; [done|]. split; [done|]. split; [|done].
      intros _. split; [done|]. right. by exists c, rest.
    + split; [done|]. split; [done|]. split; [done|]. split; [done|]. intros _. split; [done|]. right.
      split; [done|]. intros skipped c' rest' H1 H2 H3 H4. rewrite (Huniq _ _ _ H1 H2 H3 H4).
      apply andb_false_iff in E as [?%Z.leb_gt|?%Z.leb_gt]; [by left|by right].
  - split; [done|]. split; [done|]. split; [done|]. split; [done|]. intros _. split; [done|]. right.
    split; [done|]. intros skipped c' rest' H1 H2 H3 H4. exfalso. rewrite H1 in Hfind.
    apply Forall_app in Hfind as [_ [Hc _]%Forall_cons]. lia.
Qed.

(** ** What reading emits *)

(** The lines of a file's bytes from [start] on, with their positions. *)
Definition file_lines (max ino start : Z) (got : bytes) : list Line :=
  emitted ino (line_events max start (lines got).1).

(** A file that opens as the one listed. *)
Definition own (c : candidate) (f : option opened) : bool :=
  match f with
  | Some f => bool_decide (opInode f = Some (inode c)) && opSeek f
  | None => false
  end.

(** What an open file gives from [start] on. *)
Definition given (f : option opened) (start : Z) : bytes :=
  match f with Some f => (delivered (opReads f start)).1 | None => [] end.

Fixpoint chain_lines (cfg : Config) (openf : candidate -> option opened) (chain : list candidate)
    (start : Z) : list Line :=
  match chain with
  | [] => []
  | c :: rest =>
      (if own c (openf c) then file_lines (MaxLineBytes cfg) (inode c) start (given (openf c) start) else [])
      ++ chain_lines cfg openf rest 0
  end.

Lemma fill_new start max reads :
  0 <= max ->
  exists lr, fill (newLineReader start max) reads =
    Some (lr, line_events max start (lines (delivered reads).1).1, (delivered reads).2) /\
    holds lr (lines (delivered reads).1).2 /\ maxLine lr = max /\
    offset lr = start + zlen (delivered reads).1.
Proof.
  intros Hm. pose proof (fill_spec reads (newLineReader start max) [] Hm (holds_new start max Hm)
    (not_elem_of_nil _)) as Hf.
  destruct (delivered reads) as [got failed]. destruct Hf as (lr & Hf & Hh & Hmax & Ho).
  simpl in *. change (zlen []) with 0 in Hf. rewrite Z.sub_0_r in Hf. by exists lr.
Qed.

Lemma readWhole_spec cfg c start f k :
  0 <= MaxLineBytes cfg ->
  exists k', readWhole cfg c start f k =
    Some (own c f,
      if own c f then file_lines (MaxLineBytes cfg) (inode c) start (given f start) else [], k').
Proof.
  intros Hm. unfold readWhole, own, given, file_lines. destruct f as [f|]; [|by eexists].
  destruct (_ && _)%bool; [|by eexists].
  destruct (fill_new start (MaxLineBytes cfg) (opReads f start) Hm) as (lr & -> & _). by eexists.
Qed.

Lemma read_chain_spec cfg openf chain : 0 <= MaxLineBytes cfg -> forall start k,
  exists k', read_chain cfg openf chain start k =
    Some (forallb (fun c => own c (openf c)) chain, chain_lines cfg openf chain start, k').
Proof.
  intros Hm. induction chain as [|c chain IH]; intros start k; cbn [read_chain chain_lines forallb].
  { by eexists. }
  destruct (readWhole_spec cfg c start (openf c) k Hm) as (k1 & ->).
  destruct (IH 0 k1) as (k2 & ->). by eexists.
Qed.

Lemma New_ok cfg cfg' :
  New cfg = Some cfg' ->
  0 < MaxLineBytes cfg' /\ 0 < MaxRotatedFiles cfg' /\ 0 < MaxRotatedBytes cfg'.
Proof.
  unfold New. destruct (_ || _)%bool eqn:E; [done|]. intros [= <-]. simpl. go_bools.
  unfold MaxLogLineBytes, defaultMaxRotatedFiles, defaultMaxRotatedBytes.
  repeat (case_match; go_bools); lia.
Qed.

Definition live_lines (cfg : Config) (openf : candidate -> option opened) (live : option candidate)
    (start : Z) : list Line :=
  match live with
  | None => []
  | Some live =>
      match openf live with
      | Some f =>
          match opInode f with
          | Some ino =>
              if opSeek f then file_lines (MaxLineBytes cfg) ino start (given (Some f) start) else []
          | None => []
          end
      | None => []
      end
  end.

(** ** Following the live file *)

(** Rounds that see the same file [ino], with no failing read and no
    truncation; [total] bytes of it were read before them. *)
Fixpoint steady (ino total : Z) (es : list poll_env) : Prop :=
  match es with
  | [] => True
  | e :: es =>
      let '(got, failed) := delivered (envReads e) in
      failed = false /\
      (envLstat e = None \/
       envLstat e = Some (Some ino) /\ forall size, envSize e = Some size -> total + zlen got <= size) /\
      steady ino (total + zlen got) es
  end.

Definition polled (es : list poll_env) : bytes := concat ((fun e => (delivered (envReads e)).1) <$> es).

Fixpoint polls (cfg : Config) (t : live) (es : list poll_env) : option (live * list Line) :=
  match es with
  | [] => Some (t, [])
  | e :: es =>
      match poll cfg t e with
      | None => None
      | Some (t, ls, _) =>
          match polls cfg t es with
          | None => None
          | Some (t, ls') => Some (t, ls ++ ls')
          end
      end
  end.

Lemma emitted_app ino evs evs' : emitted ino (evs ++ evs') = emitted ino evs ++ emitted ino evs'.
Proof. apply omap_app. Qed.

Lemma polls_steady cfg ino es : forall lr p ok k,
  0 <= maxLine lr -> holds lr p -> newline ∉ p -> steady ino (offset lr) es ->
  exists lr' ok' k', polls cfg (mkLive (Some (lr, ino)) ok k) es =
    Some (mkLive (Some (lr', ino)) ok' k',
          file_lines (maxLine lr) ino (offset lr - zlen p) (p ++ polled es)) /\
    holds lr' (lines (p ++ polled es)).2 /\ maxLine lr' = maxLine lr /\
    offset lr' = offset lr + zlen (polled es) /\ discardedPartial k' = discardedPartial k.
Proof.
  induction es as [|e es IH]; intros lr p ok k Hm Hh Hp Hs; cbn [polls polled].
  { exists lr, ok, k. unfold polled, file_lines. simpl. rewrite app_nil_r, lines_plain by done.
    change (zlen []) with 0. split; [done|]. split; [done|]. split; [done|]. split; [lia|done]. }
  cbn [steady] in Hs. pose proof (fill_spec (envReads e) lr p Hm Hh Hp) as Hf.
  assert (polled (e :: es) = (delivered (envReads e)).1 ++ polled es) as Hpe by done.
  destruct (delivered (envReads e)) as [got failed] eqn:Hd. simpl fst in Hpe.
  destruct Hs as (-> & Hst & Hs). destruct Hf as (lr1 & Hf & Hh1 & Hm1 & Ho1).
  set (evs := line_events (maxLine lr) (offset lr - zlen p) (lines (p ++ got)).1) in *.
  assert (poll cfg (mkLive (Some (lr, ino)) ok k) e =
    Some (mkLive (Some (lr1, ino)) true (count_rejected k evs), emitted ino evs, true)) as ->.
  { unfold poll, poll_read. cbn [lvReader lvCounters]. rewrite Hf.
    destruct Hst as [->|[-> Hsz]]; [done|]. rewrite bool_decide_eq_true_2 by done.
    simpl negb. cbv iota. destruct (envSize e) as [sz|]; [|done].
    destruct (sz <? offset lr1) eqn:E; go_bools; [|done]. specialize (Hsz sz eq_refl). lia. }
  destruct (IH lr1 (lines (p ++ got)).2 true (count_rejected k evs)) as
    (lr' & ok' & k' & -> & Hh' & Hm' & Ho' & Hdp); [lia|done|apply lines_unlines|by rewrite Ho1|].
  exists lr', ok', k'. rewrite Hpe, app_assoc. unfold file_lines.
  rewrite (lines_app (p ++ got)). simpl fst. simpl snd. rewrite line_events_app, emitted_app, Hm1.
  pose proof (zlen_unlines (p ++ got)) as Hz. rewrite zlen_app in Hz.
  replace (offset lr1 - zlen (lines (p ++ got)).2)
    with (offset lr - zlen p + zlen (unlines (lines (p ++ got)).1)) by lia.
  split; [done|]. split; [done|]. split; [congruence|]. split; [rewrite zlen_app; lia|done].
Qed.

Lemma polls_app cfg es es' : forall t,
  polls cfg t (es ++ es') =
    match polls cfg t es with
    | None => None
    | Some (t, ls) =>
        match polls cfg t es' with
        | None => None
        | Some (t, ls') => Some (t, ls ++ ls')
        end
    end.
Proof.
  induction es as [|e es IH]; intros t; cbn [polls app].
  { by destruct (polls cfg t es') as [[??]|]. }
  destruct (poll cfg t e) as [[[t1 ls] sl]|]; [|done]. rewrite IH.
  destruct (polls cfg t1 es) as [[t2 ls2]|]; [|done].
  destruct (polls cfg t2 es') as [[t3 ls3]|]; [|done]. by rewrite app_assoc.
Qed.

(** The round that opens the file reads it from its first byte. *)
Definition opens (ino : Z) (e : poll_env) : Prop :=
  exists f, envOpen e = Some f /\ opInode f = Some ino /\ opSeek f = true.

Lemma poll_opens cfg ino ok k e :
  opens ino e ->
  poll cfg (mkLive None ok k) e =
    poll cfg (mkLive (Some (newLineReader 0 (MaxLineBytes cfg), ino)) ok k) e.
Proof. intros (f & He & Hi & Hs). unfold poll. cbn [lvReader lvCounters]. by rewrite He, Hi, Hs. Qed.

(** The round that finds the file renamed away: what is left is drained. *)
Lemma poll_rotated cfg lr ino p ok k e :
  0 <= maxLine lr -> holds lr p -> newline ∉ p ->
  (delivered (envReads e)).2 = false ->
  (exists other, envLstat e = Some other /\ other ≠ Some ino) ->
  let got := (delivered (envReads e)).1 ++ (delivered (envDrain e)).1 in
  exists k', poll cfg (mkLive (Some (lr, ino)) ok k) e =
    Some (mkLive None true k', file_lines (maxLine lr) ino (offset lr - zlen p) (p ++ got), false) /\
    discardedPartial k' =
      discardedPartial k + (if bool_decide ((lines (p ++ got)).2 = []) then 0 else 1).
Proof.
  intros Hm Hh Hp Hnf (other & Hst & Hne) got. unfold poll, poll_read. cbn [lvReader lvCounters].
  pose proof (fill_spec (envReads e) lr p Hm Hh Hp) as Hf.
  destruct (delivered (envReads e)) as [got1 failed]. simpl in Hnf. subst failed.
  destruct Hf as (lr1 & -> & Hh1 & Hm1 & Ho1). rewrite Hst.
  rewrite bool_decide_eq_false_2 by done. simpl negb. cbv iota.
  pose proof (fill_spec (envDrain e) lr1 (lines (p ++ got1)).2 ltac:(lia) Hh1
    (proj1 (proj2 (lines_unlines _)))) as Hf2.
  unfold got. destruct (delivered (envDrain e)) as [got2 failed2]. simpl fst in *.
  destruct Hf2 as (lr2 & -> & Hh2 & Hm2 & Ho2).
  eexists. split.
  - do 3 f_equal. unfold file_lines. f_equal. rewrite app_assoc, (lines_app (p ++ got1)). simpl fst.
    rewrite line_events_app, Hm1. pose proof (zlen_unlines (p ++ got1)) as Hz. rewrite zlen_app in Hz.
    replace (offset lr1 - zlen (lines (p ++ got1)).2)
      with (offset lr - zlen p + zlen (unlines (lines (p ++ got1)).1)) by lia. done.
  - rewrite app_assoc, (lines_app (p ++ got1)). simpl snd.
    set (rest := (lines ((lines (p ++ got1)).2 ++ got2)).2) in *.
    assert (hasPending lr2 = negb (bool_decide (rest = []))) as ->.
    { unfold hasPending. destruct Hh2 as [-> ->]. rewrite Hm2, Hm1.
      destruct (decide (rest = [])) as [Hr|Hr].
      - rewrite Hr. change (zlen []) with 0. destruct (maxLine lr <? 0) eqn:E; go_bools; [lia|]. done.
      - rewrite (bool_decide_eq_false_2 _ Hr). apply zlen_pos in Hr.
        destruct (maxLine lr <? zlen rest) eqn:E; [by rewrite orb_true_r|].
        apply orb_true_iff. left. by apply Z.ltb_lt. }
    destruct (bool_decide (rest = [])); simpl; lia.
Qed.

(** ** Properties *)

(** What a catch-up after a restart reads. *)
Definition catches_up (cfg : Config) (livePath : string) (cands : list candidate) (openf : candidate -> option opened)
    (pos : Position) (hasResume : bool) (k : counters) : Prop :=
  let liveIdx := index_of_path livePath cands in
  exists chain start found out,
    selectChain cfg cands liveIdx pos hasResume = (chain, start, found) /\
    catchUp cfg livePath cands openf pos hasResume k = Some out /\
    (exists skipped, siblings_of cands liveIdx = skipped ++ chain) /\
    zlen chain <= MaxRotatedFiles cfg /\ chain_bytes start chain <= MaxRotatedBytes cfg /\
    PositionFound out = found && forallb (fun c => own c (openf c)) chain /\
    caughtLines out =
      chain_lines cfg openf chain start ++
      live_lines cfg openf (liveIdx ≫= (fun i => cands !! i))
        (if bool_decide (chain = []) && PositionFound out then Offset pos else 0) /\
    (PositionFound out = true ->
       (in_live cands liveIdx pos = true /\ chain = []) \/
       (exists c rest, chain = c :: rest /\ inode c = Inode pos /\ start = Offset pos /\ Offset pos <= size c)).

Lemma catch_up_reads_chain (cfg0 cfg : Config) (livePath : string) (cands : list candidate)
    (openf : candidate -> option opened) (pos : Position) (hasResume : bool) (k : counters) :
  New cfg0 = Some cfg -> catches_up cfg livePath cands openf pos hasResume k.
Proof.
  intros Hnew. unfold catches_up. set (liveIdx := index_of_path livePath cands). destruct (New_ok _ _ Hnew) as (Hml & Hmf & Hmb).
  pose proof (selectChain_spec cfg cands liveIdx pos hasResume ltac:(lia) ltac:(lia)) as Hsel.
  unfold catchUp. fold liveIdx.
  destruct (selectChain cfg cands liveIdx pos hasResume) as [[chain start] found].
  destruct Hsel as (Hsuf & Hzl & Hcb & Hfound & _).
  destruct (read_chain_spec cfg openf chain ltac:(lia) start k) as (k1 & ->).
  set (ok := forallb (fun c => own c (openf c)) chain).
  assert (forall out, PositionFound out = found && ok -> PositionFound out = true ->
    (in_live cands liveIdx pos = true /\ chain = []) \/
    (exists c rest, chain = c :: rest /\ inode c = Inode pos /\ start = Offset pos /\ Offset pos <= size c))
    as Hpf.
  { intros out -> [Hf _]%andb_true_iff. by apply Hfound. }
  exists chain, start, found.
  unfold live_lines. destruct (liveIdx ≫= _) as [lv|].
  2: { eexists. split; [done|]. split; [reflexivity|]. simpl. rewrite app_nil_r. split_and!; try done.
       apply (Hpf (mkCaught (found && ok) None [] k1)). done. }
  destruct (openf lv) as [f|].
  2: { eexists. split; [done|]. split; [reflexivity|]. simpl. rewrite app_nil_r. split_and!; try done.
       apply (Hpf (mkCaught (found && ok) None [] k1)). done. }
  destruct (opInode f) as [ino|].
  2: { eexists. split; [done|]. split; [reflexivity|]. simpl. rewrite app_nil_r. split_and!; try done.
       apply (Hpf (mkCaught (found && ok) None [] k1)). done. }
  destruct (opSeek f); simpl negb; cbv iota.
  2: { eexists. split; [done|]. split; [reflexivity|]. simpl. rewrite app_nil_r. split_and!; try done.
       apply (Hpf (mkCaught (found && ok) None [] k1)). done. }
  set (ls := if (bool_decide (chain = []) && (found && ok))%bool then Offset pos else 0).
  destruct (fill_new ls (MaxLineBytes cfg) (opReads f ls) ltac:(lia)) as (lr & -> & _).
  eexists. split; [done|]. split; [reflexivity|]. simpl. split_and!; try done.
  apply (Hpf (mkCaught (found && ok) None [] k1)). done.
Qed.

(** What the rounds from the opening of a file to its replacement emit. *)
Definition leaves (cfg : Config) (ino : Z) (ok : bool) (k : counters) (es : list poll_env) (e : poll_env) : Prop :=
  (exists e0, head (es ++ [e]) = Some e0 /\ opens ino e0) ->
  steady ino 0 es ->
  (delivered (envReads e)).2 = false ->
  (exists other, envLstat e = Some other /\ other ≠ Some ino) ->
  let got := polled es ++ (delivered (envReads e)).1 ++ (delivered (envDrain e)).1 in
  exists k', polls cfg (mkLive None ok k) (es ++ [e]) =
    Some (mkLive None true k', file_lines (MaxLineBytes cfg) ino 0 got) /\
    discardedPartial k' = discardedPartial k + (if bool_decide ((lines got).2 = []) then 0 else 1).

Lemma rotation_loses_nothing (cfg0 cfg : Config) (ino : Z) (ok : bool) (k : counters) (es : list poll_env) (e : poll_env) :
  New cfg0 = Some cfg -> leaves cfg ino ok k es e.
Proof.
  intros Hnew (e0 & Hhd & Hop) Hst Hnf Hrot got. destruct (New_ok _ _ Hnew) as (Hml & _).
  set (lr0 := newLineReader 0 (MaxLineBytes cfg)).
  assert (polls cfg (mkLive None ok k) (es ++ [e]) = polls cfg (mkLive (Some (lr0, ino)) ok k) (es ++ [e])) as ->.
  { destruct (es ++ [e]) as [|e' es'] eqn:Hes; [done|]. injection Hhd as ->. cbn [polls].
    by rewrite (poll_opens cfg ino) by done. }
  destruct (polls_steady cfg ino es lr0 [] ok k) as (lr & ok' & k1 & Hp & Hh & Hm & Ho & Hd);
    [simpl; lia|apply holds_new; lia|apply not_elem_of_nil|done|].
  simpl app in Hp, Hh. simpl in Hm, Ho.
  destruct (poll_rotated cfg lr ino (lines (polled es)).2 ok' k1 e) as (k2 & Hr & Hd2);
    [lia|done|apply lines_unlines|done|done|].
  rewrite polls_app, Hp. cbn [polls]. rewrite Hr. exists k2.
  unfold file_lines in *. rewrite Hm. unfold got. rewrite (lines_app (polled es)). simpl fst. simpl snd.
  rewrite line_events_app, emitted_app. change (zlen []) with 0. simpl maxLine. simpl offset.
  pose proof (zlen_unlines (polled es)) as Hz.
  replace (offset lr - zlen (lines (polled es)).2) with (0 - 0 + zlen (unlines (lines (polled es)).1)) by lia.
  rewrite app_nil_r. split; [done|]. by rewrite Hd2, Hd.
Qed.


Definition ex_cfg : Config := mkConfig MaxLogLineBytes 2 100 defaultPollInterval.
Definition ex_file (ino : Z) (content : bytes) : option opened :=
  Some (mkOpened (Some ino) true (fun start => [(drop (Z.to_nat start) content, ReadEOF)])).
Definition ex_cands : list candidate :=
  [mkCand "/l/o.2" 7 4 1; mkCand "/l/o.1" 8 3 2; mkCand "/l/o" 9 2 3].
Definition ex_open (c : candidate) : option opened :=
  if inode c =? 7 then ex_file 7 (lit "a" ++ [10] ++ lit "b" ++ [10])
  else if inode c =? 8 then ex_file 8 (lit "cd" ++ [10])
  else ex_file 9 (lit "e" ++ [10]).

Definition ex_round (content : bytes) (st : option (option Z)) (drain : bytes) : poll_env :=
  mkEnv (ex_file 5 []) [(content, ReadEOF)] st [(drain, ReadEOF)] None true.

