(* ===== verification/Portscan.v ===== *)
(** The port-scan detector: reading a captured packet
    ([internal/agent/portscan/parse.go]) and the sliding window over the
    ports each source tried ([tracker.go]).

    An address is the text of its [netip.Addr]. The clock is the argument
    [now] of each observation. *)
From S2P Require Import Prelude GoBase GoList.
#[local] Open Scope Z_scope.
#[local] Open Scope go_scope.

(** ** parse.go *)

Definition ipVersionIHLOffset : Z := 0.
Definition ipFlagsFragOffset : Z := 6.
Definition ipProtocolOffset : Z := 9.
Definition ipSrcOff : Z := 12.
Definition ipDstOff : Z := 16.
Definition ipMinHeaderLen : Z := 20.
Definition portsLen : Z := 4.
Definition tcpMinHeadLen : Z := 20.
Definition udpHeaderLen : Z := 8.
Definition tcpFlagsOffset : Z := 13.
Definition protoTCP : Z := 6.
Definition protoUDP : Z := 17.
Definition fragmentOffsetMask : Z := 0x1fff.
Definition synMask : Z := Z.lor 0x02 0x10.
Definition synValue : Z := 0x02.

Inductive proto : Type := ProtoTCP | ProtoUDP.
#[export] Instance proto_eq_dec : EqDecision proto.
Proof. solve_decision. Defined.
#[export] Instance proto_countable : Countable proto.
Proof.
  refine (inj_countable' (fun p => match p with ProtoTCP => true | ProtoUDP => false end)
    (fun b : bool => if b then ProtoTCP else ProtoUDP) _). by intros [].
Defined.

(** [packet]; an address is its four bytes. *)
Record packet : Type := mkPacket { Src : bytes; Dst : bytes; SrcPort : Z; DstPort : Z; Protocol : proto }.

Inductive parse_error : Type := errNotOfInterest | errMalformed | Panic.

Definition word_or (b : bytes) (i : Z) : res parse_error Z :=
  if decide (0 <= i /\ i + 2 <= zlen b) then Ok (get_u16 b i) else Err Panic.

Definition parseIPv4 (b : bytes) : res parse_error packet :=
  if zlen b <? ipMinHeaderLen then Err errMalformed else
  let? vihl := byte_or Panic b ipVersionIHLOffset in
  if negb (Z.shiftr vihl 4 =? 4) then Err errNotOfInterest else
  let headerLen := Z.land vihl 0x0f * 4 in
  if (headerLen <? ipMinHeaderLen) || (zlen b <? headerLen) then Err errMalformed else
  let? frag := word_or b ipFlagsFragOffset in
  if negb (Z.land frag fragmentOffsetMask =? 0) then Err errNotOfInterest else
  let payload := slice b headerLen (zlen b) in
  let? p := byte_or Panic b ipProtocolOffset in
  let? pr :=
    if p =? protoTCP then
      if zlen payload <? tcpMinHeadLen then Err errMalformed else
      let? flags := byte_or Panic payload tcpFlagsOffset in
      if negb (Z.land flags synMask =? synValue) then Err errNotOfInterest else Ok ProtoTCP
    else if p =? protoUDP then
      if zlen payload <? udpHeaderLen then Err errMalformed else Ok ProtoUDP
    else Err errNotOfInterest in
  if zlen payload <? portsLen then Err errMalformed else
  let? sport := word_or payload 0 in
  let? dport := word_or payload 2 in
  Ok (mkPacket (slice b ipSrcOff (ipSrcOff + 4)) (slice b ipDstOff (ipDstOff + 4)) sport dport pr).

(** ** tracker.go *)

Definition DefaultThreshold : Z := 5.
Definition DefaultWindow : Z := 30 * 1000000000.
Definition DefaultCooldown : Z := 60 * 1000000000.
Definition DefaultMaxSources : Z := 4096.

Abbreviation trackerKey := (bytes * proto)%type.

Record detection : Type := mkDetection {
  detSrc : bytes;
  detSrcPort : Z;
  detDst : bytes;
  FirstPort : Z;
  Ports : list Z;
  detProtocol : proto;
}.

Record sourceState : Type := mkSource {
  seen : gmap Z Z;
  order : list Z;
  lastEmit : Z;
  emitted : bool;
  elem : nat;
  lastSrcPort : Z;
  lastDst : bytes;
}.

Record tracker : Type := mkTracker {
  threshold : Z;
  window : Z;
  cooldown : Z;
  maxSources : Z;
  states : gmap trackerKey sourceState;
  recency : glist trackerKey;
}.

Record trackerConfig : Type := mkTrackerConfig {
  Threshold : Z;
  Window : Z;
  Cooldown : Z;
  MaxSources : Z;
}.

Definition newTracker (cfg : trackerConfig) : tracker :=
  mkTracker
    (if Threshold cfg <=? 0 then DefaultThreshold else Threshold cfg)
    (if Window cfg <=? 0 then DefaultWindow else Window cfg)
    (if Cooldown cfg <=? 0 then DefaultCooldown else Cooldown cfg)
    (if MaxSources cfg <=? 0 then DefaultMaxSources else MaxSources cfg)
    ∅ gl_new.

(** One round of the loop of [prune]. *)
Definition prune_port (cutoff : Z) (acc : gmap Z Z * list Z) (port : Z) : gmap Z Z * list Z :=
  let '(seen, kept) := acc in
  match seen !! port with
  | Some last => if cutoff <? last then (seen, kept ++ [port]) else (delete port seen, kept)
  | None => (delete port seen, kept)
  end.

Definition prune (st : sourceState) (now window : Z) : sourceState :=
  let cutoff := now - window in
  let '(seen, kept) := foldl (prune_port cutoff) (seen st, []) (order st) in
  mkSource seen kept (lastEmit st) (emitted st) (elem st) (lastSrcPort st) (lastDst st).

(** [for len(t.states) > t.maxSources]; every round but the last takes an
    element off the recency list, so its length and one is enough fuel. *)
Fixpoint evict_loop (fuel : nat) (max : Z) (sts : gmap trackerKey sourceState) (rec : glist trackerKey) :
    option (gmap trackerKey sourceState * glist trackerKey) :=
  if Z.of_nat (size sts) <=? max then Some (sts, rec) else
  match fuel with
  | O => None
  | S fuel =>
      match gl_front rec with
      | None => Some (sts, rec)
      | Some (a, key) => evict_loop fuel max (delete key sts) (gl_remove rec a)
      end
  end.

Definition evictOverCap (t : tracker) : option tracker :=
  match evict_loop (S (gl_len (recency t))) (maxSources t) (states t) (recency t) with
  | None => None
  | Some (sts, rec) =>
      Some (mkTracker (threshold t) (window t) (cooldown t) (maxSources t) sts rec)
  end.

Definition with_states (t : tracker) (sts : gmap trackerKey sourceState) : tracker :=
  mkTracker (threshold t) (window t) (cooldown t) (maxSources t) sts (recency t).

(** The part of [Observe] that works through the pointer [st]. *)
Definition observe_state (t : tracker) (now : Z) (p : packet) (st : sourceState) :
    option (sourceState * option detection) :=
  let st := mkSource (seen st) (order st) (lastEmit st) (emitted st) (elem st) (SrcPort p) (Dst p) in
  let st := prune st now (window t) in
  let ord :=
    match seen st !! DstPort p with
    | Some _ => order st
    | None => order st ++ [DstPort p]
    end in
  let st := mkSource (<[DstPort p := now]> (seen st)) ord (lastEmit st) (emitted st) (elem st)
              (lastSrcPort st) (lastDst st) in
  if Z.of_nat (size (seen st)) <? threshold t then Some (st, None) else
  if emitted st && (time_sub now (lastEmit st) <? cooldown t) then Some (st, None) else
  let st := mkSource (seen st) (order st) now true (elem st) (lastSrcPort st) (lastDst st) in
  match order st with
  | [] => None
  | first :: _ =>
      Some (st, Some (mkDetection (Src p) (lastSrcPort st) (lastDst st) first (order st) (Protocol p)))
  end.

(** [None] is a panic (indexing an empty order). A state the table no longer
    holds is written to without effect on the table. *)
Definition Observe (t : tracker) (now : Z) (p : packet) : option (tracker * option detection) :=
  let key := (Src p, Protocol p) in
  let prepared :=
    match states t !! key with
    | Some st =>
        Some (mkTracker (threshold t) (window t) (cooldown t) (maxSources t) (states t)
                (gl_move_to_back (recency t) (elem st)), st)
    | None =>
        let '(a, rec) := gl_push_back (recency t) key in
        let st := mkSource ∅ [] 0 false a 0 [] in
        match evictOverCap (mkTracker (threshold t) (window t) (cooldown t) (maxSources t)
                              (<[key := st]> (states t)) rec) with
        | None => None
        | Some t => Some (t, st)
        end
    end in
  match prepared with
  | None => None
  | Some (t, st) =>
      match observe_state t now p st with
      | None => None
      | Some (st', d) => Some (with_states t (alter (fun _ => st') key (states t)), d)
      end
  end.

Definition size_ (t : tracker) : nat := size (states t).

(** ** Specification: a least-recently-seen list of windows *)

Module Spec.
(** The ports of one source and protocol, in the order first tried, each with
    when it was last tried; and when the source was last reported. *)
Record source : Type := mkWatch { ports : list (Z * Z); reported : option Z }.

Definition new_source : source := mkWatch [] None.

Definition fresh (now window : Z) (ps : list (Z * Z)) : list (Z * Z) :=
  filter (fun pt => now - window < pt.2) ps.

Definition touch (now port : Z) (ps : list (Z * Z)) : list (Z * Z) :=
  if decide (port ∈ ps.*1) then (fun pt => if decide (pt.1 = port) then (port, now) else pt) <$> ps
  else ps ++ [(port, now)].

(** One try: the source afterwards, and the ports reported if it is reported. *)
Definition watch (threshold window cooldown now port : Z) (s : source) : source * option (list Z) :=
  let ps := touch now port (fresh now window (ports s)) in
  let quiet := match reported s with Some e => time_sub now e <? cooldown | None => false end in
  if (zlen ps <? threshold) || quiet then (mkWatch ps (reported s), None)
  else (mkWatch ps (Some now), Some ps.*1).

Definition source_of (key : trackerKey) (l : list (trackerKey * source)) : option source :=
  (list_to_map l : gmap trackerKey source) !! key.

(** The table, least recently seen first, with a source that may be new. *)
Definition bring_back (max : Z) (key : trackerKey) (l : list (trackerKey * source)) :
    list (trackerKey * source) :=
  match source_of key l with
  | Some _ => filter (fun e => e.1 ≠ key) l
  | None => if zlen l <? max then l else tail l
  end.

Definition observe (t : tracker) (now : Z) (p : packet) (l : list (trackerKey * source)) :
    list (trackerKey * source) * option detection :=
  let key := (Src p, Protocol p) in
  let s := default new_source (source_of key l) in
  let '(s', rep) := watch (threshold t) (window t) (cooldown t) now (DstPort p) s in
  (bring_back (maxSources t) key l ++ [(key, s')],
   match rep with
   | Some ((first :: _) as ps) => Some (mkDetection (Src p) (SrcPort p) (Dst p) first ps (Protocol p))
   | _ => None
   end).
End Spec.

(** ** One source *)

Record source_repr (st : sourceState) (s : Spec.source) : Prop := {
  sr_order : order st = (Spec.ports s).*1;
  sr_seen : seen st = list_to_map (Spec.ports s);
  sr_nodup : NoDup (Spec.ports s).*1;
  sr_emit : Spec.reported s = if emitted st then Some (lastEmit st) else None;
}.

Lemma fresh_nodup now w ps : NoDup ps.*1 -> NoDup (Spec.fresh now w ps).*1.
Proof. intros. by apply NoDup_fmap_filter. Qed.

Lemma prune_fold now w qs : forall ks : list (Z * Z),
  NoDup (ks ++ qs).*1 ->
  foldl (prune_port (now - w)) (list_to_map (ks ++ qs), ks.*1) qs.*1 =
    (list_to_map (ks ++ Spec.fresh now w qs), (ks ++ Spec.fresh now w qs).*1).
Proof.
  induction qs as [|[port last] qs IH]; intros ks Hnd.
  { unfold Spec.fresh. rewrite filter_nil, !app_nil_r. done. }
  rewrite fmap_cons. cbn [fst foldl]. unfold prune_port at 2.
  assert ((list_to_map (ks ++ (port, last) :: qs) : gmap Z Z) !! port = Some last) as ->.
  { apply elem_of_list_to_map_1; [done|]. apply elem_of_app. right. by left. }
  unfold Spec.fresh. rewrite filter_cons. simpl snd.
  destruct (now - w <? last) eqn:E; go_bools.
  - rewrite decide_True by done. fold (Spec.fresh now w qs).
    assert (forall l, ks ++ (port, last) :: l = (ks ++ [(port, last)]) ++ l) as Heq
      by (intros; by rewrite <- app_assoc).
    rewrite (Heq qs), (Heq (Spec.fresh now w qs)). rewrite (Heq qs) in Hnd. assert (ks.*1 ++ [port] = (ks ++ [(port, last)]).*1) as -> by (by rewrite fmap_app).
    by apply IH.
  - rewrite decide_False by lia.
    rewrite fmap_app, fmap_cons in Hnd. simpl in Hnd.
    pose proof (NoDup_app (ks.*1) (port :: qs.*1)) as Hsp. rewrite Hsp in Hnd.
    destruct Hnd as (Hk & Hkq & Hq). apply NoDup_cons in Hq as [Hpq Hq].
    assert (port ∉ ks.*1) as Hpk by (intros Hin; apply (Hkq _ Hin); by left).
    assert (delete port (list_to_map (ks ++ (port, last) :: qs) : gmap Z Z) = list_to_map (ks ++ qs)) as ->.
    { rewrite list_to_map_app. simpl. rewrite delete_union, delete_insert_eq.
      rewrite (delete_id (list_to_map ks)) by (by apply not_elem_of_list_to_map).
      rewrite (delete_id (list_to_map qs)) by (by apply not_elem_of_list_to_map).
      by rewrite <- list_to_map_app. }
    apply IH. rewrite fmap_app. apply NoDup_app. split; [done|]. split; [|done].
    intros x Hx Hxq. apply (Hkq x Hx). by right.
Qed.

Lemma prune_spec st s now w :
  source_repr st s ->
  prune st now w =
    mkSource (list_to_map (Spec.fresh now w (Spec.ports s))) (Spec.fresh now w (Spec.ports s)).*1
      (lastEmit st) (emitted st) (elem st) (lastSrcPort st) (lastDst st).
Proof.
  intros [Ho Hs Hn He]. unfold prune. rewrite Ho, Hs.
  pose proof (prune_fold now w (Spec.ports s) [] Hn) as Hp. simpl app in Hp.
  rewrite fmap_nil in Hp. by rewrite Hp.
Qed.

Lemma touch_absent now port (ps : list (Z * Z)) :
  port ∉ ps.*1 -> (fun pt : Z * Z => if decide (pt.1 = port) then (port, now) else pt) <$> ps = ps.
Proof.
  intros Hp. rewrite <- (list_fmap_id ps) at 2. apply list_fmap_ext. intros i [q t] Hi.
  simpl. case_decide as Heq; [|done]. simpl in Heq. subst q. destruct Hp.
  apply list_elem_of_fmap. exists (port, t). split; [done|]. by eapply list_elem_of_lookup_2.
Qed.

Lemma touch_spec now port ps :
  NoDup ps.*1 ->
  (list_to_map (Spec.touch now port ps) : gmap Z Z) = <[port := now]> (list_to_map ps) /\
  (Spec.touch now port ps).*1 = (if decide (port ∈ ps.*1) then ps.*1 else ps.*1 ++ [port]) /\
  NoDup (Spec.touch now port ps).*1.
Proof.
  intros Hn. unfold Spec.touch. case_decide as Hin.
  2: { rewrite fmap_app. split; [by apply list_to_map_snoc|]. split; [done|].
       apply NoDup_app. split; [done|]. split; [|apply NoDup_singleton].
       by intros x Hx ->%list_elem_of_singleton. }
  assert (((fun pt : Z * Z => if decide (pt.1 = port) then (port, now) else pt) <$> ps).*1 = ps.*1) as Hk.
  { rewrite <- list_fmap_compose. apply list_fmap_ext. intros i [q t] _. simpl. case_decide; simpl; congruence. }
  rewrite Hk. split; [|done]. clear Hk. induction ps as [|[q t] ps IH]; [by apply not_elem_of_nil in Hin|].
  rewrite fmap_cons in Hin, Hn. apply NoDup_cons in Hn as [Hq Hn]. simpl fst in Hin, Hn, Hq. rewrite fmap_cons. cbn [list_to_map foldr].
  simpl fst. case_decide as Hqp.
  - subst q. simpl. rewrite insert_insert_eq. by rewrite touch_absent.
  - simpl. apply elem_of_cons in Hin as [->|Hin]; [done|].
    rewrite insert_insert_ne by congruence. f_equal. by apply IH.
Qed.

Lemma observe_state_spec t now p st s :
  0 < threshold t -> source_repr st s ->
  let '(s', rep) := Spec.watch (threshold t) (window t) (cooldown t) now (DstPort p) s in
  exists st', observe_state t now p st = Some (st',
      match rep with
      | Some ((first :: _) as ps) => Some (mkDetection (Src p) (SrcPort p) (Dst p) first ps (Protocol p))
      | _ => None
      end) /\
    source_repr st' s' /\ elem st' = elem st.
Proof.
  intros Ht Hr. pose proof Hr as [Ho Hs Hn He]. unfold observe_state.
  set (st0 := mkSource _ _ _ _ _ (SrcPort p) (Dst p)).
  assert (source_repr st0 s) as Hr0 by (by split).
  rewrite (prune_spec st0 s now (window t) Hr0). cbn [seen order lastEmit emitted elem lastSrcPort lastDst].
  unfold st0. cbn [seen order lastEmit emitted elem lastSrcPort lastDst]. unfold Spec.watch.
  set (fr := Spec.fresh now (window t) (Spec.ports s)).
  pose proof (fresh_nodup now (window t) (Spec.ports s) Hn) as Hfn. fold fr in Hfn.
  destruct (touch_spec now (DstPort p) fr Hfn) as (Hm & Hk & Htn).
  set (ps := Spec.touch now (DstPort p) fr) in *.
  assert ((match (list_to_map fr : gmap Z Z) !! DstPort p with
           | Some _ => fr.*1 | None => fr.*1 ++ [DstPort p] end) = ps.*1) as ->.
  { rewrite Hk. case_decide as Hin.
    - destruct (list_to_map fr !! DstPort p) eqn:E; [done|].
      by apply not_elem_of_list_to_map in E.
    - by apply not_elem_of_list_to_map in Hin as ->. }
  rewrite <- Hm, map_size_list_to_map by done. fold (zlen ps).
  destruct (zlen ps <? threshold t) eqn:E1; simpl orb; cbv iota.
  { eexists. split; [reflexivity|]. by split; [split|]. }
  rewrite He. destruct (emitted st) eqn:Hem; simpl andb.
  - destruct (time_sub now (lastEmit st) <? cooldown t) eqn:E2.
    { eexists. split; [reflexivity|]. split; [|done]. by split. }
    go_bools. destruct (ps.*1) as [|first rest] eqn:Hps.
    { apply (f_equal length) in Hps. rewrite length_fmap in Hps. unfold zlen in E1. simpl in Hps. lia. }
    eexists. split; [reflexivity|]. split; [|done]. split; cbn; rewrite ?Hps; done.
  - go_bools. destruct (ps.*1) as [|first rest] eqn:Hps.
    { apply (f_equal length) in Hps. rewrite length_fmap in Hps. unfold zlen in E1. simpl in Hps. lia. }
    eexists. split; [reflexivity|]. split; [|done]. split; cbn; rewrite ?Hps; done.
Qed.

(** ** The table *)

Record table_repr (t : tracker) (l : list (trackerKey * Spec.source)) : Prop := {
  tb_threshold : 0 < threshold t;
  tb_max : 0 < maxSources t;
  tb_wf : gl_wf (recency t);
  tb_values : gl_values (recency t) = l.*1;
  tb_nodup : NoDup l.*1;
  tb_dom : dom (states t) = list_to_set l.*1;
  tb_state key s : (key, s) ∈ l ->
    exists st, states t !! key = Some st /\ source_repr st s /\ (elem st, key) ∈ gl_elems (recency t);
  tb_bound : zlen l <= maxSources t;
}.

Lemma table_size t l : table_repr t l -> size (states t) = length l.
Proof.
  intros Ht. rewrite <- (size_dom (D := gset trackerKey)), (tb_dom _ _ Ht), size_list_to_set by apply Ht.
  by rewrite length_fmap.
Qed.

Lemma newTracker_repr cfg : table_repr (newTracker cfg) [].
Proof.
  unfold newTracker. split; simpl.
  - destruct (_ <=? _) eqn:E; go_bools; [by vm_compute|lia].
  - destruct (MaxSources cfg <=? _) eqn:E; go_bools; [by vm_compute|lia].
  - apply gl_wf_new.
  - done.
  - constructor.
  - by rewrite dom_empty_L.
  - by intros key s ?%not_elem_of_nil.
  - change (zlen []) with 0. destruct (MaxSources cfg <=? _) eqn:E; go_bools; [by vm_compute|lia].
Qed.

Lemma source_of_in t l key :
  table_repr t l ->
  match Spec.source_of key l with
  | Some s => (key, s) ∈ l
  | None => key ∉ l.*1 /\ states t !! key = None
  end.
Proof.
  intros Ht. unfold Spec.source_of. destruct (list_to_map l !! key) as [s|] eqn:E.
  - by apply elem_of_list_to_map_2 in E.
  - apply not_elem_of_list_to_map in E. split; [done|].
    apply not_elem_of_dom. rewrite (tb_dom _ _ Ht). by rewrite elem_of_list_to_set.
Qed.

(** What [Observe] works on once the source is at the back: the key's entry is
    the last, with an untouched state. *)
Definition prepared_for (t : tracker) (key : trackerKey) (l : list (trackerKey * Spec.source))
    (s : Spec.source) (st : sourceState) : Prop :=
  table_repr t (l ++ [(key, s)]) /\ states t !! key = Some st.

Lemma values_filter (es : list (nat * trackerKey)) a (key : trackerKey) :
  NoDup es.*1 -> NoDup es.*2 -> (a, key) ∈ es ->
  (filter (fun e => e.1 ≠ a) es).*2 = filter (fun k => k ≠ key) es.*2.
Proof.
  induction es as [|[b k] es IH]; intros H1 H2 Hin; [done|].
  rewrite !fmap_cons in *. apply NoDup_cons in H1 as [Hb H1], H2 as [Hk H2]. simpl in Hb, Hk.
  rewrite !filter_cons. simpl. apply elem_of_cons in Hin as [[= -> ->]|Hin].
  - rewrite !decide_False by tauto. rewrite !filter_fmap_ne by done.
    symmetry. by apply (filter_fmap_ne id); rewrite list_fmap_id.
  - rewrite decide_True, decide_True; simpl.
    + f_equal. by apply IH.
    + intros ->. apply Hk. apply list_elem_of_fmap. by exists (a, key).
    + intros ->. apply Hb. apply list_elem_of_fmap. by exists (a, key).
Qed.

Lemma keys_filter (l : list (trackerKey * Spec.source)) key :
  (filter (fun e => e.1 ≠ key) l).*1 = filter (fun k => k ≠ key) l.*1.
Proof.
  induction l as [|[k s] l IH]; [done|]. rewrite fmap_cons, !filter_cons. simpl.
  case_decide; simpl; [f_equal; exact IH|exact IH].
Qed.

Lemma gl_values_move (l : glist trackerKey) a key :
  gl_wf l -> NoDup (gl_values l) -> (a, key) ∈ gl_elems l ->
  gl_values (gl_move_to_back l a) = filter (fun k => k ≠ key) (gl_values l) ++ [key].
Proof.
  intros Hwf Hnd Hin. unfold gl_move_to_back. rewrite (gl_elem_value _ _ _ Hwf Hin).
  unfold gl_values in *. simpl. rewrite fmap_app. f_equal.
  apply values_filter; [apply Hwf|done|done].
Qed.

Lemma finish_repr t l0 key s st st' s' :
  table_repr t (l0 ++ [(key, s)]) -> states t !! key = Some st ->
  source_repr st' s' -> elem st' = elem st ->
  table_repr (with_states t (alter (fun _ => st') key (states t))) (l0 ++ [(key, s')]).
Proof.
  intros [Hth Hmx Hwf Hv Hn Hd Hs Hb] Hst Hr He.
  assert ((l0 ++ [(key, s')]).*1 = (l0 ++ [(key, s)]).*1) as Hk by (by rewrite !fmap_app).
  split; simpl; rewrite ?Hk; try done.
  - by rewrite dom_alter_L.
  - intros key' s1 [Hin|[= -> ->]%list_elem_of_singleton]%elem_of_app.
    + assert (key' ≠ key) as Hne.
      { intros ->. rewrite fmap_app in Hn. apply NoDup_app in Hn as (_ & Hdis & _).
        apply (Hdis key); [apply list_elem_of_fmap; by exists (key, s1)|by left]. }
      rewrite lookup_alter_ne by done. apply Hs, elem_of_app. by left.
    + rewrite lookup_alter_eq, Hst. exists st'. split; [done|]. split; [done|]. rewrite He.
      destruct (Hs key s) as (st1 & Hst1 & _ & Hel); [apply elem_of_app; right; by left|].
      rewrite Hst in Hst1. by injection Hst1 as ->.
  - rewrite zlen_app in *. done.
Qed.

Lemma move_repr t l key s st :
  table_repr t l -> (key, s) ∈ l -> states t !! key = Some st ->
  table_repr
    (mkTracker (threshold t) (window t) (cooldown t) (maxSources t) (states t)
       (gl_move_to_back (recency t) (elem st)))
    (filter (fun e => e.1 ≠ key) l ++ [(key, s)]).
Proof.
  intros Ht Hin Hst. pose proof Ht as [Hth Hmx Hwf Hv Hn Hd Hs Hb].
  destruct (Hs key s Hin) as (st1 & Hst1 & Hr & Hel). rewrite Hst in Hst1. injection Hst1 as <-.
  assert (key ∈ l.*1) as Hkin by (apply list_elem_of_fmap; by exists (key, s)).
  split; simpl; try done.
  - by apply gl_wf_move.
  - rewrite (gl_values_move _ _ key) by (done || by rewrite Hv).
    by rewrite Hv, fmap_app, keys_filter.
  - rewrite fmap_app, keys_filter. apply NoDup_app. split; [by apply NoDup_filter|].
    split; [|apply NoDup_singleton]. intros x Hx ->%list_elem_of_singleton.
    by apply list_elem_of_filter in Hx as [? _].
  - rewrite Hd, fmap_app, keys_filter. apply set_eq. intros x.
    rewrite !elem_of_list_to_set, elem_of_app, list_elem_of_filter.
    change ([(key, s)].*1) with [key]. rewrite list_elem_of_singleton.
    destruct (decide (x = key)) as [->|]; tauto.
  - intros key' s' Hin'. assert ((key', s') ∈ l) as Hl.
    { apply elem_of_app in Hin' as [[_ ?]%list_elem_of_filter|[= -> ->]%list_elem_of_singleton]; done. }
    destruct (Hs key' s' Hl) as (st' & ? & ? & Hel'). exists st'. split; [done|]. split; [done|].
    by apply gl_elem_move.
  - assert (zlen (filter (fun e => e.1 ≠ key) l ++ [(key, s)]) <= zlen l); [|lia].
    rewrite zlen_app. change (zlen [(key, s)]) with 1. unfold zlen.
    assert ((length (filter (fun e => e.1 ≠ key) l) < length l)%nat); [|lia].
    clear -Hin. induction l as [|e l IH]; [by apply not_elem_of_nil in Hin|].
    rewrite filter_cons. apply elem_of_cons in Hin as [<-|Hin]; simpl.
    + rewrite decide_False by tauto. pose proof (length_filter (fun e => e.1 ≠ key) l). lia.
    + specialize (IH Hin). case_decide; simpl; lia.
Qed.

(** A new source, with the oldest forgotten if the table was full. *)
Lemma evict_repr t l key :
  table_repr t l -> key ∉ l.*1 ->
  let '(a, rec) := gl_push_back (recency t) key in
  let st := mkSource ∅ [] 0 false a 0 [] in
  exists t', evictOverCap (mkTracker (threshold t) (window t) (cooldown t) (maxSources t)
                  (<[key := st]> (states t)) rec) = Some t' /\
    table_repr t' ((if zlen l <? maxSources t then l else tail l) ++ [(key, Spec.new_source)]) /\
    states t' !! key = Some st /\
    threshold t' = threshold t /\ window t' = window t /\ cooldown t' = cooldown t /\
    maxSources t' = maxSources t.
Proof.
  intros Ht Hkey. pose proof Ht as [Hth Hmx Hwf Hv Hn Hd Hs Hb].
  pose proof (table_size t l Ht) as Hsize.
  assert (states t !! key = None) as Hnone.
  { apply not_elem_of_dom. by rewrite Hd, elem_of_list_to_set. }
  pose proof (gl_wf_push_back (recency t) key Hwf) as Hwf'.
  pose proof (gl_values_push_back (recency t) key) as Hv'.
  destruct (gl_push_back (recency t) key) as [a rec] eqn:Hpush. simpl in Hwf', Hv'.
  unfold gl_push_back in Hpush. injection Hpush as Ha Hrec. intros st.
  set (sts := <[key := st]> (states t)).
  assert (size sts = S (length l)) as Hsz by (unfold sts; by rewrite map_size_insert_None, Hsize).
  assert (source_repr st Spec.new_source) as Hnew by (split; simpl; try done; constructor).
  assert ((a, key) ∈ gl_elems rec) as Hael.
  { rewrite <- Hrec, <- Ha. simpl. apply elem_of_app. right. by left. }
  assert (forall b k, (b, k) ∈ gl_elems (recency t) -> (b, k) ∈ gl_elems rec) as Hmono.
  { intros b k Hbk. rewrite <- Hrec. simpl. apply elem_of_app. by left. }
  assert (forall key' s', (key', s') ∈ l -> exists st', sts !! key' = Some st' /\
    source_repr st' s' /\ (elem st', key') ∈ gl_elems rec) as Hold.
  { intros key' s' Hin. assert (key' ≠ key).
    { intros ->. apply Hkey, list_elem_of_fmap. by exists (key, s'). }
    destruct (Hs _ _ Hin) as (st' & ? & ? & ?). exists st'. unfold sts.
    rewrite lookup_insert_ne by done. split; [done|]. split; [done|auto]. }
  unfold evictOverCap. cbn [recency maxSources states threshold window cooldown].
  assert (gl_len rec = S (length l)) as Hlen.
  { by rewrite gl_len_values, Hv', Hv, length_app, length_fmap, Nat.add_comm. }
  rewrite Hlen. cbn [evict_loop]. rewrite Hsz. unfold zlen in Hb.
  destruct (Z.of_nat (S (length l)) <=? maxSources t) eqn:E; go_bools.
  - assert (zlen l <? maxSources t = true) as -> by (apply Z.ltb_lt; unfold zlen; lia).
    eexists. split; [reflexivity|]. split; [|split; [simpl; unfold sts; by rewrite lookup_insert_eq|done]].
    split; simpl; try done.
    + by rewrite Hv', Hv, fmap_app.
    + rewrite fmap_app. apply NoDup_app. split; [done|]. split; [|apply NoDup_singleton].
      by intros x Hx ->%list_elem_of_singleton.
    + unfold sts. rewrite dom_insert_L, Hd, fmap_app. apply set_eq. intros x. set_solver.
    + intros key' s' [Hin|[= -> ->]%list_elem_of_singleton]%elem_of_app; [by apply Hold|].
      exists st. unfold sts. by rewrite lookup_insert_eq.
    + rewrite zlen_app. change (zlen [(key, Spec.new_source)]) with 1. unfold zlen. lia.
  - assert (zlen l <? maxSources t = false) as -> by (apply Z.ltb_ge; unfold zlen; lia).
    destruct l as [|[k0 s0] l]; [simpl in *; lia|]. simpl tail.
    destruct (Hs k0 s0 ltac:(by left)) as (st0 & Hst0 & _ & Hel0).
    assert (exists b es, gl_elems (recency t) = (b, k0) :: es /\ es.*2 = l.*1) as (b & es & Hes & Hesv).
    { unfold gl_values in Hv. destruct (gl_elems (recency t)) as [|[b k] es]; [done|].
      rewrite !fmap_cons in Hv. injection Hv as -> Hv. by exists b, es. }
    assert (gl_front rec = Some (b, k0)) as ->.
    { rewrite <- Hrec. unfold gl_front. simpl. by rewrite Hes. }
    assert (gl_elems (gl_remove rec b) = es ++ [(a, key)]) as Hrem.
    { apply (gl_remove_front rec b k0); [done|]. rewrite <- Hrec, Hes, <- Ha. done. }
    assert (k0 ≠ key) as Hk0 by (intros ->; apply Hkey; by left).
    assert (size (delete k0 sts) = S (length l)) as Hsz2.
    { rewrite map_size_delete_Some by (eexists; unfold sts; rewrite lookup_insert_ne by done; exact Hst0).
      simpl in Hsz. lia. }
    cbn [length evict_loop]. rewrite Hsz2.
    destruct (Z.of_nat (S (length l)) <=? maxSources t) eqn:E2; go_bools; [|simpl in *; lia].
    rewrite fmap_cons in Hn. apply NoDup_cons in Hn as [Hk0l Hn]. simpl in Hk0l.
    eexists. split; [reflexivity|]. split.
    2: { split; [|done]. simpl. rewrite lookup_delete_ne by done. unfold sts. by rewrite lookup_insert_eq. }
    split; simpl; try done.
    + by apply gl_wf_remove.
    + unfold gl_values. by rewrite Hrem, !fmap_app, Hesv.
    + rewrite fmap_app. apply NoDup_app. split; [done|]. split; [|apply NoDup_singleton].
      intros x Hx ->%list_elem_of_singleton. apply Hkey. by right.
    + unfold sts. rewrite dom_delete_L, dom_insert_L, Hd, fmap_cons, fmap_app. apply set_eq. intros x.
      simpl. rewrite list_to_set_app_L. simpl.
      assert (x = k0 -> x ∉ (list_to_set l.*1 : gset trackerKey)) by (intros ->; by rewrite elem_of_list_to_set).
      destruct (decide (x = k0)); set_solver.
    + intros key' s' [Hin|[= -> ->]%list_elem_of_singleton]%elem_of_app.
      * destruct (Hold key' s' ltac:(by right)) as (st' & Hst' & Hr' & Hel').
        assert (key' ≠ k0) as Hne.
        { intros ->. apply Hk0l, list_elem_of_fmap. by exists (k0, s'). }
        exists st'. rewrite lookup_delete_ne by done. split; [done|]. split; [done|].
        apply gl_elem_remove. split; [|done]. intros Heq. apply Hne.
        eapply (gl_elems_inj rec); [done|exact Hel'|]. rewrite Heq. apply Hmono. rewrite Hes. by left.
      * exists st. rewrite lookup_delete_ne by done. unfold sts. rewrite lookup_insert_eq.
        split; [done|]. split; [done|]. apply gl_elem_remove. split; [|done]. intros Heq.
        simpl in Heq. apply Hk0. eapply (gl_elems_inj rec); [done| |exact Hael].
        rewrite Heq. apply Hmono. rewrite Hes. by left.
    + rewrite zlen_app. change (zlen [(key, Spec.new_source)]) with 1. unfold zlen. lia.
Qed.

Lemma Observe_spec t l now p :
  table_repr t l ->
  let '(l', d) := Spec.observe t now p l in
  exists t', Observe t now p = Some (t', d) /\ table_repr t' l' /\
    threshold t' = threshold t /\ window t' = window t /\ cooldown t' = cooldown t /\
    maxSources t' = maxSources t.
Proof.
  intros Ht. unfold Spec.observe, Observe, Spec.bring_back. set (key := (Src p, Protocol p)).
  pose proof (source_of_in t l key Ht) as Hsrc. destruct (Spec.source_of key l) as [s|]; simpl default.
  - destruct (tb_state _ _ Ht _ _ Hsrc) as (st & Hst & Hr & _). rewrite Hst.
    pose proof (move_repr t l key s st Ht Hsrc Hst) as Hmv.
    set (t1 := mkTracker _ _ _ _ _ _) in *.
    pose proof (observe_state_spec t1 now p st s (tb_threshold _ _ Ht) Hr) as Hos.
    change (threshold t1) with (threshold t) in Hos. change (window t1) with (window t) in Hos.
    change (cooldown t1) with (cooldown t) in Hos.
    destruct (Spec.watch _ _ _ _ _ _) as [s' rep]. destruct Hos as (st' & -> & Hr' & He').
    eexists. split; [reflexivity|]. split; [|done]. by eapply finish_repr.
  - destruct Hsrc as [Hkey ->]. pose proof (evict_repr t l key Ht Hkey) as Hev.
    destruct (gl_push_back _ _) as [a rec]. cbv zeta in Hev.
    destruct Hev as (t1 & -> & Ht1 & Hst1 & E1 & E2 & E3 & E4).
    set (st := mkSource ∅ [] 0 false a 0 []) in *.
    assert (source_repr st Spec.new_source) as Hnew by (split; simpl; try done; constructor).
    pose proof (observe_state_spec t1 now p st Spec.new_source (tb_threshold _ _ Ht1) Hnew) as Hos.
    rewrite E1, E2, E3 in Hos.
    destruct (Spec.watch _ _ _ _ _ _) as [s' rep]. destruct Hos as (st' & -> & Hr' & He').
    eexists. split; [reflexivity|]. split; [by eapply finish_repr|done].
Qed.

(** ** Reading a packet *)

Lemma word_or_in b i : 0 <= i -> i + 2 <= zlen b -> word_or b i = Ok (get_u16 b i).
Proof. intros. unfold word_or. by rewrite decide_True. Qed.

Lemma parseIPv4_spec b :
  parseIPv4 b ≠ Err Panic /\
  forall p, parseIPv4 b = Ok p ->
    exists h vihl flagsAt, at_ b 0 = Some vihl /\ Z.shiftr vihl 4 = 4 /\ h = Z.land vihl 0x0f * 4 /\
      20 <= h <= zlen b /\ Z.land (get_u16 b 6) 0x1fff = 0 /\
      SrcPort p = get_u16 (slice b h (zlen b)) 0 /\ DstPort p = get_u16 (slice b h (zlen b)) 2 /\
      Src p = slice b 12 16 /\ Dst p = slice b 16 20 /\
      match Protocol p with
      | ProtoTCP => at_ b 9 = Some 6 /\ 20 <= zlen b - h /\
          at_ (slice b h (zlen b)) 13 = Some flagsAt /\ Z.land flagsAt synMask = synValue
      | ProtoUDP => at_ b 9 = Some 17 /\ 8 <= zlen b - h
      end.
Proof.
  unfold parseIPv4, ipMinHeaderLen. destruct (zlen b <? 20) eqn:E0; [by split|]. go_bools.
  destruct (byte_or_in Panic b ipVersionIHLOffset) as (v & Hv & ->); [unfold ipVersionIHLOffset; lia|].
  cbn [rbind]. destruct (Z.shiftr v 4 =? 4) eqn:E1; simpl negb; cbv iota; [|by split]. go_bools.
  set (h := Z.land v 15 * 4). destruct ((h <? 20) || (zlen b <? h))%bool eqn:E2; [by split|]. go_bools.
  unfold ipFlagsFragOffset. rewrite word_or_in by lia. cbn [rbind].
  destruct (Z.land (get_u16 b 6) fragmentOffsetMask =? 0) eqn:E3; simpl negb; cbv iota; [|by split]. go_bools.
  destruct (byte_or_in Panic b ipProtocolOffset) as (pr & Hpr & ->); [unfold ipProtocolOffset; lia|].
  cbn [rbind]. set (pay := slice b h (zlen b)).
  assert (zlen pay = zlen b - h) as Hpay by (apply zlen_slice; lia).
  destruct (pr =? protoTCP) eqn:E4; [|destruct (pr =? protoUDP) eqn:E5; [|by split]]; go_bools; subst pr.
  - unfold tcpMinHeadLen. destruct (zlen pay <? 20) eqn:E6; [by split|]. go_bools.
    destruct (byte_or_in Panic pay tcpFlagsOffset) as (fl & Hfl & ->); [unfold tcpFlagsOffset; lia|].
    cbn [rbind]. destruct (Z.land fl synMask =? synValue) eqn:E7; simpl negb; cbv iota; [|by split].
    go_bools. cbn [rbind]. unfold portsLen. destruct (zlen pay <? 4) eqn:E8; go_bools; [lia|].
    rewrite !word_or_in by lia. cbn [rbind]. split; [done|]. intros p [= <-].
    exists h, v, fl. simpl. split_and!; try done; lia.
  - unfold udpHeaderLen. destruct (zlen pay <? 8) eqn:E6; [by split|]. go_bools.
    cbn [rbind]. unfold portsLen. destruct (zlen pay <? 4) eqn:E8; go_bools; [lia|].
    rewrite !word_or_in by lia. cbn [rbind]. split; [done|]. intros p [= <-].
    exists h, v, 0. simpl. split_and!; try done; lia.
Qed.

(** ** Property *)

(** What the capture loop does with one datagram: drop it, or observe it. *)
Definition capture (t : tracker) (now : Z) (b : bytes) : option (tracker * option detection) :=
  match parseIPv4 b with
  | Err Panic => None
  | Err _ => Some (t, None)
  | Ok p => Observe t now p
  end.

Fixpoint captures (t : tracker) (ds : list (Z * bytes)) : option (tracker * list (option detection)) :=
  match ds with
  | [] => Some (t, [])
  | (now, b) :: ds =>
      match capture t now b with
      | None => None
      | Some (t, d) =>
          match captures t ds with
          | None => None
          | Some (t, out) => Some (t, d :: out)
          end
      end
  end.

Fixpoint spec_captures (t0 : tracker) (l : list (trackerKey * Spec.source)) (ds : list (Z * bytes)) :
    list (trackerKey * Spec.source) * list (option detection) :=
  match ds with
  | [] => (l, [])
  | (now, b) :: ds =>
      let '(l, d) := match parseIPv4 b with Ok p => Spec.observe t0 now p l | Err _ => (l, None) end in
      let '(l, out) := spec_captures t0 l ds in (l, d :: out)
  end.

Lemma spec_observe_cfg t t0 now p l :
  threshold t = threshold t0 -> window t = window t0 -> cooldown t = cooldown t0 ->
  maxSources t = maxSources t0 -> Spec.observe t now p l = Spec.observe t0 now p l.
Proof. intros H1 H2 H3 H4. unfold Spec.observe. by rewrite H1, H2, H3, H4. Qed.

Lemma captures_spec t0 ds : forall t l,
  table_repr t l -> threshold t = threshold t0 -> window t = window t0 ->
  cooldown t = cooldown t0 -> maxSources t = maxSources t0 ->
  let '(l', out) := spec_captures t0 l ds in
  exists t', captures t ds = Some (t', out) /\ table_repr t' l' /\ maxSources t' = maxSources t0.
Proof.
  induction ds as [|[now b] ds IH]; intros t l Ht H1 H2 H3 H4; cbn [captures spec_captures].
  { by exists t. }
  unfold capture. destruct (parseIPv4_spec b) as [Hnp _].
  destruct (parseIPv4 b) as [p|e].
  - pose proof (Observe_spec t l now p Ht) as Ho. rewrite (spec_observe_cfg t t0) in Ho by done.
    destruct (Spec.observe t0 now p l) as [l1 d]. destruct Ho as (t1 & -> & Ht1 & ? & ? & ? & ?).
    specialize (IH t1 l1 Ht1 ltac:(congruence) ltac:(congruence) ltac:(congruence) ltac:(congruence)).
    destruct (spec_captures t0 l1 ds) as [l2 out]. destruct IH as (t2 & -> & Ht2 & Hm). by exists t2.
  - specialize (IH t l Ht H1 H2 H3 H4).
    destruct (spec_captures t0 l ds) as [l2 out]. destruct IH as (t2 & Hc & Ht2 & Hm).
    exists t2. destruct e; [by rewrite Hc|by rewrite Hc|done].
Qed.

(** C29. The detector reports exactly the scans: over any captured datagrams and
    clock readings it never panics, and it behaves as a least-recently-seen
    table of at most [MaxSources] sources would in which a source is reported
    when the distinct ports it tried within the window reach the threshold and
    its cooldown is over, with those ports in the order first tried; datagrams
    that are no connection attempt change nothing. *)
Theorem portscan_refines_windows (cfg : trackerConfig) (ds : list (Z * bytes)) :
  let t0 := newTracker cfg in
  let '(l, out) := spec_captures t0 [] ds in
  exists t, captures t0 ds = Some (t, out) /\
    size_ t = length l /\ zlen l <= maxSources t0 /\ NoDup l.*1 /\
    (forall now b p, (now, b) ∈ ds -> parseIPv4 b = Ok p ->
       Src p = slice b 12 16 /\ Dst p = slice b 16 20 /\ Z.land (get_u16 b 6) 0x1fff = 0).
Proof.
  intros t0. pose proof (captures_spec t0 ds t0 [] (newTracker_repr cfg) eq_refl eq_refl eq_refl eq_refl) as H.
  destruct (spec_captures t0 [] ds) as [l out]. destruct H as (t & Hc & Ht & Hm).
  exists t. split; [done|]. split; [by apply table_size|].
  split; [rewrite <- Hm; apply Ht|]. split; [apply Ht|].
  intros now b p _ Hp. destruct (parseIPv4_spec b) as [_ Hs].
  destruct (Hs p Hp) as (h & v & f & _ & _ & _ & _ & Hfr & _ & _ & Hsrc & Hdst & _). done.
Qed.

(** A UDP datagram to [port] from 10.0.0.[host]. *)
Definition ex_udp (host port : Z) : bytes :=
  [0x45; 0; 0; 28; 0; 0; 0; 0; 64; 17; 0; 0; 10; 0; 0; host; 10; 0; 0; 2; 4; 210; 0; port; 0; 8; 0; 0].

Example portscan_ex :
  snd <$> captures (newTracker (mkTrackerConfig 2 10 100 1))
    [(0, ex_udp 9 1); (5, ex_udp 9 2); (6, ex_udp 9 3); (7, [1; 2]); (8, ex_udp 8 1); (9, ex_udp 9 4)] =
  Some [None; Some (mkDetection [10; 0; 0; 9] 1234 [10; 0; 0; 2] 1 [1; 2] ProtoUDP); None; None; None; None].
Proof. vm_compute. reflexivity. Qed.
