(* ===== verification/SmbAudit.v ===== *)
(** The SMB audit road: reading one line of the lure's log
    ([internal/agent/smbaudit/parse.go]) and collapsing the lines of one visit
    ([collapse.go]).

    Strings are bytes and times nanoseconds, 0 being the zero time. Go's
    calendar ([time.Parse] and [Format] with the two layouts) is the class
    [Calendar]. *)
From S2P Require Import Prelude GoBase GoStrings.
#[local] Open Scope Z_scope.

Class Calendar : Type := {
  parse_samba_time : bytes -> option Z;
  format_opencanary_time : Z -> bytes;
}.

(** ** parse.go *)

Inductive Kind : Type :=
| KindNone
| KindAccess
| KindUnexpectedOperation
| KindUnparseable
| KindPanic.

#[export] Instance Kind_eq_dec : EqDecision Kind.
Proof. solve_decision. Defined.

Definition Wording (k : Kind) : string :=
  match k with
  | KindAccess => "file access"
  | KindUnexpectedOperation => "unexpected operation"
  | KindUnparseable => "unparseable audit line"
  | KindPanic => "server panic"
  | KindNone => ""
  end.

Definition MaxPathLen : Z := 4096.
Definition MaxFieldLen : Z := 256.
Definition MaxMessageLen : Z := 512.
Definition minAuditFields : Z := 6.
Definition claimThreshold : Z := 3.

Definition pipe : Z := 124.

Definition expectedOperations (op : bytes) : bool := bool_decide (op = lit "close").

Record Event : Type := mkEvent {
  evKind : Kind;
  User : bytes;
  SourceIP : bytes;
  Share : bytes;
  Operation : bytes;
  Result : bytes;
  Path : bytes;
  Message : bytes;
  Timestamp : bytes;
  At : Z;
}.

Definition note (k : Kind) (msg stamp : bytes) (at_ : Z) : Event :=
  mkEvent k [] [] [] [] [] [] msg stamp at_.

Definition clip (s : bytes) (max : Z) : bytes :=
  if zlen s <=? max then s else slice s 0 max ++ lit "...".

Definition quote (s : bytes) : bytes := 34 :: s ++ [34].

Definition isPanic (msg : bytes) : bool :=
  HasPrefix msg (lit "PANIC") || HasPrefix msg (lit "INTERNAL ERROR:").

Definition op_char (c : Z) : bool := is_lower c || is_digit c || (c =? 95).

Definition plausibleOperation (s : bytes) : bool :=
  if bool_decide (s = []) || (32 <? zlen s) then false else forallb op_char s.

(** [bytes.TrimLeft(s, " \t")] *)
Definition TrimLeftBlank (s : bytes) : bytes := drop_while (fun c => (c =? 32) || (c =? 9)) s.

Section parse.
Context `{Unicode, Calendar}.

Definition headerTime (header : bytes) : Z :=
  let comma := IndexByte header 44 in
  let comma := if comma <? 0 then zlen header else comma in
  default 0 (parse_samba_time (TrimSpace (slice header 0 comma))).

Definition maxHeaderLen : Z := 64.

Definition stripDebugHeader (line : bytes) : option (bytes * bytes * Z) :=
  match line with
  | 91 :: _ =>
      let end_ := IndexByte (slice line 0 (Z.min (zlen line) maxHeaderLen)) 93 in
      if end_ <? 0 then None else
      let at_ := headerTime (slice line 1 end_) in
      let stamp := if at_ =? 0 then [] else format_opencanary_time at_ in
      Some (TrimLeftBlank (slice line (end_ + 1) (zlen line)), stamp, at_)
  | _ => None
  end.

Definition Parse (line : bytes) : option Event :=
  match stripDebugHeader line with
  | None => None
  | Some (msg, stamp, at_) =>
      if isPanic msg then Some (note KindPanic (clip msg MaxMessageLen) stamp at_) else
      let fields := Split msg pipe in
      let n := length fields in
      if zlen fields <? claimThreshold then None else
      if zlen fields <? minAuditFields then
        Some (note KindUnparseable
          (lit "audit line has " ++ Itoa (zlen fields) ++ lit " fields, expected at least " ++
           Itoa minAuditFields) stamp at_)
      else
        match drop (n - 5) fields with
        | [sourceIP; share; operation; result; path] =>
            let user := Join (take (n - 5) fields) pipe in
            if bool_decide (result ≠ lit "ok") && bool_decide (result ≠ lit "fail") then
              Some (note KindUnparseable
                (lit "audit line has " ++ quote (clip result 32) ++
                 lit " where the result belongs, expected " ++ quote (lit "ok") ++ lit " or " ++
                 quote (lit "fail")) stamp at_)
            else if negb (plausibleOperation operation) then
              Some (note KindUnparseable
                (lit "audit line has " ++ quote (clip operation 32) ++
                 lit " where the operation belongs") stamp at_)
            else
              Some (mkEvent (if expectedOperations operation then KindAccess else KindUnexpectedOperation)
                (clip user MaxFieldLen) (clip sourceIP MaxFieldLen) (clip share MaxFieldLen)
                (clip operation MaxFieldLen) result (clip path MaxPathLen) [] stamp at_)
        | _ => None
        end
  end.
End parse.

(** ** collapse.go *)

Definition DefaultCollapseWindow : Z := 2 * 1000000000.
Definition DefaultMaxGroups : Z := 64.
Definition DefaultMaxPathsPerGroup : Z := 64.

Record CollapseConfig : Type := mkCollapse { Window : Z; MaxGroups : Z; MaxPathsPerGroup : Z }.

Record visit : Type := mkVisit { vkey : bytes; vstart : Z; vseen : Z; vevents : list Event }.

(** [open] holds pointers to visits: an address each. *)
Record Collapser : Type := mkCollapser {
  ccfg : CollapseConfig;
  open : list (nat * visit);
  vnext : nat;
  collapsed : Z;
}.

(** [None] is the panic on a negative field. *)
Definition NewCollapser (cfg : CollapseConfig) : option Collapser :=
  if (Window cfg <? 0) || (MaxGroups cfg <? 0) || (MaxPathsPerGroup cfg <? 0) then None
  else
    Some (mkCollapser
      (mkCollapse
         (if Window cfg =? 0 then DefaultCollapseWindow else Window cfg)
         (if MaxGroups cfg =? 0 then DefaultMaxGroups else MaxGroups cfg)
         (if MaxPathsPerGroup cfg =? 0 then DefaultMaxPathsPerGroup else MaxPathsPerGroup cfg))
      [] 0 0).

Definition Len (c : Collapser) : nat := length (open c).

Definition isPathPrefix (a b : bytes) : bool :=
  if bool_decide (a = []) || (zlen b <=? zlen a) || negb (HasPrefix b a) then false
  else if bool_decide (last a = Some 47) then true
  else bool_decide (at_ b (zlen a) = Some 47).

(** The survivors of a visit, and how many it drops. *)
Definition survivors (evs : list Event) : list Event :=
  filter (fun ev => existsb (fun other => isPathPrefix (Path ev) (Path other)) evs = false) evs.

Fixpoint remove_visit (a : nat) (vs : list (nat * visit)) : list (nat * visit) :=
  match vs with
  | [] => []
  | (b, g) :: vs => if decide (b = a) then vs else (b, g) :: remove_visit a vs
  end.

Definition take_visit (c : Collapser) (p : nat * visit) : Collapser * list Event :=
  let '(a, g) := p in
  let out := survivors (vevents g) in
  (mkCollapser (ccfg c) (remove_visit a (open c)) (vnext c)
     (collapsed c + (zlen (vevents g) - zlen out)), out).

(** [take] of every visit of a snapshot that satisfies the test. *)
Fixpoint take_all (c : Collapser) (test : visit -> bool) (snap : list (nat * visit)) :
    Collapser * list Event :=
  match snap with
  | [] => (c, [])
  | (a, g) :: snap =>
      if test g then
        let '(c, out) := take_visit c (a, g) in
        let '(c, out') := take_all c test snap in (c, out ++ out')
      else take_all c test snap
  end.

Definition flushElapsed (c : Collapser) (at_ : Z) : Collapser * list Event :=
  take_all c (fun g => negb (at_ <? vstart g + Window (ccfg c))) (open c).

Definition Due (c : Collapser) (now : Z) : Collapser * list Event :=
  take_all c (fun g => Window (ccfg c) <=? time_sub now (vseen g)) (open c).

Definition Flush (c : Collapser) : Collapser * list Event := take_all c (fun _ => true) (open c).

Fixpoint find_visit (key : bytes) (vs : list (nat * visit)) : option (nat * visit) :=
  match vs with
  | [] => None
  | (a, g) :: vs => if decide (vkey g = key) then Some (a, g) else find_visit key vs
  end.

Definition addPath (g : visit) (ev : Event) : visit * bool :=
  if existsb (fun held => bool_decide (Path held = Path ev)) (vevents g) then (g, false)
  else (mkVisit (vkey g) (vstart g) (vseen g) (vevents g ++ [ev]), true).

Definition set_visit (a : nat) (g : visit) (vs : list (nat * visit)) : list (nat * visit) :=
  (fun p => if decide (p.1 = a) then (a, g) else p) <$> vs.

(** [for len(c.open) > c.cfg.MaxGroups]: every round shortens the list, so its
    length is enough fuel. *)
Fixpoint shed (fuel : nat) (c : Collapser) : Collapser * list Event :=
  match fuel with
  | O => (c, [])
  | S fuel =>
      if MaxGroups (ccfg c) <? zlen (open c) then
        match open c with
        | [] => (c, [])
        | p :: _ =>
            let '(c, out) := take_visit c p in
            let '(c, out') := shed fuel c in (c, out ++ out')
        end
      else (c, [])
  end.

Definition visit_key (ev : Event) : bytes := User ev ++ pipe :: SourceIP ev ++ pipe :: Share ev.

Definition Offer (c : Collapser) (ev : Event) (now : Z) : Collapser * list Event :=
  if bool_decide (evKind ev ≠ KindAccess) || (At ev =? 0) then (c, [ev]) else
  let '(c, out) := flushElapsed c (At ev) in
  let key := visit_key ev in
  let found := find_visit key (open c) in
  let '(c, out, found) :=
    match found with
    | Some (a, g) =>
        if (At ev <? vstart g) || negb (At ev <? vstart g + Window (ccfg c)) then
          let '(c, out') := take_visit c (a, g) in (c, out ++ out', None)
        else (c, out, Some (a, g))
    | None => (c, out, None)
    end in
  let '(c, a, g) :=
    match found with
    | Some (a, g) => (c, a, g)
    | None =>
        let g := mkVisit key (At ev) 0 [] in
        (mkCollapser (ccfg c) (open c ++ [(vnext c, g)]) (S (vnext c)) (collapsed c), vnext c, g)
    end in
  let '(g, added) := addPath (mkVisit (vkey g) (vstart g) now (vevents g)) ev in
  let c := mkCollapser (ccfg c) (set_visit a g (open c)) (vnext c) (collapsed c) in
  let '(c, out) :=
    if negb added then
      (mkCollapser (ccfg c) (open c) (vnext c) (collapsed c + 1), out)
    else if MaxPathsPerGroup (ccfg c) <=? zlen (vevents g) then
      let '(c, out') := take_visit c (a, g) in (c, out ++ out')
    else (c, out) in
  let '(c, out') := shed (length (open c)) c in
  (c, out ++ out').

(** ** Path prefixes *)

(** [b] stands for [a] in a visit: the same path, or one below it. *)
Definition leads_to (a b : bytes) : Prop := a = b \/ isPathPrefix a b = true.

Lemma isPathPrefix_spec a b :
  isPathPrefix a b = true <->
  a ≠ [] /\ zlen a < zlen b /\ a `prefix_of` b /\ (last a = Some 47 \/ at_ b (zlen a) = Some 47).
Proof.
  unfold isPathPrefix, HasPrefix. split.
  - intros Hp. destruct (_ || _ || _)%bool eqn:E; [done|].
    apply orb_false_iff in E as [[E1 E2]%orb_false_iff E3]. go_bools.
    split; [done|]. split; [done|]. split; [done|].
    case_bool_decide; [by left|]. right. by case_bool_decide.
  - intros (Hne & Hlt & Hp & Hend). rewrite bool_decide_eq_false_2 by done.
    destruct (zlen b <=? zlen a) eqn:E; go_bools; [lia|].
    rewrite (bool_decide_eq_true_2 _ Hp). simpl. case_bool_decide; [done|].
    apply bool_decide_eq_true. by destruct Hend.
Qed.

Lemma at_prefix a b i : a `prefix_of` b -> 0 <= i < zlen a -> at_ b i = at_ a i.
Proof.
  intros [k ->] Hi. unfold at_, zlen in *. rewrite !decide_True by lia.
  rewrite lookup_app_l by lia. done.
Qed.

Lemma isPathPrefix_trans a b c :
  isPathPrefix a b = true -> isPathPrefix b c = true -> isPathPrefix a c = true.
Proof.
  rewrite !isPathPrefix_spec. intros (Ha & Hab & Hp & He) (Hb & Hbc & Hp' & _).
  split; [done|]. split; [lia|]. split; [by transitivity b|].
  destruct He as [He|He]; [by left|]. right. rewrite (at_prefix b c); [done|done|].
  pose proof (zlen_nonneg a). lia.
Qed.

Lemma leads_to_trans a b c : leads_to a b -> leads_to b c -> leads_to a c.
Proof.
  intros [->|Hab] [->|Hbc]; [by left|by right|by right|]. right. by eapply isPathPrefix_trans.
Qed.

(** A dropped path leads to one that is kept: the longest below it. *)
Lemma survivors_cover evs ev :
  ev ∈ evs -> exists ev', ev' ∈ survivors evs /\ leads_to (Path ev) (Path ev').
Proof.
  intros Hin. set (longest := foldr Z.max 0 ((fun e => zlen (Path e)) <$> evs)).
  assert (forall e, e ∈ evs -> zlen (Path e) <= longest) as Hmax.
  { unfold longest. clear. induction evs as [|x evs IH]; intros e He; [by apply not_elem_of_nil in He|].
    rewrite fmap_cons. cbn [foldr]. apply elem_of_cons in He as [->|He]; [lia|].
    specialize (IH e He). lia. }
  remember (Z.to_nat (longest - zlen (Path ev))) as n eqn:Hn.
  revert ev Hin Hn. induction n as [n IH] using lt_wf_ind. intros ev Hin Hn.
  destruct (existsb (fun other => isPathPrefix (Path ev) (Path other)) evs) eqn:E.
  - apply existsb_exists in E as (other & Ho%list_elem_of_In & Hp).
    pose proof (proj1 (isPathPrefix_spec _ _) Hp) as (_ & Hlt & _).
    pose proof (Hmax other Ho). destruct (IH (Z.to_nat (longest - zlen (Path other)))) with (ev := other)
      as (ev' & Hev' & Hl); [lia|done|done|].
    exists ev'. split; [done|]. eapply leads_to_trans; [by right|done].
  - exists ev. split; [|by left]. by apply list_elem_of_filter.
Qed.

(** ** Structure of the collapser *)

Definition held (c : Collapser) : list Event := concat ((fun p => vevents p.2) <$> open c).

(** A visit holds distinct paths of its key, all within its window. *)
Record visit_ok (w : Z) (g : visit) : Prop := {
  vo_events : Forall (fun ev => visit_key ev = vkey g /\ vstart g <= At ev < vstart g + w) (vevents g);
  vo_paths : NoDup (Path <$> vevents g);
}.

Record structured (c : Collapser) : Prop := {
  st_cfg : 0 < Window (ccfg c) /\ 0 < MaxGroups (ccfg c) /\ 0 < MaxPathsPerGroup (ccfg c);
  st_addrs : NoDup (open c).*1;
  st_fresh : Forall (fun a => (a < vnext c)%nat) (open c).*1;
  st_keys : NoDup ((fun p => vkey p.2) <$> open c);
  st_visits : Forall (fun p => visit_ok (Window (ccfg c)) p.2) (open c);
}.

(** [ev'] stands for [ev]: of the same user, address and share, at the same
    path or below it. *)
Definition stands_for (ev ev' : Event) : Prop := visit_key ev' = visit_key ev /\ leads_to (Path ev) (Path ev').

(** Every event offered was returned, or stands behind one that was, less than
    a window away, or behind one held by a visit it is within the window of. *)
Record conserved (c : Collapser) (offered out : list Event) : Prop := {
  cs_count : zlen offered = zlen out + zlen (held c) + collapsed c;
  cs_cover ev : ev ∈ offered ->
    ev ∈ out \/
    (exists ev', ev' ∈ out /\ stands_for ev ev' /\ Z.abs (At ev' - At ev) < Window (ccfg c)) \/
    (exists p ev', p ∈ open c /\ ev' ∈ vevents p.2 /\ stands_for ev ev' /\
       vstart p.2 <= At ev < vstart p.2 + Window (ccfg c));
  cs_real ev : ev ∈ out ++ held c -> ev ∈ offered;
}.

Lemma remove_visit_perm a g (vs : list (nat * visit)) :
  NoDup vs.*1 -> (a, g) ∈ vs -> Permutation vs ((a, g) :: remove_visit a vs).
Proof.
  induction vs as [|[b h] vs IH]; intros Hnd Hin; [by apply not_elem_of_nil in Hin|].
  rewrite fmap_cons in Hnd. apply NoDup_cons in Hnd as [Hb Hnd]. simpl in *.
  apply elem_of_cons in Hin as [[= -> ->]|Hin]; [by rewrite decide_True|].
  rewrite decide_False.
  - rewrite (IH Hnd Hin) at 1. apply Permutation_swap.
  - intros ->. apply Hb, list_elem_of_fmap. by exists (a, g).
Qed.

Lemma remove_visit_sublist a (vs : list (nat * visit)) : sublist (remove_visit a vs) vs.
Proof.
  induction vs as [|[b h] vs IH]; simpl; [constructor|]. case_decide; [by constructor|by constructor].
Qed.

Lemma structured_take c p : structured c -> structured (take_visit c p).1.
Proof.
  intros [Hc Ha Hf Hk Hv]. destruct p as [a g]. pose proof (remove_visit_sublist a (open c)) as Hs.
  split; simpl; [done|..].
  - eapply sublist_NoDup; [done|by apply fmap_sublist].
  - rewrite Forall_forall in *. intros x Hx. apply Hf. eapply elem_of_sublist; [done|by apply fmap_sublist].
  - eapply sublist_NoDup; [done|by apply fmap_sublist].
  - rewrite Forall_forall in *. intros x Hx. apply Hv. by eapply elem_of_sublist.
Qed.

Lemma zlen_Permutation {A} (l k : list A) : Permutation l k -> zlen l = zlen k.
Proof. intros H. unfold zlen. by rewrite H. Qed.

Lemma held_take c a g :
  structured c -> (a, g) ∈ open c ->
  Permutation (held c) (vevents g ++ held (take_visit c (a, g)).1).
Proof.
  intros Hst Hin. unfold held. simpl.
  rewrite (remove_visit_perm a g (open c)) at 1 by (done || apply Hst). done.
Qed.

Lemma conserved_take c a g offered out :
  structured c -> (a, g) ∈ open c -> conserved c offered out ->
  let '(c', o) := take_visit c (a, g) in conserved c' offered (out ++ o).
Proof.
  intros Hst Hin [Hn Hc Hr]. pose proof (held_take c a g Hst Hin) as Hp.
  destruct (take_visit c (a, g)) as [c' o] eqn:Ht. cbn [fst] in Hp.
  assert (o = survivors (vevents g) /\ collapsed c' = collapsed c + (zlen (vevents g) - zlen o)) as [Ho Hcol].
  { unfold take_visit in Ht. by injection Ht as <- <-. }
  assert (open c' = remove_visit a (open c) /\ ccfg c' = ccfg c) as [Hopen Hcfg].
  { unfold take_visit in Ht. by injection Ht as <- _. }
  assert (Forall (fun ev => visit_key ev = vkey g /\ vstart g <= At ev < vstart g + Window (ccfg c)) (vevents g)) as Hkey.
  { pose proof (st_visits c Hst) as Hv. rewrite Forall_forall in Hv. apply (vo_events _ _ (Hv _ Hin)). }
  assert (forall ev, ev ∈ o -> ev ∈ vevents g) as Hsub.
  { intros ev Hev. rewrite Ho in Hev. by apply list_elem_of_filter in Hev as [_ ?]. }
  rewrite Forall_forall in Hkey. split.
  - rewrite Hn, (zlen_Permutation _ _ Hp), !zlen_app, Hcol. lia.
  - intros ev Hev. rewrite Hcfg, Hopen. destruct (Hc ev Hev) as [Hout|[(ev' & Hev' & Hsf & Hw)|(p & ev' & Hpo & Hev' & [Hk Hl] & Hw)]].
    + left. apply elem_of_app. by left.
    + right. left. exists ev'. split; [apply elem_of_app; by left|done].
    + rewrite (remove_visit_perm a g (open c) (st_addrs c Hst) Hin) in Hpo. apply elem_of_cons in Hpo as [->|Hpo].
      * simpl in Hev'. destruct (survivors_cover _ _ Hev') as (ev2 & Hev2 & Hl2). rewrite <- Ho in Hev2. right. left. exists ev2.
        split; [apply elem_of_app; by right|]. destruct (Hkey ev' Hev') as [Hk1 _], (Hkey ev2 (Hsub ev2 Hev2)) as [Hk2 Hw2].
        simpl in Hw. split; [|lia]. split; [congruence|by eapply leads_to_trans].
      * right. right. by exists p, ev'.
  - intros ev Hev. apply Hr. rewrite Hp, !elem_of_app in *.
    destruct Hev as [[?|?%Hsub]|?]; tauto.
Qed.

(** Taking some visits of a snapshot. *)
Lemma take_all_spec test snap : forall c offered out,
  structured c -> conserved c offered out -> NoDup snap.*1 -> (forall p, p ∈ snap -> p ∈ open c) ->
  let '(c', o) := take_all c test snap in
  structured c' /\ conserved c' offered (out ++ o) /\ ccfg c' = ccfg c /\ sublist (open c') (open c) /\
  vnext c' = vnext c /\ (forall p, p ∈ snap -> p ∈ open c' -> test p.2 = false).
Proof.
  induction snap as [|[a g] snap IH]; intros c offered out Hst Hc Hnd Hin; cbn [take_all].
  { rewrite app_nil_r. split_and!; try done. by intros p ?%not_elem_of_nil. }
  rewrite fmap_cons in Hnd. apply NoDup_cons in Hnd as [Ha Hnd]. simpl in Ha.
  destruct (test g) eqn:Hg.
  - assert ((a, g) ∈ open c) as Hag by (apply Hin; by left).
    pose proof (conserved_take c a g offered out Hst Hag Hc) as Hc1.
    pose proof (structured_take c (a, g) Hst) as Hst1.
    pose proof (remove_visit_perm a g (open c) (st_addrs c Hst) Hag) as Hperm.
    pose proof (remove_visit_sublist a (open c)) as Hsub.
    destruct (take_visit c (a, g)) as [c1 o1] eqn:Ht. simpl in Hst1.
    assert (open c1 = remove_visit a (open c) /\ ccfg c1 = ccfg c /\ vnext c1 = vnext c) as (Ho1 & Hcf1 & Hvn1).
    { unfold take_visit in Ht. by injection Ht as <- _. }
    assert (forall p, p ∈ snap -> p ∈ open c1) as Hin1.
    { intros [b h] Hp. assert ((b, h) ∈ open c) as Hbh by (apply Hin; by right).
      rewrite Hperm, <- Ho1 in Hbh. apply elem_of_cons in Hbh as [[= -> ->]|]; [|done].
      destruct Ha. apply list_elem_of_fmap. by exists (a, g). }
    specialize (IH c1 offered (out ++ o1) Hst1 Hc1 Hnd Hin1).
    destruct (take_all c1 test snap) as [c2 o2]. destruct IH as (H1 & H2 & H3 & H4 & H5 & H6).
    rewrite app_assoc. split; [done|]. split; [done|]. split; [congruence|].
    split; [rewrite Ho1 in H4; by etrans|]. split; [congruence|].
    intros p [->|Hp]%elem_of_cons Hp2; [|by apply H6]. exfalso.
    assert ((a, g) ∈ open c1) as Hbad by (by eapply elem_of_sublist).
    pose proof (st_addrs c Hst) as Hna. rewrite Hperm, fmap_cons, <- Ho1 in Hna.
    apply NoDup_cons in Hna as [Hna _]. apply Hna, list_elem_of_fmap. by exists (a, g).
  - specialize (IH c offered out Hst Hc Hnd (fun p Hp => Hin p (list_elem_of_further _ _ _ Hp))).
    destruct (take_all c test snap) as [c2 o2]. destruct IH as (H1 & H2 & H3 & H4 & H5 & H6).
    split_and!; try done. intros p [->|Hp]%elem_of_cons Hp2; [done|by apply H6].
Qed.

(** ** Offering an event *)

Lemma find_visit_spec key vs :
  match find_visit key vs with
  | Some (a, g) => (a, g) ∈ vs /\ vkey g = key
  | None => Forall (fun p => vkey p.2 ≠ key) vs
  end.
Proof.
  induction vs as [|[a g] vs IH]; simpl; [constructor|]. case_decide as Hk.
  - split; [by left|done].
  - destruct (find_visit key vs) as [[b h]|]; [|by constructor].
    destruct IH. split; [by right|done].
Qed.

Lemma set_visit_addrs a g vs : (set_visit a g vs).*1 = vs.*1.
Proof.
  unfold set_visit. rewrite <- list_fmap_compose. apply list_fmap_ext. intros i [b h] _. simpl.
  case_decide; simpl; congruence.
Qed.

Lemma set_visit_absent a g vs : a ∉ vs.*1 -> set_visit a g vs = vs.
Proof.
  intros Ha. unfold set_visit. rewrite <- (list_fmap_id vs) at 2. apply list_fmap_ext.
  intros i [b h] Hi. simpl. case_decide as Hb; [|done]. simpl in Hb. subst b. destruct Ha.
  apply list_elem_of_fmap. exists (a, h). split; [done|]. by eapply list_elem_of_lookup_2.
Qed.

Lemma set_visit_perm a g g' (vs : list (nat * visit)) :
  NoDup vs.*1 -> (a, g) ∈ vs -> Permutation (set_visit a g' vs) ((a, g') :: remove_visit a vs).
Proof.
  induction vs as [|[b h] vs IH]; intros Hnd Hin; [by apply not_elem_of_nil in Hin|].
  rewrite fmap_cons in Hnd. apply NoDup_cons in Hnd as [Hb Hnd]. simpl in Hb.
  unfold set_visit. rewrite fmap_cons. fold (set_visit a g' vs). simpl.
  apply elem_of_cons in Hin as [[= -> ->]|Hin].
  - rewrite !decide_True by done. by rewrite set_visit_absent.
  - rewrite !decide_False by (intros ->; apply Hb, list_elem_of_fmap; by exists (a, g)).
    rewrite (IH Hnd Hin). apply Permutation_swap.
Qed.

(** The state in which the event's visit is at hand: open, and of its window. *)
Record at_hand (c : Collapser) (a : nat) (g : visit) (ev : Event) : Prop := {
  ah_open : (a, g) ∈ open c;
  ah_key : vkey g = visit_key ev;
  ah_window : vstart g <= At ev < vstart g + Window (ccfg c);
}.

(** A new visit changes nothing but the list of open ones. *)
Lemma create_visit c ev offered out :
  structured c -> conserved c offered out -> Forall (fun p => vkey p.2 ≠ visit_key ev) (open c) ->
  let g := mkVisit (visit_key ev) (At ev) 0 [] in
  let c' := mkCollapser (ccfg c) (open c ++ [(vnext c, g)]) (S (vnext c)) (collapsed c) in
  structured c' /\ conserved c' offered out /\ at_hand c' (vnext c) g ev.
Proof.
  intros [Hc Ha Hf Hk Hv] [Hn Hco Hr] Hkey g c'.
  assert (held c' = held c) as Hh.
  { unfold held, c'. simpl. rewrite fmap_app, concat_app. simpl. by rewrite app_nil_r. }
  split; [|split].
  - split; simpl; [done|..].
    + rewrite fmap_app. apply NoDup_app. split; [done|]. split; [|apply NoDup_singleton].
      intros x Hx ->%list_elem_of_singleton. rewrite Forall_forall in Hf. apply Hf in Hx. simpl in Hx. lia.
    + rewrite fmap_app. apply Forall_app. split; [|constructor; [simpl; lia|constructor]].
      eapply Forall_impl; [done|]. simpl. lia.
    + rewrite fmap_app. apply NoDup_app. split; [done|]. split; [|apply NoDup_singleton].
      intros x (p & -> & Hp)%list_elem_of_fmap Heq%list_elem_of_singleton.
      rewrite Forall_forall in Hkey. exact (Hkey p Hp Heq).
    + apply Forall_app. split; [done|]. constructor; [|done]. split; constructor.
  - split; rewrite ?Hh; [done| |done]. intros e He. destruct (Hco e He) as [?|[?|(p & e' & Hp & He')]]; [by left|by right; left|].
    right. right. exists p, e'. split; [apply elem_of_app; by left|done].
  - split; simpl; [apply elem_of_app; right; by left|done|]. destruct Hc as (? & _). lia.
Qed.

(** The event goes into its visit, or is counted with the path it repeats. *)
Lemma add_to_visit c a g ev now offered out :
  structured c -> conserved c offered out -> at_hand c a g ev ->
  let '(g', added) := addPath (mkVisit (vkey g) (vstart g) now (vevents g)) ev in
  let c' := mkCollapser (ccfg c) (set_visit a g' (open c)) (vnext c)
              (if added then collapsed c else collapsed c + 1) in
  structured c' /\ conserved c' (offered ++ [ev]) out /\ (a, g') ∈ open c' /\
  vevents g' = (if added then vevents g ++ [ev] else vevents g) /\ vevents g' ≠ [].
Proof.
  intros Hst Hco [Hag Hkey Hwin]. pose proof Hst as [Hc Ha Hf Hk Hv]. pose proof Hco as [Hn Hcv Hr].
  pose proof (remove_visit_perm a g (open c) Ha Hag) as Hp.
  assert (visit_ok (Window (ccfg c)) g) as [Hve Hvp].
  { rewrite Forall_forall in Hv. apply (Hv _ Hag). }
  unfold addPath. cbn [vevents vkey vstart vseen].
  set (dup := existsb _ _).
  set (g' := if dup then mkVisit (vkey g) (vstart g) now (vevents g)
             else mkVisit (vkey g) (vstart g) now (vevents g ++ [ev])).
  assert ((if dup then (mkVisit (vkey g) (vstart g) now (vevents g), false)
           else (mkVisit (vkey g) (vstart g) now (vevents g ++ [ev]), true)) = (g', negb dup)) as ->.
  { unfold g'. by destruct dup. }
  pose proof (set_visit_perm a g g' (open c) Ha Hag) as Hp'.
  set (c' := mkCollapser _ _ _ _).
  assert (vkey g' = vkey g /\ vstart g' = vstart g) as [Hgk Hgs] by (unfold g'; by destruct dup).
  assert (vevents g' = if negb dup then vevents g ++ [ev] else vevents g) as Hge
    by (unfold g'; by destruct dup).
  set (rest := concat ((fun p => vevents p.2) <$> remove_visit a (open c))).
  assert (Permutation (held c) (vevents g ++ rest)) as Hh by (unfold held; by rewrite Hp at 1).
  assert (Permutation (held c') (vevents g' ++ rest)) as Hh' by (unfold held; simpl; by rewrite Hp' at 1).
  assert (visit_ok (Window (ccfg c)) g') as Hok'.
  { split; rewrite Hge, ?Hgk, ?Hgs; destruct dup eqn:Hdup; simpl; try done.
    - apply Forall_app. split; [done|]. constructor; [|done]. by rewrite Hkey.
    - rewrite fmap_app. apply NoDup_app. split; [done|]. split; [|apply NoDup_singleton].
      intros x (e & -> & He)%list_elem_of_fmap Hx%list_elem_of_singleton.
      assert (dup = true); [|congruence]. apply existsb_exists. exists e.
      split; [by apply list_elem_of_In|]. by apply bool_decide_eq_true. }
  split; [|split; [|split; [|split; [done|]]]].
  - split; simpl; [done| | | |].
    + by rewrite set_visit_addrs.
    + by rewrite set_visit_addrs.
    + rewrite Hp'. rewrite Hp in Hk. rewrite fmap_cons in *. simpl in *. by rewrite Hgk.
    + rewrite Hp'. rewrite Hp in Hv. apply Forall_cons in Hv as [_ Hv]. by constructor.
  - split.
    + rewrite (zlen_Permutation _ _ Hh'), !zlen_app. change (zlen [ev]) with 1.
      rewrite Hn, (zlen_Permutation _ _ Hh), zlen_app, Hge. simpl collapsed.
      destruct dup; simpl; [lia|]. rewrite zlen_app. change (zlen [ev]) with 1. lia.
    + intros e [He| ->%list_elem_of_singleton]%elem_of_app.
      * destruct (Hcv e He) as [?|[?|(p & e' & Hpo & He' & Hsf & Hw)]]; [by left|by right; left|]. right. right.
        rewrite Hp in Hpo. apply elem_of_cons in Hpo as [->|Hpo].
        -- exists (a, g'), e'. simpl in *. rewrite Hgs, Hge. split; [unfold c'; cbn [open]; rewrite Hp'; by left|]. split; [|done].
           destruct (negb dup); [apply elem_of_app; by left|done].
        -- exists p, e'. simpl. rewrite Hp'. split; [by right|done].
      * right. right. destruct dup eqn:Hdup.
        -- unfold dup in Hdup. apply existsb_exists in Hdup as (e' & He'%list_elem_of_In & Heq).
           apply bool_decide_eq_true in Heq. exists (a, g'), e'. cbn [fst snd]. rewrite Hgs, Hge. split; [unfold c'; cbn [open]; rewrite Hp'; by left|]. split; [done|].
           split; [|done]. split; [|by left]. rewrite Forall_forall in Hve. rewrite <- Hkey. by apply Hve.
        -- exists (a, g'), ev. cbn [fst snd]. rewrite Hgs, Hge. split; [unfold c'; cbn [open]; rewrite Hp'; by left|]. split; [apply elem_of_app; right; by left|].
           split; [split; [done|by left]|done].
    + intros e He. rewrite Hh', !elem_of_app, Hge in He. rewrite elem_of_app, list_elem_of_singleton.
      specialize (Hr e). rewrite Hh, !elem_of_app in Hr.
      destruct (negb dup); [rewrite elem_of_app, list_elem_of_singleton in He|]; tauto.
  - simpl. rewrite Hp'. by left.
  - rewrite Hge. destruct dup eqn:Hdup; simpl; [|by destruct (vevents g)].
    unfold dup in Hdup. by destruct (vevents g).
Qed.

(** ** Bounds *)

Record bounded (c : Collapser) : Prop := {
  bd_groups : zlen (open c) <= MaxGroups (ccfg c);
  bd_paths : Forall (fun p => 0 < zlen (vevents p.2) < MaxPathsPerGroup (ccfg c)) (open c);
}.

Lemma shed_spec fuel : forall c offered out,
  structured c -> conserved c offered out -> (length (open c) <= fuel)%nat ->
  let '(c', o) := shed fuel c in
  structured c' /\ conserved c' offered (out ++ o) /\ ccfg c' = ccfg c /\
  zlen (open c') <= MaxGroups (ccfg c) /\ sublist (open c') (open c).
Proof.
  induction fuel as [|fuel IH]; intros c offered out Hst Hco Hlen; cbn [shed].
  { rewrite app_nil_r. split_and!; try done. destruct (st_cfg c Hst) as (_ & ? & _). unfold zlen. lia. }
  destruct (_ <? _) eqn:E; go_bools; [|rewrite app_nil_r; by split_and!].
  destruct (open c) as [|[a g] vs] eqn:Ho.
  { destruct (st_cfg c Hst) as (_ & ? & _). change (zlen []) with 0 in E. lia. }
  assert ((a, g) ∈ open c) as Hag by (rewrite Ho; by left).
  pose proof (conserved_take c a g offered out Hst Hag Hco) as Hc1.
  pose proof (structured_take c (a, g) Hst) as Hst1.
  destruct (take_visit c (a, g)) as [c1 o1] eqn:Ht. cbn [fst] in Hst1.
  assert (open c1 = vs /\ ccfg c1 = ccfg c) as [Ho1 Hcf].
  { unfold take_visit in Ht. rewrite Ho in Ht. simpl in Ht. rewrite decide_True in Ht by done. by injection Ht as <- _. }
  specialize (IH c1 offered (out ++ o1) Hst1 Hc1). rewrite Ho1 in IH. simpl in Hlen.
  specialize (IH ltac:(lia)). destruct (shed fuel c1) as [c2 o2]. destruct IH as (H1 & H2 & H3 & H4 & H5).
  rewrite app_assoc. split_and!; try done; [congruence|by rewrite <- Hcf|by constructor].
Qed.

Definition in_bounds (c : Collapser) (g : visit) : Prop := 0 < zlen (vevents g) < MaxPathsPerGroup (ccfg c).

Lemma take_visit_open c a g : open (take_visit c (a, g)).1 = remove_visit a (open c).
Proof. done. Qed.

Lemma removed_addr c a g p :
  structured c -> (a, g) ∈ open c -> p ∈ remove_visit a (open c) -> p.1 ≠ a.
Proof.
  intros Hst Hag Hp Heq. subst a. pose proof (st_addrs c Hst) as Ha.
  rewrite (remove_visit_perm p.1 g (open c) Ha Hag) in Ha. rewrite fmap_cons in Ha.
  apply NoDup_cons in Ha as [Ha _]. apply Ha, list_elem_of_fmap. by exists p.
Qed.

(** The tail of [Offer], from the visit at hand on. *)
Definition offer_at (c : Collapser) (a : nat) (g : visit) (ev : Event) (now : Z) (out : list Event) :
    Collapser * list Event :=
  let '(g, added) := addPath (mkVisit (vkey g) (vstart g) now (vevents g)) ev in
  let c := mkCollapser (ccfg c) (set_visit a g (open c)) (vnext c) (collapsed c) in
  let '(c, out) :=
    if negb added then
      (mkCollapser (ccfg c) (open c) (vnext c) (collapsed c + 1), out)
    else if MaxPathsPerGroup (ccfg c) <=? zlen (vevents g) then
      let '(c, out') := take_visit c (a, g) in (c, out ++ out')
    else (c, out) in
  let '(c, out') := shed (length (open c)) c in
  (c, out ++ out').

Lemma offer_at_spec c a g ev now offered out0 out :
  structured c -> conserved c offered (out0 ++ out) -> at_hand c a g ev ->
  (forall p, p ∈ open c -> p.1 ≠ a -> in_bounds c p.2) ->
  (vevents g = [] \/ in_bounds c g) ->
  let '(c', o) := offer_at c a g ev now out in
  structured c' /\ conserved c' (offered ++ [ev]) (out0 ++ o) /\ ccfg c' = ccfg c /\ bounded c'.
Proof.
  intros Hst Hco Hah Hothers Hg. unfold offer_at.
  pose proof (add_to_visit c a g ev now offered (out0 ++ out) Hst Hco Hah) as Hadd.
  destruct (addPath _ _) as [g' added]. cbv zeta in Hadd.
  set (c1 := mkCollapser _ _ _ (if added then _ else _)) in Hadd.
  destruct Hadd as (Hst1 & Hco1 & Hag1 & Hge & Hne).
  assert (forall p, p ∈ open c1 -> p.1 ≠ a -> in_bounds c p.2) as Hoth1.
  { intros p Hp Hpa. unfold c1 in Hp. simpl in Hp.
    rewrite (set_visit_perm a g g' (open c) (st_addrs c Hst) (ah_open _ _ _ _ Hah)) in Hp.
    apply elem_of_cons in Hp as [->|Hp]; [done|]. apply Hothers; [|done].
    eapply elem_of_sublist; [done|apply remove_visit_sublist]. }
  assert (exists c2 o2,
    (if negb added then
       (mkCollapser (ccfg c) (set_visit a g' (open c)) (vnext c) (collapsed c + 1), out)
     else if MaxPathsPerGroup (ccfg c) <=? zlen (vevents g') then
       let '(c, out') := take_visit (mkCollapser (ccfg c) (set_visit a g' (open c)) (vnext c) (collapsed c)) (a, g')
       in (c, out ++ out')
     else (mkCollapser (ccfg c) (set_visit a g' (open c)) (vnext c) (collapsed c), out)) = (c2, o2) /\
    structured c2 /\ conserved c2 (offered ++ [ev]) (out0 ++ o2) /\ ccfg c2 = ccfg c /\
    Forall (fun p => in_bounds c p.2) (open c2)) as (c2 & o2 & Heq & Hst2 & Hco2 & Hcf2 & Hb2).
  { destruct added; simpl negb; cbv iota.
    - destruct (_ <=? _) eqn:E; go_bools.
      + pose proof (conserved_take c1 a g' (offered ++ [ev]) (out0 ++ out) Hst1 Hag1 Hco1) as Htk.
        pose proof (structured_take c1 (a, g') Hst1) as Hstk.
        pose proof (removed_addr c1 a g') as Hrem.
        change (mkCollapser (ccfg c) (set_visit a g' (open c)) (vnext c) (collapsed c)) with c1.
        destruct (take_visit c1 (a, g')) as [c2 o'] eqn:Ht. cbn [fst] in Hstk.
        exists c2, (out ++ o'). split; [done|]. rewrite app_assoc.
        assert (open c2 = remove_visit a (open c1) /\ ccfg c2 = ccfg c1) as [Ho2 Hc2].
        { unfold take_visit in Ht. by injection Ht as <- _. }
        split; [done|]. split; [done|]. split; [done|]. rewrite Ho2, Forall_forall. intros p Hp.
        apply Hoth1; [eapply elem_of_sublist; [done|apply remove_visit_sublist]|by apply Hrem].
      + exists c1, out. split; [done|]. split; [done|]. split; [done|]. split; [done|].
        rewrite Forall_forall. intros p Hp. destruct (decide (p.1 = a)) as [Hpa|]; [|by apply Hoth1].
        assert (p = (a, g')) as ->.
        { destruct p as [b h]. simpl in Hpa. subst b.
          unfold c1 in Hp, Hag1. simpl in Hp, Hag1.
          rewrite (set_visit_perm a g g' (open c) (st_addrs c Hst) (ah_open _ _ _ _ Hah)) in Hp.
          apply elem_of_cons in Hp as [->|Hp]; [done|].
          by apply (removed_addr c a g) in Hp; [|done|apply (ah_open _ _ _ _ Hah)]. }
        simpl. split; [by apply zlen_pos|done].
    - exists c1, out. split; [done|]. split; [done|]. split; [done|]. split; [done|].
      rewrite Forall_forall. intros p Hp. destruct (decide (p.1 = a)) as [Hpa|]; [|by apply Hoth1].
      unfold c1 in Hp. simpl in Hp.
      rewrite (set_visit_perm a g g' (open c) (st_addrs c Hst) (ah_open _ _ _ _ Hah)) in Hp.
      apply elem_of_cons in Hp as [->|Hp].
      + simpl. unfold in_bounds. rewrite Hge. destruct Hg as [Hg|Hg]; [congruence|done].
      + by apply (removed_addr c a g) in Hp; [|done|apply (ah_open _ _ _ _ Hah)]. }
  cbn [ccfg open vnext collapsed]. rewrite Heq.
  pose proof (shed_spec (length (open c2)) c2 (offered ++ [ev]) (out0 ++ o2) Hst2 Hco2 (Nat.le_refl _)) as Hsh.
  destruct (shed _ c2) as [c3 o3]. destruct Hsh as (H1 & H2 & H3 & H4 & H5).
  rewrite app_assoc. split; [done|]. split; [done|]. split; [congruence|]. split.
  - by rewrite H3.
  - rewrite Forall_forall in *. intros p Hp. rewrite H3, Hcf2. apply Hb2. by eapply elem_of_sublist.
Qed.

Lemma pass_through c ev offered out :
  conserved c offered out -> conserved c (offered ++ [ev]) (out ++ [ev]).
Proof.
  intros [Hn Hcv Hr]. split.
  - rewrite !zlen_app. lia.
  - intros e [He| ->%list_elem_of_singleton]%elem_of_app.
    + destruct (Hcv e He) as [?|[(e' & He' & ?)|?]]; [left; apply elem_of_app; by left| |by right; right]. right. left. exists e'.
      split; [apply elem_of_app; by left|done].
    + left. apply elem_of_app. right. by left.
  - intros e. rewrite !elem_of_app. specialize (Hr e). rewrite elem_of_app in Hr. tauto.
Qed.

Lemma Offer_spec c ev now offered out :
  structured c -> bounded c -> conserved c offered out ->
  let '(c', o) := Offer c ev now in
  structured c' /\ conserved c' (offered ++ [ev]) (out ++ o) /\ ccfg c' = ccfg c /\ bounded c'.
Proof.
  intros Hst [Hbg Hbp] Hco. unfold Offer.
  destruct (_ || _)%bool; [split; [done|]; split; [by apply pass_through|]; done|].
  unfold flushElapsed.
  pose proof (take_all_spec (fun g => negb (At ev <? vstart g + Window (ccfg c))) (open c) c offered out
    Hst Hco (st_addrs c Hst) (fun p Hp => Hp)) as Hfl.
  destruct (take_all _ _ _) as [c1 o1]. destruct Hfl as (Hst1 & Hco1 & Hcf1 & Hsub1 & Hvn1 & Hin1).
  assert (forall p, p ∈ open c1 -> At ev < vstart p.2 + Window (ccfg c1)) as Hwin.
  { intros p Hp. rewrite Hcf1. pose proof (Hin1 p (elem_of_sublist _ _ _ Hp Hsub1) Hp) as Ht. by go_bools. }
  assert (forall p, p ∈ open c1 -> in_bounds c1 p.2) as Hb1.
  { intros p Hp. unfold in_bounds. rewrite Hcf1. rewrite Forall_forall in Hbp.
    apply Hbp. by eapply elem_of_sublist. }
  change (fun p : Collapser => p) with (@id Collapser).
  assert (forall c2 o2, structured c2 -> conserved c2 offered (out ++ o2) -> ccfg c2 = ccfg c1 ->
    (forall p, p ∈ open c2 -> in_bounds c2 p.2) -> Forall (fun p => vkey p.2 ≠ visit_key ev) (open c2) ->
    let g := mkVisit (visit_key ev) (At ev) 0 [] in
    let '(c', o) := offer_at (mkCollapser (ccfg c2) (open c2 ++ [(vnext c2, g)]) (S (vnext c2)) (collapsed c2))
      (vnext c2) g ev now o2 in
    structured c' /\ conserved c' (offered ++ [ev]) (out ++ o) /\ ccfg c' = ccfg c /\ bounded c') as Hnew.
  { intros c2 o2 Hst2 Hco2 Hcf2 Hb2 Hk2 g.
    destruct (create_visit c2 ev offered (out ++ o2) Hst2 Hco2 Hk2) as (Hst3 & Hco3 & Hah). fold g in Hst3, Hco3, Hah.
    set (c3 := mkCollapser _ _ _ _) in *.
    pose proof (offer_at_spec c3 (vnext c2) g ev now offered out o2 Hst3 Hco3 Hah) as Hof.
    destruct (offer_at _ _ _ _ _ _) as [c' o]. destruct Hof as (? & ? & ? & ?).
    - intros p Hp Hpa. simpl in Hp. apply elem_of_app in Hp as [Hp|Hp%list_elem_of_singleton]; [by apply Hb2|].
      by subst p.
    - by left.
    - split; [done|]. split; [done|]. split; [|done]. rewrite H1. simpl. congruence. }
  pose proof (find_visit_spec (visit_key ev) (open c1)) as Hfind.
  destruct (find_visit _ _) as [[a g]|].
  - destruct Hfind as [Hag Hgk]. destruct (_ || _)%bool eqn:E.
    + pose proof (conserved_take c1 a g offered (out ++ o1) Hst1 Hag Hco1) as Htk.
      pose proof (structured_take c1 (a, g) Hst1) as Hstk.
      pose proof (remove_visit_perm a g (open c1) (st_addrs c1 Hst1) Hag) as Hperm.
      pose proof (st_keys c1 Hst1) as Hks. rewrite Hperm, fmap_cons in Hks.
      apply NoDup_cons in Hks as [Hks _].
      destruct (take_visit c1 (a, g)) as [c2 o'] eqn:Ht. cbn [fst] in Hstk.
      assert (open c2 = remove_visit a (open c1) /\ ccfg c2 = ccfg c1) as [Ho2 Hc2].
      { unfold take_visit in Ht. by injection Ht as <- _. }
      rewrite <- app_assoc in Htk.
      apply (Hnew c2 (o1 ++ o') Hstk Htk Hc2).
      * intros p Hp. unfold in_bounds. rewrite Hc2. apply Hb1. rewrite Ho2 in Hp.
        eapply elem_of_sublist; [done|apply remove_visit_sublist].
      * rewrite Ho2, Forall_forall. intros p Hp Heq. apply Hks. simpl. rewrite Hgk, <- Heq.
        apply list_elem_of_fmap. by exists p.
    + apply orb_false_iff in E as [E1 E2]. go_bools.
      pose proof (offer_at_spec c1 a g ev now offered out o1 Hst1 Hco1) as Hof. unfold offer_at in Hof.
      destruct (addPath _ _) as [g' added]. cbv zeta in Hof.
      destruct (if negb added then _ else _) as [c2 o2].
      destruct (shed (length (open c2)) c2) as [c3 o3].
      destruct Hof as (? & ? & ? & ?).
      * by split.
      * intros p Hp _. by apply Hb1.
      * right. by apply (Hb1 (a, g)).
      * split; [done|]. split; [done|]. split; [congruence|done].
  - apply (Hnew c1 o1 Hst1 Hco1 eq_refl Hb1 Hfind).
Qed.

(** ** Runs *)

Inductive collapse_op : Type :=
| OpOffer (ev : Event) (now : Z)
| OpDue (now : Z)
| OpFlush.

Definition collapse_step (c : Collapser) (o : collapse_op) : Collapser * list Event :=
  match o with
  | OpOffer ev now => Offer c ev now
  | OpDue now => Due c now
  | OpFlush => Flush c
  end.

Fixpoint collapse_run (c : Collapser) (os : list collapse_op) : Collapser * list Event :=
  match os with
  | [] => (c, [])
  | o :: os =>
      let '(c, out) := collapse_step c o in
      let '(c, out') := collapse_run c os in (c, out ++ out')
  end.

Definition offered (os : list collapse_op) : list Event :=
  omap (fun o => match o with OpOffer ev _ => Some ev | _ => None end) os.

Lemma NewCollapser_spec cfg c :
  NewCollapser cfg = Some c -> structured c /\ bounded c /\ conserved c [] [].
Proof.
  unfold NewCollapser. destruct (_ || _)%bool eqn:E; [done|]. intros [= <-]. go_bools.
  assert (forall x d, 0 <= x -> 0 < d -> 0 < (if x =? 0 then d else x)) as Hpos
    by (intros x d ? ?; destruct (x =? 0) eqn:?; go_bools; lia).
  split; [|split].
  - split; simpl; [|constructor..]. split_and!; by apply Hpos.
  - split; simpl; [|constructor]. change (zlen []) with 0. apply Z.lt_le_incl. by apply Hpos.
  - split; simpl; [done| |]; by intros ev ?%not_elem_of_nil.
Qed.

Lemma sublist_bounded c c' :
  ccfg c' = ccfg c -> sublist (open c') (open c) -> bounded c -> bounded c'.
Proof.
  intros Hc Hs [Hg Hp]. split.
  - rewrite Hc. unfold zlen in *. pose proof (sublist_length _ _ Hs). lia.
  - rewrite Hc. rewrite Forall_forall in *. intros p Hin. apply Hp. by eapply elem_of_sublist.
Qed.

Lemma collapse_step_spec c o os_offered out :
  structured c -> bounded c -> conserved c os_offered out ->
  let '(c', o') := collapse_step c o in
  structured c' /\ bounded c' /\ conserved c' (os_offered ++ offered [o]) (out ++ o') /\
  (o = OpFlush -> open c' = []) /\ ccfg c' = ccfg c.
Proof.
  intros Hst Hb Hco. destruct o as [ev now|now|]; simpl.
  - pose proof (Offer_spec c ev now os_offered out Hst Hb Hco) as H.
    destruct (Offer c ev now) as [c' o']. destruct H as (? & ? & ? & ?). done.
  - unfold Due. set (test := fun g => _).
    pose proof (take_all_spec test (open c) c os_offered out Hst Hco (st_addrs c Hst) (fun p Hp => Hp)) as H.
    destruct (take_all c test (open c)) as [c' o']. destruct H as (? & ? & ? & ? & _).
    rewrite app_nil_r. split; [done|]. split; [by eapply sublist_bounded|]. done.
  - unfold Flush. set (test := fun g => _).
    pose proof (take_all_spec test (open c) c os_offered out Hst Hco (st_addrs c Hst) (fun p Hp => Hp)) as H.
    destruct (take_all c test (open c)) as [c' o']. destruct H as (? & ? & ? & Hs & _ & Hall).
    rewrite app_nil_r. split; [done|]. split; [by eapply sublist_bounded|]. split; [done|].
    split; [|done]. intros _. destruct (open c') as [|p vs] eqn:Ho; [done|].
    assert (p ∈ open c') as Hp by (rewrite Ho; by left). rewrite <- Ho in Hs.
    pose proof (Hall p (elem_of_sublist _ _ _ Hp Hs)) as Hf. rewrite <- Ho in Hf. by apply Hf in Hp.
Qed.

Lemma collapse_run_spec os : forall c os_offered out,
  structured c -> bounded c -> conserved c os_offered out ->
  let '(c', out') := collapse_run c os in
  structured c' /\ bounded c' /\ conserved c' (os_offered ++ offered os) (out ++ out') /\
  (last os = Some OpFlush -> open c' = []) /\ ccfg c' = ccfg c.
Proof.
  induction os as [|o os IH]; intros c acc out Hst Hb Hco; cbn [collapse_run].
  { rewrite !app_nil_r. done. }
  pose proof (collapse_step_spec c o acc out Hst Hb Hco) as H.
  destruct (collapse_step c o) as [c1 o1]. destruct H as (Hst1 & Hb1 & Hco1 & Hfl & Hcf1).
  specialize (IH c1 _ _ Hst1 Hb1 Hco1). destruct (collapse_run c1 os) as [c2 o2] eqn:Hrun.
  destruct IH as (? & ? & Hco2 & Hl & Hcf2). rewrite <- !app_assoc in Hco2.
  assert (offered (o :: os) = offered [o] ++ offered os) as ->.
  { unfold offered. rewrite <- omap_app. done. }
  split; [done|]. split; [done|]. split; [done|]. split; [|congruence].
  destruct os as [|o' os]; [|done]. intros [= ->]. cbn in Hrun. injection Hrun as <- _. by apply Hfl.
Qed.

(** An event's address and share hold no separator, as every parsed one's. *)
Definition plain_event (ev : Event) : Prop := pipe ∉ SourceIP ev /\ pipe ∉ Share ev.

Lemma visit_key_inj ev ev' :
  plain_event ev -> plain_event ev' -> visit_key ev = visit_key ev' ->
  User ev = User ev' /\ SourceIP ev = SourceIP ev' /\ Share ev = Share ev'.
Proof.
  intros [Hi Hs] [Hi' Hs'] Hk. unfold visit_key in Hk.
  assert ((User ev ++ pipe :: SourceIP ev) ++ pipe :: Share ev =
          (User ev' ++ pipe :: SourceIP ev') ++ pipe :: Share ev') as Hk'
    by (rewrite <- !app_assoc; exact Hk).
  apply app_sep_inj in Hk' as [Hk' ->]; [|done..]. by apply app_sep_inj in Hk' as [-> ->].
Qed.

(** Two events that are not of one walk: another visitor's, or at paths neither
    of which is the other or below it. *)
Definition unwalked (ev ev' : Event) : Prop := ~ stands_for ev ev' /\ ~ stands_for ev' ev.

Lemma survivors_unwalked evs : NoDup (Path <$> evs) -> StronglySorted unwalked (survivors evs).
Proof.
  intros Hnd. assert (forall x y, x ∈ survivors evs -> y ∈ survivors evs -> isPathPrefix (Path x) (Path y) = false) as Hno.
  { intros x y [Hx _]%list_elem_of_filter [_ Hy]%list_elem_of_filter. destruct (isPathPrefix _ _) eqn:E; [|done].
    assert (existsb (fun other => isPathPrefix (Path x) (Path other)) evs = true); [|congruence].
    apply existsb_exists. exists y. split; [by apply list_elem_of_In|done]. }
  assert (NoDup (Path <$> survivors evs)) as Hnds by (unfold survivors; by apply NoDup_fmap_filter).
  revert Hno Hnds. generalize (survivors evs). clear. intros l Hno. induction l as [|x l IH]; [constructor|].
  rewrite fmap_cons. intros [Hx Hnd]%NoDup_cons. constructor.
  - apply IH; [|done]. intros a b Ha Hb. apply Hno; by right.
  - apply Forall_forall. intros y Hy. assert (Path x ≠ Path y) as Hne by (intros Heq; apply Hx, list_elem_of_fmap; by exists y).
    assert (isPathPrefix (Path x) (Path y) = false) as H1 by (apply Hno; [by left|by right]).
    assert (isPathPrefix (Path y) (Path x) = false) as H2 by (apply Hno; [by right|by left]).
    split; intros [_ [?|?]]; congruence.
Qed.

Lemma StronglySorted_append {A} (R : A -> A -> Prop) l k :
  StronglySorted R l -> StronglySorted R k -> (forall x y, x ∈ l -> y ∈ k -> R x y) -> StronglySorted R (l ++ k).
Proof.
  intros Hl Hk Hlk. induction Hl as [|x l Hl IH Hx]; [done|]. simpl. constructor.
  - apply IH. intros a b Ha Hb. apply Hlk; [by right|done].
  - apply Forall_app. split; [done|]. apply Forall_forall. intros y Hy. apply Hlk; [by left|done].
Qed.

(** What a check or a flush returns is of no walk twice: one visit a key, and
    of each what survives. *)
Lemma take_all_unwalked w test snap : forall c,
  NoDup ((fun p => vkey p.2) <$> snap) -> Forall (fun p => visit_ok w p.2) snap ->
  let out := (take_all c test snap).2 in
  StronglySorted unwalked out /\ forall ev, ev ∈ out -> visit_key ev ∈ (fun p => vkey p.2) <$> snap.
Proof.
  induction snap as [|[a g] snap IH]; intros c Hk Hv; cbn [take_all]; [split; [constructor|by intros ev ?%elem_of_nil]|].
  rewrite fmap_cons in Hk |- *. apply NoDup_cons in Hk as [Ha Hk]. apply Forall_cons in Hv as [Hg Hv]. simpl in Ha, Hg.
  destruct (test g) eqn:Htest.
  - destruct (take_visit c (a, g)) as [c1 o1] eqn:Ht. specialize (IH c1 Hk Hv). destruct (take_all c1 test snap) as [c2 o2].
    assert (o1 = survivors (vevents g)) as -> by (unfold take_visit in Ht; by injection Ht as _ <-). destruct IH as [Hs Hin]. cbn [snd] in *.
    assert (forall ev, ev ∈ survivors (vevents g) -> visit_key ev = vkey g) as Hkey.
    { intros ev [_ Hev]%list_elem_of_filter. pose proof (vo_events _ _ Hg) as Hall. rewrite Forall_forall in Hall. by apply Hall. }
    split.
    + apply StronglySorted_append; [apply survivors_unwalked, (vo_paths _ _ Hg)|done|]. intros x y Hx%Hkey Hy%Hin.
      split; intros [Heq _]; apply Ha; rewrite <- Hx; [by rewrite <- Heq|by rewrite Heq].
    + intros ev [Hev|Hev]%elem_of_app; [rewrite (Hkey ev Hev); by left|right; by apply Hin].
  - specialize (IH c Hk Hv). destruct (take_all c test snap) as [c2 o2]. destruct IH as [Hs Hin]. split; [done|].
    intros ev Hev. right. by apply Hin.
Qed.

(** What a run of the collapser returns, holds and folded. *)
Lemma visits_accounted (cfg : CollapseConfig) (c0 : Collapser) (os : list collapse_op) :
  NewCollapser cfg = Some c0 -> Forall plain_event (offered os) ->
  let '(c, out) := collapse_run c0 os in
  zlen (offered os) = zlen out + zlen (held c) + collapsed c /\
  (forall ev, ev ∈ offered os -> ev ∈ out \/
     exists ev', ev' ∈ out ++ held c /\ User ev' = User ev /\ SourceIP ev' = SourceIP ev /\
       Share ev' = Share ev /\ leads_to (Path ev) (Path ev') /\
       Z.abs (At ev' - At ev) < Window (ccfg c)) /\
  (forall ev, ev ∈ out ++ held c -> ev ∈ offered os) /\
  zlen (open c) <= MaxGroups (ccfg c) /\
  (forall p, p ∈ open c -> 0 < zlen (vevents p.2) < MaxPathsPerGroup (ccfg c) /\
     NoDup (Path <$> vevents p.2) /\
     Forall (fun ev => vstart p.2 <= At ev < vstart p.2 + Window (ccfg c)) (vevents p.2)) /\
  (last os = Some OpFlush -> held c = []) /\
  Window (ccfg c) = (if Window cfg =? 0 then DefaultCollapseWindow else Window cfg) /\
  (forall o, match o with OpOffer _ _ => False | _ => True end -> StronglySorted unwalked (collapse_step c o).2).
Proof.
  intros Hnew Hplain. destruct (NewCollapser_spec cfg c0 Hnew) as (Hst & Hb & Hco).
  pose proof (collapse_run_spec os c0 [] [] Hst Hb Hco) as Hr.
  destruct (collapse_run c0 os) as [c out]. simpl app in Hr.
  destruct Hr as (Hst' & [Hbg Hbp] & [Hn Hcv Hreal] & Hfl & Hcfg). rewrite Forall_forall in Hplain.
  assert (forall ev ev', ev ∈ offered os -> ev' ∈ out ++ held c -> stands_for ev ev' ->
    User ev' = User ev /\ SourceIP ev' = SourceIP ev /\ Share ev' = Share ev /\ leads_to (Path ev) (Path ev')) as Hsame.
  { intros ev ev' Hev Hev' [Hk Hl]. apply visit_key_inj in Hk as (? & ? & ?); [done|by apply Hplain, Hreal|by apply Hplain]. }
  split; [done|]. split; [|split; [done|split; [done|split; [|split; [|split]]]]].
  - intros ev Hev. destruct (Hcv ev Hev) as [?|[(ev' & Hev' & Hsf & Hw)|(p & ev' & Hp & Hev' & Hsf & Hw)]]; [by left|right..].
    + assert (ev' ∈ out ++ held c) as Hin by (apply elem_of_app; by left). exists ev'.
      destruct (Hsame ev ev' Hev Hin Hsf) as (? & ? & ? & ?). by split_and!.
    + assert (ev' ∈ out ++ held c) as Hin.
      { apply elem_of_app. right. unfold held. apply list_elem_of_In, in_concat. exists (vevents p.2). rewrite <- !list_elem_of_In. split; [|done]. apply list_elem_of_fmap. by exists p. }
      exists ev'. destruct (Hsame ev ev' Hev Hin Hsf) as (? & ? & ? & ?). split_and!; [done..|].
      pose proof (st_visits c Hst') as Hv. rewrite Forall_forall in Hv. pose proof (vo_events _ _ (Hv p Hp)) as He.
      rewrite Forall_forall in He. destruct (He ev' Hev') as [_ ?]. lia.
  - intros p Hp. pose proof (st_visits c Hst') as Hv. rewrite Forall_forall in Hbp, Hv.
    destruct (Hv p Hp) as [Hve Hvp]. split; [by apply Hbp|]. split; [done|].
    eapply Forall_impl; [done|]. simpl. tauto.
  - intros Hl. unfold held. by rewrite Hfl.
  - rewrite Hcfg. unfold NewCollapser in Hnew. destruct (_ || _)%bool; [done|]. by injection Hnew as <-.
  - intros o Ho. destruct o; [done|..]; by eapply take_all_unwalked; [apply (st_keys c Hst')|apply (st_visits c Hst')].
Qed.

Definition ex_access (path : string) (t : Z) : Event :=
  mkEvent KindAccess (lit "root") (lit "172.21.0.3") (lit "public") (lit "close") (lit "ok") (lit path) [] [] t.

Definition ex_visit : list collapse_op :=
  [OpOffer (ex_access "/srv/public" 10) 1; OpOffer (ex_access "/srv/public/IT" 11) 2;
   OpOffer (ex_access "/srv/public/IT/vpn.pdf" 12) 3; OpOffer (ex_access "/srv/public/IT" 13) 4;
   OpOffer (ex_access "/srv/public/IT/vpn.pdf" 14) 5; OpOffer (ex_access "/srv/publ" 15) 6; OpFlush].

Definition ex_c0 : Collapser := mkCollapser (mkCollapse DefaultCollapseWindow 64 64) [] 0 0.
Definition ex_c1 : Collapser := mkCollapser (mkCollapse DefaultCollapseWindow 64 64) [] 1 4.

(** ** Parsing *)

Section parse_spec.
Context `{Unicode, Calendar}.

(** An audit line as Samba writes it: a header in brackets, then six fields. *)
Definition audit_msg (user ip share op result path : bytes) : bytes :=
  ((((user ++ pipe :: ip) ++ pipe :: share) ++ pipe :: op) ++ pipe :: result) ++ pipe :: path.

Definition audit_line (hdr msg : bytes) : bytes := 91 :: hdr ++ 93 :: 32 :: msg.

(** The time of a header, and its stamp. *)
Definition stamp_of (hdr : bytes) : bytes :=
  if headerTime hdr =? 0 then [] else format_opencanary_time (headerTime hdr).

Definition blank (c : Z) : bool := (c =? 32) || (c =? 9).

Lemma zlen_slice_mid (p m s : bytes) i j :
  i = zlen p -> j = zlen p + zlen m -> slice (p ++ m ++ s) i j = m.
Proof. intros -> ->. apply slice_app_mid. Qed.

Lemma strip_audit_line hdr msg :
  93 ∉ hdr -> zlen hdr <= 62 -> (forall c, head msg = Some c -> blank c = false) ->
  stripDebugHeader (audit_line hdr msg) = Some (msg, stamp_of hdr, headerTime hdr).
Proof.
  intros Hh Hl Hm. unfold stripDebugHeader, audit_line.
  set (line := 91 :: hdr ++ 93 :: 32 :: msg). pose proof (zlen_nonneg hdr). pose proof (zlen_nonneg msg).
  assert (zlen line = zlen hdr + zlen msg + 3) as Hlen.
  { unfold line. rewrite zlen_cons, zlen_app, !zlen_cons. lia. }
  destruct (IndexByte_spec (slice line 0 (Z.min (zlen line) maxHeaderLen)) 93) as
    [[_ Hn]|(p & r & Heq & Hp & ->)].
  - exfalso. apply Hn. unfold slice. rewrite Z.sub_0_r. simpl drop. unfold line.
    apply list_elem_of_lookup. exists (S (length hdr)).
    assert (S (length hdr) < Z.to_nat (Z.min (zlen line) maxHeaderLen))%nat as Hlt.
    { rewrite Hlen. change maxHeaderLen with 64. unfold zlen in *. lia. }
    rewrite lookup_take_lt by exact Hlt.
    simpl. rewrite lookup_app_r by lia. by rewrite Nat.sub_diag.
  - assert (p = 91 :: hdr) as ->.
    { assert (exists k, line = p ++ 93 :: k) as [k Hk].
      { unfold slice in Heq. simpl drop in Heq.
        set (n := Z.to_nat _) in Heq. exists (r ++ drop n line).
        change (p ++ 93 :: r ++ drop n line) with (p ++ (93 :: r) ++ drop n line).
        by rewrite app_assoc, <- Heq, take_drop. }
      assert (93 ∉ 91 :: hdr) as H91 by (rewrite elem_of_cons; naive_solver).
      change line with ((91 :: hdr) ++ 93 :: 32 :: msg) in Hk.
      clear -Hk Hp H91. revert p Hk Hp. generalize dependent (91 :: hdr). intros q Hq p.
      revert p. induction q as [|x q IH]; intros [|y p] Hk Hp; simpl in Hk; [done| | |].
      - injection Hk as <- _. destruct Hp. by left.
      - injection Hk as -> _. destruct Hq. by left.
      - injection Hk as <- Hk. apply not_elem_of_cons in Hq as [_ Hq], Hp as [_ Hp].
        by rewrite (IH Hq p Hk Hp). }
    rewrite zlen_cons. destruct (_ <? 0) eqn:E; go_bools; [lia|].
    assert (slice line 1 (zlen hdr + 1) = hdr) as ->.
    { apply (zlen_slice_mid [91] hdr (93 :: 32 :: msg)); change (zlen [91]) with 1; lia. }
    assert (slice line (zlen hdr + 1 + 1) (zlen line) = 32 :: msg) as ->.
    { pose proof (zlen_slice_mid ([91] ++ hdr ++ [93]) (32 :: msg) []) as Hs.
      rewrite app_nil_r, <- !app_assoc in Hs. apply Hs; rewrite !zlen_app, ?zlen_cons; change (zlen []) with 0; lia. }
    unfold TrimLeftBlank. simpl drop_while. unfold stamp_of. do 2 f_equal.
    destruct msg as [|c msg]; [done|]. simpl. specialize (Hm c eq_refl). unfold blank in Hm. by rewrite Hm.
Qed.

Lemma Split_audit user ip share op result path :
  pipe ∉ ip -> pipe ∉ share -> pipe ∉ op -> pipe ∉ result -> pipe ∉ path ->
  Split (audit_msg user ip share op result path) pipe =
    Split user pipe ++ [ip; share; op; result; path].
Proof.
  intros. unfold audit_msg. rewrite !Split_last by done. by rewrite <- !app_assoc.
Qed.

Lemma clip_spec s max :
  0 <= max -> zlen (clip s max) <= max + 3 /\ (zlen s <= max -> clip s max = s) /\
  forall c, c ∉ s -> c ≠ 46 -> c ∉ clip s max.
Proof.
  intros Hm. unfold clip. destruct (zlen s <=? max) eqn:E; go_bools; [split; [lia|done]|].
  split; [|split; [lia|]].
  - rewrite zlen_app, zlen_slice by lia. change (zlen (lit "...")) with 3. lia.
  - intros c Hc H46 Hin. apply elem_of_app in Hin as [Hin|Hin].
    + unfold slice in Hin. apply Hc. simpl drop in Hin. apply elem_of_take in Hin as (i & Hi & _).
      by eapply list_elem_of_lookup_2.
    + repeat (apply elem_of_cons in Hin as [->|Hin]; [done|]). by apply not_elem_of_nil in Hin.
Qed.

(** A plausible operation fits its field. *)
Lemma plausible_clip op : plausibleOperation op = true -> clip op MaxFieldLen = op.
Proof.
  unfold plausibleOperation. destruct (_ || _)%bool eqn:E; [done|]. intros _.
  apply orb_false_iff in E as [_ E]. go_bools. apply clip_spec; unfold MaxFieldLen; lia.
Qed.

(** What a well-framed line of six fields parses to. *)
Definition audit_event (hdr user ip share op result path : bytes) : Event :=
  mkEvent (if expectedOperations op then KindAccess else KindUnexpectedOperation)
    (clip user MaxFieldLen) (clip ip MaxFieldLen) (clip share MaxFieldLen) (clip op MaxFieldLen)
    result (clip path MaxPathLen) [] (stamp_of hdr) (headerTime hdr).

Lemma Parse_fields line msg stamp at_ user five :
  stripDebugHeader line = Some (msg, stamp, at_) -> isPanic msg = false ->
  Split msg pipe = Split user pipe ++ five -> length five = 5%nat ->
  Parse line =
    match five with
    | [sourceIP; share; operation; result; path] =>
        if bool_decide (result ≠ lit "ok") && bool_decide (result ≠ lit "fail") then
          Some (note KindUnparseable
            (lit "audit line has " ++ quote (clip result 32) ++
             lit " where the result belongs, expected " ++ quote (lit "ok") ++ lit " or " ++
             quote (lit "fail")) stamp at_)
        else if negb (plausibleOperation operation) then
          Some (note KindUnparseable
            (lit "audit line has " ++ quote (clip operation 32) ++
             lit " where the operation belongs") stamp at_)
        else
          Some (mkEvent (if expectedOperations operation then KindAccess else KindUnexpectedOperation)
            (clip user MaxFieldLen) (clip sourceIP MaxFieldLen) (clip share MaxFieldLen)
            (clip operation MaxFieldLen) result (clip path MaxPathLen) [] stamp at_)
    | _ => None
    end.
Proof.
  intros Hs Hp Hf H5. unfold Parse. rewrite Hs, Hp, Hf. cbv zeta.
  assert (Split user pipe ≠ []) as Hne by apply split_acc_ne.
  assert (6 <= zlen (Split user pipe ++ five)) as Hlen.
  { rewrite zlen_app. unfold zlen. destruct (Split user pipe); [done|]. simpl length. lia. }
  unfold claimThreshold, minAuditFields.
  destruct (zlen (Split user pipe ++ five) <? 3) eqn:E1; go_bools; [lia|].
  destruct (zlen (Split user pipe ++ five) <? 6) eqn:E2; go_bools; [lia|].
  rewrite length_app, H5, Nat.add_sub, drop_app_length, take_app_length, Join_Split. done.
Qed.

Lemma head_audit_msg user ip share op result path c :
  head (audit_msg user ip share op result path) = Some c -> head user = Some c \/ c = pipe.
Proof. destruct user; simpl; intros [= <-]; [by right|by left]. Qed.

(** The fields of an audit line read back. *)
Lemma parse_reads_back (hdr user ip share op result path : bytes) :
  93 ∉ hdr -> zlen hdr <= 62 -> (forall c, head user = Some c -> c ≠ 32 /\ c ≠ 9) ->
  isPanic (audit_msg user ip share op result path) = false ->
  Forall (fun f => pipe ∉ f) [ip; share; op; result; path] ->
  let line := audit_line hdr (audit_msg user ip share op result path) in
  if bool_decide (result = lit "ok" \/ result = lit "fail") && plausibleOperation op
  then Parse line = Some (audit_event hdr user ip share op result path)
  else exists why, Parse line = Some (note KindUnparseable why (stamp_of hdr) (headerTime hdr)).
Proof.
  intros Hh Hl Hu Hp Hf line. rewrite !Forall_cons in Hf. destruct Hf as (Hi & Hs & Ho & Hr & Hpa & _).
  assert (stripDebugHeader line = Some (audit_msg user ip share op result path, stamp_of hdr, headerTime hdr)) as Hst.
  { apply strip_audit_line; [done..|]. intros c Hc. unfold blank, pipe.
    apply head_audit_msg in Hc as [Hc| ->]; [|done]. destruct (Hu c Hc).
    rewrite (proj2 (Z.eqb_neq _ _)), (proj2 (Z.eqb_neq c 9)) by done. done. }
  rewrite (Parse_fields line _ _ _ user [ip; share; op; result; path] Hst Hp) by (by rewrite ?Split_audit).
  unfold audit_event.
  destruct (bool_decide (result = lit "ok" \/ result = lit "fail")) eqn:E; simpl andb.
  - apply bool_decide_eq_true in E.
    assert (bool_decide (result ≠ lit "ok") && bool_decide (result ≠ lit "fail") = false) as ->.
    { destruct E as [-> | ->]; [done|]. by rewrite andb_comm. }
    destruct (plausibleOperation op); [done|]. by eexists.
  - apply bool_decide_eq_false in E. rewrite !bool_decide_eq_true_2 by tauto. by eexists.
Qed.

(** What an event can support. *)
Lemma parsed_events_are_sound (line : bytes) :
  match Parse line with
  | None => stripDebugHeader line = None \/
      exists msg stamp at_, stripDebugHeader line = Some (msg, stamp, at_) /\ isPanic msg = false /\
        zlen (Split msg pipe) < claimThreshold
  | Some ev =>
      (exists msg, stripDebugHeader line = Some (msg, Timestamp ev, At ev) /\
         (evKind ev = KindPanic <-> isPanic msg = true)) /\
      match evKind ev with
      | KindAccess | KindUnexpectedOperation =>
          plain_event ev /\ (Result ev = lit "ok" \/ Result ev = lit "fail") /\
          Forall (fun f => zlen f <= MaxFieldLen + 3) [User ev; SourceIP ev; Share ev; Operation ev] /\
          zlen (Path ev) <= MaxPathLen + 3 /\ plausibleOperation (Operation ev) = true /\
          (evKind ev = KindAccess <-> Operation ev = lit "close") /\ Message ev = []
      | KindUnparseable | KindPanic =>
          User ev = [] /\ SourceIP ev = [] /\ Path ev = [] /\
          (evKind ev = KindPanic -> zlen (Message ev) <= MaxMessageLen + 3)
      | KindNone => False
      end
  end.
Proof.
  destruct (stripDebugHeader line) as [[[msg stamp] at_]|] eqn:Hs.
  2: { unfold Parse. rewrite Hs. by left. }
  destruct (isPanic msg) eqn:Hp.
  { unfold Parse. rewrite Hs, Hp. simpl. split; [exists msg; rewrite Hp; by split_and!|]. split_and!; try done. intros _.
    by apply clip_spec. }
  destruct (zlen (Split msg pipe) <? minAuditFields) eqn:E6.
  { unfold Parse. rewrite Hs, Hp. cbv zeta. destruct (zlen (Split msg pipe) <? claimThreshold) eqn:E3.
    - right. exists msg, stamp, at_. go_bools. done.
    - rewrite E6. simpl. split; [exists msg; rewrite Hp; by split_and!|]. done. }
  go_bools. unfold minAuditFields, zlen in E6.
  set (n := (length (Split msg pipe) - 5)%nat).
  rewrite (Parse_fields line msg stamp at_ (Join (take n (Split msg pipe)) pipe) (drop n (Split msg pipe)) Hs Hp).
  2: { pose proof (Split_fields msg pipe) as Hf. rewrite Split_Join.
       - by rewrite take_drop.
       - by apply Forall_take.
       - intros Hnil. apply (f_equal length) in Hnil. rewrite length_take in Hnil. simpl in Hnil. lia. }
  2: { rewrite length_drop. lia. }
  pose proof (Split_fields msg pipe) as Hf. apply (Forall_drop _ n) in Hf.
  destruct (drop n (Split msg pipe)) as [|ip [|share [|op [|result [|path [|]]]]]] eqn:Hd;
    try (exfalso; apply (f_equal length) in Hd; rewrite length_drop in Hd; simpl in Hd; lia).
  rewrite !Forall_cons in Hf. destruct Hf as (Hi & Hsh & Ho & Hr & Hpa & _).
  destruct (bool_decide (result ≠ lit "ok") && bool_decide (result ≠ lit "fail")) eqn:E.
  { simpl. split; [exists msg; rewrite Hp; by split_and!|done]. }
  destruct (plausibleOperation op) eqn:Hop; simpl negb; cbv iota.
  2: { simpl. split; [exists msg; rewrite Hp; by split_and!|done]. }
  assert (clip op MaxFieldLen = op) as Hclip by (by apply plausible_clip).
  rewrite Hclip.
  assert (result = lit "ok" \/ result = lit "fail") as Hres.
  { apply andb_false_iff in E as [E|E]; apply bool_decide_eq_false in E; apply dec_stable in E; tauto. }
  assert (plain_event (mkEvent KindAccess [] (clip ip MaxFieldLen) (clip share MaxFieldLen) [] [] [] [] [] 0)) as Hplain.
  { split; simpl; apply clip_spec; done. }
  assert (forall s, zlen (clip s MaxFieldLen) <= MaxFieldLen + 3) as Hb by (intros s; by apply clip_spec).
  assert (Forall (fun f => zlen f <= MaxFieldLen + 3)
    [clip (Join (take n (Split msg pipe)) pipe) MaxFieldLen; clip ip MaxFieldLen; clip share MaxFieldLen; op]) as Hall.
  { rewrite !Forall_cons, Forall_nil. rewrite <- Hclip at 1. auto. }
  assert (zlen (clip path MaxPathLen) <= MaxPathLen + 3) as Hpb by (by apply clip_spec).
  assert (expectedOperations op = true <-> op = lit "close") as Hc by apply bool_decide_eq_true.
  destruct (expectedOperations op); simpl; (split; [exists msg; rewrite Hp; split; [done|split; intros; discriminate]|]);
    (split; [exact Hplain|]); split_and!; try done; split; intros; (done || by (apply Hc) || by (apply Hc in H1)).
Qed.
End parse_spec.

(** A calendar that reads two digits of seconds. *)
Definition ex_calendar : Calendar := {|
  parse_samba_time := fun s => match s with [a; b] => Some (1000000000 * (10 * (a - 48) + (b - 48))) | _ => None end;
  format_opencanary_time := fun t => Itoa (t / 1000000000);
|}.

