(* ===== verification/Snmp.v ===== *)
(** The SNMP service's parser ([internal/agent/snmp/parse.go]): one SNMP v1 or
    v2c datagram to the community string and the OIDs it asks for.

    Errors are the messages of the code. Every index is guarded by a length
    the code checks first; [slice] is applied within those bounds only. *)
From S2P Require Import Prelude GoBase GoStrings.
#[local] Open Scope Z_scope.
#[local] Open Scope go_scope.

Definition tagInteger : Z := 0x02.
Definition tagOctetString : Z := 0x04.
Definition tagOID : Z := 0x06.
Definition tagSequence : Z := 0x30.
Definition pduTagMin : Z := 0xA0.
Definition pduTagMax : Z := 0xA8.

Definition maxCommunityLen : Z := 255.
Definition maxOIDs : Z := 32.
Definition maxOIDValueLen : Z := 128.
Definition maxOIDComponents : Z := 128.
Definition maxSubIDBytes : Z := 5.

(** [acc<<8 | int(x)] on a 64-bit [int]. *)
Definition shift_in (acc x : Z) : Z := Z.lor (i64 (Z.shiftl acc 8)) x.

Definition readTLV (b : bytes) : res bytes (Z * bytes * bytes) :=
  match b with
  | tag :: lenByte :: _ =>
      let? (headerLen, len) :=
        if Z.land lenByte 0x80 =? 0 then Ok (2, lenByte)
        else
          let numLenBytes := Z.land lenByte 0x7f in
          if numLenBytes =? 0 then Err (lit "snmp: indefinite-length BER is not supported")
          else if 4 <? numLenBytes then Err (lit "snmp: length-of-length too large")
          else if zlen b <? 2 + numLenBytes then Err (lit "snmp: truncated length")
          else Ok (2 + numLenBytes, foldl shift_in 0 (slice b 2 (2 + numLenBytes)))
      in
      if (len <? 0) || (zlen b <? headerLen + len)
      then Err (lit "snmp: declared length exceeds the datagram")
      else Ok (tag, slice b headerLen (headerLen + len), slice b (headerLen + len) (zlen b))
  | _ => Err (lit "snmp: truncated TLV header")
  end.

Definition decodeInt (v : bytes) : res bytes Z :=
  match v with
  | [] => Err (lit "snmp: empty INTEGER")
  | v0 :: _ =>
      if 8 <? zlen v then Err (lit "snmp: INTEGER too large")
      else Ok (foldl shift_in (if Z.land v0 0x80 =? 0 then 0 else -1) v)
  end.

(** The loop over the bytes after the first: the components so far, the
    current sub-identifier and how many bytes it has taken. *)
Fixpoint decodeOID_loop (v : bytes) (comps : list Z) (cur bytesInCur : Z) : res bytes (list Z * Z) :=
  match v with
  | [] => Ok (comps, bytesInCur)
  | b :: v =>
      let bytesInCur := bytesInCur + 1 in
      if maxSubIDBytes <? bytesInCur then Err (lit "snmp: OID sub-identifier too long") else
      let cur := Z.lor (u64 (Z.shiftl cur 7)) (Z.land b 0x7f) in
      if Z.land b 0x80 =? 0 then
        if maxOIDComponents <=? zlen comps
        then Err (lit "snmp: OID has too many sub-identifiers")
        else decodeOID_loop v (comps ++ [cur]) 0 0
      else decodeOID_loop v comps cur bytesInCur
  end.

(** [strconv.FormatUint(c, 10)]: at most 20 digits. *)
Definition FormatUint (n : Z) : bytes := dec_digits_fuel 20 n [].

Definition dotted (comps : list Z) : bytes := Join (FormatUint <$> comps) 46.

Definition decodeOID (v : bytes) : res bytes bytes :=
  match v with
  | [] => Err (lit "snmp: empty OID")
  | first :: rest =>
      if maxOIDValueLen <? zlen v then Err (lit "snmp: OID too long") else
      let comps := if 80 <=? first then [2; first - 80] else [first / 40; first mod 40] in
      let? (comps, bytesInCur) := decodeOID_loop rest comps 0 0 in
      if negb (bytesInCur =? 0) then Err (lit "snmp: OID ends mid sub-identifier")
      else Ok (dotted comps)
  end.

(** The body of the loop over the varbinds. *)
Definition varbind_oid (tag : Z) (vbValue : bytes) : option bytes :=
  if negb (tag =? tagSequence) then None else
  match readTLV vbValue with
  | Err _ => None
  | Ok (oidTag, oidValue, _) =>
      if negb (oidTag =? tagOID) then None else
      match decodeOID oidValue with
      | Err _ => None
      | Ok oid => Some oid
      end
  end.

(** Every round consumes at least the two bytes of a header, so the length of
    the list is enough fuel. *)
Fixpoint extractOIDs_loop (fuel : nat) (data : bytes) (oids : list bytes) : list bytes :=
  match fuel with
  | O => oids
  | S fuel =>
      if (0 <? zlen data) && (zlen oids <? maxOIDs) then
        match readTLV data with
        | Err _ => oids
        | Ok (tag, vbValue, rest) =>
            extractOIDs_loop fuel rest
              (match varbind_oid tag vbValue with Some oid => oids ++ [oid] | None => oids end)
        end
      else oids
  end.

Definition extractOIDs (varbindList : bytes) : list bytes :=
  extractOIDs_loop (length varbindList) varbindList [].

(** [readTLV] where any error and any other tag give the same message. *)
Definition expect (P : Z -> bool) (msg : bytes) (b : bytes) : res bytes (bytes * bytes) :=
  match readTLV b with
  | Err _ => Err msg
  | Ok (tag, v, rest) => if negb (P tag) then Err msg else Ok (v, rest)
  end.

(** The loop over request-id, error-status and error-index. *)
Fixpoint skip_ints (n : nat) (cur : bytes) : res bytes bytes :=
  match n with
  | O => Ok cur
  | S n =>
      let? (_, r) := expect (Z.eqb tagInteger) (lit "snmp: malformed PDU header") cur in
      skip_ints n r
  end.

Definition parseMessage (data : bytes) : res bytes (bytes * list bytes) :=
  let? (tag, msgValue, _) := readTLV data in
  if negb (tag =? tagSequence) then Err (lit "snmp: not a SEQUENCE") else
  let? (verValue, rest) := expect (Z.eqb tagInteger) (lit "snmp: missing version") msgValue in
  let? version := decodeInt verValue in
  if negb (version =? 0) && negb (version =? 1)
  then Err (lit "snmp: unsupported version " ++ Itoa version) else
  let? (commValue, rest) := expect (Z.eqb tagOctetString) (lit "snmp: missing community string") rest in
  if maxCommunityLen <? zlen commValue then Err (lit "snmp: community string too long") else
  let? (pduValue, _) :=
    expect (fun t => (pduTagMin <=? t) && (t <=? pduTagMax)) (lit "snmp: missing or unrecognized PDU") rest in
  let? cur := skip_ints 3 pduValue in
  let? (vbValue, _) := expect (Z.eqb tagSequence) (lit "snmp: missing varbind list") cur in
  Ok (commValue, extractOIDs vbValue).

(** ** BER, as a grammar *)

(** The length octets of a value of [n] bytes: the short form, or one to four
    octets after their count. Leading zeros are allowed. *)
Definition length_octets (enc : bytes) (n : Z) : Prop :=
  (enc = [n] /\ n < 128) \/
  exists os, enc = 128 + zlen os :: os /\ 1 <= zlen os <= 4 /\ n = be_val os.

Definition is_tlv (t : Z) (v e : bytes) : Prop :=
  exists enc, e = t :: enc ++ v /\ length_octets enc (zlen v).

(** ** Bits *)

Lemma lor_shiftl_add n a b : 0 <= n -> 0 <= b < 2 ^ n -> Z.lor (Z.shiftl a n) b = a * 2 ^ n + b.
Proof.
  intros Hn Hb. rewrite <- Z.shiftl_mul_pow2 by done. symmetry. apply Z.add_nocarry_lor.
  apply Z.bits_inj'. intros i Hi. rewrite Z.land_spec, Z.bits_0.
  destruct (Z.lt_ge_cases i n).
  - by rewrite Z.shiftl_spec_low.
  - rewrite <- (Z.mod_small b (2 ^ n)) by done. by rewrite Z.mod_pow2_bits_high, andb_false_r by lia.
Qed.

Lemma shift_in_small acc x :
  is_byte x -> in_i 64 (acc * 256) -> shift_in acc x = acc * 256 + x.
Proof.
  intros Hx Ha. unfold shift_in. rewrite wrap_i_small.
  - by apply lor_shiftl_add.
  - lia.
  - by rewrite Z.shiftl_mul_pow2 by lia.
Qed.

Lemma land_high x : is_byte x -> (Z.land x 0x80 =? 0) = (x <? 128).
Proof.
  intros Hx.
  assert (Forall (fun x => Z.land x 128 = if x <? 128 then 0 else 128) (Z.of_nat <$> seq 0 256)) as Hall
    by (apply (bool_decide_unpack _); vm_compute; exact I).
  rewrite Forall_forall in Hall. rewrite Hall.
  2: { apply list_elem_of_fmap. unfold is_byte in Hx. exists (Z.to_nat x). rewrite elem_of_seq. lia. }
  by destruct (x <? 128).
Qed.

Lemma land_low7 x : Z.land x 0x7f = x mod 128.
Proof. change 0x7f with (Z.ones 7). by rewrite Z.land_ones by lia. Qed.

(** ** TLVs *)

Lemma shift_in_be os : forall acc,
  wf_bytes os -> - 2 ^ 63 <= acc * 256 ^ zlen os -> (acc + 1) * 256 ^ zlen os <= 2 ^ 63 ->
  foldl shift_in acc os = acc * 256 ^ zlen os + be_val os.
Proof.
  induction os as [|x os IH]; intros acc Hw Ha Hb.
  { cbn [foldl]. change (zlen []) with 0. change (be_val []) with 0. lia. }
  apply Forall_cons in Hw as [Hx Hw]. cbn [foldl].
  rewrite zlen_cons, Z.pow_add_r in Ha, Hb by (pose proof (zlen_nonneg os); lia).
  change (256 ^ 1) with 256 in Ha, Hb.
  assert (0 < 256 ^ zlen os) as Hp by (apply Z.pow_pos_nonneg; [lia|apply zlen_nonneg]).
  assert (in_i 64 (acc * 256)) as Hi by (unfold in_i; change (64 - 1) with 63; split; nia).
  rewrite shift_in_small by done. unfold is_byte in Hx. rewrite IH; [|done|nia..].
  rewrite be_val_cons, zlen_cons, Z.pow_add_r by (pose proof (zlen_nonneg os); lia).
  change (256 ^ 1) with 256. nia.
Qed.

Lemma slice_app3 (p m s : bytes) i j : i = zlen p -> j = i + zlen m -> slice (p ++ m ++ s) i j = m.
Proof. intros -> ->. apply slice_app_mid. Qed.

Lemma slice_to_end (p s : bytes) i : i = zlen p -> slice (p ++ s) i (zlen (p ++ s)) = s.
Proof.
  intros ->. rewrite <- (app_nil_r s) at 1. apply slice_app3; [done|]. rewrite zlen_app. lia.
Qed.

(** What is read is how the bytes begin. *)
Lemma readTLV_sound b t v r :
  wf_bytes b -> readTLV b = Ok (t, v, r) -> exists e, b = e ++ r /\ is_tlv t v e.
Proof.
  intros Hw.
  destruct b as [|t' [|l b]]; [done|done|]. cbn [readTLV].
  apply Forall_cons in Hw as [Ht Hw]. pose proof Hw as [Hl Hb]%Forall_cons. rewrite land_high, land_low7 by done.
  intros H. apply rbind_ok in H as [[hl len] [Hlen H]].
  destruct (_ || _)%bool eqn:E; [done|]. apply orb_false_iff in E as [E0 E1]. go_bools.
  assert (exists enc rest, l :: b = enc ++ rest /\ hl = 1 + zlen enc /\
    forall w : bytes, zlen w = len -> length_octets enc (zlen w)) as (enc & rest & Heq & Hhl & Henc).
  { destruct (l <? 128) eqn:E2.
    - injection Hlen as <- <-. go_bools. exists [l], b. split; [done|]. split; [done|].
      intros w ->. left. by split.
    - destruct (l mod 128 =? 0) eqn:E5; [done|]. destruct (4 <? l mod 128) eqn:E3; [done|].
      destruct (zlen (t' :: l :: b) <? 2 + l mod 128) eqn:E4; [done|]. injection Hlen as <- <-. go_bools.
      assert (l = 128 + l mod 128) as Hl128.
      { unfold is_byte in Hl. pose proof (Z.div_mod l 128).
        assert (l / 128 = 1) by (symmetry; apply (Z.div_unique_pos l 128 1 (l - 128)); lia). lia. }
      rewrite !zlen_cons in E4. set (k := l mod 128) in *.
      assert (slice (t' :: l :: b) 2 (2 + k) = slice b 0 k) as Hsl.
      { unfold slice. rewrite (Z.add_comm 2 k), Z.add_simpl_r, Z.sub_0_r. done. }
      rewrite Hsl in *. assert (zlen (slice b 0 k) = k) as Hk by (rewrite zlen_slice; lia).
      exists (l :: slice b 0 k), (slice b k (zlen b)). split; [|split].
      + simpl. f_equal. rewrite <- slice_split by lia. by rewrite slice_full.
      + rewrite zlen_cons. lia.
      + intros w ->. right. exists (slice b 0 k). split; [by rewrite Hk, <- Hl128|]. split; [lia|].
        rewrite shift_in_be; [lia|by apply slice_wf|lia|]. rewrite Hk.
        transitivity (256 ^ 4); [|lia]. assert (256 ^ k <= 256 ^ 4) by (apply Z.pow_le_mono_r; lia). lia. }
  assert (zlen (t' :: l :: b) = hl + zlen rest) as Hz by (rewrite zlen_cons, Heq, zlen_app; lia).
  rewrite Hz in E1. set (w := slice rest 0 len). set (r' := slice rest len (zlen rest)).
  assert (rest = w ++ r') as Hwr.
  { unfold w, r'. rewrite <- slice_split by lia. by rewrite slice_full. }
  assert (zlen w = len) as Hwl by (unfold w; rewrite zlen_slice; lia).
  assert (t' :: l :: b = (t' :: enc) ++ w ++ r') as Hall by (by rewrite Heq, Hwr).
  rewrite Hall in H. rewrite slice_app3 in H by (rewrite ?zlen_cons; lia).
  rewrite app_assoc, slice_to_end in H by (rewrite zlen_app, ?zlen_cons; lia).
  injection H as <- <- <-. exists (((t' :: enc) ++ w)). split; [by rewrite Hall, app_assoc|].
  exists enc. split; [done|]. by apply Henc.
Qed.

(** An encoded value at the front is read. *)
Lemma readTLV_complete b t v r :
  wf_bytes b -> (exists e, b = e ++ r /\ is_tlv t v e) -> readTLV b = Ok (t, v, r).
Proof.
  intros Hw.
  intros (e & -> & enc & -> & Henc).
  set (hl := 1 + zlen enc). set (b := (t :: enc ++ v) ++ r).
  assert (b = (t :: enc) ++ v ++ r) as Hb by (unfold b; simpl; by rewrite <- app_assoc).
  assert (zlen b = hl + zlen v + zlen r) as Hz by (rewrite Hb, zlen_app, zlen_cons, zlen_app; lia).
  assert (slice b hl (hl + zlen v) = v) as Hv by (rewrite Hb; apply slice_app3; rewrite ?zlen_cons; lia).
  assert (slice b (hl + zlen v) (zlen b) = r) as Hr.
  { rewrite Hb, app_assoc. apply slice_to_end. rewrite zlen_app, zlen_cons. lia. }
  pose proof (zlen_nonneg v). pose proof (zlen_nonneg r).
  destruct Henc as [[-> Hn]|(os & -> & Hos & Hn)].
  + unfold b. cbn [app readTLV]. apply Forall_app in Hw as [Hw _].
    cbn [app] in Hw. rewrite !Forall_cons in Hw. destruct Hw as (_ & Hl & _).
    rewrite land_high by done. destruct (zlen v <? 128) eqn:E; go_bools; [|lia].
    cbn [rbind]. fold b. change (t :: zlen v :: v ++ r) with b.
    change hl with 2 in Hv, Hr, Hz. rewrite Hv, Hr.
    destruct (_ || _)%bool eqn:E'; [|done]. apply orb_true_iff in E' as [?|?]; lia.
  + assert (b = t :: 128 + zlen os :: os ++ v ++ r) as Hb2 by (rewrite Hb; done).
    fold b in Hw. rewrite Hb2 in Hw. rewrite !Forall_cons, Forall_app in Hw. destruct Hw as (_ & Hl & Hwo & _).
    rewrite Hb2. cbn [readTLV]. rewrite <- Hb2. rewrite land_high, land_low7 by done.
    destruct (128 + zlen os <? 128) eqn:E; go_bools; [lia|].
    assert ((128 + zlen os) mod 128 = zlen os) as ->.
    { rewrite <- (Z.mul_1_l 128) at 1. rewrite Z.add_comm, Z.mod_add by lia. apply Z.mod_small. lia. }
    destruct (zlen os =? 0) eqn:E0; go_bools; [lia|]. destruct (4 <? zlen os) eqn:E4; go_bools; [lia|].
    unfold hl in *. rewrite zlen_cons in *.
    destruct (zlen b <? 2 + zlen os) eqn:E5; go_bools; [lia|]. cbn [rbind].
    assert (slice b 2 (2 + zlen os) = os) as ->.
    { rewrite Hb2. apply (slice_app3 [t; 128 + zlen os] os (v ++ r)); done. }
    rewrite shift_in_be; [|done|lia|].
    2: { transitivity (256 ^ 4); [|lia]. assert (256 ^ zlen os <= 256 ^ 4) by (apply Z.pow_le_mono_r; lia). lia. }
    rewrite Z.mul_0_l, Z.add_0_l, <- Hn. replace (1 + (zlen os + 1)) with (2 + zlen os) in * by lia.
    rewrite Hv, Hr. destruct (_ || _)%bool eqn:E'; [|done]. apply orb_true_iff in E' as [?|?]; lia.
Qed.

Lemma readTLV_iff b t v r :
  wf_bytes b -> readTLV b = Ok (t, v, r) <-> exists e, b = e ++ r /\ is_tlv t v e.
Proof. split; [by apply readTLV_sound|by apply readTLV_complete]. Qed.

(** ** Integers *)

(** The value of an INTEGER: two's complement, big-endian. *)
Definition twos (v : bytes) : Z :=
  be_val v - (if default 0 (head v) <? 128 then 0 else 256 ^ zlen v).

Lemma decodeInt_spec v :
  wf_bytes v -> 1 <= zlen v <= 8 -> decodeInt v = Ok (twos v).
Proof.
  intros Hw Hl. destruct v as [|x v]; [unfold zlen in Hl; simpl in Hl; lia|]. unfold decodeInt.
  destruct (8 <? zlen (x :: v)) eqn:E; go_bools; [lia|]. f_equal.
  apply Forall_cons in Hw as [Hx Hw]. rewrite land_high by done. cbn [foldl]. rewrite zlen_cons in Hl.
  assert (0 < 256 ^ zlen v <= 256 ^ 7) as Hp.
  { split; [apply Z.pow_pos_nonneg; [lia|apply zlen_nonneg]|apply Z.pow_le_mono_r; lia]. }
  unfold twos. cbn [head default]. unfold id. rewrite be_val_cons, zlen_cons, Z.pow_add_r by (pose proof (zlen_nonneg v); lia).
  change (256 ^ 1) with 256. change (256 ^ 7) with (2 ^ 56) in Hp. unfold is_byte in Hx.
  destruct (x <? 128) eqn:E2; go_bools; rewrite shift_in_small by (done || (unfold in_i; change (64 - 1) with 63; lia));
    (rewrite shift_in_be; [lia|done|nia..]).
Qed.

Lemma decodeInt_bad v : zlen v < 1 \/ 8 < zlen v -> is_ok (decodeInt v) = false.
Proof.
  intros Hl. destruct v as [|x v]; [done|]. unfold decodeInt. pose proof (zlen_nonneg v).
  destruct (8 <? zlen (x :: v)) eqn:E; go_bools; [done|]. rewrite zlen_cons in *. lia.
Qed.

(** ** Object identifiers *)

Definition val7 (ds : list Z) : Z := foldl (fun a x => a * 128 + x) 0 ds.

Definition is_digit7 (x : Z) : Prop := 0 <= x < 128.

(** Digits with the continuation bit. *)
Definition cont (ds : list Z) : bytes := (fun x => x + 128) <$> ds.

(** The octets of one sub-identifier, of at most five digits. *)
Definition subid_octets (os : bytes) (n : Z) : Prop :=
  exists ds d, os = cont ds ++ [d] /\ Forall is_digit7 (ds ++ [d]) /\ zlen os <= maxSubIDBytes /\
    n = val7 (ds ++ [d]).

(** The octets of an object identifier: the first two arcs in one, then a
    group for each further arc. *)
Definition oid_octets (v : bytes) (comps : list Z) : Prop :=
  exists x y subs rest, v = (40 * x + y) :: concat subs /\ comps = x :: y :: rest /\
    0 <= x <= 2 /\ 0 <= y /\ (x < 2 -> y < 40) /\ Forall2 subid_octets subs rest.

(** The same as BER writes it: the first two arcs together are a group like
    the others, of more than one octet from the arcs 2.48 on. *)
Definition ber_oid (v : bytes) (comps : list Z) : Prop :=
  exists x y os subs rest, v = os ++ concat subs /\ comps = x :: y :: rest /\
    0 <= x <= 2 /\ 0 <= y /\ (x < 2 -> y < 40) /\ subid_octets os (40 * x + y) /\ Forall2 subid_octets subs rest.

Lemma val7_snoc ds d : val7 (ds ++ [d]) = val7 ds * 128 + d.
Proof. unfold val7. by rewrite foldl_app. Qed.

Lemma val7_range ds : Forall is_digit7 ds -> 0 <= val7 ds < 128 ^ zlen ds.
Proof.
  induction ds as [|d ds IH] using rev_ind; intros H; [done|].
  apply Forall_app in H as [H [Hd _]%Forall_cons]. specialize (IH H). unfold is_digit7 in Hd.
  rewrite val7_snoc, zlen_app, Z.pow_add_r by apply zlen_nonneg. change (128 ^ zlen [d]) with 128. lia.
Qed.

Lemma zlen_cont ds : zlen (cont ds) = zlen ds.
Proof. unfold cont, zlen. by rewrite length_fmap. Qed.

Lemma subid_step ds b :
  Forall is_digit7 ds -> is_byte b -> zlen ds <= 4 ->
  Z.lor (u64 (Z.shiftl (val7 ds) 7)) (Z.land b 0x7f) = val7 (ds ++ [b mod 128]).
Proof.
  intros Hds Hb Hl. pose proof (val7_range ds Hds) as Hr.
  assert (128 ^ zlen ds <= 128 ^ 4) as Hp by (apply Z.pow_le_mono_r; lia). change (128 ^ 4) with (2 ^ 28) in Hp.
  rewrite land_low7, val7_snoc, wrap_u_small.
  - apply lor_shiftl_add; [lia|]. apply Z.mod_pos_bound. lia.
  - unfold in_u. rewrite Z.shiftl_mul_pow2 by lia. lia.
Qed.

Lemma byte_high b : is_byte b -> ~ b < 128 -> b = b mod 128 + 128 /\ is_digit7 (b mod 128).
Proof.
  intros Hb Hh. unfold is_byte, is_digit7 in *. split; [|apply Z.mod_pos_bound; lia].
  rewrite (Z.mod_eq b 128) by lia. replace (b / 128) with 1; [lia|].
  apply (Z.div_unique_pos b 128 1 (b - 128)); lia.
Qed.

Lemma decodeOID_loop_sound v : forall comps ds comps',
  wf_bytes v -> Forall is_digit7 ds -> zlen comps <= maxOIDComponents ->
  decodeOID_loop v comps (val7 ds) (zlen ds) = Ok (comps', 0) ->
  exists subs rest, cont ds ++ v = concat subs /\ Forall2 subid_octets subs rest /\
    comps' = comps ++ rest /\ zlen comps' <= maxOIDComponents.
Proof.
  induction v as [|b v IH]; intros comps ds comps' Hw Hds Hc; cbn [decodeOID_loop].
  - intros [= <- Hz]. destruct ds; [|rewrite zlen_cons in Hz; pose proof (zlen_nonneg ds); lia].
    exists [], []. rewrite app_nil_r. split; [done|]. split; [by apply Forall2_nil|]. by rewrite app_nil_r.
  - apply Forall_cons in Hw as [Hb Hw]. destruct (maxSubIDBytes <? zlen ds + 1) eqn:E; [done|]. go_bools.
    unfold maxSubIDBytes in E. rewrite subid_step by (done || lia). rewrite land_high by done.
    destruct (b <? 128) eqn:E2; go_bools.
    + destruct (maxOIDComponents <=? zlen comps) eqn:E3; [done|]. go_bools. intros H.
      unfold is_byte in Hb. rewrite Z.mod_small in H by lia.
      destruct (IH (comps ++ [val7 (ds ++ [b])]) [] comps' Hw (Forall_nil_2 _))
        as (subs & rest & Heq & Hf & -> & Hl); [|exact H|].
      { rewrite zlen_app. change (zlen [_]) with 1. lia. }
      exists ((cont ds ++ [b]) :: subs), (val7 (ds ++ [b]) :: rest). simpl in Heq. simpl concat.
      split; [by rewrite <- Heq, <- app_assoc|]. rewrite <- app_assoc in Hl |- *.
      split; [|by split]. constructor; [|done]. exists ds, b. split; [done|]. split.
      * apply Forall_app. split; [done|]. constructor; [|done]. unfold is_digit7. lia.
      * split; [|done]. rewrite zlen_app, zlen_cont. change (zlen [b]) with 1. unfold maxSubIDBytes. lia.
    + destruct (byte_high b Hb ltac:(lia)) as [Heqb Hd]. intros H.
      replace (zlen ds + 1) with (zlen (ds ++ [b mod 128])) in H by (rewrite zlen_app; reflexivity).
      assert (Forall is_digit7 (ds ++ [b mod 128])) as Hds' by (apply Forall_app; split; [done|by constructor]).
      destruct (IH comps (ds ++ [b mod 128]) comps' Hw Hds' Hc H) as (subs & rest & Heq & Hf & -> & Hl).
      exists subs, rest. split; [|by repeat split]. rewrite <- Heq. unfold cont.
      rewrite fmap_app, <- app_assoc. simpl. by rewrite <- Heqb.
Qed.

Lemma decodeOID_group ds : forall pre d w comps,
  Forall is_digit7 (pre ++ ds ++ [d]) -> zlen (pre ++ ds ++ [d]) <= maxSubIDBytes ->
  zlen comps < maxOIDComponents ->
  decodeOID_loop (cont ds ++ d :: w) comps (val7 pre) (zlen pre) =
  decodeOID_loop w (comps ++ [val7 (pre ++ ds ++ [d])]) 0 0.
Proof.
  induction ds as [|x ds IH]; intros pre d w comps Hd Hl Hc; cbn [cont fmap list_fmap app decodeOID_loop].
  - pose proof (zlen_app pre [d]) as Hz. change (zlen [d]) with 1 in Hz. simpl app in *.
    destruct (maxSubIDBytes <? zlen pre + 1) eqn:E; go_bools; [lia|].
    apply Forall_app in Hd as [Hpre [Hd _]%Forall_cons]. unfold is_digit7 in Hd. unfold maxSubIDBytes in E.
    assert (is_byte d) as Hb by (unfold is_byte; lia).
    rewrite subid_step, land_high, Z.mod_small by (done || lia).
    destruct (d <? 128) eqn:E2; go_bools; [|lia].
    destruct (maxOIDComponents <=? zlen comps) eqn:E3; go_bools; [lia|done].
  - pose proof Hl as Hz. rewrite !zlen_app, zlen_cons in Hz. change (zlen [d]) with 1 in Hz.
    pose proof (zlen_nonneg ds).
    destruct (maxSubIDBytes <? zlen pre + 1) eqn:E; go_bools; [lia|]. unfold maxSubIDBytes in E, Hz.
    pose proof Hd as [Hpre [Hx _]%Forall_cons]%Forall_app. unfold is_digit7 in Hx.
    assert (is_byte (x + 128)) as Hb by (unfold is_byte; lia).
    rewrite subid_step, land_high by (done || lia).
    destruct (x + 128 <? 128) eqn:E2; go_bools; [lia|].
    assert ((x + 128) mod 128 = x) as ->.
    { rewrite <- (Z.mul_1_l 128) at 1. rewrite Z.mod_add by lia. apply Z.mod_small. lia. }
    replace (zlen pre + 1) with (zlen (pre ++ [x])) by (rewrite zlen_app; reflexivity).
    assert (pre ++ x :: ds ++ [d] = (pre ++ [x]) ++ ds ++ [d]) as Hre by (by rewrite <- app_assoc).
    simpl app in Hd, Hl. rewrite Hre in Hd, Hl |- *. by apply IH.
Qed.

Lemma decodeOID_loop_complete subs rest : forall comps,
  Forall2 subid_octets subs rest -> zlen (comps ++ rest) <= maxOIDComponents ->
  decodeOID_loop (concat subs) comps 0 0 = Ok (comps ++ rest, 0).
Proof.
  intros comps Hf. revert comps. induction Hf as [|os n subs rest (ds & d & -> & Hd & Hl & ->) Hf IH]; intros comps Hc.
  { simpl. by rewrite app_nil_r. }
  rewrite zlen_app, zlen_cons in Hc. pose proof (zlen_nonneg rest). simpl concat. rewrite <- app_assoc. simpl app.
  etransitivity; [apply (decodeOID_group ds [] d (concat subs) comps); [done| |lia]|].
  - simpl app. rewrite zlen_app in *. by rewrite zlen_cont in Hl.
  - simpl app. rewrite IH; [by rewrite <- app_assoc|]. rewrite <- app_assoc, zlen_app. simpl app.
    rewrite zlen_cons. lia.
Qed.

(** The first octet determines the first two arcs. *)
Definition first_arcs (first : Z) : list Z :=
  if 80 <=? first then [2; first - 80] else [first / 40; first mod 40].

Lemma first_arcs_spec first x y :
  0 <= first -> (first_arcs first = [x; y] <-> first = 40 * x + y /\ 0 <= x <= 2 /\ 0 <= y /\ (x < 2 -> y < 40)).
Proof.
  intros Hf. unfold first_arcs. destruct (80 <=? first) eqn:E; go_bools; split.
  - intros [= <- <-]. lia.
  - intros (-> & Hx & Hy & Hxy). assert (x = 2) as -> by lia. do 2 f_equal. lia.
  - intros [= <- <-]. pose proof (Z.div_mod first 40). pose proof (Z.mod_pos_bound first 40).
    assert (first / 40 < 2) by (apply Z.div_lt_upper_bound; lia).
    assert (0 <= first / 40) by (apply Z.div_pos; lia). lia.
  - intros (-> & Hx & Hy & Hxy). replace (40 * x + y) with (y + x * 40) by lia.
    rewrite Z.div_add, Z.mod_add by lia. by rewrite Z.div_small, Z.mod_small by lia.
Qed.

Lemma decodeOID_iff v s :
  wf_bytes v ->
  decodeOID v = Ok s <->
  exists comps, oid_octets v comps /\ zlen v <= maxOIDValueLen /\ zlen comps <= maxOIDComponents /\ s = dotted comps.
Proof.
  intros Hw. destruct v as [|first v]; cbn [decodeOID].
  { split; [done|]. by intros (comps & (x & y & subs & rest & [=] & _) & _). }
  apply Forall_cons in Hw as [Hf Hw]. unfold is_byte in Hf. fold (first_arcs first).
  destruct (maxOIDValueLen <? zlen (first :: v)) eqn:E; go_bools.
  { split; [done|]. intros (comps & _ & Hl & _). lia. }
  assert (exists x y, first_arcs first = [x; y]) as (x & y & Hxy)
    by (unfold first_arcs; destruct (80 <=? first); eauto).
  pose proof (proj1 (first_arcs_spec first x y ltac:(lia)) Hxy) as Hxy'. rewrite Hxy. split.
  - intros H. apply rbind_ok in H as [[comps n] [Hl H]]. destruct (n =? 0) eqn:En; [|done].
    simpl in H. injection H as <-. go_bools. subst n.
    destruct (decodeOID_loop_sound v [x; y] [] comps Hw (Forall_nil_2 _)) as (subs & rest & Heq & Hf2 & -> & Hc);
      [done|exact Hl|].
    exists ([x; y] ++ rest). split; [|done]. simpl in Heq. exists x, y, subs, rest.
    destruct Hxy' as (-> & ? & ? & ?). by rewrite Heq.
  - intros (comps & (x' & y' & subs & rest & Heq & -> & Hx & Hy & Hlt & Hf2) & Hl & Hc & ->).
    injection Heq as Hfst ->.
    assert ([x; y] = [x'; y']) as [= -> ->] by (rewrite <- Hxy; apply first_arcs_spec; [lia|done]).
    by rewrite (decodeOID_loop_complete subs rest [x'; y'] Hf2 Hc).
Qed.

(** ** Rendering *)

Lemma FormatUint_spec n :
  0 <= n < 10 ^ 20 -> dec_val (FormatUint n) = n /\ 46 ∉ FormatUint n.
Proof.
  intros Hn. destruct (dec_digits_spec 19 n [] Hn) as (ds & Heq & Hd & Hv & _). unfold FormatUint.
  rewrite Heq, app_nil_r. split; [done|]. intros Hin. rewrite Forall_forall in Hd. by apply Hd in Hin.
Qed.

(** The arcs are read back from the name. *)
Lemma dotted_split l :
  Forall (fun n => 0 <= n < 10 ^ 20) l -> l ≠ [] -> dec_val <$> Split (dotted l) 46 = l.
Proof.
  intros Hl Hne. unfold dotted. rewrite Split_Join.
  - rewrite <- list_fmap_compose. rewrite <- (list_fmap_id l) at 2. apply list_fmap_ext.
    intros i n Hi. simpl. apply FormatUint_spec. by eapply Forall_lookup_1 in Hl.
  - apply Forall_fmap. eapply Forall_impl; [done|]. intros n Hn. by apply FormatUint_spec.
  - by destruct l.
Qed.

Lemma dotted_inj comps comps' :
  Forall (fun n => 0 <= n < 10 ^ 20) comps -> Forall (fun n => 0 <= n < 10 ^ 20) comps' ->
  comps ≠ [] -> comps' ≠ [] -> dotted comps = dotted comps' -> comps = comps'.
Proof.
  intros H H' Hn Hn' Heq. rewrite <- (dotted_split comps H Hn), <- (dotted_split comps' H' Hn'). by rewrite Heq.
Qed.

Lemma oid_octets_range v comps :
  wf_bytes v -> oid_octets v comps -> Forall (fun n => 0 <= n < 2 ^ 35) comps /\ comps ≠ [].
Proof.
  intros Hw (x & y & subs & rest & -> & -> & Hx & Hy & Hxy & Hf). split; [|done].
  apply Forall_cons in Hw as [Hb _]. unfold is_byte in Hb. repeat (constructor; [lia|]).
  induction Hf as [|os n subs rest (ds & d & -> & Hd & Hl & ->) Hf IH]; constructor; [|done].
  pose proof (val7_range _ Hd) as Hr. rewrite zlen_app, zlen_cont in Hl. rewrite zlen_app in Hr.
  change (zlen [d]) with 1 in *. unfold maxSubIDBytes in Hl.
  assert (128 ^ (zlen ds + 1) <= 128 ^ 5) by (apply Z.pow_le_mono_r; lia). change (128 ^ 5) with (2 ^ 35) in *. lia.
Qed.

Lemma group_inj ds : forall d w ds' d' w',
  Forall is_digit7 (ds ++ [d]) -> Forall is_digit7 (ds' ++ [d']) ->
  cont ds ++ d :: w = cont ds' ++ d' :: w' -> ds = ds' /\ d = d' /\ w = w'.
Proof.
  induction ds as [|x ds IH]; intros d w [|x' ds'] d' w' Hd Hd' Heq;
    cbn [cont fmap list_fmap app] in *; injection Heq as Heq1 Heq2;
    apply Forall_cons in Hd as [Hx Hd], Hd' as [Hx' Hd']; unfold is_digit7 in Hx, Hx'; try lia.
  - by subst.
  - destruct (IH d w ds' d' w' Hd Hd' Heq2) as (-> & -> & ->). split; [f_equal; lia|done].
Qed.

Lemma groups_inj subs rest : Forall2 subid_octets subs rest -> forall subs' rest',
  Forall2 subid_octets subs' rest' -> concat subs = concat subs' -> rest = rest'.
Proof.
  induction 1 as [|os n subs rest (ds & d & -> & Hd & _ & ->) Hf IH]; intros subs' rest' Hf' Heq;
    destruct Hf' as [|os' n' subs' rest' (ds' & d' & -> & Hd' & _ & ->) Hf']; simpl in Heq; [done| | |].
  - by destruct ds'.
  - by destruct ds.
  - rewrite <- !app_assoc in Heq. apply group_inj in Heq as (-> & -> & Heq); [|done..].
    f_equal. by eapply IH.
Qed.

Lemma oid_octets_inj v comps comps' :
  wf_bytes v -> oid_octets v comps -> oid_octets v comps' -> comps = comps'.
Proof.
  intros Hw (x & y & subs & rest & -> & -> & Hx & Hy & Hxy & Hf)
    (x' & y' & subs' & rest' & Heq & -> & Hx' & Hy' & Hxy' & Hf').
  injection Heq as Hfst Hc. apply Forall_cons in Hw as [Hb _]. unfold is_byte in Hb.
  assert ([x; y] = [x'; y']) as [= -> ->].
  { transitivity (first_arcs (40 * x + y)); [symmetry|]; apply first_arcs_spec; [lia|tauto|lia|tauto]. }
  do 2 f_equal. exact (groups_inj subs rest Hf subs' rest' Hf' Hc).
Qed.

(** The two agree where the first octet ends the first group. *)
Lemma ber_oid_iff v comps :
  wf_bytes v -> default 0 (head v) < 128 -> oid_octets v comps <-> ber_oid v comps.
Proof.
  intros Hw Hh. split.
  - intros (x & y & subs & rest & -> & -> & Hx & Hy & Hxy & Hf). apply Forall_cons in Hw as [Hb _].
    unfold is_byte in Hb. exists x, y, [40 * x + y], subs, rest. split_and!; try done; try lia.
    exists [], (40 * x + y). split_and!; try done. by repeat constructor; simpl in *; lia.
  - intros (x & y & os & subs & rest & -> & -> & Hx & Hy & Hxy & (ds & d & -> & Hd & _ & Heq) & Hf).
    destruct ds as [|c ds].
    + exists x, y, subs, rest. split_and!; try done; try lia. rewrite Heq. done.
    + apply Forall_cons in Hd as [Hc _]. unfold is_digit7 in Hc. simpl in Hh. lia.
Qed.

(** Object identifiers. *)
Lemma oid_names_are_exact (v : bytes) :
  wf_bytes v ->
  (forall s, decodeOID v = Ok s <->
     exists comps, oid_octets v comps /\ zlen v <= 128 /\ zlen comps <= 128 /\ s = dotted comps) /\
  (forall s comps, decodeOID v = Ok s -> oid_octets v comps ->
     Forall (fun n => 0 <= n < 2 ^ 35) comps /\ dec_val <$> Split s 46 = comps) /\
  (forall v' s comps comps', wf_bytes v' -> decodeOID v = Ok s -> decodeOID v' = Ok s ->
     oid_octets v comps -> oid_octets v' comps' -> comps = comps').
Proof.
  intros Hw. split; [intros s; by apply decodeOID_iff|].
  assert (forall v s comps, wf_bytes v -> decodeOID v = Ok s -> oid_octets v comps ->
    s = dotted comps /\ Forall (fun n => 0 <= n < 10 ^ 20) comps /\ comps ≠ []) as Hone.
  { clear. intros v s comps Hw Hd Ho. destruct (oid_octets_range v comps Hw Ho) as [Hr Hne].
    split; [|split; [|done]].
    - pose proof (proj1 (decodeOID_iff v s Hw) Hd) as (comps1 & Ho1 & _ & _ & ->). f_equal.
      by apply (oid_octets_inj v).
    - eapply Forall_impl; [exact Hr|]. simpl. lia. }
  split.
  { intros s comps Hd Ho. destruct (Hone v s comps Hw Hd Ho) as (-> & Hr & Hne).
    split; [by apply (oid_octets_range v)|by apply dotted_split]. }
  intros v' s comps comps' Hw' Hd Hd' Ho Ho'.
  destruct (Hone v s comps Hw Hd Ho) as (-> & Hr & Hne). destruct (Hone v' _ comps' Hw' Hd' Ho') as (Heq & Hr' & Hne').
  by apply dotted_inj.
Qed.

Definition ex_oid : bytes := [43; 6; 1; 4; 1; 130; 55; 1].


(** ** Messages *)

(** The values a byte string holds one after the other, up to its end or to
    the first place where none can be read. *)
Inductive tlv_seq : bytes -> list (Z * bytes) -> Prop :=
| seq_end b : (forall t v r, readTLV b ≠ Ok (t, v, r)) -> tlv_seq b []
| seq_next t v e b items : is_tlv t v e -> tlv_seq b items -> tlv_seq (e ++ b) ((t, v) :: items).

(** A varbind that names an identifier: a SEQUENCE that begins with an OBJECT
    IDENTIFIER of at most 128 octets and 128 arcs. *)
Definition names_oid (t : Z) (vb s : bytes) : Prop :=
  t = 0x30 /\ exists v e rest comps, vb = e ++ rest /\ is_tlv 0x06 v e /\
    oid_octets v comps /\ zlen v <= 128 /\ zlen comps <= 128 /\ s = dotted comps.

(** The names of a varbind list, up to its end or to the first place where no
    value begins: a value that names no identifier is passed over. *)
Inductive list_names : bytes -> list bytes -> Prop :=
| names_end b : (forall t v e r, b = e ++ r -> ~ is_tlv t v e) -> list_names b []
| names_read t vb e s b oids :
    is_tlv t vb e -> names_oid t vb s -> list_names b oids -> list_names (e ++ b) (s :: oids)
| names_skip t vb e b oids :
    is_tlv t vb e -> (forall s, ~ names_oid t vb s) -> list_names b oids -> list_names (e ++ b) oids.

(** The message's frame: everything is read from the front of what holds it,
    and what follows is ignored. *)
Definition snmp_message (data community vbs : bytes) : Prop :=
  exists body version ver comm pt pdu epdu i1 v1 i2 v2 i3 v3 evbs after1 after2 after3 emsg,
    data = emsg ++ after1 /\ is_tlv tagSequence body emsg /\
    body = ver ++ comm ++ epdu ++ after2 /\ is_tlv tagInteger version ver /\
    1 <= zlen version <= 8 /\ (twos version = 0 \/ twos version = 1) /\
    is_tlv tagOctetString community comm /\ zlen community <= 255 /\
    is_tlv pt pdu epdu /\ 0xA0 <= pt <= 0xA8 /\
    pdu = i1 ++ i2 ++ i3 ++ evbs ++ after3 /\
    is_tlv tagInteger v1 i1 /\ is_tlv tagInteger v2 i2 /\ is_tlv tagInteger v3 i3 /\
    is_tlv tagSequence vbs evbs.

Lemma is_tlv_length t v e : is_tlv t v e -> (2 <= length e)%nat.
Proof.
  intros (enc & -> & Henc). simpl. rewrite length_app.
  destruct Henc as [[-> _]|(os & -> & _)]; simpl; lia.
Qed.

Lemma extractOIDs_loop_spec data items : tlv_seq data items -> forall fuel oids,
  wf_bytes data -> (length data <= fuel)%nat ->
  extractOIDs_loop fuel data oids =
    oids ++ take (32 - length oids) (omap (fun p => varbind_oid p.1 p.2) items).
Proof.
  induction 1 as [b Hb|t v e b items He Hs IH]; intros fuel oids Hw Hf.
  - simpl omap. rewrite take_nil, app_nil_r. destruct fuel as [|fuel]; [done|]. cbn [extractOIDs_loop].
    destruct (_ && _)%bool; [|done]. destruct (readTLV b) as [[[t v] r]|] eqn:E; [|done].
    by destruct (Hb t v r).
  - pose proof (is_tlv_length _ _ _ He) as Hl. rewrite length_app in Hf.
    destruct fuel as [|fuel]; [lia|]. cbn [extractOIDs_loop].
    assert (readTLV (e ++ b) = Ok (t, v, b)) as -> by (apply readTLV_complete; eauto).
    apply Forall_app in Hw as [_ Hw]. cbn [omap list_omap fst snd].
    assert ((0 <? zlen (e ++ b)) = true) as -> by (apply Z.ltb_lt; rewrite zlen_app; unfold zlen; lia).
    unfold maxOIDs, zlen. simpl andb. destruct (_ <? 32) eqn:E; go_bools.
    + rewrite IH by (done || lia). destruct (varbind_oid t v) as [oid|]; [|done].
      rewrite length_app, <- app_assoc. simpl length.
      replace (32 - length oids)%nat with (S (32 - (length oids + 1))) by lia. done.
    + replace (32 - length oids)%nat with 0%nat by lia. by rewrite take_0, app_nil_r.
Qed.

(** Every byte string has its sequence of values. *)
Lemma tlv_seq_total n : forall data, wf_bytes data -> (length data <= n)%nat -> exists items, tlv_seq data items.
Proof.
  induction n as [|n IH]; intros data Hw Hn.
  - destruct data; [|simpl in Hn; lia]. exists []. by constructor.
  - destruct (readTLV data) as [[[t v] r]|] eqn:E.
    + apply readTLV_sound in E as (e & -> & He); [|done]. apply Forall_app in Hw as [_ Hw].
      pose proof (is_tlv_length _ _ _ He). rewrite length_app in Hn.
      destruct (IH r Hw) as [items Hi]; [lia|]. exists ((t, v) :: items). by constructor.
    + exists []. constructor. congruence.
Qed.

Lemma expect_iff P msg b v r :
  wf_bytes b ->
  expect P msg b = Ok (v, r) <-> exists t e, P t = true /\ b = e ++ r /\ is_tlv t v e.
Proof.
  intros Hw. unfold expect. split.
  - destruct (readTLV b) as [[[t v'] r']|] eqn:E; [|done]. destruct (P t) eqn:Hp; [|done].
    intros [= -> ->]. apply readTLV_sound in E as (e & -> & He); [|done]. by exists t, e.
  - intros (t & e & Hp & Heq & He). rewrite (readTLV_complete b t v r) by eauto. by rewrite Hp.
Qed.

Lemma expect_tag_iff n msg b v r :
  wf_bytes b ->
  expect (Z.eqb n) msg b = Ok (v, r) <-> exists e, b = e ++ r /\ is_tlv n v e.
Proof.
  intros Hw. rewrite expect_iff by done. split.
  - intros (t & e & <-%Z.eqb_eq & ?). eauto.
  - intros (e & ?). exists n, e. by rewrite Z.eqb_refl.
Qed.

Lemma is_tlv_wf t v e r : wf_bytes (e ++ r) -> is_tlv t v e -> wf_bytes v /\ wf_bytes r.
Proof.
  intros [He Hr]%Forall_app (enc & -> & _). apply Forall_cons in He as [_ He].
  by apply Forall_app in He as [_ He].
Qed.

Lemma varbind_oid_iff t vb s : wf_bytes vb -> varbind_oid t vb = Some s <-> names_oid t vb s.
Proof.
  intros Hw. unfold varbind_oid, names_oid, tagSequence, tagOID. destruct (t =? 48) eqn:Et; simpl; go_bools.
  2: { split; [done|]. by intros [? _]. }
  subst t. split.
  - destruct (readTLV vb) as [[[t v] r]|] eqn:E; [|done]. apply readTLV_sound in E as (e & -> & He); [|done].
    destruct (t =? 6) eqn:Eo; [|done]. simpl. go_bools. subst t. destruct (is_tlv_wf _ _ _ _ Hw He) as [Hv _].
    destruct (decodeOID v) as [s'|] eqn:Ed; [|done]. intros [= ->].
    apply decodeOID_iff in Ed as (comps & Ho & ? & ? & ->); [|done]. split; [done|]. by exists v, e, r, comps.
  - intros (_ & v & e & r & comps & -> & He & Ho & Hl & Hc & ->). destruct (is_tlv_wf _ _ _ _ Hw He) as [Hv _].
    rewrite (readTLV_complete _ 6 v r) by eauto. simpl.
    by rewrite (proj2 (decodeOID_iff v (dotted comps) Hv)) by eauto.
Qed.

(** The names of the values of a list are the list's. *)
Lemma tlv_seq_names b items :
  tlv_seq b items -> wf_bytes b -> list_names b (omap (fun p => varbind_oid p.1 p.2) items).
Proof.
  induction 1 as [b Hb|t v e b items He Hs IH]; intros Hw.
  - simpl. constructor. intros t v e r -> He. apply (Hb t v r). apply readTLV_complete; eauto.
  - destruct (is_tlv_wf _ _ _ _ Hw He) as [Hv Hb]. cbn [omap list_omap fst snd].
    destruct (varbind_oid t v) as [s|] eqn:E.
    + apply varbind_oid_iff in E; [|done]. eapply names_read; eauto.
    + eapply names_skip; eauto. intros s Hn%varbind_oid_iff; [congruence|done].
Qed.

Lemma list_names_seq b oids :
  list_names b oids -> wf_bytes b ->
  exists items, tlv_seq b items /\ oids = omap (fun p => varbind_oid p.1 p.2) items.
Proof.
  induction 1 as [b Hb|t v e s b oids He Hn Hs IH|t v e b oids He Hn Hs IH]; intros Hw.
  - exists []. split; [|done]. constructor. intros t v r H%readTLV_sound; [|done].
    destruct H as (e & Heq & He). by apply (Hb t v e r).
  - destruct (is_tlv_wf _ _ _ _ Hw He) as [Hv Hb]. destruct (IH Hb) as (items & Hi & ->).
    exists ((t, v) :: items). split; [by constructor|]. cbn [omap list_omap fst snd].
    by rewrite (proj2 (varbind_oid_iff t v s Hv) Hn).
  - destruct (is_tlv_wf _ _ _ _ Hw He) as [Hv Hb]. destruct (IH Hb) as (items & Hi & ->).
    exists ((t, v) :: items). split; [by constructor|]. cbn [omap list_omap fst snd].
    destruct (varbind_oid t v) as [s|] eqn:E; [|done]. apply varbind_oid_iff in E; [|done]. by destruct (Hn s).
Qed.

Lemma parseMessage_sound data c oids :
  wf_bytes data -> parseMessage data = Ok (c, oids) ->
  exists vbs, snmp_message data c vbs /\ wf_bytes vbs /\ oids = extractOIDs vbs.
Proof.
  intros Hw H. unfold parseMessage in H.
  apply rbind_ok in H as [[[tag body] r0] [Hd H]]. apply readTLV_sound in Hd as (e0 & -> & H0); [|done].
  destruct (tag =? tagSequence) eqn:Et; [|done]. simpl in H. apply Z.eqb_eq in Et as ->.
  destruct (is_tlv_wf _ _ _ _ Hw H0) as [Hwb _].
  apply rbind_ok in H as [[version r1] [Hv H]]. apply expect_tag_iff in Hv as (ver & -> & H1); [|done].
  destruct (is_tlv_wf _ _ _ _ Hwb H1) as [Hwv Hw1].
  apply rbind_ok in H as [n [Hn H]].
  assert (1 <= zlen version <= 8) as Hlen.
  { destruct (Z.lt_ge_cases (zlen version) 1); [|destruct (Z.lt_ge_cases 8 (zlen version)); [|lia]];
      (pose proof (decodeInt_bad version ltac:(lia)) as Hb; by rewrite Hn in Hb). }
  rewrite decodeInt_spec in Hn by done. injection Hn as <-.
  destruct (_ && _)%bool eqn:Ev; [done|].
  assert (twos version = 0 \/ twos version = 1) as Htw.
  { apply andb_false_iff in Ev as [?%negb_false_iff%Z.eqb_eq|?%negb_false_iff%Z.eqb_eq]; tauto. }
  apply rbind_ok in H as [[comm r2] [Hc H]]. apply expect_tag_iff in Hc as (ec & -> & H2); [|done].
  destruct (is_tlv_wf _ _ _ _ Hw1 H2) as [_ Hw2].
  destruct (maxCommunityLen <? zlen comm) eqn:Ec; [done|]. apply Z.ltb_ge in Ec.
  apply rbind_ok in H as [[pdu r3] [Hp H]]. apply expect_iff in Hp as (pt & ep & Hpt & -> & H3); [|done].
  destruct (is_tlv_wf _ _ _ _ Hw2 H3) as [Hwp _]. apply andb_true_iff in Hpt as [?%Z.leb_le ?%Z.leb_le].
  apply rbind_ok in H as [cur [Hs H]]. cbn [skip_ints] in Hs.
  apply rbind_ok in Hs as [[v1 p1] [Hi1 Hs]]. apply expect_tag_iff in Hi1 as (i1 & -> & Hi1); [|done].
  destruct (is_tlv_wf _ _ _ _ Hwp Hi1) as [_ Hwp1].
  apply rbind_ok in Hs as [[v2 p2] [Hi2 Hs]]. apply expect_tag_iff in Hi2 as (i2 & -> & Hi2); [|done].
  destruct (is_tlv_wf _ _ _ _ Hwp1 Hi2) as [_ Hwp2].
  apply rbind_ok in Hs as [[v3 p3] [Hi3 Hs]]. apply expect_tag_iff in Hi3 as (i3 & -> & Hi3); [|done].
  destruct (is_tlv_wf _ _ _ _ Hwp2 Hi3) as [_ Hwp3]. injection Hs as <-.
  apply rbind_ok in H as [[vbs p4] [Hvb H]]. apply expect_tag_iff in Hvb as (ev & -> & Hvb); [|done].
  destruct (is_tlv_wf _ _ _ _ Hwp3 Hvb) as [Hwvb _]. injection H as <- <-.
  exists vbs. split; [|done]. unfold snmp_message.
  exists (ver ++ ec ++ ep ++ r3), version, ver, ec, pt, (i1 ++ i2 ++ i3 ++ ev ++ p4), ep, i1, v1, i2, v2, i3, v3,
    ev, r0, r3, p4, e0.
  unfold pduTagMin, pduTagMax, maxCommunityLen in *. split_and!; (done || lia).
Qed.

Lemma parseMessage_complete data c vbs :
  wf_bytes data -> snmp_message data c vbs ->
  wf_bytes vbs /\ parseMessage data = Ok (c, extractOIDs vbs).
Proof.
  intros Hw (body & version & ver & comm & pt & pdu & epdu & i1 & v1 & i2 & v2 & i3 & v3 & ev & r0 & r3 & p4 & e0 &
    -> & H0 & -> & H1 & Hlen & Htw & H2 & Hcl & H3 & Hpt & -> & Hi1 & Hi2 & Hi3 & Hvb).
  destruct (is_tlv_wf _ _ _ _ Hw H0) as [Hwb _]. destruct (is_tlv_wf _ _ _ _ Hwb H1) as [Hwv Hw1].
  destruct (is_tlv_wf _ _ _ _ Hw1 H2) as [_ Hw2]. destruct (is_tlv_wf _ _ _ _ Hw2 H3) as [Hwp _].
  destruct (is_tlv_wf _ _ _ _ Hwp Hi1) as [_ Hwp1]. destruct (is_tlv_wf _ _ _ _ Hwp1 Hi2) as [_ Hwp2].
  destruct (is_tlv_wf _ _ _ _ Hwp2 Hi3) as [_ Hwp3]. destruct (is_tlv_wf _ _ _ _ Hwp3 Hvb) as [Hwvb _].
  split; [done|]. unfold parseMessage.
  rewrite (readTLV_complete _ tagSequence _ r0 Hw) by eauto. cbn [rbind].
  rewrite Z.eqb_refl. cbn [negb].
  rewrite (proj2 (expect_tag_iff tagInteger _ _ version _ Hwb)) by eauto. cbn [rbind].
  rewrite decodeInt_spec by done. cbn [rbind].
  assert (negb (twos version =? 0) && negb (twos version =? 1) = false) as -> by (destruct Htw as [-> | ->]; done).
  rewrite (proj2 (expect_tag_iff tagOctetString _ _ c _ Hw1)) by eauto. cbn [rbind].
  rewrite (proj2 (Z.ltb_ge _ _)) by done.
  rewrite (proj2 (expect_iff _ _ _ (i1 ++ i2 ++ i3 ++ ev ++ p4) r3 Hw2)).
  2: { exists pt, epdu. split; [|done]. apply andb_true_iff. by rewrite !Z.leb_le. }
  cbn [rbind skip_ints].
  rewrite (proj2 (expect_tag_iff tagInteger _ _ v1 _ Hwp)) by eauto. cbn [rbind].
  rewrite (proj2 (expect_tag_iff tagInteger _ _ v2 _ Hwp1)) by eauto. cbn [rbind].
  rewrite (proj2 (expect_tag_iff tagInteger _ _ v3 _ Hwp2)) by eauto. cbn [rbind].
  rewrite (proj2 (expect_tag_iff tagSequence _ _ vbs _ Hwp3)) by eauto. done.
Qed.

(** Messages. *)
Lemma snmp_messages_read (data community : bytes) (oids : list bytes) :
  wf_bytes data ->
  (parseMessage data = Ok (community, oids) <->
   exists vbs all, snmp_message data community vbs /\ list_names vbs all /\ oids = take 32 all) /\
  (parseMessage data = Ok (community, oids) -> zlen oids <= 32 /\ zlen community <= 255).
Proof.
  intros Hw.
  assert (forall vbs items, wf_bytes vbs -> tlv_seq vbs items ->
    extractOIDs vbs = take 32 (omap (fun p => varbind_oid p.1 p.2) items)) as Hex.
  { intros vbs items Hwv Hs. unfold extractOIDs. by rewrite (extractOIDs_loop_spec vbs items Hs). }
  assert (forall vbs, wf_bytes vbs -> exists all, list_names vbs all /\ extractOIDs vbs = take 32 all) as Htot.
  { intros vbs Hwv. destruct (tlv_seq_total (length vbs) vbs Hwv) as [items Hi]; [done|].
    eexists. split; [by apply (tlv_seq_names _ _ Hi)|by apply Hex]. }
  split; [split|].
  - intros H. destruct (parseMessage_sound _ _ _ Hw H) as (vbs & Hm & Hwv & ->).
    destruct (Htot vbs Hwv) as (all & Hi & Heq). exists vbs, all. auto.
  - intros (vbs & all & Hm & Hi & ->). destruct (parseMessage_complete _ _ _ Hw Hm) as [Hwv ->].
    destruct (list_names_seq _ _ Hi Hwv) as (items & Hs & ->). by rewrite (Hex vbs items Hwv Hs).
  - intros H. destruct (parseMessage_sound _ _ _ Hw H) as (vbs & Hm & Hwv & ->).
    destruct (Htot vbs Hwv) as (all & Hi & ->). split.
    + unfold zlen. rewrite length_take. lia.
    + by destruct Hm as (? & ? & ? & ? & ? & ? & ? & ? & ? & ? & ? & ? & ? & ? & ? & ? & ? & ? & _ & _ & _ & _ & _ & _ & _ & ? & _).
Qed.

(** A GetRequest of sysDescr with community "public". *)
Definition ex_get : bytes :=
  [0x30; 0x26; 0x02; 0x01; 0x01; 0x04; 0x06] ++ lit "public" ++
  [0xA0; 0x19; 0x02; 0x01; 0x2A; 0x02; 0x01; 0x00; 0x02; 0x01; 0x00;
   0x30; 0x0E; 0x30; 0x0C; 0x06; 0x08; 0x2B; 0x06; 0x01; 0x02; 0x01; 0x01; 0x01; 0x00; 0x05; 0x00].

(** C31. Object identifiers: for every byte string, [decodeOID] answers with
    a name exactly when the string is a first octet [40x + y] for the arcs
    [x.y] and groups of at most five octets for the further arcs, within 128
    octets and 128 arcs; the name is those arcs in decimal between dots, no arc overflows,
    and two strings of the same name stand for the same arcs. Where the first
    octet has no continuation bit these arcs are the identifier BER encodes
    in the string. Where it has (identifiers from 2.48 on, whose first two
    arcs take more than one octet) the code still takes the octet alone, so
    the name is of the arcs read that way and not of BER's identifier.
    Messages: [parseMessage] answers with a community and names exactly when
    the datagram begins with the BER frame of a v1 or v2c message, whatever
    form its lengths take; the community is the frame's octet string, at most
    255 octets, and the names are the first 32 of its varbind list, where a
    varbind names the identifier its SEQUENCE begins with and any other value
    is passed over, up to the first place where no value begins. *)
Theorem snmp_read_exactly (v : bytes) :
  wf_bytes v ->
  ((forall s, decodeOID v = Ok s <->
     exists comps, oid_octets v comps /\ zlen v <= 128 /\ zlen comps <= 128 /\ s = dotted comps) /\
  (default 0 (head v) < 128 -> forall comps, oid_octets v comps <-> ber_oid v comps) /\
  (forall s comps, decodeOID v = Ok s -> oid_octets v comps ->
     Forall (fun n => 0 <= n < 2 ^ 35) comps /\ dec_val <$> Split s 46 = comps) /\
  (forall v' s comps comps', wf_bytes v' -> decodeOID v = Ok s -> decodeOID v' = Ok s ->
     oid_octets v comps -> oid_octets v' comps' -> comps = comps')) /\
  (forall community oids,
   (parseMessage v = Ok (community, oids) <->
   exists vbs all, snmp_message v community vbs /\ list_names vbs all /\ oids = take 32 all) /\
  (parseMessage v = Ok (community, oids) -> zlen oids <= 32 /\ zlen community <= 255)).
Proof.
  intros Hw. destruct (oid_names_are_exact v Hw) as (H1 & H2 & H3). split.
  - split_and!; [exact H1| |exact H2|exact H3]. intros Hh comps. by apply ber_oid_iff.
  - intros community oids. by apply snmp_messages_read.
Qed.

(** The same request with an INTEGER where the name should be, and 2.999 as
    BER writes it. *)
Definition ex_get_int : bytes :=
  [0x30; 0x26; 0x02; 0x01; 0x01; 0x04; 0x06] ++ lit "public" ++
  [0xA0; 0x19; 0x02; 0x01; 0x2A; 0x02; 0x01; 0x00; 0x02; 0x01; 0x00;
   0x30; 0x0E; 0x30; 0x0C; 0x02; 0x08; 0x2B; 0x06; 0x01; 0x02; 0x01; 0x01; 0x01; 0x00; 0x05; 0x00].

Lemma snmp_read_exactly_witness :
  wf_bytes ex_get /\ parseMessage ex_get = Ok (lit "public", [lit "1.3.6.1.2.1.1.1.0"]) /\
  (exists vbs all, snmp_message ex_get (lit "public") vbs /\ list_names vbs all /\
    [lit "1.3.6.1.2.1.1.1.0"] = take 32 all) /\
  (exists vbs all, snmp_message ex_get_int (lit "public") vbs /\ list_names vbs all /\ [] = take 32 all) /\
  (exists comps, ber_oid ex_oid comps /\ lit "1.3.6.1.4.1.311.1" = dotted comps) /\
  decodeOID [0x88; 0x37] = Ok (lit "2.56.55").
Proof.
  assert (wf_bytes ex_get) as Hw by (apply (bool_decide_unpack _); vm_compute; exact I).
  assert (wf_bytes ex_get_int) as Hwi by (apply (bool_decide_unpack _); vm_compute; exact I).
  assert (wf_bytes ex_oid) as Hwo by (apply (bool_decide_unpack _); vm_compute; exact I).
  assert (parseMessage ex_get = Ok (lit "public", [lit "1.3.6.1.2.1.1.1.0"])) as Hp by (vm_compute; reflexivity).
  assert (parseMessage ex_get_int = Ok (lit "public", [])) as Hpi by (vm_compute; reflexivity).
  assert (decodeOID ex_oid = Ok (lit "1.3.6.1.4.1.311.1")) as Hd by (vm_compute; reflexivity).
  split; [exact Hw|]. split; [exact Hp|]. split; [|split; [|split]].
  - exact (proj1 (proj1 (proj2 (snmp_read_exactly ex_get Hw) (lit "public") [lit "1.3.6.1.2.1.1.1.0"])) Hp).
  - exact (proj1 (proj1 (proj2 (snmp_read_exactly ex_get_int Hwi) (lit "public") [])) Hpi).
  - destruct (proj1 (snmp_read_exactly ex_oid Hwo)) as (H1 & H2 & _).
    destruct (proj1 (H1 (lit "1.3.6.1.4.1.311.1")) Hd) as (comps & Ho & _ & _ & Hs).
    exists comps. split; [|exact Hs]. apply H2; [vm_compute; reflexivity|exact Ho].
  - vm_compute. reflexivity.
Defined.
