(* ===== verification/Events.v ===== *)
(** Event identity and fields: [internal/agent/event] ([id.go], [fields.go])
    and the service names of [internal/opencanary/service.go].

    [crypto/sha256] is the section variable [sha256]; [encoding/json]'s
    decoding into the two structs of the package is the class [Json]. *)
From S2P Require Import Prelude GoBase GoStrings Tailer.
#[local] Open Scope Z_scope.

(** ** service.go *)

Definition NoDestPort : Z := -1.
Definition UnknownService : string := "unknown".

(** [logTypeRange] *)
Record logTypeRange : Type := mkRange { rmin : Z; rmax : Z; rservice : string }.

Definition logTypeRanges : list logTypeRange := [
  mkRange 1000 1006 "base"; mkRange 2000 2001 "ftp"; mkRange 3000 3003 "http";
  mkRange 4000 4002 "ssh"; mkRange 5000 5000 "smb"; mkRange 5001 5005 "portscan";
  mkRange 6001 6002 "telnet"; mkRange 7001 7001 "httpproxy"; mkRange 8001 8001 "mysql";
  mkRange 9001 9002 "mssql"; mkRange 9003 9003 "mysql"; mkRange 10001 10001 "tftp";
  mkRange 11001 11001 "ntp"; mkRange 12001 12001 "vnc"; mkRange 13001 13001 "snmp";
  mkRange 14001 14001 "rdp"; mkRange 15001 15001 "sip"; mkRange 16001 16001 "git";
  mkRange 17001 17001 "redis"; mkRange 18001 18005 "tcpbanner"; mkRange 19001 19001 "llmnr";
  mkRange 20001 20001 "mongodb"; mkRange 30001 30001 "poisoner"; mkRange 30002 30002 "selftest";
  mkRange 99000 99009 "user"].

Fixpoint service_in (rs : list logTypeRange) (logType : Z) : string :=
  match rs with
  | [] => UnknownService
  | r :: rs =>
      if (rmin r <=? logType) && (logType <=? rmax r) then rservice r else service_in rs logType
  end.

Definition ServiceForLogType (logType : option Z) : string :=
  match logType with
  | None => UnknownService
  | Some t => service_in logTypeRanges t
  end.

Definition IsBase (service : bytes) : bool := bool_decide (service = lit "base").
Definition IsSelfTestResult (service : bytes) : bool := bool_decide (service = lit "selftest").

(** ** event.go, id.go, fields.go *)

Definition MaxWebhookBodyBytes : Z := 256 * 1024.

(** [eventPayload] *)
Record eventPayload : Type := mkPayload {
  SrcHost : string;
  DstPort : option Z;
  PLogType : option Z;
}.

(** [json.Unmarshal] into the webhook wrapper and into [eventPayload]; [None]
    is its error. *)
Class Json : Type := {
  unmarshal_wrapper : bytes -> option bytes;
  unmarshal_payload : bytes -> option eventPayload;
}.

(** [Fields] *)
Record Fields : Type := mkFields {
  fSourceIP : string;
  fDestPort : Z;
  fLogType : option Z;
  fService : string;
}.

Inductive event_error : Type :=
| ErrTooLong
| ErrNoObject
| ErrDecode
| ErrNoMessage
| ErrEmpty.

Definition hex_digit (n : Z) : Ascii.ascii :=
  Ascii.ascii_of_nat (Z.to_nat (if n <? 10 then 48 + n else 87 + n)).

(** [hex.EncodeToString] *)
Fixpoint EncodeToString (b : bytes) : string :=
  match b with
  | [] => EmptyString
  | x :: b => String (hex_digit (x / 16)) (String (hex_digit (x mod 16)) (EncodeToString b))
  end.

Section event.
Context (sha256 : bytes -> bytes) `{!Json}.

Definition hashHex (b : bytes) : string := EncodeToString (sha256 b).

Definition IDFromLogLine (line : bytes) : res event_error (string * bytes) :=
  if MaxLogLineBytes <? zlen line then Err ErrTooLong else
  let start := IndexByte line 123 in
  if start <? 0 then Err ErrNoObject else
  let message := slice line start (zlen line) in
  Ok (hashHex message, message).

Definition IDFromWebhookBody (body : bytes) : res event_error (string * bytes) :=
  if MaxWebhookBodyBytes <? zlen body then Err ErrTooLong else
  match unmarshal_wrapper body with
  | None => Err ErrDecode
  | Some [] => Err ErrNoMessage
  | Some message => Ok (hashHex message, message)
  end.

Definition IDFromEmittedMessage (message : bytes) : res event_error string :=
  if MaxLogLineBytes <? zlen message then Err ErrTooLong else
  if zlen message =? 0 then Err ErrEmpty else
  Ok (hashHex message).

Definition ExtractFields (message : bytes) : res event_error Fields :=
  match unmarshal_payload message with
  | None => Err ErrDecode
  | Some payload =>
      Ok (mkFields (SrcHost payload) (default NoDestPort (DstPort payload)) (PLogType payload)
            (ServiceForLogType (PLogType payload)))
  end.
End event.

(** ** Identity *)

Lemma hex_digit_inj a b : 0 <= a < 16 -> 0 <= b < 16 -> hex_digit a = hex_digit b -> a = b.
Proof.
  intros Ha Hb. unfold hex_digit. intros H%(f_equal Ascii.nat_of_ascii).
  destruct (Z.ltb_spec a 10), (Z.ltb_spec b 10);
    rewrite !Ascii.nat_ascii_embedding in H by lia; lia.
Qed.

Lemma EncodeToString_inj a : forall b,
  Forall is_byte a -> Forall is_byte b -> EncodeToString a = EncodeToString b -> a = b.
Proof.
  induction a as [|x a IH]; intros [|y b]; try done.
  intros [Hx Ha]%Forall_cons [Hy Hb]%Forall_cons. cbn [EncodeToString]. intros [= H1 H2 H3].
  unfold is_byte in *.
  apply hex_digit_inj in H1; [|Z.to_euclidean_division_equations; lia..].
  apply hex_digit_inj in H2; [|Z.to_euclidean_division_equations; lia..].
  f_equal; [Z.to_euclidean_division_equations; lia|]. by apply IH.
Qed.

Lemma EncodeToString_length a : String.length (EncodeToString a) = (2 * length a)%nat.
Proof. induction a as [|x a IH]; [done|]. simpl. rewrite IH. lia. Qed.

(** The first occurrence of a byte splits a string in one way. *)
Lemma split_at_first {A} (c : A) (p r p' r' : list A) :
  c ∉ p -> c ∉ p' -> p ++ c :: r = p' ++ c :: r' -> p = p' /\ r = r'.
Proof.
  revert p'. induction p as [|x p IH]; intros [|y p'] Hp Hp' Heq; simplify_eq/=.
  - done.
  - exfalso. apply Hp'. by left.
  - exfalso. apply Hp. by left.
  - destruct (IH p') as [-> ->]; [set_solver|set_solver|done|done].
Qed.

Section identity.
Context (sha256 : bytes -> bytes) `{!Json}.
Context (sha256_bytes : forall b, Forall is_byte (sha256 b)).

Lemma IDFromLogLine_spec line id message :
  IDFromLogLine sha256 line = Ok (id, message) <->
  zlen line <= MaxLogLineBytes /\ id = hashHex sha256 message /\
  exists prefix rest, line = prefix ++ message /\ 123 ∉ prefix /\ message = 123 :: rest.
Proof.
  unfold IDFromLogLine. destruct (Z.ltb_spec MaxLogLineBytes (zlen line)) as [Hlt|Hle].
  { split; [done|]. intros (? & _). lia. }
  destruct (IndexByte_spec line 123) as [[-> Hn]|(p & r & -> & Hp & ->)].
  - split; [done|]. intros (_ & _ & p & r & -> & _ & ->). exfalso. apply Hn. set_solver.
  - rewrite zlen_app. rewrite (proj2 (Z.ltb_ge _ _)) by (unfold zlen; lia).
    assert (slice (p ++ 123 :: r) (zlen p) (zlen p + zlen (123 :: r)) = 123 :: r) as ->.
    { pose proof (slice_app_mid p (123 :: r) []) as Hs. by rewrite app_nil_r in Hs. }
    split.
    + intros [= <- <-]. rewrite zlen_app in Hle. split; [lia|]. split; [done|]. by exists p, r.
    + intros (_ & -> & p' & r' & Heq & Hp' & ->).
      by destruct (split_at_first 123 p r p' r' Hp Hp' Heq) as [-> ->].
Qed.

Lemma IDFromWebhookBody_spec body id message :
  IDFromWebhookBody sha256 body = Ok (id, message) <->
  zlen body <= MaxWebhookBodyBytes /\ unmarshal_wrapper body = Some message /\ message ≠ [] /\
  id = hashHex sha256 message.
Proof.
  unfold IDFromWebhookBody. destruct (Z.ltb_spec MaxWebhookBodyBytes (zlen body)) as [Hlt|Hle].
  { split; [done|]. intros (? & _). lia. }
  destruct (unmarshal_wrapper body) as [[|c m]|]; [naive_solver| |naive_solver].
  split; [intros [= <- <-]; done|]. by intros (_ & [= <-] & _ & ->).
Qed.

Lemma IDFromEmittedMessage_spec message id :
  IDFromEmittedMessage sha256 message = Ok id <->
  zlen message <= MaxLogLineBytes /\ message ≠ [] /\ id = hashHex sha256 message.
Proof.
  unfold IDFromEmittedMessage. destruct (Z.ltb_spec MaxLogLineBytes (zlen message)) as [Hlt|Hle].
  { split; [done|]. intros (? & _). lia. }
  destruct message as [|c m]; [naive_solver|]. rewrite zlen_cons in *.
  rewrite (proj2 (Z.eqb_neq _ _)) by (unfold zlen; lia).
  split; [intros [= <-]; done|]. by intros (_ & _ & ->).
Qed.

Lemma hashHex_inj a b : hashHex sha256 a = hashHex sha256 b <-> sha256 a = sha256 b.
Proof.
  unfold hashHex. split; [|by intros ->]. by apply EncodeToString_inj.
Qed.

(** C36. The two roads of one event agree on its id: a log line gives an id
    exactly when it is within the cap and holds a '{', and then the id and the
    message of what follows its first '{'; the webhook body that carries that
    message, and the message emitted by the agent itself, get the same id; an
    id is 64 characters, and two messages share one exactly when their digests
    are equal. *)
Theorem roads_agree_on_id (prefix rest body : bytes) :
  let message := 123 :: rest in
  123 ∉ prefix -> (forall b, zlen (sha256 b) = 32) ->
  (IDFromLogLine sha256 (prefix ++ message) =
     if MaxLogLineBytes <? zlen (prefix ++ message) then Err ErrTooLong
     else Ok (hashHex sha256 message, message)) /\
  (IDFromLogLine sha256 prefix = Err ErrTooLong \/ IDFromLogLine sha256 prefix = Err ErrNoObject) /\
  (unmarshal_wrapper body = Some message -> zlen body <= MaxWebhookBodyBytes ->
     IDFromWebhookBody sha256 body = Ok (hashHex sha256 message, message)) /\
  (zlen message <= MaxLogLineBytes -> IDFromEmittedMessage sha256 message = Ok (hashHex sha256 message)) /\
  String.length (hashHex sha256 message) = 64%nat /\
  forall message', hashHex sha256 message = hashHex sha256 message' <-> sha256 message = sha256 message'.
Proof.
  intros message Hp H32. split; [|split; [|split; [|split; [|split]]]].
  - destruct (Z.ltb_spec MaxLogLineBytes (zlen (prefix ++ message))) as [Hlt|Hle].
    + unfold IDFromLogLine. by rewrite (proj2 (Z.ltb_lt _ _)).
    + apply IDFromLogLine_spec. split; [done|]. split; [done|]. by exists prefix, rest.
  - unfold IDFromLogLine. case_match; [by left|right].
    by destruct (IndexByte_spec prefix 123) as [[-> _]|(p & r & -> & _)]; [|set_solver].
  - intros Hu Hb. by apply IDFromWebhookBody_spec.
  - intros Hm. by apply IDFromEmittedMessage_spec.
  - unfold hashHex. rewrite EncodeToString_length. specialize (H32 message). unfold zlen in H32. lia.
  - intros message'. apply hashHex_inj.
Qed.
End identity.

Definition ex_json : Json := {|
  unmarshal_wrapper := fun b => Some (drop 1 b);
  unmarshal_payload := fun _ => Some (mkPayload "10.0.0.9" (Some 22) (Some 4002));
|}.
Definition ex_digest (b : bytes) : bytes := take 32 ((fun c => c mod 256) <$> b ++ replicate 32 0).

Lemma ex_digest_bytes b : Forall is_byte (ex_digest b).
Proof.
  apply Forall_take, Forall_fmap, Forall_true. intros c. apply Z.mod_pos_bound. done.
Qed.

Lemma ex_digest_length b : zlen (ex_digest b) = 32.
Proof. unfold ex_digest, zlen. rewrite length_take, length_fmap, length_app, length_replicate. lia. Qed.

Lemma roads_agree_on_id_witness :
  @IDFromWebhookBody ex_digest ex_json (lit "-{1}") = IDFromLogLine ex_digest (lit "Jul 2 {1}").
Proof.
  destruct (@roads_agree_on_id ex_digest ex_json ex_digest_bytes (lit "Jul 2 ") (lit "1}") (lit "-{1}"))
    as (H1 & _ & H2 & _).
  - apply (bool_decide_unpack _). vm_compute. exact I.
  - exact ex_digest_length.
  - transitivity (@Ok event_error _ (hashHex ex_digest (lit "{1}"), lit "{1}")).
    + apply H2; [reflexivity|]. vm_compute. discriminate.
    + symmetry. exact H1.
Defined.
