(* ===== verification/Process.v ===== *)
(** Goroutines: programs of atomic operations on a shared state, their
    interleaving, and a rely-guarantee rule for them.

    An operation is what one method does under its mutex, or one read or write
    of an atomic variable. What the outside decides (a timer or a cancelled
    context winning a [select], what a file holds, whether a write succeeds)
    is an input: a goroutine waits for one that the state allows. A function
    that returns takes what follows its call as a continuation. *)
From S2P Require Import Prelude.

Inductive proc (St In : Type) : Type :=
| Done
| Act {R : Type} (f : St -> R * St) (k : R -> proc St In)
| Ask (ok : St -> In -> bool) (k : In -> proc St In)
| Fork (p k : proc St In).
Arguments Done {St In}.
Arguments Act {St In R} f k.
Arguments Ask {St In} ok k.
Arguments Fork {St In} p k.

(** An operation with no result, and one that only looks. *)
Definition effect {St : Type} (f : St -> St) : St -> unit * St := fun st => (tt, f st).
Definition look {St R : Type} (f : St -> R) : St -> R * St := fun st => (f st, st).

Record pool (St In : Type) : Type := mkPool {
  shared : St;
  threads : list (proc St In);
}.
Arguments mkPool {St In}.
Arguments shared {St In}.
Arguments threads {St In}.

Inductive pstep {St In : Type} : pool St In -> pool St In -> Prop :=
| pstep_act st ts i R (f : St -> R * St) k :
    ts !! i = Some (Act f k) ->
    pstep (mkPool st ts) (mkPool (f st).2 (<[i := k (f st).1]> ts))
| pstep_ask st ts i ok k a :
    ts !! i = Some (Ask ok k) -> ok st a = true ->
    pstep (mkPool st ts) (mkPool st (<[i := k a]> ts))
| pstep_fork st ts i p k :
    ts !! i = Some (Fork p k) ->
    pstep (mkPool st ts) (mkPool st (<[i := k]> ts ++ [p])).

Definition interleaves {St In : Type} : pool St In -> pool St In -> Prop := rtc pstep.

(** ** The rule *)

Section rule.
Context {St In : Type} (Inv : St -> Prop) (R : St -> St -> Prop) `{!PreOrder R}.

(** [p] keeps the invariant and changes the state within [R] only, whatever
    changes within [R] happen between its operations. *)
Fixpoint safe (p : proc St In) (st : St) : Prop :=
  match p with
  | Done => True
  | Act f k =>
      forall st1, R st st1 -> Inv st1 ->
        Inv (f st1).2 /\ R st1 (f st1).2 /\ safe (k (f st1).1) (f st1).2
  | Ask ok k => forall st1, R st st1 -> Inv st1 -> forall a, ok st1 a = true -> safe (k a) st1
  | Fork q k => safe q st /\ safe k st
  end.

Lemma safe_rely p : forall st st1, R st st1 -> safe p st -> safe p st1.
Proof.
  induction p as [|T f k IH|ok k IH|q IHq k IHk]; simpl; intros st st1 HR Hs.
  - done.
  - intros st2 HR2 HI. apply Hs; [by transitivity st1|done].
  - intros st2 HR2 HI. apply Hs; [by transitivity st1|done].
  - destruct Hs. split; [by eapply IHq|by eapply IHk].
Qed.

(** An operation that only looks changes nothing. *)
Lemma safe_look {T} (f : St -> T) k st :
  (forall st1, R st st1 -> Inv st1 -> safe (k (f st1)) st1) -> safe (Act (look f) k) st.
Proof. intros Hk st1 HR HI. split; [done|]. split; [done|]. by apply Hk. Qed.

(** What is safe after any operations of other goroutines. *)
Definition always (p : proc St In) (st : St) : Prop := forall st1, R st st1 -> Inv st1 -> safe p st1.

Lemma always_le p st st1 : R st st1 -> always p st -> always p st1.
Proof. intros HR Hp st2 HR2 HI. apply Hp; [by transitivity st1|done]. Qed.

Lemma always_ok p st : Inv st -> always p st -> safe p st.
Proof. intros HI Hp. by apply Hp. Qed.

Lemma always_done st : always Done st.
Proof. by intros st1 _ _. Qed.

Lemma always_act {T} (f : St -> T * St) k st :
  (forall st1, R st st1 -> Inv st1 -> Inv (f st1).2 /\ R st1 (f st1).2 /\ always (k (f st1).1) (f st1).2) ->
  always (Act f k) st.
Proof.
  intros Hf st1 HR HI st2 HR2 HI2. destruct (Hf st2 ltac:(by transitivity st1) HI2) as (H1 & H2 & H3).
  split; [done|]. split; [done|]. by apply always_ok.
Qed.

Lemma always_ask ok k st : (forall a, always (k a) st) -> always (Ask ok k) st.
Proof. intros Hk st1 HR HI st2 HR2 HI2 a _. apply Hk; [by transitivity st1|done]. Qed.

Lemma safe_insert ts i p st st1 :
  R st st1 -> Forall (fun q => safe q st) ts -> safe p st1 ->
  Forall (fun q => safe q st1) (<[i := p]> ts).
Proof.
  intros HR Hts Hp. apply Forall_insert; [|done]. eapply Forall_impl; [done|].
  intros q. by apply safe_rely.
Qed.

Lemma interleaves_safe st0 ts0 c :
  interleaves (mkPool st0 ts0) c -> Inv st0 -> Forall (fun p => safe p st0) ts0 ->
  Inv (shared c) /\ R st0 (shared c) /\ Forall (fun p => safe p (shared c)) (threads c).
Proof.
  intros Hr HI Hts. revert c Hr. apply (rtc_ind_r _ (mkPool st0 ts0)); [by simpl|].
  intros c c' _ Hs (HI' & HR & Hp).
  destruct Hs as [st ts i T f k Hi|st ts i ok k a Hi Ha|st ts i p k Hi]; simpl in *;
    pose proof (Forall_lookup_1 _ _ _ _ Hp Hi) as Hv; simpl in Hv.
  - destruct (Hv st ltac:(reflexivity) HI') as (? & ? & ?).
    split; [done|]. split; [by transitivity st|]. by eapply safe_insert.
  - split; [done|]. split; [done|]. eapply safe_insert; [reflexivity|done|]. by apply Hv.
  - destruct Hv as [Hq Hk]. split; [done|]. split; [done|]. apply Forall_app. split.
    + by eapply safe_insert; [reflexivity|..].
    + by apply Forall_singleton.
Qed.

(** Of two states of one run, the later is within [R] of the earlier. *)
Lemma interleaves_later st0 ts0 c c' :
  interleaves (mkPool st0 ts0) c -> interleaves c c' -> Inv st0 -> Forall (fun p => safe p st0) ts0 ->
  R (shared c) (shared c').
Proof.
  intros Hr Hr' HI Hts. destruct (interleaves_safe st0 ts0 c Hr HI Hts) as (HI' & _ & Hp).
  destruct c as [st ts]. by apply (interleaves_safe st ts c' Hr' HI' Hp).
Qed.
End rule.

(** ** One goroutine among others *)

(** A rule for a goroutine that alone does certain things: the others keep to
    [E], which it relies on; they rely on [F] only, which allows what it does. *)
Section solo.
Context {St In : Type} (Inv : St -> Prop) (E F : St -> St -> Prop) `{!PreOrder E, !PreOrder F}.

(** [p], which starts no goroutine, keeps the invariant and changes the state
    within [guar], whatever changes within [rely] happen between its
    operations. *)
Fixpoint honours (rely guar : St -> St -> Prop) (p : proc St In) (st : St) : Prop :=
  match p with
  | Done => True
  | Act f k =>
      forall st1, rely st st1 -> Inv st1 ->
        Inv (f st1).2 /\ guar st1 (f st1).2 /\ honours rely guar (k (f st1).1) (f st1).2
  | Ask ok k => forall st1, rely st st1 -> Inv st1 -> forall a, ok st1 a = true -> honours rely guar (k a) st1
  | Fork _ _ => False
  end.

Lemma honours_rely rely guar p st st1 : Transitive rely -> rely st st1 -> honours rely guar p st -> honours rely guar p st1.
Proof.
  intros Ht HR. destruct p as [|T f k|ok k|q k]; simpl; intros Hs; [done| | |done].
  - intros st2 HR2 HI. apply Hs; [by transitivity st1|done].
  - intros st2 HR2 HI. apply Hs; [by transitivity st1|done].
Qed.

(** The rules for one operation. *)
Lemma honours_act rely guar {T} (f : St -> T * St) k st :
  (forall st1, rely st st1 -> Inv st1 ->
     Inv (f st1).2 /\ guar st1 (f st1).2 /\ honours rely guar (k (f st1).1) (f st1).2) ->
  honours rely guar (Act f k) st.
Proof. done. Qed.

Lemma honours_look rely guar {T} (f : St -> T) k st : Reflexive guar ->
  (forall st1, rely st st1 -> Inv st1 -> honours rely guar (k (f st1)) st1) -> honours rely guar (Act (look f) k) st.
Proof. intros Hr Hk st1 HR HI. split; [done|]. split; [apply Hr|]. by apply Hk. Qed.

Lemma solo_invariant st0 p qs c :
  (forall a b, E a b -> F a b) ->
  interleaves (mkPool st0 (p :: qs)) c -> Inv st0 -> honours E F p st0 -> Forall (fun q => honours F E q st0) qs ->
  Inv (shared c).
Proof.
  intros HEF Hr HI Hp Hqs.
  enough (Inv (shared c) /\ exists p' qs', threads c = p' :: qs' /\ honours E F p' (shared c) /\
            Forall (fun q => honours F E q (shared c)) qs') by tauto.
  revert c Hr. apply (rtc_ind_r _ (mkPool st0 (p :: qs))); [by split; [|exists p, qs]|].
  intros c c' _ Hs (HI' & p' & qs' & Hts & Hp' & Hqs').
  assert (forall st1, F (shared c) st1 -> Forall (fun q => honours F E q st1) qs') as Hmove.
  { intros st1 HF. eapply Forall_impl; [exact Hqs'|]. intros q Hq. by eapply honours_rely; [apply _|exact HF|]. }
  destruct Hs as [st ts i T f k Hi|st ts i ok k a Hi Ha|st ts i q k Hi]; simpl in *; subst ts; destruct i as [|i]; simpl in Hi.
  - injection Hi as ->. destruct (Hp' st ltac:(reflexivity) HI') as (? & ? & ?). split; [done|]. eexists _, _. split; [reflexivity|]. split; [done|by apply Hmove].
  - pose proof (Forall_lookup_1 _ _ _ _ Hqs' Hi) as Hq. destruct (Hq st ltac:(reflexivity) HI') as (? & HE & ?). split; [done|].
    eexists _, _. split; [reflexivity|]. split; [eapply honours_rely; [apply _|exact HE|done]|]. apply Forall_insert; [by apply Hmove, HEF|done].
  - injection Hi as ->. split; [done|]. eexists _, _. split; [reflexivity|]. split; [by apply (Hp' st)|done].
  - pose proof (Forall_lookup_1 _ _ _ _ Hqs' Hi) as Hq. split; [done|]. eexists _, _. split; [reflexivity|]. split; [done|].
    apply Forall_insert; [done|]. by apply (Hq st).
  - injection Hi as ->. done.
  - by pose proof (Forall_lookup_1 _ _ _ _ Hqs' Hi).
Qed.
Lemma honours_weaken (rely rely' guar guar' : St -> St -> Prop) p : (forall a b, rely' a b -> rely a b) -> (forall a b, guar a b -> guar' a b) ->
  forall st, honours rely guar p st -> honours rely' guar' p st.
Proof.
  intros Hr Hg. induction p as [|T f k IH|ok k IH|q _ k _]; simpl; intros st Hs; [done| | |done].
  - intros st1 HR HI. destruct (Hs st1 (Hr _ _ HR) HI) as (? & ? & ?). split; [done|]. split; [by apply Hg|by apply IH].
  - intros st1 HR HI a Ha. apply IH. by apply Hs; [apply Hr| |].
Qed.

(** The others alone. *)
Lemma others_invariant st0 qs c :
  (forall a b, E a b -> F a b) ->
  interleaves (mkPool st0 qs) c -> Inv st0 -> Forall (fun q => honours F E q st0) qs -> Inv (shared c).
Proof.
  intros HEF Hr HI Hqs. destruct qs as [|q qs].
  - apply rtc_inv in Hr as [<-|(c1 & Hs & _)]; [done|]. inversion Hs as [? ? i ? ? ? Hi|? ? i ? ? ? Hi|? ? i ? ? Hi]; by rewrite lookup_nil in Hi.
  - inversion_clear Hqs as [|? ? Hq Hqs']. eapply solo_invariant; [exact HEF|exact Hr|done| |done]. by eapply honours_weaken; [| |exact Hq].
Qed.
End solo.

(** ** Running a schedule *)

(** The next step of thread [i], given what it may be waiting for. *)
Definition padvance {St In : Type} (c : pool St In) (s : nat * In) : pool St In :=
  let '(i, a) := s in
  match threads c !! i with
  | Some (Act f k) => mkPool (f (shared c)).2 (<[i := k (f (shared c)).1]> (threads c))
  | Some (Ask ok k) =>
      if ok (shared c) a then mkPool (shared c) (<[i := k a]> (threads c)) else c
  | Some (Fork p k) => mkPool (shared c) (<[i := k]> (threads c) ++ [p])
  | _ => c
  end.

Definition pschedule {St In : Type} (ss : list (nat * In)) (c : pool St In) : pool St In :=
  foldl padvance c ss.

Lemma pschedule_interleaves {St In} ss (c : pool St In) : interleaves c (pschedule ss c).
Proof.
  revert c. induction ss as [|[i a] ss IH]; intros c; [apply rtc_refl|].
  unfold interleaves, pschedule. cbn [foldl].
  transitivity (padvance c (i, a)); [|apply IH]. unfold padvance. destruct c as [st ts]. simpl.
  destruct (ts !! i) as [[|T f k|ok k|p k]|] eqn:Hi; try apply rtc_refl.
  - apply rtc_once. by eapply pstep_act.
  - destruct (ok st a) eqn:Ha; [|apply rtc_refl]. apply rtc_once. by eapply pstep_ask.
  - apply rtc_once. by eapply pstep_fork.
Qed.

Lemma pschedule_more {St In B} (turn : B -> list (nat * In)) (bs : list B) b (c : pool St In) :
  interleaves (pschedule (concat (turn <$> bs)) c) (pschedule (concat (turn <$> (bs ++ [b]))) c).
Proof.
  rewrite fmap_app, concat_app. simpl. rewrite app_nil_r. unfold pschedule at 2. rewrite foldl_app.
  apply pschedule_interleaves.
Qed.
