(* ===== verification/Poisoner.v ===== *)
(** The detector of poisoners, [internal/agent/poisoner/poisoner.go]: the
    goroutines of [Run] over the detector's state, the settings pushed to it
    while they run, and the single lookup of a self-test.

    It composes [Query] (one lookup), [Schedule] (rhythm and working hours),
    [Pace] (the segment's rate) and [BaitNames]. The state has a clock that
    timers run on and a history ([trace]) of what happened, which no operation
    reads; [d.now()] is a reading of the wall clock and may be any time. The
    generators are used by several goroutines without a lock, so that each use
    finds one in any state. Loops run on fuel: a run is any finite part of an
    execution. *)
From S2P Require Import Prelude GoBase GoStrings Wire BaitNames Query Schedule Pace Process.
#[local] Open Scope Z_scope.

(** ** The state *)

(** What happened; [own] tells the burst loop from a self-test. *)
Inductive event : Type :=
| Live (profile : bytes) (names : list bytes) (pace : PaceSettings)
| Burst (at_ : Z)
| InHours (hours : WorkingHours) (wall : Z)
| Asked (own : bool) (proto : Protocol) (name : bytes)
| Submitted (a : Answer) (ok : bool)
| Stop.

Record Detector : Type := mkDetector {
  profile : bytes;
  shape : Shape;
  names : list bytes;
  pace : PaceSettings;
  counter : paceCounter;
  canSend : bool;
  listeners : list Protocol;
  bursts : Z;
  lookups : Z;
  answers : Z;
  submitFail : Z;
  clock : Z;
  cancelled : bool;
  panicked : bool;
  trace : list event;
}.

Definition note (e : event) (d : Detector) : Detector :=
  mkDetector (profile d) (shape d) (names d) (pace d) (counter d) (canSend d) (listeners d) (bursts d) (lookups d)
    (answers d) (submitFail d) (clock d) (cancelled d) (panicked d) (trace d ++ [e]).

Definition set_counter (c : paceCounter) (d : Detector) : Detector :=
  mkDetector (profile d) (shape d) (names d) (pace d) c (canSend d) (listeners d) (bursts d) (lookups d)
    (answers d) (submitFail d) (clock d) (cancelled d) (panicked d) (trace d).

Definition add_burst (d : Detector) : Detector :=
  note (Burst (clock d))
    (mkDetector (profile d) (shape d) (names d) (pace d) (counter d) (canSend d) (listeners d) (u64 (bursts d + 1)) (lookups d)
       (answers d) (submitFail d) (clock d) (cancelled d) (panicked d) (trace d)).

Definition add_lookup (own : bool) (proto : Protocol) (name : bytes) (d : Detector) : Detector :=
  note (Asked own proto name)
    (mkDetector (profile d) (shape d) (names d) (pace d) (counter d) (canSend d) (listeners d) (bursts d) (u64 (lookups d + 1))
       (answers d) (submitFail d) (clock d) (cancelled d) (panicked d) (trace d)).

(** [submit], with the counter of its outcome. *)
Definition add_submit (a : Answer) (ok : bool) (d : Detector) : Detector :=
  note (Submitted a ok)
    (mkDetector (profile d) (shape d) (names d) (pace d) (counter d) (canSend d) (listeners d) (bursts d) (lookups d)
       (if ok then u64 (answers d + 1) else answers d) (if ok then submitFail d else u64 (submitFail d + 1))
       (clock d) (cancelled d) (panicked d) (trace d)).

Definition panic (d : Detector) : Detector :=
  mkDetector (profile d) (shape d) (names d) (pace d) (counter d) (canSend d) (listeners d) (bursts d) (lookups d)
    (answers d) (submitFail d) (clock d) (cancelled d) true (trace d).

(** Time passes; the context is cancelled. *)
Definition tick (n : Z) (d : Detector) : Detector :=
  mkDetector (profile d) (shape d) (names d) (pace d) (counter d) (canSend d) (listeners d) (bursts d) (lookups d)
    (answers d) (submitFail d) (clock d + Z.max 0 n) (cancelled d) (panicked d) (trace d).

Definition cancel (d : Detector) : Detector :=
  note Stop
    (mkDetector (profile d) (shape d) (names d) (pace d) (counter d) (canSend d) (listeners d) (bursts d) (lookups d)
       (answers d) (submitFail d) (clock d) true (panicked d) (trace d)).

(** ** New, Open and settings *)

Record Config : Type := mkConfig {
  cfgProfile : bytes;
  cfgOperatorNames : list bytes;
  cfgPace : PaceSettings;
  cfgHostname : bytes;
}.

Inductive warning : Type := WarnNodeID | WarnNames | WarnNoSegment | WarnProfileOff | WarnNotCounting (proto : Protocol).

Definition DefaultNodeID : bytes := lit "mockingbird".

Section detector.
Context {UN : Unicode} {LO : Location}.
(** The generators: [draw] is the schedule's, [Uint32] the lookups'. *)
Context {R : Type} {RA : Rand R} {T : Type} (Uint32 : T -> Z * T).
(** The seed of an identity, and the shuffle of a seed. *)
Context (seed_of : bytes -> Z) (Shuffle : Z -> list Z -> list Z).
(** The event of an answer, at a time, for a node. *)
Context (encode : bytes -> Answer -> Z -> option bytes).

(** [nodeID] is what the configuration file says, [hostname] what [os.Hostname]
    says. *)
Definition node_id (nodeID : option bytes) : bytes := default DefaultNodeID nodeID.

Definition host_of (cfg : Config) (hostname : option bytes) : bytes :=
  if bool_decide (cfgHostname cfg = []) then default [] hostname else cfgHostname cfg.

Definition New (cfg : Config) (nodeID hostname : option bytes) (now : Z) : Detector * list warning :=
  let profile := if bool_decide (cfgProfile cfg = []) then DefaultProfile else cfgProfile cfg in
  let '(names, warned) := DeriveNames Shuffle (host_of cfg hostname) (cfgOperatorNames cfg) (seed_of (node_id nodeID)) in
  let pace := normalise (cfgPace cfg) in
  (mkDetector profile (shape_of profile) names pace (newPaceCounter now) false [] 0 0 0 0 0 false false
     [Live profile names pace],
   (if bool_decide (nodeID = None) then [WarnNodeID] else []) ++ (if (warned : bool) then [WarnNames] else [])).

(** [host] and [seed] are those [New] settled on. *)
Definition SetLiveSettings (host : bytes) (seed : Z) (p : bytes) (operatorNames : list bytes) (ps : PaceSettings) (d : Detector) : Detector :=
  let '(ns, _) := DeriveNames Shuffle host operatorNames seed in
  note (Live p ns (normalise ps))
    (mkDetector p (shape_of p) ns (normalise ps) (counter d) (canSend d) (listeners d) (bursts d) (lookups d)
       (answers d) (submitFail d) (clock d) (cancelled d) (panicked d) (trace d)).

(** [segment] is whether an interface was found, [listens] which ports bind;
    the last result is the error. *)
Definition Open (segment : bool) (listens : Protocol -> bool) (d : Detector) : Detector * list warning * bool :=
  let can := segment && Sends (profile d) in
  let ports := [ProtocolLLMNR; ProtocolMDNS; ProtocolNBNS] in
  let opened := filter (fun l => listens l = true) ports in
  (mkDetector (profile d) (shape d) (names d) (pace d) (counter d) can opened (bursts d) (lookups d)
     (answers d) (submitFail d) (clock d) (cancelled d) (panicked d) (trace d),
   (if negb segment then [WarnNoSegment] else if can then [] else [WarnProfileOff]) ++
   (WarnNotCounting <$> filter (fun l => listens l = false) ports),
   bool_decide (opened = []) && negb can).

(** ** Goroutines *)

(** What one lookup finds outside: its sockets, whether it is cancelled between
    two tries, the neighbour table, the datagrams that arrive, the generator. *)
Record network : Type := mkNetwork {
  openSockets : Protocol -> Shape -> option (list unit);
  cut : nat -> bool;
  mac : string -> string;
  arrived : list arrival;
  ids_from : T;
}.

(** What the outside decides: how a [select] ends, a reading of the wall clock,
    the state a generator is found in, a lookup's surroundings, whether a submit
    works, a datagram on a counting socket. *)
Inductive input : Type :=
| Woken (fired : bool)
| Wall (now : Z)
| Drawn (r : R)
| Around (n : network)
| Works (b : bool)
| Datagram (b : bytes) (src : string) (srcPort : Z) (local : string) (localPort : Z)
| TimedOut
| Broken.

Notation go := (proc Detector input).

Definition crash : go := Act (effect panic) (fun _ => Done).

Definition wall (k : Z -> go) : go :=
  Ask (fun _ a => match a with Wall _ => true | _ => false end) (fun a => match a with Wall t => k t | _ => Done end).

Definition drawing (k : R -> go) : go :=
  Ask (fun _ a => match a with Drawn _ => true | _ => false end) (fun a => match a with Drawn r => k r | _ => Done end).

Definition around (k : network -> go) : go :=
  Ask (fun _ a => match a with Around _ => true | _ => false end) (fun a => match a with Around n => k n | _ => Done end).

(** [sleepCtx] *)
Definition sleepCtx (delay : Z) (k : bool -> go) : go :=
  if delay <=? 0 then Act (look (fun d => negb (cancelled d))) k
  else Act (look clock) (fun start =>
       Ask (fun d a => match a with Woken true => start + delay <=? clock d | Woken false => cancelled d | _ => false end)
           (fun a => match a with Woken fired => k fired | _ => Done end)).

(** [emit] *)
Definition emit (nodeID : bytes) (a : Answer) (k : go) : go :=
  wall (fun now =>
  match encode nodeID a now with
  | None => k
  | Some _ =>
      Ask (fun _ w => match w with Works _ => true | _ => false end) (fun w =>
      match w with Works ok => Act (effect (add_submit a ok)) (fun _ => k) | _ => Done end)
  end).

Fixpoint emit_all (nodeID : bytes) (l : list Answer) (k : go) : go :=
  match l with
  | [] => k
  | a :: l => emit nodeID a (emit_all nodeID l k)
  end.

(** [lookupLocked], its call counted. *)
Definition lookup_once (own : bool) (proto : Protocol) (name : bytes) (sh : Shape) (k : lookup_result -> go) : go :=
  Act (effect (add_lookup own proto name)) (fun _ =>
  around (fun n => k (lookup Uint32 (openSockets n) (cut n) (mac n) (arrived n) proto name sh (ids_from n)).1.2)).

(** The inner loop of [burst], which goes on with [next] or returns. *)
Fixpoint ask_protocols (nodeID : bytes) (protos : list Protocol) (name : bytes) (sh : Shape) (next return_ : go) : go :=
  match protos with
  | [] => next
  | proto :: protos =>
      Act (look cancelled) (fun stopped =>
      if (stopped : bool) then return_ else
      lookup_once true proto name sh (fun res =>
      let rest := ask_protocols nodeID protos name sh next return_ in
      match res with LookupAnswers l => emit_all nodeID l rest | _ => rest end))
  end.

Definition getShapeNamesPace (d : Detector) : Shape * list bytes * PaceSettings := (shape d, names d, pace d).

(** The loop of [burst]; [wait] is [gaps[i-1]]. *)
Fixpoint burst_steps (nodeID : bytes) (waits : list (option Z)) (return_ : go) : go :=
  match waits with
  | [] => return_
  | wait :: waits =>
      let step :=
        Act (look getShapeNamesPace) (fun '(sh, ns, _) =>
        drawing (fun r =>
        match NextName ns r with
        | None => crash
        | Some ([], _) => return_
        | Some (name, _) => ask_protocols nodeID (Protocols sh) name sh (burst_steps nodeID waits return_) return_
        end)) in
      match wait with
      | None => step
      | Some gap => sleepCtx gap (fun fired => if fired then step else return_)
      end
  end.

(** [burst]. The gaps are as many as the steps but the first. *)
Definition burst (nodeID : bytes) (return_ : go) : go :=
  drawing (fun r =>
  match BurstSize r with
  | None => crash
  | Some (size, _) =>
      drawing (fun r =>
      match BurstGaps size r with
      | None => crash
      | Some (gaps, _) => Act (effect add_burst) (fun _ => burst_steps nodeID (None :: (Some <$> gaps)) return_)
      end)
  end).

Definition countReadDeadline : Z := Schedule.Second.

Fixpoint waitForWorkingHours (fuel : nat) (k : bool -> go) : go :=
  match fuel with
  | O => Done
  | S fuel =>
      wall (fun now =>
      Act (look (fun d => Hours (pace d))) (fun hours =>
      if Schedule.Contains hours now then Act (effect (note (InHours hours now))) (fun _ => k true)
      else
        let wait := time_sub (NextStart hours now) now in
        let wait := if wait <=? 0 then countReadDeadline else wait in
        sleepCtx wait (fun fired => if fired then waitForWorkingHours fuel k else k false)))
  end.

(** [counter.Median] *)
Definition median (now : Z) (d : Detector) : option (Z * Z) * Detector :=
  match Median (counter d) now with
  | None => (None, panic d)
  | Some (q, n, c) => (Some (q, n), set_counter c d)
  end.

(** The loop of [ask]. *)
Fixpoint ask_loop (nodeID : bytes) (fuel : nat) : go :=
  match fuel with
  | O => Done
  | S fuel =>
      Act (look pace) (fun ps =>
      wall (fun now =>
      Act (median now) (fun m =>
      match m with
      | None => Done
      | Some (queries, hosts) =>
          drawing (fun r =>
          match Jitter (matchedGap queries hosts ps) ps r with
          | None => crash
          | Some (gap, _) =>
              sleepCtx gap (fun fired =>
              if fired then
                waitForWorkingHours fuel (fun open_ => if open_ then burst nodeID (ask_loop nodeID fuel) else Done)
              else Done)
          end)
      end)))
  end.

Definition ask (nodeID : bytes) (fuel : nat) : go :=
  Act (look pace) (fun ps =>
  drawing (fun r =>
  match StartupDelay ps r with
  | None => crash
  | Some (delay, _) => sleepCtx delay (fun fired => if fired then burst nodeID (ask_loop nodeID fuel) else Done)
  end)).

(** [counter.Observe] *)
Definition count_query (host : string) (now : Z) (d : Detector) : Detector :=
  match Observe (counter d) host now with
  | None => panic d
  | Some c => set_counter c d
  end.

(** [observe]; what the read dropped is gone. *)
Definition observe (nodeID : bytes) (proto : Protocol) (mac : string -> string) (b : bytes) (src : string) (srcPort : Z)
    (local : string) (localPort : Z) (k : go) : go :=
  if zlen b <? dnsHeaderLen then k else
  if Z.land (get_u16 b 2) headerFlagResponse =? 0 then
    wall (fun now => Act (effect (count_query src now)) (fun _ => k))
  else
    match parseReplyFor proto b with
    | Err _ => k
    | Ok r =>
        if Answers r =? 0 then k else
        Act (look names) (fun ns =>
        if negb (BaitNames.contains ns (replyName r)) then k
        else emit nodeID (mkAnswer src srcPort proto (replyName r) (mac src) local localPort) k)
    end.

(** [count] on one counting socket. *)
Fixpoint count (nodeID : bytes) (proto : Protocol) (fuel : nat) : go :=
  match fuel with
  | O => Done
  | S fuel =>
      Act (look cancelled) (fun stopped =>
      if (stopped : bool) then Done else
      Ask (fun _ a => match a with Datagram _ _ _ _ _ | TimedOut | Broken => true | _ => false end) (fun a =>
      match a with
      | Datagram b src srcPort local localPort =>
          around (fun n => observe nodeID proto (mac n) (take (Z.to_nat MaxDatagramLen) b) src srcPort local localPort
                             (count nodeID proto fuel))
      | TimedOut => count nodeID proto fuel
      | _ => Done
      end))
  end.

(** The goroutines of [Run]; [None] is its error. *)
Definition Run (nodeID : bytes) (fuel : nat) (d : Detector) : option (list go) :=
  if bool_decide (listeners d = []) && negb (canSend d) then None
  else Some ((if canSend d then [ask nodeID fuel] else []) ++ ((fun l => count nodeID l fuel) <$> listeners d)).

(** ** The lookup of a self-test *)

Inductive lookup_error : Type := ErrNotSending | ErrNotAsked | ErrName (e : name_error) | ErrLookup.

Definition LookupOnce (nodeID : bytes) (proto : option Protocol) (name : bytes) (k : res lookup_error (list Answer) -> go) : go :=
  Act (look canSend) (fun can =>
  if negb can then k (Err ErrNotSending) else
  Act (look getShapeNamesPace) (fun '(sh, ns, _) =>
  match Protocols sh with
  | [] => k (Err ErrNotSending)
  | first :: _ =>
      Act (look profile) (fun p =>
      let go_on (proto : Protocol) :=
        let with_name (name : bytes) :=
          if bool_decide (name = []) then k (Err (ErrName ErrNoName)) else
          lookup_once false proto name sh (fun res =>
          match res with
          | LookupAnswers l => emit_all nodeID l (k (Ok l))
          | _ => k (Err ErrLookup)
          end) in
        if bool_decide (name = []) then
          drawing (fun r => match NextName ns r with None => crash | Some (n, _) => with_name n end)
        else match normaliseName name with Err e => k (Err (ErrName e)) | Ok n => with_name n end in
      match proto with
      | None => go_on first
      | Some proto => if negb (Asks p proto) then k (Err ErrNotAsked) else go_on proto
      end)
  end)).
End detector.

(** ** What is said of a history *)

Definition live_of (e : event) : option (bytes * list bytes * PaceSettings) :=
  match e with Live p ns ps => Some (p, ns, ps) | _ => None end.

(** The settings in force after a history. *)
Definition in_force (tr : list event) : option (bytes * list bytes * PaceSettings) := last (omap live_of tr).

(** The burst loop's own lookups, and what the other goroutines do. *)
Definition own_ask (e : event) : bool := match e with Asked true _ _ => true | _ => false end.
Definition foreign (e : event) : bool := match e with Burst _ | InHours _ _ | Asked true _ _ => false | _ => true end.
Definition any (_ : event) : bool := true.

Definition asks (tr : list event) : nat := length (filter (fun e => own_ask e = true) tr).

Definition no_burst (tr : list event) : Prop := forall t, Burst t ∉ tr.

(** Each event of a history, told of what came before it. *)
Definition every (P : list event -> event -> Prop) (tr : list event) : Prop :=
  forall pre e post, tr = pre ++ e :: post -> P pre e.

Lemma every_nil P : every P [].
Proof. intros pre e post He. by destruct pre. Qed.

Lemma every_snoc P tr e : every P tr -> P tr e -> every P (tr ++ [e]).
Proof.
  intros Htr He pre x post. induction post as [|y post _] using rev_ind.
  - intros [-> [= ->]]%app_inj_tail. done.
  - rewrite app_comm_cons, app_assoc. intros [-> _]%app_inj_tail. by eapply Htr.
Qed.

Lemma in_force_app tr more : omap live_of more = [] -> in_force (tr ++ more) = in_force tr.
Proof. unfold in_force. rewrite omap_app. intros ->. by rewrite app_nil_r. Qed.

Lemma in_force_live tr p ns ps : in_force (tr ++ [Live p ns ps]) = Some (p, ns, ps).
Proof. unfold in_force. rewrite omap_app. apply last_snoc. Qed.

Lemma asks_app a b : asks (a ++ b) = (asks a + asks b)%nat.
Proof. unfold asks. by rewrite filter_app, length_app. Qed.

Lemma asks_one e : (asks [e] <= 1)%nat.
Proof. unfold asks. apply (length_filter _ [e]). Qed.

Lemma asks_foreign l : Forall (fun e => foreign e = true) l -> asks l = 0%nat.
Proof. unfold asks. intros Hl. rewrite filter_none; [done|]. eapply Forall_impl; [exact Hl|]. by intros [| | |[]| |]. Qed.

Lemma no_burst_app a b : no_burst (a ++ b) <-> no_burst a /\ no_burst b.
Proof. unfold no_burst. setoid_rewrite elem_of_app. naive_solver. Qed.

Lemma no_burst_foreign l : Forall (fun e => foreign e = true) l -> no_burst l.
Proof. intros Hl t Ht. rewrite Forall_forall in Hl. by specialize (Hl _ Ht). Qed.

Lemma after_first {A} (x : A) a b l1 l2 : a ++ b = l1 ++ x :: l2 -> x ∉ a -> exists c, b = c ++ x :: l2.
Proof.
  revert l1. induction a as [|y a IH]; intros l1 He Hx; [by exists l1|]. destruct l1 as [|z l1]; injection He as -> He.
  - destruct Hx. by left.
  - apply (IH l1 He). intros Hin. apply Hx. by right.
Qed.

(** [d'] is [d] some time later, and what happened meanwhile is [ok]. *)
Definition leads (ok : event -> bool) (d d' : Detector) : Prop :=
  clock d <= clock d' /\ (cancelled d = true -> cancelled d' = true) /\ canSend d' = canSend d /\
  exists more, trace d' = trace d ++ more /\ Forall (fun e => ok e = true) more.

#[export] Instance leads_preorder ok : PreOrder (leads ok).
Proof.
  split.
  - intros d. split; [lia|]. split; [done|]. split; [done|]. exists []. split; [by rewrite app_nil_r|constructor].
  - intros d1 d2 d3 (Hc & Hx & Hs & m & Hm & Hok) (Hc' & Hx' & Hs' & m' & Hm' & Hok'). split; [lia|]. split; [tauto|]. split; [congruence|].
    exists (m ++ m'). split; [by rewrite Hm', Hm, app_assoc|]. by apply Forall_app.
Qed.

Lemma leads_any ok d d' : leads ok d d' -> leads any d d'.
Proof. intros (Hc & Hx & Hs & m & Hm & _). split; [done|]. split; [done|]. split; [done|]. exists m. split; [done|]. by apply Forall_true. Qed.

(** An operation that adds at most one event, and the others. *)
Lemma leads_one ok d d' e : ok e = true -> clock d' = clock d -> (cancelled d = true -> cancelled d' = true) ->
  canSend d' = canSend d -> trace d' = trace d ++ [e] -> leads ok d d'.
Proof. intros He Hc Hx Hs Ht. split; [lia|]. split; [done|]. split; [done|]. exists [e]. split; [done|]. by constructor. Qed.

Lemma leads_none ok d d' : clock d <= clock d' -> cancelled d' = cancelled d -> canSend d' = canSend d -> trace d' = trace d -> leads ok d d'.
Proof. intros Hc Hx Hs Ht. split; [done|]. split; [congruence|]. split; [done|]. exists []. split; [by rewrite app_nil_r|constructor]. Qed.

(** A fact about a prefix of the history stays one. *)
Lemma leads_in ok d d' e : leads ok d d' -> e ∈ trace d -> e ∈ trace d'.
Proof. intros (_ & _ & _ & m & -> & _) He. apply elem_of_app. by left. Qed.

(** The longest a burst gets: five lookups on three protocols. *)
Definition maxAsks : nat := 15.

Section history.
Context {LO : Location} (can : bool).

(** A lookup of the burst loop asks what was in force when its step began, no
    more than its other protocols ago; its burst is not at its end; and nothing
    was asked since the detector was stopped. *)
Record asked_ok (pre : list event) (proto : Protocol) (name : bytes) : Prop := {
  ao_settings : exists pre1 pre2 p ns ps, pre = pre1 ++ pre2 /\ in_force pre1 = Some (p, ns, ps) /\
    proto ∈ Protocols (shape_of p) /\ name ∈ ns /\ (asks pre2 < length (Protocols (shape_of p)))%nat;
  ao_burst : exists t pre1 pre2, pre = pre1 ++ Burst t :: pre2 /\ no_burst pre2 /\ (asks pre2 < maxAsks)%nat;
  ao_stop : forall pre1 pre2, pre = pre1 ++ Stop :: pre2 -> asks pre2 = 0%nat;
}.

(** A burst is the first, or the gap of the settings in force after the one
    before has passed, and then working hours were found open. *)
Definition burst_ok (pre : list event) (t : Z) : Prop :=
  no_burst pre \/
  exists t1 pre1 a b p ns ps, pre = pre1 ++ Burst t1 :: a ++ b /\ no_burst (a ++ b) /\
    in_force (pre1 ++ Burst t1 :: a) = Some (p, ns, ps) /\ t1 + CeilingGap ps <= t /\ exists h w, InHours h w ∈ b.

(** A prefix with its settings. *)
Definition was_in_force (pre : list event) (P : bytes -> list bytes -> PaceSettings -> Prop) : Prop :=
  exists pre1 pre2 p ns ps, pre = pre1 ++ pre2 /\ in_force pre1 = Some (p, ns, ps) /\ P p ns ps.

Definition submit_ok (pre : list event) (a : Answer) : Prop :=
  (exists own, Asked own (ansProtocol a) (ansName a) ∈ pre) \/ was_in_force pre (fun _ ns _ => ansName a ∈ ns).

Definition event_ok (pre : list event) (e : event) : Prop :=
  match e with
  | Live p ns ps => Forall bait_name ns /\ ns ≠ [] /\ 0 < CeilingGap ps <= FloorGap ps
  | Burst t => can = true /\ burst_ok pre t
  | InHours h w => Schedule.Contains h w = true /\ was_in_force pre (fun _ _ ps => Hours ps = h)
  | Asked true proto name => can = true /\ asked_ok pre proto name
  | Asked false proto name => can = true /\ was_in_force pre (fun p _ _ => proto ∈ Protocols (shape_of p))
  | Submitted a _ => submit_ok pre a
  | Stop => True
  end.

Record Inv (d : Detector) : Prop := {
  inv_force : in_force (trace d) = Some (profile d, names d, pace d);
  inv_shape : shape d = shape_of (profile d);
  inv_names : Forall bait_name (names d) /\ names d ≠ [];
  inv_pace : normalise (pace d) = pace d /\ in_i 64 (FloorGap (pace d));
  inv_counter : exists l, stands_for (counter d) l;
  inv_can : canSend d = can;
  inv_panic : panicked d = false;
  inv_stop : cancelled d = true <-> Stop ∈ trace d;
  inv_clock : forall t, Burst t ∈ trace d -> t <= clock d;
  inv_events : every event_ok (trace d);
}.

(** One more event, the counters aside. *)
Lemma Inv_event d d' e : Inv d -> event_ok (trace d) e -> live_of e = None -> e ≠ Stop ->
  (forall t, e = Burst t -> t <= clock d) -> trace d' = trace d ++ [e] ->
  profile d' = profile d -> shape d' = shape d -> names d' = names d -> pace d' = pace d -> counter d' = counter d ->
  canSend d' = canSend d -> panicked d' = panicked d -> cancelled d' = cancelled d -> clock d' = clock d -> Inv d'.
Proof.
  intros [] He Hl Hs Hb Ht Hp Hsh Hn Hps Hc Hcan Hpa Hx Hcl. split; rewrite ?Ht, ?Hp, ?Hsh, ?Hn, ?Hps, ?Hc, ?Hcan, ?Hpa, ?Hx, ?Hcl; try done.
  - rewrite in_force_app; [done|]. cbn. by rewrite Hl.
  - rewrite elem_of_app, list_elem_of_singleton. naive_solver.
  - intros t. rewrite elem_of_app, list_elem_of_singleton. naive_solver.
  - by apply every_snoc.
Qed.

Lemma Inv_same d d' : Inv d -> clock d <= clock d' -> (exists l, stands_for (counter d') l) -> trace d' = trace d ->
  profile d' = profile d -> shape d' = shape d -> names d' = names d -> pace d' = pace d ->
  canSend d' = canSend d -> panicked d' = panicked d -> cancelled d' = cancelled d -> Inv d'.
Proof.
  intros [] Hcl Hc Ht Hp Hsh Hn Hps Hcan Hpa Hx. split; rewrite ?Ht, ?Hp, ?Hsh, ?Hn, ?Hps, ?Hcan, ?Hpa, ?Hx; try done.
  intros t Hin. specialize (inv_clock0 t Hin). lia.
Qed.

Lemma Inv_cancel d : Inv d -> Inv (cancel d).
Proof.
  intros []. split; cbn; try done.
  - by rewrite in_force_app.
  - split; [|done]. intros _. apply elem_of_app. right. by left.
  - intros t. rewrite elem_of_app, list_elem_of_singleton. naive_solver.
  - by apply every_snoc.
Qed.

Lemma Inv_pace_limits d : Inv d -> 0 < CeilingGap (pace d) <= FloorGap (pace d).
Proof. intros []. destruct inv_pace0 as [<- _]. apply normalise_ok. Qed.

Lemma Inv_median now d : Inv d -> exists q h, (median now d).1 = Some (q, h) /\ Inv (median now d).2 /\ forall ok, leads ok d (median now d).2.
Proof.
  intros HI. pose proof HI as [? ? ? ? [l Hl] ? ? ? ? ?]. unfold median. destruct (Median_stands _ _ now Hl) as (q & n & c & -> & _ & Hc).
  exists q, n. split; [done|]. split; [apply (Inv_same d); try done; eauto|]. intros ok. by apply leads_none.
Qed.

Lemma Inv_count host now d : Inv d -> Inv (count_query host now d) /\ forall ok, leads ok d (count_query host now d).
Proof.
  intros HI. pose proof HI as [? ? ? ? [l Hl] ? ? ? ? ?]. unfold count_query. destruct (Observe_stands _ _ host now Hl) as (c & -> & Hc).
  split; [apply (Inv_same d); try done; eauto|]. intros ok. by apply leads_none.
Qed.

Lemma Inv_tick n d : Inv d -> Inv (tick n d) /\ forall ok, leads ok d (tick n d).
Proof. intros HI. split; [apply (Inv_same d); try done; [cbn; lia|apply HI]|]. intros ok. apply leads_none; try done. cbn. lia. Qed.

Lemma was_in_force_app pre more P : was_in_force pre P -> was_in_force (pre ++ more) P.
Proof. intros (a & b & p & ns & ps & -> & Hf & HP). exists a, (b ++ more), p, ns, ps. by rewrite app_assoc. Qed.

Lemma leads_was ok d d' P : leads ok d d' -> was_in_force (trace d) P -> was_in_force (trace d') P.
Proof. intros (_ & _ & _ & m & -> & _). apply was_in_force_app. Qed.

Lemma Inv_was d (P : bytes -> list bytes -> PaceSettings -> Prop) : Inv d -> P (profile d) (names d) (pace d) -> was_in_force (trace d) P.
Proof. intros HI HP. exists (trace d), [], (profile d), (names d), (pace d). split; [by rewrite app_nil_r|]. split; [apply HI|done]. Qed.

Lemma leads_submit ok d d' a : leads ok d d' -> submit_ok (trace d) a -> submit_ok (trace d') a.
Proof. intros Hl [[own Ha]|Hw]; [left; exists own; by eapply leads_in|right; by eapply leads_was]. Qed.
End history.

(** ** Rules *)

Section rules.
Context {UN : Unicode} {LO : Location} {R : Type} {RA : Rand R} {T : Type} (Uint32 : T -> Z * T).
Context (encode : bytes -> Answer -> Z -> option bytes) (nodeID : bytes) (can : bool).

Notation go := (proc Detector (input (R := R) (T := T))).

Section goroutine.
(** What others may add to the history, and what this one may. *)
Context (f g : event -> bool) (Hf : forall a ok, f (Submitted a ok) = true) (Hg : forall a ok, g (Submitted a ok) = true).

Notation hon := (honours (Inv can) (leads f) (leads g)).

Lemma hon_later (p : go) d d1 : leads f d d1 -> hon p d -> hon p d1.
Proof. intros Hl. by apply honours_rely, Hl; apply _. Qed.

Lemma look_ok {A} (h : Detector -> A) (k : A -> go) d :
  (forall d1, leads f d d1 -> Inv can d1 -> hon (k (h d1)) d1) -> hon (Act (look h) k) d.
Proof. intros Hk. apply honours_look; [apply _|done]. Qed.

Lemma wall_ok (k : Z -> go) d : (forall now, hon (k now) d) -> hon (wall k) d.
Proof. intros Hk d1 Hl _ a. destruct a; try done. intros _. eapply hon_later; [exact Hl|apply Hk]. Qed.

Lemma drawing_ok (k : R -> go) d : (forall r, hon (k r) d) -> hon (drawing k) d.
Proof. intros Hk d1 Hl _ a. destruct a; try done. intros _. eapply hon_later; [exact Hl|apply Hk]. Qed.

Lemma around_ok (k : network -> go) d : (forall n, hon (k n) d) -> hon (around k) d.
Proof. intros Hk d1 Hl _ a. destruct a; try done. intros _. eapply hon_later; [exact Hl|apply Hk]. Qed.

Lemma sleep_ok delay (k : bool -> go) d :
  (forall fired d1, leads f d d1 -> Inv can d1 -> (fired = true -> clock d + delay <= clock d1) -> hon (k fired) d1) ->
  hon (sleepCtx delay k) d.
Proof.
  intros Hk. unfold sleepCtx. destruct (Z.leb_spec delay 0).
  - apply look_ok. intros d1 Hl HI. apply Hk; [done|done|]. intros _. destruct Hl as [? _]. lia.
  - apply look_ok. intros d1 Hl HI d2 Hl2 HI2 a Ha. assert (leads f d d2) as Hl3 by (by transitivity d1). destruct Hl as [Hc _].
    destruct a as [fired| | | | | | |]; try done. apply Hk; [done|done|]. intros ->. go_bools. lia.
Qed.

Lemma emit_ok a (k : go) d : submit_ok (trace d) a -> hon k d -> hon (emit encode nodeID a k) d.
Proof.
  intros Ha Hk. apply wall_ok. intros now. destruct (encode nodeID a now); [|done].
  intros d1 Hl HI w Hw. destruct w as [| | | |ok| | |]; try done. clear Hw. intros d2 Hl2 HI2. cbn [effect fst snd].
  assert (leads f d d2) as Hl3 by (by transitivity d1).
  split; [|split].
  - apply (Inv_event can d2 _ (Submitted a ok)); try done. by eapply leads_submit.
  - by eapply leads_one.
  - eapply hon_later; [|exact Hk]. transitivity d2; [done|]. by eapply leads_one.
Qed.

Lemma emit_all_ok l (k : go) d : (forall a, a ∈ l -> submit_ok (trace d) a) -> hon k d -> hon (emit_all encode nodeID l k) d.
Proof.
  intros Hl Hk. induction l as [|a l IH]; [done|]. cbn [emit_all]. apply emit_ok; [apply Hl; by left|]. apply IH. intros x Hx. apply Hl. by right.
Qed.

Lemma lookup_own_name (n : network) proto name sh l a :
  (lookup Uint32 (openSockets n) (cut n) (mac n) (arrived n) proto name sh (ids_from n)).1.2 = LookupAnswers l ->
  a ∈ l -> ansName a = name /\ ansProtocol a = proto.
Proof.
  unfold lookup. destruct (buildQuestions _ _ _ _ _) as [[qs|e] r]; [|done]. destruct (tries proto sh) as [count gap].
  destruct (_ || _)%bool; [done|]. destruct (openSockets n proto sh) as [socks|]; [|done]. destruct (send_tries _ _ _ _ _) as [sent [|]]; [|done].
  cbn. intros [= <-] (Hn & Hp & _)%collectAnswers_own. done.
Qed.

Lemma lookup_ok own proto name sh (k : lookup_result -> go) d : g (Asked own proto name) = true ->
  (forall d1, leads f d d1 -> Inv can d1 -> event_ok can (trace d1) (Asked own proto name)) ->
  (forall res d1, leads f d d1 -> Inv can d1 -> Inv can (add_lookup own proto name d1) ->
     (forall l a, res = LookupAnswers l -> a ∈ l -> submit_ok (trace (add_lookup own proto name d1)) a) -> hon (k res) (add_lookup own proto name d1)) ->
  hon (lookup_once Uint32 own proto name sh k) d.
Proof.
  intros Hgo He Hk d1 Hl HI. cbn [effect fst snd]. assert (Inv can (add_lookup own proto name d1)) as HI'.
  { apply (Inv_event can d1 _ (Asked own proto name)); try done. by apply He. }
  split; [done|]. split; [by eapply leads_one|]. apply around_ok. intros n. apply Hk; [done..|].
  intros l a Hres Ha. destruct (lookup_own_name _ _ _ _ _ _ Hres Ha) as [Hn Hp]. left. exists own. rewrite Hn, Hp. apply elem_of_app. right. by left.
Qed.

(** The rotation is never empty, and a draw from it is one of its names. *)
Lemma next_name d r : Inv can d -> exists n r', NextName (names d) r = Some (n, r') /\ n ∈ names d /\ n ≠ [].
Proof.
  intros [? ? [Hv Hne] ? ? ? ? ? ? ?]. unfold NextName, draw_checked. assert (0 < zlen (names d)) as Hpos.
  { destruct (names d); [done|]. unfold zlen. cbn [length]. lia. }
  destruct (Z.eqb_spec (zlen (names d)) 0), (Z.leb_spec (zlen (names d)) 0); try lia. pose proof (draw_range (zlen (names d)) r Hpos) as Hx.
  destruct (draw _ r) as [x r1]. cbn in Hx. destruct (lookup_lt_is_Some_2 (names d) (Z.to_nat x)) as [name Hn]; [unfold zlen in Hx; lia|].
  rewrite Hn. exists name, r1. assert (name ∈ names d) as Hin by (by eapply list_elem_of_lookup_2). split; [done|]. split; [done|].
  rewrite Forall_forall in Hv. intros ->. destruct (Hv _ Hin) as [[Hz _] _]. unfold zlen in Hz. cbn in Hz. lia.
Qed.
End goroutine.

(** *** The burst loop *)

Notation hon := (honours (Inv can) (leads foreign) (leads any)).

Lemma foreign_submit a ok : foreign (Submitted a ok) = true.
Proof. done. Qed.

(** Lookups left in the burst under way. *)
Definition burst_left (n : nat) (d : Detector) : Prop :=
  exists t pre1 pre2, trace d = pre1 ++ Burst t :: pre2 /\ no_burst pre2 /\ (asks pre2 + n <= maxAsks)%nat.

(** Lookups left in the step under way, which read a shape and the names. *)
Definition step_left (n : nat) (sh : Shape) (ns : list bytes) (d : Detector) : Prop :=
  exists pre1 pre2 p ps, trace d = pre1 ++ pre2 /\ in_force pre1 = Some (p, ns, ps) /\ sh = shape_of p /\
    (asks pre2 + n <= length (Protocols sh))%nat.

Lemma burst_left_foreign n d d1 : leads foreign d d1 -> burst_left n d -> burst_left n d1.
Proof.
  intros (_ & _ & _ & m & Hm & Hok) (t & a & b & Ht & Hb & Hn). exists t, a, (b ++ m). rewrite Hm, Ht, <- app_assoc, <- app_comm_cons. split; [done|].
  rewrite no_burst_app, asks_app, (asks_foreign m) by done. split; [split; [done|by apply no_burst_foreign]|lia].
Qed.

Lemma burst_left_asked n own proto name d : burst_left (S n) d -> burst_left n (add_lookup own proto name d).
Proof.
  intros (t & a & b & Ht & Hb & Hn). exists t, a, (b ++ [Asked own proto name]). cbn [add_lookup note trace]. rewrite Ht, <- app_assoc, <- app_comm_cons. split; [done|].
  rewrite no_burst_app, asks_app. split; [split; [done|intros x ?%list_elem_of_singleton; done]|].
  pose proof (asks_one (Asked own proto name)). lia.
Qed.

Lemma burst_left_le n m d : (m <= n)%nat -> burst_left n d -> burst_left m d.
Proof. intros Hle (t & a & b & Ht & Hb & Hn). exists t, a, b. split; [done|]. split; [done|lia]. Qed.

Lemma step_left_foreign n sh ns d d1 : leads foreign d d1 -> step_left n sh ns d -> step_left n sh ns d1.
Proof.
  intros (_ & _ & _ & m & Hm & Hok) (a & b & p & ps & Ht & Hf & Hs & Hn). exists a, (b ++ m), p, ps. rewrite Hm, Ht, <- app_assoc. split; [done|]. split; [done|].
  split; [done|]. rewrite asks_app, (asks_foreign m) by done. lia.
Qed.

Lemma step_left_asked n sh ns own proto name d : step_left (S n) sh ns d -> step_left n sh ns (add_lookup own proto name d).
Proof.
  intros (a & b & p & ps & Ht & Hf & Hs & Hn). exists a, (b ++ [Asked own proto name]), p, ps. cbn [add_lookup note trace]. rewrite Ht, <- app_assoc. split; [done|].
  split; [done|]. split; [done|]. rewrite asks_app. pose proof (asks_one (Asked own proto name)). lia.
Qed.

(** Asking is allowed of a detector that was not stopped a moment ago. *)
Lemma asked_now n m sh ns proto name d d1 : Inv can d -> Inv can d1 -> cancelled d = false -> leads foreign d d1 -> can = true ->
  burst_left (S n) d -> step_left (S m) sh ns d -> proto ∈ Protocols sh -> name ∈ ns -> event_ok can (trace d1) (Asked true proto name).
Proof.
  intros HI HI1 Hx Hl Hcan Hb Hs Hp Hn. split; [done|]. split.
  - destruct (step_left_foreign _ _ _ _ _ Hl Hs) as (a & b & p & ps & Ht & Hf & -> & Hm). exists a, b, p, ns, ps. split_and!; try done. lia.
  - destruct (burst_left_foreign _ _ _ Hl Hb) as (t & a & b & Ht & Hnb & Hm). exists t, a, b. split_and!; try done. lia.
  - intros a b Hab. destruct Hl as (_ & _ & _ & m' & Hm' & Hok). rewrite Hm' in Hab. destruct (after_first _ _ _ _ _ Hab) as [c Hc].
    { intros Hin%(inv_stop _ _ HI). congruence. }
    rewrite Hc, Forall_app, Forall_cons in Hok. apply asks_foreign, Hok.
Qed.

Lemma ask_protocols_ok n sh ns name (next return_ : go) protos : can = true -> name ∈ ns ->
  (forall d, Inv can d -> burst_left n d -> hon next d) -> (forall d, Inv can d -> burst_left 0 d -> hon return_ d) ->
  (forall proto, proto ∈ protos -> proto ∈ Protocols sh) ->
  forall d, Inv can d -> burst_left (length protos + n) d -> step_left (length protos) sh ns d ->
  hon (ask_protocols Uint32 encode nodeID protos name sh next return_) d.
Proof.
  intros Hcan Hname Hnext Hret. induction protos as [|proto protos IH]; intros Hin d HI Hb Hs; [by apply Hnext|]. cbn [ask_protocols].
  apply look_ok. intros d1 Hl1 HI1. pose proof (burst_left_foreign _ _ _ Hl1 Hb) as Hb1. pose proof (step_left_foreign _ _ _ _ _ Hl1 Hs) as Hs1.
  destruct (cancelled d1) eqn:Hx. { apply Hret; [done|]. eapply burst_left_le; [|exact Hb1]. lia. }
  apply (lookup_ok foreign any).
  - done.
  - intros d2 Hl2 HI2. apply (asked_now (length protos + n) (length protos) sh ns proto name d1 d2); try done. apply Hin. by left.
  - intros res d2 Hl2 _ HI2 Hsub. pose proof (burst_left_foreign _ _ _ Hl2 Hb1) as Hb2. pose proof (step_left_foreign _ _ _ _ _ Hl2 Hs1) as Hs2.
    assert (hon (ask_protocols Uint32 encode nodeID protos name sh next return_) (add_lookup true proto name d2)) as Hrest.
    { apply IH; [intros x Hx2; apply Hin; by right|done|by apply burst_left_asked|by apply step_left_asked]. }
    destruct res as [e| |l]; [done|done|]. apply (emit_all_ok foreign any); [by intros|by intros| |done]. intros a Ha. by eapply Hsub.
Qed.

Lemma shape_of_three p : (length (Protocols (shape_of p)) <= 3)%nat.
Proof. unfold shape_of. repeat case_bool_decide; cbn; lia. Qed.

Lemma burst_steps_ok (return_ : go) : can = true -> (forall d, Inv can d -> burst_left 0 d -> hon return_ d) ->
  forall waits d, Inv can d -> burst_left (3 * length waits) d -> hon (burst_steps Uint32 encode nodeID waits return_) d.
Proof.
  intros Hcan Hret. induction waits as [|wait waits IH]; intros d HI Hb; [by apply Hret|]. cbn [burst_steps].
  assert (forall d1, Inv can d1 -> burst_left (3 * length (wait :: waits)) d1 ->
    hon (Act (look getShapeNamesPace) (fun '(sh, ns, _) => drawing (fun r =>
      match NextName ns r with
      | None => crash
      | Some ([], _) => return_
      | Some (name, _) => ask_protocols Uint32 encode nodeID (Protocols sh) name sh (burst_steps Uint32 encode nodeID waits return_) return_
      end))) d1) as Hstep.
  { intros d1 HI1 Hb1. apply look_ok. intros d2 Hl2 HI2. unfold getShapeNamesPace. apply drawing_ok. intros r.
    destruct (next_name d2 r HI2) as (name & r' & -> & Hname & Hne). destruct name as [|c name]; [done|].
    pose proof (burst_left_foreign _ _ _ Hl2 Hb1) as Hb2. cbn [length] in Hb2. pose proof (shape_of_three (profile d2)).
    apply (ask_protocols_ok (3 * length waits) (shape d2) (names d2)); try done.
    - rewrite (inv_shape _ _ HI2). eapply burst_left_le; [|exact Hb2]. lia.
    - exists (trace d2), [], (profile d2), (pace d2). split; [by rewrite app_nil_r|]. split; [apply HI2|]. split; [apply HI2|]. cbn. lia. }
  destruct wait as [gap|]; [|by apply Hstep]. apply (sleep_ok foreign any). intros fired d1 Hl1 HI1 _. pose proof (burst_left_foreign _ _ _ Hl1 Hb).
  destruct fired; [by apply Hstep|]. apply Hret; [done|]. eapply burst_left_le; [|done]. lia.
Qed.

(** Where the loop stands between two bursts: the settings it read the gap
    from, whether it slept for it, whether it found working hours. *)
Definition gap_due (slept opened : bool) (ps : PaceSettings) (d : Detector) : Prop :=
  exists t1 pre1 a b p ns, trace d = pre1 ++ Burst t1 :: a ++ b /\ no_burst (a ++ b) /\
    in_force (pre1 ++ Burst t1 :: a) = Some (p, ns, ps) /\ (slept = true -> t1 + CeilingGap ps <= clock d) /\
    (opened = true -> exists h w, InHours h w ∈ b).

Definition may_burst (d : Detector) : Prop := no_burst (trace d) \/ exists ps, gap_due true true ps d.

Lemma gap_due_foreign slept opened ps d d1 : leads foreign d d1 -> gap_due slept opened ps d -> gap_due slept opened ps d1.
Proof.
  intros (Hc & _ & _ & m & Hm & Hok) (t & pre1 & a & b & p & ns & Ht & Hb & Hf & Hs & Ho). exists t, pre1, a, (b ++ m), p, ns.
  rewrite Hm, Ht, <- app_assoc. cbn [app]. rewrite <- app_assoc. split; [done|]. rewrite app_assoc, no_burst_app. split.
  { split; [done|by apply no_burst_foreign]. }
  split; [done|]. split; [intros Hsl; specialize (Hs Hsl); lia|]. intros Hop. destruct (Ho Hop) as (h & w & Hin). exists h, w. apply elem_of_app. by left.
Qed.

Lemma may_burst_foreign d d1 : leads foreign d d1 -> may_burst d -> may_burst d1.
Proof.
  intros Hl [Hn|[ps Hg]]; [left|right; exists ps; by eapply gap_due_foreign]. destruct Hl as (_ & _ & _ & m & -> & Hok). apply no_burst_app.
  split; [done|by apply no_burst_foreign].
Qed.

Lemma burst_now d : Inv can d -> can = true -> may_burst d -> Inv can (add_burst d) /\ burst_left maxAsks (add_burst d).
Proof.
  intros HI Hcan Hm. split.
  - apply (Inv_event can d _ (Burst (clock d))); try done; [|by intros t [= ->]]. split; [done|]. destruct Hm as [Hn|(ps & t & a & b & c & p & ns & Ht & Hb & Hf & Hs & Ho)]; [by left|right].
    exists t, a, b, c, p, ns, ps. destruct (Ho eq_refl) as (h & w & Hin). split_and!; try done; [by apply Hs|by exists h, w].
  - exists (clock d), (trace d), []. split; [done|]. split; [by intros t ?%elem_of_nil|cbn; lia].
Qed.

Lemma burst_hon (return_ : go) d : can = true -> (forall d, Inv can d -> burst_left 0 d -> hon return_ d) ->
  Inv can d -> may_burst d -> hon (burst Uint32 encode nodeID return_) d.
Proof.
  intros Hcan Hret HI Hm. unfold burst. apply drawing_ok. intros r. destruct (burst_range r) as (n & r1 & _ & _ & -> & Hn & _).
  apply drawing_ok. intros r2. destruct (gaps_range n r2 Hn) as (gaps & r3 & -> & Hz & _). intros d1 Hl1 HI1. cbn [effect fst snd].
  destruct (burst_now d1 HI1 Hcan (may_burst_foreign _ _ Hl1 Hm)) as [HI2 Hb]. split; [done|]. split; [by eapply leads_one|].
  apply burst_steps_ok; [done..|]. eapply burst_left_le; [|exact Hb]. cbn [length]. rewrite length_fmap. unfold zlen, maxBurstLookups, maxAsks in *. lia.
Qed.

Lemma hours_ok (k : bool -> go) ps : (forall d, Inv can d -> gap_due true true ps d -> hon (k true) d) -> (forall d, Inv can d -> hon (k false) d) ->
  forall fuel d, Inv can d -> gap_due true false ps d -> hon (waitForWorkingHours fuel k) d.
Proof.
  intros Hyes Hno. induction fuel as [|fuel IH]; intros d HI Hg; [done|]. cbn [waitForWorkingHours]. apply wall_ok. intros now.
  apply look_ok. intros d1 Hl1 HI1. assert (gap_due true false ps d1) as Hg1 by (by eapply gap_due_foreign).
  assert (was_in_force (trace d1) (fun _ _ q => Hours q = Hours (pace d1))) as Hw by (by apply (Inv_was can)).
  destruct (Schedule.Contains (Hours (pace d1)) now) eqn:Hc.
  - intros d2 Hl2 HI2. cbn [effect fst snd].
    assert (Inv can (note (InHours (Hours (pace d1)) now) d2)) as HI3.
    { apply (Inv_event can d2 _ (InHours (Hours (pace d1)) now)); try done. split; [done|]. by eapply leads_was. }
    split; [done|]. split; [by eapply leads_one|]. apply Hyes; [done|].
    destruct (gap_due_foreign _ _ _ _ _ Hl2 Hg1) as (t & pre1 & a & b & p & ns & Ht & Hb & Hf & Hs & _).
    exists t, pre1, a, (b ++ [InHours (Hours (pace d1)) now]), p, ns. cbn [note trace clock]. rewrite Ht, <- app_assoc. cbn [app]. rewrite <- app_assoc. split; [done|].
    rewrite app_assoc, no_burst_app. split; [split; [done|by intros x ?%list_elem_of_singleton]|]. split; [done|]. split; [done|]. intros _. eexists _, _. apply elem_of_app. right. by left.
  - apply (sleep_ok foreign any). intros fired d2 Hl2 HI2 _. destruct fired; [|by apply Hno]. apply IH; [done|]. by eapply gap_due_foreign.
Qed.

Lemma ask_loop_ok fuel : can = true -> forall d, Inv can d -> burst_left 0 d -> hon (ask_loop Uint32 encode nodeID fuel) d.
Proof.
  intros Hcan. induction fuel as [|fuel IH]; intros d HI Hb; [done|]. cbn [ask_loop]. apply look_ok. intros d1 Hl1 HI1.
  assert (gap_due false false (pace d1) d1) as Hg1.
  { destruct (burst_left_foreign _ _ _ Hl1 Hb) as (t & a & b & Ht & Hnb & _). exists t, a, b, [], (profile d1), (names d1).
    rewrite !app_nil_r. split; [done|]. split; [done|]. rewrite <- Ht. split; [apply HI1|done]. }
  apply wall_ok. intros now d2 Hl2 HI2. destruct (Inv_median can now d2 HI2) as (q & h & -> & HI3 & Hl3). split; [done|]. split; [apply Hl3|].
  set (d3 := (median now d2).2) in *. assert (leads foreign d1 d3) as Hl13 by (transitivity d2; [done|apply Hl3]).
  apply drawing_ok. intros r. destruct (inv_pace _ _ HI1) as [Hnorm Hin]. destruct (gap_range (pace d1) q h r Hin) as (gap & r' & -> & _ & Hgap).
  rewrite Hnorm in Hgap. apply (sleep_ok foreign any). intros fired d4 Hl4 HI4 Hslept. destruct fired; [|done]. specialize (Hslept eq_refl).
  assert (gap_due true false (pace d1) d4) as Hg4.
  { assert (leads foreign d1 d4) as Hl14 by (by transitivity d3).
    destruct (gap_due_foreign _ _ _ _ _ Hl14 Hg1) as (t & pre1 & a & b & p & ns & Ht & Hnb & Hf & _ & _).
    exists t, pre1, a, b, p, ns. split_and!; try done. intros _. destruct Hg1 as (t1 & pre1' & a' & b' & _ & _ & Ht1 & Hnb1 & _).
    assert (t <= clock d3) as Ht3; [|lia]. destruct Hl13 as (Hc13 & _). enough (t <= clock d1) by lia. apply (inv_clock _ _ HI1).
    destruct Hl14 as (_ & _ & _ & m & Hm & Hok). assert (Burst t ∈ trace d4) as Hin4 by (rewrite Ht; apply elem_of_app; right; by left).
    rewrite Hm in Hin4. apply elem_of_app in Hin4 as [|Hin4]; [done|]. rewrite Forall_forall in Hok. by specialize (Hok _ Hin4). }
  apply (hours_ok _ (pace d1)); [|done|done|done]. intros d5 HI5 Hg5. apply burst_hon; [done|done|done|]. right. by exists (pace d1).
Qed.

Lemma ask_ok fuel d : can = true -> Inv can d -> no_burst (trace d) -> hon (ask Uint32 encode nodeID fuel) d.
Proof.
  intros Hcan HI Hnb. apply look_ok. intros d1 Hl1 HI1. apply drawing_ok. intros r. destruct (startup_range (pace d1) r) as (delay & r' & -> & _).
  apply (sleep_ok foreign any). intros fired d2 Hl2 HI2 _. destruct fired; [|done]. apply burst_hon; [done|by apply ask_loop_ok|done|].
  apply (may_burst_foreign d); [by transitivity d1|by left].
Qed.

(** *** The other goroutines *)

Notation hon' := (honours (Inv can) (leads any) (leads foreign)).

Lemma any_submit a ok : any (Submitted a ok) = true.
Proof. done. Qed.

Lemma observe_ok proto mac b src srcPort local localPort (k : go) d :
  hon' k d -> hon' (observe encode nodeID proto mac b src srcPort local localPort k) d.
Proof.
  intros Hk. unfold observe. destruct (_ <? _); [done|]. destruct (_ =? 0).
  - apply wall_ok. intros now d1 Hl1 HI1. cbn [effect fst snd]. destruct (Inv_count can src now d1 HI1) as [HI2 Hl2]. split; [done|]. split; [apply Hl2|].
    eapply (hon_later any foreign); [|exact Hk]. transitivity d1; [done|apply Hl2].
  - destruct (parseReplyFor proto b) as [r|]; [|done]. destruct (_ =? 0); [done|]. apply look_ok. intros d1 Hl1 HI1.
    destruct (BaitNames.contains (names d1) (replyName r)) eqn:Hc; [|by eapply (hon_later any foreign)].
    apply (emit_ok any foreign); [done|done| |by eapply (hon_later any foreign)]. right. apply (Inv_was can); [done|]. cbn.
    rewrite contains_spec in Hc. by apply bool_decide_eq_true in Hc.
Qed.

Lemma count_ok proto fuel : forall d, hon' (count encode nodeID proto fuel : go) d.
Proof.
  induction fuel as [|fuel IH]; intros d; [done|]. cbn [count]. apply look_ok. intros d1 _ _. destruct (cancelled d1); [done|].
  intros d2 _ _ a Ha. destruct a; try done. apply around_ok. intros n. by apply observe_ok.
Qed.

Lemma LookupOnce_ok proto name (k : res lookup_error (list Answer) -> go) d :
  (forall r d1, leads any d d1 -> hon' (k r) d1) -> hon' (LookupOnce Uint32 encode nodeID proto name k) d.
Proof.
  intros Hk. unfold LookupOnce. apply look_ok. intros d1 Hl1 HI1. destruct (canSend d1) eqn:Hcan; [|by apply Hk].
  rewrite (inv_can _ _ HI1) in Hcan. apply look_ok. intros d2 Hl2 HI2. unfold getShapeNamesPace.
  assert (leads any d d2) as Hl02 by (by transitivity d1). destruct (Protocols (shape d2)) as [|first rest] eqn:Hps; [by apply Hk|].
  apply look_ok. intros d3 Hl3 HI3. assert (leads any d d3) as Hl03 by (by transitivity d2).
  assert (forall proto, was_in_force (trace d3) (fun p _ _ => proto ∈ Protocols (shape_of p)) -> forall name,
    hon' (if bool_decide (name = []) then k (Err (ErrName ErrNoName)) else
      lookup_once Uint32 false proto name (shape d2) (fun res =>
        match res with LookupAnswers l => emit_all encode nodeID l (k (Ok l)) | _ => k (Err ErrLookup) end)) d3) as Hgo.
  { intros pr Hw nm. case_bool_decide; [by apply Hk|]. apply (lookup_ok any foreign); [done| |].
    - intros d4 Hl4 HI4. split; [done|]. by eapply leads_was.
    - intros res d4 Hl4 HI4 HI5 Hsub. assert (leads any d (add_lookup false pr nm d4)) as Hl05.
      { transitivity d4; [by transitivity d3|]. by eapply leads_one. }
      destruct res as [e| |l]; [by apply Hk|by apply Hk|]. apply (emit_all_ok any foreign); [done|done| |by apply Hk]. intros a Ha. by eapply Hsub. }
  assert (forall proto, was_in_force (trace d3) (fun p _ _ => proto ∈ Protocols (shape_of p)) ->
    hon' (if bool_decide (name = [])
          then drawing (fun r => match NextName (names d2) r with
                 | None => crash
                 | Some (n, _) => if bool_decide (n = []) then k (Err (ErrName ErrNoName)) else
                     lookup_once Uint32 false proto n (shape d2) (fun res =>
                       match res with LookupAnswers l => emit_all encode nodeID l (k (Ok l)) | _ => k (Err ErrLookup) end)
                 end)
          else match normaliseName name with
               | Err e => k (Err (ErrName e))
               | Ok n => if bool_decide (n = []) then k (Err (ErrName ErrNoName)) else
                     lookup_once Uint32 false proto n (shape d2) (fun res =>
                       match res with LookupAnswers l => emit_all encode nodeID l (k (Ok l)) | _ => k (Err ErrLookup) end)
               end) d3) as Hon.
  { intros pr Hw. case_bool_decide.
    - apply drawing_ok. intros r. destruct (next_name d2 r HI2) as (n & r' & -> & _). by apply Hgo.
    - destruct (normaliseName name) as [n|e]; [by apply Hgo|by apply Hk]. }
  destruct proto as [proto|].
  - destruct (Asks (profile d3) proto) eqn:Ha; [|by apply Hk]. apply Hon. apply (Inv_was can); [done|]. cbn.
    unfold Asks in Ha. apply existsb_exists in Ha as (x & Hx & Hxp). apply bool_decide_eq_true in Hxp as ->. by apply list_elem_of_In.
  - apply Hon. eapply leads_was; [exact Hl3|]. apply (Inv_was can); [done|]. cbn. rewrite <- (inv_shape _ _ HI2), Hps. by left.
Qed.

Section pushes.
Context (Shuffle : Z -> list Z -> list Z) (host : bytes) (seed : Z).

Lemma push_ok p ops ps d : Forall bait_name ops -> in_i 64 (FloorGap ps) -> Inv can d ->
  Inv can (SetLiveSettings Shuffle host seed p ops ps d) /\ leads foreign d (SetLiveSettings Shuffle host seed p ops ps d).
Proof.
  intros Ho Hps HI. destruct (DeriveNames_valid Shuffle host ops seed Ho) as [Hv Hne]. unfold SetLiveSettings.
  destruct (DeriveNames Shuffle host ops seed) as [ns w]. cbn in Hv, Hne. split; [|eapply (leads_one foreign _ _ (Live p ns (normalise ps))); done]. destruct HI. split; cbn; try done.
  - apply in_force_live.
  - split; [apply normalise_idemp|]. pose proof (normalise_floor ps Hps). done.
  - rewrite elem_of_app, list_elem_of_singleton. naive_solver.
  - intros t. rewrite elem_of_app, list_elem_of_singleton. naive_solver.
  - apply every_snoc; [done|]. split; [done|]. split; [done|]. apply normalise_ok.
Qed.

(** What the rest of the agent does with a running detector: push settings that
    were validated, look a name up for a self-test, ask for the pace; and time
    passes, and the agent stops. *)
Inductive other : go -> Prop :=
| other_done : other Done
| other_push p ops ps (k : go) : Forall bait_name ops -> in_i 64 (FloorGap ps) -> other k ->
    other (Act (effect (SetLiveSettings Shuffle host seed p ops ps)) (fun _ => k))
| other_lookup proto name (k : res lookup_error (list Answer) -> go) : (forall r, other (k r)) ->
    other (LookupOnce Uint32 encode nodeID proto name k)
| other_pace (k : Z -> go) : (forall now, other (k now)) -> other (wall (fun now => Act (median now) (fun _ => k now)))
| other_time n (k : go) : other k -> other (Act (effect (tick n)) (fun _ => k))
| other_stop (k : go) : other k -> other (Act (effect cancel) (fun _ => k)).

Lemma other_ok q : other q -> forall d, hon' q d.
Proof.
  induction 1 as [|p ops ps k Ho Hps _ IH|proto name k _ IH|k _ IH|n k _ IH|k _ IH]; intros d; [done| | | | |].
  - intros d1 Hl1 HI1. cbn [effect fst snd]. destruct (push_ok p ops ps d1 Ho Hps HI1). done.
  - apply LookupOnce_ok. intros r d1 _. apply IH.
  - apply wall_ok. intros now d1 Hl1 HI1. destruct (Inv_median can now d1 HI1) as (q & h & _ & HI2 & Hl2). done.
  - intros d1 Hl1 HI1. cbn [effect fst snd]. destruct (Inv_tick can n d1 HI1) as [HI2 Hl2]. done.
  - intros d1 Hl1 HI1. cbn [effect fst snd]. split; [by apply Inv_cancel|]. split; [|apply IH]. by apply (leads_one foreign _ _ Stop).
Qed.
End pushes.
End rules.

(** ** Property *)

Section property.
Context {UN : Unicode} {LO : Location} {R : Type} {RA : Rand R} {T : Type} (Uint32 : T -> Z * T).
Context (encode : bytes -> Answer -> Z -> option bytes) (seed_of : bytes -> Z) (Shuffle : Z -> list Z -> list Z).

Lemma New_Inv cfg nodeID hostname now segment listens :
  Forall bait_name (cfgOperatorNames cfg) -> in_i 64 (FloorGap (cfgPace cfg)) ->
  let d := (Open segment listens (New seed_of Shuffle cfg nodeID hostname now).1).1.1 in
  Inv (canSend d) d /\ no_burst (trace d).
Proof.
  intros Ho Hps. unfold New. destruct (DeriveNames_valid Shuffle (host_of cfg hostname) (cfgOperatorNames cfg) (seed_of (node_id nodeID)) Ho) as [Hv Hne].
  destruct (DeriveNames _ _ _ _) as [ns w]. cbn in Hv, Hne. split; [|by intros t ?%list_elem_of_singleton]. split; cbn; try done.
  - split; [apply normalise_idemp|by apply normalise_floor].
  - eexists. apply newPaceCounter_stands.
  - split; [done|]. by intros ?%list_elem_of_singleton.
  - by intros t ?%list_elem_of_singleton.
  - apply (every_snoc _ []); [apply every_nil|]. split; [done|]. split; [done|]. apply normalise_ok.
Qed.

(** C26. Whatever is pushed, looked up and heard while the detector runs, and
    however its goroutines interleave: a lookup of the burst loop is of a
    protocol and a name of the settings in force when its step began, at most two
    lookups before; a burst makes at most fifteen, and starts only after the
    shortest gap in force since the one before and in working hours, the first
    excepted; at most one lookup follows a stop; what is submitted was asked or
    names a bait; nothing panics. A detector opened without a segment, or under
    the profile [off], asks nothing, whatever profile is pushed later. *)
Theorem bait_follows_settings cfg nodeID hostname now segment listens fuel gs qs c :
  let d0 := (New seed_of Shuffle cfg nodeID hostname now).1 in
  let d1 := (Open segment listens d0).1.1 in
  let can := segment && Sends (profile d0) in
  Forall bait_name (cfgOperatorNames cfg) -> in_i 64 (FloorGap (cfgPace cfg)) ->
  Run Uint32 encode (node_id nodeID) fuel d1 = Some gs ->
  Forall (other Uint32 encode (node_id nodeID) Shuffle (host_of cfg hostname) (seed_of (node_id nodeID))) qs ->
  interleaves (mkPool d1 (gs ++ qs)) c ->
  let d := shared c in
  every (event_ok can) (trace d) /\
  (can = false -> forall own proto name, Asked own proto name ∉ trace d) /\
  in_force (trace d) = Some (profile d, names d, pace d) /\ shape d = shape_of (profile d) /\ canSend d = can /\
  panicked d = false.
Proof.
  intros d0 d1 can Ho Hps Hrun Hqs Hc d. destruct (New_Inv cfg nodeID hostname now segment listens Ho Hps) as [HI Hnb]. fold d0 d1 in HI, Hnb.
  assert (canSend d1 = can) as Hcan by done. clearbody can d1. rewrite Hcan in HI.
  assert (Inv can d) as HI'.
  { unfold Run in Hrun. destruct (_ && _)%bool; [done|]. injection Hrun as <-. rewrite Hcan in Hc.
    assert (Forall (fun q => honours (Inv can) (leads any) (leads foreign) q d1) (((fun l => count encode (node_id nodeID) l fuel) <$> listeners d1) ++ qs)) as Hothers.
    { apply Forall_app. split.
      - apply Forall_forall. intros q (l & -> & _)%list_elem_of_fmap. apply count_ok.
      - eapply Forall_impl; [exact Hqs|]. intros q Hq. by eapply other_ok. }
    rewrite <- app_assoc in Hc. destruct can eqn:Hb; cbn [app] in Hc.
    - eapply (solo_invariant (Inv true) (leads foreign) (leads any)); [apply leads_any|exact Hc|done|by apply ask_ok|exact Hothers].
    - eapply (others_invariant (Inv false) (leads foreign) (leads any)); [apply leads_any|exact Hc|done|exact Hothers]. }
  destruct HI' as [Hf Hs _ _ _ Hcan' Hpanic _ _ Hev]. split_and!; try done.
  intros Hno own proto name Hin. apply list_elem_of_split in Hin as (pre & post & Hin). specialize (Hev _ _ _ Hin). rewrite Hno in Hev. by destruct own, Hev.
Qed.
End property.

(** ** An execution *)

#[local] Existing Instance ascii_only.
#[local] Existing Instance utc.

Definition ex_input : Type := input (R := unit) (T := Z).
Definition ex_cfg (p : bytes) : Config := mkConfig p [lit "old-nas"] DefaultPaceSettings (lit "fs-03").
Definition ex_encode (_ : bytes) (_ : Answer) (_ : Z) : option bytes := Some [].
Definition ex_seed (_ : bytes) : Z := 1.
Definition ex_shuffle (_ : Z) (l : list Z) : list Z := l.
Definition ex_net : network := mkNetwork (fun _ _ => Some []) (fun _ => false) (fun _ => ""%string) [] 7.

Definition ex_open (p : bytes) : Detector := (Open true (fun _ => true) (New ex_seed ex_shuffle (ex_cfg p) None None 0).1).1.1.

Definition ex_push (p : bytes) : proc Detector ex_input :=
  Act (effect (SetLiveSettings ex_shuffle (lit "fs-03") 1 p [lit "old-nas"] DefaultPaceSettings)) (fun _ => Done).

Definition ex_time : proc Detector ex_input := Act (effect (tick (90 * Minute))) (fun _ => Done).

(** Where the detector sends, thread 0 asks; three count; the last two push
    settings and let time pass. *)
Definition ex_threads (p pushed : bytes) : list (proc Detector ex_input) :=
  default [] (Run ex_rand ex_encode DefaultNodeID 5 (ex_open p)) ++ [ex_push pushed; ex_time].

Definition ex_asks (l : list ex_input) : list (nat * ex_input) := (fun a => (0%nat, a)) <$> l.

(** Tuesday, nine o'clock. *)
Definition ex_nine : Z := Day + 9 * Hour.

(** A burst; the profile becomes [off] after its first lookup; its second step;
    an hour and a half later, in working hours, the next burst. *)
Definition ex_lookup : list ex_input := [TimedOut; TimedOut; Around ex_net].
Definition ex_schedule : list (nat * ex_input) :=
  ex_asks ([TimedOut; Drawn tt; TimedOut; Drawn tt; Drawn tt; TimedOut; TimedOut; Drawn tt] ++ ex_lookup) ++ [(4%nat, TimedOut)] ++
  ex_asks (ex_lookup ++ ex_lookup ++ [TimedOut; TimedOut; Drawn tt; TimedOut; Wall ex_nine; TimedOut; Drawn tt; TimedOut]) ++
  [(5%nat, TimedOut)] ++
  ex_asks [Woken true; Wall ex_nine; TimedOut; TimedOut; Drawn tt; Drawn tt; TimedOut].

Definition ex_run (p pushed : bytes) (s : list (nat * ex_input)) : pool Detector ex_input := pschedule s (mkPool (ex_open p) (ex_threads p pushed)).

Definition ex_names : list bytes := [lit "old-nas"; WPADName].

(** A push of [off] ends the lookups with the step under way; a detector opened
    under [off] asks nothing under [windows]. *)
Lemma bait_follows_settings_witness :
  let d := shared (ex_run ProfileWindows ProfileOff ex_schedule) in
  let d' := shared (ex_run ProfileOff ProfileWindows [(3%nat, TimedOut)]) in
  (trace d = [Live ProfileWindows ex_names DefaultPaceSettings; Burst 0; Asked true ProtocolLLMNR (lit "old-nas");
              Live ProfileOff ex_names DefaultPaceSettings; Asked true ProtocolNBNS (lit "old-nas"); Asked true ProtocolMDNS (lit "old-nas");
              InHours DefaultWorkingHours ex_nine; Burst (90 * Minute)] /\
   every (event_ok true) (trace d) /\ panicked d = false) /\
  profile d' = ProfileWindows /\ forall own proto name, Asked own proto name ∉ trace d'.
Proof.
  assert (Forall bait_name [lit "old-nas"]) as Ho.
  { constructor; [|constructor]. split; [vm_compute; split; [reflexivity|discriminate]|]. split; [|done]. apply (bool_decide_unpack _). vm_compute. exact I. }
  assert (in_i 64 (FloorGap DefaultPaceSettings)) as Hp by (vm_compute; split; [discriminate|reflexivity]).
  assert (forall pushed, Forall (other ex_rand ex_encode DefaultNodeID ex_shuffle (lit "fs-03") 1) [ex_push pushed; ex_time]) as Hqs.
  { intros pushed. constructor; [by apply other_push; [| |constructor]|]. constructor; [apply other_time, other_done|constructor]. }
  split; [split; [vm_compute; reflexivity|]|split; [vm_compute; reflexivity|]].
  - destruct (bait_follows_settings ex_rand ex_encode ex_seed ex_shuffle (ex_cfg ProfileWindows) None None 0 true (fun _ => true) 5
      (default [] (Run ex_rand ex_encode DefaultNodeID 5 (ex_open ProfileWindows))) [ex_push ProfileOff; ex_time]
      (ex_run ProfileWindows ProfileOff ex_schedule) Ho Hp eq_refl (Hqs _) (pschedule_interleaves _ _)) as (Hev & _ & _ & _ & _ & Hn).
    split; [exact Hev|exact Hn].
  - destruct (bait_follows_settings ex_rand ex_encode ex_seed ex_shuffle (ex_cfg ProfileOff) None None 0 true (fun _ => true) 5
      (default [] (Run ex_rand ex_encode DefaultNodeID 5 (ex_open ProfileOff))) [ex_push ProfileWindows; ex_time]
      (ex_run ProfileOff ProfileWindows [(3%nat, TimedOut)]) Ho Hp eq_refl (Hqs _) (pschedule_interleaves _ _)) as (_ & Hno & _).
    exact (Hno eq_refl).
Defined.
