(* ===== verification/Delivery.v ===== *)
(** Delivery: the two intake roads and the sender of the agent,
    [cmd/mockingbird/intake.go], [sender.go] and [auth.go], over the queue, the
    ledger, the position store, the claim tracker, the tailer and the client.

    Each goroutine of the agent is a process ([Process]) over one shared
    state; an operation is one call under a mutex. The state also keeps the
    history the theorems speak of: what birdcage answered ([told]), the ids
    offered to the queue ([offered]) and evicted from it ([evicted]), and the
    lines each session of the log road entered in its ledger ([sLines]); no
    operation reads it. Loops that poll run on fuel, so that a run is any
    finite part of an execution. *)
From S2P Require Import Prelude GoBase MemQueue Position Ledger Claims Client LineReader Tailer Events Process.
#[local] Open Scope Z_scope.

(** ** The shared state *)

(** A session of the log road: its ledger, its context and the channel its
    tailer closes. *)
Record session : Type := mkSession {
  sLedger : ledger;
  sResume : option Position;
  sCancelled : bool;
  sDone : bool;
  sLines : list (string * Position);
}.

(** [Intake], the token store, the position file and birdcage. [ledgerPtr]
    names a session. *)
Record intake (Q S : Type) : Type := mkIntake {
  Queue : Q;
  sessions : list session;
  ledgerPtr : nat;
  collisionsBase : Z;
  lastEventID : option string;
  claims : claimTracker;
  posFile : pos_file;
  stopped : bool;
  current : string;
  server : S;
  told : list BatchResult;
  offered : list string;
  evicted : list string;
}.
Arguments mkIntake {Q S}.
Arguments Queue {Q S}. Arguments sessions {Q S}. Arguments ledgerPtr {Q S}. Arguments collisionsBase {Q S}.
Arguments lastEventID {Q S}. Arguments claims {Q S}. Arguments posFile {Q S}. Arguments stopped {Q S}.
Arguments current {Q S}. Arguments server {Q S}. Arguments told {Q S}. Arguments offered {Q S}. Arguments evicted {Q S}.

(** What the outside answers: a timer, a cancelled context, a closed channel,
    the directory and its files, one round of the live file, and whether a
    file operation worked. *)
Inductive input : Type :=
| Fires
| Cancelled
| Ended
| Files (cands : list candidate) (openf : candidate -> option opened)
| Round (e : poll_env)
| Works (b : bool).

Definition lowWaterNumerator : Z := 3.
Definition lowWaterDenominator : Z := 4.

(** The settings [NewIntake] works out. *)
Record settings : Type := mkSettings {
  maxEvents : Z;
  lowWater : Z;
  logPath : string;
  tailerConfig : Tailer.Config;
}.

Section delivery.
Context (sha256 : bytes -> bytes) {json : Json} {Q S : Type} `{!EventQueue Q} (post : string -> S -> list CEvent -> S * outcome).
Context (cfg : settings).

Notation world := (intake Q S).
Notation go := (proc (intake Q S) input).

(** ** Updates of the shared state *)

Definition set_queue (q : Q) (w : world) : world :=
  mkIntake q (sessions w) (ledgerPtr w) (collisionsBase w) (lastEventID w) (claims w) (posFile w)
    (stopped w) (current w) (server w) (told w) (offered w) (evicted w).
Definition set_sessions (ss : list session) (w : world) : world :=
  mkIntake (Queue w) ss (ledgerPtr w) (collisionsBase w) (lastEventID w) (claims w) (posFile w)
    (stopped w) (current w) (server w) (told w) (offered w) (evicted w).
Definition set_claims (c : claimTracker) (w : world) : world :=
  mkIntake (Queue w) (sessions w) (ledgerPtr w) (collisionsBase w) (lastEventID w) c (posFile w)
    (stopped w) (current w) (server w) (told w) (offered w) (evicted w).
Definition on_session (s : nat) (f : session -> session) (w : world) : world :=
  set_sessions (alter f s (sessions w)) w.
Definition on_ledger (f : ledger -> ledger) (x : session) : session :=
  mkSession (f (sLedger x)) (sResume x) (sCancelled x) (sDone x) (sLines x).

(** [Queue.Push]; the events it evicts go to the history. *)
Definition push (e : Event) (w : world) : bool * world :=
  let '(q, ok) := eq_push (Queue w) e in
  (ok, mkIntake q (sessions w) (ledgerPtr w) (collisionsBase w) (lastEventID w) (claims w) (posFile w)
         (stopped w) (current w) (server w) (told w) (offered w ++ [ID e])
         (evicted w ++ (ID <$> filter (fun x => x ∉ eq_events q) (eq_events (Queue w))))).

(** [ldg.Append] on the session's ledger. *)
Definition append (s : nat) (id : string) (pos : Position) : world -> world :=
  on_session s (fun x => mkSession (Append (sLedger x) id pos) (sResume x) (sCancelled x) (sDone x)
                           (sLines x ++ [(id, pos)])).

(** [ldg.Resolve] with one of its two verdicts, for which it never panics. *)
Definition resolve (s : nat) (id : string) (v : Z) : world -> world :=
  on_session s (on_ledger (fun l => default l (Resolve l id v))).

(** [ldg.Advance] *)
Definition advance (s : nat) (w : world) : option Position * world :=
  match sessions w !! s with
  | None => (None, w)
  | Some x => let '(l, pos) := Advance (sLedger x) in (pos, on_session s (on_ledger (fun _ => l)) w)
  end.

Definition cancel (s : nat) : world -> world :=
  on_session s (fun x => mkSession (sLedger x) (sResume x) true (sDone x) (sLines x)).
Definition close_done (s : nat) : world -> world :=
  on_session s (fun x => mkSession (sLedger x) (sResume x) (sCancelled x) true (sLines x)).

Definition session_done (s : nat) (w : world) : bool :=
  match sessions w !! s with Some x => sDone x | None => false end.
(** [sessionCtx.Err() != nil]: cancelled itself, or with the agent. *)
Definition session_ctx (s : nat) (w : world) : bool :=
  stopped w || match sessions w !! s with Some x => sCancelled x | None => false end.

(** ** Waiting *)

(** [select] between a context and a timer; the continuation is told whether
    the context won. *)
Definition select_ctx (ctx : world -> bool) (k : bool -> go) : go :=
  Ask (fun w a => match a with Fires => true | Cancelled => ctx w | _ => false end)
      (fun a => k (match a with Cancelled => true | _ => false end)).

(** The polling loop of [waitForRoom]. *)
Fixpoint room_loop (fuel : nat) (ctx : world -> bool) (k : bool -> go) : go :=
  match fuel with
  | O => Done
  | Datatypes.S fuel =>
      Act (look (fun w => lowWater cfg <=? Z.of_nat (eq_depth (Queue w)))) (fun full : bool =>
        if full then select_ctx ctx (fun c => if c then k false else room_loop fuel ctx k)
        else k true)
  end.

(** [waitForRoom]: [true] for its nil, [false] for the context's error. *)
Definition waitForRoom (fuel : nat) (ctx : world -> bool) (k : bool -> go) : go :=
  Act (look (fun w => Z.of_nat (eq_depth (Queue w)) <? maxEvents cfg)) (fun room : bool =>
    if room then k true else room_loop fuel ctx k).

(** ** The intake roads *)

Definition observeClaim (id : string) (message : bytes) (k : go) : go :=
  Act (look (fun w => active (claims w))) (fun a : bool =>
    if a then
      match ExtractFields message with
      | Err _ => k
      | Ok fields =>
          Act (effect (fun w => set_claims (observe (claims w) id (fService fields) (fSourceIP fields)) w))
            (fun _ => k)
      end
    else k).

Definition webhookHandler (body : bytes) : go :=
  match IDFromWebhookBody sha256 body with
  | Err _ => Done
  | Ok (id, message) => observeClaim id message (Act (push (mkEvent id message)) (fun _ => Done))
  end.

Definition SubmitPortscanEvent (message : bytes) : go :=
  match IDFromEmittedMessage sha256 message with
  | Err _ => Done
  | Ok id => observeClaim id message (Act (push (mkEvent id message)) (fun _ => Done))
  end.

Definition SubmitSNMPEvent (message : bytes) : go :=
  match IDFromEmittedMessage sha256 message with
  | Err _ => Done
  | Ok id => Act (push (mkEvent id message)) (fun _ => Done)
  end.

Definition SubmitSMBEvent (fuel : nat) (message : bytes) : go :=
  waitForRoom fuel stopped (fun room =>
    if room then
      match IDFromEmittedMessage sha256 message with
      | Err _ => Done
      | Ok id => Act (push (mkEvent id message)) (fun _ => Done)
      end
    else Done).

Definition SubmitPoisonerEvent (message : bytes) : go :=
  match IDFromEmittedMessage sha256 message with
  | Err _ => Done
  | Ok id => Act (push (mkEvent id message)) (fun _ => Done)
  end.

Definition SubmitSelfTestResultEvent (message : bytes) : go :=
  match IDFromEmittedMessage sha256 message with
  | Err _ => Done
  | Ok id => Act (push (mkEvent id message)) (fun _ => Done)
  end.

Definition handleLogLine (fuel : nat) (s : nat) (line : Line) (k : go) : go :=
  match IDFromLogLine sha256 (Data line) with
  | Err _ => k
  | Ok (id, message) =>
      waitForRoom fuel (session_ctx s) (fun room =>
        if room then
          observeClaim id message
            (Act (push (mkEvent id message)) (fun _ =>
               Act (effect (append s id (Pos line))) (fun _ => k)))
        else k)
  end.

(** The callbacks of the tailer, in the order it makes them. *)
Fixpoint emit_all (fuel : nat) (s : nat) (lines : list Line) (k : go) : go :=
  match lines with
  | [] => k
  | line :: lines => handleLogLine fuel s line (emit_all fuel s lines k)
  end.

(** ** The log road *)

(** The kernel's inodes are 64-bit and its files end before 2^63. *)
Definition kernel_position (p : Position) : bool :=
  (0 <=? Inode p) && (Inode p <? 2 ^ 64) && (0 <=? Offset p) && (Offset p <? 2 ^ 63).

Definition no_counters : counters := mkCounters 0 0 0.

Definition caught (resume : option Position) (a : input) : option caught_up :=
  match a with
  | Files cands openf =>
      catchUp (tailerConfig cfg) (logPath cfg) cands openf (default (mkPosition 0 0) resume)
        (bool_decide (is_Some resume)) no_counters
  | _ => None
  end.

Definition polled_round (t : live) (a : input) : option (live * list Line * bool) :=
  match a with
  | Round e => poll (tailerConfig cfg) t e
  | _ => None
  end.

Fixpoint followLive (fuel : nat) (s : nat) (t : live) (finish : go) : go :=
  match fuel with
  | O => Done
  | Datatypes.S fuel' =>
      Act (look (session_ctx s)) (fun c : bool =>
        if c then finish else
        Ask (fun _ a => match polled_round t a with
                        | Some (_, lines, _) => forallb (fun l => kernel_position (Pos l)) lines
                        | None => false
                        end)
          (fun a =>
             match polled_round t a with
             | None => Done
             | Some (t, lines, sleeps) =>
                 emit_all fuel s lines
                   (if (sleeps : bool)
                    then select_ctx (session_ctx s) (fun c => if c then finish else followLive fuel' s t finish)
                    else followLive fuel' s t finish)
             end))
  end.

Definition Follow (fuel : nat) (s : nat) (resume : option Position) (finish : go) : go :=
  Ask (fun _ a => match caught resume a with
                  | Some c => forallb (fun l => kernel_position (Pos l)) (caughtLines c)
                  | None => false
                  end)
    (fun a =>
       match caught resume a with
       | None => Done
       | Some c =>
           emit_all fuel s (caughtLines c)
             (followLive fuel s (mkLive (caughtReader c) true (caughtCounters c)) finish)
       end).

(** [<-done] *)
Definition wait_done (s : nat) (k : go) : go :=
  Ask (fun w a => match a with Ended => session_done s w | _ => false end) (fun _ => k).

(** The monitor loop of [runLogRoadOnce]; its deferred [cancel] runs last. *)
Fixpoint monitor (fuel : nat) (s : nat) (baseline : Z) (k : go) : go :=
  match fuel with
  | O => Done
  | Datatypes.S fuel =>
      Ask (fun w a => match a with
                      | Fires => true
                      | Cancelled => stopped w
                      | Ended => session_done s w
                      | _ => false
                      end)
        (fun a =>
           match a with
           | Cancelled => Act (effect (cancel s)) (fun _ => wait_done s k)
           | Ended => Act (effect (cancel s)) (fun _ => k)
           | _ =>
               Act (look (fun w => eq_dropped (Queue w))) (fun dropped =>
                 if dropped =? baseline then monitor fuel s baseline k else
                 Act (look (fun w => Z.of_nat (eq_depth (Queue w)))) (fun depth =>
                   if depth <=? lowWater cfg
                   then Act (effect (cancel s)) (fun _ => wait_done s k)
                   else monitor fuel s baseline k))
           end)
  end.

(** The new ledger of a session, behind the pointer. *)
Definition open_session (resume : option Position) (w : world) : nat * world :=
  match Ledger.New DefaultCollisionWindow with
  | None => (0%nat, w)
  | Some l =>
      (length (sessions w),
       mkIntake (Queue w) (sessions w ++ [mkSession l resume false false []]) (length (sessions w))
         (collisionsBase w) (lastEventID w) (claims w) (posFile w) (stopped w) (current w) (server w)
         (told w) (offered w) (evicted w))
  end.

Definition session_collisions (s : nat) (w : world) : Z :=
  match sessions w !! s with Some x => Collisions (sLedger x) | None => 0 end.

Definition add_collisions (n : Z) (w : world) : world :=
  mkIntake (Queue w) (sessions w) (ledgerPtr w) (u64 (collisionsBase w + n)) (lastEventID w) (claims w)
    (posFile w) (stopped w) (current w) (server w) (told w) (offered w) (evicted w).

(** A position that cannot be read is reported, and the log replayed from its
    start. *)
Definition load_position (readable : bool) (f : pos_file) : option Position :=
  match Load sha256 readable f with Ok resume => resume | Err _ => None end.

Definition runLogRoadOnce (fuel : nat) (k : go) : go :=
  Ask (fun _ a => match a with Works _ => true | _ => false end) (fun a =>
  Act (look (fun w => match a with Works readable => load_position readable (posFile w) | _ => None end)) (fun resume =>
  Act (look ledgerPtr) (fun prev =>
  Act (look (session_collisions prev)) (fun n =>
  Act (effect (add_collisions n)) (fun _ =>
  Act (open_session resume) (fun s =>
  Fork (Follow fuel s resume (Act (effect (close_done s)) (fun _ => Done)))
    (Act (look (fun w => eq_dropped (Queue w))) (fun baseline => monitor fuel s baseline k)))))))).

Fixpoint RunLogRoad (fuel : nat) : go :=
  match fuel with
  | O => Done
  | Datatypes.S fuel' =>
      Act (look stopped) (fun c : bool => if c then Done else runLogRoadOnce fuel (RunLogRoad fuel'))
  end.

(** [Collisions] *)
Definition IntakeCollisions (w : world) : Z :=
  u64 (collisionsBase w + session_collisions (ledgerPtr w) w).

(** ** The sender *)

Definition fieldsOrFallback (payload : bytes) : Fields :=
  match ExtractFields payload with
  | Err _ => mkFields "" NoDestPort None ""
  | Ok fields => fields
  end.

(** The loop that makes the batch, without events still claimable. *)
Fixpoint build (batch : list Event) (ids : list string) (evs : list CEvent)
    (k : list string -> list CEvent -> go) : go :=
  match batch with
  | [] => k ids evs
  | qe :: batch =>
      Act (look (fun w => pending (claims w) (ID qe))) (fun p : bool =>
        if p then build batch ids evs k else
        let fields := fieldsOrFallback (Payload qe) in
        Act (look (fun w => default "" (marker (claims w) (ID qe)))) (fun m =>
          build batch (ids ++ [ID qe])
            (evs ++ [mkCEvent (ID qe) (fSourceIP fields) (fDestPort fields) (fService fields) (Payload qe) m])
            k))
  end.

(** [c.PushBatch] with the token: the exchange with birdcage. *)
Definition push_batch (token : string) (evs : list CEvent) (w : world) :
    (BatchResult * option client_error) * world :=
  let '(sv, r, err) := PushBatch (post token) (server w) evs in
  ((r, err),
   mkIntake (Queue w) (sessions w) (ledgerPtr w) (collisionsBase w) (lastEventID w) (claims w) (posFile w)
     (stopped w) (current w) sv
     (match err with None => told w ++ [r] | Some _ => told w end) (offered w) (evicted w)).

Definition IsUnauthorized (err : option client_error) : bool :=
  match err with Some ErrUnauthorized => true | _ => false end.

Definition authedRetryValue (evs : list CEvent) (k : BatchResult * option client_error -> go) : go :=
  Act (look current) (fun token =>
  Act (push_batch token evs) (fun rv =>
    if negb (IsUnauthorized rv.2) then k rv else
    Act (look current) (fun retryToken =>
      if String.eqb retryToken token then k rv else Act (push_batch retryToken evs) k))).

(** The loop over the ids of [applyVerdicts]. *)
Fixpoint verdict_loop (s : nat) (r : BatchResult) (ids : list string) (lastStored : string)
    (k : string -> go) : go :=
  match ids with
  | [] => k lastStored
  | id :: ids =>
      let isStored := bool_decide (id ∈ brStored r) in
      let isRejected := bool_decide (id ∈ dom (brRejected r)) in
      if isStored && negb isRejected then
        Act (effect (fun w => set_queue (eq_ack (Queue w) id) w)) (fun _ =>
        Act (effect (resolve s id Stored)) (fun _ =>
        Act (effect (fun w => set_claims (forget (claims w) id) w)) (fun _ =>
        verdict_loop s r ids id k)))
      else if isRejected && negb isStored then
        Act (effect (fun w => set_queue (eq_reject (Queue w) id) w)) (fun _ =>
        Act (effect (resolve s id Rejected)) (fun _ =>
        Act (effect (fun w => set_claims (forget (claims w) id) w)) (fun _ =>
        verdict_loop s r ids lastStored k)))
      else verdict_loop s r ids lastStored k
  end.

Definition setLastEventID (id : string) (w : world) : world :=
  mkIntake (Queue w) (sessions w) (ledgerPtr w) (collisionsBase w) (Some id) (claims w) (posFile w)
    (stopped w) (current w) (server w) (told w) (offered w) (evicted w).

Definition save_position (pos : Position) (ok : bool) (w : world) : world :=
  mkIntake (Queue w) (sessions w) (ledgerPtr w) (collisionsBase w) (lastEventID w) (claims w)
    (Save sha256 (posFile w) pos ok) (stopped w) (current w) (server w) (told w) (offered w) (evicted w).

(** The end of [applyVerdicts]: the frontier moves and is saved. *)
Definition save_frontier (s : nat) (k : go) : go :=
  Act (advance s) (fun pos =>
    match pos with
    | None => k
    | Some pos =>
        Ask (fun _ a => match a with Works _ => true | _ => false end) (fun a =>
          Act (effect (save_position pos (match a with Works b => b | _ => false end))) (fun _ => k))
    end).

Definition applyVerdicts (sentIDs : list string) (r : BatchResult) (k : go) : go :=
  Act (look ledgerPtr) (fun s =>
    verdict_loop s r sentIDs "" (fun lastStored =>
      if String.eqb lastStored "" then save_frontier s k
      else Act (effect (setLastEventID lastStored)) (fun _ => save_frontier s k))).

Fixpoint runSenderLoop (fuel : nat) : go :=
  match fuel with
  | O => Done
  | Datatypes.S fuel =>
      Act (look stopped) (fun c : bool =>
      if c then Done else
      Act (look (fun w => eq_peek (Queue w) MaxEventsPerBatch)) (fun batch =>
      let again := select_ctx stopped (fun c => if c then Done else runSenderLoop fuel) in
      match batch with
      | [] => again
      | _ =>
          build batch [] [] (fun ids evs =>
            match evs with
            | [] => again
            | _ =>
                select_ctx stopped (fun c => if c then Done else
                  authedRetryValue evs (fun '(r, err) =>
                    match err with
                    | Some _ => again
                    | None => applyVerdicts ids r (runSenderLoop fuel)
                    end))
            end)
      end))
  end.

(** ** The agent *)

(** The goroutines of the agent: the sender, the log road, one per webhook
    body or message of another detector, the probes of a self-test, token
    rotation and the signal that stops the agent. *)
Inductive goroutine : Type :=
| Sender (fuel : nat)
| LogRoad (fuel : nat)
| Webhook (body : bytes)
| PortscanEvent (message : bytes)
| SNMPEvent (message : bytes)
| SMBEvent (fuel : nat) (message : bytes)
| PoisonerEvent (message : bytes)
| SelfTestResultEvent (message : bytes)
| Probe (os : list claim_op)
| Rotate (token : string)
| Stop.

(** A probe opens and resolves windows of the claim tracker. *)
Fixpoint probe (os : list claim_op) : go :=
  match os with
  | [] => Done
  | o :: os => Act (effect (fun w => set_claims (claim_step (claims w) o) w)) (fun _ => probe os)
  end.

Definition set_current (token : string) (w : world) : world :=
  mkIntake (Queue w) (sessions w) (ledgerPtr w) (collisionsBase w) (lastEventID w) (claims w) (posFile w)
    (stopped w) token (server w) (told w) (offered w) (evicted w).
Definition stop (w : world) : world :=
  mkIntake (Queue w) (sessions w) (ledgerPtr w) (collisionsBase w) (lastEventID w) (claims w) (posFile w)
    true (current w) (server w) (told w) (offered w) (evicted w).

Definition run_goroutine (g : goroutine) : go :=
  match g with
  | Sender fuel => runSenderLoop fuel
  | LogRoad fuel => RunLogRoad fuel
  | Webhook body => webhookHandler body
  | PortscanEvent message => SubmitPortscanEvent message
  | SNMPEvent message => SubmitSNMPEvent message
  | SMBEvent fuel message => SubmitSMBEvent fuel message
  | PoisonerEvent message => SubmitPoisonerEvent message
  | SelfTestResultEvent message => SubmitSelfTestResultEvent message
  | Probe os => probe os
  | Rotate token => Act (effect (set_current token)) (fun _ => Done)
  | Stop => Act (effect stop) (fun _ => Done)
  end.
End delivery.

(** [NewIntake] and the start of the process: the queue, the tracker and an
    empty ledger, with the position file, the token and birdcage as found.
    [None] is a panic of the queue's, the ledger's or the tailer's constructor. *)
Definition NewIntake {S : Type} (queue : MemQueue.Config) (tailer : Tailer.Config) (num den : Z)
    (path : string) (file : pos_file) (token : string) (sv : S) : option (settings * intake mem_queue S) :=
  let maxE := if MaxEvents queue <=? 0 then DefaultMaxEvents else MaxEvents queue in
  let maxB := if MaxBytes queue <=? 0 then DefaultMaxQueueBytes else MaxBytes queue in
  let '(num, den) := if den =? 0 then (lowWaterNumerator, lowWaterDenominator) else (num, den) in
  match NewMemQueue (MemQueue.mkConfig maxE maxB), Tailer.New tailer, Ledger.New 0 with
  | Some q, Some tc, Some l =>
      Some (mkSettings maxE (Z.quot (i64 (maxE * num)) den) path tc,
            mkIntake q [mkSession l None false false []] 0%nat 0 None newClaimTracker file false token sv
              [] [] [])
  | _, _, _ => None
  end.

(** ** What the history says *)

(** The id was given one verdict, stored or rejected. *)
Definition verdict (r : BatchResult) (id : string) : Prop :=
  (id ∈ brStored r /\ id ∉ dom (brRejected r)) \/ (id ∈ dom (brRejected r) /\ id ∉ brStored r).

Definition told_id {Q S} (w : intake Q S) (id : string) : Prop :=
  exists r, r ∈ told w /\ verdict r id.

(** The first [n] lines a session entered have verdicts. *)
Definition lines_told {Q S} (w : intake Q S) (x : session) (n : nat) : Prop :=
  (n <= length (sLines x))%nat /\ Forall (told_id w) (fst <$> take n (sLines x)).

(** A position that may be resumed from: the one found at the start, or that
    of a line whose session entered no line without a verdict up to it. *)
Definition justified {Q S} (p0 : option Position) (w : intake Q S) (p : Position) : Prop :=
  p0 = Some p \/
  exists s x n, sessions w !! s = Some x /\ lines_told w x n /\ snd <$> last (take n (sLines x)) = Some p.

Definition session_ok {Q S} (p0 : option Position) (w : intake Q S) (x : session) : Prop :=
  ledger_wf (sLedger x) /\
  (exists n, lines_told w x n /\ Ledger.Spec.line <$> entries (sLedger x) = drop n (sLines x)) /\
  (forall e, e ∈ entries (sLedger x) -> resolved e = true -> told_id w (eid e)) /\
  Forall (fun l => position_ok l.2) (sLines x) /\
  Forall (fun l => l.1 ∈ offered w) (sLines x) /\
  (forall p, sResume x = Some p -> justified p0 w p).

Section invariant.
Context (sha256 : bytes -> bytes) (sha256_length : forall b, zlen (sha256 b) = sha256_size).
Context {json : Json} {Q S : Type} `{!EventQueue Q} (post : string -> S -> list CEvent -> S * outcome).
Context (cfg : settings) (p0 : option Position) (d0 : Z).
Notation world := (intake Q S).

(** The state of the agent, at any time. *)
Record agent_inv (w : world) : Prop := {
  ai_queue : eq_wf (Queue w);
  ai_sessions : Forall (session_ok p0 w) (sessions w);
  ai_position : forall p, saved sha256 (posFile w) = Some p -> justified p0 w p;
  ai_offered : forall id, id ∈ offered w ->
    told_id w id \/ id ∈ (ID <$> eq_events (Queue w)) \/ id ∈ evicted w;
  ai_dropped : eq_dropped (Queue w) = u64 (d0 + zlen (evicted w));
}.

(** What any goroutine may change. *)
Record agent_le (w w' : world) : Prop := {
  al_told : told w `prefix_of` told w';
  al_offered : offered w `prefix_of` offered w';
  al_sessions : forall s x, sessions w !! s = Some x ->
    exists x', sessions w' !! s = Some x' /\ sLines x `prefix_of` sLines x';
}.

#[global] Instance agent_le_preorder : PreOrder agent_le.
Proof.
  split.
  - intros w. split; [done|done|]. intros s x Hx. by exists x.
  - intros a b c [H1 H2 H3] [G1 G2 G3]. split; [by etrans|by etrans|].
    intros s x Hx. destruct (H3 s x Hx) as (y & Hy & Hp). destruct (G3 s y Hy) as (z & Hz & Hq).
    exists z. split; [done|by etrans].
Qed.

Lemma told_mono (w w' : world) id : told w `prefix_of` told w' -> told_id w id -> told_id w' id.
Proof. intros [k Hk] (r & Hr & Hv). exists r. rewrite Hk. set_solver. Qed.

Lemma lines_told_mono (w w' : world) x x' n :
  told w `prefix_of` told w' -> sLines x `prefix_of` sLines x' -> lines_told w x n -> lines_told w' x' n.
Proof.
  intros Ht [k Hk] [Hn Hf]. unfold lines_told. rewrite Hk, length_app, take_app_le by done.
  split; [lia|]. eapply Forall_impl; [exact Hf|]. intros id. by apply told_mono.
Qed.

Lemma justified_mono w w' p : agent_le w w' -> justified p0 w p -> justified p0 w' p.
Proof.
  intros [Ht _ Hs] [H0|(s & x & n & Hx & Hn & Hp)]; [by left|right].
  destruct (Hs s x Hx) as (x' & Hx' & Hpre). exists s, x', n. split; [done|].
  split; [by eapply lines_told_mono|]. destruct Hpre as [k ->]. by rewrite take_app_le by apply Hn.
Qed.

(** A session keeps its order when only its surroundings change. *)
Lemma session_ok_mono w w' x : agent_le w w' -> session_ok p0 w x -> session_ok p0 w' x.
Proof.
  intros Hle (Hwf & (n & Hn & Hl) & Hr & Hp & Ho & Hj). split; [done|]. split; [|split; [|split; [done|split]]].
  - exists n. split; [|done]. eapply lines_told_mono; [apply Hle|done|done].
  - intros e He Hres. eapply told_mono; [apply Hle|]. by apply Hr.
  - eapply Forall_impl; [exact Ho|]. intros l Hlo. destruct (al_offered w w' Hle) as [k ->]. set_solver.
  - intros p Hrp. eapply justified_mono; [done|]. by apply Hj.
Qed.

(** An operation that touches neither the queue nor the sessions, the file
    and the history. *)
Lemma keep_rest w w' :
  Queue w' = Queue w -> sessions w' = sessions w -> posFile w' = posFile w ->
  told w `prefix_of` told w' -> offered w' = offered w -> evicted w' = evicted w ->
  agent_inv w -> agent_inv w' /\ agent_le w w'.
Proof.
  intros Hq Hs Hf Ht Ho He [I1 I2 I3 I4 I5].
  assert (agent_le w w') as Hle.
  { split; [done|by rewrite Ho|]. intros s x Hx. rewrite Hs. by exists x. }
  split; [|done]. split; rewrite ?Hq, ?Hs, ?Hf, ?Ho, ?He; try done.
  - eapply Forall_impl; [exact I2|]. intros x. by apply session_ok_mono.
  - intros p Hp. eapply justified_mono; [done|]. by apply I3.
  - intros id Hid. destruct (I4 id Hid) as [H|H]; [|by right]. left. by eapply told_mono.
Qed.

(** ** The operations *)

Lemma push_inv e w : agent_inv w ->
  agent_inv (push e w).2 /\ agent_le w (push e w).2 /\ ID e ∈ offered (push e w).2.
Proof.
  intros [I1 I2 I3 I4 I5]. unfold push. destruct (eq_push (Queue w) e) as [q ok] eqn:Hpush. simpl.
  pose proof (eq_push_wf (Queue w) e I1) as Hwf. pose proof (eq_push_events (Queue w) e I1) as Hev.
  rewrite Hpush in Hwf, Hev. simpl in Hwf, Hev.
  set (w' := mkIntake _ _ _ _ _ _ _ _ _ _ _ _ _).
  assert (agent_le w w') as Hle.
  { split; [done|by eexists|]. intros s x Hx. by exists x. }
  split; [|split; [done|simpl; set_solver]]. split; simpl.
  - done.
  - eapply Forall_impl; [exact I2|]. intros x. by apply session_ok_mono.
  - intros p Hp. eapply justified_mono; [done|]. by apply I3.
  - intros id [Hid|Hid]%elem_of_app.
    + destruct (I4 id Hid) as [H|[H|H]]; [by left| |right; right; set_solver]. right.
      destruct Hev as [[_ ->]|(_ & d & k & Hd & Hk & _)]; [by left|].
      apply list_elem_of_fmap in H as (x & -> & Hx). destruct (decide (x ∈ eq_events q)) as [Hin|Hin].
      * left. apply list_elem_of_fmap. by exists x.
      * right. apply elem_of_app. right. apply list_elem_of_fmap. exists x. split; [done|].
        by apply list_elem_of_filter.
    + apply list_elem_of_singleton in Hid as ->. right. left.
      destruct Hev as [[H ->]|(_ & d & k & _ & -> & _)]; [done|]. rewrite fmap_app. set_solver.
  - destruct Hev as [[_ ->]|(Hnew & d & k & Hd & Hk & ->)].
    + rewrite (filter_none (fun x => x ∉ eq_events (Queue w))); [by rewrite app_nil_r|].
      apply Forall_forall. intros x Hx Hnx. done.
    + rewrite Hk. assert (filter (fun x => x ∉ k ++ [e]) (eq_events (Queue w)) = d) as ->.
      { pose proof (eq_ids _ I1) as Hnd. rewrite Hd in Hnd, Hnew |- *. rewrite fmap_app in Hnd, Hnew.
        apply NoDup_app in Hnd as (_ & Hdk & _). rewrite filter_app.
        rewrite (filter_none _ k), app_nil_r; [|apply Forall_forall; set_solver].
        apply filter_all, Forall_forall. intros x Hx [Hxk|Hxe]%elem_of_app.
        - apply (Hdk (ID x)); apply list_elem_of_fmap; by exists x.
        - apply list_elem_of_singleton in Hxe as ->. apply Hnew, elem_of_app. left.
          apply list_elem_of_fmap. by exists e. }
      rewrite zlen_app, I5, wrap_u_add. f_equal. unfold zlen. rewrite length_fmap. lia.
Qed.

(** One session changes. *)
Lemma on_session_inv s f w :
  (forall x, sessions w !! s = Some x -> sLines x `prefix_of` sLines (f x)) ->
  (forall x, sessions w !! s = Some x -> session_ok p0 w x -> agent_le w (on_session s f w) ->
     session_ok p0 (on_session s f w) (f x)) ->
  agent_inv w -> agent_inv (on_session s f w) /\ agent_le w (on_session s f w).
Proof.
  intros Hpre Hok [I1 I2 I3 I4 I5].
  assert (agent_le w (on_session s f w)) as Hle.
  { split; [done|done|]. intros t x Hx. simpl. rewrite list_lookup_alter. case_decide as Ht.
    - subst t. rewrite Hx. exists (f x). split; [done|]. by apply Hpre.
    - by exists x. }
  split; [|done]. split; simpl; try done.
  - apply Forall_lookup. intros t y. rewrite list_lookup_alter. case_decide as Ht.
    + subst t. intros (x & Hx & ->)%fmap_Some. apply Hok; [done| |done]. by eapply Forall_lookup_1.
    + intros Hy. eapply session_ok_mono; [done|]. by eapply Forall_lookup_1.
  - intros p Hp. eapply justified_mono; [done|]. by apply I3.
Qed.

Lemma append_inv s id pos w :
  position_ok pos -> id ∈ offered w ->
  agent_inv w -> agent_inv (append s id pos w) /\ agent_le w (append s id pos w).
Proof.
  intros Hpos Hoff. apply on_session_inv; simpl; intros x Hx; [by eexists|].
  intros (Hwf & (n & Hn & Hl) & Hr & Hp & Ho & Hj) Hle.
  destruct (Append_spec (sLedger x) id pos Hwf) as (Hwf' & He & _).
  split; [done|]. simpl. rewrite He. split; [|split; [|split; [|split]]].
  - exists n. split; [eapply lines_told_mono; [done| |exact Hn]; by eexists|].
    simpl. unfold Ledger.Spec.append. rewrite fmap_app, Hl, drop_app_le by apply Hn. done.
  - unfold Ledger.Spec.append. intros e [He'|He']%elem_of_app Hres.
    + by apply Hr.
    + by apply list_elem_of_singleton in He' as ->.
  - apply Forall_app. split; [done|]. by apply Forall_singleton.
  - apply Forall_app. split; [done|]. by apply Forall_singleton.
  - intros p Hres. eapply justified_mono; [done|]. by apply Hj.
Qed.

Lemma resolve_entry id es e :
  e ∈ Ledger.Spec.resolve id es -> resolved e = true -> eid e = id \/ (e ∈ es /\ resolved e = true).
Proof.
  induction es as [|x es IH]; simpl; [by intros ?%not_elem_of_nil|].
  destruct (bool_decide (eid x = id) && negb (resolved x)) eqn:E; go_bools.
  - intros [->|He]%elem_of_cons Hres; [by left|right; set_solver].
  - intros [->|He]%elem_of_cons Hres; [right; set_solver|]. destruct (IH He Hres) as [?|[? ?]]; [by left|].
    right. set_solver.
Qed.

Lemma resolve_inv s id v w :
  v = Stored \/ v = Rejected -> told_id w id ->
  agent_inv w -> agent_inv (resolve s id v w) /\ agent_le w (resolve s id v w).
Proof.
  intros Hv Ht. apply on_session_inv; simpl; intros x Hx; [done|].
  intros (Hwf & (n & Hn & Hl) & Hr & Hp & Ho & Hj) Hle.
  destruct (Resolve_spec (sLedger x) id v Hwf Hv) as (l' & Hl' & Hwf' & He & _).
  unfold on_ledger, session_ok. simpl. rewrite Hl'. simpl. split; [done|].
  rewrite He, Ledger.Spec.resolve_lines. split; [by exists n|]. split; [|split; [done|split; [done|]]].
  - intros e Hin Hres. destruct (resolve_entry _ _ _ Hin Hres) as [->|[He' _]]; [done|by apply Hr].
  - intros p Hres. eapply justified_mono; [done|]. by apply Hj.
Qed.

Lemma cancel_inv s w : agent_inv w -> agent_inv (cancel s w) /\ agent_le w (cancel s w).
Proof.
  apply on_session_inv; simpl; intros x Hx; [done|]. intros Hok Hle. by eapply session_ok_mono.
Qed.

Lemma close_done_inv s w : agent_inv w -> agent_inv (close_done s w) /\ agent_le w (close_done s w).
Proof.
  apply on_session_inv; simpl; intros x Hx; [done|]. intros Hok Hle. by eapply session_ok_mono.
Qed.

(** Every entry before the frontier has its verdict, so the lines up to the
    position reported have. *)
Lemma advance_lines (w : world) x n :
  session_ok p0 w x -> lines_told w x n -> Ledger.Spec.line <$> entries (sLedger x) = drop n (sLines x) ->
  let m := (n + length (take_while resolved (entries (sLedger x))))%nat in
  lines_told w x m /\
  Ledger.Spec.line <$> drop_while resolved (entries (sLedger x)) = drop m (sLines x) /\
  (forall p, epos <$> last (take_while resolved (entries (sLedger x))) = Some p ->
     snd <$> last (take m (sLines x)) = Some p).
Proof.
  intros (_ & _ & Hr & _) [Hn Hf] Hl m. set (es := entries (sLedger x)) in *.
  pose proof (take_drop_while resolved es) as Hes. pose proof (take_while_forall resolved es) as Hall.
  assert (Ledger.Spec.line <$> take_while resolved es = take (length (take_while resolved es)) (drop n (sLines x)))
    as Htw.
  { rewrite <- Hl. transitivity (take (length (take_while resolved es))
      (Ledger.Spec.line <$> take_while resolved es ++ drop_while resolved es)); [|by rewrite Hes].
    by rewrite fmap_app, <- (length_fmap Ledger.Spec.line (take_while resolved es)), take_app_length. }
  assert (take m (sLines x) = take n (sLines x) ++ (Ledger.Spec.line <$> take_while resolved es)) as Htake
    by (unfold m; by rewrite Htw, take_take_drop).
  split; [split|split].
  - pose proof (f_equal length Hl) as Hlen. rewrite length_fmap, length_drop, <- Hes, length_app in Hlen.
    unfold m. lia.
  - rewrite Htake, fmap_app. apply Forall_app. split; [done|]. rewrite <- list_fmap_compose.
    apply Forall_fmap, Forall_forall. intros e He. simpl. apply Hr.
    + rewrite <- Hes. apply elem_of_app. by left.
    + rewrite Forall_forall in Hall. by apply Hall.
  - unfold m. rewrite <- drop_drop, <- Hl. transitivity (drop (length (take_while resolved es))
      (Ledger.Spec.line <$> take_while resolved es ++ drop_while resolved es)); [|by rewrite Hes].
    by rewrite fmap_app, <- (length_fmap Ledger.Spec.line (take_while resolved es)), drop_app_length.
  - intros p Hp. rewrite Htake, last_app, fmap_last. destruct (last (take_while resolved es)) as [e|]; [|done].
    done.
Qed.

Lemma advance_inv s w :
  agent_inv w ->
  agent_inv (advance s w).2 /\ agent_le w (advance s w).2 /\
  (forall p, (advance s w).1 = Some p -> justified p0 (advance s w).2 p /\ position_ok p).
Proof.
  intros HI. unfold advance. destruct (sessions w !! s) as [x|] eqn:Hx; [|done].
  pose proof (Forall_lookup_1 _ _ _ _ (ai_sessions w HI) Hx) as Hok.
  pose proof Hok as (Hwf & (n & Hn & Hl) & Hr & Hp & Ho & Hj).
  pose proof (Advance_spec (sLedger x) Hwf) as Ha. destruct (Advance (sLedger x)) as [l pos].
  destruct Ha as (Hwf' & [= He Hpos] & _). simpl.
  destruct (advance_lines w x n Hok Hn Hl) as (Hm & Hl' & Hlast). rewrite <- He in Hl'.
  set (m := (n + length _)%nat) in *.
  assert (agent_inv (on_session s (on_ledger (fun _ => l)) w) /\
          agent_le w (on_session s (on_ledger (fun _ => l)) w)) as [HI' Hle].
  { apply on_session_inv; [done| |done]. intros y Hy _ Hle. rewrite Hx in Hy. injection Hy as <-.
    split; [done|]. simpl. split; [by exists m|]. split; [|split; [done|split; [done|]]].
    - intros e Hin Hres. apply Hr; [|done]. rewrite He in Hin. rewrite <- (take_drop_while resolved (entries (sLedger x))).
      apply elem_of_app. by right.
    - intros p Hpr. eapply justified_mono; [done|]. by apply Hj. }
  split; [done|]. split; [done|]. intros p ->. split.
  - eapply justified_mono; [done|]. right. exists s, x, m. split; [done|]. split; [done|]. by apply Hlast.
  - specialize (Hlast p (eq_sym Hpos)). apply fmap_Some in Hlast as ([id q] & Hlast & ->).
    apply last_Some_elem_of in Hlast. rewrite Forall_forall in Hp. apply (Hp (id, q)).
    by eapply elem_of_take in Hlast as (i & Hi & _); apply list_elem_of_lookup_2 in Hi.
Qed.

Lemma save_inv p ok w :
  justified p0 w p -> position_ok p -> agent_inv w ->
  agent_inv (save_position sha256 p ok w) /\ agent_le w (save_position sha256 p ok w).
Proof.
  intros Hj Hp [I1 I2 I3 I4 I5].
  assert (agent_le w (save_position sha256 p ok w)) as Hle.
  { split; [done|done|]. intros s x Hx. by exists x. }
  split; [|done]. split; simpl; try done.
  intros q. destruct ok; simpl; [|intros Hq; eapply justified_mono; [done|by apply I3]].
  rewrite (decode_encode sha256 sha256_length) by done. intros [= <-]. by eapply justified_mono.
Qed.

Lemma open_session_inv resume w :
  (forall p, resume = Some p -> justified p0 w p) -> agent_inv w ->
  agent_inv (open_session resume w).2 /\ agent_le w (open_session resume w).2.
Proof.
  intros Hres [I1 I2 I3 I4 I5]. unfold open_session.
  destruct (Ledger.New DefaultCollisionWindow) as [l|] eqn:Hl; [|split; [by split|reflexivity]].
  destruct (New_spec _ _ Hl) as (Hwf & He & _). simpl.
  set (w' := mkIntake _ _ _ _ _ _ _ _ _ _ _ _ _).
  assert (agent_le w w') as Hle.
  { split; [done|done|]. intros s x Hx. exists x. split; [by apply lookup_app_l_Some|done]. }
  split; [|done]. split; simpl; try done.
  - apply Forall_app. split.
    + eapply Forall_impl; [exact I2|]. intros x. by apply session_ok_mono.
    + apply Forall_singleton. split; [done|]. simpl. rewrite He. split; [|split; [|split; [done|split; [done|]]]].
      * exists 0%nat. split; [|done]. split; [done|]. simpl. constructor.
      * by intros e ?%not_elem_of_nil.
      * intros p Hp. eapply justified_mono; [done|]. by apply Hres.
  - intros p Hp. eapply justified_mono; [done|]. by apply I3.
Qed.

(** A verdict removes the event only when birdcage gave it. *)
Lemma queue_inv q id w :
  eq_wf q -> eq_events q = MemQueue.Spec.remove id (eq_events (Queue w)) ->
  eq_dropped q = eq_dropped (Queue w) -> told_id w id ->
  agent_inv w -> agent_inv (set_queue q w) /\ agent_le w (set_queue q w).
Proof.
  intros Hwf He Hd Ht [I1 I2 I3 I4 I5].
  assert (agent_le w (set_queue q w)) as Hle.
  { split; [done|done|]. intros s x Hx. by exists x. }
  split; [|done]. split; simpl; try done.
  - intros id' Hid. destruct (I4 id' Hid) as [H|[H|H]]; [by left| |by right; right].
    destruct (decide (id' = id)) as [->|Hne]; [by left|]. right. left. rewrite He.
    unfold MemQueue.Spec.remove. apply list_elem_of_fmap in H as (x & -> & Hx). apply list_elem_of_fmap.
    exists x. split; [done|]. apply list_elem_of_filter. done.
  - by rewrite Hd.
Qed.

Lemma ack_inv id w : told_id w id -> agent_inv w ->
  agent_inv (set_queue (eq_ack (Queue w) id) w) /\ agent_le w (set_queue (eq_ack (Queue w) id) w).
Proof.
  intros Ht HI. pose proof (ai_queue w HI) as Hq. destruct (eq_ack_events (Queue w) id Hq).
  apply (queue_inv _ id); try done. by apply eq_ack_wf.
Qed.

Lemma reject_inv id w : told_id w id -> agent_inv w ->
  agent_inv (set_queue (eq_reject (Queue w) id) w) /\ agent_le w (set_queue (eq_reject (Queue w) id) w).
Proof.
  intros Ht HI. pose proof (ai_queue w HI) as Hq. destruct (eq_reject_events (Queue w) id Hq).
  apply (queue_inv _ id); try done. by apply eq_reject_wf.
Qed.

(** ** The goroutines *)

Notation go := (proc (intake Q S) input).
Notation ok := (safe agent_inv agent_le).

(** An operation that keeps the invariant, and what follows it. *)
Lemma ok_act {T} (f : world -> T * world) (k : T -> go) w :
  (forall w1, agent_le w w1 -> agent_inv w1 ->
     agent_inv (f w1).2 /\ agent_le w1 (f w1).2 /\ ok (k (f w1).1) (f w1).2) ->
  ok (Act f k) w.
Proof. done. Qed.

Lemma ok_effect (f : world -> world) (k : unit -> go) w :
  (forall w1, agent_le w w1 -> agent_inv w1 -> agent_inv (f w1) /\ agent_le w1 (f w1)) ->
  (forall w1, agent_le w w1 -> agent_inv w1 -> ok (k tt) w1) ->
  ok (Act (effect f) k) w.
Proof.
  intros Hf Hk w1 HR HI. destruct (Hf w1 HR HI) as [HI' HR']. split; [done|]. split; [done|].
  apply Hk; [by etrans|done].
Qed.

Lemma ok_look {T} (f : world -> T) (k : T -> go) w :
  (forall w1, agent_le w w1 -> agent_inv w1 -> ok (k (f w1)) w1) -> ok (Act (look f) k) w.
Proof. apply safe_look. apply _. Qed.

Notation always := (@always world input agent_inv agent_le).

Lemma always_keep k f w :
  (forall w1, agent_inv w1 -> agent_inv (f w1) /\ agent_le w1 (f w1)) -> always k w ->
  always (Act (effect f) (fun _ => k)) w.
Proof.
  intros Hf Hk w1 HR HI. apply ok_effect; [auto|]. intros w2 HR2 HI2. apply Hk; [by etrans|done].
Qed.

Lemma always_select ctx k w :
  always (k true) w -> always (k false) w -> always (select_ctx ctx k) w.
Proof.
  intros Ht Hf w1 HR HI w2 HR2 HI2 a _. destruct a; try (apply Hf; [by etrans|done]).
  apply Ht; [by etrans|done].
Qed.

Lemma always_room fuel ctx k w :
  always (k true) w -> always (k false) w -> always (waitForRoom cfg fuel ctx k) w.
Proof.
  intros Ht Hf. assert (always (room_loop cfg fuel ctx k) w) as Hloop.
  { induction fuel as [|fuel IH]; [by intros w1 _ _|]. intros w1 HR HI.
    apply ok_look. intros w2 HR2 HI2. case_match; [|apply Ht; [by etrans|done]].
    apply (always_ok agent_inv agent_le); [done|]. apply always_select; eapply (always_le agent_inv agent_le); [|exact Hf| |exact IH]; by etrans. }
  intros w1 HR HI. apply ok_look. intros w2 HR2 HI2. case_match; [apply Ht|apply Hloop]; (done || by etrans).
Qed.

Lemma claims_keep (w : world) c :
  agent_inv w -> agent_inv (set_claims c w) /\ agent_le w (set_claims c w).
Proof. by apply keep_rest. Qed.

Lemma always_observeClaim id message k w : always k w -> always (observeClaim id message k) w.
Proof.
  intros Hk w1 HR HI. apply ok_look. intros w2 HR2 HI2. assert (agent_le w w2) by (by etrans).
  case_match; [|by apply Hk]. case_match; [|by apply Hk].
  apply (always_ok agent_inv agent_le); [done|]. apply always_keep; [intros; by apply claims_keep|by eapply (always_le agent_inv agent_le)].
Qed.

Lemma ok_push e (k : go) w :
  (forall w1, agent_le w w1 -> agent_inv w1 -> ID e ∈ offered w1 -> ok k w1) -> ok (Act (push e) (fun _ => k)) w.
Proof.
  intros Hk w1 HR HI. destruct (push_inv e w1 HI) as (HI' & HR' & Hoff). split; [done|]. split; [done|].
  apply Hk; [by etrans|done|done].
Qed.

Lemma always_push e w : always (Act (push e) (fun _ => Done)) w.
Proof. intros w1 HR HI. by apply ok_push. Qed.

Lemma kernel_position_ok p : kernel_position p = true -> position_ok p.
Proof.
  unfold kernel_position, position_ok, in_u, in_i. rewrite !andb_true_iff, !Z.leb_le, !Z.ltb_lt.
  change (64 - 1) with 63. lia.
Qed.

Lemma always_handleLogLine fuel s line k w :
  position_ok (Pos line) -> always k w -> always (handleLogLine sha256 cfg fuel s line k) w.
Proof.
  intros Hp Hk. unfold handleLogLine. destruct (IDFromLogLine sha256 (Data line)) as [[id message]|]; [|done].
  apply always_room; [|done]. apply always_observeClaim. intros w1 HR HI.
  apply ok_push. intros w2 HR2 HI2 Hoff.
  apply ok_effect.
  - intros w3 HR3 HI3. apply append_inv; [done| |done]. destruct (al_offered _ _ HR3) as [l ->]. set_solver.
  - intros w3 HR3 HI3. apply Hk; [|done]. etrans; [exact HR|]. by etrans.
Qed.

Lemma always_emit_all fuel s lines k w :
  Forall (fun l => position_ok (Pos l)) lines -> always k w -> always (emit_all sha256 cfg fuel s lines k) w.
Proof.
  intros Hl Hk. induction Hl as [|line lines Hp Hl IH]; [done|]. by apply always_handleLogLine.
Qed.

Lemma kernel_lines lines :
  forallb (fun l => kernel_position (Pos l)) lines = true -> Forall (fun l => position_ok (Pos l)) lines.
Proof.
  rewrite forallb_forall, Forall_forall. intros H l Hl. apply kernel_position_ok, H. by apply list_elem_of_In.
Qed.

Lemma always_followLive s fin w : forall fuel t,
  always fin w -> always (followLive sha256 cfg fuel s t fin) w.
Proof.
  induction fuel as [|fuel IH]; intros t Hf; [by intros w1 _ _|]. intros w1 HR HI.
  apply ok_look. intros w2 HR2 HI2. assert (agent_le w w2) as HR' by (by etrans). clear HR HI w1 HR2.
  case_match; [by apply Hf|]. intros w3 HR3 HI3 a Ha.
  destruct (polled_round cfg t a) as [[[t' lines] sleeps]|]; [|done].
  apply (always_ok agent_inv agent_le); [done|]. apply always_emit_all; [by apply kernel_lines|].
  assert (always fin w3) by (eapply (always_le agent_inv agent_le); [|exact Hf]; by etrans).
  assert (always (followLive sha256 cfg fuel s t' fin) w3)
    by (eapply (always_le agent_inv agent_le); [|by apply IH]; by etrans).
  destruct sleeps; [|done]. apply always_select; done.
Qed.

Lemma always_Follow fuel s resume fin w : always fin w -> always (Follow sha256 cfg fuel s resume fin) w.
Proof.
  intros Hf w1 HR HI w2 HR2 HI2 a Ha. destruct (caught cfg resume a) as [c|]; [|done].
  apply (always_ok agent_inv agent_le); [done|]. apply always_emit_all; [by apply kernel_lines|].
  apply always_followLive. eapply (always_le agent_inv agent_le); [|done]. by etrans.
Qed.

Lemma always_wait s k w : always k w -> always (wait_done s k) w.
Proof. intros Hk w1 HR HI w2 HR2 HI2 a _. apply Hk; [by etrans|done]. Qed.

Lemma always_monitor fuel s baseline k w : always k w -> always (monitor cfg fuel s baseline k) w.
Proof.
  intros Hk. induction fuel as [|fuel IH]; [by intros w1 _ _|]. intros w1 HR HI w2 HR2 HI2 a _.
  assert (agent_le w w2) as HR' by (by etrans). clear w1 HR HI HR2.
  assert (forall k', always k' w -> ok (Act (effect (cancel s)) (fun _ => k')) w2) as Hcancel.
  { intros k' Hk'. apply (always_ok agent_inv agent_le); [done|]. apply always_keep; [by apply cancel_inv|by eapply (always_le agent_inv agent_le)]. }
  assert (ok (Act (look (fun w => eq_dropped (Queue w))) (fun dropped =>
                 if dropped =? baseline then monitor cfg fuel s baseline k else
                 Act (look (fun w => Z.of_nat (eq_depth (Queue w)))) (fun depth =>
                   if depth <=? lowWater cfg
                   then Act (effect (cancel s)) (fun _ => wait_done s k)
                   else monitor cfg fuel s baseline k))) w2) as Htick.
  { apply ok_look. intros w3 HR3 HI3. case_match; [apply IH; [by etrans|done]|].
    apply ok_look. intros w4 HR4 HI4. assert (agent_le w w4) by (do 2 (etrans; [done|]); done).
    case_match; [|by apply IH].
    apply (always_ok agent_inv agent_le); [done|]. apply always_keep; [by apply cancel_inv|]. apply always_wait. by eapply (always_le agent_inv agent_le). }
  destruct a; try exact Htick; [apply Hcancel; by apply always_wait|by apply Hcancel].
Qed.

Lemma always_runLogRoadOnce fuel k w : always k w -> always (runLogRoadOnce sha256 cfg fuel k) w.
Proof.
  intros Hk w1 HR HI w2 HR2 HI2 a _. apply ok_look. intros w3 HR3 HI3.
  set (resume := match a with Works readable => load_position sha256 readable (posFile w3) | _ => None end).
  assert (forall p, resume = Some p -> justified p0 w3 p) as Hres.
  { intros p. subst resume. destruct a as [| | | | |[]]; try done. by apply (ai_position w3). }
  clearbody resume. apply ok_look. intros w4 HR4 HI4. apply ok_look. intros w5 HR5 HI5.
  apply ok_effect; [intros w6 _; by apply keep_rest|]. intros w6 HR6 HI6. apply ok_act. intros w7 HR7 HI7.
  destruct (open_session_inv resume w7) as [HI8 HR8]; [|done|].
  { intros p Hp. eapply justified_mono; [|by apply Hres]. do 3 (etrans; [done|]). done. }
  split; [done|]. split; [done|].
  assert (always k (open_session resume w7).2) as Hk'.
  { eapply (always_le agent_inv agent_le); [|exact Hk]. do 7 (etrans; [done|]). done. }
  split.
  - apply (always_ok agent_inv agent_le); [done|]. apply always_Follow. apply always_keep; [by apply close_done_inv|]. by intros w8 _ _.
  - apply ok_look. intros w9 HR9 HI9. exact (always_monitor fuel _ _ k _ Hk' w9 HR9 HI9).
Qed.

Lemma always_RunLogRoad w : forall fuel, always (RunLogRoad sha256 cfg fuel) w.
Proof.
  intros fuel. induction fuel as [|fuel IH]; [by intros w1 _ _|]. intros w1 HR HI.
  apply ok_look. intros w2 HR2 HI2. case_match; [done|].
  apply (always_runLogRoadOnce _ _ w IH); [by etrans|done].
Qed.

Lemma always_build batch k w :
  (forall ids evs, always (k ids evs) w) -> forall ids evs, always (build batch ids evs k) w.
Proof.
  intros Hk. induction batch as [|qe batch IH]; intros ids evs; [apply Hk|]. intros w1 HR HI.
  apply ok_look. intros w2 HR2 HI2. case_match; [apply IH; [by etrans|done]|].
  apply ok_look. intros w3 HR3 HI3. apply IH; [|done]. do 2 (etrans; [done|]). done.
Qed.

(** The exchange with birdcage: a result without an error is remembered. *)
Lemma push_batch_inv token evs w :
  agent_inv w ->
  agent_inv (push_batch post token evs w).2 /\ agent_le w (push_batch post token evs w).2 /\
  (forall r, (push_batch post token evs w).1 = (r, None) -> r ∈ told (push_batch post token evs w).2).
Proof.
  intros HI. unfold push_batch. destruct (PushBatch (post token) (server w) evs) as [[sv r] err]. simpl.
  destruct (keep_rest w (mkIntake (Queue w) (sessions w) (ledgerPtr w) (collisionsBase w) (lastEventID w)
    (claims w) (posFile w) (stopped w) (current w) sv
    (match err with None => told w ++ [r] | Some _ => told w end) (offered w) (evicted w))) as [HI' HR']; try done.
  { destruct err; simpl; [done|by eexists]. }
  split; [done|]. split; [done|]. intros r' [= -> ->]. set_solver.
Qed.

Lemma always_authed evs k w :
  (forall rv w1, agent_le w w1 -> agent_inv w1 -> (rv.2 = None -> rv.1 ∈ told w1) -> ok (k rv) w1) ->
  always (authedRetryValue post evs k) w.
Proof.
  intros Hk w1 HR HI. apply ok_look. intros w2 HR2 HI2. assert (agent_le w w2) as HR' by (by etrans).
  assert (forall token w3, agent_le w w3 -> agent_inv w3 ->
    agent_inv (push_batch post token evs w3).2 /\ agent_le w (push_batch post token evs w3).2 /\
    agent_le w3 (push_batch post token evs w3).2 /\
    ok (k (push_batch post token evs w3).1) (push_batch post token evs w3).2) as Hpush.
  { intros token w3 HR3 HI3. destruct (push_batch_inv token evs w3 HI3) as (HI4 & HR4 & Ht).
    assert (agent_le w (push_batch post token evs w3).2) by (by etrans).
    do 3 (split; [done|]). apply Hk; [done|done|]. intros He. apply Ht. by destruct (_.1) as [r err]; simpl in *; subst. }
  apply ok_act. intros w3 HR3 HI3. destruct (Hpush (current w2) w3) as (HI4 & HR4 & HR4' & Hok4); [by etrans|done|].
  split; [done|]. split; [done|]. case_match; [exact Hok4|].
  apply ok_look. intros w5 HR5 HI5. case_match.
  - eapply safe_rely; [apply _|exact HR5|exact Hok4].
  - apply ok_act. intros w6 HR6 HI6. destruct (Hpush (current w5) w6) as (? & ? & ? & ?); [|done|done].
    do 2 (etrans; [done|]). done.
Qed.

Lemma always_frontier s k w : always k w -> always (save_frontier sha256 s k) w.
Proof.
  intros Hk w1 HR HI. apply ok_act. intros w2 HR2 HI2. destruct (advance_inv s w2 HI2) as (HI3 & HR3 & Hp).
  split; [done|]. split; [done|].
  assert (always k (advance s w2).2) as Hk' by (eapply (always_le agent_inv agent_le); [|exact Hk]; do 2 (etrans; [done|]); done).
  destruct (advance s w2).1 as [p|]; [|by apply (always_ok agent_inv agent_le)]. destruct (Hp p eq_refl) as [Hj Hpok].
  intros w4 HR4 HI4 a _. apply ok_effect.
  - intros w5 HR5 HI5. apply save_inv; [|done|done]. eapply justified_mono; [|exact Hj]. by etrans.
  - intros w5 HR5 HI5. apply Hk'; [by etrans|done].
Qed.

(** A verdict of a remembered result applied to the queue, the ledger and the
    claims. *)
Lemma always_verdict q s id v k w :
  v = Stored \/ v = Rejected ->
  (forall w1, told_id w1 id -> agent_inv w1 -> agent_inv (set_queue (q (Queue w1)) w1) /\
     agent_le w1 (set_queue (q (Queue w1)) w1)) ->
  told_id w id -> always k w ->
  always (Act (effect (fun w => set_queue (q (Queue w)) w)) (fun _ =>
          Act (effect (resolve s id v)) (fun _ =>
          Act (effect (fun w => set_claims (forget (claims w) id) w)) (fun _ => k)))) w.
Proof.
  intros Hv Hq Ht Hk w1 HR HI.
  assert (forall w', agent_le w w' -> told_id w' id) as Ht'.
  { intros w' HR'. eapply told_mono; [apply HR'|done]. }
  apply ok_effect; [intros w2 HR2 HI2; apply Hq; [apply Ht'; by etrans|done]|]. intros w2 HR2 HI2.
  apply ok_effect; [intros w3 HR3 HI3; apply resolve_inv; [done|apply Ht'|done]; do 2 (etrans; [done|]); done|].
  intros w3 HR3 HI3. apply ok_effect; [intros w4 _; by apply claims_keep|]. intros w4 HR4 HI4.
  apply Hk; [|done]. do 3 (etrans; [done|]). done.
Qed.

Lemma always_verdicts s r k w : r ∈ told w -> (forall last, always (k last) w) ->
  forall ids last, always (verdict_loop s r ids last k) w.
Proof.
  intros Hr Hk. induction ids as [|id ids IH]; intros last; [apply Hk|]. cbn [verdict_loop].
  destruct (bool_decide (id ∈ brStored r) && negb (bool_decide (id ∈ dom (brRejected r)))) eqn:E1;
    [|destruct (bool_decide (id ∈ dom (brRejected r)) && negb (bool_decide (id ∈ brStored r))) eqn:E2; [|apply IH]];
    go_bools; (apply (always_verdict (fun q => _ q id)); [auto| | |apply IH]).
  - intros w1. apply ack_inv.
  - exists r. split; [done|]. by left.
  - intros w1. apply reject_inv.
  - exists r. split; [done|]. by right.
Qed.

Lemma always_applyVerdicts ids r k w :
  r ∈ told w -> always k w -> always (applyVerdicts sha256 ids r k) w.
Proof.
  intros Hr Hk w1 HR HI. apply ok_look. intros w2 HR2 HI2.
  apply (always_verdicts _ _ _ w); [done| |by etrans|done].
  intros last. case_match; [by apply always_frontier|].
  apply always_keep; [intros w3; by apply keep_rest|by apply always_frontier].
Qed.

Lemma always_sender w : forall fuel, always (runSenderLoop sha256 post fuel) w.
Proof.
  intros fuel. induction fuel as [|fuel IH]; [by intros w1 _ _|]. intros w1 HR HI.
  assert (always (select_ctx stopped (fun c => if c then Done else runSenderLoop sha256 post fuel)) w) as Hagain.
  { apply always_select; [by intros w2 _ _|exact IH]. }
  apply ok_look. intros w2 HR2 HI2. case_match; [done|]. apply ok_look. intros w3 HR3 HI3.
  assert (agent_le w w3) as HR' by (do 2 (etrans; [done|]); done).
  destruct (eq_peek (Queue w3) MaxEventsPerBatch) as [|e batch]; [by apply Hagain|].
  apply (always_build (e :: batch) _ w); [|done|done]. intros ids evs. destruct evs as [|ev evs]; [exact Hagain|].
  apply always_select; [by intros w4 _ _|]. apply always_authed. intros [r [err|]] w4 HR4 HI4 Hr.
  - by apply Hagain.
  - apply (always_ok agent_inv agent_le); [done|]. apply always_applyVerdicts; [by apply Hr|]. by eapply (always_le agent_inv agent_le).
Qed.

Lemma always_probe os w : always (probe os) w.
Proof.
  induction os as [|o os IH]; [by intros w1 _ _|]. apply always_keep; [intros w1; by apply claims_keep|done].
Qed.

(** Every goroutine of the agent keeps the invariant. *)
Lemma always_goroutine g w : always (run_goroutine sha256 post cfg g) w.
Proof.
  destruct g as [fuel|fuel|body|m|m|fuel m|m|m|os|token|]; cbn [run_goroutine].
  - apply always_sender.
  - apply always_RunLogRoad.
  - unfold webhookHandler. case_match; [|by intros w1 _ _]. destruct a as [id m].
    apply always_observeClaim, always_push.
  - unfold SubmitPortscanEvent. case_match; [|by intros w1 _ _]. apply always_observeClaim, always_push.
  - unfold SubmitSNMPEvent. case_match; [apply always_push|by intros w1 _ _].
  - unfold SubmitSMBEvent. apply always_room; [|by intros w1 _ _].
    case_match; [apply always_push|by intros w1 _ _].
  - unfold SubmitPoisonerEvent. case_match; [apply always_push|by intros w1 _ _].
  - unfold SubmitSelfTestResultEvent. case_match; [apply always_push|by intros w1 _ _].
  - apply always_probe.
  - apply always_keep; [intros w1; by apply keep_rest|by intros w1 _ _].
  - apply always_keep; [intros w1; by apply keep_rest|by intros w1 _ _].
Qed.
End invariant.

(** A new agent satisfies the invariant. *)
Lemma NewIntake_inv sha256 {S} qc tc num den path file token (sv : S) cfg w0 :
  NewIntake qc tc num den path file token sv = Some (cfg, w0) ->
  agent_inv sha256 (saved sha256 file) 0 w0.
Proof.
  unfold NewIntake. intros H.
  set (mc := MemQueue.mkConfig _ _) in H. case_match.
  destruct (NewMemQueue mc) as [q|] eqn:Hq; [|done]. destruct (Tailer.New tc) as [t|]; [|done].
  destruct (Ledger.New 0) as [l|] eqn:Hl; [|done]. injection H as <- <-.
  destruct (NewMemQueue_spec mc) as [[Hn _]|(q' & Hq' & Hwf & _ & He & Hd & _)]; [congruence|].
  rewrite Hq in Hq'. injection Hq' as <-. destruct (New_spec _ _ Hl) as (Hlwf & Hle & _).
  split; simpl; try done.
  - apply Forall_singleton. split; [done|]. simpl. rewrite Hle.
    split; [|split; [|split; [done|split; done]]].
    + exists 0%nat. split; [|done]. split; [done|]. constructor.
    + by intros e ?%not_elem_of_nil.
  - intros p Hp. by left.
  - by intros id ?%not_elem_of_nil.
Qed.

(** ** Properties *)

Section properties.
Context (sha256 : bytes -> bytes) (sha256_length : forall b, zlen (sha256 b) = sha256_size).
Context {json : Json} {S : Type} (post : string -> S -> list CEvent -> S * outcome).

(** Whatever goroutines of a new agent run, and however they interleave. *)
Definition agent_reaches (file : pos_file) (cfg : settings) (w0 : intake mem_queue S) (gs : list goroutine)
    (c : pool (intake mem_queue S) input) : Prop :=
  (exists qc tc num den path token sv, NewIntake qc tc num den path file token sv = Some (cfg, w0)) /\
  interleaves (mkPool w0 (run_goroutine sha256 post cfg <$> gs)) c.

Lemma agent_reaches_inv file cfg w0 gs c :
  agent_reaches file cfg w0 gs c -> agent_inv sha256 (saved sha256 file) 0 (shared c).
Proof.
  intros [(qc & tc & num & den & path & token & sv & Hn) Hr].
  pose proof (NewIntake_inv sha256 _ _ _ _ _ _ _ _ _ _ Hn) as HI.
  destruct (interleaves_safe _ agent_le w0 _ c Hr HI) as [HI' _]; [|done].
  apply Forall_fmap, Forall_true. intros g. apply (always_goroutine sha256 sha256_length post cfg _ _ g w0); [|done].
  reflexivity.
Qed.

(** C37. The position kept for a restart never runs ahead of birdcage: whatever
    goroutines run and however their operations interleave, across sessions of
    the log road, failed saves and failed exchanges, the position in the file,
    and the one every session resumed from, is the one found at the start or
    that of a line some session entered in its ledger, and then birdcage gave a
    verdict for every line that session entered up to it. *)
Theorem saved_position_behind_verdicts file cfg w0 gs c :
  agent_reaches file cfg w0 gs c ->
  (forall p, saved sha256 (posFile (shared c)) = Some p -> justified (saved sha256 file) (shared c) p) /\
  (forall s x p, sessions (shared c) !! s = Some x -> sResume x = Some p ->
     justified (saved sha256 file) (shared c) p).
Proof.
  intros Hr. pose proof (agent_reaches_inv _ _ _ _ _ Hr) as [_ Hs Hp _ _]. split; [done|].
  intros s x p Hx Hres. destruct (Forall_lookup_1 _ _ _ _ Hs Hx) as (_ & _ & _ & _ & _ & Hj). by apply Hj.
Qed.

(** C38. No event is lost silently: under the same interleavings every event
    offered to the queue, by the webhook, by another detector or from a line of
    the log, has a verdict of birdcage's, is still queued or was evicted; the
    evictions are exactly what the queue's counter says (modulo 2^64); and
    every line entered in a ledger was offered to the queue before. *)
Theorem no_event_lost_silently file cfg w0 gs c :
  agent_reaches file cfg w0 gs c ->
  (forall id, id ∈ offered (shared c) ->
     told_id (shared c) id \/ id ∈ (ID <$> events (Queue (shared c))) \/ id ∈ evicted (shared c)) /\
  Dropped (Queue (shared c)) = u64 (zlen (evicted (shared c))) /\
  (forall s x id pos, sessions (shared c) !! s = Some x -> (id, pos) ∈ sLines x -> id ∈ offered (shared c)).
Proof.
  intros Hr. pose proof (agent_reaches_inv _ _ _ _ _ Hr) as [_ Hs _ Ho Hd]. split; [done|]. split; [exact Hd|].
  intros s x id pos Hx Hin. destruct (Forall_lookup_1 _ _ _ _ Hs Hx) as (_ & _ & _ & _ & Hl & _).
  rewrite Forall_forall in Hl. apply (Hl (id, pos) Hin).
Qed.
End properties.

(** ** Runs *)

Definition ex_store (token : string) (st : nat) (evs : list CEvent) : nat * outcome :=
  (Datatypes.S st, OutOK (Some (mkAck (ceID <$> evs) ∅))).
Definition ex_new : option (settings * intake mem_queue nat) :=
  NewIntake (MemQueue.mkConfig 2 1000) (Tailer.mkConfig 0 0 0 0) 0 0 "log" None "t" 0%nat.
Definition ex_settings : settings :=
  mkSettings 2 1 "log" (Tailer.mkConfig MaxLogLineBytes defaultMaxRotatedFiles defaultMaxRotatedBytes defaultPollInterval).
Definition ex_world : intake mem_queue nat :=
  match ex_new with
  | Some (_, w) => w
  | None => mkIntake (mkQueue 0 0 0 GoList.gl_new ∅ 0 0) [] 0 0 None newClaimTracker None false "" 0%nat [] [] []
  end.
Definition ex_agent (gs : list goroutine) (ss : list (nat * input)) : pool (intake mem_queue nat) input :=
  pschedule ss (mkPool ex_world (@run_goroutine ex_digest ex_json _ _ _ ex_store ex_settings <$> gs)).

(** [n] steps of goroutine [i] that wait for nothing but a timer. *)
Definition goes (n i : nat) : list (nat * input) := replicate n (i, Fires).

Lemma ex_agent_reaches gs ss :
  @agent_reaches ex_digest ex_json _ ex_store None ex_settings ex_world gs (ex_agent gs ss).
Proof.
  split; [|apply pschedule_interleaves].
  exists (MemQueue.mkConfig 2 1000), (Tailer.mkConfig 0 0 0 0), 0, 0, "log", "t", 0%nat. reflexivity.
Qed.

Definition ex_id (n : string) : string := hashHex ex_digest (lit n).

(** The log file as the directory shows it. *)
Definition ex_log (content : bytes) : input :=
  Files [mkCand "log" 7 (zlen content) 0]
    (fun _ => Some (mkOpened (Some 7) true (fun o => [(drop (Z.to_nat o) content, ReadEOF)]))).
Definition ex_line (n : string) : bytes := lit n ++ [10].

(** One event from the webhook is delivered, and one line of the log, whose
    position is saved. *)
Definition ex_roads : list goroutine := [Sender 2; LogRoad 2; Webhook (lit "-{9}")].
Definition ex_deliver : list (nat * input) :=
  goes 2 2 ++ [(1, Fires); (1, Works true)]%nat ++ goes 7 1 ++ [(3, ex_log (ex_line "a{1}"))]%nat ++ goes 4 3 ++
  goes 19 0 ++ [(0, Works true)]%nat ++ goes 1 0.

Lemma saved_position_behind_verdicts_witness :
  saved ex_digest (posFile (shared (ex_agent ex_roads ex_deliver))) = Some (mkPosition 7 5) /\
  justified (saved ex_digest None) (shared (ex_agent ex_roads ex_deliver)) (mkPosition 7 5).
Proof.
  assert (saved ex_digest (posFile (shared (ex_agent ex_roads ex_deliver))) = Some (mkPosition 7 5)) as H
    by (vm_compute; reflexivity).
  split; [exact H|].
  exact (proj1 (@saved_position_behind_verdicts ex_digest ex_digest_length ex_json _ ex_store None ex_settings
    ex_world ex_roads _ (ex_agent_reaches ex_roads ex_deliver)) _ H).
Defined.

(** Three events from the webhook, room for two: the first is evicted. *)
Definition ex_bodies : list goroutine := [Webhook (lit "-{9}"); Webhook (lit "-{2}"); Webhook (lit "-{3}")].
Definition ex_evict : list (nat * input) := goes 2 0 ++ goes 2 1 ++ goes 2 2.

Lemma no_event_lost_silently_witness :
  Dropped (Queue (shared (ex_agent ex_bodies ex_evict))) = 1 /\
  u64 (zlen (evicted (shared (ex_agent ex_bodies ex_evict)))) = 1.
Proof.
  destruct (@no_event_lost_silently ex_digest ex_digest_length ex_json _ ex_store None ex_settings
    ex_world ex_bodies _ (ex_agent_reaches ex_bodies ex_evict)) as (_ & Hd & _).
  assert (Dropped (Queue (shared (ex_agent ex_bodies ex_evict))) = 1) as H by (vm_compute; reflexivity).
  split; [exact H|]. rewrite <- Hd. exact H.
Defined.

(** The queue is full when the log road comes to the first of two lines; an
    eviction and the sender's progress end the session while it waits for
    room, and the second line still finds some. *)
Definition ex_two_lines : input := ex_log (ex_line "a{1}" ++ ex_line "b{2}").
Definition ex_busy : list goroutine :=
  [Sender 3; LogRoad 3; Webhook (lit "-{9}"); Webhook (lit "-{2}"); Webhook (lit "-{3}")].
Definition ex_cancel : list (nat * input) :=
  goes 2 2 ++ goes 2 3 ++ [(1, Fires); (1, Works true)]%nat ++ goes 7 1 ++ [(5, ex_two_lines)]%nat ++ goes 2 5 ++
  goes 9 0 ++ goes 2 4 ++ goes 9 0 ++ goes 4 1 ++ [(5, Cancelled)]%nat ++ goes 4 5 ++
  goes 20 0 ++ [(0, Works true)]%nat ++ goes 1 0 ++ goes 2 5 ++
  [(1, Ended); (1, Fires); (1, Works true)]%nat ++ goes 7 1 ++ [(6, ex_two_lines)]%nat.

(** The session cancelled while the log road waits for room. *)
Lemma cancelled_session_passes_line :
  let w := shared (ex_agent ex_busy ex_cancel) in
  @agent_reaches ex_digest ex_json _ ex_store None ex_settings ex_world ex_busy (ex_agent ex_busy ex_cancel) /\
  IDFromLogLine ex_digest (lit "a{1}") = Ok (ex_id "{1}", lit "{1}") /\
  ex_id "{1}" ∉ offered w /\
  posFile w = Some (encodePosition ex_digest (mkPosition 7 10)) /\
  sResume <$> sessions w = [None; None; Some (mkPosition 7 10)] /\
  (caughtLines <$> caught ex_settings None ex_two_lines) =
    Some [mkLine (lit "a{1}") (mkPosition 7 5); mkLine (lit "b{2}") (mkPosition 7 10)] /\
  (caughtLines <$> caught ex_settings (Some (mkPosition 7 10)) ex_two_lines) = Some [].
Proof.
  split; [apply ex_agent_reaches|]. split; [vm_compute; reflexivity|].
  split; [apply (bool_decide_unpack _); vm_compute; exact I|]. split; [vm_compute; reflexivity|].
  split; [vm_compute; reflexivity|]. split; vm_compute; reflexivity.
Qed.

(** The event of the first line also came by the webhook; its verdict arrives
    between the line's push and its entry in the ledger. A second line
    follows. *)
Definition ex_follow (content : bytes) : input :=
  Round (mkEnv None [(content, ReadEOF)] (Some (Some 7)) [] (Some 10) true).
Definition ex_race_roads : list goroutine := [Sender 3; LogRoad 3; Webhook (lit "-{2}")].
Definition ex_race : list (nat * input) :=
  goes 2 2 ++ [(1, Fires); (1, Works true)]%nat ++ goes 7 1 ++ goes 7 0 ++
  [(3, ex_log (ex_line "b{2}"))]%nat ++ goes 3 3 ++ goes 6 0 ++ goes 2 3 ++
  [(3, ex_follow (ex_line "c{3}"))]%nat ++ goes 4 3 ++ goes 13 0.

(** The verdict applied between the push and the ledger's entry. *)
Lemma verdict_before_append_stalls :
  let w := shared (ex_agent ex_race_roads ex_race) in
  @agent_reaches ex_digest ex_json _ ex_store None ex_settings ex_world ex_race_roads (ex_agent ex_race_roads ex_race) /\
  told_id w (ex_id "{2}") /\ told_id w (ex_id "{3}") /\ events (Queue w) = [] /\ evicted w = [] /\
  (exists x, sessions w !! ledgerPtr w = Some x /\
     sLines x = [(ex_id "{2}", mkPosition 7 5); (ex_id "{3}", mkPosition 7 10)] /\
     ((fun e => (eid e, resolved e)) <$> entries (sLedger x)) = [(ex_id "{2}", false); (ex_id "{3}", true)] /\
     (Advance (sLedger x)).2 = None) /\
  posFile w = None.
Proof.
  split; [apply ex_agent_reaches|].
  assert (told (shared (ex_agent ex_race_roads ex_race)) =
    [mkResult [ex_id "{2}"] ∅ []; mkResult [ex_id "{3}"] ∅ []]) as Ht by (vm_compute; reflexivity).
  split; [|split; [|split; [|split; [|split]]]].
  - exists (mkResult [ex_id "{2}"] ∅ []). rewrite Ht.
    split; [by left|]. left. split; [by left|]. cbn [brRejected]. rewrite dom_empty. apply not_elem_of_empty.
  - exists (mkResult [ex_id "{3}"] ∅ []). rewrite Ht.
    split; [right; by left|]. left. split; [by left|]. cbn [brRejected]. rewrite dom_empty. apply not_elem_of_empty.
  - vm_compute. reflexivity.
  - vm_compute. reflexivity.
  - eexists. split; [vm_compute; reflexivity|]. split; [|split]; vm_compute; reflexivity.
  - vm_compute. reflexivity.
Qed.

(** Two executions the delivery guarantees stop short of. A line can be
    passed over: when a session is cancelled while the log road waits for room,
    it gives up the line it holds and goes on to the next, which a queue with
    room again accepts; once birdcage stored that one, the frontier and the
    saved position are past the first line, the next session resumes after it,
    and its event was never offered to the queue. And the frontier can stall:
    birdcage has given a verdict for both events, the queue is empty and every
    line was entered, but the first line's entry was made after its verdict and
    is never resolved, so no position is saved. *)
Theorem delivery_falls_short :
  (let w := shared (ex_agent ex_busy ex_cancel) in
     @agent_reaches ex_digest ex_json _ ex_store None ex_settings ex_world ex_busy (ex_agent ex_busy ex_cancel) /\
     IDFromLogLine ex_digest (lit "a{1}") = Ok (ex_id "{1}", lit "{1}") /\
     ex_id "{1}" ∉ offered w /\
     posFile w = Some (encodePosition ex_digest (mkPosition 7 10)) /\
     sResume <$> sessions w = [None; None; Some (mkPosition 7 10)] /\
     (caughtLines <$> caught ex_settings None ex_two_lines) =
       Some [mkLine (lit "a{1}") (mkPosition 7 5); mkLine (lit "b{2}") (mkPosition 7 10)] /\
     (caughtLines <$> caught ex_settings (Some (mkPosition 7 10)) ex_two_lines) = Some []) /\
  (let w := shared (ex_agent ex_race_roads ex_race) in
     @agent_reaches ex_digest ex_json _ ex_store None ex_settings ex_world ex_race_roads (ex_agent ex_race_roads ex_race) /\
     told_id w (ex_id "{2}") /\ told_id w (ex_id "{3}") /\ events (Queue w) = [] /\ evicted w = [] /\
     (exists x, sessions w !! ledgerPtr w = Some x /\
        sLines x = [(ex_id "{2}", mkPosition 7 5); (ex_id "{3}", mkPosition 7 10)] /\
        ((fun e => (eid e, resolved e)) <$> entries (sLedger x)) = [(ex_id "{2}", false); (ex_id "{3}", true)] /\
        (Advance (sLedger x)).2 = None) /\
     posFile w = None).
Proof. split; [exact cancelled_session_passes_line|exact verdict_before_append_stalls]. Qed.
