(* ===== verification/Sql.v ===== *)
(** Database programs: the handlers of [internal/store] as trees of atomic SQL
    statements, their interleaving, and a rely-guarantee rule for them.

    A statement is a function of the database that answers with the new
    database and a result, or [None] when a constraint refuses it. A
    transaction on the single SQLite connection ([internal/db/db.go],
    [SetMaxOpenConns(1)]) excludes every other statement, so it is one atomic
    statement too. Any statement may also fail without having happened, or
    have happened although its answer was lost; the code sees an error in
    both cases. *)
From S2P Require Import Prelude.

Inductive prog (DB A : Type) : Type :=
| Ret (a : A)
| Stmt {R : Type} (f : DB -> option (DB * R)) (k : option R -> prog DB A).
Arguments Ret {DB A} a.
Arguments Stmt {DB A R} f k.

Fixpoint pbind {DB A B : Type} (p : prog DB A) (g : A -> prog DB B) : prog DB B :=
  match p with
  | Ret a => g a
  | Stmt f k => Stmt f (fun r => pbind (k r) g)
  end.

(** A read leaves the database alone. *)
Definition query {DB R : Type} (q : DB -> R) : DB -> option (DB * R) := fun db => Some (db, q db).

(** The program run alone, every statement answering. *)
Fixpoint exec {DB A : Type} (p : prog DB A) (db : DB) : DB * A :=
  match p with
  | Ret a => (db, a)
  | Stmt f k =>
      match f db with
      | Some (db', r) => exec (k (Some r)) db'
      | None => exec (k None) db
      end
  end.

Lemma exec_pbind {DB A B} (p : prog DB A) (g : A -> prog DB B) : forall db,
  exec (pbind p g) db = let '(db', a) := exec p db in exec (g a) db'.
Proof.
  induction p as [a|T f k IH]; intros db; simpl; [done|]. destruct (f db) as [[db' r]|]; apply IH.
Qed.

(** [Begin] ... [Commit]: the body runs as one statement and is rolled back
    when it answers with an error. *)
Definition transaction {DB E A : Type} (body : prog DB (res E A)) : DB -> option (DB * res E A) :=
  fun db =>
    match exec body db with
    | (db', Ok a) => Some (db', Ok a)
    | (_, Err e) => Some (db, Err e)
    end.

(** The same as a program: an error of [Begin] or [Commit] is [lost]. *)
Definition in_transaction {DB E A : Type} (lost : E) (body : prog DB (res E A)) : prog DB (res E A) :=
  Stmt (transaction body) (fun r => Ret (match r with Some x => x | None => Err lost end)).

(** A program over one table of a database. *)
Fixpoint on_table {DB T A : Type} (get : DB -> T) (put : T -> DB -> DB) (p : prog T A) : prog DB A :=
  match p with
  | Ret a => Ret a
  | Stmt f k =>
      Stmt (fun db => match f (get db) with Some (t, r) => Some (put t db, r) | None => None end)
        (fun r => on_table get put (k r))
  end.

Lemma exec_on_table {DB T A} (get : DB -> T) (put : T -> DB -> DB) (p : prog T A) :
  (forall db, put (get db) db = db) -> (forall t db, get (put t db) = t) -> (forall t u db, put t (put u db) = put t db) ->
  forall db, exec (on_table get put p) db = (put (exec p (get db)).1 db, (exec p (get db)).2).
Proof.
  intros Hpg Hgp Hpp. induction p as [a|U f k IH]; intros db; simpl; [by rewrite Hpg|].
  destruct (f (get db)) as [[t r]|]; rewrite IH; [|done]. by rewrite Hgp, Hpp.
Qed.

(** ** Tables *)

(** What becomes of a table whose rows change within [P] and are never
    deleted: new rows come last. *)
Section tables.
Context {Row : Type} (P : Row -> Row -> Prop).

Definition table_le (l l' : list Row) : Prop := exists l1 l2, l' = l1 ++ l2 /\ Forall2 P l l1.

#[export] Instance table_le_preorder `{!PreOrder P} : PreOrder table_le.
Proof.
  split.
  - intros l. exists l, []. rewrite app_nil_r. split; [done|]. reflexivity.
  - intros a b c (b1 & b2 & -> & Hab) (c1 & c2 & -> & Hbc).
    apply Forall2_app_inv_l in Hbc as (d1 & d2 & H1 & H2 & ->).
    exists d1, (d2 ++ c2). split; [by rewrite app_assoc|]. by transitivity b1.
Qed.

Lemma table_le_map f l : (forall r, r ∈ l -> P r (f r)) -> table_le l (f <$> l).
Proof.
  intros Hf. exists (f <$> l), []. rewrite app_nil_r. split; [done|].
  induction l as [|r l IH]; constructor; [apply Hf; by left|]. apply IH. intros x Hx. apply Hf. by right.
Qed.

Lemma table_le_insert `{!Reflexive P} r l : table_le l (l ++ [r]).
Proof. exists l, [r]. split; [done|]. reflexivity. Qed.

Lemma table_le_in l l' r : table_le l l' -> r ∈ l -> exists r', r' ∈ l' /\ P r r'.
Proof.
  intros (l1 & l2 & -> & Hf) Hr. apply list_elem_of_lookup in Hr as [i Hi].
  destruct (Forall2_lookup_l _ _ _ _ _ Hf Hi) as (r' & Hi' & Hle). exists r'.
  split; [|done]. apply elem_of_app. left. by eapply list_elem_of_lookup_2.
Qed.

(** A column no change touches. *)
Lemma table_column_map {B} (g : Row -> B) f (l : list Row) :
  (forall r, r ∈ l -> g (f r) = g r) -> g <$> (f <$> l) = g <$> l.
Proof.
  intros Hg. rewrite <- list_fmap_compose. apply list_fmap_ext. intros i r Hi. simpl.
  apply Hg. by eapply list_elem_of_lookup_2.
Qed.
End tables.

Lemma length_filter_map {A B} (P : B -> Prop) (Q : A -> Prop) `{forall x, Decision (P x), forall x, Decision (Q x)}
    (g : A -> B) (l : list A) :
  (forall x, x ∈ l -> P (g x) <-> Q x) -> length (filter P (g <$> l)) = length (filter Q l).
Proof.
  induction l as [|x l IH]; intros Hl; [done|]. rewrite fmap_cons, !filter_cons.
  assert (length (filter P (g <$> l)) = length (filter Q l)) as IH' by (apply IH; intros y Hy; apply Hl; by right).
  pose proof (Hl x ltac:(left)) as Hx. destruct (decide (P (g x))), (decide (Q x)); simpl; tauto || lia.
Qed.

(** A key identifies its row. *)
Lemma NoDup_fmap_in {A B} (f : A -> B) (l : list A) x y : NoDup (f <$> l) -> x ∈ l -> y ∈ l -> f x = f y -> x = y.
Proof.
  intros Hnd [i Hi]%list_elem_of_lookup [j Hj]%list_elem_of_lookup Hxy.
  assert (i = j) as ->; [|congruence]. eapply NoDup_lookup; [exact Hnd| |].
  - rewrite list_lookup_fmap, Hi. done.
  - rewrite list_lookup_fmap, Hj. simpl. by rewrite Hxy.
Qed.

(** A condition on the key selects one row at most. *)
Lemma filter_key {A B} (key : A -> B) (P : A -> Prop) `{forall x, Decision (P x)} (l : list A) x :
  NoDup (key <$> l) -> x ∈ l -> P x -> (forall y, P y -> key y = key x) -> filter P l = [x].
Proof.
  induction l as [|y l IH]; intros Hnd Hin HP Hk; [by apply not_elem_of_nil in Hin|].
  rewrite fmap_cons in Hnd. apply NoDup_cons in Hnd as [Hy Hnd].
  apply elem_of_cons in Hin as [<-|Hin].
  - rewrite filter_cons_True by done. f_equal. apply filter_none, Forall_forall. intros z Hz HPz.
    apply Hy, list_elem_of_fmap. exists z. by rewrite (Hk z HPz).
  - rewrite filter_cons_False; [by apply IH|]. intros HPy. apply Hy, list_elem_of_fmap.
    exists x. by rewrite (Hk y HPy).
Qed.

Lemma NoDup_fmap_snoc {A B} (f : A -> B) (l : list A) x :
  NoDup (f <$> l) -> (forall y, y ∈ l -> f y ≠ f x) -> NoDup (f <$> (l ++ [x])).
Proof.
  intros Hnd Hx. rewrite fmap_app. apply NoDup_app. split; [done|]. split; [|apply NoDup_singleton].
  intros b (y & -> & Hy)%list_elem_of_fmap Heq%list_elem_of_singleton. by apply (Hx y).
Qed.

(** ** Interleaving *)

(** The trace keeps, for each statement that happened, the thread and the
    database before and after. *)
Record conf (DB A : Type) : Type := mkConf {
  cdb : DB;
  cpool : list (prog DB A);
  ctrace : list (nat * (DB * DB));
}.
Arguments mkConf {DB A}.
Arguments cdb {DB A}.
Arguments cpool {DB A}.
Arguments ctrace {DB A}.

Inductive step {DB A : Type} : conf DB A -> conf DB A -> Prop :=
| step_run db pool tr i R (f : DB -> option (DB * R)) k db' r :
    pool !! i = Some (Stmt f k) -> f db = Some (db', r) ->
    step (mkConf db pool tr) (mkConf db' (<[i := k (Some r)]> pool) (tr ++ [(i, (db, db'))]))
| step_lost db pool tr i R (f : DB -> option (DB * R)) k db' r :
    pool !! i = Some (Stmt f k) -> f db = Some (db', r) ->
    step (mkConf db pool tr) (mkConf db' (<[i := k None]> pool) (tr ++ [(i, (db, db'))]))
| step_fail db pool tr i R (f : DB -> option (DB * R)) k :
    pool !! i = Some (Stmt f k) ->
    step (mkConf db pool tr) (mkConf db (<[i := k None]> pool) tr).

Definition runs {DB A : Type} : conf DB A -> conf DB A -> Prop := rtc step.

Definition start {DB A : Type} (db : DB) (pool : list (prog DB A)) : conf DB A := mkConf db pool [].

Definition own {DB : Type} (i : nat) (tr : list (nat * (DB * DB))) : list (DB * DB) :=
  omap (fun s => if decide (s.1 = i) then Some s.2 else None) tr.

Lemma own_snoc {DB} i j (tr : list (nat * (DB * DB))) s :
  own i (tr ++ [(j, s)]) = if decide (j = i) then own i tr ++ [s] else own i tr.
Proof.
  unfold own. rewrite omap_app. simpl. case_decide; [done|]. by rewrite app_nil_r.
Qed.

(** ** The rule *)

Section rely.
Context {DB A : Type} (Inv : DB -> Prop) (R : DB -> DB -> Prop) `{!PreOrder R}.

(** [p], which has made the statements [o], keeps the invariant, changes the
    database within [R] only and answers as [post] says, whatever changes
    within [R] happen between its statements. *)
Fixpoint valid (post : A -> list (DB * DB) -> Prop) (p : prog DB A) (o : list (DB * DB)) (db : DB) : Prop :=
  match p with
  | Ret a => post a o
  | Stmt f k =>
      forall db1, R db db1 -> Inv db1 ->
        (forall db' r, f db1 = Some (db', r) ->
           Inv db' /\ R db1 db' /\ valid post (k (Some r)) (o ++ [(db1, db')]) db' /\
           valid post (k None) (o ++ [(db1, db')]) db') /\
        valid post (k None) o db1
  end.

Lemma valid_rely post p o db db1 : R db db1 -> valid post p o db -> valid post p o db1.
Proof.
  intros HR. destruct p as [a|T f k]; simpl; [done|]. intros Hv db2 HR2 HI.
  apply Hv; [by transitivity db1|done].
Qed.

Lemma valid_mono (post post' : A -> list (DB * DB) -> Prop) p : forall o db,
  (forall a o, post a o -> post' a o) -> valid post p o db -> valid post' p o db.
Proof.
  induction p as [a|T f k IH]; simpl; intros o db Hp Hv; [auto|].
  intros db1 HR HI. destruct (Hv db1 HR HI) as [H1 H2]. split; [|by apply IH].
  intros db' r Hf. destruct (H1 db' r Hf) as (? & ? & ? & ?). split_and!; auto.
Qed.

(** Run alone, every statement answering. *)
Lemma valid_exec post p : forall o db,
  Inv db -> valid post p o db -> (forall s, s ∈ o -> R s.2 db) ->
  Inv (exec p db).1 /\ R db (exec p db).1 /\
  exists o', post (exec p db).2 o' /\ forall s, s ∈ o' -> R s.2 (exec p db).1.
Proof.
  induction p as [a|T f k IH]; simpl; intros o db HI Hv Ho.
  { split; [done|]. split; [reflexivity|]. by exists o. }
  destruct (Hv db ltac:(reflexivity) HI) as [Hok Hno]. destruct (f db) as [[db' r]|]; [|by eapply IH].
  destruct (Hok db' r eq_refl) as (HI' & HR & Hk & _).
  destruct (IH (Some r) _ db' HI' Hk) as (H1 & H2 & H3).
  { intros s [Hs| ->%list_elem_of_singleton]%elem_of_app; [|reflexivity]. transitivity db; [by apply Ho|done]. }
  split; [done|]. split; [by transitivity db'|done].
Qed.

(** Statements one after another, each from where the last one ended. *)
Fixpoint chain (db0 : DB) (tr : list (nat * (DB * DB))) (db : DB) : Prop :=
  match tr with
  | [] => db = db0
  | (_, (a, b)) :: tr => a = db0 /\ (Inv a /\ Inv b /\ R a b) /\ chain b tr db
  end.

Lemma chain_snoc db0 tr db i db' :
  chain db0 tr db -> Inv db -> Inv db' -> R db db' -> chain db0 (tr ++ [(i, (db, db'))]) db'.
Proof.
  revert db0. induction tr as [|[j [a b]] tr IH]; intros db0; simpl; [by intros ->|].
  intros (-> & Hab & Hc) ? ? HR. auto.
Qed.

Lemma chain_step db0 tr db n i a b : chain db0 tr db -> tr !! n = Some (i, (a, b)) -> R a b.
Proof.
  revert db0 n. induction tr as [|[j [x y]] tr IH]; intros db0 n; [done|]. intros (-> & (_ & _ & ?) & Hc) Hn.
  destruct n as [|n]; [by injection Hn as -> <- <-|]. by eapply IH.
Qed.

Lemma chain_inv db0 tr db n i a b : chain db0 tr db -> tr !! n = Some (i, (a, b)) -> Inv a /\ Inv b.
Proof.
  revert db0 n. induction tr as [|[j [x y]] tr IH]; intros db0 n; [done|]. intros (-> & (? & ? & _) & Hc) Hn.
  destruct n as [|n]; [by injection Hn as -> <- <-|]. by eapply IH.
Qed.

Lemma chain_R db0 tr db : chain db0 tr db -> R db0 db.
Proof.
  revert db0. induction tr as [|[j [a b]] tr IH]; intros db0; simpl; [by intros ->|].
  intros (-> & (_ & _ & Hab) & Hc). transitivity b; [done|by apply IH].
Qed.

(** Of two statements of a run, one was made within [R] of the other's end. *)
Lemma chain_ordered db0 tr db n m i j a b c d :
  chain db0 tr db -> (n < m)%nat -> tr !! n = Some (i, (a, b)) -> tr !! m = Some (j, (c, d)) -> R b c.
Proof.
  revert db0 n m. induction tr as [|[l [x y]] tr IH]; intros db0 n m; [done|].
  intros (-> & (_ & _ & Hxy) & Hc) Hnm Hn Hm. destruct m as [|m]; [lia|]. simpl in Hm.
  destruct n as [|n]; [|eapply (IH y n m); [done|lia|done|done]].
  injection Hn as -> <- <-. clear IH. revert y Hxy Hc m Hnm Hm.
  induction tr as [|[l' [x' y']] tr IH]; intros y Hxy Hc m _ Hm; [done|]. destruct Hc as (-> & (_ & _ & Hxy') & Hc).
  destruct m as [|m]; [by injection Hm as -> <- <-|]. simpl in Hm.
  transitivity y'; [done|]. eapply (IH y' (PreOrder_Transitive _ _ _ Hxy Hxy') Hc m); [lia|done].
Qed.

(** A statement of a run was made within [R] of the present. *)
Lemma chain_after db0 tr db n i a b : chain db0 tr db -> tr !! n = Some (i, (a, b)) -> R b db.
Proof.
  revert db0 n. induction tr as [|[j [x y]] tr IH]; intros db0 n; [done|]. intros (-> & _ & Hc) Hn.
  destruct n as [|n]; [|by eapply IH]. injection Hn as -> <- <-. by eapply chain_R.
Qed.

Lemma chain_before db0 tr db n i a b : chain db0 tr db -> tr !! n = Some (i, (a, b)) -> R db0 a.
Proof.
  revert db0 n. induction tr as [|[j [x y]] tr IH]; intros db0 n; [done|]. intros (-> & (_ & _ & Hxy) & Hc) Hn.
  destruct n as [|n]; [by injection Hn as -> <- <-|]. transitivity y; [done|]. by eapply IH.
Qed.

Lemma own_lookup i (tr : list (nat * (DB * DB))) s : s ∈ own i tr -> exists n, tr !! n = Some (i, s).
Proof.
  unfold own. rewrite list_elem_of_omap. intros ([j s'] & Hin & Hs). simpl in Hs. case_decide; [|done].
  injection Hs as ->. subst j. by apply list_elem_of_lookup in Hin.
Qed.

Lemma runs_valid (posts : nat -> A -> list (DB * DB) -> Prop) db0 pool0 c :
  runs (start db0 pool0) c -> Inv db0 ->
  (forall i p, pool0 !! i = Some p -> valid (posts i) p [] db0) ->
  Inv (cdb c) /\ chain db0 (ctrace c) (cdb c) /\ length (cpool c) = length pool0 /\
  (forall i p, cpool c !! i = Some p -> valid (posts i) p (own i (ctrace c)) (cdb c)).
Proof.
  intros Hr HI Hv. revert c Hr. apply (rtc_ind_r _ (start db0 pool0)); [by simpl|].
  intros c c' _ Hs (HI' & Hc & Hlen & Hp).
  assert (forall db db' (pool : list (prog DB A)) i p q (tr : list (nat * (DB * DB))),
    pool !! i = Some p -> R db db' ->
    (forall j q, pool !! j = Some q -> valid (posts j) q (own j tr) db) ->
    valid (posts i) q (own i tr ++ [(db, db')]) db' ->
    forall j r, <[i := q]> pool !! j = Some r ->
      valid (posts j) r (own j (tr ++ [(i, (db, db'))])) db') as Hupd.
  { intros db db' pool i p q tr Hi HR Hall Hq j r Hj. rewrite own_snoc. case_decide as Hij.
    - subst j. rewrite list_lookup_insert_eq in Hj by (by eapply lookup_lt_Some). by injection Hj as <-.
    - rewrite list_lookup_insert_ne in Hj by done. eapply valid_rely; [done|]. by apply Hall. }
  destruct Hs as [db pool tr i T f k db' r Hi Hf|db pool tr i T f k db' r Hi Hf|db pool tr i T f k Hi]; simpl in *;
    rewrite length_insert; pose proof (Hp i _ Hi db ltac:(reflexivity) HI') as [Hrun Hfail].
  - destruct (Hrun _ _ Hf) as (? & ? & ? & ?). split_and!; [done|by apply chain_snoc|done|]. by eapply Hupd.
  - destruct (Hrun _ _ Hf) as (? & ? & ? & ?). split_and!; [done|by apply chain_snoc|done|]. by eapply Hupd.
  - split_and!; try done. intros j p Hj. destruct (decide (j = i)) as [->|Hne].
    + rewrite list_lookup_insert_eq in Hj by (by eapply lookup_lt_Some). by injection Hj as <-.
    + rewrite list_lookup_insert_ne in Hj by done. by apply Hp.
Qed.

(** A pool of requests, each served by its program: what each answered. *)
Lemma served {Req : Type} (serve : Req -> prog DB A) (answered : Req -> A -> list (DB * DB) -> Prop) db0 rqs c :
  (forall rq db, valid (answered rq) (serve rq) [] db) -> Inv db0 -> runs (start db0 (serve <$> rqs)) c ->
  Inv (cdb c) /\ R db0 (cdb c) /\ chain db0 (ctrace c) (cdb c) /\
  forall i rq a, rqs !! i = Some rq -> cpool c !! i = Some (Ret a) -> answered rq a (own i (ctrace c)).
Proof.
  intros Hv HI Hr.
  destruct (runs_valid (fun i a o => exists rq, rqs !! i = Some rq /\ answered rq a o) db0 (serve <$> rqs) c Hr HI)
    as (HI' & Hch & _ & Hp).
  { intros i p Hi. rewrite list_lookup_fmap in Hi. apply fmap_Some in Hi as (rq & Hi & ->).
    eapply valid_mono; [|apply Hv]. simpl. eauto. }
  split; [done|]. split; [by eapply chain_R|]. split; [done|]. intros i rq a Hi Ha.
  destruct (Hp i _ Ha) as (rq' & Hrq & Hans). rewrite Hi in Hrq. by injection Hrq as <-.
Qed.
End rely.

(** One program after another, and a program over one table of a database
    whose invariant and order are its table's. *)
Lemma valid_pbind {DB A B} (Inv : DB -> Prop) (R : DB -> DB -> Prop) `{!PreOrder R}
    (post : B -> list (DB * DB) -> Prop) (post' : A -> list (DB * DB) -> Prop) (p : prog DB B) (g : B -> prog DB A) :
  forall o db, valid Inv R post p o db ->
  (forall a o db', R db db' -> post a o -> valid Inv R post' (g a) o db') -> valid Inv R post' (pbind p g) o db.
Proof.
  induction p as [a|T f k IH]; simpl; intros o db Hv Hg; [by apply Hg|].
  intros db1 HR HI. destruct (Hv db1 HR HI) as [H1 H2].
  assert (forall db2, R db1 db2 -> forall a o db', R db2 db' -> post a o -> valid Inv R post' (g a) o db') as Hg1.
  { intros db2 HR2 a o' db' HR'. apply Hg. by transitivity db2; [transitivity db1|]. }
  split; [|by apply IH; [|apply Hg1]]. intros db' r Hf. destruct (H1 db' r Hf) as (HI' & HR' & Hk & Hn).
  split; [done|]. split; [done|]. split; apply IH; [done|by apply Hg1|done|by apply Hg1].
Qed.

(** The same, told that nothing done so far has been undone. *)
Lemma valid_pbind_after {DB A B} (Inv : DB -> Prop) (R : DB -> DB -> Prop) `{!PreOrder R}
    (post : B -> list (DB * DB) -> Prop) (post' : A -> list (DB * DB) -> Prop) (p : prog DB B) (g : B -> prog DB A) :
  forall o db, valid Inv R post p o db -> (forall s, s ∈ o -> R s.2 db) ->
  (forall a o db', R db db' -> (forall s, s ∈ o -> R s.2 db') -> post a o -> valid Inv R post' (g a) o db') ->
  valid Inv R post' (pbind p g) o db.
Proof.
  induction p as [a|T f k IH]; simpl; intros o db Hv Ho Hg; [by apply Hg|].
  intros db1 HR HI. destruct (Hv db1 HR HI) as [H1 H2].
  assert (forall s, s ∈ o -> R s.2 db1) as Ho1 by (intros s Hs; transitivity db; auto).
  split; [|apply IH; [done|done|intros a o' db' HR' Ho'; apply Hg; [by transitivity db1|done]]].
  intros db' r Hf. destruct (H1 db' r Hf) as (HI' & HR' & Hk & Hn). split; [done|]. split; [done|].
  assert (forall s, s ∈ o ++ [(db1, db')] -> R s.2 db') as Ho'.
  { intros s [Hs| ->%list_elem_of_singleton]%elem_of_app; [transitivity db1; auto|reflexivity]. }
  split; (apply IH; [done|done|]; intros a o' db2 HR2 Ho2; apply Hg; [|done]; transitivity db'; [|done]; by transitivity db1).
Qed.

Lemma valid_on_table {DB T A} (InvT : T -> Prop) (RT : T -> T -> Prop) (Inv : DB -> Prop) (R : DB -> DB -> Prop)
    (get : DB -> T) (put : T -> DB -> DB) (Q : A -> Prop) (p : prog T A) :
  (forall db, Inv db -> InvT (get db)) -> (forall db db', R db db' -> RT (get db) (get db')) ->
  (forall db t, Inv db -> InvT t -> RT (get db) t -> Inv (put t db) /\ R db (put t db)) ->
  (forall t db, get (put t db) = t) ->
  forall ot o db, valid InvT RT (fun a _ => Q a) p ot (get db) -> valid Inv R (fun a _ => Q a) (on_table get put p) o db.
Proof.
  intros Hi Hr Hput Hget. induction p as [a|U f k IH]; simpl; intros ot o db Hv; [done|].
  intros db1 HR HI. destruct (Hv (get db1) (Hr _ _ HR) (Hi _ HI)) as [H1 H2]. split; [|by eapply IH].
  intros db' r Hf. destruct (f (get db1)) as [[t u]|]; [|done]. injection Hf as <- <-.
  destruct (H1 t u eq_refl) as (HI' & HR' & Hk & Hn). destruct (Hput db1 t HI HI' HR').
  split; [done|]. split; [done|]. split; (eapply IH; rewrite Hget; eassumption).
Qed.

(** ** Running a schedule *)

(** The next statement of thread [i], when it has one. *)
Definition advance {DB A : Type} (c : conf DB A) (i : nat) : conf DB A :=
  match cpool c !! i with
  | Some (Stmt f k) =>
      match f (cdb c) with
      | Some (db', r) => mkConf db' (<[i := k (Some r)]> (cpool c)) (ctrace c ++ [(i, (cdb c, db'))])
      | None => mkConf (cdb c) (<[i := k None]> (cpool c)) (ctrace c)
      end
  | _ => c
  end.

Definition schedule {DB A : Type} (is_ : list nat) (c : conf DB A) : conf DB A := foldl advance c is_.

Lemma schedule_runs {DB A} is_ (c : conf DB A) : runs c (schedule is_ c).
Proof.
  revert c. induction is_ as [|i is_ IH]; intros c; [apply rtc_refl|]. unfold runs, schedule. cbn [foldl].
  transitivity (advance c i); [|apply IH]. unfold advance. destruct c as [db pool tr]. simpl.
  destruct (pool !! i) as [[a|T f k]|] eqn:Hi; [apply rtc_refl| |apply rtc_refl].
  destruct (f db) as [[db' r]|] eqn:Hf; apply rtc_once; [by eapply step_run|by eapply step_fail].
Qed.

(** ** A program alone with its table *)

Section alone.
Context {DB : Type} (others : DB -> DB -> Prop) `{!PreOrder others}.

(** A run of a program whose statements may fail or lose their answer, and
    which may stop anywhere ([None]); [others] is what the rest of the server
    may change between its statements. *)
Fixpoint alone {A : Type} (p : prog DB A) (d d' : DB) (r : option A) : Prop :=
  match p with
  | Ret a => others d d' /\ (r = Some a \/ r = None)
  | Stmt f k =>
      exists d0, others d d0 /\
        ((d' = d0 /\ r = None) \/ alone (k None) d0 d' r \/
         exists d1 x, f d0 = Some (d1, x) /\ (alone (k (Some x)) d1 d' r \/ alone (k None) d1 d' r))
  end.

(** One program after another. *)
Lemma alone_pbind {A B} (p : prog DB B) (g : B -> prog DB A) : forall d d' r,
  alone (pbind p g) d d' r ->
  (exists d1 b, alone p d d1 (Some b) /\ alone (g b) d1 d' r) \/ (alone p d d' None /\ r = None).
Proof.
  induction p as [b|T f k IH]; intros d d' r Ha; cbn [pbind alone] in *.
  { left. exists d, b. split; [|done]. split; [reflexivity|auto]. }
  destruct Ha as (d0 & H0 & [[-> ->]|[Hn|(d1 & x & Hf & Hx)]]).
  - right. split; [|done]. exists d0. auto.
  - apply IH in Hn as [(d2 & b & Hp & Hg)|[Hp ->]]; [left; exists d2, b; split; [|done]|right; split; [|done]]; exists d0; auto.
  - destruct Hx as [Hx|Hx]; apply IH in Hx as [(d2 & b & Hp & Hg)|[Hp ->]];
      [left; exists d2, b; split; [|done]|right; split; [|done]|left; exists d2, b; split; [|done]|right; split; [|done]];
      exists d0; split; try done; right; right; exists d1, x; auto.
Qed.

(** Nothing has to fail. *)
Lemma alone_exec {A} (p : prog DB A) : forall d, alone p d (exec p d).1 (Some (exec p d).2).
Proof.
  induction p as [a|T f k IH]; intros d; cbn [alone exec].
  { split; [reflexivity|auto]. }
  exists d. split; [reflexivity|]. destruct (f d) as [[d1 x]|]; [right; right; exists d1, x; auto|right; left; apply IH].
Qed.

(** What the rely-guarantee rule says of such a run. *)
Lemma alone_valid {A} (Inv : DB -> Prop) (R : DB -> DB -> Prop) `{!PreOrder R}
    (post : A -> list (DB * DB) -> Prop) (p : prog DB A) r :
  (forall a b, others a b -> Inv a -> Inv b /\ R a b) ->
  forall d d' o, alone p d d' r -> Inv d -> valid Inv R post p o d ->
  Inv d' /\ R d d' /\ match r with Some a => exists o', post a o' | None => True end.
Proof.
  intros Hothers. induction p as [a|T f k IH]; intros d d' o Ha HI Hv; cbn [alone valid] in *.
  { destruct Ha as [Ho Hr]. destruct (Hothers _ _ Ho HI) as [HI' HR]. split; [done|]. split; [done|].
    destruct Hr as [-> | ->]; [by exists o|done]. }
  destruct Ha as (d0 & H0 & Hc). destruct (Hothers _ _ H0 HI) as [HI0 HR0]. destruct (Hv d0 HR0 HI0) as [H1 H2].
  destruct Hc as [[-> ->]|[Hn|(d1 & x & Hf & Hx)]]; [done| |].
  - destruct (IH None d0 d' o Hn HI0 H2) as (? & ? & ?). split; [done|]. split; [by transitivity d0|done].
  - destruct (H1 _ _ Hf) as (HI1 & HR1 & Hs & Hl).
    assert (forall y, alone (k y) d1 d' r -> valid Inv R post (k y) (o ++ [(d0, d1)]) d1 ->
      Inv d' /\ R d d' /\ match r with Some a => exists o', post a o' | None => True end) as Hy.
    { intros y Hy Hvy. destruct (IH y d1 d' _ Hy HI1 Hvy) as (? & ? & ?). split; [done|]. split; [|done].
      transitivity d0; [done|]. by transitivity d1. }
    destruct Hx as [Hx|Hx]; eauto.
Qed.
End alone.
