(* ===== verification/Upgrade.v ===== *)
(** Upgrade tokens ([internal/store/upgrade_token.go]) and release versions
    ([internal/store/version.go]).

    The table [upgrade_tokens] is the list of its rows in the order of their
    insertion, with its primary key and its unique index on the hash. Time
    columns hold nanoseconds: the layout they are written in keeps them whole.
    A pointer column is an option. [HashToken] (SHA-256 in hex) and the bytes
    [randomHex] reads are parameters. *)
From S2P Require Import Prelude GoBase GoStrings Sql.
#[local] Open Scope Z_scope.

(** ** version.go *)

Record releaseVersion : Type := mkVersion { major : Z; minor : Z; patch : Z }.

(** [^[0-9]+$] *)
Definition releaseVersionPart (s : bytes) : bool := negb (bool_decide (s = [])) && forallb is_digit s.

Definition version_part (p : bytes) : option Z := if releaseVersionPart p then Atoi p else None.

Definition parseReleaseVersion (raw : bytes) : option releaseVersion :=
  let i := IndexByte raw 43 in
  let core := if 0 <=? i then slice raw 0 i else raw in
  match Split core 46 with
  | [a; b; c] =>
      match version_part a, version_part b, version_part c with
      | Some a, Some b, Some c => Some (mkVersion a b c)
      | _, _, _ => None
      end
  | _ => None
  end.

Definition less (a b : releaseVersion) : bool :=
  if negb (major a =? major b) then major a <? major b
  else if negb (minor a =? minor b) then minor a <? minor b
  else patch a <? patch b.

Definition agentBehindBirdcage (agentVersion birdcageVersion : bytes) : bool :=
  match parseReleaseVersion agentVersion with
  | None => false
  | Some a =>
      match parseReleaseVersion birdcageVersion with
      | None => false
      | Some b => less a b
      end
  end.

(** ** upgrade_token.go *)

Definition Minute : Z := 60 * 1000000000.
Definition UpgradeTokenTTL : Z := 15 * Minute.
Definition UpgradeWindow : Z := 5 * Minute.
Definition upgradeTokenBytes : Z := 32.

Record token_row : Type := mkRow {
  r_id : bytes;
  r_agent : bytes;
  r_hash : bytes;
  r_from : bytes;
  r_to : bytes;
  r_created : Z;
  r_expires : Z;
  r_superseded : option Z;
  r_used : option Z;
  r_window : option Z;
}.

Record up_db : Type := mkUp {
  agents : gmap (list Z) (option bytes);   (** id to agent_version *)
  upgrade_tokens : list token_row;
}.

Inductive up_error : Type :=
| ErrZeroNow
| ErrCanaryNotFound
| ErrAgentNotBehind
| ErrRandom
| ErrDB.

Record UpgradeToken : Type := mkUpgradeToken {
  ID : bytes;
  CanaryID : bytes;
  FromVersion : bytes;
  ToVersion : bytes;
  CreatedAt : Z;
  ExpiresAt : Z;
}.

Inductive UpgradeTokenOutcome : Type :=
| UpgradeTokenAccepted
| UpgradeTokenSpent
| UpgradeTokenUnknown
| UpgradeTokenWrongAgent
| UpgradeTokenExpired
| UpgradeTokenSuperseded.

Definition outcome_String (o : UpgradeTokenOutcome) : string :=
  match o with
  | UpgradeTokenAccepted => "accepted"
  | UpgradeTokenSpent => "already used"
  | UpgradeTokenUnknown => "unknown token"
  | UpgradeTokenWrongAgent => "minted for another agent"
  | UpgradeTokenExpired => "expired"
  | UpgradeTokenSuperseded => "superseded by a newer token"
  end.

Record UpgradeTokenResult : Type := mkResult {
  Outcome : UpgradeTokenOutcome;
  TokenCanaryID : bytes;
  ResFrom : bytes;
  ResTo : bytes;
  WindowUntil : Z;
}.

Definition refusal (o : UpgradeTokenOutcome) (tokenCanaryID : bytes) : UpgradeTokenResult :=
  mkResult o tokenCanaryID [] [] 0.

Definition hex_char (c : Z) : bool :=
  negb (((c <? 48) || (57 <? c)) && ((c <? 97) || (102 <? c))).

Definition validUpgradeTokenShape (raw : bytes) : bool :=
  (zlen raw =? 2 * upgradeTokenBytes) && forallb hex_char raw.

Definition classifyUpgradeToken (r : token_row) (canaryID : bytes) (now : Z) : option UpgradeTokenOutcome :=
  if bool_decide (r_agent r ≠ canaryID) then Some UpgradeTokenWrongAgent
  else if bool_decide (r_used r ≠ None) then Some UpgradeTokenSpent
  else if bool_decide (r_superseded r ≠ None) then Some UpgradeTokenSuperseded
  else if negb (now <? r_expires r) then Some UpgradeTokenExpired
  else None.

(** The statements. *)
Definition agent_version (canaryID : bytes) (db : up_db) : option (option bytes) := agents db !! canaryID.

Definition live (r : token_row) : bool := bool_decide (r_used r = None) && bool_decide (r_superseded r = None).

Definition set_superseded (now : Z) (r : token_row) : token_row :=
  mkRow (r_id r) (r_agent r) (r_hash r) (r_from r) (r_to r) (r_created r) (r_expires r)
    (Some now) (r_used r) (r_window r).

Definition supersede (canaryID : bytes) (now : Z) (db : up_db) : option (up_db * unit) :=
  Some (mkUp (agents db)
    ((fun r => if bool_decide (r_agent r = canaryID) && live r then set_superseded now r else r)
       <$> upgrade_tokens db), tt).

Definition insert_token (r : token_row) (db : up_db) : option (up_db * unit) :=
  if existsb (fun x => bool_decide (r_id x = r_id r) || bool_decide (r_hash x = r_hash r)) (upgrade_tokens db)
  then None
  else Some (mkUp (agents db) (upgrade_tokens db ++ [r]), tt).

Definition lookupUpgradeToken (hash : bytes) (db : up_db) : option token_row :=
  head (filter (fun r => r_hash r = hash) (upgrade_tokens db)).

Definition set_used (now until : Z) (r : token_row) : token_row :=
  mkRow (r_id r) (r_agent r) (r_hash r) (r_from r) (r_to r) (r_created r) (r_expires r)
    (r_superseded r) (Some now) (Some until).

Definition spendable (id canaryID : bytes) (r : token_row) : bool :=
  bool_decide (r_id r = id) && bool_decide (r_agent r = canaryID) && live r.

Definition spend (id canaryID : bytes) (now until : Z) (db : up_db) : option (up_db * Z) :=
  Some (mkUp (agents db)
    ((fun r => if spendable id canaryID r then set_used now until r else r) <$> upgrade_tokens db),
    zlen (filter (fun r => spendable id canaryID r = true) (upgrade_tokens db))).

Section upgrade.
Context (HashToken : bytes -> bytes).

Definition MintUpgradeToken (canaryID birdcageVersion : bytes) (now : Z) (rid rraw : option bytes) :
    prog up_db (res up_error (bytes * UpgradeToken)) :=
  if now =? 0 then Ret (Err ErrZeroNow) else
  Stmt (query (agent_version canaryID)) (fun r =>
  match r with
  | None => Ret (Err ErrDB)
  | Some None => Ret (Err ErrCanaryNotFound)
  | Some (Some agentVersion) =>
      let from := default [] agentVersion in
      if negb (agentBehindBirdcage from birdcageVersion) then Ret (Err ErrAgentNotBehind) else
      match rid, rraw with
      | Some id, Some raw =>
          Stmt (supersede canaryID now) (fun r =>
          match r with
          | None => Ret (Err ErrDB)
          | Some _ =>
              let expires := now + UpgradeTokenTTL in
              Stmt (insert_token (mkRow id canaryID (HashToken raw) from birdcageVersion now expires None None None))
                (fun r =>
                match r with
                | None => Ret (Err ErrDB)
                | Some _ => Ret (Ok (raw, mkUpgradeToken id canaryID from birdcageVersion now expires))
                end)
          end)
      | _, _ => Ret (Err ErrRandom)
      end
  end).

Definition PresentUpgradeToken (canaryID raw : bytes) (now : Z) :
    prog up_db (res up_error UpgradeTokenResult) :=
  if now =? 0 then Ret (Err ErrZeroNow) else
  if negb (validUpgradeTokenShape raw) then Ret (Ok (refusal UpgradeTokenUnknown [])) else
  let hash := HashToken raw in
  Stmt (query (lookupUpgradeToken hash)) (fun r =>
  match r with
  | None => Ret (Err ErrDB)
  | Some None => Ret (Ok (refusal UpgradeTokenUnknown []))
  | Some (Some r) =>
      match classifyUpgradeToken r canaryID now with
      | Some outcome => Ret (Ok (refusal outcome (r_agent r)))
      | None =>
          let windowUntil := now + UpgradeWindow in
          Stmt (spend (r_id r) canaryID now windowUntil) (fun n =>
          match n with
          | None => Ret (Err ErrDB)
          | Some n =>
              if n =? 0 then
                Stmt (query (lookupUpgradeToken hash)) (fun r =>
                match r with
                | None => Ret (Err ErrDB)
                | Some None => Ret (Ok (refusal UpgradeTokenUnknown []))
                | Some (Some r) =>
                    let outcome := default UpgradeTokenSpent (classifyUpgradeToken r canaryID now) in
                    Ret (Ok (refusal outcome (r_agent r)))
                end)
              else Ret (Ok (mkResult UpgradeTokenAccepted canaryID (r_from r) (r_to r) windowUntil))
          end)
      end
  end).

(** A window's two versions and its end. *)
Definition upgradeWindows (canaryID : bytes) (now : Z) (db : up_db) : list (bytes * bytes * Z) :=
  omap (fun r =>
    match r_used r, r_window r with
    | Some _, Some until =>
        if bool_decide (r_agent r = canaryID) && (now <? until) then Some (r_from r, r_to r, until) else None
    | _, _ => None
    end) (upgrade_tokens db).

Definition OpenUpgradeWindowUntil (canaryID : bytes) (now : Z) : prog up_db (res up_error (option Z)) :=
  Stmt (query (upgradeWindows canaryID now)) (fun r =>
  match r with
  | None => Ret (Err ErrDB)
  | Some windows =>
      Ret (Ok (foldl (fun latest w =>
        match latest with
        | None => Some w.2
        | Some l => if l <? w.2 then Some w.2 else latest
        end) None windows))
  end).

Definition UpgradeWindowCovers (canaryID a b : bytes) (now : Z) : prog up_db (res up_error bool) :=
  Stmt (query (upgradeWindows canaryID now)) (fun r =>
  match r with
  | None => Ret (Err ErrDB)
  | Some windows =>
      Ret (Ok (existsb (fun w =>
        (bool_decide (a = w.1.1) && bool_decide (b = w.1.2)) ||
        (bool_decide (a = w.1.2) && bool_decide (b = w.1.1))) windows))
  end).
End upgrade.

(** ** Versions *)

Definition version_lt (a b : releaseVersion) : Prop :=
  major a < major b \/
  (major a = major b /\ (minor a < minor b \/ (minor a = minor b /\ patch a < patch b))).

Lemma less_spec a b : less a b = true <-> version_lt a b.
Proof.
  unfold less, version_lt. destruct (major a =? major b) eqn:E1; cbn [negb]; [|rewrite Z.ltb_lt].
  - destruct (minor a =? minor b) eqn:E2; cbn [negb]; rewrite Z.ltb_lt; go_bools; lia.
  - go_bools. lia.
Qed.

#[export] Instance version_lt_strict : StrictOrder version_lt.
Proof. split; [intros [a b c]|intros [a b c] [a' b' c'] [a'' b'' c'']]; unfold complement, version_lt; simpl; lia. Qed.

(** ** The order of the table's states *)

(** What may happen to a row: nothing to its fixed columns, and a used or a
    superseded row stays as it is. *)
Record row_le (r r' : token_row) : Prop := {
  rl_id : r_id r' = r_id r;
  rl_agent : r_agent r' = r_agent r;
  rl_hash : r_hash r' = r_hash r;
  rl_versions : r_from r' = r_from r /\ r_to r' = r_to r;
  rl_times : r_created r' = r_created r /\ r_expires r' = r_expires r;
  rl_dead : live r = false -> r' = r;
}.

#[export] Instance row_le_preorder : PreOrder row_le.
Proof.
  split.
  - intros r. by split.
  - intros a b c [H1 H2 H3 H4 H5 H6] [K1 K2 K3 K4 K5 K6]. split; try (intuition congruence).
    intros Hl. specialize (H6 Hl). subst b. auto.
Qed.

Abbreviation rows_le := (table_le row_le).

Definition up_le (db db' : up_db) : Prop := rows_le (upgrade_tokens db) (upgrade_tokens db').

#[export] Instance up_le_preorder : PreOrder up_le.
Proof.
  split; unfold up_le.
  - intros db. reflexivity.
  - intros a b c. apply transitivity.
Qed.

(** ** The invariant *)

Record row_ok (r : token_row) : Prop := {
  ro_expires : r_expires r = r_created r + UpgradeTokenTTL;
  ro_used : match r_used r with
            | None => r_window r = None
            | Some u => r_window r = Some (u + UpgradeWindow) /\ u < r_expires r /\ r_superseded r = None
            end;
  ro_behind : agentBehindBirdcage (r_from r) (r_to r) = true;
}.

Record up_inv (db : up_db) : Prop := {
  ui_ids : NoDup (r_id <$> upgrade_tokens db);
  ui_hashes : NoDup (r_hash <$> upgrade_tokens db);
  ui_rows : Forall row_ok (upgrade_tokens db);
  ui_live : forall r r', r ∈ upgrade_tokens db -> r' ∈ upgrade_tokens db ->
    live r = true -> live r' = true -> r_agent r = r_agent r' -> r = r';
}.

Lemma live_spec r : live r = true <-> r_used r = None /\ r_superseded r = None.
Proof. unfold live. by rewrite andb_true_iff, !bool_decide_eq_true. Qed.

Lemma lookup_hash_spec hash db :
  up_inv db ->
  match lookupUpgradeToken hash db with
  | Some r => r ∈ upgrade_tokens db /\ r_hash r = hash
  | None => Forall (fun r => r_hash r ≠ hash) (upgrade_tokens db)
  end.
Proof.
  intros _. unfold lookupUpgradeToken. destruct (filter _ _) as [|r l] eqn:E; simpl.
  - apply Forall_forall. intros x Hx Hh. assert (x ∈ []) as []%not_elem_of_nil.
    rewrite <- E. by apply list_elem_of_filter.
  - assert (r ∈ r :: l) as Hr by left. rewrite <- E in Hr. by apply list_elem_of_filter in Hr as [? ?].
Qed.

Lemma up_inv_map db ag f :
  up_inv db ->
  (forall r, r ∈ upgrade_tokens db -> row_le r (f r) /\ row_ok (f r) /\ (live (f r) = true -> f r = r)) ->
  up_inv (mkUp ag (f <$> upgrade_tokens db)) /\ up_le db (mkUp ag (f <$> upgrade_tokens db)).
Proof.
  intros [Hi Hh Hr Hl] Hf.
  split; [split; simpl|].
  - rewrite table_column_map; [done|]. intros r Hin. by apply Hf.
  - rewrite table_column_map; [done|]. intros r Hin. by apply Hf.
  - apply Forall_fmap, Forall_forall. intros r Hin. by apply Hf.
  - intros r r' (x & -> & Hx)%list_elem_of_fmap (y & -> & Hy)%list_elem_of_fmap Lx Ly Ha.
    destruct (Hf x Hx) as (_ & _ & Hx'), (Hf y Hy) as (_ & _ & Hy').
    rewrite Hx' in * by done. rewrite Hy' in * by done. by apply Hl.
  - apply table_le_map. intros r Hin. by apply Hf.
Qed.

Lemma supersede_spec canaryID now db db' u :
  up_inv db -> supersede canaryID now db = Some (db', u) ->
  up_inv db' /\ up_le db db' /\
  forall r, r ∈ upgrade_tokens db' -> r_agent r = canaryID -> live r = false.
Proof.
  intros HI [= <- _]. set (f := fun r => _).
  destruct (up_inv_map db (agents db) f HI) as [HI' Hle].
  - intros r Hr. pose proof (ui_rows db HI) as Hok. rewrite Forall_forall in Hok. unfold f.
    destruct (_ && _)%bool eqn:E; [|by split_and!; [|apply Hok|]]. go_bools. destruct (Hok r Hr) as [He Hu Hb].
    match goal with H : live r = true |- _ => pose proof H as [Hun Hsn]%live_spec; rename H into Hlr end.
    rewrite Hun in Hu. split_and!.
    + split; try done. by rewrite Hlr.
    + split; simpl; [done| |done]. by rewrite Hun.
    + intros [_ [=]]%live_spec.
  - split; [done|]. split; [done|]. simpl. intros r (x & -> & Hx)%list_elem_of_fmap Ha. unfold f in *.
    destruct (_ && _)%bool eqn:E.
    + apply not_true_is_false. by intros [_ [=]]%live_spec.
    + apply andb_false_iff in E as [E|E]; [|done]. apply bool_decide_eq_false in E. done.
Qed.

Lemma spend_spec id canaryID now db db' n r0 :
  up_inv db -> spend id canaryID now (now + UpgradeWindow) db = Some (db', n) ->
  (forall r, r ∈ upgrade_tokens db -> r_id r = id -> now < r_expires r) ->
  (exists r1, r1 ∈ upgrade_tokens db /\ row_le r0 r1) -> r_id r0 = id ->
  up_inv db' /\ up_le db db' /\
  if n =? 0 then upgrade_tokens db' = upgrade_tokens db
  else exists r, r ∈ upgrade_tokens db /\ row_le r0 r /\ r_agent r = canaryID /\ live r = true /\
    set_used now (now + UpgradeWindow) r ∈ upgrade_tokens db'.
Proof.
  intros HI [= <- <-] Hexp (r1 & Hr1 & Hle1) Hid. set (f := fun r => _).
  destruct (up_inv_map db (agents db) f HI) as [HI' Hle].
  - intros r Hr. pose proof (ui_rows db HI) as Hok. rewrite Forall_forall in Hok. unfold f.
    destruct (spendable id canaryID r) eqn:E; [|by split_and!; [|apply Hok|]].
    unfold spendable in E. go_bools. destruct (Hok r Hr) as [He Hu Hb].
    match goal with H : live r = true |- _ => pose proof H as [Hun Hsn]%live_spec; rename H into Hlr end.
    split_and!.
    + split; try done. by rewrite Hlr.
    + split; simpl; [done| |done]. split_and!; [done|by apply Hexp|done].
    + intros [[=] _]%live_spec.
  - split; [done|]. split; [done|].
    destruct (zlen _ =? 0) eqn:E; go_bools.
    + simpl. rewrite <- (list_fmap_id (upgrade_tokens db)) at 2. apply list_fmap_ext. intros i r Hi. unfold f. simpl.
      destruct (spendable id canaryID r) eqn:Es; [|done]. exfalso.
      assert (r ∈ filter (fun r => spendable id canaryID r = true) (upgrade_tokens db)) as Hin.
      { apply list_elem_of_filter. split; [done|]. by eapply list_elem_of_lookup_2. }
      destruct (filter _ _) as [|x l]; [by apply not_elem_of_nil in Hin|]. rewrite zlen_cons in E.
      pose proof (zlen_nonneg l). lia.
    + destruct (filter (fun r => spendable id canaryID r = true) (upgrade_tokens db)) as [|r l] eqn:Ef.
      { by destruct E. }
      assert (r ∈ filter (fun r => spendable id canaryID r = true) (upgrade_tokens db)) as Hin by (rewrite Ef; left).
      apply list_elem_of_filter in Hin as [Hs Hr]. exists r. split; [done|].
      pose proof Hs as Hs'. unfold spendable in Hs'. go_bools.
      assert (r = r1) as -> by (eapply (NoDup_fmap_in r_id); [apply HI|done|done|]; destruct Hle1; congruence).
      split_and!; try done. simpl. apply list_elem_of_fmap. exists r1. split; [|done]. unfold f. by rewrite Hs.
Qed.

Section tokens.
Context (HashToken : bytes -> bytes).

(** A mint that succeeds adds one live row and supersedes the agent's others. *)
Lemma mint_spec canaryID version now rid rraw db db' raw tok :
  up_inv db -> exec (MintUpgradeToken HashToken canaryID version now rid rraw) db = (db', Ok (raw, tok)) ->
  up_inv db' /\ up_le db db' /\
  exists from, agents db !! canaryID = Some from /\
    agentBehindBirdcage (default [] from) version = true /\
    tok = mkUpgradeToken (ID tok) canaryID (default [] from) version now (now + UpgradeTokenTTL) /\
    mkRow (ID tok) canaryID (HashToken raw) (default [] from) version now (now + UpgradeTokenTTL) None None None
      ∈ upgrade_tokens db'.
Proof.
  intros HI. unfold MintUpgradeToken. destruct (now =? 0); [done|]. cbn [exec query agent_version].
  unfold agent_version. destruct (agents db !! canaryID) as [from|] eqn:Ea; [|done]. cbv zeta.
  destruct (agentBehindBirdcage (default [] from) version) eqn:Eb; cbn [negb]; [|done].
  destruct rid as [id|], rraw as [raw'|]; try done. cbn [exec].
  destruct (supersede canaryID now db) as [[db1 u]|] eqn:Es; [|done].
  destruct (supersede_spec _ _ _ _ _ HI Es) as (HI1 & Hle1 & Hdead). cbn [exec].
  unfold insert_token. destruct (existsb _ _) eqn:Ex; [done|]. cbn [exec]. intros [= <- <- <-].
  set (r := mkRow _ _ _ _ _ _ _ _ _ _).
  assert (forall x, x ∈ upgrade_tokens db1 -> r_id x ≠ id /\ r_hash x ≠ HashToken raw') as Hnew.
  { intros x Hx. rewrite <- not_true_iff_false, existsb_exists in Ex. split; intros Heq; apply Ex; exists x;
      (split; [by apply list_elem_of_In|]); apply orb_true_iff; [left|right]; by apply bool_decide_eq_true. }
  destruct HI1 as [Hi Hh Hr Hl]. split; [|split].
  - split; simpl.
    + apply NoDup_fmap_snoc; [done|]. intros x Hx. by apply Hnew.
    + apply NoDup_fmap_snoc; [done|]. intros x Hx. by apply Hnew.
    + apply Forall_app. split; [done|]. constructor; [|done]. by split.
    + intros x y Hx Hy Lx Ly Ha. rewrite elem_of_app, list_elem_of_singleton in Hx, Hy.
      destruct Hx as [Hx| ->], Hy as [Hy| ->]; [by apply Hl| | |done].
      * by rewrite (Hdead x Hx) in Lx.
      * by rewrite (Hdead y Hy) in Ly.
  - transitivity db1; [done|]. apply (table_le_insert row_le).
  - exists from. split_and!; try done. simpl. apply elem_of_app. right. by apply list_elem_of_singleton.
Qed.

(** ** Requests *)

Inductive up_request : Type :=
| ReqMint (canaryID version : bytes) (now : Z) (rid rraw : option bytes)
| ReqPresent (canaryID raw : bytes) (now : Z)
| ReqAgents (f : gmap (list Z) (option bytes) -> gmap (list Z) (option bytes)).

Inductive up_answer : Type :=
| AnsMint (r : res up_error (bytes * UpgradeToken))
| AnsPresent (r : res up_error UpgradeTokenResult)
| AnsAgents.

(** Mints run in the transaction of their caller; [ReqAgents] stands for any
    other handler's change of the agents' rows. *)
Definition serve (rq : up_request) : prog up_db up_answer :=
  match rq with
  | ReqMint c v now rid rraw =>
      pbind (in_transaction ErrDB (MintUpgradeToken HashToken c v now rid rraw)) (fun r => Ret (AnsMint r))
  | ReqPresent c raw now => pbind (PresentUpgradeToken HashToken c raw now) (fun r => Ret (AnsPresent r))
  | ReqAgents f =>
      Stmt (fun db => Some (mkUp (f (agents db)) (upgrade_tokens db), tt)) (fun _ => Ret AnsAgents)
  end.

Definition untouched (o : list (up_db * up_db)) : Prop :=
  Forall (fun s => upgrade_tokens s.2 = upgrade_tokens s.1) o.

(** A statement that spent the token of [raw]. *)
Definition spent_by (canaryID raw : bytes) (now : Z) (s : up_db * up_db) (r : token_row) : Prop :=
  r ∈ upgrade_tokens s.1 /\ r_hash r = HashToken raw /\ r_agent r = canaryID /\ live r = true /\
  now < r_expires r /\ set_used now (now + UpgradeWindow) r ∈ upgrade_tokens s.2.

Definition answered (rq : up_request) (a : up_answer) (o : list (up_db * up_db)) : Prop :=
  match rq, a with
  | ReqPresent c raw now, AnsPresent (Ok r) =>
      match Outcome r with
      | UpgradeTokenAccepted =>
          exists s row, s ∈ o /\ spent_by c raw now s row /\
            r = mkResult UpgradeTokenAccepted c (r_from row) (r_to row) (now + UpgradeWindow)
      | _ => untouched o
      end
  | ReqMint c v now _ _, AnsMint (Ok (raw, tok)) =>
      exists s from row, s ∈ o /\ agents s.1 !! c = Some from /\ agentBehindBirdcage (default [] from) v = true /\
        row ∈ upgrade_tokens s.2 /\ r_hash row = HashToken raw /\ r_agent row = c /\ live row = true
  | ReqMint _ _ _ _ _, AnsMint (Err _) => True
  | ReqPresent _ _ _, AnsPresent (Err _) => True
  | ReqAgents _, AnsAgents => untouched o
  | _, _ => False
  end.

Lemma up_le_same db db' : upgrade_tokens db' = upgrade_tokens db -> up_le db db'.
Proof. unfold up_le. by intros ->. Qed.

Lemma up_inv_same db db' : upgrade_tokens db' = upgrade_tokens db -> up_inv db -> up_inv db'.
Proof. intros Heq [? ? ? ?]. split; by rewrite ?Heq. Qed.

Lemma classify_none r c now :
  classifyUpgradeToken r c now = None <-> r_agent r = c /\ live r = true /\ now < r_expires r.
Proof.
  unfold classifyUpgradeToken. rewrite live_spec.
  repeat case_bool_decide; (split; [intros Hcl|intros (? & [? ?] & ?)]); try done; try tauto.
  - destruct (now <? r_expires r) eqn:E; [|done]. go_bools. split_and!; try done; by apply dec_stable.
  - destruct (now <? r_expires r) eqn:E; [done|]. go_bools. lia.
Qed.

Lemma classify_not_accepted r c now : classifyUpgradeToken r c now ≠ Some UpgradeTokenAccepted.
Proof. unfold classifyUpgradeToken. repeat case_bool_decide; try done. by destruct (now <? _). Qed.

Lemma refused_answered c raw now o outcome agent :
  outcome ≠ UpgradeTokenAccepted -> untouched o ->
  answered (ReqPresent c raw now) (AnsPresent (Ok (refusal outcome agent))) o.
Proof. simpl. by destruct outcome. Qed.

Lemma present_valid c raw now db :
  valid up_inv up_le (answered (ReqPresent c raw now)) (serve (ReqPresent c raw now)) [] db.
Proof.
  unfold serve, PresentUpgradeToken. destruct (now =? 0); [done|].
  destruct (validUpgradeTokenShape raw); [|by apply refused_answered; [|constructor]].
  cbn [negb pbind valid]. intros db1 _ HI1. split; [|done].
  intros db' r [= <- <-]. split; [done|]. split; [reflexivity|]. split; [|done]. simpl app.
  assert (untouched [(db1, db1)]) as Hu by (by constructor).
  pose proof (lookup_hash_spec (HashToken raw) db1 HI1) as Hlk.
  destruct (lookupUpgradeToken (HashToken raw) db1) as [r|]; [|by apply refused_answered].
  destruct Hlk as [Hr Hh]. destruct (classifyUpgradeToken r c now) as [out|] eqn:Ec.
  { apply refused_answered; [|done]. intros ->. by apply classify_not_accepted in Ec. }
  apply classify_none in Ec as (Ha & Hl & He).
  cbv zeta. cbn [pbind valid]. intros db2 Hle HI2. split; [|done].
  intros db' n Hs. destruct (table_le_in row_le _ _ _ Hle Hr) as (r1 & Hr1 & Hrr1).
  destruct (spend_spec (r_id r) c now db2 db' n r HI2 Hs) as (HI' & Hle' & Hn).
  { intros x Hx Hid. assert (x = r1) as -> by (eapply (NoDup_fmap_in r_id); [apply HI2|done|done|]; destruct Hrr1; congruence).
    destruct Hrr1 as [_ _ _ _ [_ ->] _]. done. }
  { by exists r1. }
  { done. }
  split; [done|]. split; [done|]. split; [|done]. destruct (n =? 0).
  - cbn [pbind valid]. intros db3 _ HI3. split; [|done]. intros db'' x [= <- <-].
    split; [done|]. split; [reflexivity|]. split; [|done].
    assert (untouched ((([] ++ [(db1, db1)]) ++ [(db2, db')]) ++ [(db3, db3)])) as Hu3 by (by repeat constructor).
    destruct (lookupUpgradeToken (HashToken raw) db3) as [x|]; [|by apply refused_answered].
    cbv zeta. apply refused_answered; [|done].
    destruct (classifyUpgradeToken x c now) as [out|] eqn:Ec; [|done]. simpl. intros ->.
    by apply classify_not_accepted in Ec.
  - destruct Hn as (x & Hx & Hrx & Hxa & Hxl & Hin). simpl. exists (db2, db'), x. split; [right; left|].
    destruct Hrx as [_ _ Hxh [Hxf Hxt] [_ Hxe] _]. split; [|by rewrite Hxf, Hxt].
    unfold spent_by. simpl. rewrite Hxh, Hxe. by split_and!.
Qed.

Lemma up_serve_valid rq db : valid up_inv up_le (answered rq) (serve rq) [] db.
Proof.
  destruct rq as [c v now rid rraw|c raw now|f]; [|apply present_valid|].
  - unfold serve, in_transaction. cbn [pbind valid]. intros db1 _ HI. split; [|done].
    intros db' r. unfold transaction.
    destruct (exec (MintUpgradeToken HashToken c v now rid rraw) db1) as [db2 [[raw tok]|e]] eqn:Ee; intros [= <- <-].
    + destruct (mint_spec _ _ _ _ _ _ _ _ _ HI Ee) as (HI' & Hle & from & Hf & Hb & _ & Hin).
      split; [done|]. split; [done|]. split; [|done]. simpl. exists (db1, db2), from.
      eexists. split; [by left|]. split; [done|]. split; [done|]. split; [exact Hin|]. done.
    + split; [done|]. split; [reflexivity|]. done.
  - cbn [serve valid]. intros db1 _ HI. split; [|constructor]. intros db' r [= <- <-].
    split; [by apply (up_inv_same db1)|]. split; [by apply up_le_same|].
    split; (constructor; [done|constructor]).
Qed.

(** Two statements of a run never spend the same token. *)
Lemma spent_once db0 tr db n m i j s t c raw now c' raw' now' r r' :
  chain up_inv up_le db0 tr db -> (n < m)%nat -> tr !! n = Some (i, s) -> tr !! m = Some (j, t) ->
  spent_by c raw now s r -> spent_by c' raw' now' t r' -> HashToken raw ≠ HashToken raw'.
Proof.
  intros Hch Hnm Hn Hm (_ & Hh & _ & _ & _ & Hin) (Hr' & Hh' & _ & Hl' & _) Heq.
  destruct s as [a b], t as [x y]. simpl in *.
  pose proof (chain_ordered up_inv up_le _ _ _ _ _ _ _ _ _ _ _ Hch Hnm Hn Hm) as Hle.
  destruct (table_le_in row_le _ _ _ Hle Hin) as (r2 & Hr2 & [_ _ _ _ _ Hd]).
  assert (r2 = r') as ->.
  { destruct (chain_inv up_inv up_le _ _ _ _ _ _ _ Hch Hm) as [HI _].
    eapply (NoDup_fmap_in r_hash); [apply HI|done|done|]. rewrite Hd by done. simpl. congruence. }
  rewrite Hd in Hl' by done. done.
Qed.

(** ** Windows *)

(** A row whose window is open at [now], and its end. *)
Definition window_of (db : up_db) (canaryID : bytes) (now : Z) (r : token_row) (until : Z) : Prop :=
  exists u, r ∈ upgrade_tokens db /\ r_agent r = canaryID /\ r_used r = Some u /\ until = u + UpgradeWindow /\ now < until.

Lemma upgradeWindows_spec canaryID now db from to until :
  up_inv db ->
  (from, to, until) ∈ upgradeWindows canaryID now db <->
  exists r, window_of db canaryID now r until /\ r_from r = from /\ r_to r = to.
Proof.
  intros HI. unfold upgradeWindows, window_of. rewrite list_elem_of_omap.
  pose proof (ui_rows db HI) as Hok. rewrite Forall_forall in Hok. split.
  - intros (r & Hr & H). destruct (Hok r Hr) as [_ Hu _]. destruct (r_used r) as [u|] eqn:Eu; [|done].
    destruct Hu as [Hw _]. rewrite Hw in H. destruct (_ && _)%bool eqn:E; [|done]. go_bools.
    injection H as <- <- <-. exists r. split; [|done]. by exists u.
  - intros (r & (u & Hr & Ha & Hu & -> & Hlt) & <- & <-). exists r. split; [done|].
    destruct (Hok r Hr) as [_ Hu' _]. rewrite Hu in *. destruct Hu' as [-> _].
    rewrite bool_decide_eq_true_2 by done. by rewrite (proj2 (Z.ltb_lt _ _)).
Qed.

Lemma latest_spec (ws : list (bytes * bytes * Z)) : forall l,
  let t := foldl (fun latest w =>
        match latest with
        | None => Some w.2
        | Some l => if l <? w.2 then Some w.2 else latest
        end) l ws in
  match t with
  | None => l = None /\ ws = []
  | Some t => (l = Some t \/ exists w, w ∈ ws /\ w.2 = t) /\ (forall x, l = Some x -> x <= t) /\ forall w, w ∈ ws -> w.2 <= t
  end.
Proof.
  induction ws as [|w ws IH]; intros l; cbn [foldl].
  { destruct l as [l|]; [|done]. split_and!; [by left|by intros x [= ->]|by intros w ?%not_elem_of_nil]. }
  set (l' := match l with None => Some w.2 | Some x => if x <? w.2 then Some w.2 else l end).
  assert (exists x, l' = Some x /\ (l = Some x \/ x = w.2) /\ w.2 <= x /\ forall y, l = Some y -> y <= x) as (x & Hx & Hor & Hw & Hmax).
  { unfold l'. destruct l as [y|]; [destruct (y <? w.2) eqn:E; go_bools|].
    - exists w.2. split_and!; [done|by right|lia|]. intros z [= <-]. lia.
    - exists y. split_and!; [done|by left|lia|]. intros z [= <-]. lia.
    - exists w.2. split_and!; [done|by right|lia|done]. }
  specialize (IH l'). cbv zeta in IH. destruct (foldl _ l' ws) as [t|]; [|rewrite Hx in IH; by destruct IH].
  destruct IH as (Ht & Hle & Hall). specialize (Hle x Hx). split_and!.
  - destruct Ht as [Ht|(v & Hv & Hvt)]; [|right; exists v; split; [by right|done]].
    rewrite Hx in Ht. injection Ht as ->. destruct Hor as [?| ->]; [by left|]. right. exists w. split; [by left|done].
  - intros y Hy. specialize (Hmax y Hy). lia.
  - intros v [->|Hv]%elem_of_cons; [lia|by apply Hall].
Qed.

(** What the windows of a state are. *)
Definition windows_as_spent (db : up_db) (canaryID : bytes) (now : Z) : Prop :=
  (forall a b, exists covered, exec (UpgradeWindowCovers canaryID a b now) db = (db, Ok covered) /\
     (covered = true <->
      exists r until, window_of db canaryID now r until /\
        ((r_from r = a /\ r_to r = b) \/ (r_from r = b /\ r_to r = a))) /\
     (covered = true -> agentBehindBirdcage a b = true \/ agentBehindBirdcage b a = true)) /\
  (exists o, exec (OpenUpgradeWindowUntil canaryID now) db = (db, Ok o) /\
     match o with
     | Some t => (exists r, window_of db canaryID now r t) /\ forall r until, window_of db canaryID now r until -> until <= t
     | None => forall r until, ~ window_of db canaryID now r until
     end).

(** Windows are those of the accepted tokens: a version pair is covered
    at a time exactly when the agent used, less than five minutes before, a
    token minted for that pair, in either direction, and the pair is then a
    real step of releases; the open window reported ends last among them, and
    none is reported when none is open. *)
Lemma windows_exact (db : up_db) (canaryID : bytes) (now : Z) :
  up_inv db ->
  windows_as_spent db canaryID now.
Proof.
  intros HI. split.
  - intros a b. eexists. split; [reflexivity|].
    assert (forall x, (existsb (fun w : bytes * bytes * Z =>
        (bool_decide (a = w.1.1) && bool_decide (b = w.1.2)) ||
        (bool_decide (a = w.1.2) && bool_decide (b = w.1.1))) (upgradeWindows canaryID now db)) = x -> x = true <->
      exists r until, window_of db canaryID now r until /\
        ((r_from r = a /\ r_to r = b) \/ (r_from r = b /\ r_to r = a))) as Hiff.
    { intros x <-. rewrite existsb_exists. split.
      - intros ([[from to] until] & Hin%list_elem_of_In & Hw). simpl in Hw.
        apply upgradeWindows_spec in Hin as (r & Hr & <- & <-); [|done]. exists r, until. split; [done|].
        apply orb_true_iff in Hw as [[H1%bool_decide_eq_true H2%bool_decide_eq_true]%andb_true_iff|
          [H1%bool_decide_eq_true H2%bool_decide_eq_true]%andb_true_iff]; auto.
      - intros (r & until & Hr & Hab). exists (r_from r, r_to r, until). split.
        + apply list_elem_of_In, upgradeWindows_spec; [done|]. by exists r.
        + simpl. apply orb_true_iff. destruct Hab as [[-> ->]|[-> ->]]; [left|right]; by rewrite !bool_decide_eq_true_2. }
    split; [by apply Hiff|]. intros Hc. apply (Hiff _ eq_refl) in Hc as (r & until & (u & Hr & _) & Hab).
    pose proof (ui_rows db HI) as Hok. rewrite Forall_forall in Hok. destruct (Hok r Hr) as [_ _ Hb].
    destruct Hab as [[<- <-]|[<- <-]]; auto.
  - eexists. split; [reflexivity|]. pose proof (latest_spec (upgradeWindows canaryID now db) None) as Hl.
    cbv zeta in Hl. cbn [exec query].
    assert (forall r until, window_of db canaryID now r until -> (r_from r, r_to r, until) ∈ upgradeWindows canaryID now db) as Hin
      by (intros r until Hr; apply upgradeWindows_spec; eauto).
    destruct (foldl _ None _) as [t|].
    + destruct Hl as ([?|([[f g] until] & Hw & <-)] & _ & Hall); [done|]. split.
      * apply upgradeWindows_spec in Hw as (r & Hr & _); [|done]. by exists r.
      * intros r until' Hr. apply (Hall _ (Hin r until' Hr)).
    + destruct Hl as [_ Hnil]. intros r until Hr. apply Hin in Hr. rewrite Hnil in Hr. by apply not_elem_of_nil in Hr.
Qed.
(** C32. An upgrade token is good once, for its agent, while it is fresh:
    however mints, presentations and changes to the agents interleave, with
    statements failing or losing their answer anywhere, a presentation is
    accepted only on the stored token of that agent, unused, not superseded and
    unexpired, which is then used at that moment and opens a window of five
    minutes; two presentations are never both accepted on one token; and at
    every moment each agent has at most one live token, while used and
    superseded ones stay as they are. The windows follow: a version pair is
    covered at a time exactly when the agent used, less than five minutes
    before, a token minted for that pair, in either direction, and the pair is
    then a real step of releases; the open window reported is the one that ends
    last, and none is reported when none is open. *)
Theorem upgrade_tokens_single_use (db0 : up_db) (rqs : list up_request) (c : conf up_db up_answer) :
  up_inv db0 -> runs (start db0 (serve <$> rqs)) c ->
  up_inv (cdb c) /\ up_le db0 (cdb c) /\
  (forall i canaryID raw now r,
     rqs !! i = Some (ReqPresent canaryID raw now) -> cpool c !! i = Some (Ret (AnsPresent (Ok r))) ->
     Outcome r = UpgradeTokenAccepted ->
     exists row, row ∈ upgrade_tokens (cdb c) /\ r_hash row = HashToken raw /\ r_agent row = canaryID /\
       r_used row = Some now /\ r_window row = Some (now + UpgradeWindow) /\ r_superseded row = None /\
       now < r_expires row /\
       r = mkResult UpgradeTokenAccepted canaryID (r_from row) (r_to row) (now + UpgradeWindow)) /\
  (forall i j canaryID raw now r canaryID' raw' now' r',
     i ≠ j ->
     rqs !! i = Some (ReqPresent canaryID raw now) -> cpool c !! i = Some (Ret (AnsPresent (Ok r))) ->
     rqs !! j = Some (ReqPresent canaryID' raw' now') -> cpool c !! j = Some (Ret (AnsPresent (Ok r'))) ->
     Outcome r = UpgradeTokenAccepted -> Outcome r' = UpgradeTokenAccepted ->
     HashToken raw ≠ HashToken raw') /\
  (forall canaryID now, windows_as_spent (cdb c) canaryID now).
Proof.
  intros HI Hr.
  destruct (served up_inv up_le serve answered db0 rqs c up_serve_valid HI Hr) as (HI' & Hle0 & Hch & Hans).
  assert (forall i canaryID raw now r, rqs !! i = Some (ReqPresent canaryID raw now) ->
    cpool c !! i = Some (Ret (AnsPresent (Ok r))) -> Outcome r = UpgradeTokenAccepted ->
    exists n s row, ctrace c !! n = Some (i, s) /\ spent_by canaryID raw now s row /\
      r = mkResult UpgradeTokenAccepted canaryID (r_from row) (r_to row) (now + UpgradeWindow)) as Hacc.
  { intros i canaryID raw now r Hi Ha Ho. pose proof (Hans i _ _ Hi Ha) as Ha'. simpl in Ha'. rewrite Ho in Ha'.
    destruct Ha' as (s & row & Hs & Hsp & Heq). apply own_lookup in Hs as [n Hn].
    by exists n, s, row. }
  split; [done|]. split; [done|]. split; [|split; [|intros; by apply windows_exact]].
  - intros i canaryID raw now r Hi Ha Ho. destruct (Hacc i _ _ _ _ Hi Ha Ho) as (n & [a b] & row & Hn & Hsp & ->).
    destruct Hsp as (_ & Hh & Hag & Hl & He & Hin). simpl in Hin.
    pose proof (chain_after up_inv up_le _ _ _ _ _ _ _ Hch Hn) as Hle.
    destruct (table_le_in row_le _ _ _ Hle Hin) as (r2 & Hr2 & [_ _ _ _ _ Hd]). exists r2. rewrite Hd in * by done.
    apply live_spec in Hl as [_ Hsup]. simpl. by split_and!.
  - intros i j c1 raw1 now1 r1 c2 raw2 now2 r2 Hij Hi Ha Hj Hb Ho1 Ho2.
    destruct (Hacc i _ _ _ _ Hi Ha Ho1) as (n & s & row & Hn & Hs1 & _).
    destruct (Hacc j _ _ _ _ Hj Hb Ho2) as (m & t & row' & Hm & Hs2 & _).
    destruct (Nat.lt_trichotomy n m) as [Hlt|[->|Hlt]].
    + by eapply (spent_once _ _ _ n m).
    + congruence.
    + apply not_eq_sym. by eapply (spent_once _ _ _ m n).
Qed.

End tokens.

(** ** A race *)

Definition ex_hash (raw : bytes) : bytes := 35 :: raw.
Definition ex_raw : bytes := replicate 64 97.
Definition ex_agent : bytes := lit "gull".
Definition ex_up0 : up_db := mkUp {[ ex_agent := Some (lit "1.2.9") ]} [].

(** The operator mints; the old build and the new one present the token at
    once, and both look it up before either spends it. *)
Definition ex_requests : list up_request :=
  [ReqMint ex_agent (lit "1.10.0") 1000 (Some (lit "t1")) (Some ex_raw);
   ReqPresent ex_agent ex_raw 2000; ReqPresent ex_agent ex_raw 2001].

Definition ex_run : conf up_db up_answer :=
  schedule [0; 1; 2; 1; 2; 2]%nat (start ex_up0 (serve ex_hash <$> ex_requests)).

Definition ex_accepted : UpgradeTokenResult :=
  mkResult UpgradeTokenAccepted ex_agent (lit "1.2.9") (lit "1.10.0") (2000 + UpgradeWindow).

Lemma ex_up0_inv : up_inv ex_up0.
Proof. split; simpl; [constructor..|]. by intros r r' ?%not_elem_of_nil. Qed.

Lemma upgrade_tokens_single_use_witness :
  cpool ex_run !! 1%nat = Some (Ret (AnsPresent (Ok ex_accepted))) /\
  cpool ex_run !! 2%nat = Some (Ret (AnsPresent (Ok (refusal UpgradeTokenSpent ex_agent)))) /\
  exists row, row ∈ upgrade_tokens (cdb ex_run) /\ r_used row = Some 2000.
Proof.
  assert (cpool ex_run !! 1%nat = Some (Ret (AnsPresent (Ok ex_accepted)))) as Hp by (vm_compute; reflexivity).
  split; [exact Hp|]. split; [vm_compute; reflexivity|].
  destruct (upgrade_tokens_single_use ex_hash ex_up0 ex_requests ex_run ex_up0_inv (schedule_runs _ _))
    as (_ & _ & Hacc & _).
  destruct (Hacc 1%nat ex_agent ex_raw 2000 ex_accepted eq_refl Hp eq_refl) as (row & Hrow & _ & _ & Hu & _).
  exists row. split; [exact Hrow|exact Hu].
Defined.
