(* ===== verification/Commands.v ===== *)
(** The command queue ([internal/store/command.go]) and which commands an agent
    may collect ([internal/ingest/command.go]).

    The table [agent_commands] is the list of its rows; times are nanoseconds.
    [sort.Slice] and [json.Valid] are the class [Stdlib]: a sort gives its
    argument back in order, ties in any order. *)
From S2P Require Import Prelude GoBase GoStrings Sql.
#[local] Open Scope Z_scope.

Abbreviation CommandKind := bytes.
Definition CommandSelfTest : CommandKind := lit "selftest".
Definition CommandScan : CommandKind := lit "scan".

Definition mintableCommandKinds (k : CommandKind) : bool :=
  bool_decide (k = CommandSelfTest) || bool_decide (k = CommandScan).

Record CanaryCommand : Type := mkCommand {
  ID : bytes;
  CanaryID : bytes;
  Kind : CommandKind;
  Params : bytes;
  CreatedAt : Z;
  ExpiresAt : Z;
  DeliveredAt : option Z;
}.

Inductive command_error : Type :=
| ErrCommandNotFound
| ErrCommandKindUnknown
| ErrCommandParamsInvalid
| ErrTimesUnset
| ErrExpiresNotAfter
| ErrRandom
| ErrDB.

(** A row: [params] is NULL where the command has none, which reads back as
    the empty string. *)
Record command_row : Type := mkRow {
  r_id : bytes;
  r_agent : bytes;
  r_kind : CommandKind;
  r_params : option bytes;
  r_created : Z;
  r_expires : Z;
  r_delivered : option Z;
}.

Abbreviation cmd_db := (list command_row).

Definition scan_command (r : command_row) : CanaryCommand :=
  mkCommand (r_id r) (r_agent r) (r_kind r) (default [] (r_params r)) (r_created r) (r_expires r) (r_delivered r).

(** The columns a claim selects leave [delivered_at] out. *)
Definition scanPendingCommand (r : command_row) : CanaryCommand :=
  mkCommand (r_id r) (r_agent r) (r_kind r) (default [] (r_params r)) (r_created r) (r_expires r) None.

Class Stdlib : Type := {
  json_valid : bytes -> bool;
  sort_created : list CanaryCommand -> list CanaryCommand;
  sort_created_perm l : Permutation (sort_created l) l;
  sort_created_sorted l : StronglySorted (fun a b => CreatedAt a <= CreatedAt b) (sort_created l);
}.

(** The statements. *)
Definition insert_command (r : command_row) (db : cmd_db) : option (cmd_db * unit) :=
  if existsb (fun x => bool_decide (r_id x = r_id r)) db then None else Some (db ++ [r], tt).

Definition select_pending (canaryID : bytes) (db : cmd_db) : list CanaryCommand :=
  scanPendingCommand <$> filter (fun r => r_agent r = canaryID /\ r_delivered r = None) db.

Definition set_delivered (now : Z) (r : command_row) : command_row :=
  mkRow (r_id r) (r_agent r) (r_kind r) (r_params r) (r_created r) (r_expires r) (Some now).

Definition undelivered (id : bytes) (r : command_row) : bool :=
  bool_decide (r_id r = id) && bool_decide (r_delivered r = None).

Definition claim (id : bytes) (now : Z) (db : cmd_db) : option (cmd_db * Z) :=
  Some ((fun r => if undelivered id r then set_delivered now r else r) <$> db,
        zlen (filter (fun r => undelivered id r = true) db)).

Definition select_command (id : bytes) (db : cmd_db) : option CanaryCommand :=
  scan_command <$> head (filter (fun r => r_id r = id) db).

Section commands.
Context `{Stdlib}.

Definition MintCanaryCommand (canaryID : bytes) (kind : CommandKind) (params : bytes) (createdAt expiresAt : Z)
    (rid : option bytes) : prog cmd_db (res command_error CanaryCommand) :=
  if negb (mintableCommandKinds kind) then Ret (Err ErrCommandKindUnknown) else
  if negb (bool_decide (params = [])) && negb (json_valid params) then Ret (Err ErrCommandParamsInvalid) else
  if (createdAt =? 0) || (expiresAt =? 0) then Ret (Err ErrTimesUnset) else
  if negb (createdAt <? expiresAt) then Ret (Err ErrExpiresNotAfter) else
  match rid with
  | None => Ret (Err ErrRandom)
  | Some id =>
      let storedParams := if bool_decide (params = []) then None else Some params in
      Stmt (insert_command (mkRow id canaryID kind storedParams createdAt expiresAt None)) (fun r =>
      match r with
      | None => Ret (Err ErrDB)
      | Some _ => Ret (Ok (mkCommand id canaryID kind params createdAt expiresAt None))
      end)
  end.

(** The loop over the live commands, oldest first. *)
Fixpoint claim_first (now : Z) (live : list CanaryCommand) : prog cmd_db (res command_error CanaryCommand) :=
  match live with
  | [] => Ret (Err ErrCommandNotFound)
  | cmd :: live =>
      Stmt (claim (ID cmd) now) (fun n =>
      match n with
      | None => Ret (Err ErrDB)
      | Some n =>
          if n =? 1
          then Ret (Ok (mkCommand (ID cmd) (CanaryID cmd) (Kind cmd) (Params cmd) (CreatedAt cmd) (ExpiresAt cmd)
                          (Some now)))
          else claim_first now live
      end)
  end.

(** A pending command the caller may have: [allowed] is [None] for the nil map. *)
Definition collectable (allowed : option (CommandKind -> bool)) (now : Z) (cmd : CanaryCommand) : bool :=
  match allowed with Some a => a (Kind cmd) | None => true end && (now <? ExpiresAt cmd).

Definition ClaimNextCanaryCommandOfKinds (canaryID : bytes) (allowed : option (CommandKind -> bool)) (now : Z) :
    prog cmd_db (res command_error CanaryCommand) :=
  Stmt (query (select_pending canaryID)) (fun r =>
  match r with
  | None => Ret (Err ErrDB)
  | Some pending =>
      let live := filter (fun cmd => collectable allowed now cmd = true) pending in
      claim_first now (sort_created live)
  end).

Definition ClaimNextCanaryCommand (canaryID : bytes) (now : Z) : prog cmd_db (res command_error CanaryCommand) :=
  ClaimNextCanaryCommandOfKinds canaryID None now.

Definition LookupCanaryCommand (id : bytes) : prog cmd_db (res command_error CanaryCommand) :=
  Stmt (query (select_command id)) (fun r =>
  Ret (match r with
       | None => Err ErrDB
       | Some None => Err ErrCommandNotFound
       | Some (Some cmd) => Ok cmd
       end)).
End commands.

(** The kinds of agent. *)
Definition Honeypot : bytes := lit "honeypot".
Definition Scanner : bytes := lit "scanner".

Definition commandKindsFor (kind : bytes) (k : CommandKind) : bool :=
  if bool_decide (kind = Honeypot) then bool_decide (k = CommandSelfTest)
  else if bool_decide (kind = Scanner) then bool_decide (k = CommandScan)
  else false.

(** ** The order of the table's states *)

Record row_le (r r' : command_row) : Prop := {
  rl_id : r_id r' = r_id r;
  rl_agent : r_agent r' = r_agent r;
  rl_kind : r_kind r' = r_kind r /\ r_params r' = r_params r;
  rl_times : r_created r' = r_created r /\ r_expires r' = r_expires r;
  rl_delivered : r_delivered r ≠ None -> r' = r;
}.

#[export] Instance row_le_preorder : PreOrder row_le.
Proof.
  split.
  - intros r. by split.
  - intros a b c [H1 H2 H3 H4 H5] [K1 K2 K3 K4 K5]. split; try (intuition congruence).
Qed.

Abbreviation cmd_le := (table_le row_le).

Lemma row_le_command r r' now :
  row_le r r' -> scan_command (set_delivered now r') = scan_command (set_delivered now r).
Proof. intros [H1 H2 [H3 H4] [H5 H6] _]. unfold scan_command. simpl. congruence. Qed.

Section delivery.
Context `{Stdlib}.

Record row_ok (r : command_row) : Prop := {
  ro_kind : mintableCommandKinds (r_kind r) = true;
  ro_params : match r_params r with None => True | Some p => p ≠ [] /\ json_valid p = true end;
  ro_times : r_created r < r_expires r;
  ro_delivered : match r_delivered r with None => True | Some t => t < r_expires r end;
}.

Record cmd_inv (db : cmd_db) : Prop := {
  ci_ids : NoDup (r_id <$> db);
  ci_rows : Forall row_ok db;
}.

(** Already given to a caller. *)
Definition given (r : command_row) (db : cmd_db) : Prop :=
  exists r', r' ∈ db /\ r_id r' = r_id r /\ r_delivered r' ≠ None.

Lemma given_mono r db db' : cmd_le db db' -> given r db -> given r db'.
Proof.
  intros Hle (r' & Hr' & Hid & Hd). destruct (table_le_in row_le _ _ _ Hle Hr') as (x & Hx & [_ _ _ _ Heq]).
  rewrite Heq in Hx by done. by exists r'.
Qed.

Lemma claim_spec db now r0 r1 :
  cmd_inv db -> r1 ∈ db -> row_le r0 r1 -> now < r_expires r0 ->
  let '(db', n) := default (db, 0) (claim (r_id r0) now db) in
  cmd_inv db' /\ cmd_le db db' /\
  if n =? 1 then r_delivered r1 = None /\ set_delivered now r1 ∈ db'
  else r_delivered r1 ≠ None.
Proof.
  intros [Hids Hrows] Hr1 [Hid _ _ [_ Hexp] _] Hnow. cbn [default claim id]. set (f := fun r => _).
  assert (forall r, undelivered (r_id r0) r = true <-> r_id r = r_id r0 /\ r_delivered r = None) as Hun.
  { intros r. unfold undelivered. by rewrite andb_true_iff, !bool_decide_eq_true. }
  rewrite Forall_forall in Hrows. split; [split|split].
  - rewrite table_column_map; [done|]. intros r _. unfold f. by destruct (undelivered _ r).
  - apply Forall_fmap, Forall_forall. intros r Hr. simpl. unfold f.
    destruct (undelivered (r_id r0) r) eqn:E; [|by apply Hrows]. apply Hun in E as [Hir _].
    destruct (Hrows r Hr) as [? ? ? _]. split; simpl; try done.
    assert (r = r1) as -> by (eapply (NoDup_fmap_in r_id); [done..|congruence]). by rewrite Hexp.
  - apply table_le_map. intros r _. unfold f. destruct (undelivered (r_id r0) r) eqn:E; [|reflexivity].
    apply Hun in E as [_ Hd]. split; try done.
  - destruct (r_delivered r1) as [t|] eqn:Hd.
    + assert (filter (fun r => undelivered (r_id r0) r = true) db = []) as ->; [|done].
      apply filter_none, Forall_forall. intros r Hr [Hir Hrd]%Hun.
      assert (r = r1) as -> by (eapply (NoDup_fmap_in r_id); [done..|congruence]). congruence.
    + assert (filter (fun r => undelivered (r_id r0) r = true) db = [r1]) as ->.
      { apply (filter_key r_id); [done..|by apply Hun|]. intros y [Hy _]%Hun. congruence. }
      simpl. split; [done|]. apply list_elem_of_fmap. exists r1. split; [|done]. unfold f.
      by rewrite (proj2 (Hun r1) (conj Hid Hd)).
Qed.

(** ** Requests *)

Inductive cmd_request : Type :=
| ReqMint (canaryID : bytes) (kind : CommandKind) (params : bytes) (createdAt expiresAt : Z) (rid : option bytes)
| ReqClaim (canaryID : bytes) (allowed : option (CommandKind -> bool)) (now : Z).

Definition serve (rq : cmd_request) : prog cmd_db (res command_error CanaryCommand) :=
  match rq with
  | ReqMint c k p t e rid => MintCanaryCommand c k p t e rid
  | ReqClaim c allowed now => ClaimNextCanaryCommandOfKinds c allowed now
  end.

(** A row the caller may have when it asks. *)
Definition eligible (canaryID : bytes) (allowed : option (CommandKind -> bool)) (now : Z) (r : command_row) : Prop :=
  r_agent r = canaryID /\ r_delivered r = None /\ collectable allowed now (scan_command r) = true.

Definition answered (rq : cmd_request) (a : res command_error CanaryCommand) (o : list (cmd_db * cmd_db)) : Prop :=
  match rq, a with
  | ReqMint c k p t e _, Ok cmd =>
      exists s r, s ∈ o /\ r ∈ s.2 /\ r_delivered r = None /\ cmd = scan_command r /\
        cmd = mkCommand (ID cmd) c k p t e None
  | ReqClaim c allowed now, Ok cmd =>
      exists d0 s r, (d0, d0) ∈ o /\ s ∈ o /\ r ∈ s.1 /\ eligible c allowed now r /\
        set_delivered now r ∈ s.2 /\ cmd = scan_command (set_delivered now r) /\
        (forall r0, r0 ∈ d0 -> eligible c allowed now r0 -> r_created r0 < r_created r -> given r0 s.1)
  | ReqClaim c allowed now, Err ErrCommandNotFound =>
      exists d0, (d0, d0) ∈ o /\
        forall r0, r0 ∈ d0 -> eligible c allowed now r0 -> exists s, s ∈ o /\ given r0 s.2
  | _, Err _ => True
  end.

Lemma eligible_le c allowed now r r' :
  row_le r r' -> r_delivered r' = None -> eligible c allowed now r -> eligible c allowed now r'.
Proof.
  intros [Hi Ha [Hk Hp] [Hc He] _] Hd (Hag & _ & Hcol). unfold eligible, collectable in *. simpl in *.
  by rewrite Ha, Hk, He.
Qed.

Lemma claim_first_valid c allowed now d0 live : forall o db,
  (d0, d0) ∈ o -> cmd_le d0 db -> StronglySorted (fun a b => CreatedAt a <= CreatedAt b) live ->
  (forall cmd, cmd ∈ live -> exists r0, r0 ∈ d0 /\ eligible c allowed now r0 /\ cmd = scan_command r0) ->
  (forall r0, r0 ∈ d0 -> eligible c allowed now r0 ->
     scan_command r0 ∈ live \/ (given r0 db /\ exists s, s ∈ o /\ given r0 s.2)) ->
  valid cmd_inv cmd_le (answered (ReqClaim c allowed now)) (claim_first now live) o db.
Proof.
  induction live as [|cmd live IH]; intros o db Ho Hle Hsort Hlive Hrest; cbn [claim_first valid].
  { exists d0. split; [done|]. intros r0 Hr0 He. by destruct (Hrest r0 Hr0 He) as [?%not_elem_of_nil|[_ ?]]. }
  intros db1 Hle1 HI1. split; [|done]. intros db' n Hcl.
  destruct (Hlive cmd ltac:(left)) as (r0 & Hr0 & He & ->).
  destruct (table_le_in row_le _ _ _ (transitivity Hle Hle1) Hr0) as (r1 & Hr1 & Hrr).
  assert (now < r_expires r0) as Hnow by (destruct He as (_ & _ & Hcol); unfold collectable in Hcol; go_bools; done).
  pose proof (claim_spec db1 now r0 r1 HI1 Hr1 Hrr Hnow) as Hs. simpl ID in Hcl. rewrite Hcl in Hs. cbn [default id] in Hs.
  destruct Hs as (HI' & Hle' & Hn). split; [done|]. split; [done|]. split; [|done].
  apply StronglySorted_inv in Hsort as [Hsort Hmin]. rewrite Forall_forall in Hmin.
  destruct (n =? 1).
  - destruct Hn as [Hd Hin]. exists d0, (db1, db'), r1. simpl.
    split; [apply elem_of_app; by left|]. split; [apply elem_of_app; right; by apply list_elem_of_singleton|].
    split; [done|]. split; [by eapply eligible_le|]. split; [done|]. split.
    { destruct Hrr as [H1 H2 [H3 H4] [H5 H6] _]. unfold scan_command. simpl. congruence. }
    intros x Hx Hex Hlt. destruct (Hrest x Hx Hex) as [[Heq|Hin']%elem_of_cons|[Hg _]].
    + apply (f_equal CreatedAt) in Heq. simpl in Heq. destruct Hrr as [_ _ _ [Hc _] _]. lia.
    + specialize (Hmin _ Hin'). simpl in Hmin. destruct Hrr as [_ _ _ [Hc _] _]. lia.
    + by apply (given_mono x db).
  - apply IH; [apply elem_of_app; by left|by transitivity db; [|transitivity db1]|done| |].
    + intros x Hx. apply Hlive. by right.
    + intros x Hx Hex. destruct (Hrest x Hx Hex) as [[Heq|Hin']%elem_of_cons|[Hg (s & Hs & Hgs)]]; [|by left|].
      * right. assert (given x db') as Hg.
        { apply (given_mono x db1); [done|]. exists r1. split; [done|]. split; [|done].
          apply (f_equal ID) in Heq. simpl in Heq. destruct Hrr as [Hid _ _ _ _]. congruence. }
        split; [done|]. exists (db1, db'). split; [|done]. apply elem_of_app. right. by apply list_elem_of_singleton.
      * right. split; [by apply (given_mono x db); [by transitivity db1|]|]. exists s. split; [|done].
        apply elem_of_app. by left.
Qed.

Lemma mint_valid c k p t e rid db :
  valid cmd_inv cmd_le (answered (ReqMint c k p t e rid)) (MintCanaryCommand c k p t e rid) [] db.
Proof.
  unfold MintCanaryCommand. destruct (mintableCommandKinds k) eqn:Ek; [|done]. cbn [negb].
  destruct (_ && _)%bool eqn:Ep; [done|]. destruct (_ || _)%bool eqn:Et; [done|].
  destruct (t <? e) eqn:Ee; [|done]. cbn [negb]. destruct rid as [id|]; [|done]. cbv zeta. cbn [valid].
  intros db1 _ [Hi Hr]. split; [|done]. intros db' u Hins. unfold insert_command in Hins.
  destruct (existsb _ _) eqn:Ex; [done|]. injection Hins as <- <-. set (r := mkRow _ _ _ _ _ _ _).
  split; [|split; [apply (table_le_insert row_le)|split; [|done]]].
  - split.
    + apply NoDup_fmap_snoc; [done|]. intros y Hy Heq. rewrite <- not_true_iff_false, existsb_exists in Ex.
      apply Ex. exists y. split; [by apply list_elem_of_In|]. by apply bool_decide_eq_true.
    + apply Forall_app. split; [done|]. constructor; [|done]. go_bools. split; simpl; try done.
      case_bool_decide; [done|]. split; [done|]. apply andb_false_iff in Ep as [Ep|Ep]; by go_bools.
  - exists (db1, db1 ++ [r]), r. split; [by left|]. split; [apply elem_of_app; right; by apply list_elem_of_singleton|].
    split; [done|]. split; [|done]. unfold scan_command, r. simpl. by case_bool_decide; subst.
Qed.

Lemma cmd_serve_valid rq db : valid cmd_inv cmd_le (answered rq) (serve rq) [] db.
Proof.
  destruct rq as [c k p t e rid|c allowed now]; [apply mint_valid|]. cbn [serve].
  unfold ClaimNextCanaryCommandOfKinds. cbn [valid].
  intros db1 _ HI1. split; [|done]. intros db' pending [= <- <-].
  split; [done|]. split; [reflexivity|]. split; [|done]. cbv zeta.
  assert (forall r, r_delivered r = None -> scanPendingCommand r = scan_command r) as Hsc
    by (intros r Hd; unfold scan_command; by rewrite Hd).
  set (live := filter (fun cmd => collectable allowed now cmd = true) (select_pending c db1)).
  assert (forall cmd, cmd ∈ sort_created live <-> exists r0, r0 ∈ db1 /\ eligible c allowed now r0 /\ cmd = scan_command r0) as Hl.
  { intros cmd. rewrite (sort_created_perm live). unfold live, select_pending. rewrite list_elem_of_filter, list_elem_of_fmap.
    split.
    - intros [Hcol (r & -> & [[Ha Hd] Hr]%list_elem_of_filter)]. exists r. rewrite Hsc in * by done. done.
    - intros (r & Hr & (Ha & Hd & Hcol) & ->). split; [done|]. exists r. rewrite Hsc by done. split; [done|].
      by apply list_elem_of_filter. }
  apply (claim_first_valid c allowed now db1); [by left|reflexivity|apply sort_created_sorted| |].
  - intros cmd Hcmd. by apply Hl.
  - intros r0 Hr0 He. left. apply Hl. eauto.
Qed.

(** A row that was delivered is not found undelivered later. *)
Lemma delivered_once db0 tr db n m i j d d' e e' r r' now :
  chain cmd_inv cmd_le db0 tr db -> (n < m)%nat -> tr !! n = Some (i, (d, d')) -> tr !! m = Some (j, (e, e')) ->
  set_delivered now r ∈ d' -> r' ∈ e -> r_delivered r' = None -> r_id r = r_id r' -> False.
Proof.
  intros Hch Hnm Hn Hm Hin Hr' Hd Hid.
  pose proof (chain_ordered cmd_inv cmd_le _ _ _ _ _ _ _ _ _ _ _ Hch Hnm Hn Hm) as Hle.
  destruct (table_le_in row_le _ _ _ Hle Hin) as (x & Hx & [_ _ _ _ Heq]). rewrite Heq in Hx by done.
  assert (set_delivered now r = r') as <-; [|done].
  destruct (chain_inv cmd_inv cmd_le _ _ _ _ _ _ _ Hch Hm) as [[Hids _] _]. by eapply (NoDup_fmap_in r_id).
Qed.

(** C34. A command reaches one caller at most, in order, and none is passed
    over: however mints and claims interleave, with statements failing or
    losing their answer anywhere, the command a claim returns is stored with
    that claim's time of delivery, was the caller's, of an allowed kind and
    unexpired, and every older command the caller could have had when it asked
    had been given out before; two claims never return the same command; and a
    claim that finds nothing leaves none of the commands it could have had
    undelivered. *)
Theorem commands_delivered_once (db0 : cmd_db) (rqs : list cmd_request)
    (c : conf cmd_db (res command_error CanaryCommand)) :
  cmd_inv db0 -> runs (start db0 (serve <$> rqs)) c ->
  cmd_inv (cdb c) /\ cmd_le db0 (cdb c) /\
  (forall i canaryID allowed now cmd,
     rqs !! i = Some (ReqClaim canaryID allowed now) -> cpool c !! i = Some (Ret (Ok cmd)) ->
     CanaryID cmd = canaryID /\ collectable allowed now cmd = true /\ DeliveredAt cmd = Some now /\
     (exists r, r ∈ cdb c /\ cmd = scan_command r) /\
     exists d0, (d0, d0) ∈ own i (ctrace c) /\
       forall r0, r0 ∈ d0 -> eligible canaryID allowed now r0 -> r_created r0 < CreatedAt cmd -> given r0 (cdb c)) /\
  (forall i j canaryID allowed now cmd canaryID' allowed' now' cmd',
     i ≠ j ->
     rqs !! i = Some (ReqClaim canaryID allowed now) -> cpool c !! i = Some (Ret (Ok cmd)) ->
     rqs !! j = Some (ReqClaim canaryID' allowed' now') -> cpool c !! j = Some (Ret (Ok cmd')) ->
     ID cmd ≠ ID cmd') /\
  (forall i canaryID allowed now,
     rqs !! i = Some (ReqClaim canaryID allowed now) -> cpool c !! i = Some (Ret (Err ErrCommandNotFound)) ->
     exists d0, (d0, d0) ∈ own i (ctrace c) /\
       forall r0, r0 ∈ d0 -> eligible canaryID allowed now r0 -> given r0 (cdb c)).
Proof.
  intros HI Hr.
  destruct (served cmd_inv cmd_le serve answered db0 rqs c cmd_serve_valid HI Hr) as (HI' & Hle0 & Hch & Hans).
  assert (forall i s, s ∈ own i (ctrace c) -> cmd_le s.2 (cdb c) /\ cmd_inv s.1 /\ cmd_le s.1 s.2) as Hown.
  { intros i [a b] [n Hn]%own_lookup. split; [exact (chain_after cmd_inv cmd_le _ _ _ _ _ _ _ Hch Hn)|].
    split; [exact (proj1 (chain_inv cmd_inv cmd_le _ _ _ _ _ _ _ Hch Hn))|].
    exact (chain_step cmd_inv cmd_le _ _ _ _ _ _ _ Hch Hn). }
  split; [done|]. split; [done|]. split; [|split].
  - intros i canaryID allowed now cmd Hi Ha.
    destruct (Hans i _ _ Hi Ha) as (d0 & s & r & Hd0 & Hs & Hr0 & (Hag & _ & Hcol) & Hin & -> & Hold).
    destruct (Hown i s Hs) as (Hle & _ & Hs12). split; [done|]. split; [done|]. split; [done|]. split.
    + destruct (table_le_in row_le _ _ _ Hle Hin) as (r' & Hr' & [_ _ _ _ Heq]). exists r'. by rewrite Heq in * by done.
    + exists d0. split; [done|]. intros r0 Hx He Hlt. apply (given_mono r0 s.2); [done|].
      apply (given_mono r0 s.1); [done|]. by apply Hold.
  - intros i j c1 a1 n1 cmd1 c2 a2 n2 cmd2 Hij Hi Ha Hj Hb Heq.
    destruct (Hans i _ _ Hi Ha) as (_ & [d d'] & r & _ & Hs & Hr1 & (_ & Hd1 & _) & Hin1 & -> & _).
    destruct (Hans j _ _ Hj Hb) as (_ & [e e'] & r2 & _ & Ht & Hr2 & (_ & Hd2 & _) & Hin2 & -> & _).
    apply own_lookup in Hs as [n Hn], Ht as [m Hm]. simpl in *.
    destruct (Nat.lt_trichotomy n m) as [Hlt|[->|Hlt]].
    + by apply (delivered_once _ _ _ n m i j d d' e e' r r2 n1 Hch Hlt Hn Hm).
    + congruence.
    + by apply (delivered_once _ _ _ m n j i e e' d d' r2 r n2 Hch Hlt Hm Hn).
  - intros i canaryID allowed now Hi Ha. destruct (Hans i _ _ Hi Ha) as (d0 & Hd0 & Hall). exists d0.
    split; [done|]. intros r0 Hr0 He. destruct (Hall r0 Hr0 He) as (s & Hs & Hg).
    apply (given_mono r0 s.2); [apply (Hown i s Hs)|done].
Qed.
End delivery.

(** ** A race *)

#[local] Instance created_le_dec (a b : CanaryCommand) : Decision (CreatedAt a <= CreatedAt b).
Proof. apply Z_le_dec. Defined.

Definition ex_stdlib : Stdlib.
Proof.
  refine {| json_valid := fun _ => true; sort_created := merge_sort (fun a b => CreatedAt a <= CreatedAt b) |}.
  - apply merge_sort_Permutation.
  - apply StronglySorted_merge_sort.
    + intros a b c. lia.
    + intros a b. lia.
Defined.

Definition ex_row (id kind : string) (created expires : Z) : command_row :=
  mkRow (lit id) (lit "gull") (lit kind) None created expires None.

Definition ex_db : cmd_db :=
  [ex_row "late" "selftest" 30 1000; ex_row "gone" "selftest" 5 90; ex_row "scan" "scan" 6 1000;
   ex_row "early" "selftest" 10 1000].

(** Two polls of one honeypot list the queue before either claims. *)
Definition ex_polls : list cmd_request :=
  [ReqClaim (lit "gull") (Some (commandKindsFor Honeypot)) 100; ReqClaim (lit "gull") (Some (commandKindsFor Honeypot)) 101].

Definition ex_run : conf cmd_db (res command_error CanaryCommand) :=
  schedule [0; 1; 0; 1; 1]%nat (start ex_db (@serve ex_stdlib <$> ex_polls)).

Definition ex_cmd (id : string) (created now : Z) : CanaryCommand :=
  mkCommand (lit id) (lit "gull") (lit "selftest") [] created 1000 (Some now).

Lemma ex_cmd_db_inv : @cmd_inv ex_stdlib ex_db.
Proof.
  split.
  - apply (bool_decide_unpack _). vm_compute. exact I.
  - unfold ex_db. rewrite !Forall_cons, Forall_nil. split_and!; try done; split; vm_compute; done.
Qed.

Lemma commands_delivered_once_witness :
  cpool ex_run !! 0%nat = Some (Ret (Ok (ex_cmd "early" 10 100))) /\
  cpool ex_run !! 1%nat = Some (Ret (Ok (ex_cmd "late" 30 101))) /\
  ID (ex_cmd "early" 10 100) ≠ ID (ex_cmd "late" 30 101).
Proof.
  assert (cpool ex_run !! 0%nat = Some (Ret (Ok (ex_cmd "early" 10 100)))) as H0 by (vm_compute; reflexivity).
  assert (cpool ex_run !! 1%nat = Some (Ret (Ok (ex_cmd "late" 30 101)))) as H1 by (vm_compute; reflexivity).
  split; [exact H0|]. split; [exact H1|].
  destruct (@commands_delivered_once ex_stdlib ex_db ex_polls ex_run ex_cmd_db_inv (schedule_runs _ _)) as (_ & _ & _ & H & _).
  exact (H 0%nat 1%nat (lit "gull") (Some (commandKindsFor Honeypot)) 100 (ex_cmd "early" 10 100)
    (lit "gull") (Some (commandKindsFor Honeypot)) 101 (ex_cmd "late" 30 101) (Nat.neq_succ_diag_r 0) eq_refl H0 eq_refl H1).
Defined.
