(* ===== verification/RunCmd.v ===== *)
(** The commands an operator pastes onto a host, [internal/runcmd]: the lines of
    each [docker run] ([runcmd.go]) and the upgrade script ([upgrade.go]).

    A writer takes what it is given, or fails at some write with part of it
    taken. The images an operator names in the environment are fields of the
    configurations, as in the code; reading the environment is left out. *)
From S2P Require Import Prelude GoBase GoStrings GoRunes Term HostMask Commands.
#[local] Open Scope Z_scope.

(** ** The writer *)

Record Writer : Type := mkWriter {
  takes : nat -> option nat;   (** the n-th write: all of it, or so much of it and an error *)
  wcalls : nat;
  wout : bytes;
}.

Inductive run_error : Type := WriteFailed | ErrShares (n : Z) | ErrKind (kind : bytes) | ErrUpgradeToken.

Definition action : Type := Writer -> Writer * option run_error.

Definition fine : action := fun w => (w, None).
Definition refuse (e : run_error) : action := fun w => (w, Some e).

Definition and_then (a b : action) : action := fun w => match a w with (w', None) => b w' | r => r end.

#[local] Infix "&&>" := and_then (at level 60, right associativity).

(** [fmt.Fprintln], one call of [Write] *)
Definition Fprintln (line : bytes) : action := fun w =>
  let b := line ++ [10] in
  match takes w (wcalls w) with
  | None => (mkWriter (takes w) (S (wcalls w)) (wout w ++ b), None)
  | Some k => (mkWriter (takes w) (S (wcalls w)) (wout w ++ take k b), Some WriteFailed)
  end.

Fixpoint writeLines (lines : list bytes) : action :=
  match lines with
  | [] => fine
  | line :: lines => Fprintln line &&> writeLines lines
  end.

(** [strings.Builder] *)
Definition new_builder : Writer := mkWriter (fun _ => None) 0 [].

(** ** runcmd.go *)

Definition HolderContainerName : bytes := lit "holder".
Definition MockingbirdContainerName : bytes := lit "mockingbird".
Definition OpenCanaryContainerName : bytes := lit "opencanary".
Definition SMBLureContainerName : bytes := lit "smb-lure".
Definition NightjarContainerName : bytes := lit "nightjar".

Definition SMBAuditVolume : bytes := lit "smb-audit".
Definition SMBAuditPath : bytes := lit "/audit/smb.log".
Definition SMBAuditSize : bytes := lit "16m".
Definition SMBShareCount : Z := 3.

(** [docker run -d --name NAME --restart unless-stopped] and what follows. *)
Definition docker_run (name : bytes) (more : string) : bytes :=
  lit "docker run -d --name " ++ name ++ lit " --restart unless-stopped" ++ lit more ++ lit " \".

(** "  " and a value. *)
Definition last_line (image : bytes) : bytes := lit "  " ++ Escape image.

Definition env_line (name : string) (value : bytes) : bytes := lit "  -e " ++ lit name ++ lit "=" ++ value ++ lit " \".

Record HolderConfig : Type := mkHolder { ho_Image : bytes; ho_SMBLure : bool }.

Definition holder_lines (cfg : HolderConfig) : list bytes :=
  (if ho_SMBLure cfg
   then [lit "docker volume create --driver local \";
         lit "  --opt type=tmpfs --opt device=tmpfs --opt o=size=" ++ SMBAuditSize ++ lit ",mode=0755 \";
         lit "  " ++ SMBAuditVolume;
         lit ""] else []) ++
  [docker_run HolderContainerName ""; lit "  --read-only \"; lit "  --cap-drop ALL \";
   lit "  --security-opt no-new-privileges \"; lit "  --pids-limit 16 \"; lit "  --memory 32m \"] ++
  (if ho_SMBLure cfg then [lit "  -v " ++ SMBAuditVolume ++ lit ":/audit:ro \"] else []) ++
  [last_line (ho_Image cfg)].

Definition WriteHolderRun (cfg : HolderConfig) : action := writeLines (holder_lines cfg).

Definition opencanary_lines (image : bytes) : list bytes :=
  [docker_run OpenCanaryContainerName " --init"; lit "  --network container:" ++ HolderContainerName ++ lit " \";
   lit "  --sysctl net.ipv4.ip_unprivileged_port_start=0 \"; lit "  --read-only \"; lit "  --cap-drop ALL \";
   lit "  --security-opt no-new-privileges \"; lit "  --pids-limit 32 \"; lit "  --memory 128m \";
   lit "  --tmpfs /var/tmp:size=8m \"; lit "  -v mockingbird-log:/var/log/opencanary \"; last_line image].

Definition WriteOpenCanaryRun (image : bytes) : action := writeLines (opencanary_lines image).

Record SMBLureConfig : Type := mkLure { lu_Image : bytes; lu_Workgroup : bytes; lu_Shares : list bytes }.

Definition smb_lure_lines (image workgroup public backup scans : bytes) : list bytes :=
  [docker_run SMBLureContainerName ""; lit "  --network container:" ++ HolderContainerName ++ lit " \";
   lit "  --read-only \"; lit "  --cap-drop ALL \"; lit "  --cap-add SETUID --cap-add SETGID --cap-add NET_BIND_SERVICE \";
   lit "  --security-opt no-new-privileges \"; lit "  --pids-limit 128 \"; lit "  --memory 192m \"; lit "  --ulimit core=0 \";
   lit "  --tmpfs /run:size=8m \"; lit "  --tmpfs /var/lib/samba:size=8m \"; lit "  --tmpfs /var/cache/samba:size=8m \";
   lit "  --tmpfs /var/log:size=8m \"; lit "  -v " ++ SMBAuditVolume ++ lit ":/audit \";
   env_line "SMB_WORKGROUP" (Escape workgroup); env_line "SMB_SHARE_PUBLIC" (Escape public);
   env_line "SMB_SHARE_BACKUP" (Escape backup); env_line "SMB_SHARE_SCANS" (Escape scans); last_line image].

Definition WriteSMBLureRun (cfg : SMBLureConfig) : action :=
  match lu_Shares cfg with
  | [public; backup; scans] => writeLines (smb_lure_lines (lu_Image cfg) (lu_Workgroup cfg) public backup scans)
  | _ => refuse (ErrShares (zlen (lu_Shares cfg)))
  end.

Record MockingbirdConfig : Type := mkMockingbird {
  mo_AdvertiseHost : bytes;
  mo_EnrolPort : bytes;
  mo_Pin : bytes;
  mo_Token : bytes;
  mo_Image : bytes;
  mo_SMBLure : bool;
  mo_BaitNames : bytes;
  mo_SegmentProfile : bytes;
}.

Definition when_set (v : bytes) (line : bytes) : list bytes := if bool_decide (v = []) then [] else [line].

Definition url_value (host port : bytes) : bytes := lit "https://" ++ Escape host ++ lit ":" ++ port.

Definition mockingbird_lines (cfg : MockingbirdConfig) : list bytes :=
  [docker_run MockingbirdContainerName ""; lit "  --cap-add NET_RAW \"; lit "  --security-opt no-new-privileges \";
   lit "  -v mockingbird-state:/var/lib/mockingbird -v mockingbird-log:/var/log/opencanary:ro \";
   lit "  --network container:" ++ HolderContainerName ++ lit " \"] ++
  (if mo_SMBLure cfg
   then [lit "  -v " ++ SMBAuditVolume ++ lit ":/audit:ro \"; env_line "MOCKINGBIRD_SMB_AUDIT_PATH" SMBAuditPath] else []) ++
  [env_line "MOCKINGBIRD_BIRDCAGE_URL" (url_value (mo_AdvertiseHost cfg) (mo_EnrolPort cfg));
   env_line "MOCKINGBIRD_CA_PIN" (mo_Pin cfg)] ++
  when_set (mo_Token cfg) (env_line "MOCKINGBIRD_DEPLOY_TOKEN" (mo_Token cfg)) ++
  when_set (mo_BaitNames cfg) (env_line "MOCKINGBIRD_POISONER_NAMES" (Escape (mo_BaitNames cfg))) ++
  when_set (mo_SegmentProfile cfg) (env_line "MOCKINGBIRD_POISONER_PROFILE" (Escape (mo_SegmentProfile cfg))) ++
  [last_line (mo_Image cfg)].

Definition WriteMockingbirdRun (cfg : MockingbirdConfig) : action := writeLines (mockingbird_lines cfg).

Record NightjarConfig : Type := mkNightjar {
  ni_AdvertiseHost : bytes;
  ni_EnrolPort : bytes;
  ni_Pin : bytes;
  ni_Token : bytes;
  ni_Image : bytes;
}.

Definition nightjar_lines (cfg : NightjarConfig) : list bytes :=
  [docker_run NightjarContainerName ""; lit "  --read-only --cap-drop ALL --security-opt no-new-privileges \"; lit "  -v /:/host:ro \"] ++
  ((fun flag => lit "  " ++ flag ++ lit " \") <$> RunFlags (lit "/host")) ++
  [lit "  -v nightjar-state:/var/lib/nightjar -v nightjar-grype-db:/var/lib/nightjar-grype-db \";
   env_line "NIGHTJAR_BIRDCAGE_URL" (url_value (ni_AdvertiseHost cfg) (ni_EnrolPort cfg));
   env_line "NIGHTJAR_CA_PIN" (ni_Pin cfg)] ++
  when_set (ni_Token cfg) (env_line "NIGHTJAR_DEPLOY_TOKEN" (ni_Token cfg)) ++
  [last_line (ni_Image cfg)].

Definition WriteNightjarRun (cfg : NightjarConfig) : action := writeLines (nightjar_lines cfg).

(** ** upgrade.go *)

Record UpgradeInput : Type := mkInput {
  Kind_ : bytes;
  UpgradeToken_ : bytes;
  AdvertiseHost : bytes;
  EnrolPort : bytes;
  Pin : bytes;
  AgentImage : bytes;
  HolderImage : bytes;
  OpenCanaryImage : bytes;
  SMBLureImage : bytes;
  BaitNames_ : bytes;
  SegmentProfile_ : bytes;
  SMBLure : option bool;
  SMBWorkgroup : bytes;
  SMBShares : list bytes;
}.

Definition unknownSMBWorkgroupPlaceholder : bytes := lit "WORKGROUP-UNKNOWN-CHECK-HOST".
Definition unknownSMBSharePlaceholders : list bytes :=
  [lit "SHARE1-UNKNOWN-CHECK-HOST"; lit "SHARE2-UNKNOWN-CHECK-HOST"; lit "SHARE3-UNKNOWN-CHECK-HOST"].

Definition upgradeTokenLen : Z := 64.

Definition validUpgradeToken (t : bytes) : bool :=
  (zlen t =? upgradeTokenLen) && forallb (fun c => is_digit c || ((97 <=? c) && (c <=? 102))) t.

Definition blank : action := Fprintln [].
Definition step_line (name : string) : bytes := lit "step='" ++ lit name ++ lit "'".
Definition step (name : string) : action := writeLines [step_line name].

Definition token_line (token : bytes) : bytes := lit "echo " ++ token ++ lit " | docker run --rm -i \".

Definition token_step_lines (token image volumeFlag networkLine capsLine : bytes) : list bytes :=
  [token_line token] ++ when_set networkLine networkLine ++
  [capsLine; lit "  " ++ volumeFlag ++ lit " \"; lit "  " ++ Escape image ++ lit " upgrade-token || true"].

Definition writeUpgradeTokenStep (token image volumeFlag networkLine capsLine : bytes) : action :=
  step "present the upgrade token" &&> writeLines (token_step_lines token image volumeFlag networkLine capsLine).

Definition pull_line (image : bytes) : bytes := lit "docker pull " ++ Escape image.
Definition rm_line (name : bytes) : bytes := lit "docker rm -f " ++ name ++ lit " || true".

Definition nightjar_upgrade (in_ : UpgradeInput) : NightjarConfig :=
  mkNightjar (AdvertiseHost in_) (EnrolPort in_) (Pin in_) [] (AgentImage in_).

Definition nightjar_volume : bytes := lit "-v nightjar-state:/var/lib/nightjar:ro".
Definition nightjar_caps : bytes := lit "  --read-only --cap-drop ALL --security-opt no-new-privileges \".

Definition upgradeScanner (in_ : UpgradeInput) : action :=
  step "pull the current image" &&> writeLines [pull_line (AgentImage in_)] &&> blank &&>
  step "remove the old container" &&> writeLines [rm_line NightjarContainerName] &&> blank &&>
  writeUpgradeTokenStep (UpgradeToken_ in_) (AgentImage in_) nightjar_volume [] nightjar_caps &&> blank &&>
  step "start nightjar" &&> WriteNightjarRun (nightjar_upgrade in_).

Definition lure_note : list bytes :=
  [lit "# SMB lure: unknown for this canary -- it was enrolled before birdcage started";
   lit "# recording this (issue #54). Check the canary host for a running smb-lure";
   lit "# container (docker ps -a --filter name=smb-lure) before relying on anything";
   lit "# below. Its workgroup and share names were never recorded either, so the";
   lit "# commented command below uses placeholders -- replace them with what the";
   lit "# host is actually running, or leave the lure off if `docker ps -a` finds none."].

Definition writeUnknownSMBLureBlock (in_ : UpgradeInput) : action :=
  writeLines lure_note &&>
  let '(body, err) :=
    WriteSMBLureRun (mkLure (SMBLureImage in_) unknownSMBWorkgroupPlaceholder unknownSMBSharePlaceholders) new_builder in
  match err with
  | Some e => refuse e
  | None =>
      writeLines
        ([lit "# " ++ pull_line (SMBLureImage in_); lit "# " ++ (lit "docker rm -f " ++ SMBLureContainerName)] ++
         ((fun line => lit "# " ++ line) <$> Split (TrimRight (wout body) 10) 10))
  end.

Definition mockingbird_upgrade (in_ : UpgradeInput) (lureOn : bool) : MockingbirdConfig :=
  mkMockingbird (AdvertiseHost in_) (EnrolPort in_) (Pin in_) [] (AgentImage in_) lureOn (BaitNames_ in_) (SegmentProfile_ in_).

Definition mockingbird_volume : bytes := lit "-v mockingbird-state:/var/lib/mockingbird:ro".
Definition mockingbird_caps : bytes := lit "  --read-only --cap-drop ALL --cap-add NET_RAW --security-opt no-new-privileges \".
Definition holder_network : bytes := lit "  --network container:" ++ HolderContainerName ++ lit " \".

(** A double quote. *)
Definition quoted (s : bytes) : bytes := 34 :: s ++ [34].

Definition lure_check : list bytes :=
  [lit "if [ " ++ quoted (lit "$(docker inspect -f '{{.State.Running}}' " ++ SMBLureContainerName ++ lit " 2>/dev/null)") ++
     lit " = " ++ quoted (lit "true") ++ lit " ]; then";
   lit "  echo " ++ quoted (lit "birdcage upgrade: a running smb-lure container was found on a canary enrolled before issue #54 tracked lures; an automatic upgrade cannot preserve its ports, so nothing has been removed. Re-enrol this canary instead.") ++
     lit " >&2";
   lit "  exit 1"; lit "fi"].

Definition pulls (in_ : UpgradeInput) (lureOn : bool) : list bytes :=
  [pull_line (AgentImage in_); pull_line (HolderImage in_); pull_line (OpenCanaryImage in_)] ++
  (if lureOn then [pull_line (SMBLureImage in_)] else []).

Definition rms (lureOn : bool) : list bytes :=
  (if lureOn then [rm_line SMBLureContainerName] else []) ++
  [rm_line OpenCanaryContainerName; rm_line MockingbirdContainerName; rm_line HolderContainerName].

Definition lure_off_line : bytes := lit "# smb lure off for this canary: no smb-lure container to pull, remove or re-run".

Definition upgradeHoneypot (in_ : UpgradeInput) : action :=
  let lureOn := match SMBLure in_ with Some b => b | None => false end in
  step "pull the current images" &&> writeLines (pulls in_ lureOn) &&> blank &&>
  (match SMBLure in_ with
   | None => step "check for an untracked smb lure" &&> writeLines lure_check &&> blank
   | Some _ => fine
   end) &&>
  step "remove the old containers" &&> writeLines (rms lureOn) &&> blank &&>
  step "start the address holder" &&> WriteHolderRun (mkHolder (HolderImage in_) lureOn) &&> blank &&>
  writeUpgradeTokenStep (UpgradeToken_ in_) (AgentImage in_) mockingbird_volume holder_network mockingbird_caps &&> blank &&>
  step "start mockingbird" &&> WriteMockingbirdRun (mockingbird_upgrade in_ lureOn) &&> blank &&>
  step "start opencanary" &&> WriteOpenCanaryRun (OpenCanaryImage in_) &&> blank &&>
  match SMBLure in_ with
  | Some true => step "start the smb lure" &&> WriteSMBLureRun (mkLure (SMBLureImage in_) (SMBWorkgroup in_) (SMBShares in_))
  | Some false => writeLines [lure_off_line]
  | None => writeUnknownSMBLureBlock in_
  end.

Definition trap_line : bytes :=
  lit "trap 'rc=$?; if [ " ++ quoted (lit "$rc") ++ lit " -eq 0 ]; then echo " ++ quoted (lit "birdcage upgrade: done") ++
  lit "; else echo " ++ quoted (lit "birdcage upgrade stopped at: $step (nothing after it ran)") ++ lit " >&2; fi' EXIT".

Definition Upgrade (in_ : UpgradeInput) : action :=
  match (if bool_decide (Kind_ in_ = Honeypot) then Some upgradeHoneypot
         else if bool_decide (Kind_ in_ = Scanner) then Some upgradeScanner else None) with
  | None => refuse (ErrKind (Kind_ in_))
  | Some body =>
      if negb (validUpgradeToken (UpgradeToken_ in_)) then refuse ErrUpgradeToken
      else writeLines [lit "( set -e"; trap_line] &&> body in_ &&> writeLines [lit ")"]
  end.

(** ** The script as lines *)

(** One step of the script, and the blank line after it. *)
Definition stepped (name : string) (lines : list bytes) : list bytes := step_line name :: lines ++ [[]].

Definition scanner_script (in_ : UpgradeInput) : list bytes :=
  stepped "pull the current image" [pull_line (AgentImage in_)] ++
  stepped "remove the old container" [rm_line NightjarContainerName] ++
  stepped "present the upgrade token"
    (token_step_lines (UpgradeToken_ in_) (AgentImage in_) nightjar_volume [] nightjar_caps) ++
  step_line "start nightjar" :: nightjar_lines (nightjar_upgrade in_).

Definition commented (lines : list bytes) : list bytes := (fun line => lit "# " ++ line) <$> lines.

Definition unknown_lure (image : bytes) : list bytes :=
  lure_note ++ commented ([pull_line image; lit "docker rm -f " ++ SMBLureContainerName] ++
    smb_lure_lines image unknownSMBWorkgroupPlaceholder (lit "SHARE1-UNKNOWN-CHECK-HOST") (lit "SHARE2-UNKNOWN-CHECK-HOST")
      (lit "SHARE3-UNKNOWN-CHECK-HOST")).

Definition lure_script (in_ : UpgradeInput) : list bytes * option run_error :=
  match SMBLure in_ with
  | Some true =>
      match SMBShares in_ with
      | [a; b; c] => (step_line "start the smb lure" :: smb_lure_lines (SMBLureImage in_) (SMBWorkgroup in_) a b c, None)
      | _ => ([step_line "start the smb lure"], Some (ErrShares (zlen (SMBShares in_))))
      end
  | Some false => ([lure_off_line], None)
  | None => (unknown_lure (SMBLureImage in_), None)
  end.

Definition lureOn (in_ : UpgradeInput) : bool := match SMBLure in_ with Some b => b | None => false end.

(** Before the first removal, and from it on. *)
Definition honeypot_before (in_ : UpgradeInput) : list bytes :=
  stepped "pull the current images" (pulls in_ (lureOn in_)) ++
  match SMBLure in_ with None => stepped "check for an untracked smb lure" lure_check | Some _ => [] end.

Definition honeypot_after (in_ : UpgradeInput) : list bytes :=
  stepped "remove the old containers" (rms (lureOn in_)) ++
  stepped "start the address holder" (holder_lines (mkHolder (HolderImage in_) (lureOn in_))) ++
  stepped "present the upgrade token"
    (token_step_lines (UpgradeToken_ in_) (AgentImage in_) mockingbird_volume holder_network mockingbird_caps) ++
  stepped "start mockingbird" (mockingbird_lines (mockingbird_upgrade in_ (lureOn in_))) ++
  stepped "start opencanary" (opencanary_lines (OpenCanaryImage in_)).

(** The whole script, and the error it ends in, if any. *)
Definition script (in_ : UpgradeInput) : list bytes * option run_error :=
  let head := [lit "( set -e"; trap_line] in
  if bool_decide (Kind_ in_ = Scanner) then (head ++ scanner_script in_ ++ [lit ")"], None)
  else let '(ls, r) := lure_script in_ in
       (head ++ honeypot_before in_ ++ honeypot_after in_ ++ ls ++ (if r then [] else [lit ")"]), r).

Definition text (lines : list bytes) : bytes := concat ((fun l => l ++ [10]) <$> lines).

(** ** Lemmas: what an action prints *)

(** The action writes these lines, then ends so; a write that fails ends it. *)
Definition prints (a : action) (ls : list bytes) (r : option run_error) : Prop :=
  forall w, a w = match writeLines ls w with (w', None) => (w', r) | e => e end.

Lemma writeLines_app ls ks w : writeLines (ls ++ ks) w = (writeLines ls &&> writeLines ks) w.
Proof.
  revert w. induction ls as [|l ls IH]; intros w; [done|]. cbn [app writeLines]. unfold and_then at 1 2 3. destruct (Fprintln l w) as [w' [e|]]; [done|].
  apply IH.
Qed.

Lemma prints_lines ls : prints (writeLines ls) ls None.
Proof. intros w. by destruct (writeLines ls w) as [w' [e|]]. Qed.

Lemma prints_fine : prints fine [] None.
Proof. done. Qed.

Lemma prints_refuse e : prints (refuse e) [] (Some e).
Proof. done. Qed.

Lemma prints_then a b ls ks r : prints a ls None -> prints b ks r -> prints (a &&> b) (ls ++ ks) r.
Proof.
  intros Ha Hb w. rewrite writeLines_app. unfold and_then. rewrite Ha. destruct (writeLines ls w) as [w' [e|]]; [done|]. apply Hb.
Qed.

Lemma prints_stop a b ls e : prints a ls (Some e) -> prints (a &&> b) ls (Some e).
Proof. intros Ha w. unfold and_then. rewrite Ha. by destruct (writeLines ls w) as [w' [e'|]]. Qed.

Lemma prints_blank : prints blank [[]] None.
Proof. intros w. cbn [writeLines]. unfold and_then, blank, fine. by destruct (Fprintln [] w) as [w' [e|]]. Qed.

(** A step and its blank line, and what comes after. *)
Lemma prints_step name a b ls ks r :
  prints a ls None -> prints b ks r -> prints (step name &&> a &&> blank &&> b) (stepped name ls ++ ks) r.
Proof.
  intros Ha Hb. unfold stepped. change (step_line name :: ls ++ [[]]) with ([step_line name] ++ ls ++ [[]]). rewrite <- !app_assoc.
  apply prints_then; [apply prints_lines|]. apply prints_then; [done|]. apply prints_then; [apply prints_blank|done].
Qed.

(** ** Lemmas: lines *)

(** A line that is one line. *)
Abbreviation one_line := (fun l : bytes => 10 ∉ l).

Lemma literal_one_line s : existsb (fun c => c =? 10) s = false -> 10 ∉ s.
Proof. intros H Hin%list_elem_of_In. assert (existsb (fun c => c =? 10) s = true); [|congruence]. apply existsb_exists. by exists 10. Qed.

Lemma literal_lines ls : forallb (fun l => negb (existsb (fun c => c =? 10) l)) ls = true -> Forall one_line ls.
Proof.
  rewrite forallb_forall, Forall_forall. intros H l Hl%list_elem_of_In%H. by apply literal_one_line, negb_true_iff.
Qed.

Lemma app_one_line a b : 10 ∉ a -> 10 ∉ b -> 10 ∉ a ++ b.
Proof. intros Ha Hb. by apply not_elem_of_app. Qed.

#[local] Ltac one_line :=
  lazymatch goal with
  | |- 10 ∉ _ ++ _ => apply app_one_line; one_line
  | |- 10 ∉ Escape _ => apply Escape_no_newline; assumption
  | |- 10 ∉ lit ?s => first [is_var s; assumption | apply literal_one_line; vm_compute; reflexivity]
  | |- 10 ∉ ?x => first [assumption | is_const x; apply literal_one_line; vm_compute; reflexivity]
  end.

#[local] Ltac lines := repeat (apply Forall_cons; split; [one_line|]); try apply Forall_nil_2.

Lemma when_set_one_line v l : 10 ∉ l -> Forall one_line (when_set v l).
Proof. intros Hl. unfold when_set. case_bool_decide; [constructor|by repeat constructor]. Qed.

Lemma smb_lure_one_line i w a b c : wf_bytes i -> wf_bytes w -> wf_bytes a -> wf_bytes b -> wf_bytes c ->
  Forall one_line (smb_lure_lines i w a b c).
Proof. intros. unfold smb_lure_lines, docker_run, env_line, last_line. lines. Qed.

Lemma text_Join ls : ls ≠ [] -> text ls = Join ls 10 ++ [10].
Proof.
  intros Hne. unfold text. induction ls as [|l ls IH]; [done|]. destruct ls as [|k ls]; [cbn; by rewrite app_nil_r|].
  rewrite fmap_cons. cbn [concat]. rewrite IH by done. rewrite (Join_cons l) by done. by rewrite <- !app_assoc.
Qed.

Lemma text_lines ls : Forall one_line ls -> Split (text ls) 10 = ls ++ [[]].
Proof.
  intros Hls. destruct (decide (ls = [])) as [->|Hne]; [done|]. rewrite text_Join by done. rewrite Split_last by apply not_elem_of_nil.
  by rewrite Split_Join.
Qed.

Lemma Join_last ls l : Join (ls ++ [l]) 10 = match ls with [] => l | _ => Join ls 10 ++ 10 :: l end.
Proof.
  induction ls as [|k ls IH]; [done|]. destruct ls as [|k' ls]; [done|]. cbn [app]. rewrite (Join_cons k) by done. cbn [app] in IH. rewrite IH.
  rewrite (Join_cons k) by done. by rewrite <- app_assoc.
Qed.

(** The lines of a text that does not end in an empty one. *)
Lemma trimmed_lines ls l : Forall one_line (ls ++ [l]) -> l ≠ [] -> Split (TrimRight (text (ls ++ [l])) 10) 10 = ls ++ [l].
Proof.
  intros Hls Hl. assert (TrimRight (text (ls ++ [l])) 10 = Join (ls ++ [l]) 10) as ->; [|by apply Split_Join; [|by destruct ls]].
  rewrite text_Join by (by destruct ls). destruct (exists_last Hl) as (l' & c & ->). apply Forall_app in Hls as [_ [Hc _]%Forall_cons].
  assert (c ≠ 10) as Hc' by (intros ->; apply Hc, elem_of_app; right; left).
  assert (exists y, Join (ls ++ [l' ++ [c]]) 10 = y ++ [c]) as [y ->].
  { rewrite Join_last. destruct ls as [|k ls]; [by exists l'|]. exists (Join (k :: ls) 10 ++ 10 :: l'). by rewrite <- app_assoc. }
  unfold TrimRight. rewrite !reverse_app. cbn [reverse]. rewrite !reverse_singleton. cbn [app drop_while]. change (10 =? 10) with true. cbv iota.
  rewrite (proj2 (Z.eqb_neq c 10) Hc'). change (c :: reverse y) with ([c] ++ reverse y). by rewrite reverse_app, reverse_involutive, reverse_singleton.
Qed.

(** A builder takes everything. *)
Lemma writeLines_builder ls w : (forall n, takes w n = None) ->
  writeLines ls w = (mkWriter (takes w) (length ls + wcalls w) (wout w ++ text ls), None).
Proof.
  revert w. induction ls as [|l ls IH]; intros w Hw.
  - destruct w. unfold text. cbn. by rewrite app_nil_r.
  - cbn [writeLines]. unfold and_then, Fprintln. rewrite Hw. rewrite IH by done. cbn [takes wcalls wout]. unfold text. rewrite fmap_cons. cbn [concat length].
    rewrite <- app_assoc. by rewrite Nat.add_succ_r.
Qed.

Lemma smb_lure_lines_last i w a b c : exists ls, smb_lure_lines i w a b c = ls ++ [last_line i].
Proof. by eexists (_ :: _ :: _ :: _ :: _ :: _ :: _ :: _ :: _ :: _ :: _ :: _ :: _ :: _ :: _ :: _ :: _ :: _ :: []). Qed.

Lemma prints_unknown_lure in_ : wf_bytes (SMBLureImage in_) ->
  prints (writeUnknownSMBLureBlock in_) (unknown_lure (SMBLureImage in_)) None.
Proof.
  intros Hi. unfold writeUnknownSMBLureBlock, unknown_lure. apply prints_then; [apply prints_lines|]. unfold WriteSMBLureRun. cbn [lu_Shares lu_Image lu_Workgroup].
  unfold unknownSMBSharePlaceholders. rewrite writeLines_builder by done. cbn [wout new_builder app]. cbv beta iota.
  destruct (smb_lure_lines_last (SMBLureImage in_) unknownSMBWorkgroupPlaceholder (lit "SHARE1-UNKNOWN-CHECK-HOST") (lit "SHARE2-UNKNOWN-CHECK-HOST")
      (lit "SHARE3-UNKNOWN-CHECK-HOST")) as [ls Hls].
  assert (Forall one_line (ls ++ [last_line (SMBLureImage in_)])) as Hone by (rewrite <- Hls; apply smb_lure_one_line; [done|apply lit_wf..]).
  rewrite Hls, (trimmed_lines _ _ Hone) by done. apply prints_lines.
Qed.

(** ** Lemmas: the script *)

Lemma prints_token_step t i v n c : prints (writeUpgradeTokenStep t i v n c)
  (step_line "present the upgrade token" :: token_step_lines t i v n c) None.
Proof. apply (prints_then _ _ [_]); apply prints_lines. Qed.

(** The token's step and its blank line. *)
Lemma prints_token t i v n c b ks r : prints b ks r ->
  prints (writeUpgradeTokenStep t i v n c &&> blank &&> b) (stepped "present the upgrade token" (token_step_lines t i v n c) ++ ks) r.
Proof.
  intros Hb. unfold stepped. rewrite app_comm_cons, <- app_assoc. apply prints_then; [apply prints_token_step|].
  apply prints_then; [apply prints_blank|done].
Qed.

Lemma prints_last_step name ls r a : prints a ls r -> prints (step name &&> a) (step_line name :: ls) r.
Proof. intros Ha. by apply (prints_then _ _ [step_line name]); [apply prints_lines|]. Qed.

Lemma prints_scanner in_ : prints (upgradeScanner in_) (scanner_script in_) None.
Proof.
  unfold upgradeScanner, scanner_script. apply prints_step; [apply prints_lines|]. apply prints_step; [apply prints_lines|]. apply prints_token.
  apply prints_last_step, prints_lines.
Qed.

Lemma prints_lure in_ : wf_bytes (SMBLureImage in_) ->
  prints match SMBLure in_ with
         | Some true => step "start the smb lure" &&> WriteSMBLureRun (mkLure (SMBLureImage in_) (SMBWorkgroup in_) (SMBShares in_))
         | Some false => writeLines [lure_off_line]
         | None => writeUnknownSMBLureBlock in_
         end (lure_script in_).1 (lure_script in_).2.
Proof.
  intros Hi. unfold lure_script. destruct (SMBLure in_) as [[|]|]; [|apply prints_lines|by apply prints_unknown_lure].
  unfold WriteSMBLureRun. cbn [lu_Shares]. destruct (SMBShares in_) as [|a [|b [|c [|d k]]]]; apply prints_last_step;
    (apply prints_lines || apply prints_refuse).
Qed.

Lemma prints_honeypot in_ : wf_bytes (SMBLureImage in_) ->
  prints (upgradeHoneypot in_) (honeypot_before in_ ++ honeypot_after in_ ++ (lure_script in_).1) (lure_script in_).2.
Proof.
  intros Hi. unfold upgradeHoneypot, honeypot_before, honeypot_after. cbv zeta. fold (lureOn in_). rewrite <- !app_assoc.
  apply prints_step; [apply prints_lines|]. apply prints_then.
  { destruct (SMBLure in_); [apply prints_fine|]. unfold stepped. apply prints_last_step. apply prints_then; [apply prints_lines|apply prints_blank]. }
  apply prints_step; [apply prints_lines|]. apply prints_step; [apply prints_lines|]. apply prints_token.
  apply prints_step; [apply prints_lines|]. apply prints_step; [apply prints_lines|]. by apply prints_lure.
Qed.

Definition accepted (in_ : UpgradeInput) : Prop :=
  (Kind_ in_ = Honeypot \/ Kind_ in_ = Scanner) /\ validUpgradeToken (UpgradeToken_ in_) = true.

Lemma prints_Upgrade in_ : accepted in_ -> wf_bytes (SMBLureImage in_) -> prints (Upgrade in_) (script in_).1 (script in_).2.
Proof.
  intros [Hk Ht] Hi. unfold Upgrade, script. rewrite Ht. cbn [negb]. destruct Hk as [-> | ->].
  - rewrite bool_decide_true by done. rewrite bool_decide_false by done. cbv beta iota zeta. pose proof (prints_honeypot in_ Hi) as Hp.
    destruct (lure_script in_) as [ls [e|]]; cbn [fst snd] in *; apply prints_then; try apply prints_lines.
    + rewrite app_nil_r. by apply prints_stop.
    + replace (honeypot_before in_ ++ honeypot_after in_ ++ ls ++ [lit ")"]) with ((honeypot_before in_ ++ honeypot_after in_ ++ ls) ++ [lit ")"])
        by (by rewrite <- !app_assoc). apply prints_then; [done|apply prints_lines].
  - rewrite bool_decide_false by done. rewrite bool_decide_true by done. cbv beta iota zeta. cbn [fst snd]. apply prints_then; [apply prints_lines|].
    apply prints_then; [apply prints_scanner|apply prints_lines].
Qed.

(** A writer that fails has taken the start of the text, and its error is the
    one returned. *)
Lemma writeLines_prefix ls w : exists w' r p, writeLines ls w = (w', r) /\ wout w' = wout w ++ p /\ p `prefix_of` text ls /\
  (r = None /\ p = text ls \/ r = Some WriteFailed).
Proof.
  revert w. induction ls as [|l ls IH]; intros w.
  - exists w, None, []. rewrite app_nil_r. repeat split; [by exists []|by left].
  - cbn [writeLines]. unfold and_then, Fprintln. unfold text. rewrite fmap_cons. cbn [concat]. fold (text ls).
    destruct (takes w (wcalls w)) as [k|].
    + eexists _, _, (take k (l ++ [10])). repeat split; [|by right]. etrans; [|by apply prefix_app_r]. exists (drop k (l ++ [10])). by rewrite take_drop.
    + destruct (IH (mkWriter (takes w) (S (wcalls w)) (wout w ++ l ++ [10]))) as (w' & r & p & -> & Hout & Hp & Hr). cbn [wout] in Hout.
      exists w', r, ((l ++ [10]) ++ p). repeat split; [by rewrite Hout, <- !app_assoc|by apply prefix_app|].
      destruct Hr as [[-> ->]| ->]; [left|right]; done.
Qed.

(** ** What the script runs *)

(** A line that starts a command of docker's, and is not the rest of one, a
    comment, or the shell's own bookkeeping. *)
Definition live (l : bytes) : bool := HasPrefix l (lit "docker ") || HasPrefix l (lit "echo ").

(** The commands that the script is for, in order. *)
Definition plan (in_ : UpgradeInput) : list bytes :=
  let token := token_line (UpgradeToken_ in_) in
  let lure (c : bytes) := if lureOn in_ then [c] else [] in
  if bool_decide (Kind_ in_ = Scanner)
  then [pull_line (AgentImage in_); rm_line (lit "nightjar"); token; lit "docker run -d --name nightjar --restart unless-stopped \"]
  else
    [pull_line (AgentImage in_); pull_line (HolderImage in_); pull_line (OpenCanaryImage in_)] ++ lure (pull_line (SMBLureImage in_)) ++
    lure (rm_line (lit "smb-lure")) ++ [rm_line (lit "opencanary"); rm_line (lit "mockingbird"); rm_line (lit "holder")] ++
    lure (lit "docker volume create --driver local \") ++
    [lit "docker run -d --name holder --restart unless-stopped \"; token; lit "docker run -d --name mockingbird --restart unless-stopped \";
     lit "docker run -d --name opencanary --restart unless-stopped --init \"] ++
    (if (script in_).2 then [] else lure (lit "docker run -d --name smb-lure --restart unless-stopped \")).

Lemma when_set_nil l : when_set [] l = [].
Proof. done. Qed.

Lemma filter_when_set f v l : f l = false -> List.filter f (when_set v l) = [].
Proof. intros Hl. unfold when_set. case_bool_decide; [done|]. cbn [List.filter]. by rewrite Hl. Qed.

Lemma filter_stepped f name ls : f (step_line name) = false -> f [] = false -> List.filter f (stepped name ls) = List.filter f ls.
Proof.
  intros Hs Hb. unfold stepped. change (step_line name :: ls ++ [[]]) with ([step_line name] ++ ls ++ [[]]). rewrite !List.filter_app.
  cbn [List.filter]. rewrite Hs, Hb. cbn [app]. by rewrite app_nil_r.
Qed.

Lemma filter_commented f ls : (forall l, f (lit "# " ++ l) = false) -> List.filter f (commented ls) = [].
Proof. intros Hf. induction ls as [|l ls IH]; [done|]. unfold commented. rewrite fmap_cons. cbn [List.filter]. by rewrite Hf. Qed.

#[local] Ltac pick := repeat (rewrite ?List.filter_app, ?filter_when_set, ?filter_stepped by reflexivity).

Lemma live_scanner in_ : List.filter live (scanner_script in_) =
  [pull_line (AgentImage in_); rm_line NightjarContainerName; token_line (UpgradeToken_ in_); docker_run NightjarContainerName ""].
Proof.
  unfold scanner_script, nightjar_lines. rewrite (app_comm_cons _ _ (step_line _)). pick. reflexivity.
Qed.

Lemma live_honeypot_before in_ : List.filter live (honeypot_before in_) = pulls in_ (lureOn in_).
Proof. unfold honeypot_before, lureOn. destruct (SMBLure in_) as [[|]|]; reflexivity. Qed.

Lemma live_holder i b : List.filter live (holder_lines (mkHolder i b)) =
  (if b then [lit "docker volume create --driver local \"] else []) ++ [docker_run HolderContainerName ""].
Proof. destruct b; reflexivity. Qed.

Lemma live_mockingbird cfg : List.filter live (mockingbird_lines cfg) = [docker_run MockingbirdContainerName ""].
Proof. unfold mockingbird_lines. pick. by destruct (mo_SMBLure cfg). Qed.

Lemma live_lure in_ : List.filter live (lure_script in_).1 =
  if lureOn in_ then if (lure_script in_).2 then [] else [docker_run SMBLureContainerName ""] else [].
Proof.
  unfold lure_script, lureOn. destruct (SMBLure in_) as [[|]|]; [by destruct (SMBShares in_) as [|a [|b [|c [|d k]]]]|done|].
  cbn [fst]. unfold unknown_lure. rewrite List.filter_app, filter_commented by done. reflexivity.
Qed.

Lemma live_after in_ : List.filter live (honeypot_after in_) =
  rms (lureOn in_) ++ (if lureOn in_ then [lit "docker volume create --driver local \"] else []) ++
  [docker_run HolderContainerName ""; token_line (UpgradeToken_ in_); docker_run MockingbirdContainerName ""; docker_run OpenCanaryContainerName " --init"].
Proof.
  unfold honeypot_after. pick. rewrite live_holder, live_mockingbird. rewrite <- !app_assoc. f_equal; by destruct (lureOn in_).
Qed.

Lemma script_plan in_ : List.filter live (script in_).1 = plan in_.
Proof.
  unfold plan, script. destruct (bool_decide (Kind_ in_ = Scanner)) eqn:Hk; cbv zeta.
  - cbn [fst]. rewrite !List.filter_app, live_scanner. reflexivity.
  - pose proof (live_lure in_) as Hl. destruct (lure_script in_) as [ls r]. cbn [fst snd] in *. rewrite !List.filter_app, live_honeypot_before, live_after, Hl.
    change (List.filter live [lit "( set -e"; trap_line]) with (@nil bytes).
    destruct r; cbn [List.filter]; [|change (live (lit ")")) with false; cbv iota]; rewrite ?app_nil_r, <- ?app_assoc; by destruct (lureOn in_).
Qed.

(** A line that hands a container a deploy token. *)
Definition deploys (l : bytes) : bool :=
  HasPrefix l (lit "  -e MOCKINGBIRD_DEPLOY_TOKEN=") || HasPrefix l (lit "  -e NIGHTJAR_DEPLOY_TOKEN=").

(** An image that docker would not take for an option. *)
Definition image_ok (i : bytes) : Prop := wf_bytes i /\ head i ≠ Some 45.

Lemma deploys_value i k : image_ok i -> deploys (lit "  " ++ Escape i ++ k) = false \/ Escape i = [].
Proof.
  intros [_ Hi]. destruct (Escape i) as [|x t] eqn:He; [by right|left]. assert (x ≠ 45) as Hx.
  { destruct (Escape_head i) as [H|H]; rewrite He in H; cbn in H; [|by injection H as ->]. intros ->. by apply Hi. }
  unfold deploys, HasPrefix. rewrite !bool_decide_false; [done|intros [z Hz]; lazy in Hz; congruence..].
Qed.

Lemma deploys_last i : image_ok i -> deploys (last_line i) = false.
Proof. intros Hi. unfold last_line. destruct (deploys_value i [] Hi) as [H| ->]; [by rewrite app_nil_r in H|done]. Qed.

Lemma deploys_token i : image_ok i -> deploys (lit "  " ++ Escape i ++ lit " upgrade-token || true") = false.
Proof. intros Hi. by destruct (deploys_value i (lit " upgrade-token || true") Hi) as [H| ->]. Qed.

Definition images (in_ : UpgradeInput) : list bytes := [AgentImage in_; HolderImage in_; OpenCanaryImage in_; SMBLureImage in_].

#[local] Ltac none_deploys :=
  repeat (apply Forall_cons; split;
    [lazymatch goal with
     | |- deploys (last_line _) = _ => apply deploys_last; assumption
     | |- deploys (lit "  " ++ Escape _ ++ _) = _ => apply deploys_token; assumption
     | |- _ => first [assumption | reflexivity]
     end|]); try exact (Forall_nil_2 _).

Lemma deploys_filter ls : Forall (fun l => deploys l = false) ls -> List.filter deploys ls = [].
Proof. induction 1 as [|l ls Hl Hls IH]; [done|]. cbn [List.filter]. by rewrite Hl. Qed.

Lemma deploys_tokens t i v n c : image_ok i -> deploys (lit "  " ++ v ++ lit " \") = false -> deploys n = false -> deploys c = false ->
  List.filter deploys (token_step_lines t i v n c) = [].
Proof.
  intros Hi Hv Hn Hc. unfold token_step_lines. rewrite !List.filter_app, filter_when_set by done. rewrite !deploys_filter; [done|none_deploys..].
Qed.

Lemma deploys_nightjar cfg : ni_Token cfg = [] -> image_ok (ni_Image cfg) -> List.filter deploys (nightjar_lines cfg) = [].
Proof.
  intros Ht Hi. unfold nightjar_lines. rewrite Ht, when_set_nil, !List.filter_app. rewrite (deploys_filter [last_line _]) by none_deploys. reflexivity.
Qed.

Lemma deploys_mockingbird cfg : mo_Token cfg = [] -> image_ok (mo_Image cfg) -> List.filter deploys (mockingbird_lines cfg) = [].
Proof.
  intros Ht Hi. unfold mockingbird_lines. rewrite Ht, when_set_nil. pick. rewrite (deploys_filter [last_line _]) by none_deploys. by destruct (mo_SMBLure cfg).
Qed.

Lemma deploys_holder i b : image_ok i -> List.filter deploys (holder_lines (mkHolder i b)) = [].
Proof.
  intros Hi. unfold holder_lines. cbn [ho_Image ho_SMBLure]. rewrite !List.filter_app, (deploys_filter [last_line _]) by none_deploys. by destruct b.
Qed.

Lemma deploys_opencanary i : image_ok i -> List.filter deploys (opencanary_lines i) = [].
Proof. intros Hi. apply deploys_filter. unfold opencanary_lines. none_deploys. Qed.

Lemma deploys_smb_lure i w a b c : image_ok i -> List.filter deploys (smb_lure_lines i w a b c) = [].
Proof. intros Hi. apply deploys_filter. unfold smb_lure_lines. none_deploys. Qed.

Lemma deploys_lure in_ : image_ok (SMBLureImage in_) -> List.filter deploys (lure_script in_).1 = [].
Proof.
  intros Hi. unfold lure_script. destruct (SMBLure in_) as [[|]|]; [|done|].
  - destruct (SMBShares in_) as [|a [|b [|c [|d k]]]]; try done. cbn [fst List.filter]. rewrite deploys_smb_lure by done. reflexivity.
  - cbn [fst]. unfold unknown_lure. rewrite List.filter_app, filter_commented by done. reflexivity.
Qed.

(** Nothing in the script enrols anew. *)
Lemma script_deploys_nothing in_ : Forall image_ok (images in_) -> List.filter deploys (script in_).1 = [].
Proof.
  unfold images. rewrite !Forall_cons. intros (Ha & Hh & Ho & Hs & _). unfold script. destruct (bool_decide (Kind_ in_ = Scanner)); cbv zeta.
  - cbn [fst]. unfold scanner_script. change (step_line ?n :: ?l) with ([step_line n] ++ l). pick.
    rewrite deploys_tokens, deploys_nightjar by done. reflexivity.
  - pose proof (deploys_lure in_ Hs) as Hl. destruct (lure_script in_) as [ls r]. cbn [fst] in *. unfold honeypot_before, honeypot_after. pick.
    rewrite deploys_holder, deploys_tokens, deploys_mockingbird, deploys_opencanary, Hl by done.
    destruct (lureOn in_), (SMBLure in_), r; reflexivity.
Qed.

(** What the values need: bytes, and no newline in the two that are printed as
    they are, the port and the pin. *)
Record inputs_ok (in_ : UpgradeInput) : Prop := {
  io_host : wf_bytes (AdvertiseHost in_);
  io_port : 10 ∉ EnrolPort in_;
  io_pin : 10 ∉ Pin in_;
  io_images : Forall wf_bytes (images in_);
  io_names : wf_bytes (BaitNames_ in_);
  io_profile : wf_bytes (SegmentProfile_ in_);
  io_workgroup : wf_bytes (SMBWorkgroup in_);
  io_shares : Forall wf_bytes (SMBShares in_);
}.

Lemma token_one_line t : validUpgradeToken t = true -> 10 ∉ t.
Proof.
  unfold validUpgradeToken. rewrite andb_true_iff, forallb_forall. intros [_ H] Hin%list_elem_of_In%H. discriminate.
Qed.

Lemma stepped_one_line name ls : 10 ∉ lit name -> Forall one_line ls -> Forall one_line (stepped name ls).
Proof.
  intros Hn Hl. unfold stepped, step_line. constructor; [one_line|]. apply Forall_app. split; [done|]. repeat constructor. apply not_elem_of_nil.
Qed.

Lemma token_step_one_line t i v n c : 10 ∉ t -> wf_bytes i -> 10 ∉ v -> 10 ∉ n -> 10 ∉ c -> Forall one_line (token_step_lines t i v n c).
Proof.
  intros. unfold token_step_lines, token_line. rewrite !Forall_app. split; [lines|]. split; [by apply when_set_one_line|]. lines.
Qed.

Lemma holder_one_line i b : wf_bytes i -> Forall one_line (holder_lines (mkHolder i b)).
Proof. intros. unfold holder_lines, docker_run, last_line. cbn [ho_Image ho_SMBLure]. destruct b; rewrite !Forall_app; repeat split; lines. Qed.

Lemma opencanary_one_line i : wf_bytes i -> Forall one_line (opencanary_lines i).
Proof. intros. unfold opencanary_lines, docker_run, last_line. lines. Qed.

Lemma mockingbird_one_line in_ b : inputs_ok in_ -> Forall one_line (mockingbird_lines (mockingbird_upgrade in_ b)).
Proof.
  intros [Hh Hp Hq Hi Hn Hf _ _]. unfold images in Hi. rewrite !Forall_cons in Hi. destruct Hi as (Ha & _).
  unfold mockingbird_lines, mockingbird_upgrade, docker_run, env_line, url_value, last_line.
  cbn [mo_AdvertiseHost mo_EnrolPort mo_Pin mo_Token mo_Image mo_SMBLure mo_BaitNames mo_SegmentProfile]. rewrite when_set_nil, !Forall_app.
  repeat split; try (apply when_set_one_line; one_line); [lines|destruct b; lines|lines..].
Qed.

Lemma nightjar_one_line in_ : inputs_ok in_ -> Forall one_line (nightjar_lines (nightjar_upgrade in_)).
Proof.
  intros [Hh Hp Hq Hi _ _ _ _]. unfold images in Hi. rewrite !Forall_cons in Hi. destruct Hi as (Ha & _).
  unfold nightjar_lines, nightjar_upgrade, docker_run, env_line, url_value, last_line.
  cbn [ni_AdvertiseHost ni_EnrolPort ni_Pin ni_Token ni_Image]. rewrite when_set_nil, !Forall_app. repeat split; [lines| |lines..].
  apply literal_lines. vm_compute. reflexivity.
Qed.

Lemma commented_one_line ls : Forall one_line ls -> Forall one_line (commented ls).
Proof. intros Hl. apply Forall_fmap. eapply Forall_impl; [exact Hl|]. intros l Hl'. change (10 ∉ lit "# " ++ l). one_line. Qed.

Lemma lure_one_line in_ : inputs_ok in_ -> Forall one_line (lure_script in_).1.
Proof.
  intros [_ _ _ Hi _ _ Hw Hs]. unfold images in Hi. rewrite !Forall_cons in Hi. destruct Hi as (_ & _ & _ & Hi & _).
  unfold lure_script. destruct (SMBLure in_) as [[|]|]; [|cbn [fst]; lines|].
  - destruct (SMBShares in_) as [|a [|b [|c [|d k]]]]; cbn [fst]; unfold step_line; (apply Forall_cons; split; [one_line|]); try exact (Forall_nil_2 _).
    rewrite !Forall_cons in Hs. destruct Hs as (Ha & Hb & Hc & _). by apply smb_lure_one_line.
  - cbn [fst]. unfold unknown_lure. apply Forall_app. split; [apply literal_lines; vm_compute; reflexivity|]. apply commented_one_line, Forall_app.
    split; [unfold pull_line; lines|]. apply smb_lure_one_line; [done|apply lit_wf..].
Qed.

Lemma script_one_line in_ : accepted in_ -> inputs_ok in_ -> Forall one_line (script in_).1.
Proof.
  intros [_ Ht%token_one_line] Hin. pose proof (lure_one_line in_ Hin) as Hl. pose proof Hin as [_ _ _ Hi _ _ _ _]. unfold images in Hi.
  rewrite !Forall_cons in Hi. destruct Hi as (Ha & Hh & Ho & Hs & _). unfold script. case_bool_decide; cbv zeta.
  - cbn [fst]. unfold scanner_script. rewrite !Forall_app. repeat split; [lines|..|lines].
    + apply stepped_one_line; [one_line|]. unfold pull_line. lines.
    + apply stepped_one_line; [one_line|]. unfold rm_line. lines.
    + apply stepped_one_line; [one_line|]. apply token_step_one_line; one_line || done || apply not_elem_of_nil.
    + unfold step_line. constructor; [one_line|]. by apply nightjar_one_line.
  - destruct (lure_script in_) as [ls r]. cbn [fst] in *. unfold honeypot_before, honeypot_after. rewrite !Forall_app. repeat split.
    + lines.
    + apply stepped_one_line; [one_line|]. unfold pulls, pull_line. destruct (lureOn in_); cbn [app]; lines.
    + destruct (SMBLure in_); [constructor|]. apply stepped_one_line; [one_line|]. apply literal_lines. vm_compute. reflexivity.
    + apply stepped_one_line; [one_line|]. unfold rms, rm_line. destruct (lureOn in_); cbn [app]; lines.
    + apply stepped_one_line; [one_line|]. by apply holder_one_line.
    + apply stepped_one_line; [one_line|]. apply token_step_one_line; one_line || done.
    + apply stepped_one_line; [one_line|]. by apply mockingbird_one_line.
    + apply stepped_one_line; [one_line|]. by apply opencanary_one_line.
    + done.
    + destruct r; [constructor|lines].
Qed.

Definition with_token (in_ : UpgradeInput) (t : bytes) : UpgradeInput :=
  mkInput (Kind_ in_) t (AdvertiseHost in_) (EnrolPort in_) (Pin in_) (AgentImage in_) (HolderImage in_) (OpenCanaryImage in_)
    (SMBLureImage in_) (BaitNames_ in_) (SegmentProfile_ in_) (SMBLure in_) (SMBWorkgroup in_) (SMBShares in_).

Lemma token_step_split t i v n c : token_step_lines t i v n c = token_line t :: drop 1 (token_step_lines [] i v n c).
Proof. done. Qed.

(** The token is in one line and nowhere else. *)
Lemma script_token in_ : exists a b, forall t, (script (with_token in_ t)).1 = a ++ token_line t :: b.
Proof.
  unfold script. cbn [with_token Kind_]. destruct (bool_decide (Kind_ in_ = Scanner)); cbv zeta.
  - exists ([lit "( set -e"; trap_line] ++ stepped "pull the current image" [pull_line (AgentImage in_)] ++
      stepped "remove the old container" [rm_line NightjarContainerName] ++ [step_line "present the upgrade token"]),
      (drop 1 (token_step_lines [] (AgentImage in_) nightjar_volume [] nightjar_caps) ++ [[]] ++
       (step_line "start nightjar" :: nightjar_lines (nightjar_upgrade in_)) ++ [lit ")"]).
    intros t. cbn [fst]. unfold scanner_script, stepped. rewrite token_step_split. cbn [with_token UpgradeToken_ AgentImage]. cbn [app].
    rewrite <- !app_assoc. reflexivity.
  - destruct (lure_script in_) as [ls r] eqn:Hl.
    exists ([lit "( set -e"; trap_line] ++ honeypot_before in_ ++ stepped "remove the old containers" (rms (lureOn in_)) ++
      stepped "start the address holder" (holder_lines (mkHolder (HolderImage in_) (lureOn in_))) ++ [step_line "present the upgrade token"]),
      (drop 1 (token_step_lines [] (AgentImage in_) mockingbird_volume holder_network mockingbird_caps) ++ [[]] ++
       stepped "start mockingbird" (mockingbird_lines (mockingbird_upgrade in_ (lureOn in_))) ++
       stepped "start opencanary" (opencanary_lines (OpenCanaryImage in_)) ++ ls ++ (if r then [] else [lit ")"])).
    intros t. change (lure_script (with_token in_ t)) with (lure_script in_). rewrite Hl. cbn [fst].
    change (honeypot_before (with_token in_ t)) with (honeypot_before in_). unfold honeypot_after, stepped. rewrite token_step_split.
    change (lureOn (with_token in_ t)) with (lureOn in_). cbn [with_token UpgradeToken_ AgentImage HolderImage OpenCanaryImage].
    change (mockingbird_upgrade (with_token in_ t) (lureOn in_)) with (mockingbird_upgrade in_ (lureOn in_)).
    repeat progress (cbn [app]; rewrite <- ?app_assoc). reflexivity.
Qed.

(** With a lure that was never recorded, the host is checked before anything is
    removed. *)
Lemma script_check in_ : Kind_ in_ = Honeypot -> SMBLure in_ = None ->
  exists a b, (script in_).1 = a ++ lure_check ++ b /\ List.filter live a = pulls in_ false /\
    List.filter live b = rms false ++
      [docker_run HolderContainerName ""; token_line (UpgradeToken_ in_); docker_run MockingbirdContainerName "";
       docker_run OpenCanaryContainerName " --init"].
Proof.
  intros Hk Hn. unfold script. rewrite bool_decide_false by (by rewrite Hk). cbv zeta. pose proof (live_lure in_) as Hl. pose proof (live_after in_) as Ha.
  destruct (lure_script in_) as [ls r] eqn:He. unfold honeypot_before. unfold lureOn in *. rewrite Hn in *. cbn [fst] in *.
  exists ([lit "( set -e"; trap_line] ++ stepped "pull the current images" (pulls in_ false) ++ [step_line "check for an untracked smb lure"]),
    ([[]] ++ honeypot_after in_ ++ ls ++ (if r then [] else [lit ")"])). split; [unfold stepped; rewrite <- !app_assoc; reflexivity|]. split; [reflexivity|].
  rewrite !List.filter_app, Ha, Hl. destruct r; reflexivity.
Qed.

(** The script is whole unless the lure is on and its shares are not three. *)
Lemma script_ends in_ : Kind_ in_ = Honeypot \/ Kind_ in_ = Scanner ->
  (script in_).2 = None <-> ~ (Kind_ in_ = Honeypot /\ SMBLure in_ = Some true /\ zlen (SMBShares in_) ≠ SMBShareCount).
Proof.
  intros Hk. unfold script, lure_script. destruct Hk as [-> | ->]; cbv zeta.
  - rewrite bool_decide_false by done. destruct (SMBLure in_) as [[|]|]; [|cbn [snd]; naive_solver..].
    unfold zlen, SMBShareCount. destruct (SMBShares in_) as [|a [|b [|c [|d k]]]]; cbn [snd length]; (split; [|naive_solver lia]); try done; try lia.
  - rewrite bool_decide_true by done. cbn [snd]. naive_solver.
Qed.

(** ** Properties *)

(** C33. The upgrade script. Nothing is printed for a kind of agent that has no
    script or for a malformed upgrade token. Otherwise, where neither the
    enrolment port nor the certificate's pin has a newline ([inputs_ok]; every
    other value is free), the writer gets the whole script, or, when
    the lure is on with other than three share names and only then, the script
    up to that point and an error; a writer that fails has taken the start of the script
    and its own error is the one returned. Read line by line the text is the
    script's lines, whatever names and addresses are in it; the docker commands
    it holds, in order, are the plan's: every image pulled, then the old
    containers removed, the dependants before the holder, then the holder, the
    token and the agent, and at last the others; a lure that was never recorded
    is only commented on, after a check of the host that comes before any
    removal. The token is in one line only, and no container is given a deploy
    token, where no image name begins with a dash. *)
Theorem upgrade_script_exact in_ w :
  (~ (Kind_ in_ = Honeypot \/ Kind_ in_ = Scanner) -> Upgrade in_ w = (w, Some (ErrKind (Kind_ in_)))) /\
  (Kind_ in_ = Honeypot \/ Kind_ in_ = Scanner -> validUpgradeToken (UpgradeToken_ in_) = false -> Upgrade in_ w = (w, Some ErrUpgradeToken)) /\
  (accepted in_ -> inputs_ok in_ ->
   let '(ls, r) := script in_ in
   (exists w' res p, Upgrade in_ w = (w', res) /\ wout w' = wout w ++ p /\ p `prefix_of` text ls /\
      (p = text ls /\ res = r \/ res = Some WriteFailed) /\
      ((forall n, takes w n = None) -> p = text ls /\ res = r)) /\
   (r = None <-> ~ (Kind_ in_ = Honeypot /\ SMBLure in_ = Some true /\ zlen (SMBShares in_) ≠ SMBShareCount)) /\
   Split (text ls) 10 = ls ++ [[]] /\
   List.filter live ls = plan in_ /\
   (Kind_ in_ = Honeypot -> SMBLure in_ = None -> exists a b, ls = a ++ lure_check ++ b /\
      List.filter live a = [pull_line (AgentImage in_); pull_line (HolderImage in_); pull_line (OpenCanaryImage in_)]) /\
   (exists a b, forall t, (script (with_token in_ t)).1 = a ++ token_line t :: b) /\
   (Forall (fun i => head i ≠ Some 45) (images in_) -> List.filter deploys ls = [])).
Proof.
  split; [|split].
  - intros Hk. unfold Upgrade. rewrite !bool_decide_false by tauto. done.
  - intros Hk Ht. unfold Upgrade. rewrite Ht. destruct Hk as [-> | ->]; [by rewrite bool_decide_true|].
    rewrite bool_decide_false, bool_decide_true by done. done.
  - intros Hacc Hin. pose proof (io_images _ Hin) as Hi. pose proof (script_one_line in_ Hacc Hin) as Hone. pose proof (script_plan in_) as Hplan.
    assert (wf_bytes (SMBLureImage in_)) as Hl by (unfold images in Hi; rewrite !Forall_cons in Hi; naive_solver).
    pose proof (prints_Upgrade in_ Hacc Hl) as Hp. pose proof (script_check in_) as Hc.
    assert (Forall (fun i => head i ≠ Some 45) (images in_) -> List.filter deploys (script in_).1 = []) as Hd.
    { intros Hh. apply script_deploys_nothing. rewrite Forall_forall in *. intros i Hii. by split; [apply Hi|apply Hh]. }
    pose proof (script_ends in_ (proj1 Hacc)) as Hr.
    destruct (script in_) as [ls r] eqn:Hs. cbn [fst snd] in *. split; [|split; [|split; [|split; [|split; [|split]]]]]; try done.
    + rewrite Hp. destruct (writeLines_prefix ls w) as (w' & res & p & Hw & Hout & Hpre & Hres). rewrite Hw.
      destruct Hres as [[-> ->]| ->]; eexists _, _, _; (split; [reflexivity|]); (split; [done|]); (split; [done|]).
      * split; [by left|done].
      * split; [by right|]. intros Hall. rewrite writeLines_builder in Hw by done. congruence.
    + by apply text_lines.
    + intros Hk Hn. destruct (Hc Hk Hn) as (a & b & ? & ? & _). by exists a, b.
    + apply script_token.
Qed.

Definition a_canary (lure : option bool) (shares : list bytes) : UpgradeInput :=
  mkInput Honeypot (lit "00112233445566778899aabbccddeeff00112233445566778899aabbccddeeff") (lit "birdcage.lan") (lit "8443") (lit "sha256:ab")
    (lit "mockingbird:2") (lit "holder:2") (lit "opencanary:2") (lit "smb-lure:2") (lit "printer") [] lure (lit "OFFICE") shares.

(** A canary with a lure; one whose lure was never recorded, printed to a writer
    that fails at its ninth line; and one with a share missing. *)
Lemma upgrade_script_exact_witness :
  let on := a_canary (Some true) [lit "public"; lit "backup"; lit "scans"] in
  let unknown := a_canary None [] in
  let failing := mkWriter (fun n => if (n =? 8)%nat then Some 3%nat else None) 0 [] in
  List.filter live (script on).1 =
    [lit "docker pull mockingbird:2"; lit "docker pull holder:2"; lit "docker pull opencanary:2"; lit "docker pull smb-lure:2";
     lit "docker rm -f smb-lure || true"; lit "docker rm -f opencanary || true"; lit "docker rm -f mockingbird || true";
     lit "docker rm -f holder || true"; lit "docker volume create --driver local \";
     lit "docker run -d --name holder --restart unless-stopped \";
     lit "echo 00112233445566778899aabbccddeeff00112233445566778899aabbccddeeff | docker run --rm -i \";
     lit "docker run -d --name mockingbird --restart unless-stopped \";
     lit "docker run -d --name opencanary --restart unless-stopped --init \"; lit "docker run -d --name smb-lure --restart unless-stopped \"] /\
  (exists w p, Upgrade unknown failing = (w, Some WriteFailed) /\ wout w = p /\ p `prefix_of` text (script unknown).1) /\
  (script (a_canary (Some true) [lit "public"])).2 = Some (ErrShares 1).
Proof.
  intros on unknown failing.
  assert (forall l s, Forall wf_bytes s -> accepted (a_canary l s) /\ inputs_ok (a_canary l s)) as Hok.
  { intros l s Hs. split; [split; [by left|vm_compute; reflexivity]|].
    constructor; cbn [a_canary AdvertiseHost EnrolPort Pin BaitNames_ SegmentProfile_ SMBWorkgroup SMBShares]; try apply lit_wf; try exact Hs;
      try (apply literal_one_line; vm_compute; reflexivity); [|exact (Forall_nil_2 _)].
    unfold images. cbn [a_canary AgentImage HolderImage OpenCanaryImage SMBLureImage]. repeat (apply Forall_cons; split; [apply lit_wf|]). exact (Forall_nil_2 _). }
  split; [|split].
  - destruct (Hok (Some true) [lit "public"; lit "backup"; lit "scans"] (Forall_cons_2 _ _ _ (lit_wf _) (Forall_cons_2 _ _ _ (lit_wf _) (Forall_cons_2 _ _ _ (lit_wf _) (Forall_nil_2 _))))) as [Ha Hi].
    destruct (upgrade_script_exact on new_builder) as (_ & _ & H). specialize (H Ha Hi). destruct (script on) as [ls r].
    destruct H as (_ & _ & _ & Hplan & _). cbn [fst]. rewrite Hplan. vm_compute. reflexivity.
  - destruct (Hok None [] (Forall_nil_2 _)) as [Ha Hi]. destruct (upgrade_script_exact unknown failing) as (_ & _ & H). specialize (H Ha Hi).
    destruct (script unknown) as [ls r]. destruct H as ((w & res & p & Hu & Hout & Hp & _) & _). cbn [fst]. exists w, p. split; [|by split].
    rewrite Hu. f_equal. assert ((Upgrade unknown failing).2 = Some WriteFailed) as Hf by (vm_compute; reflexivity). by rewrite Hu in Hf.
  - vm_compute. reflexivity.
Defined.
