(* ===== verification/Tokens.v ===== *)
(** Bearer tokens ([internal/store/token.go]): minting, lookup, revocation and
    the first use of a rotated token, which revokes the ones before it.

    The table [agent_tokens] is the list of its rows, with its primary key and
    its unique index on the hash; times are nanoseconds. [agent_kind] is the
    join with the agents' table. *)
From S2P Require Import Prelude GoBase GoStrings Sql.
#[local] Open Scope Z_scope.

Definition tokenIDBytes : Z := 16.
Definition rawTokenBytes : Z := 32.

Record CanaryToken : Type := mkToken {
  ID : bytes;
  CanaryID : bytes;
  CreatedAt : Z;
  LastUsedAt : option Z;
  RevokedAt : option Z;
  Kind : bytes;
  CertFingerprint : bytes;
}.

Inductive token_error : Type :=
| ErrTokenNotFound
| ErrZeroCreatedAt
| ErrRandom
| ErrDB.

Record token_row : Type := mkRow {
  r_id : bytes;
  r_agent : bytes;
  r_hash : bytes;
  r_created : Z;
  r_last_used : option Z;
  r_revoked : option Z;
  r_cert : option bytes;
}.

Abbreviation tok_db := (list token_row).

(** [scanCanaryToken] and [scanCanaryTokenWithKind]: the latter reads two more
    columns, which are NULL for a token without an agent or a certificate. *)
Definition scanCanaryToken (r : token_row) : CanaryToken :=
  mkToken (r_id r) (r_agent r) (r_created r) (r_last_used r) (r_revoked r) [] [].

Definition scanCanaryTokenWithKind (kind : option bytes) (r : token_row) : CanaryToken :=
  mkToken (r_id r) (r_agent r) (r_created r) (r_last_used r) (r_revoked r) (default [] kind) (default [] (r_cert r)).

(** The statements. *)
Definition insert_token (r : token_row) (db : tok_db) : option (tok_db * unit) :=
  if existsb (fun x => bool_decide (r_id x = r_id r) || bool_decide (r_hash x = r_hash r)) db then None
  else Some (db ++ [r], tt).

Definition select_live (hash : bytes) (db : tok_db) : option token_row :=
  head (filter (fun r => r_hash r = hash /\ r_revoked r = None) db).

Definition select_hash (hash : bytes) (db : tok_db) : option token_row := head (filter (fun r => r_hash r = hash) db).

Definition select_id (id : bytes) (db : tok_db) : option token_row := head (filter (fun r => r_id r = id) db).

(** [COALESCE(revoked_at, ?)] *)
Definition set_revoked (at_ : Z) (r : token_row) : token_row :=
  mkRow (r_id r) (r_agent r) (r_hash r) (r_created r) (r_last_used r)
    (Some (default at_ (r_revoked r))) (r_cert r).

Definition set_used (at_ : Z) (r : token_row) : token_row :=
  mkRow (r_id r) (r_agent r) (r_hash r) (r_created r) (Some at_) (r_revoked r) (r_cert r).

(** [UPDATE ... SET f WHERE p], and how many rows it changed. *)
Definition update (p : token_row -> bool) (f : token_row -> token_row) (db : tok_db) : option (tok_db * Z) :=
  Some ((fun r => if p r then f r else r) <$> db, zlen (filter (fun r => p r = true) db)).

Definition has_id (id : bytes) (r : token_row) : bool := bool_decide (r_id r = id).
Definition live_id (id : bytes) (r : token_row) : bool := has_id id r && bool_decide (r_revoked r = None).
Definition unused_id (id : bytes) (r : token_row) : bool := has_id id r && bool_decide (r_last_used r = None).

Definition select_others (canaryID id : bytes) (db : tok_db) : list (bytes * Z) :=
  (fun r => (r_id r, r_created r)) <$>
    filter (fun r => r_agent r = canaryID /\ r_id r ≠ id /\ r_revoked r = None) db.

Definition select_agent (canaryID : bytes) (db : tok_db) : list CanaryToken :=
  scanCanaryToken <$> filter (fun r => r_agent r = canaryID) db.

Definition count_active (canaryID : bytes) (db : tok_db) : Z :=
  zlen (filter (fun r => r_agent r = canaryID /\ r_revoked r = None) db).

Section tokens.
Context (HashToken : bytes -> bytes) (agent_kind : bytes -> option bytes).

Definition MintCanaryToken (canaryID : bytes) (createdAt : Z) (rid rraw : option bytes) :
    prog tok_db (res token_error (bytes * CanaryToken)) :=
  if createdAt =? 0 then Ret (Err ErrZeroCreatedAt) else
  match rid, rraw with
  | Some id, Some raw =>
      Stmt (insert_token (mkRow id canaryID (HashToken raw) createdAt None None None)) (fun r =>
      match r with
      | None => Ret (Err ErrDB)
      | Some _ => Ret (Ok (raw, mkToken id canaryID createdAt None None [] []))
      end)
  | _, _ => Ret (Err ErrRandom)
  end.

Definition found {A} (r : option (option A)) : res token_error A :=
  match r with
  | None => Err ErrDB
  | Some None => Err ErrTokenNotFound
  | Some (Some a) => Ok a
  end.

Definition LookupCanaryTokenByHash (hash : bytes) : prog tok_db (res token_error CanaryToken) :=
  Stmt (query (fun db => option_map (fun r => scanCanaryTokenWithKind (agent_kind (r_agent r)) r) (select_live hash db)))
    (fun r => Ret (found r)).

Definition LookupCanaryTokenByHashAnyStatus (hash : bytes) : prog tok_db (res token_error CanaryToken) :=
  Stmt (query (fun db => option_map scanCanaryToken (select_hash hash db))) (fun r => Ret (found r)).

Definition LookupCanaryTokenByID (id : bytes) : prog tok_db (res token_error CanaryToken) :=
  Stmt (query (fun db => option_map scanCanaryToken (select_id id db))) (fun r => Ret (found r)).

Definition ListCanaryTokensForCanary (canaryID : bytes) : prog tok_db (res token_error (list CanaryToken)) :=
  Stmt (query (select_agent canaryID))
    (fun r => Ret (match r with None => Err ErrDB | Some l => Ok l end)).

Definition CanaryHasActiveToken (canaryID : bytes) : prog tok_db (res token_error bool) :=
  Stmt (query (count_active canaryID))
    (fun r => Ret (match r with None => Err ErrDB | Some n => Ok (0 <? n) end)).

(** The loop over the older tokens. *)
Fixpoint revoke_older (at_ : Z) (older : list bytes) (revoked : Z) : prog tok_db (res token_error Z) :=
  match older with
  | [] => Ret (Ok revoked)
  | id :: older =>
      Stmt (update (live_id id) (set_revoked at_)) (fun n =>
      match n with
      | None => Ret (Err ErrDB)
      | Some n => revoke_older at_ older (revoked + n)
      end)
  end.

Definition RevokeCanaryTokensSupersededBy (tok : CanaryToken) (at_ : Z) : prog tok_db (res token_error Z) :=
  Stmt (query (select_others (CanaryID tok) (ID tok))) (fun r =>
  match r with
  | None => Ret (Err ErrDB)
  | Some rows =>
      let older := fst <$> filter (fun row => row.2 < CreatedAt tok) rows in
      revoke_older at_ older 0
  end).

(** A statement on one id: no row is [ErrTokenNotFound]. *)
Definition on_row (r : option Z) : res token_error unit :=
  match r with
  | None => Err ErrDB
  | Some n => if n =? 0 then Err ErrTokenNotFound else Ok tt
  end.

Definition RevokeCanaryToken (id : bytes) (at_ : Z) : prog tok_db (res token_error unit) :=
  Stmt (update (has_id id) (set_revoked at_)) (fun r => Ret (on_row r)).

Definition RecordCanaryTokenUse (id : bytes) (at_ : Z) : prog tok_db (res token_error unit) :=
  Stmt (update (has_id id) (set_used at_)) (fun r => Ret (on_row r)).

(** The body of the transaction of [CompleteCanaryTokenFirstUse]. *)
Definition first_use (tok : CanaryToken) (at_ : Z) : prog tok_db (res token_error (bool * Z)) :=
  Stmt (update (unused_id (ID tok)) (set_used at_)) (fun n =>
  match n with
  | None => Ret (Err ErrDB)
  | Some n =>
      if n =? 0 then Ret (Ok (false, 0))
      else
        pbind (RevokeCanaryTokensSupersededBy tok at_) (fun r =>
        Ret (match r with Err e => Err e | Ok revoked => Ok (true, revoked) end))
  end).

Definition CompleteCanaryTokenFirstUse (tok : CanaryToken) (at_ : Z) : prog tok_db (res token_error (bool * Z)) :=
  in_transaction ErrDB (first_use tok at_).
End tokens.

(** ** The order of the table's states *)

(** A row keeps its identity; revoked it stays as revoked, used it stays used. *)
Record row_le (r r' : token_row) : Prop := {
  rl_id : r_id r' = r_id r;
  rl_agent : r_agent r' = r_agent r;
  rl_hash : r_hash r' = r_hash r;
  rl_created : r_created r' = r_created r;
  rl_revoked : r_revoked r ≠ None -> r_revoked r' = r_revoked r;
  rl_used : r_last_used r ≠ None -> r_last_used r' ≠ None;
}.

#[export] Instance row_le_preorder : PreOrder row_le.
Proof.
  split.
  - intros r. by split.
  - intros a b c [H1 H2 H3 H4 H5 H6] [K1 K2 K3 K4 K5 K6]. split; try congruence; [|tauto].
    intros Ha. rewrite <- (H5 Ha). apply K5. by rewrite (H5 Ha).
Qed.

Abbreviation tok_le := (table_le row_le).

Record tok_inv (db : tok_db) : Prop := {
  ti_ids : NoDup (r_id <$> db);
  ti_hashes : NoDup (r_hash <$> db);
}.

Lemma set_revoked_le at_ r : row_le r (set_revoked at_ r).
Proof. split; try done. simpl. by destruct (r_revoked r). Qed.

Lemma set_used_le at_ r : row_le r (set_used at_ r).
Proof. by split. Qed.

Lemma map_spec db (f : token_row -> token_row) :
  tok_inv db -> (forall r, row_le r (f r)) -> tok_inv (f <$> db) /\ tok_le db (f <$> db).
Proof.
  intros [Hi Hh] Hf. split; [split; rewrite table_column_map; try done; intros r _; apply (Hf r)|].
  by apply table_le_map.
Qed.

Lemma update_spec p f db db' n :
  tok_inv db -> (forall r, row_le r (f r)) -> update p f db = Some (db', n) -> tok_inv db' /\ tok_le db db'.
Proof.
  intros HI Hf [= <- <-]. apply map_spec; [done|]. intros r. destruct (p r); [apply Hf|reflexivity].
Qed.

(** ** The first use of a token *)

(** The live tokens of the agent created before. *)
Definition older_live (tok : CanaryToken) (r : token_row) : Prop :=
  r_agent r = CanaryID tok /\ r_id r ≠ ID tok /\ r_revoked r = None /\ r_created r < CreatedAt tok.

#[export] Instance older_live_dec tok r : Decision (older_live tok r).
Proof. unfold older_live. apply _. Defined.

Definition first_use_row (tok : CanaryToken) (at_ : Z) (r : token_row) : token_row :=
  if decide (older_live tok r) then set_revoked at_ r
  else if unused_id (ID tok) r then set_used at_ r
  else r.

Definition revocable (ids : list bytes) (r : token_row) : Prop := r_id r ∈ ids /\ r_revoked r = None.

#[local] Instance revocable_dec ids r : Decision (revocable ids r).
Proof. unfold revocable. apply _. Defined.

Lemma revoke_older_exec at_ older : forall n db,
  exec (revoke_older at_ older n) db =
    ((fun r => if decide (revocable older r) then set_revoked at_ r else r) <$> db,
     Ok (n + zlen (filter (revocable older) db))).
Proof.
  induction older as [|id older IH]; intros n db; cbn [revoke_older exec].
  - f_equal.
    + rewrite <- (list_fmap_id db) at 1. apply list_fmap_ext. by intros i r _.
    + rewrite filter_none; [by rewrite Z.add_0_r|]. apply Forall_forall. by intros r _ [?%not_elem_of_nil _].
  - cbn [update]. rewrite IH. f_equal.
    + rewrite <- list_fmap_compose. apply list_fmap_ext. intros i r _. simpl.
      unfold live_id, has_id, revocable. destruct (decide (r_revoked r = None)) as [Hr|Hr].
      * rewrite (bool_decide_eq_true_2 (r_revoked r = None)) by done. rewrite andb_true_r.
        destruct (decide (r_id r = id)) as [Hid|Hid].
        -- rewrite (bool_decide_eq_true_2 (r_id r = id)) by done. simpl. rewrite decide_False by (intros [_ [=]]).
           rewrite decide_True; [done|]. by split; [rewrite Hid; left|].
        -- rewrite (bool_decide_eq_false_2 (r_id r = id)) by done. apply decide_ext. rewrite elem_of_cons. tauto.
      * rewrite (bool_decide_eq_false_2 (r_revoked r = None)) by done. rewrite andb_false_r.
        rewrite !decide_False by (by intros [_ ?]). done.
    + f_equal. rewrite <- Z.add_assoc. f_equal. clear. induction db as [|r db IH]; [done|].
      rewrite fmap_cons, !filter_cons. unfold live_id, has_id, revocable in *.
      destruct (decide (r_revoked r = None)) as [Hr|Hr].
      * rewrite (bool_decide_eq_true_2 (r_revoked r = None)) by done. rewrite andb_true_r.
        destruct (decide (r_id r = id)) as [Hid|Hid].
        -- rewrite (bool_decide_eq_true_2 (r_id r = id)) by done. rewrite (decide_True (P := true = true)) by done.
           rewrite (decide_False (P := _ /\ r_revoked (set_revoked at_ r) = None)) by (intros [_ [=]]).
           rewrite decide_True by (split; [rewrite Hid; left|done]). rewrite !zlen_cons. lia.
        -- rewrite (bool_decide_eq_false_2 (r_id r = id)) by done. rewrite (decide_False (P := false = true)) by done.
           destruct (decide (r_id r ∈ older /\ r_revoked r = None)) as [Ho|Ho].
           ++ rewrite decide_True by (rewrite elem_of_cons; tauto). rewrite !zlen_cons. lia.
           ++ rewrite decide_False by (rewrite elem_of_cons; tauto). done.
      * rewrite (bool_decide_eq_false_2 (r_revoked r = None)) by done. rewrite andb_false_r.
        rewrite (decide_False (P := false = true)) by done. rewrite !decide_False by (by intros [_ ?]). done.
Qed.

Lemma unused_id_spec id r : unused_id id r = true <-> r_id r = id /\ r_last_used r = None.
Proof. unfold unused_id, has_id. by rewrite andb_true_iff, !bool_decide_eq_true. Qed.

Lemma first_use_exec tok at_ db :
  tok_inv db ->
  exec (first_use tok at_) db =
    if existsb (unused_id (ID tok)) db
    then (first_use_row tok at_ <$> db, Ok (true, zlen (filter (older_live tok) db)))
    else (db, Ok (false, 0)).
Proof.
  intros HI. unfold first_use. cbn [exec update].
  set (g := fun r => if unused_id (ID tok) r then set_used at_ r else r).
  destruct (existsb (unused_id (ID tok)) db) eqn:Ex.
  - apply existsb_exists in Ex as (r0 & Hr0%list_elem_of_In & Hu).
    destruct (zlen _ =? 0) eqn:En; go_bools.
    { exfalso. assert (r0 ∈ filter (fun r => unused_id (ID tok) r = true) db) as Hin by (by apply list_elem_of_filter).
      destruct (filter _ _) as [|x l]; [by apply not_elem_of_nil in Hin|]. rewrite zlen_cons in En.
      pose proof (zlen_nonneg l). lia. }
    rewrite exec_pbind. unfold RevokeCanaryTokensSupersededBy. cbn [exec query]. cbv zeta.
    set (older := fst <$> _). rewrite revoke_older_exec. cbn [exec].
    destruct (map_spec db g HI) as [[Hids _] _].
    { intros r. unfold g. destruct (unused_id _ r); [apply set_used_le|reflexivity]. }
    assert (forall r, older_live tok (g r) <-> older_live tok r) as Hg
      by (intros r; unfold g; by destruct (unused_id (ID tok) r)).
    assert (forall r, r ∈ db -> revocable older (g r) <-> older_live tok r) as Hrev.
    { intros r Hr. rewrite <- Hg. unfold revocable, older, select_others. split.
      - intros [((id & t) & Hid & [Ht Hin]%list_elem_of_filter)%list_elem_of_fmap Hrv]. simpl in *.
        apply list_elem_of_fmap in Hin as (r2 & [= -> ->] & [(Ha & Hne & Hr2) Hin]%list_elem_of_filter).
        assert (g r = r2) as -> by (eapply (NoDup_fmap_in r_id); [done|by apply list_elem_of_fmap_2|done|done]).
        by split_and!.
      - intros (Ha & Hne & Hrv & Hlt). split; [|done]. apply list_elem_of_fmap. exists (r_id (g r), r_created (g r)).
        split; [done|]. apply list_elem_of_filter. split; [done|]. apply list_elem_of_fmap. exists (g r).
        split; [done|]. apply list_elem_of_filter. split; [done|]. by apply list_elem_of_fmap_2. }
    f_equal.
    + rewrite <- list_fmap_compose. apply list_fmap_ext. intros i r Hi. apply list_elem_of_lookup_2 in Hi.
      unfold compose, first_use_row. specialize (Hrev r Hi). destruct (decide (older_live tok r)) as [Ho|Ho].
      * rewrite decide_True by tauto. unfold g. destruct (unused_id (ID tok) r) eqn:Eu; [|done].
        apply unused_id_spec in Eu as [Hid _]. by destruct Ho as (_ & ? & _).
      * by rewrite decide_False by tauto.
    + do 2 f_equal. rewrite Z.add_0_l. unfold zlen. f_equal. by apply length_filter_map.
  - assert (forall r, r ∈ db -> unused_id (ID tok) r = false) as Hno.
    { intros r Hr. apply not_true_is_false. intros Hu. rewrite <- not_true_iff_false, existsb_exists in Ex.
      apply Ex. exists r. by rewrite <- list_elem_of_In. }
    rewrite filter_none by (apply Forall_forall; intros r Hr; by rewrite (Hno r Hr)). simpl. f_equal.
    rewrite <- (list_fmap_id db) at 2. apply list_fmap_ext. intros i r Hi%list_elem_of_lookup_2. unfold g.
    by rewrite (Hno r Hi).
Qed.

Lemma first_use_row_le tok at_ r : row_le r (first_use_row tok at_ r).
Proof.
  unfold first_use_row. case_decide; [apply set_revoked_le|].
  destruct (unused_id _ r); [apply set_used_le|reflexivity].
Qed.

(** ** Requests *)

Section authentication.
Context (HashToken : bytes -> bytes) (agent_kind : bytes -> option bytes).

Inductive tok_request : Type :=
| ReqMint (canaryID : bytes) (createdAt : Z) (rid rraw : option bytes)
| ReqLookup (hash : bytes)
| ReqRevoke (id : bytes) (at_ : Z)
| ReqUse (id : bytes) (at_ : Z)
| ReqFirstUse (tok : CanaryToken) (at_ : Z).

Inductive tok_answer : Type :=
| AnsMint (r : res token_error (bytes * CanaryToken))
| AnsToken (r : res token_error CanaryToken)
| AnsDone (r : res token_error unit)
| AnsFirstUse (r : res token_error (bool * Z)).

Definition serve (rq : tok_request) : prog tok_db tok_answer :=
  match rq with
  | ReqMint c t rid rraw => pbind (MintCanaryToken HashToken c t rid rraw) (fun r => Ret (AnsMint r))
  | ReqLookup h => pbind (LookupCanaryTokenByHash agent_kind h) (fun r => Ret (AnsToken r))
  | ReqRevoke id at_ => pbind (RevokeCanaryToken id at_) (fun r => Ret (AnsDone r))
  | ReqUse id at_ => pbind (RecordCanaryTokenUse id at_) (fun r => Ret (AnsDone r))
  | ReqFirstUse tok at_ => pbind (CompleteCanaryTokenFirstUse tok at_) (fun r => Ret (AnsFirstUse r))
  end.

Definition answered (rq : tok_request) (a : tok_answer) (o : list (tok_db * tok_db)) : Prop :=
  match rq, a with
  | ReqLookup h, AnsToken (Ok tok) =>
      exists s r, s ∈ o /\ r ∈ s.1 /\ r_hash r = h /\ r_revoked r = None /\
        tok = scanCanaryTokenWithKind (agent_kind (r_agent r)) r
  | ReqRevoke id at_, AnsDone (Ok _) => exists s r, s ∈ o /\ r ∈ s.2 /\ r_id r = id /\ r_revoked r ≠ None
  | ReqFirstUse tok at_, AnsFirstUse (Ok (won, n)) =>
      exists s, s ∈ o /\
        if won : bool
        then s.2 = first_use_row tok at_ <$> s.1 /\ n = zlen (filter (older_live tok) s.1) /\
             exists r, r ∈ s.1 /\ r_id r = ID tok /\ r_last_used r = None
        else s.2 = s.1 /\ n = 0 /\ forall r, r ∈ s.1 -> r_id r = ID tok -> r_last_used r ≠ None
  | ReqMint _ _ _ _, AnsMint _ => True
  | ReqUse _ _, AnsDone _ => True
  | ReqLookup _, AnsToken (Err _) => True
  | ReqRevoke _ _, AnsDone (Err _) => True
  | ReqFirstUse _ _, AnsFirstUse (Err _) => True
  | _, _ => False
  end.

Lemma head_filter_in (P : token_row -> Prop) `{forall r, Decision (P r)} (db : tok_db) r :
  head (filter P db) = Some r -> r ∈ db /\ P r.
Proof.
  intros Hh. assert (r ∈ filter P db) as Hin by (destruct (filter P db); [done|injection Hh as ->; left]).
  by apply list_elem_of_filter in Hin as [? ?].
Qed.

Lemma tok_serve_valid rq db : valid tok_inv tok_le (answered rq) (serve rq) [] db.
Proof.
  destruct rq as [c t rid rraw|h|id at_|id at_|tok at_]; cbn [serve].
  - unfold MintCanaryToken. destruct (t =? 0); [done|]. destruct rid as [id|], rraw as [raw|]; try done.
    cbn [pbind valid]. intros db1 _ [Hi Hh]. split; [|done]. intros db' u Hins. unfold insert_token in Hins.
    destruct (existsb _ _) eqn:Ex; [done|]. injection Hins as <- <-. set (r := mkRow _ _ _ _ _ _ _).
    assert (forall x, x ∈ db1 -> r_id x ≠ r_id r /\ r_hash x ≠ r_hash r) as Hnew.
    { intros x Hx. rewrite <- not_true_iff_false, existsb_exists in Ex. split; intros Heq; apply Ex; exists x;
        (split; [by apply list_elem_of_In|]); apply orb_true_iff; [left|right]; by apply bool_decide_eq_true. }
    split; [|split; [apply (table_le_insert row_le)|done]].
    split; (apply NoDup_fmap_snoc; [done|]); intros x Hx; by apply Hnew.
  - unfold LookupCanaryTokenByHash. cbn [pbind valid]. intros db1 _ HI. split; [|done].
    intros db' r [= <- <-]. split; [done|]. split; [reflexivity|]. split; [|done].
    destruct (select_live h db1) as [r|] eqn:Es; [|done]. apply head_filter_in in Es as [Hr [Hh Hrv]].
    simpl. exists (db1, db1), r. by split_and!; [left|..].
  - unfold RevokeCanaryToken. cbn [pbind valid]. intros db1 _ HI. split; [|done]. intros db' n Hup.
    destruct (update_spec _ _ _ _ _ HI (set_revoked_le at_) Hup) as [HI' Hle]. split; [done|]. split; [done|]. split; [|done].
    injection Hup as <- <-. unfold on_row. destruct (zlen _ =? 0) eqn:En; [done|]. go_bools.
    destruct (filter (fun r => has_id id r = true) db1) as [|r l] eqn:Ef; [by destruct En|].
    assert (r ∈ filter (fun r => has_id id r = true) db1) as Hin by (rewrite Ef; left).
    apply list_elem_of_filter in Hin as [Hid Hr]. simpl. eexists (db1, _), (set_revoked at_ r). split; [by left|].
    split; [|split; [by apply bool_decide_eq_true in Hid|done]]. simpl. apply list_elem_of_fmap. exists r. by rewrite Hid.
  - unfold RecordCanaryTokenUse. cbn [pbind valid]. intros db1 _ HI. split; [|done]. intros db' n Hup.
    destruct (update_spec _ _ _ _ _ HI (set_used_le at_) Hup) as [HI' Hle]. done.
  - unfold CompleteCanaryTokenFirstUse, in_transaction. cbn [pbind valid]. intros db1 _ HI. split; [|done].
    intros db' r. unfold transaction. rewrite first_use_exec by done.
    destruct (existsb (unused_id (ID tok)) db1) eqn:Ex; intros [= <- <-].
    + destruct (map_spec db1 _ HI (first_use_row_le tok at_)) as [HI' Hle]. split; [done|]. split; [done|]. split; [|done].
      simpl. eexists. split; [by left|]. simpl. split; [done|]. split; [done|].
      apply existsb_exists in Ex as (r & Hr%list_elem_of_In & [Hid Hu]%unused_id_spec). by exists r.
    + split; [done|]. split; [reflexivity|]. split; [|done]. simpl. eexists. split; [by left|]. simpl.
      split; [done|]. split; [done|]. intros r Hr Hid Hu. rewrite <- not_true_iff_false, existsb_exists in Ex.
      apply Ex. exists r. rewrite <- list_elem_of_In, unused_id_spec. done.
Qed.

(** A token used for the first time is not found unused later. *)
Lemma used_once db0 tr db n m i j d e r r' tok at_ e' :
  chain tok_inv tok_le db0 tr db -> (n < m)%nat ->
  tr !! n = Some (i, (d, first_use_row tok at_ <$> d)) -> tr !! m = Some (j, (e, e')) ->
  r ∈ d -> r_id r = ID tok -> r_last_used r = None ->
  r' ∈ e -> r_id r' = r_id r -> r_last_used r' = None -> False.
Proof.
  intros Hch Hnm Hn Hm Hr Hid Hu Hr' Hid' Hu'.
  pose proof (chain_ordered tok_inv tok_le _ _ _ _ _ _ _ _ _ _ _ Hch Hnm Hn Hm) as Hle.
  destruct (table_le_in row_le _ _ _ Hle (list_elem_of_fmap_2 (first_use_row tok at_) _ _ Hr)) as (x & Hx & [Hxi _ _ _ _ Hxu]).
  unfold first_use_row in Hxi, Hxu. rewrite decide_False in Hxi, Hxu by (by intros (_ & ? & _)).
  rewrite (proj2 (unused_id_spec _ _) (conj Hid Hu)) in Hxi, Hxu. simpl in Hxi.
  destruct (chain_inv tok_inv tok_le _ _ _ _ _ _ _ Hch Hm) as [[Hids _] _].
  assert (x = r') as -> by (eapply (NoDup_fmap_in r_id); [done..|congruence]). by apply Hxu.
Qed.

(** The first use of a token retires the ones before it, once, and a
    revoked token never authenticates: under any interleaving of mints,
    lookups, revocations and uses, with statements failing or losing their
    answer anywhere, a first use that wins has, in one step, marked its token
    used and revoked exactly the agent's live tokens created before it, as many
    as it reports, and they stay revoked as of then; a token's first use is won
    at most once; and no lookup answers with a token that was revoked before it
    began. *)
Theorem first_use_retires_older (db0 : tok_db) (rqs : list tok_request) (c : conf tok_db tok_answer) :
  tok_inv db0 -> runs (start db0 (serve <$> rqs)) c ->
  tok_inv (cdb c) /\ tok_le db0 (cdb c) /\
  (forall i tok at_ n,
     rqs !! i = Some (ReqFirstUse tok at_) -> cpool c !! i = Some (Ret (AnsFirstUse (Ok (true, n)))) ->
     exists before, (before, first_use_row tok at_ <$> before) ∈ own i (ctrace c) /\
       n = zlen (filter (older_live tok) before) /\
       (forall r, r ∈ before -> older_live tok r ->
          exists r', r' ∈ cdb c /\ r_id r' = r_id r /\ r_revoked r' = Some at_) /\
       exists r', r' ∈ cdb c /\ r_id r' = ID tok /\ r_last_used r' ≠ None) /\
  (forall i j tok at_ n tok' at_' n',
     i ≠ j ->
     rqs !! i = Some (ReqFirstUse tok at_) -> cpool c !! i = Some (Ret (AnsFirstUse (Ok (true, n)))) ->
     rqs !! j = Some (ReqFirstUse tok' at_') -> cpool c !! j = Some (Ret (AnsFirstUse (Ok (true, n')))) ->
     ID tok ≠ ID tok') /\
  (forall i r0 tok, r0 ∈ db0 -> r_revoked r0 ≠ None -> rqs !! i = Some (ReqLookup (r_hash r0)) ->
     cpool c !! i ≠ Some (Ret (AnsToken (Ok tok)))).
Proof.
  intros HI Hr.
  destruct (served tok_inv tok_le serve answered db0 rqs c tok_serve_valid HI Hr) as (HI' & Hle0 & Hch & Hans).
  split; [done|]. split; [done|]. split; [|split].
  - intros i tok at_ n Hi Ha. destruct (Hans i _ _ Hi Ha) as ([before after] & Hs & Heq & Hn & r & Hin & Hid & Hu).
    simpl in *. subst after. pose proof Hs as [m Hm]%own_lookup.
    pose proof (chain_after tok_inv tok_le _ _ _ _ _ _ _ Hch Hm) as Hle.
    assert (forall x, x ∈ before -> exists x', x' ∈ cdb c /\ row_le (first_use_row tok at_ x) x') as Hrow.
    { intros x Hx. apply (table_le_in row_le _ _ _ Hle). by apply list_elem_of_fmap_2. }
    exists before. split; [done|]. split; [done|]. split.
    + intros x Hx Ho. destruct (Hrow x Hx) as (x' & Hx' & [Hxi _ _ _ Hxr _]). exists x'. split; [done|].
      unfold first_use_row in *. rewrite decide_True in * by done. split; [done|]. rewrite Hxr by done.
      destruct Ho as (_ & _ & Hrv & _). simpl. by rewrite Hrv.
    + destruct (Hrow r Hin) as (x' & Hx' & [Hxi _ _ _ _ Hxu]). exists x'. split; [done|].
      unfold first_use_row in *. rewrite decide_False in * by (by intros (_ & ? & _)).
      rewrite (proj2 (unused_id_spec _ _) (conj Hid Hu)) in *. split; [by rewrite Hxi|]. by apply Hxu.
  - intros i j tok at_ n tok' at_' n' Hij Hi Ha Hj Hb Heq.
    destruct (Hans i _ _ Hi Ha) as ([d d'] & Hs & Hd & _ & r & Hr1 & Hid1 & Hu1).
    destruct (Hans j _ _ Hj Hb) as ([e e'] & Ht & He & _ & r2 & Hr2 & Hid2 & Hu2).
    simpl in *. subst d' e'. apply own_lookup in Hs as [x Hx], Ht as [y Hy].
    destruct (Nat.lt_trichotomy x y) as [Hlt|[->|Hlt]].
    + eapply (used_once _ _ _ x y i j d e r r2 tok at_); (done || congruence).
    + congruence.
    + eapply (used_once _ _ _ y x j i e d r2 r tok' at_'); (done || congruence).
  - intros i r0 tok Hr0 Hrv Hi Ha. destruct (Hans i _ _ Hi Ha) as ([a b] & r & Hs & Hr1 & Hh & Hl & _).
    apply own_lookup in Hs as [n Hn]. simpl in *.
    pose proof (chain_before tok_inv tok_le _ _ _ _ _ _ _ Hch Hn) as Hle.
    destruct (table_le_in row_le _ _ _ Hle Hr0) as (x & Hx & [_ _ Hxh _ Hxr _]).
    destruct (chain_inv tok_inv tok_le _ _ _ _ _ _ _ Hch Hn) as [[_ Hnd] _].
    assert (x = r) as -> by (eapply (NoDup_fmap_in r_hash); [done..|congruence]). rewrite Hxr in Hl by done. done.
Qed.
End authentication.

(** ** A rotation *)

Definition ex_hash (raw : bytes) : bytes := 35 :: raw.
Definition ex_old : token_row := mkRow (lit "t1") (lit "gull") (lit "#a") 10 (Some 15) None None.
Definition ex_new : token_row := mkRow (lit "t2") (lit "gull") (lit "#b") 20 None None None.
Definition ex_db : tok_db := [ex_old; ex_new].

(** Two requests arrive on the new token at once; then the old one is tried. *)
Definition ex_requests : list tok_request :=
  [ReqFirstUse (scanCanaryToken ex_new) 30; ReqFirstUse (scanCanaryToken ex_new) 31; ReqLookup (lit "#a")].

Definition ex_run : conf tok_db tok_answer :=
  schedule [0; 1; 2]%nat (start ex_db (serve ex_hash (fun _ => None) <$> ex_requests)).

Lemma ex_tok_db_inv : tok_inv ex_db.
Proof. split; apply (bool_decide_unpack _); vm_compute; exact I. Qed.

Lemma first_use_retires_older_witness :
  cpool ex_run = [Ret (AnsFirstUse (Ok (true, 1))); Ret (AnsFirstUse (Ok (false, 0))); Ret (AnsToken (Err ErrTokenNotFound))] /\
  exists before, 1 = zlen (filter (older_live (scanCanaryToken ex_new)) before).
Proof.
  assert (cpool ex_run = [Ret (AnsFirstUse (Ok (true, 1))); Ret (AnsFirstUse (Ok (false, 0)));
    Ret (AnsToken (Err ErrTokenNotFound))]) as Hp by (vm_compute; reflexivity).
  split; [exact Hp|].
  destruct (first_use_retires_older ex_hash (fun _ => None) ex_db ex_requests ex_run ex_tok_db_inv (schedule_runs _ _))
    as (_ & _ & Hw & _).
  destruct (Hw 0%nat (scanCanaryToken ex_new) 30 1 eq_refl) as (before & _ & Hn & _); [by rewrite Hp|].
  exists before. exact Hn.
Defined.
