(* ===== verification/Enrolment.v ===== *)
(** Enrolment sessions ([internal/store/enrolment.go]) and the step that ends
    one ([completeContactedSession] of [internal/store/provision.go]).

    The table [enrolment_sessions] is the list of its rows, with its primary
    key and its unique index on the token's hash; times are nanoseconds. The
    state column holds one of the states the code writes. *)
From S2P Require Import Prelude GoBase GoStrings Sql.
#[local] Open Scope Z_scope.

Definition Minute : Z := 60 * 1000000000.
Definition enrolmentFirstContactWindow : Z := 5 * Minute.
Definition enrolmentContactWindow : Z := 30 * Minute.

Inductive EnrolmentState : Type :=
| EnrolmentStateMinted
| EnrolmentStateContacted
| EnrolmentStateProvisioned
| EnrolmentStateVerified
| EnrolmentStateExpired
| EnrolmentStateFailed.

#[export] Instance EnrolmentState_eq_dec : EqDecision EnrolmentState.
Proof. solve_decision. Defined.

Record EnrolmentSession : Type := mkSession {
  ID : bytes;
  Name : bytes;
  Lane : bytes;
  Kind : bytes;
  CreatedAt : Z;
  FirstContactDeadline : Z;
  BurnedAt : option Z;
  WindowDeadline : option Z;
  State : EnrolmentState;
  CanaryID : option bytes;
  BaitNames : bytes;
  SegmentProfile : bytes;
  SMBLure : option bool;
  SMBWorkgroup : bytes;
  SMBShares : bytes;
}.

Inductive FirstContactOutcome : Type := Contacted | Unknown | Expired | Reused.

Definition outcome_String (o : FirstContactOutcome) : string :=
  match o with Contacted => "contacted" | Unknown => "unknown" | Expired => "expired" | Reused => "reused" end.

Inductive enrol_error : Type :=
| ErrEnrolmentSessionNotFound
| ErrZeroNow
| ErrNameLane
| ErrKind
| ErrRandom
| ErrDB.

(** The registered kinds ([agentkind.Valid]). *)
Definition kind_valid (k : bytes) : bool := bool_decide (k = lit "honeypot") || bool_decide (k = lit "scanner").

Record session_row : Type := mkRow {
  r_id : bytes;
  r_hash : bytes;
  r_name : bytes;
  r_lane : bytes;
  r_kind : bytes;
  r_created : Z;
  r_deadline : Z;
  r_burned : option Z;
  r_secret : option bytes;
  r_window : option Z;
  r_state : EnrolmentState;
  r_agent : option bytes;
  r_bait : option bytes;
  r_segment : option bytes;
  r_lure : option Z;
  r_workgroup : option bytes;
  r_shares : option bytes;
}.

Abbreviation enr_db := (list session_row).

(** A string is stored as NULL when it is empty. *)
Definition stored (s : bytes) : option bytes := if bool_decide (s = []) then None else Some s.

Definition scanEnrolmentSession (r : session_row) : EnrolmentSession :=
  mkSession (r_id r) (r_name r) (r_lane r) (r_kind r) (r_created r) (r_deadline r) (r_burned r) (r_window r)
    (r_state r) (r_agent r) (default [] (r_bait r)) (default [] (r_segment r))
    ((fun n => negb (n =? 0)) <$> r_lure r) (default [] (r_workgroup r)) (default [] (r_shares r)).

(** The statements. *)
Definition insert_session (r : session_row) (db : enr_db) : option (enr_db * unit) :=
  if existsb (fun x => bool_decide (r_id x = r_id r) || bool_decide (r_hash x = r_hash r)) db then None
  else Some (db ++ [r], tt).

Definition scanEnrolmentSessionByHash (tokenHash : bytes) (db : enr_db) : option EnrolmentSession :=
  option_map scanEnrolmentSession (head (filter (fun r => r_hash r = tokenHash) db)).

Definition scanEnrolmentSessionBySecretHash (secretHash : bytes) (db : enr_db) : option EnrolmentSession :=
  option_map scanEnrolmentSession
    (head (filter (fun r => r_secret r = Some secretHash /\ r_state r = EnrolmentStateContacted) db)).

Definition set_state (s : EnrolmentState) (r : session_row) : session_row :=
  mkRow (r_id r) (r_hash r) (r_name r) (r_lane r) (r_kind r) (r_created r) (r_deadline r) (r_burned r) (r_secret r)
    (r_window r) s (r_agent r) (r_bait r) (r_segment r) (r_lure r) (r_workgroup r) (r_shares r).

Definition set_burned (now : Z) (secretHash : bytes) (r : session_row) : session_row :=
  mkRow (r_id r) (r_hash r) (r_name r) (r_lane r) (r_kind r) (r_created r) (r_deadline r) (Some now) (Some secretHash)
    (Some (now + enrolmentContactWindow)) EnrolmentStateContacted (r_agent r) (r_bait r) (r_segment r) (r_lure r)
    (r_workgroup r) (r_shares r).

Definition set_provisioned (canaryID : bytes) (r : session_row) : session_row :=
  mkRow (r_id r) (r_hash r) (r_name r) (r_lane r) (r_kind r) (r_created r) (r_deadline r) (r_burned r) None
    (r_window r) EnrolmentStateProvisioned (Some canaryID) (r_bait r) (r_segment r) (r_lure r) (r_workgroup r) (r_shares r).

Definition update (p : session_row -> bool) (f : session_row -> session_row) (db : enr_db) : option (enr_db * Z) :=
  Some ((fun r => if p r then f r else r) <$> db, zlen (filter (fun r => p r = true) db)).

Definition unburned (id : bytes) (r : session_row) : bool :=
  bool_decide (r_id r = id) && bool_decide (r_burned r = None).

Definition contacted (id : bytes) (r : session_row) : bool :=
  bool_decide (r_id r = id) && bool_decide (r_state r = EnrolmentStateContacted).

Section enrolment.
Context (HashToken : bytes -> bytes).

Definition MintEnrolmentSession (name lane kind baitNames segmentProfile : bytes) (smbLure : option bool)
    (smbWorkgroup smbShares : bytes) (now : Z) (rid rraw : option bytes) :
    prog enr_db (res enrol_error (bytes * EnrolmentSession)) :=
  if now =? 0 then Ret (Err ErrZeroNow) else
  if bool_decide (name = []) || bool_decide (lane = []) then Ret (Err ErrNameLane) else
  if negb (kind_valid kind) then Ret (Err ErrKind) else
  match rid, rraw with
  | Some id, Some raw =>
      let deadline := now + enrolmentFirstContactWindow in
      Stmt (insert_session (mkRow id (HashToken raw) name lane kind now deadline None None None EnrolmentStateMinted None
              (stored baitNames) (stored segmentProfile) ((fun b : bool => if b then 1 else 0) <$> smbLure)
              (stored smbWorkgroup) (stored smbShares))) (fun r =>
      match r with
      | None => Ret (Err ErrDB)
      | Some _ =>
          Ret (Ok (raw, mkSession id name lane kind now deadline None None EnrolmentStateMinted None
                     baitNames segmentProfile smbLure smbWorkgroup smbShares))
      end)
  | _, _ => Ret (Err ErrRandom)
  end.

(** A session with the columns a burn sets. *)
Definition burned_session (s : EnrolmentSession) (now : Z) : EnrolmentSession :=
  mkSession (ID s) (Name s) (Lane s) (Kind s) (CreatedAt s) (FirstContactDeadline s) (Some now)
    (Some (now + enrolmentContactWindow)) EnrolmentStateContacted (CanaryID s) (BaitNames s) (SegmentProfile s)
    (SMBLure s) (SMBWorkgroup s) (SMBShares s).

Definition expired_session (s : EnrolmentSession) : EnrolmentSession :=
  mkSession (ID s) (Name s) (Lane s) (Kind s) (CreatedAt s) (FirstContactDeadline s) (BurnedAt s)
    (WindowDeadline s) EnrolmentStateExpired (CanaryID s) (BaitNames s) (SegmentProfile s)
    (SMBLure s) (SMBWorkgroup s) (SMBShares s).

(** The answer: the secret, the session, absent when unknown, and the outcome. *)
Definition contact_answer : Type := bytes * option EnrolmentSession * FirstContactOutcome.

(** The body of the transaction of [FirstContact]; [Ok] commits. *)
Definition first_contact (tokenHash : bytes) (now : Z) (rsecret : option bytes) :
    prog enr_db (res enrol_error contact_answer) :=
  Stmt (query (scanEnrolmentSessionByHash tokenHash)) (fun r =>
  match r with
  | None => Ret (Err ErrDB)
  | Some None => Ret (Ok ([], None, Unknown))
  | Some (Some found) =>
      match BurnedAt found with
      | Some _ => Ret (Ok ([], Some found, Reused))
      | None =>
          if negb (now <? FirstContactDeadline found) then
            if bool_decide (State found ≠ EnrolmentStateExpired) then
              Stmt (update (unburned (ID found)) (set_state EnrolmentStateExpired)) (fun n =>
              match n with
              | None => Ret (Err ErrDB)
              | Some _ => Ret (Ok ([], Some (expired_session found), Expired))
              end)
            else Ret (Ok ([], Some found, Expired))
          else
            match rsecret with
            | None => Ret (Err ErrRandom)
            | Some secretRaw =>
                Stmt (update (unburned (ID found)) (set_burned now (HashToken secretRaw))) (fun n =>
                match n with
                | None => Ret (Err ErrDB)
                | Some n =>
                    if n =? 0 then
                      Stmt (query (scanEnrolmentSessionByHash tokenHash)) (fun r =>
                      match r with
                      | None => Ret (Err ErrDB)
                      | Some None => Ret (Err ErrEnrolmentSessionNotFound)
                      | Some (Some raced) => Ret (Ok ([], Some raced, Reused))
                      end)
                    else Ret (Ok (secretRaw, Some (burned_session found now), Contacted))
                end)
            end
      end
  end).

Definition FirstContact (tokenHash : bytes) (now : Z) (rsecret : option bytes) :
    prog enr_db (res enrol_error contact_answer) :=
  if now =? 0 then Ret (Err ErrZeroNow) else in_transaction ErrDB (first_contact tokenHash now rsecret).

Definition completeContactedSession (sessionID canaryID : bytes) : prog enr_db (res enrol_error bool) :=
  Stmt (update (contacted sessionID) (set_provisioned canaryID)) (fun n =>
  Ret (match n with None => Err ErrDB | Some n => Ok (0 <? n) end)).
End enrolment.

(** ** The order of the table's states *)

Definition fixed_columns (r : session_row) :=
  (r_id r, r_hash r, r_name r, r_lane r, r_kind r, r_created r, r_deadline r,
   (r_bait r, r_segment r, r_lure r, r_workgroup r, r_shares r)).

(** What was chosen at minting stays; a burn and the agent it led to are never
    undone; a provisioned session is final. *)
Record row_le (r r' : session_row) : Prop := {
  rl_fixed : fixed_columns r' = fixed_columns r;
  rl_burned : r_burned r ≠ None -> r_burned r' = r_burned r /\ r_window r' = r_window r;
  rl_agent : r_agent r ≠ None -> r_agent r' = r_agent r;
  rl_provisioned : r_state r = EnrolmentStateProvisioned -> r' = r;
}.

#[export] Instance row_le_preorder : PreOrder row_le.
Proof.
  split.
  - intros r. by split.
  - intros a b c [H1 H2 H3 H4] [K1 K2 K3 K4]. split; [congruence|..].
    + intros Ha. destruct (H2 Ha) as [Hb Hw]. rewrite <- Hb, <- Hw. apply K2. by rewrite Hb.
    + intros Ha. rewrite <- (H3 Ha). apply K3. by rewrite (H3 Ha).
    + intros Ha. pose proof (H4 Ha). subst b. auto.
Qed.

Abbreviation enr_le := (table_le row_le).

Record row_ok (r : session_row) : Prop := {
  ro_deadline : r_deadline r = r_created r + enrolmentFirstContactWindow;
  ro_phase :
    match r_burned r with
    | None => r_window r = None /\ r_secret r = None /\ r_agent r = None /\
        (r_state r = EnrolmentStateMinted \/ r_state r = EnrolmentStateExpired)
    | Some b => r_window r = Some (b + enrolmentContactWindow) /\ b < r_deadline r /\
        match r_state r with
        | EnrolmentStateContacted => r_secret r ≠ None /\ r_agent r = None
        | EnrolmentStateProvisioned => r_secret r = None /\ r_agent r ≠ None
        | EnrolmentStateExpired => r_agent r = None
        | _ => False
        end
    end;
}.

Record enr_inv (db : enr_db) : Prop := {
  ei_ids : NoDup (r_id <$> db);
  ei_hashes : NoDup (r_hash <$> db);
  ei_rows : Forall row_ok db;
}.

Lemma fixed_id r r' : fixed_columns r' = fixed_columns r -> r_id r' = r_id r /\ r_hash r' = r_hash r /\ r_deadline r' = r_deadline r.
Proof. by intros [= -> -> _ _ _ _ -> _ _ _ _ _]. Qed.

Lemma session_update_spec p f db db' n :
  enr_inv db -> update p f db = Some (db', n) ->
  (forall r, r ∈ db -> p r = true -> row_le r (f r) /\ row_ok (f r)) ->
  enr_inv db' /\ enr_le db db'.
Proof.
  intros [Hi Hh Hr] [= <- <-] Hf. rewrite Forall_forall in Hr.
  assert (forall r, r ∈ db -> row_le r (if p r then f r else r) /\ row_ok (if p r then f r else r)) as Hf'.
  { intros r Hin. destruct (p r) eqn:E; [by apply Hf|]. split; [reflexivity|by apply Hr]. }
  split; [split|].
  - rewrite table_column_map; [done|]. intros r Hin. apply fixed_id, (Hf' r Hin).
  - rewrite table_column_map; [done|]. intros r Hin. apply fixed_id, (Hf' r Hin).
  - apply Forall_fmap, Forall_forall. intros r Hin. by apply Hf'.
  - apply table_le_map. intros r Hin. by apply Hf'.
Qed.

Lemma unburned_spec id r : unburned id r = true <-> r_id r = id /\ r_burned r = None.
Proof. unfold unburned. by rewrite andb_true_iff, !bool_decide_eq_true. Qed.

Lemma contacted_spec id r : contacted id r = true <-> r_id r = id /\ r_state r = EnrolmentStateContacted.
Proof. unfold contacted. by rewrite andb_true_iff, !bool_decide_eq_true. Qed.

Lemma expire_row r :
  row_ok r -> r_burned r = None \/ r_state r = EnrolmentStateContacted ->
  row_le r (set_state EnrolmentStateExpired r) /\ row_ok (set_state EnrolmentStateExpired r).
Proof.
  intros [Hd Hp] Hs. split.
  - split; try done. intros Hst. destruct Hs as [Hb|Hc]; [|congruence]. rewrite Hb in Hp.
    destruct Hp as (_ & _ & _ & [?|?]); congruence.
  - split; [done|]. simpl. destruct (r_burned r) as [b|]; [|by destruct Hp as (? & ? & ? & _); auto].
    destruct Hp as (Hw & Hlt & Hst). destruct Hs as [?|Hc]; [done|]. rewrite Hc in Hst. by destruct Hst.
Qed.

Lemma burn_row r now secret :
  row_ok r -> r_burned r = None -> now < r_deadline r ->
  row_le r (set_burned now secret r) /\ row_ok (set_burned now secret r).
Proof.
  intros [Hd Hp] Hb Hlt. rewrite Hb in Hp. destruct Hp as (Hw & Hs & Ha & Hst). split.
  - split; simpl; try done. intros Hc. destruct Hst; congruence.
  - split; simpl; [done|]. by split_and!.
Qed.

Lemma provision_row r canaryID :
  row_ok r -> r_state r = EnrolmentStateContacted ->
  row_le r (set_provisioned canaryID r) /\ row_ok (set_provisioned canaryID r).
Proof.
  intros [Hd Hp] Hs. destruct (r_burned r) as [b|] eqn:Hb.
  - rewrite Hs in Hp. destruct Hp as (Hw & Hlt & _ & Ha). split.
    + split; simpl; try done; congruence.
    + split; simpl; [done|]. by rewrite Hb.
  - destruct Hp as (_ & _ & _ & [?|?]); congruence.
Qed.

(** ** First contact *)

Section contact.
Context (HashToken : bytes -> bytes).

(** One session of the table changed and no other. *)
Definition changed (r r' : session_row) (db : enr_db) : enr_db :=
  (fun x => if bool_decide (r_id x = r_id r) then r' else x) <$> db.

(** What an answer says of the step from [before] to [after]. *)
Definition contact_outcome (tokenHash : bytes) (now : Z) (rsecret : option bytes) (before after : enr_db)
    (secret : bytes) (s : option EnrolmentSession) (out : FirstContactOutcome) : Prop :=
  match out with
  | Unknown => after = before /\ s = None /\ secret = [] /\ Forall (fun r => r_hash r ≠ tokenHash) before
  | Reused =>
      exists r, r ∈ before /\ r_hash r = tokenHash /\ r_burned r ≠ None /\ after = before /\
        s = Some (scanEnrolmentSession r) /\ secret = []
  | Expired =>
      exists r, r ∈ before /\ r_hash r = tokenHash /\ r_burned r = None /\ r_deadline r <= now /\
        after = changed r (set_state EnrolmentStateExpired r) before /\
        s = Some (scanEnrolmentSession (set_state EnrolmentStateExpired r)) /\ secret = []
  | Contacted =>
      exists r, r ∈ before /\ r_hash r = tokenHash /\ r_burned r = None /\ now < r_deadline r /\
        rsecret = Some secret /\ after = changed r (set_burned now (HashToken secret) r) before /\
        s = Some (scanEnrolmentSession (set_burned now (HashToken secret) r))
  end.

Lemma update_changed (p : session_row -> bool) f r db :
  r ∈ db -> (forall x, x ∈ db -> r_id x = r_id r -> x = r) -> (forall x, p x = true -> r_id x = r_id r) -> p r = true ->
  (fun x => if p x then f x else x) <$> db = changed r (f r) db.
Proof.
  intros Hr Hu Hp Hpr. apply list_fmap_ext. intros i x Hx%list_elem_of_lookup_2. case_bool_decide as Hid.
  - apply Hu in Hid as ->; [|done]. by rewrite Hpr.
  - destruct (p x) eqn:E; [|done]. by destruct Hid; apply Hp.
Qed.

Lemma changed_in r r' db : r ∈ db -> r' ∈ changed r r' db.
Proof. intros Hr. apply list_elem_of_fmap. exists r. by rewrite bool_decide_true. Qed.

Lemma first_contact_exec h now rs db db' a :
  enr_inv db -> exec (first_contact HashToken h now rs) db = (db', a) ->
  enr_inv db' /\ enr_le db db' /\
  match a with Ok (secret, s, out) => contact_outcome h now rs db db' secret s out | Err _ => True end.
Proof.
  intros HI. unfold first_contact. cbn [exec query]. unfold scanEnrolmentSessionByHash at 1.
  destruct (filter (fun r => r_hash r = h) db) as [|r l] eqn:Ef; cbn [head option_map].
  { intros [= <- <-]. split; [done|]. split; [reflexivity|]. split; [done|]. split; [done|]. split; [done|].
    apply Forall_forall. intros x Hx Hh. assert (x ∈ filter (fun r => r_hash r = h) db) as Hin by (by apply list_elem_of_filter).
    rewrite Ef in Hin. by apply not_elem_of_nil in Hin. }
  assert (r ∈ filter (fun r => r_hash r = h) db) as Hin by (rewrite Ef; left).
  apply list_elem_of_filter in Hin as [Hh Hr]. clear Ef.
  pose proof (ei_rows db HI) as Hrows. rewrite Forall_forall in Hrows.
  assert (forall x, x ∈ db -> r_id x = r_id r -> x = r) as Huniq
    by (intros x Hx Hid; eapply (NoDup_fmap_in r_id); [apply HI|done..]).
  cbn [scanEnrolmentSession BurnedAt FirstContactDeadline State ID].
  destruct (r_burned r) as [b|] eqn:Hb.
  { intros [= <- <-]. split; [done|]. split; [reflexivity|]. exists r. rewrite Hb. by split_and!. }
  assert (unburned (r_id r) r = true) as Hun by (by apply unburned_spec).
  destruct (now <? r_deadline r) eqn:Ed; cbn [negb]; go_bools.
  - destruct rs as [secret|]; [|intros [= <- <-]; split; [done|]; split; [reflexivity|done]].
    cbn [exec]. destruct (update _ _ db) as [[db1 n]|] eqn:Eu; [|done].
    destruct (session_update_spec _ _ _ _ _ HI Eu) as [HI1 Hle1].
    { intros x Hx [Hid Hxb]%unburned_spec. rewrite (Huniq x Hx Hid). apply burn_row; [by apply Hrows|done|done]. }
    unfold update in Eu. injection Eu as Hdb1 Hn.
    assert (filter (fun x => unburned (r_id r) x = true) db = [r]) as Hf.
    { apply (filter_key r_id); [apply HI|done|done|]. by intros y [Hy _]%unburned_spec. }
    rewrite Hf in Hn. change (zlen [r]) with 1 in Hn. subst n. cbn [Z.eqb exec]. intros [= <- <-].
    split; [done|]. split; [done|]. exists r. split_and!; try done.
    rewrite <- Hdb1. apply update_changed; [done|done| |done]. by intros x [Hx _]%unburned_spec.
  - destruct (bool_decide (r_state r ≠ EnrolmentStateExpired)) eqn:Es.
    + cbn [exec]. destruct (update _ _ db) as [[db1 n]|] eqn:Eu; [|done].
      destruct (session_update_spec _ _ _ _ _ HI Eu) as [HI1 Hle1].
      { intros x Hx [Hid Hxb]%unburned_spec. apply expire_row; [by apply Hrows|by left]. }
      injection Eu as Hdb1 _. cbn [exec]. intros [= <- <-]. split; [done|]. split; [done|]. exists r. split_and!; try done.
      rewrite <- Hdb1. apply update_changed; [done|done| |done]. by intros x [Hx _]%unburned_spec.
    + apply bool_decide_eq_false, dec_stable in Es. intros [= <- <-]. split; [done|]. split; [reflexivity|].
      assert (set_state EnrolmentStateExpired r = r) as Heq by (unfold set_state; rewrite <- Es; by destruct r).
      exists r. rewrite Heq. split_and!; try done. unfold changed. rewrite <- (list_fmap_id db) at 1.
      apply list_fmap_ext. intros i x Hx%list_elem_of_lookup_2. case_bool_decide as Hid; [|done]. by apply Huniq in Hid.
Qed.

(** ** Requests *)

Inductive enr_request : Type :=
| ReqMint (name lane kind baitNames segmentProfile : bytes) (smbLure : option bool) (smbWorkgroup smbShares : bytes)
    (now : Z) (rid rraw : option bytes)
| ReqContact (tokenHash : bytes) (now : Z) (rsecret : option bytes)
| ReqComplete (sessionID canaryID : bytes)
| ReqExpire (sessionID : bytes).

Inductive enr_answer : Type :=
| AnsMint (r : res enrol_error (bytes * EnrolmentSession))
| AnsContact (r : res enrol_error contact_answer)
| AnsComplete (r : res enrol_error bool)
| AnsExpire.

(** [ReqExpire] is the end of a contact window, which provisioning marks in the
    transaction that found the session contacted. *)
Definition serve (rq : enr_request) : prog enr_db enr_answer :=
  match rq with
  | ReqMint n l k b s lure wg sh now rid rraw =>
      pbind (MintEnrolmentSession HashToken n l k b s lure wg sh now rid rraw) (fun r => Ret (AnsMint r))
  | ReqContact h now rs => pbind (FirstContact HashToken h now rs) (fun r => Ret (AnsContact r))
  | ReqComplete sid cid => pbind (completeContactedSession sid cid) (fun r => Ret (AnsComplete r))
  | ReqExpire sid => Stmt (update (contacted sid) (set_state EnrolmentStateExpired)) (fun _ => Ret AnsExpire)
  end.

Definition answered (rq : enr_request) (a : enr_answer) (o : list (enr_db * enr_db)) : Prop :=
  match rq, a with
  | ReqMint n l k b s lure wg sh now _ _, AnsMint (Ok (raw, sess)) =>
      exists st r, st ∈ o /\ r ∈ st.2 /\ r_hash r = HashToken raw /\ r_burned r = None /\ sess = scanEnrolmentSession r /\
        sess = mkSession (ID sess) n l k now (now + enrolmentFirstContactWindow) None None EnrolmentStateMinted None
                 b s lure wg sh
  | ReqContact h now rs, AnsContact (Ok (secret, s, out)) =>
      exists st, st ∈ o /\ contact_outcome h now rs st.1 st.2 secret s out
  | ReqComplete sid cid, AnsComplete (Ok won) =>
      exists st, st ∈ o /\
        if won : bool then exists r, r ∈ st.1 /\ r_id r = sid /\ r_state r = EnrolmentStateContacted /\ set_provisioned cid r ∈ st.2
        else st.2 = st.1
  | ReqMint _ _ _ _ _ _ _ _ _ _ _, AnsMint (Err _) => True
  | ReqContact _ _ _, AnsContact (Err _) => True
  | ReqComplete _ _, AnsComplete (Err _) => True
  | ReqExpire _, AnsExpire => True
  | _, _ => False
  end.

Lemma stored_default s : default [] (stored s) = s.
Proof. unfold stored. by case_bool_decide. Qed.

Lemma session_mint_valid n l k b s lure wg sh now rid rraw db :
  valid enr_inv enr_le (answered (ReqMint n l k b s lure wg sh now rid rraw))
    (serve (ReqMint n l k b s lure wg sh now rid rraw)) [] db.
Proof.
  cbn [serve]. unfold MintEnrolmentSession. destruct (now =? 0); [done|]. destruct (_ || _)%bool; [done|].
  destruct (negb (kind_valid k)); [done|]. destruct rid as [id|], rraw as [raw|]; try done. cbv zeta. cbn [pbind valid].
  intros db1 _ [Hi Hh Hr]. split; [|done]. intros db' u Hins. unfold insert_session in Hins.
  destruct (existsb _ _) eqn:Ex; [done|]. injection Hins as <- <-. set (r := mkRow _ _ _ _ _ _ _ _ _ _ _ _ _ _ _ _ _).
  assert (forall x, x ∈ db1 -> r_id x ≠ r_id r /\ r_hash x ≠ r_hash r) as Hnew.
  { intros x Hx. rewrite <- not_true_iff_false, existsb_exists in Ex. split; intros Heq; apply Ex; exists x;
      (split; [by apply list_elem_of_In|]); apply orb_true_iff; [left|right]; by apply bool_decide_eq_true. }
  split; [|split; [apply (table_le_insert row_le)|split; [|done]]].
  - split.
    + apply NoDup_fmap_snoc; [done|]. intros x Hx. by apply Hnew.
    + apply NoDup_fmap_snoc; [done|]. intros x Hx. by apply Hnew.
    + apply Forall_app. split; [done|]. constructor; [|done]. split; simpl; [done|]. split_and!; auto.
  - simpl. exists (db1, db1 ++ [r]), r. split; [by left|]. split; [apply elem_of_app; right; by apply list_elem_of_singleton|].
    split; [done|]. split; [done|]. split; [|done]. unfold scanEnrolmentSession, r. cbn.
    rewrite !stored_default. by destruct lure as [[]|].
Qed.

Lemma enr_serve_valid rq db : valid enr_inv enr_le (answered rq) (serve rq) [] db.
Proof.
  destruct rq as [n l k b s lure wg sh now rid rraw|h now rs|sid cid|sid]; [apply session_mint_valid|..].
  - cbn [serve]. unfold FirstContact. destruct (now =? 0); [done|]. unfold in_transaction. cbn [pbind valid].
    intros db1 _ HI. split; [|done]. intros db' a. unfold transaction.
    destruct (exec (first_contact HashToken h now rs) db1) as [db2 a2] eqn:Ee.
    destruct (first_contact_exec _ _ _ _ _ _ HI Ee) as (HI2 & Hle2 & Ha).
    destruct a2 as [[[secret s] out]|e]; intros [= <- <-].
    + split; [done|]. split; [done|]. split; [|done]. simpl. exists (db1, db2). split; [by left|done].
    + split; [done|]. split; [reflexivity|]. done.
  - cbn [serve completeContactedSession pbind valid]. intros db1 _ HI. split; [|done]. intros db' n Hup.
    pose proof (ei_rows db1 HI) as Hrows. rewrite Forall_forall in Hrows.
    destruct (session_update_spec _ _ _ _ _ HI Hup) as [HI' Hle].
    { intros x Hx [_ Hs]%contacted_spec. apply provision_row; [by apply Hrows|done]. }
    split; [done|]. split; [done|]. split; [|done]. injection Hup as <- <-. simpl. eexists (db1, _). split; [by left|]. simpl.
    destruct (filter (fun r => contacted sid r = true) db1) as [|r l] eqn:Ef.
    + simpl. rewrite <- (list_fmap_id db1) at 2. apply list_fmap_ext. intros i x Hx%list_elem_of_lookup_2. simpl.
      destruct (contacted sid x) eqn:Ec; [|done]. assert (x ∈ filter (fun r => contacted sid r = true) db1) as Hin
        by (by apply list_elem_of_filter). rewrite Ef in Hin. by apply not_elem_of_nil in Hin.
    + rewrite (proj2 (Z.ltb_lt 0 _)) by (rewrite zlen_cons; pose proof (zlen_nonneg l); lia).
      assert (r ∈ filter (fun r => contacted sid r = true) db1) as Hin by (rewrite Ef; left).
      apply list_elem_of_filter in Hin as [Hc Hr]. pose proof Hc as [Hid Hs]%contacted_spec. exists r.
      split_and!; try done. apply list_elem_of_fmap. exists r. by rewrite Hc.
  - cbn [serve valid]. intros db1 _ HI. split; [|done]. intros db' n Hup.
    pose proof (ei_rows db1 HI) as Hrows. rewrite Forall_forall in Hrows.
    destruct (session_update_spec _ _ _ _ _ HI Hup) as [HI' Hle]; [|done].
    intros x Hx [_ Hs]%contacted_spec. apply expire_row; [by apply Hrows|by right].
Qed.

(** A row found at one step that a later step finds otherwise. *)
Lemma later_row db0 tr db n m i j d d' e e' r r' :
  chain enr_inv enr_le db0 tr db -> (n < m)%nat -> tr !! n = Some (i, (d, d')) -> tr !! m = Some (j, (e, e')) ->
  r ∈ d' -> r' ∈ e -> (r_hash r = r_hash r' \/ r_id r = r_id r') -> row_le r r'.
Proof.
  intros Hch Hnm Hn Hm Hr Hr' Hk.
  pose proof (chain_ordered enr_inv enr_le _ _ _ _ _ _ _ _ _ _ _ Hch Hnm Hn Hm) as Hle.
  destruct (table_le_in row_le _ _ _ Hle Hr) as (x & Hx & Hrx).
  destruct (chain_inv enr_inv enr_le _ _ _ _ _ _ _ Hch Hm) as [[Hids Hhs _] _].
  pose proof (fixed_id _ _ (rl_fixed _ _ Hrx)) as (Hi & Hh & _).
  assert (x = r') as ->; [|done].
  destruct Hk as [Hk|Hk]; [eapply (NoDup_fmap_in r_hash)|eapply (NoDup_fmap_in r_id)]; try done; congruence.
Qed.

(** C35. A deploy token is burned once, in time, and a session is provisioned
    once: under any interleaving of mints, first contacts, provisionings and
    expiries, with transactions failing or losing their answer anywhere, a
    contact that is answered with a secret found the token unburned within five
    minutes of minting, and the session is stored as burned at that moment with
    a window of thirty minutes; two contacts are never both answered on one
    token; a contact that is refused as unknown or reused changed nothing, and
    one refused as too late only marked its session expired; two
    provisionings never both complete one session, and the agent it is completed
    with is its agent for good. *)
Theorem deploy_token_burned_once (db0 : enr_db) (rqs : list enr_request) (c : conf enr_db enr_answer) :
  enr_inv db0 -> runs (start db0 (serve <$> rqs)) c ->
  enr_inv (cdb c) /\ enr_le db0 (cdb c) /\
  (forall i h now rs secret s out,
     rqs !! i = Some (ReqContact h now rs) -> cpool c !! i = Some (Ret (AnsContact (Ok (secret, s, out)))) ->
     exists before after, (before, after) ∈ own i (ctrace c) /\ contact_outcome h now rs before after secret s out /\
       (out = Contacted -> exists r, r ∈ cdb c /\ r_hash r = h /\ r_burned r = Some now /\
          r_window r = Some (now + enrolmentContactWindow) /\ now < r_created r + enrolmentFirstContactWindow)) /\
  (forall i j h now rs secret s h' now' rs' secret' s',
     i ≠ j ->
     rqs !! i = Some (ReqContact h now rs) -> cpool c !! i = Some (Ret (AnsContact (Ok (secret, s, Contacted)))) ->
     rqs !! j = Some (ReqContact h' now' rs') -> cpool c !! j = Some (Ret (AnsContact (Ok (secret', s', Contacted)))) ->
     h ≠ h') /\
  (forall i sid cid,
     rqs !! i = Some (ReqComplete sid cid) -> cpool c !! i = Some (Ret (AnsComplete (Ok true))) ->
     (exists r, r ∈ cdb c /\ r_id r = sid /\ r_agent r = Some cid /\ r_state r = EnrolmentStateProvisioned /\ r_secret r = None) /\
     forall j cid', j ≠ i -> rqs !! j = Some (ReqComplete sid cid') -> cpool c !! j ≠ Some (Ret (AnsComplete (Ok true)))).
Proof.
  intros HI Hr.
  destruct (served enr_inv enr_le serve answered db0 rqs c enr_serve_valid HI Hr) as (HI' & Hle0 & Hch & Hans).
  assert (forall i a b r, (a, b) ∈ own i (ctrace c) -> r ∈ b -> exists r', r' ∈ cdb c /\ row_le r r') as Hnow.
  { intros i a b r [n Hn]%own_lookup Hin.
    exact (table_le_in row_le _ _ _ (chain_after enr_inv enr_le _ _ _ _ _ _ _ Hch Hn) Hin). }
  split; [done|]. split; [done|]. split; [|split].
  - intros i h now rs secret s out Hi Ha. destruct (Hans i _ _ Hi Ha) as ([a b] & Hs & Hout). exists a, b.
    split; [done|]. split; [done|]. intros ->. destruct Hout as (r & Hra & Hh & Hb & Hlt & _ & Hch' & _).
    cbn [fst snd] in *. assert (set_burned now (HashToken secret) r ∈ b) as Hin by (rewrite Hch'; by apply changed_in).
    destruct (Hnow i a b _ Hs Hin) as (r' & Hr' & [Hf Hbu _ _]). exists r'. destruct (Hbu ltac:(done)) as [Hb' Hw'].
    apply fixed_id in Hf as (_ & Hh' & Hd'). simpl in *. split; [done|]. split; [congruence|]. split; [done|]. split; [done|].
    pose proof (ei_rows _ HI') as Hrows. rewrite Forall_forall in Hrows. destruct (Hrows r' Hr') as [Hdl _]. lia.
  - intros i j h now rs secret s h' now' rs' secret' s' Hij Hi Ha Hj Hb ->.
    destruct (Hans j _ _ Hj Hb) as ([e e'] & Ht & r2 & Hr2 & Hh2 & Hb2 & _ & _ & Hc2 & _).
    destruct (Hans i _ _ Hi Ha) as ([d0 d0'] & Hs0 & r0 & Hr0 & Hh0 & Hb0 & _ & _ & Hc0 & _).
    pose proof (changed_in r2 (set_burned now' (HashToken secret') r2) _ Hr2) as Hin2. rewrite <- Hc2 in Hin2.
    pose proof (changed_in r0 (set_burned now (HashToken secret) r0) _ Hr0) as Hin0. rewrite <- Hc0 in Hin0.
    apply own_lookup in Hs0 as [n Hn], Ht as [m Hm]. simpl in *.
    destruct (Nat.lt_trichotomy n m) as [Hlt|[->|Hlt]]; [|congruence|].
    + pose proof (later_row _ _ _ n m _ _ _ _ _ _ _ r2 Hch Hlt Hn Hm Hin0 Hr2 ltac:(left; simpl; congruence)) as [_ Hbu _ _].
      destruct (Hbu ltac:(done)) as [Hx _]. simpl in Hx. congruence.
    + pose proof (later_row _ _ _ m n _ _ _ _ _ _ _ r0 Hch Hlt Hm Hn Hin2 Hr0 ltac:(left; simpl; congruence)) as [_ Hbu _ _].
      destruct (Hbu ltac:(done)) as [Hx _]. simpl in Hx. congruence.
  - intros i sid cid Hi Ha. destruct (Hans i _ _ Hi Ha) as ([d d'] & Hs & r & Hrd & Hid & Hst & Hin). split.
    + destruct (Hnow i d d' _ Hs Hin) as (r' & Hr' & [_ _ _ Hp]). exists r'. by rewrite (Hp eq_refl) in *.
    + intros j cid' Hji Hj Hb. destruct (Hans j _ _ Hj Hb) as ([e e'] & Ht & r2 & Hr2 & Hid2 & Hst2 & Hin2).
      apply own_lookup in Hs as [n Hn], Ht as [m Hm]. simpl in *.
      destruct (Nat.lt_trichotomy n m) as [Hlt|[->|Hlt]]; [|congruence|].
      * pose proof (later_row _ _ _ n m _ _ _ _ _ _ _ r2 Hch Hlt Hn Hm Hin Hr2 ltac:(right; simpl; congruence)) as [_ _ _ Hp].
        rewrite (Hp eq_refl) in Hst2. done.
      * pose proof (later_row _ _ _ m n _ _ _ _ _ _ _ r Hch Hlt Hm Hn Hin2 Hrd ltac:(right; simpl; congruence)) as [_ _ _ Hp].
        rewrite (Hp eq_refl) in Hst. done.
Qed.
End contact.

(** ** An enrolment *)

Definition ex_hash (raw : bytes) : bytes := 35 :: raw.

(** A deploy token is minted, tried twice, and its session provisioned twice. *)
Definition ex_requests : list enr_request :=
  [ReqMint (lit "gull") (lit "dmz") (lit "honeypot") [] [] (Some true) (lit "WORKGROUP") [] 1000 (Some (lit "s1")) (Some (lit "tok"));
   ReqContact (lit "#tok") 2000 (Some (lit "k1")); ReqContact (lit "#tok") 2001 (Some (lit "k2"));
   ReqComplete (lit "s1") (lit "a1"); ReqComplete (lit "s1") (lit "a2")].

Definition ex_run : conf enr_db enr_answer :=
  schedule [0; 2; 1; 4; 3]%nat (start [] (serve ex_hash <$> ex_requests)).

Lemma ex_enr_db_inv : enr_inv [].
Proof. split; simpl; constructor. Qed.

Lemma deploy_token_burned_once_witness :
  cpool ex_run !! 3%nat = Some (Ret (AnsComplete (Ok false))) /\
  cpool ex_run !! 4%nat = Some (Ret (AnsComplete (Ok true))) /\
  exists r, r ∈ cdb ex_run /\ r_id r = lit "s1" /\ r_agent r = Some (lit "a2").
Proof.
  assert (cpool ex_run !! 4%nat = Some (Ret (AnsComplete (Ok true)))) as Hp by (vm_compute; reflexivity).
  split; [vm_compute; reflexivity|]. split; [exact Hp|].
  destruct (deploy_token_burned_once ex_hash [] ex_requests ex_run ex_enr_db_inv (schedule_runs _ _))
    as (_ & _ & _ & _ & Hc).
  destruct (Hc 4%nat (lit "s1") (lit "a2") eq_refl Hp) as [(r & Hr & Hid & Ha & _) _].
  exists r. split; [exact Hr|]. split; [exact Hid|exact Ha].
Defined.
