(* ===== verification/Watch.v ===== *)
(** What birdcage watches on the ingest road: the audit coalescer
    ([internal/ingest/auditcoalesce.go]) and the detection of one credential in
    use from two places ([internal/ingest/dualuse.go]).

    Both keep a map under a mutex, so a run is a sequence of calls. A map of
    pointers is a map of the values they point to, since no pointer leaves the
    method that stores it. Times are nanoseconds, and their difference
    saturates as [Sub]'s does; 0 is the zero time. *)
From S2P Require Import Prelude GoBase GoStrings.
#[local] Open Scope Z_scope.

(** ** auditcoalesce.go *)

Definition auditCoalesceInterval : Z := 60 * 1000000000.

(** [auditCoalesceKey]: the canary and the action. *)
Abbreviation auditCoalesceKey := (bytes * bytes)%type.

Record auditCoalesceEntry : Type := mkAuditEntry { lastWrite : Z; suppressed : Z }.

Abbreviation auditCoalescer := (gmap (bytes * bytes) auditCoalesceEntry).

Definition newAuditCoalescer : auditCoalescer := ∅.

(** [coalesce_admit]: whether to write an entry, and for how many occurrences. *)
Definition coalesce_admit (c : auditCoalescer) (canaryID action : bytes) (now : Z) : (bool * Z) * auditCoalescer :=
  let key := (canaryID, action) in
  match c !! key with
  | None => ((true, 1), <[key := mkAuditEntry now 0]> c)
  | Some e =>
      if time_sub now (lastWrite e) <? auditCoalesceInterval
      then ((false, 0), <[key := mkAuditEntry (lastWrite e) (suppressed e + 1)]> c)
      else ((true, suppressed e + 1), <[key := mkAuditEntry now 0]> c)
  end.

(** The loop of [formatCount]; the digits left are the fuel. *)
Fixpoint format_groups (fuel : nat) (s : bytes) : bytes :=
  match fuel with
  | O => []
  | S fuel => match s with [] => [] | _ => 44 :: take 3 s ++ format_groups fuel (drop 3 s) end
  end.

Definition formatCount (n : Z) : bytes :=
  let s := Itoa n in
  if zlen s <=? 3 then s else
  let lead := let m := Z.rem (zlen s) 3 in if m =? 0 then 3 else m in
  take (Z.to_nat lead) s ++ format_groups (length s) (drop (Z.to_nat lead) s).

Definition coalescedReason (base : bytes) (occurrences : Z) (noun : bytes) : bytes :=
  if occurrences <=? 1 then base
  else base ++ lit " (1 of " ++ formatCount occurrences ++ lit " " ++ noun ++ lit " since the previous entry)".

(** ** dualuse.go *)

Definition dualUseWindow : Z := 60 * 1000000000.
Definition dualUseTrackerPruneAt : Z := 4096.

Record dualUseEntry : Type := mkDualEntry { addr : bytes; addrAt : Z; version : bytes; versionAt : Z }.

Abbreviation dualUseTracker := (gmap bytes dualUseEntry).

Definition newDualUseTracker : dualUseTracker := ∅.

(** An entry the pruning loop deletes. *)
Definition dual_stale (now : Z) (e : dualUseEntry) : bool :=
  (dualUseWindow <? time_sub now (addrAt e)) && (dualUseWindow <? time_sub now (versionAt e)).

Definition dual_prune (t : dualUseTracker) (now : Z) : dualUseTracker :=
  if dualUseTrackerPruneAt <? Z.of_nat (size t)
  then filter (fun p => dual_stale now p.2 = false) t else t.

(** The field of an entry that [observe] looks at, and its time. *)
Definition dual_last (isVersion : bool) (e : dualUseEntry) : bytes * Z :=
  if isVersion then (version e, versionAt e) else (addr e, addrAt e).

Definition dual_set (isVersion : bool) (value : bytes) (now : Z) (e : dualUseEntry) : dualUseEntry :=
  if isVersion then mkDualEntry (addr e) (addrAt e) value now else mkDualEntry value now (version e) (versionAt e).

Definition dual_observe (t : dualUseTracker) (fingerprint value : bytes) (isVersion : bool) (now : Z) :
    (bytes * bool) * dualUseTracker :=
  if bool_decide (value = []) then (([], false), t) else
  let t := dual_prune t now in
  let e := default (mkDualEntry [] 0 [] 0) (t !! fingerprint) in
  let '(last, lastAt) := dual_last isVersion e in
  let out :=
    if negb (bool_decide (last = [])) && negb (bool_decide (last = value)) &&
       (time_sub now lastAt <=? dualUseWindow)
    then (last, true) else ([], false) in
  (out, <[fingerprint := dual_set isVersion value now e]> t).

(** ** Audit entries *)

Definition audit_call : Type := (bytes * bytes) * Z.
Definition audit_out : Type := audit_call * (bool * Z).

(** A run of calls: what each answered, oldest first. *)
Fixpoint admits (c : auditCoalescer) (calls : list audit_call) : list audit_out * auditCoalescer :=
  match calls with
  | [] => ([], c)
  | ((canaryID, action), now) :: calls =>
      let '(out, c) := coalesce_admit c canaryID action now in
      let '(outs, c) := admits c calls in
      (((canaryID, action), now, out) :: outs, c)
  end.

Lemma admits_snoc calls canaryID action now : forall c,
  admits c (calls ++ [((canaryID, action), now)]) =
    let '(outs, c1) := admits c calls in
    let '(out, c2) := coalesce_admit c1 canaryID action now in
    (outs ++ [((canaryID, action), now, out)], c2).
Proof.
  induction calls as [|[[a b] t] calls IH]; intros c; cbn [admits app].
  - destruct (coalesce_admit c canaryID action now) as [out c2]. done.
  - destruct (coalesce_admit c a b t) as [out c2]. rewrite IH. destruct (admits c2 calls) as [outs c3].
    destruct (coalesce_admit c3 canaryID action now) as [out' c4]. done.
Qed.

(** What was asked and answered for one key: the time, whether an entry was
    written, and for how many. *)
Definition of_key (k : bytes * bytes) (outs : list audit_out) : list (Z * (bool * Z)) :=
  omap (fun o => if decide (o.1.1 = k) then Some (o.1.2, o.2) else None) outs.

Definition written (o : Z * (bool * Z)) : bool := o.2.1.
Definition occurrences (h : list (Z * (bool * Z))) : Z := sum_by (fun o => o.2.2) h.

Lemma of_key_snoc k outs k' now out :
  of_key k (outs ++ [(k', now, out)]) = if decide (k' = k) then of_key k outs ++ [(now, out)] else of_key k outs.
Proof. unfold of_key. rewrite omap_app. simpl. case_decide; [done|by rewrite app_nil_r]. Qed.

Lemma occurrences_snoc h now w n : occurrences (h ++ [(now, (w, n))]) = occurrences h + n.
Proof. unfold occurrences. rewrite sum_by_app. unfold sum_by. simpl. lia. Qed.

(** What the coalescer holds for a key is what its history says. *)
Definition audit_holds (e : option auditCoalesceEntry) (h : list (Z * (bool * Z))) : Prop :=
  match e with
  | None => h = []
  | Some e => exists pre n post,
      h = pre ++ (lastWrite e, (true, n)) :: post /\ Forall (fun o => written o = false) post /\
      suppressed e = zlen post /\ occurrences h + suppressed e = zlen h
  end.

(** The rule of one answer, given the history before it. *)
Definition audit_rule (h : list (Z * (bool * Z))) (now : Z) (out : bool * Z) : Prop :=
  (h = [] /\ out = (true, 1)) \/
  exists pre t n post,
    h = pre ++ (t, (true, n)) :: post /\ Forall (fun o => written o = false) post /\
    out = if time_sub now t <? auditCoalesceInterval then (false, 0) else (true, zlen post + 1).

Lemma admit_spec c canaryID action now h :
  audit_holds (c !! (canaryID, action)) h ->
  let '(out, c') := coalesce_admit c canaryID action now in
  audit_rule h now out /\ audit_holds (c' !! (canaryID, action)) (h ++ [(now, out)]) /\
  (forall k, k ≠ (canaryID, action) -> c' !! k = c !! k).
Proof.
  unfold coalesce_admit. destruct (c !! (canaryID, action)) as [e|]; cbn [audit_holds].
  - intros (pre & n & post & Hh & Hpost & Hs & Ho).
    destruct (Z.ltb_spec (time_sub now (lastWrite e)) auditCoalesceInterval) as [Hlt|Hge]; cbn iota.
    + split; [right; exists pre, (lastWrite e), n, post; by rewrite (proj2 (Z.ltb_lt _ _))|].
      split; [|intros k Hk; by rewrite lookup_insert_ne]. rewrite lookup_insert_eq.
      exists pre, n, (post ++ [(now, (false, 0))]). split; [by rewrite Hh, <- app_assoc|].
      split; [apply Forall_app; split; [done|by apply Forall_singleton]|]. cbn [lastWrite suppressed]. rewrite zlen_app, Hs. split; [done|].
      rewrite occurrences_snoc, zlen_app. change (zlen [_]) with 1. lia.
    + split; [right; exists pre, (lastWrite e), n, post; by rewrite (proj2 (Z.ltb_ge _ _)), Hs|].
      split; [|intros k Hk; by rewrite lookup_insert_ne]. rewrite lookup_insert_eq.
      exists h, (suppressed e + 1), []. split; [done|]. split; [done|]. split; [done|].
      cbn [suppressed]. rewrite occurrences_snoc, zlen_app. change (zlen [_]) with 1. lia.
  - intros ->. split; [by left|]. split; [|intros k Hk; by rewrite lookup_insert_ne].
    rewrite lookup_insert_eq. by exists [], 1, [].
Qed.

Lemma admits_spec calls :
  let '(outs, c) := admits newAuditCoalescer calls in
  (forall k, audit_holds (c !! k) (of_key k outs)) /\
  (forall pre k now out post, outs = pre ++ (k, now, out) :: post -> audit_rule (of_key k pre) now out) /\
  fst <$> outs = calls.
Proof.
  induction calls as [|[[a b] now] calls IH] using rev_ind.
  { split; [done|]. split; [|done]. intros [] k now out post Heq; done. }
  rewrite admits_snoc. destruct (admits newAuditCoalescer calls) as [outs c]. destruct IH as (Hh & Hr & Hc).
  pose proof (admit_spec c a b now _ (Hh (a, b))) as Ha. destruct (coalesce_admit c a b now) as [out c'].
  destruct Ha as (Hrule & Hheld & Hother). split; [|split].
  - intros k. rewrite of_key_snoc. case_decide as Hk; [by subst k|]. rewrite Hother by done. apply Hh.
  - intros pre k t o post Heq. destruct post as [|q post _] using rev_ind.
    + apply app_inj_tail in Heq as [<- [= <- <- <-]]. done.
    + rewrite app_comm_cons, app_assoc in Heq. apply app_inj_tail in Heq as [-> _]. by eapply Hr.
  - by rewrite fmap_app, Hc.
Qed.

(** *** The count in an entry reads back *)

Lemma format_groups_digits fuel : forall s,
  (length s <= fuel)%nat -> 44 ∉ s -> filter (fun c => c ≠ 44) (format_groups fuel s) = s.
Proof.
  induction fuel as [|fuel IH]; intros s Hl Hs; [by destruct s; [|simpl in Hl; lia]|].
  destruct s as [|x s]; [done|]. cbn [format_groups]. rewrite filter_cons_False by (intros H; by apply H).
  rewrite <- (take_drop 3 (x :: s)) in Hs. apply not_elem_of_app in Hs as [Ht Hd].
  rewrite filter_app, IH; [|rewrite length_drop; simpl in *; lia|done].
  rewrite (filter_all (fun c => c ≠ 44)); [by rewrite take_drop|].
  apply Forall_forall. by intros c Hc ->.
Qed.

Lemma formatCount_digits n : 44 ∉ Itoa n -> filter (fun c => c ≠ 44) (formatCount n) = Itoa n.
Proof.
  intros Hn. unfold formatCount. case_match.
  - apply filter_all, Forall_forall. by intros c Hc ->.
  - set (k := Z.to_nat _). rewrite <- (take_drop k (Itoa n)) in Hn. apply not_elem_of_app in Hn as [Ht Hd].
    rewrite filter_app, format_groups_digits; [|rewrite length_drop; lia|done].
    rewrite (filter_all (fun c => c ≠ 44)); [by rewrite take_drop|].
    apply Forall_forall. by intros c Hc ->.
Qed.

Lemma Itoa_digits n : 0 <= n < 10 ^ 20 -> 44 ∉ Itoa n /\ dec_val (Itoa n) = n.
Proof.
  intros Hn. unfold Itoa. rewrite (proj2 (Z.ltb_ge _ _)) by lia.
  destruct (dec_digits_spec 19 n [] Hn) as (ds & -> & Hd & Hv & _). rewrite app_nil_r.
  split; [|done]. intros Hin. rewrite Forall_forall in Hd. by specialize (Hd 44 Hin).
Qed.

(** What every sequence of calls is answered with, key by key. *)
Lemma audit_counted (calls : list audit_call) (k : bytes * bytes) :
  let '(outs, c) := admits newAuditCoalescer calls in
  fst <$> outs = calls /\
  occurrences (of_key k outs) + default 0 (suppressed <$> c !! k) = zlen (of_key k outs) /\
  (forall pre now out post, outs = pre ++ (k, now, out) :: post -> audit_rule (of_key k pre) now out) /\
  (forall base n noun, 1 < n < 10 ^ 20 ->
     coalescedReason base n noun =
       base ++ lit " (1 of " ++ formatCount n ++ lit " " ++ noun ++ lit " since the previous entry)" /\
     dec_val (filter (fun ch => ch ≠ 44) (formatCount n)) = n).
Proof.
  pose proof (admits_spec calls) as H. destruct (admits newAuditCoalescer calls) as [outs c].
  destruct H as (Hh & Hr & Hc). split; [done|]. split; [|split].
  - specialize (Hh k). destruct (c !! k) as [e|]; simpl in *; [|by rewrite Hh].
    by destruct Hh as (pre & n & post & _ & _ & _ & ?).
  - intros pre now out post. apply Hr.
  - intros base n noun Hn. unfold coalescedReason. rewrite (proj2 (Z.leb_gt _ _)) by lia. split; [done|].
    destruct (Itoa_digits n) as [Hd Hv]; [lia|]. by rewrite formatCount_digits.
Qed.

(** ** Credentials in two places *)

(** One observation: the fingerprint, the value, whether it is a version, and
    the time. *)
Record dual_call : Type := mkDualCall { dcFp : bytes; dcValue : bytes; dcVersion : bool; dcNow : Z }.

Fixpoint dual_observes (t : dualUseTracker) (calls : list dual_call) : list (bytes * bool) * dualUseTracker :=
  match calls with
  | [] => ([], t)
  | d :: calls =>
      let '(out, t) := dual_observe t (dcFp d) (dcValue d) (dcVersion d) (dcNow d) in
      let '(outs, t) := dual_observes t calls in (out :: outs, t)
  end.

(** The log's last word on a credential: the last observation of the same kind
    that had a value. *)
Definition dual_about (fp : bytes) (isVersion : bool) (d : dual_call) : Prop :=
  dcFp d = fp /\ dcVersion d = isVersion /\ dcValue d ≠ [].

#[global] Instance dual_about_dec fp v d : Decision (dual_about fp v d).
Proof. unfold dual_about. apply _. Defined.

Definition dual_log (past : list dual_call) (fp : bytes) (isVersion : bool) : option (bytes * Z) :=
  (fun d => (dcValue d, dcNow d)) <$> last (filter (dual_about fp isVersion) past).

(** What an unbounded log of observations would answer. *)
Definition dual_spec (past : list dual_call) (d : dual_call) : bytes * bool :=
  match dual_log past (dcFp d) (dcVersion d) with
  | Some (v, t) =>
      if negb (bool_decide (dcValue d = [])) && negb (bool_decide (v = dcValue d)) &&
         (time_sub (dcNow d) t <=? dualUseWindow)
      then (v, true) else ([], false)
  | None => ([], false)
  end.

(** A field of the tracker agrees with the log, or has forgotten what is too
    old to matter. *)
Definition dual_agrees (now : Z) (field : bytes * Z) (logged : option (bytes * Z)) : Prop :=
  match logged with
  | None => field.1 = []
  | Some (v, t) => v ≠ [] /\ (field = (v, t) \/ (field.1 = [] /\ dualUseWindow < time_sub now t))
  end.

Definition dual_field (t : dualUseTracker) (fp : bytes) (isVersion : bool) : bytes * Z :=
  dual_last isVersion (default (mkDualEntry [] 0 [] 0) (t !! fp)).

Definition dual_ok (now : Z) (past : list dual_call) (t : dualUseTracker) : Prop :=
  forall fp v, dual_agrees now (dual_field t fp v) (dual_log past fp v).

Lemma time_sub_mono a b c : a <= b -> time_sub a c <= time_sub b c.
Proof. unfold time_sub. lia. Qed.

Lemma dual_ok_later now now' past t : now <= now' -> dual_ok now past t -> dual_ok now' past t.
Proof.
  intros Hle Hok fp v. specialize (Hok fp v). unfold dual_agrees in *. destruct (dual_log past fp v) as [[x tx]|]; [|done].
  destruct Hok as [Hx [Hf|[Hf Ht]]]; split; auto. right. split; [done|].
  pose proof (time_sub_mono now now' tx Hle). lia.
Qed.

(** Pruning forgets only what no answer depends on. *)
Lemma dual_prune_ok now past t : dual_ok now past t -> dual_ok now past (dual_prune t now).
Proof.
  intros Hok. unfold dual_prune. case_match; [|done]. intros fp v. specialize (Hok fp v). unfold dual_field in *.
  destruct (t !! fp) as [e|] eqn:He.
  - destruct (dual_stale now e) eqn:Hs.
    + assert (filter (fun p : bytes * dualUseEntry => dual_stale now p.2 = false) t !! fp = None) as ->.
      { apply map_lookup_filter_None. right. intros e' He'. rewrite He in He'. injection He' as <-. simpl. by rewrite Hs. }
      apply andb_prop in Hs as [Ha Hv]. apply Z.ltb_lt in Ha, Hv. unfold dual_agrees in *.
      assert ((dual_last v (mkDualEntry [] 0 [] 0)).1 = []) as Hnil by (by destruct v). simpl in *.
      destruct (dual_log past fp v) as [[x tx]|]; [|by rewrite Hnil]. destruct Hok as [Hx [Hf|[Hf Ht]]]; split; auto.
      right. split; [done|]. destruct v; simpl in Hf; injection Hf as <- <-; lia.
    + assert (filter (fun p : bytes * dualUseEntry => dual_stale now p.2 = false) t !! fp = Some e) as ->; [|done].
      apply map_lookup_filter_Some. by split.
  - assert (filter (fun p : bytes * dualUseEntry => dual_stale now p.2 = false) t !! fp = None) as ->; [|done].
    apply map_lookup_filter_None. by left.
Qed.

Lemma dual_log_snoc past d fp v :
  dual_log (past ++ [d]) fp v =
    if decide (dual_about fp v d) then Some (dcValue d, dcNow d) else dual_log past fp v.
Proof.
  unfold dual_log. rewrite filter_app. case_decide as Hd.
  - rewrite filter_cons_True, filter_nil, last_snoc by done. done.
  - rewrite filter_cons_False, filter_nil, app_nil_r by done. done.
Qed.

Lemma dual_observe_spec now past t d :
  now <= dcNow d -> dual_ok now past t ->
  let '(out, t') := dual_observe t (dcFp d) (dcValue d) (dcVersion d) (dcNow d) in
  out = dual_spec past d /\ dual_ok (dcNow d) (past ++ [d]) t'.
Proof.
  intros Hnow Hok. apply (dual_ok_later _ (dcNow d)) in Hok; [|done]. unfold dual_observe, dual_spec.
  destruct d as [fp value isVersion at_]. cbn [dcFp dcValue dcVersion dcNow] in *.
  destruct (bool_decide (value = [])) eqn:Hv; go_bools.
  - subst value. split; [by case_match; [case_match|]|]. intros fp' v'. rewrite dual_log_snoc.
    rewrite decide_False by (intros (_ & _ & H); by apply H). apply Hok.
  - apply dual_prune_ok in Hok. set (t1 := dual_prune t at_) in *. clearbody t1.
    destruct (dual_last isVersion (default (mkDualEntry [] 0 [] 0) (t1 !! fp))) as [last lastAt] eqn:Hl.
    pose proof (Hok fp isVersion) as Ha. unfold dual_field in Ha. rewrite Hl in Ha. split.
    + unfold dual_agrees in Ha. destruct (dual_log past fp isVersion) as [[x tx]|]; simpl in Ha.
      * destruct Ha as [Hx [[= -> ->]|[-> Ht]]]; [by rewrite bool_decide_eq_false_2 by done|].
        rewrite bool_decide_eq_true_2 by done. simpl. rewrite (proj2 (Z.leb_gt _ _) Ht), andb_false_r. done.
      * subst last. by rewrite bool_decide_eq_true_2.
    + intros fp' v'. rewrite dual_log_snoc. unfold dual_field. case_decide as Hd.
      * destruct Hd as (<- & <- & _). cbn [dcFp dcVersion dcValue dcNow]. rewrite lookup_insert_eq. simpl.
        split; [done|]. left. by destruct isVersion.
      * destruct (decide (fp' = fp)) as [->|Hne]; [|rewrite lookup_insert_ne by done; apply Hok].
        rewrite lookup_insert_eq. simpl. assert (v' = negb isVersion) as ->.
        { destruct v', isVersion; try done; exfalso; by apply Hd. }
        specialize (Hok fp (negb isVersion)). unfold dual_field in Hok. by destruct isVersion.
Qed.

(** The observations come in the order of their times. *)
Definition in_order (calls : list dual_call) : Prop := Sorted (fun a b => dcNow a <= dcNow b) calls.

Lemma dual_observes_spec calls : forall past t now,
  (match calls with [] => True | d :: _ => now <= dcNow d end) -> in_order calls -> dual_ok now past t ->
  forall pre d post, calls = pre ++ d :: post ->
    (dual_observes t calls).1 !! length pre = Some (dual_spec (past ++ pre) d).
Proof.
  induction calls as [|d0 calls IH]; intros past t now Hn Hs Hok pre d post Heq; [by destruct pre|].
  cbn [dual_observes]. pose proof (dual_observe_spec now past t d0 Hn Hok) as Ho.
  destruct (dual_observe t (dcFp d0) (dcValue d0) (dcVersion d0) (dcNow d0)) as [out t1]. destruct Ho as [-> Hok1].
  apply Sorted_inv in Hs as [Hs Hhd].
  destruct pre as [|d1 pre]; injection Heq as <- Hc.
  - destruct (dual_observes t1 calls). by rewrite app_nil_r.
  - assert (match calls with [] => True | d' :: _ => dcNow d0 <= dcNow d' end) as Hn1
      by (destruct calls; [done|by inversion Hhd]).
    pose proof (IH (past ++ [d0]) t1 (dcNow d0) Hn1 Hs Hok1 pre d post Hc) as H.
    rewrite <- app_assoc in H. by destruct (dual_observes t1 calls).
Qed.

(** What every observation is answered with. *)
Lemma dual_use_logged (calls pre : list dual_call) (d : dual_call) (post : list dual_call) :
  in_order calls -> calls = pre ++ d :: post ->
  (dual_observes newDualUseTracker calls).1 !! length pre = Some (dual_spec pre d) /\
  (forall v, dual_spec pre d = (v, true) <->
     exists t, dual_log pre (dcFp d) (dcVersion d) = Some (v, t) /\ dcValue d ≠ [] /\ v ≠ dcValue d /\
       time_sub (dcNow d) t <= dualUseWindow).
Proof.
  intros Hs Heq. split.
  - pose proof (dual_observes_spec calls [] newDualUseTracker (match calls with [] => 0 | c :: _ => dcNow c end)) as H.
    apply (H ltac:(by destruct calls) Hs ltac:(by intros fp []) pre d post Heq).
  - intros v. unfold dual_spec. destruct (dual_log pre (dcFp d) (dcVersion d)) as [[x t]|].
    + destruct (negb (bool_decide (dcValue d = [])) && negb (bool_decide (x = dcValue d)) &&
                (time_sub (dcNow d) t <=? dualUseWindow)) eqn:E; go_bools; split.
      * intros [= <-]. by exists t.
      * by intros (t' & [= -> ->] & _).
      * done.
      * intros (t' & [= -> ->] & H1 & H2 & H3). exfalso. rewrite !bool_decide_eq_false_2 in E by done.
        by rewrite (proj2 (Z.leb_le _ _) H3) in E.
    + split; [done|]. by intros (t & ? & _).
Qed.

(** C39. The tables that watch what agents do answer as a full record would.
    Audit coalescing loses no occurrence: for every canary and action the first
    is written at once, one within a minute of the last entry written is
    counted instead, the next one after that is written with the number since,
    and the counts written and held back add up, whatever happens under other
    keys; an entry's text gives its count. And where the observations reach the
    tracker in the order of their times (a handler reads the clock before it
    takes the lock, so two can be the other way round), one is reported as a
    dual use exactly when the last value seen for the same certificate and kind
    was another one at most sixty seconds before, and then with that value;
    pruning never changes an answer. *)
Theorem watches_refine_logs :
  (forall (calls : list audit_call) (k : bytes * bytes),
   let '(outs, c) := admits newAuditCoalescer calls in
     fst <$> outs = calls /\
     occurrences (of_key k outs) + default 0 (suppressed <$> c !! k) = zlen (of_key k outs) /\
     (forall pre now out post, outs = pre ++ (k, now, out) :: post -> audit_rule (of_key k pre) now out) /\
     (forall base n noun, 1 < n < 10 ^ 20 ->
        coalescedReason base n noun =
          base ++ lit " (1 of " ++ formatCount n ++ lit " " ++ noun ++ lit " since the previous entry)" /\
        dec_val (filter (fun ch => ch ≠ 44) (formatCount n)) = n)) /\
  (forall (calls pre : list dual_call) (d : dual_call) (post : list dual_call),
   in_order calls -> calls = pre ++ d :: post ->
     (dual_observes newDualUseTracker calls).1 !! length pre = Some (dual_spec pre d) /\
     (forall v, dual_spec pre d = (v, true) <->
        exists t, dual_log pre (dcFp d) (dcVersion d) = Some (v, t) /\ dcValue d ≠ [] /\ v ≠ dcValue d /\
          time_sub (dcNow d) t <= dualUseWindow)).
Proof. split; [exact audit_counted|exact dual_use_logged]. Qed.

Definition ex_seen (value : string) (isVersion : bool) (now : Z) : dual_call :=
  mkDualCall (lit "ab12") (lit value) isVersion (now * 1000000000).

Lemma watches_refine_logs_witness :
  (dual_observes newDualUseTracker [ex_seen "10.0.0.1" false 5; ex_seen "v1" true 6; ex_seen "10.0.0.2" false 65]).1
    !! 2%nat = Some (lit "10.0.0.1", true).
Proof.
  destruct (proj2 watches_refine_logs
    [ex_seen "10.0.0.1" false 5; ex_seen "v1" true 6; ex_seen "10.0.0.2" false 65]
    [ex_seen "10.0.0.1" false 5; ex_seen "v1" true 6] (ex_seen "10.0.0.2" false 65) []) as [H _].
  - repeat constructor; vm_compute; discriminate.
  - reflexivity.
  - etransitivity; [exact H|]. vm_compute. reflexivity.
Defined.
