(* ===== verification/SelfTest.v ===== *)
(** The self-test's own records: what a self-test command carries
    ([internal/selftest/params.go]), the grade of a service
    ([internal/store/selftest_grade.go]), the tables of runs and targets and
    the index of live markers ([internal/store/selftest.go],
    [selftest_vnc.go], [pending.go]).

    A program over the database is a [Sql.prog]; the index is a map under its
    mutex, a value here. JSON, SHA-256 and HMAC are the class [Codec]. The
    order in which Go's [range] visits a map is an argument. *)
From S2P Require Import Prelude GoBase GoStrings Sql Commands.
#[local] Open Scope Z_scope.

(** ** params.go *)

Definition MarkerBytes : Z := 16.
Definition MaxTargets : Z := 32.

Record Target : Type := mkTarget { tService : bytes; tDestPort : Z; tMarker : bytes }.
Record Params : Type := mkParams { pRunID : bytes; pAddress : bytes; pTargets : list Target }.

Definition portless (service : bytes) : bool :=
  bool_decide (service = lit "portscan") || bool_decide (service = lit "poisoner").

Inductive selftest_error : Type :=
| ErrNoTargets
| ErrEmptyRunID
| ErrEmptyAddress
| ErrTooManyTargets
| ErrEmptyService
| ErrBadPort
| ErrEmptyMarker
| ErrMarkerReused
| ErrEmptyParams
| ErrUndecodable
| ErrNoRandom
| ErrCommand (e : command_error)
| ErrStore.

(** The loop of [Validate], with the set of markers seen. *)
Fixpoint validate_targets (seen : gset bytes) (ts : list Target) : option selftest_error :=
  match ts with
  | [] => None
  | t :: ts =>
      if bool_decide (tService t = []) then Some ErrEmptyService else
      if (if portless (tService t) then negb (tDestPort t =? 0)
          else (tDestPort t <? 1) || (65535 <? tDestPort t)) then Some ErrBadPort else
      if bool_decide (tMarker t = []) then Some ErrEmptyMarker else
      if bool_decide (tMarker t ∈ seen) then Some ErrMarkerReused else
      validate_targets ({[tMarker t]} ∪ seen) ts
  end.

Definition Validate (p : Params) : option selftest_error :=
  if bool_decide (pRunID p = []) then Some ErrEmptyRunID else
  if bool_decide (pAddress p = []) then Some ErrEmptyAddress else
  if zlen (pTargets p) =? 0 then Some ErrNoTargets else
  if MaxTargets <? zlen (pTargets p) then Some ErrTooManyTargets else
  validate_targets ∅ (pTargets p).

(** ** selftest_grade.go *)

Inductive Grade : Type := GradeMarked | GradeChallengeMarked | GradeAttributed.

#[export] Instance Grade_eq_dec : EqDecision Grade.
Proof. solve_decision. Defined.

Definition serviceGrades : list (bytes * Grade) :=
  ((fun s => (lit s, GradeMarked)) <$>
     ["ftp"; "http"; "telnet"; "smb"; "snmp"; "tftp"; "sip"; "redis"; "mysql"; "mssql"; "rdp"; "ssh"]) ++
  [(lit "vnc", GradeChallengeMarked)] ++
  ((fun s => (lit s, GradeAttributed)) <$> ["ntp"; "portscan"; "llmnr"; "poisoner"]).

Definition gradeForService (service : bytes) : Grade :=
  match list_find (fun p => p.1 = service) serviceGrades with
  | Some (_, (_, g)) => g
  | None => GradeMarked
  end.

(** ** What the standard library supplies *)

Class Codec : Type := {
  marshal_params : Params -> bytes;
  marshal_nonempty p : marshal_params p ≠ [];
  decode_params : bytes -> option Params;
  vnc_fields : bytes -> option (bytes * bytes);
  marker_hash : bytes -> bytes;
  hmac_sha256 : bytes -> bytes -> bytes;
}.

(** [strings.Contains] *)
Fixpoint Contains (s sub : bytes) : bool :=
  HasPrefix s sub || match s with [] => false | _ :: s => Contains s sub end.

(** [hex.DecodeString] *)
Definition hex_value (c : Z) : option Z :=
  if is_digit c then Some (c - 48)
  else if (97 <=? c) && (c <=? 102) then Some (c - 87)
  else if (65 <=? c) && (c <=? 70) then Some (c - 55)
  else None.

Fixpoint DecodeString (s : bytes) : option bytes :=
  match s with
  | [] => Some []
  | a :: b :: s =>
      match hex_value a, hex_value b, DecodeString s with
      | Some x, Some y, Some rest => Some (x * 16 + y :: rest)
      | _, _, _ => None
      end
  | [_] => None
  end.

(** A database compares two times of a text column at its own resolution:
    [timeCompare] of [store.go] hands both to [julianday], or to a cast. *)
Class Engine : Type := {
  instant : Z -> Z;
  resolution : Z;
  instant_le a b : instant a <= instant b -> a - b < resolution;
  instant_mono a b : a <= b -> instant a <= instant b;
}.

(** ** The database *)

(** [self_test_runs] and [self_test_targets]. *)
Record run_row : Type := mkRun {
  run_command : bytes;
  run_agent : bytes;
  run_id : bytes;
  run_issued : Z;
  run_deadline : Z;
  run_completed : option Z;
  run_passed : option bool;
}.

Record target_row : Type := mkTargetRow {
  tr_command : bytes;
  tr_service : bytes;
  tr_port : Z;
  tr_hash : bytes;
  tr_grade : Grade;
  tr_matched : option Z;
}.

(** The columns of [agents] the self-test reads and writes. *)
Record agent_row : Type := mkAgent {
  a_id : bytes;
  a_kind : bytes;
  a_addr : option bytes;
  a_registered : option Z;
}.

(** [AlertInsert] *)
Record AlertInsert : Type := mkAlert {
  InstanceID : bytes;
  SourceIP : bytes;
  DestPort : Z;
  Service : bytes;
  Raw : bytes;
  ReceivedAt : Z;
  EventID : bytes;
  Synthetic : bool;
}.

(** A row of [alerts]: an event without an id has NULL there. *)
Record alert_row : Type := mkAlertRow {
  al_alert : AlertInsert;
  al_event : option bytes;
}.

(** [audit.Entry] *)
Record Entry : Type := mkAudit {
  Action : bytes;
  AuditTarget : bytes;
  Reason : bytes;
  TriggeredBy : bytes;
  EntryAt : Z;
}.

Record store_db : Type := mkStore {
  commands : cmd_db;
  runs : list run_row;
  targets : list target_row;
  agents : list agent_row;
  alerts : list alert_row;
  audits : list Entry;
}.

Definition set_commands (c : cmd_db) (d : store_db) : store_db :=
  mkStore c (runs d) (targets d) (agents d) (alerts d) (audits d).
Definition set_runs (r : list run_row) (d : store_db) : store_db :=
  mkStore (commands d) r (targets d) (agents d) (alerts d) (audits d).
Definition set_targets (t : list target_row) (d : store_db) : store_db :=
  mkStore (commands d) (runs d) t (agents d) (alerts d) (audits d).
Definition set_agents (a : list agent_row) (d : store_db) : store_db :=
  mkStore (commands d) (runs d) (targets d) a (alerts d) (audits d).

(** *** Statements *)

Definition insert_run (r : run_row) (d : store_db) : option (store_db * unit) :=
  if existsb (fun x => bool_decide (run_command x = run_command r)) (runs d) then None
  else Some (set_runs (runs d ++ [r]) d, tt).

Definition target_key (t : target_row) : bytes * bytes * Z := (tr_command t, tr_service t, tr_port t).

Definition insert_target (t : target_row) (d : store_db) : option (store_db * unit) :=
  if existsb (fun x => bool_decide (target_key x = target_key t)) (targets d) then None
  else Some (set_targets (targets d ++ [t]) d, tt).

(** The target a marker's hash waits for. *)
Definition unmatched_hash (hash : bytes) (t : target_row) : bool :=
  bool_decide (tr_hash t = hash) && bool_decide (tr_matched t = None).

Definition select_unmatched (hash : bytes) (d : store_db) : option bytes :=
  tr_command <$> head (filter (fun t => unmatched_hash hash t = true) (targets d)).

Definition set_matched (now : Z) (t : target_row) : target_row :=
  mkTargetRow (tr_command t) (tr_service t) (tr_port t) (tr_hash t) (tr_grade t) (Some now).

Definition update_matched (hash : bytes) (now : Z) (d : store_db) : option (store_db * Z) :=
  Some (set_targets ((fun t => if unmatched_hash hash t then set_matched now t else t) <$> targets d) d,
        zlen (filter (fun t => unmatched_hash hash t = true) (targets d))).

Definition count_unmatched (command : bytes) (d : store_db) : Z :=
  zlen (filter (fun t => tr_command t = command /\ tr_matched t = None) (targets d)).

Definition complete_run (now : Z) (passed : bool) (r : run_row) : run_row :=
  mkRun (run_command r) (run_agent r) (run_id r) (run_issued r) (run_deadline r) (Some now) (Some passed).

Definition update_passed (command : bytes) (now : Z) (d : store_db) : option (store_db * unit) :=
  Some (set_runs ((fun r => if bool_decide (run_command r = command) && bool_decide (run_completed r = None)
                            then complete_run now true r else r) <$> runs d) d, tt).

(** [SweepExpiredSelfTestRuns], one statement and its count. *)
Definition expired `{Engine} (now : Z) (r : run_row) : bool :=
  bool_decide (run_completed r = None) && (instant (run_deadline r) <=? instant now).

Definition sweep_expired `{Engine} (now : Z) (d : store_db) : option (store_db * Z) :=
  Some (set_runs ((fun r => if expired now r then complete_run now false r else r) <$> runs d) d,
        zlen (filter (fun r => expired now r = true) (runs d))).

Definition select_run_agent (command : bytes) (d : store_db) : option bytes :=
  run_agent <$> head (filter (fun r => run_command r = command) (runs d)).

Definition register_agent (canaryID : bytes) (at_ : Z) (d : store_db) : option (store_db * unit) :=
  Some (set_agents ((fun a => if bool_decide (a_id a = canaryID) && bool_decide (a_registered a = None)
                              then mkAgent (a_id a) (a_kind a) (a_addr a) (Some at_) else a) <$> agents d) d, tt).

Definition select_agent (canaryID : bytes) (d : store_db) : option agent_row :=
  head (filter (fun a => a_id a = canaryID) (agents d)).

Definition update_addr (canaryID address : bytes) (d : store_db) : option (store_db * Z) :=
  Some (set_agents ((fun a => if bool_decide (a_id a = canaryID)
                              then mkAgent (a_id a) (a_kind a) (Some address) (a_registered a) else a) <$> agents d) d,
        zlen (filter (fun a => a_id a = canaryID) (agents d))).

Definition select_selftests (d : store_db) : list command_row :=
  filter (fun r => r_kind r = CommandSelfTest) (commands d).

Definition recent_runs `{Engine} (canaryID : bytes) (since : Z) (d : store_db) : Z :=
  zlen (filter (fun r => run_agent r = canaryID /\ instant since <= instant (run_issued r)) (runs d)).

Definition completed_runs (canaryID : bytes) (d : store_db) : list run_row :=
  filter (fun r => run_agent r = canaryID /\ run_completed r ≠ None) (runs d).

(** [ORDER BY service, dest_port], text compared byte by byte. *)
Fixpoint text_le (a b : bytes) : bool :=
  match a, b with
  | [], _ => true
  | _, [] => false
  | x :: a, y :: b => (x <? y) || ((x =? y) && text_le a b)
  end.

Definition target_before (a b : target_row) : Prop :=
  (if bool_decide (tr_service a = tr_service b) then tr_port a <=? tr_port b
   else text_le (tr_service a) (tr_service b)) = true.

#[export] Instance target_before_dec a b : Decision (target_before a b).
Proof. unfold target_before. apply _. Defined.

Definition select_unmatched_of (command : bytes) (d : store_db) : list target_row :=
  merge_sort target_before (filter (fun t => tr_command t = command /\ tr_matched t = None) (targets d)).

Section store.
Context `{Stdlib} `{Codec}.

Definition DecodeParams (raw : bytes) : res selftest_error Params :=
  if bool_decide (raw = []) then Err ErrEmptyParams else
  match decode_params raw with
  | None => Err ErrUndecodable
  | Some p => match Validate p with Some e => Err e | None => Ok p end
  end.

(** *** MintSelfTestCommand *)

(** The loop that plants a fresh marker in each target; [None] is a failure of
    the random source. *)
Fixpoint plant (ts : list (bytes * Z)) (markers : list (option bytes)) : option (list Target) :=
  match ts, markers with
  | [], _ => Some []
  | (service, port) :: ts, Some m :: markers =>
      match plant ts markers with Some rest => Some (mkTarget service port m :: rest) | None => None end
  | _, _ => None
  end.

Fixpoint insert_targets (command : bytes) (ts : list Target) (k : prog store_db (res selftest_error CanaryCommand)) :
    prog store_db (res selftest_error CanaryCommand) :=
  match ts with
  | [] => k
  | t :: ts =>
      Stmt (insert_target (mkTargetRow command (tService t) (tDestPort t) (marker_hash (tMarker t))
                             (gradeForService (tService t)) None)) (fun r =>
      match r with None => Ret (Err ErrStore) | Some _ => insert_targets command ts k end)
  end.

(** The body of its transaction. *)
Definition mint_selftest (canaryID : bytes) (p : Params) (createdAt expiresAt : Z) (rid : option bytes) :
    prog store_db (res selftest_error CanaryCommand) :=
  pbind (on_table commands set_commands
           (MintCanaryCommand canaryID CommandSelfTest (marshal_params p) createdAt expiresAt rid)) (fun r =>
  match r with
  | Err e => Ret (Err (ErrCommand e))
  | Ok cmd =>
      Stmt (insert_run (mkRun (ID cmd) canaryID (pRunID p) (CreatedAt cmd) (ExpiresAt cmd) None None)) (fun r =>
      match r with
      | None => Ret (Err ErrStore)
      | Some _ => insert_targets (ID cmd) (pTargets p) (Ret (Ok cmd))
      end)
  end).

(** What precedes the transaction: the parameters, or why there are none. *)
Definition build_params (address : bytes) (ts : list (bytes * Z)) (runID : option bytes)
    (markers : list (option bytes)) : res selftest_error Params :=
  if zlen ts =? 0 then Err ErrNoTargets else
  match runID with
  | None => Err ErrNoRandom
  | Some runID =>
      match plant ts markers with
      | None => Err ErrNoRandom
      | Some targets =>
          let p := mkParams runID address targets in
          match Validate p with Some e => Err e | None => Ok p end
      end
  end.

(** *** Reading the verdicts *)

(** [LatestCompletedSelfTestRun]: the first of the latest, [None] where no run
    is complete; [Err tt] is the database's error. *)
Definition later (latest : option run_row) (r : run_row) : option run_row :=
  match latest with
  | Some l => if default 0 (run_completed l) <? default 0 (run_completed r) then Some r else latest
  | None => Some r
  end.

Definition LatestCompletedSelfTestRun (canaryID : bytes) : prog store_db (res unit (option run_row)) :=
  Stmt (query (completed_runs canaryID)) (fun r =>
  Ret (match r with None => Err tt | Some rows => Ok (foldl later None rows) end)).

Definition SelfTestTargetsUnmatched (command : bytes) : prog store_db (res unit (list bytes)) :=
  Stmt (query (select_unmatched_of command)) (fun r =>
  Ret (match r with
       | None => Err tt
       | Some rows => Ok ((fun t => tr_service t ++ lit " " ++ Itoa (tr_port t)) <$> rows)
       end)).

(** What [applySelfTestState] sets of a canary, and whether its test failed. *)
Record selftest_state : Type := mkState {
  LastSelfTestAt : option Z;
  LastSelfTestPassed : option bool;
  SelfTestFailedServices : list bytes;
  testFailed : bool;
}.

Definition applySelfTestState (canaryID kind : bytes) : prog store_db (res unit selftest_state) :=
  pbind (LatestCompletedSelfTestRun canaryID) (fun r =>
  match r with
  | Err e => Ret (Err e)
  | Ok None => Ret (Ok (mkState None None [] false))
  | Ok (Some run) =>
      let state := mkState (run_completed run) (run_passed run) in
      if bool_decide (run_passed run ≠ Some false) then Ret (Ok (state [] false)) else
      if bool_decide (kind = Scanner) then Ret (Ok (state [] true)) else
      pbind (SelfTestTargetsUnmatched (run_command run)) (fun r =>
      Ret (match r with Err e => Err e | Ok failed => Ok (state failed true) end))
  end).

Definition HasRecentSelfTestRun `{Engine} (canaryID : bytes) (since : Z) : prog store_db (res unit bool) :=
  Stmt (query (recent_runs canaryID since)) (fun r => Ret (match r with None => Err tt | Some n => Ok (0 <? n) end)).
End store.

(** ** The index *)

(** [selfTestMarkerInfo] *)
Record markerInfo : Type := mkInfo { miExpires : Z; miService : bytes; miClaimedBy : bytes }.

Abbreviation markers := (gmap bytes markerInfo).
Abbreviation byCanary := (gmap bytes markers).

(** [addLocked] *)
Definition addLocked (canaryID : bytes) (ts : list Target) (expiresAt : Z) (idx : byCanary) : byCanary :=
  <[canaryID := foldl (fun m t => <[tMarker t := mkInfo expiresAt (tService t) []]> m)
                  (default ∅ (idx !! canaryID)) ts]> idx.

(** The keys of a map in the order a [range] visits them: those of [order]
    first, then the others. *)
Definition range_keys (order : list bytes) (m : markers) : list bytes :=
  filter (fun k => k ∈ dom m) (remove_dups order) ++ elements (dom m ∖ list_to_set order).

(** The loop of [match] and of [matchVNCChallenge]: the expired are deleted,
    the last that fits is found. *)
Fixpoint scan_markers (now : Z) (fits : bytes -> bool) (keys : list bytes) (m : markers) (found : option bytes) :
    option bytes * markers :=
  match keys with
  | [] => (found, m)
  | k :: keys =>
      match m !! k with
      | None => scan_markers now fits keys m found
      | Some info =>
          if negb (now <? miExpires info) then scan_markers now fits keys (delete k m) found
          else scan_markers now fits keys m (if fits k then Some k else found)
      end
  end.

(** A canary without live markers leaves the index. *)
Definition put_markers (canaryID : bytes) (m : markers) (idx : byCanary) : byCanary :=
  if bool_decide (m = ∅) then delete canaryID idx else <[canaryID := m]> idx.

Definition match_markers (canaryID : bytes) (now : Z) (fits : bytes -> bool) (order : list bytes) (idx : byCanary) :
    option bytes * byCanary :=
  let m := default ∅ (idx !! canaryID) in
  let '(found, m') := scan_markers now fits (range_keys order m) m None in
  (found, put_markers canaryID m' idx).

(** [match] *)
Definition idx_match (canaryID raw : bytes) (now : Z) (order : list bytes) (idx : byCanary) : option bytes * byCanary :=
  match_markers canaryID now (Contains raw) order idx.

Definition vncChallengeLen : Z := 16.

Section vnc.
Context `{Codec}.

Definition parseVNCChallenge (raw : bytes) : option (bytes * bytes) :=
  match vnc_fields raw with
  | None => None
  | Some (challenge, response) =>
      match DecodeString challenge, DecodeString response with
      | Some c, Some r => if (zlen c =? vncChallengeLen) && (zlen r =? vncChallengeLen) then Some (c, r) else None
      | _, _ => None
      end
  end.

Definition verifyVNCChallenge (markerHex challenge response : bytes) : bool :=
  match DecodeString markerHex with
  | None => false
  | Some key => bool_decide (slice (hmac_sha256 key challenge) 0 vncChallengeLen = response)
  end.

Definition matchVNCChallenge (canaryID raw : bytes) (now : Z) (order : list bytes) (idx : byCanary) :
    option bytes * byCanary :=
  match parseVNCChallenge raw with
  | None => (None, idx)
  | Some (challenge, response) =>
      match_markers canaryID now (fun m => verifyVNCChallenge m challenge response) order idx
  end.
End vnc.

(** [lookupMarker] *)
Definition lookupMarker (canaryID marker : bytes) (now : Z) (idx : byCanary) : option markerInfo * byCanary :=
  let m := default ∅ (idx !! canaryID) in
  match m !! marker with
  | None => (None, idx)
  | Some info =>
      if negb (now <? miExpires info) then (None, put_markers canaryID (delete marker m) idx)
      else (Some info, idx)
  end.

(** [tryClaim] *)
Definition tryClaim (canaryID marker eventID : bytes) (idx : byCanary) : bool * byCanary :=
  let m := default ∅ (idx !! canaryID) in
  match m !! marker with
  | None => (true, idx)
  | Some info =>
      if negb (bool_decide (miClaimedBy info = [])) && negb (bool_decide (miClaimedBy info = eventID)) then (false, idx)
      else (true, <[canaryID := <[marker := mkInfo (miExpires info) (miService info) eventID]> m]> idx)
  end.
