(* ===== verification/AuditLog.v ===== *)
(** The audit log ([internal/audit/audit.go]) as the handlers of a transaction
    write it: [Append] refuses an entry with a blank field or without a time,
    and stores the time in whole seconds. *)
From S2P Require Import Prelude GoBase GoStrings Sql SelfTest.
#[local] Open Scope Z_scope.

Section audit.
Context `{Unicode}.

Definition blank (s : bytes) : bool := bool_decide (TrimSpace s = []).

(** What [Append] asks of an entry. *)
Definition entry_ok (e : Entry) : bool :=
  negb (blank (Action e) || blank (AuditTarget e) || blank (Reason e) || blank (TriggeredBy e) || (EntryAt e =? 0)).

Definition in_seconds (e : Entry) : Entry :=
  mkAudit (Action e) (AuditTarget e) (Reason e) (TriggeredBy e) (EntryAt e - EntryAt e mod 10 ^ 9).

Definition insert_entry (e : Entry) (l : list Entry) : option (list Entry * unit) := Some (l ++ [in_seconds e], tt).

(** [Append]; [true] for its nil error. *)
Definition Append (e : Entry) : prog (list Entry) bool :=
  if negb (entry_ok e) then Ret false
  else Stmt (insert_entry e) (fun r => Ret (bool_decide (is_Some r))).
End audit.
