(* ===== verification/Server.v ===== *)
(** Birdcage's request handlers as processes over a state that holds a database.

    A statement is atomic; it may fail, or happen and lose its answer, and both
    read as an error. The clock, the rate limiter's answer and the order of a
    map's keys are inputs too. *)
From S2P Require Import Prelude GoBase Sql Process.
#[local] Open Scope Z_scope.

(** What the outside decides. *)
Inductive server_input : Type :=
| Answers
| Loses
| Fails
| Clock (now : Z)
| Allows (b : bool)
| Order (keys : list bytes).

Section server.
Context {W DB : Type} (get : W -> DB) (put : DB -> W -> W).

Definition run_stmt {R : Type} (f : DB -> option (DB * R)) (w : W) : option R * W :=
  match f (get w) with
  | Some (d, r) => (Some r, put d w)
  | None => (None, w)
  end.

Definition stmt {R : Type} (f : DB -> option (DB * R)) (k : option R -> proc W server_input) : proc W server_input :=
  Ask (fun _ a => match a with Answers | Loses | Fails => true | _ => false end) (fun a =>
  match a with
  | Answers => Act (run_stmt f) k
  | Loses => Act (run_stmt f) (fun _ => k None)
  | _ => k None
  end).

(** A program of statements. *)
Fixpoint statements {A : Type} (p : prog DB A) (k : A -> proc W server_input) : proc W server_input :=
  match p with
  | Ret a => k a
  | Stmt f q => stmt f (fun r => statements (q r) k)
  end.

Definition clock (k : Z -> proc W server_input) : proc W server_input :=
  Ask (fun _ a => match a with Clock _ => true | _ => false end)
      (fun a => match a with Clock t => k t | _ => Done end).

Definition with_order (k : list bytes -> proc W server_input) : proc W server_input :=
  Ask (fun _ a => match a with Order _ => true | _ => false end)
      (fun a => match a with Order l => k l | _ => Done end).

(** The limiter's answer. *)
Definition allowed (k : bool -> proc W server_input) : proc W server_input :=
  Ask (fun _ a => match a with Allows _ => true | _ => false end)
      (fun a => match a with Allows b => k b | _ => Done end).

(** ** The rule for a statement *)

Context (Inv : W -> Prop) (R : W -> W -> Prop) `{!PreOrder R}.

Notation always := (@always W server_input Inv R).

Lemma stmt_always {T} (f : DB -> option (DB * T)) (k : option T -> proc W server_input) w :
  (forall w1, R w w1 -> Inv w1 -> forall d' r, f (get w1) = Some (d', r) ->
     Inv (put d' w1) /\ R w1 (put d' w1) /\ always (k (Some r)) (put d' w1)) ->
  always (k None) w -> always (stmt f k) w.
Proof.
  intros Hf Hk. apply (always_ask Inv R). intros a.
  assert (forall g : option T -> proc W server_input, (g = k \/ g = (fun _ => k None)) -> always (Act (run_stmt f) g) w) as Hrun.
  { intros g Hg. apply (always_act Inv R). intros w1 HR HI. unfold run_stmt.
    destruct (f (get w1)) as [[d' r]|] eqn:E; simpl.
    - destruct (Hf w1 HR HI d' r E) as (HI' & HR' & Hal). split; [done|]. split; [done|].
      destruct Hg as [-> | ->]; [done|]. apply (always_le Inv R _ w); [by transitivity w1|done].
    - split; [done|]. split; [reflexivity|]. destruct Hg as [-> | ->]; by apply (always_le Inv R _ w). }
  destruct a; try exact Hk; apply Hrun; auto.
Qed.

Lemma clock_always k w : (forall t, always (k t) w) -> always (clock k) w.
Proof. intros Hk. apply (always_ask Inv R). intros []; try apply (always_done Inv R). apply Hk. Qed.

Lemma order_always k w : (forall l, always (k l) w) -> always (with_order k) w.
Proof. intros Hk. apply (always_ask Inv R). intros []; try apply (always_done Inv R). apply Hk. Qed.

Lemma allowed_always k w : (forall b, always (k b) w) -> always (allowed k) w.
Proof. intros Hk. apply (always_ask Inv R). intros []; try apply (always_done Inv R). apply Hk. Qed.
End server.

(** ** Running a thread *)

(** Statements answer, the clock reads [t] and the limiter allows. *)
Definition next_input {W : Type} (t : Z) (c : pool W server_input) (i : nat) : server_input :=
  match threads c !! i with
  | Some (Ask ok _) =>
      if ok (shared c) Answers then Answers else if ok (shared c) (Clock t) then Clock t else Allows true
  | _ => Answers
  end.

Fixpoint drive {W : Type} (steps : nat) (t : Z) (i : nat) (c : pool W server_input) : pool W server_input :=
  match steps with
  | O => c
  | S steps => drive steps t i (padvance c (i, next_input t c i))
  end.

Lemma drive_interleaves {W} steps t i : forall c : pool W server_input, interleaves c (drive steps t i c).
Proof.
  induction steps as [|n IH]; intros c; [apply rtc_refl|]. cbn [drive].
  transitivity (padvance c (i, next_input t c i)); [|apply IH].
  apply (pschedule_interleaves [(i, next_input t c i)] c).
Qed.
