(* ===== verification/Ingest.v ===== *)
(** Ingestion: the handler of a batch ([internal/ingest/batch.go]), the
    self-test's matching of events ([internal/store/selftest.go]) and what
    runs beside them: minting, polling and sweeping self-tests, and recording
    the address an agent was last seen at.

    Each request is a process ([Process]) over birdcage's database, index and
    audit coalescer. A statement may fail, or happen and lose its answer; both
    read as an error. The state also keeps a history no operation reads: the
    responses given ([responses]) and the addresses recorded ([seen]). *)
From S2P Require Import Prelude GoBase GoStrings Sql Upgrade Commands Process Server Events Watch SelfTest AuditLog.
#[local] Open Scope Z_scope.

(** ** batch.go: data *)

Definition maxEventsPerBatch : Z := 100.

(** [ingestEvent] *)
Record ingestEvent : Type := mkIngest {
  ieEventID : bytes;
  ieSourceIP : bytes;
  ieDestPort : Z;
  ieService : bytes;
  ieRaw : bytes;
  ieMarker : bytes;
}.

(** What decoding a request body gives: [ingestBatch] or a refusal. *)
Inductive batch_body : Type :=
| BodyTooLarge
| BodyMalformed
| BodyTrailing
| Body (nodeID : bytes) (events : list ingestEvent).

(** A response: an error's status, or [ackResponse]. *)
Inductive response : Type :=
| RespError (status : Z)
| RespAck (stored : list bytes) (rejected : gmap bytes bytes).

(** ** Birdcage's state *)

Record birdcage : Type := mkBirdcage {
  db : store_db;
  loaded : bool;
  idx : byCanary;
  coalescer : auditCoalescer;
  published : list AlertInsert;
  responses : list (bytes * list ingestEvent * response);
  seen : list (bytes * bytes);
}.

Definition set_db (d : store_db) (w : birdcage) : birdcage :=
  mkBirdcage d (loaded w) (idx w) (coalescer w) (published w) (responses w) (seen w).
Definition set_idx (i : byCanary) (w : birdcage) : birdcage :=
  mkBirdcage (db w) (loaded w) i (coalescer w) (published w) (responses w) (seen w).
Definition set_coalescer (c : auditCoalescer) (w : birdcage) : birdcage :=
  mkBirdcage (db w) (loaded w) (idx w) c (published w) (responses w) (seen w).
Definition publish (a : AlertInsert) (w : birdcage) : birdcage :=
  mkBirdcage (db w) (loaded w) (idx w) (coalescer w) (published w ++ [a]) (responses w) (seen w).
Definition respond (canaryID : bytes) (evs : list ingestEvent) (r : response) (w : birdcage) : birdcage :=
  mkBirdcage (db w) (loaded w) (idx w) (coalescer w) (published w) (responses w ++ [(canaryID, evs, r)]) (seen w).

Notation go := (proc birdcage server_input).
Notation run_stmt := (Server.run_stmt db set_db).
Notation stmt := (Server.stmt db set_db).
Notation statements := (Server.statements db set_db).

(** ** Statements *)

(** [audit.Append]'s insert and [InsertAlertIfNew]'s, which answers whether the
    row is new. *)
Definition insert_audit (e : Entry) (d : store_db) : option (store_db * unit) :=
  Some (mkStore (commands d) (runs d) (targets d) (agents d) (alerts d) (audits d ++ [in_seconds e]), tt).

Definition alert_key (r : alert_row) : option (bytes * bytes) :=
  match al_event r with Some id => Some (InstanceID (al_alert r), id) | None => None end.

Definition InsertAlertIfNew (a : AlertInsert) (d : store_db) : option (store_db * bool) :=
  let row := mkAlertRow a (if bool_decide (EventID a = []) then None else Some (EventID a)) in
  if bool_decide (alert_key row ≠ None) && existsb (fun r => bool_decide (alert_key r = alert_key row)) (alerts d)
  then Some (d, false)
  else Some (mkStore (commands d) (runs d) (targets d) (agents d) (alerts d ++ [row]) (audits d), true).

Section ingest.
Context `{Stdlib} `{Codec} `{Unicode} `{Engine} (ParseAddr : bytes -> bool) (hub : bool).

(** ** Audit entries *)

(** [audit.Append] *)
Definition audit_append (e : Entry) (k : go) : go :=
  if negb (entry_ok e) then k else stmt (insert_audit e) (fun _ => k).

(** [recordCoalesced] and its siblings in batch.go and ratelimit.go: one entry
    a minute for an action of a canary. *)
Definition recordCoalesced (canaryID action reason noun : bytes) (k : go) : go :=
  clock (fun at_ =>
  Act (fun w => let '(out, c) := coalesce_admit (coalescer w) canaryID action at_ in (out, set_coalescer c w)) (fun out =>
    let '(write, occurrences) := out in
    if negb write then k
    else audit_append (mkAudit action canaryID (coalescedReason reason occurrences noun) canaryID at_) k)).

Definition recordRateLimitCrossed (canaryID limit : bytes) (k : go) : go :=
  recordCoalesced canaryID (lit "ingest.rate_limited") (limit ++ lit " limit exceeded") (lit "crossings") k.

Definition recordSelfTestClaimRefused (canaryID service refusal : bytes) (k : go) : go :=
  recordCoalesced canaryID (lit "selftest.claim_refused") (lit "service " ++ service ++ lit ": " ++ refusal)
    (lit "refusals") k.

(** ** selftest.go: matching *)

(** The rows [ensureLoaded] adds, in the order of the table. *)
Definition load_row (now : Z) (i : byCanary) (r : command_row) : byCanary :=
  match r_params r with
  | None => i
  | Some raw =>
      if negb (now <? r_expires r) then i else
      match DecodeParams raw with
      | Err _ => i
      | Ok p => addLocked (r_agent r) (pTargets p) (r_expires r) i
      end
  end.

(** [ensureLoaded] holds the index's mutex over its query: one operation, which
    answers whether it succeeded. *)
Definition load_index (now : Z) (answers : bool) (w : birdcage) : bool * birdcage :=
  if loaded w then (true, w)
  else if negb answers then (false, w)
  else (true, mkBirdcage (db w) true (foldl (load_row now) (idx w) (select_selftests (db w))) (coalescer w)
                (published w) (responses w) (seen w)).

Definition ensureLoaded (k : bool -> go) : go :=
  clock (fun now =>
  Ask (fun _ a => match a with Answers | Fails => true | _ => false end) (fun a =>
  Act (load_index now (match a with Answers => true | _ => false end)) k)).

Definition settlePendingForCommand (command : bytes) (at_ : Z) (k : bool -> go) : go :=
  stmt (query (select_run_agent command)) (fun r =>
  match r with
  | None => k false
  | Some None => k true
  | Some (Some canaryID) => stmt (register_agent canaryID at_) (fun r => k (bool_decide (is_Some r)))
  end).

(** [recordSelfTestMatch]; [true] for its nil. *)
Definition recordSelfTestMatch (hash : bytes) (now : Z) (k : bool -> go) : go :=
  stmt (query (select_unmatched hash)) (fun r =>
  match r with
  | None => k false
  | Some None => k true
  | Some (Some commandID) =>
      stmt (update_matched hash now) (fun n =>
      match n with
      | None => k false
      | Some n =>
          if n =? 0 then k true else
          stmt (query (count_unmatched commandID)) (fun remaining =>
          match remaining with
          | None => k false
          | Some remaining =>
              if 0 <? remaining then k true else
              stmt (update_passed commandID now) (fun r =>
              match r with None => k false | Some _ => settlePendingForCommand commandID now k end)
          end)
      end)
  end).

(** [MatchSelfTest]; [None] for its error. *)
Definition MatchSelfTest (alert : AlertInsert) (now : Z) (k : option bool -> go) : go :=
  let record marker := recordSelfTestMatch (marker_hash marker) now (fun ok => k (if ok : bool then Some true else None)) in
  ensureLoaded (fun ok : bool =>
  if negb ok then k None else
  with_order (fun order =>
  Act (fun w => let '(found, i) := idx_match (InstanceID alert) (Raw alert) now order (idx w) in (found, set_idx i w))
    (fun found =>
  match found with
  | Some marker => record marker
  | None =>
      if bool_decide (Service alert = lit "vnc") then
        with_order (fun order =>
        Act (fun w => let '(found, i) := matchVNCChallenge (InstanceID alert) (Raw alert) now order (idx w) in
                      (found, set_idx i w)) (fun found =>
        match found with
        | Some marker => record marker
        | None => k (Some false)
        end))
      else k (Some false)
  end))).

Definition claim_gone : bytes := lit "no live marker for this claim".
Definition claim_taken : bytes := lit "marker already claimed by another event".
Definition claim_grade : bytes := lit "target is not attributed-grade".
Definition claim_service : bytes := lit "service does not match the claimed target".
Definition claim_source : bytes := lit "source address does not match the canary's last-seen address".

(** [MatchSelfTestClaim]: [None] for its error, [Some None] for a match,
    [Some (Some refusal)] for a refusal. *)
Definition MatchSelfTestClaim (alert : AlertInsert) (marker : bytes) (now : Z) (k : option (option bytes) -> go) : go :=
  let refuse why := k (Some (Some why)) in
  ensureLoaded (fun ok : bool =>
  if negb ok then k None else
  Act (fun w => let '(info, i) := lookupMarker (InstanceID alert) marker now (idx w) in (info, set_idx i w)) (fun info =>
  match info with
  | None => refuse claim_gone
  | Some info =>
      if negb (bool_decide (miClaimedBy info = [])) && negb (bool_decide (miClaimedBy info = EventID alert))
      then refuse claim_taken else
      if negb (bool_decide (gradeForService (miService info) = GradeAttributed)) then refuse claim_grade else
      if negb (bool_decide (miService info = Service alert)) then refuse claim_service else
      stmt (query (select_agent (InstanceID alert))) (fun r =>
      match r with
      | None => k None
      | Some agent =>
          if negb (bool_decide (agent ≫= a_addr = Some (SourceIP alert))) then refuse claim_source else
          recordSelfTestMatch (marker_hash marker) now (fun ok : bool =>
          if negb ok then k None else
          Act (fun w => let '(won, i) := tryClaim (InstanceID alert) marker (EventID alert) (idx w) in (won, set_idx i w))
            (fun won : bool => if won then k (Some None) else refuse claim_taken))
      end)
  end)).

(** ** batch.go: the handler *)

(** [eventIDPattern] *)
Definition event_id_ok (id : bytes) : bool := (zlen id =? 64) && forallb hex_char id.

(** [validateEvent]; [None] when the event is well formed. *)
Definition validateEvent (ev : ingestEvent) : option bytes :=
  if negb (event_id_ok (ieEventID ev)) then Some (lit "invalid event_id") else
  if negb (bool_decide (ieSourceIP ev = [])) && negb (ParseAddr (ieSourceIP ev)) then Some (lit "invalid source_ip") else
  if negb (ieDestPort ev =? -1) && ((ieDestPort ev <? 0) || (65535 <? ieDestPort ev))
  then Some (lit "invalid dest_port") else None.

Definition event_service (ev : ingestEvent) : bytes :=
  if bool_decide (ieService ev = []) then lit "unknown" else ieService ev.

Definition alert_of (canaryID : bytes) (receivedAt : Z) (ev : ingestEvent) (synthetic : bool) : AlertInsert :=
  mkAlert canaryID (ieSourceIP ev) (ieDestPort ev) (event_service ev) (ieRaw ev) receivedAt (ieEventID ev) synthetic.

(** What the loop does with an event once it knows whether it is a self-test's:
    [ack] follows where it is stored, or was skipped, [fail] where it was not. *)
Definition store_event (canaryID : bytes) (receivedAt : Z) (ev : ingestEvent) (ack fail : go) (synthetic : bool) : go :=
  if IsSelfTestResult (event_service ev) then ack else
  stmt (InsertAlertIfNew (alert_of canaryID receivedAt ev synthetic)) (fun r =>
  match r with
  | None => fail
  | Some new =>
      if (new : bool) && hub
      then Act (effect (publish (alert_of canaryID receivedAt ev synthetic))) (fun _ => ack) else ack
  end).

(** The loop over the events of a batch. *)
Fixpoint ingest_events (canaryID : bytes) (receivedAt : Z) (evs : list ingestEvent) (stored : list bytes)
    (rejected : gmap bytes bytes) (noAck : Z) (k : list bytes -> gmap bytes bytes -> Z -> go) : go :=
  match evs with
  | [] => k stored rejected noAck
  | ev :: evs =>
      match validateEvent ev with
      | Some reason => ingest_events canaryID receivedAt evs stored (<[ieEventID ev := reason]> rejected) noAck k
      | None =>
          let ack := ingest_events canaryID receivedAt evs (stored ++ [ieEventID ev]) rejected noAck k in
          let fail := ingest_events canaryID receivedAt evs stored rejected (noAck + 1) k in
          if IsBase (event_service ev) then ack else
          if negb (bool_decide (ieMarker ev = [])) then
            MatchSelfTestClaim (alert_of canaryID receivedAt ev false) (ieMarker ev) receivedAt (fun r =>
            match r with
            | None => store_event canaryID receivedAt ev ack fail false
            | Some None => store_event canaryID receivedAt ev ack fail true
            | Some (Some refusal) =>
                recordSelfTestClaimRefused canaryID (event_service ev) refusal
                  (store_event canaryID receivedAt ev ack fail false)
            end)
          else
            MatchSelfTest (alert_of canaryID receivedAt ev false) receivedAt (fun r =>
            store_event canaryID receivedAt ev ack fail (match r with Some true => true | _ => false end))
      end
  end.

Definition answer (canaryID : bytes) (evs : list ingestEvent) (r : response) : go :=
  Act (effect (respond canaryID evs r)) (fun _ => Done).

(** [handleBatch] for the canary of the request's token. *)
Definition handleBatch (canaryID : bytes) (body : batch_body) : go :=
  match body with
  | BodyTooLarge => answer canaryID [] (RespError 413)
  | BodyMalformed | BodyTrailing => answer canaryID [] (RespError 400)
  | Body nodeID evs =>
      if zlen evs =? 0 then answer canaryID evs (RespError 400) else
      if maxEventsPerBatch <? zlen evs then answer canaryID evs (RespError 400) else
      Ask (fun _ a => match a with Allows _ => true | _ => false end) (fun a =>
      match a with
      | Allows true =>
          clock (fun receivedAt =>
          ingest_events canaryID receivedAt evs [] ∅ 0 (fun stored rejected noAck =>
          if (0 <? noAck) && (noAck =? zlen evs) then answer canaryID evs (RespError 503)
          else answer canaryID evs (RespAck stored rejected)))
      | _ => recordRateLimitCrossed canaryID (lit "events/min") (answer canaryID evs (RespError 429))
      end)
  end.

(** ** Beside it *)

(** [MintSelfTestCommand], from the transaction on. *)
Definition MintSelfTestCommand (canaryID address : bytes) (ts : list (bytes * Z)) (createdAt expiresAt : Z)
    (runID rid : option bytes) (fresh : list (option bytes)) : go :=
  match build_params address ts runID fresh with
  | Err _ => Done
  | Ok p =>
      stmt (transaction (mint_selftest canaryID p createdAt expiresAt rid)) (fun r =>
      match r with
      | Some (Ok cmd) =>
          Act (effect (fun w => set_idx (addLocked canaryID (pTargets p) (ExpiresAt cmd) (idx w)) w)) (fun _ => Done)
      | _ => Done
      end)
  end.

(** [SetCanaryLastSeenAddr] *)
Definition SetCanaryLastSeenAddr (canaryID address : bytes) : go :=
  Ask (fun _ a => match a with Answers | Loses | Fails => true | _ => false end) (fun a =>
  match a with
  | Fails => Done
  | _ => Act (effect (fun w =>
           let w' := (run_stmt (update_addr canaryID address) w).2 in
           mkBirdcage (db w') (loaded w') (idx w') (coalescer w') (published w') (responses w')
             (seen w' ++ [(canaryID, address)]))) (fun _ => Done)
  end).

Definition SweepExpiredSelfTestRuns (now : Z) : go := stmt (sweep_expired now) (fun _ => Done).

Definition poll_command (canaryID : bytes) (allowed : option (CommandKind -> bool)) (now : Z) : go :=
  statements (on_table commands set_commands (ClaimNextCanaryCommandOfKinds canaryID allowed now)) (fun _ => Done).

(** A restart of the process: what is in memory is lost. *)
Definition restart (w : birdcage) : birdcage :=
  mkBirdcage (db w) false ∅ newAuditCoalescer (published w) (responses w) (seen w).

Inductive server_request : Type :=
| ReqBatch (canaryID : bytes) (body : batch_body)
| ReqMintSelfTest (canaryID address : bytes) (ts : list (bytes * Z)) (createdAt expiresAt : Z)
    (runID rid : option bytes) (fresh : list (option bytes))
| ReqSeen (canaryID address : bytes)
| ReqSweep (now : Z)
| ReqPoll (canaryID : bytes) (allowed : option (CommandKind -> bool)) (now : Z)
| ReqRestart.

Definition handle (rq : server_request) : go :=
  match rq with
  | ReqBatch canaryID body => handleBatch canaryID body
  | ReqMintSelfTest c a ts t e runID rid fresh => MintSelfTestCommand c a ts t e runID rid fresh
  | ReqSeen c a => SetCanaryLastSeenAddr c a
  | ReqSweep now => SweepExpiredSelfTestRuns now
  | ReqPoll c allowed now => poll_command c allowed now
  | ReqRestart => Act (effect restart) (fun _ => Done)
  end.
End ingest.
