(* ===== verification/Verdicts.v ===== *)
(** What ingestion guarantees however its requests interleave: which alerts
    are marked synthetic, what an acknowledgement promises, and when a
    self-test's verdict is given.

    The invariant of the database ([db_inv]) and the order of its states
    ([db_le]) are kept by every statement; those of the process
    ([bird_inv], [bird_le]) by every operation of [Ingest]. *)
From S2P Require Import Prelude GoBase GoStrings Sql Upgrade Commands Process Server Events Watch SelfTest AuditLog Ingest.
#[local] Open Scope Z_scope.

(** ** The order of states *)

Record run_le (r r' : run_row) : Prop := {
  rul_ids : run_command r' = run_command r /\ run_agent r' = run_agent r /\ run_id r' = run_id r;
  rul_times : run_issued r' = run_issued r /\ run_deadline r' = run_deadline r;
  rul_completed : run_completed r ≠ None -> r' = r;
}.

#[export] Instance run_le_preorder : PreOrder run_le.
Proof.
  split; [intros r; by split|]. intros a b c [(H1 & H2 & H3) [H4 H5] H6] [(K1 & K2 & K3) [K4 K5] K6].
  split; try (intuition congruence).
Qed.

Record target_le (t t' : target_row) : Prop := {
  tl_key : target_key t' = target_key t;
  tl_hash : tr_hash t' = tr_hash t /\ tr_grade t' = tr_grade t;
  tl_matched : tr_matched t ≠ None -> t' = t;
}.

#[export] Instance target_le_preorder : PreOrder target_le.
Proof.
  split; [intros t; by split|]. intros a b c [H1 [H2 H3] H4] [K1 [K2 K3] K4]. split; try (intuition congruence).
Qed.

Abbreviation has_run d c := (c ∈ run_command <$> runs d).

(** The targets of a run are all there from the start. *)
Definition targets_le (d d' : store_db) : Prop :=
  exists t1 t2, targets d' = t1 ++ t2 /\ Forall2 target_le (targets d) t1 /\
    Forall (fun t => ~ has_run d (tr_command t)) t2.

Record db_le (d d' : store_db) : Prop := {
  dl_commands : cmd_le (commands d) (commands d');
  dl_runs : table_le run_le (runs d) (runs d');
  dl_targets : targets_le d d';
  dl_alerts : alerts d `prefix_of` alerts d';
}.

Lemma has_run_mono d d' c : table_le run_le (runs d) (runs d') -> has_run d c -> has_run d' c.
Proof.
  intros Hle (r & -> & Hr)%list_elem_of_fmap. destruct (table_le_in run_le _ _ _ Hle Hr) as (r' & Hr' & [[Hc _] _ _]).
  apply list_elem_of_fmap. exists r'. by rewrite Hc.
Qed.

#[export] Instance db_le_preorder : PreOrder db_le.
Proof.
  split.
  - intros d. split; try reflexivity. exists (targets d), []. rewrite app_nil_r. split_and!; [done|reflexivity|done].
  - intros a b c [H1 H2 (t1 & t2 & E1 & F1 & N1) H4] [K1 K2 (u1 & u2 & E2 & F2 & N2) K4].
    split; [by etrans|by etrans| |by etrans].
    rewrite E1 in F2. apply Forall2_app_inv_l in F2 as (v1 & v2 & F3 & F4 & ->).
    exists v1, (v2 ++ u2). split; [by rewrite app_assoc|]. split; [by etrans|]. apply Forall_app. split.
    + clear -F4 N1. induction F4 as [|x y xs ys [Hk _ _] _ IH]; [done|]. apply Forall_cons in N1 as [Hx N1].
      constructor; [|by apply IH]. injection Hk as Hc _ _. by rewrite Hc.
    + eapply Forall_impl; [exact N2|]. intros t Ht Hc. apply Ht. by eapply has_run_mono.
Qed.

(** A target of a run there was before. *)
Lemma targets_le_back d d' t' : targets_le d d' -> t' ∈ targets d' -> has_run d (tr_command t') ->
  exists t, t ∈ targets d /\ target_le t t'.
Proof.
  intros (t1 & t2 & -> & Hf & Hn) [Ht|Ht]%elem_of_app Hrun.
  - apply list_elem_of_lookup in Ht as [i Hi]. destruct (Forall2_lookup_r _ _ _ _ _ Hf Hi) as (t & Hi' & Hle).
    exists t. split; [|done]. by eapply list_elem_of_lookup_2.
  - rewrite Forall_forall in Hn. by destruct (Hn _ Ht).
Qed.

Definition bird_le (w w' : birdcage) : Prop :=
  db_le (db w) (db w') /\ seen w `prefix_of` seen w' /\ responses w `prefix_of` responses w'.

#[export] Instance bird_le_preorder : PreOrder bird_le.
Proof.
  split; [intros w; split_and!; reflexivity|]. intros a b c (H1 & H2 & H3) (K1 & K2 & K3). split_and!; by etrans.
Qed.

(** ** The invariant *)

Section invariant.
Context {stdlib : Stdlib} {codec : Codec} {engine : Engine}.

(** The parameters of a command's row. *)
Definition carries (r : command_row) (p : Params) : Prop :=
  exists raw, r_params r = Some raw /\ (raw = marshal_params p \/ DecodeParams raw = Ok p).

(** A self-test command of the canary plants the marker at the service, until
    it expires. *)
Definition planted (d : store_db) (canaryID marker service : bytes) (expires : Z) : Prop :=
  exists r p t, r ∈ commands d /\ r_kind r = CommandSelfTest /\ r_agent r = canaryID /\ r_expires r = expires /\
    carries r p /\ t ∈ pTargets p /\ tMarker t = marker /\ tService t = service.

(** An event that shows a marker: in its own text, by answering the VNC
    challenge with it, or, where the service's grade allows no more, by coming
    from an address the canary was seen at. *)
Definition shows (sn : list (bytes * bytes)) (a : AlertInsert) (marker service : bytes) : Prop :=
  Contains (Raw a) marker = true \/
  (Service a = lit "vnc" /\ exists c r, parseVNCChallenge (Raw a) = Some (c, r) /\ verifyVNCChallenge marker c r = true) \/
  (gradeForService service = GradeAttributed /\ service = Service a /\ (InstanceID a, SourceIP a) ∈ sn).

Definition synthetic_ok (d : store_db) (sn : list (bytes * bytes)) (a : AlertInsert) : Prop :=
  exists marker service expires,
    planted d (InstanceID a) marker service expires /\ ReceivedAt a < expires /\ shows sn a marker service.

(** No target of the command waits for its marker. *)
Definition all_matched (d : store_db) (command : bytes) : Prop :=
  forall t, t ∈ targets d -> tr_command t = command -> tr_matched t ≠ None.

Definition verdict_ok (d : store_db) (r : run_row) : Prop :=
  match run_completed r, run_passed r with
  | None, None => True
  | Some _, Some true => all_matched d (run_command r)
  | Some t, Some false => run_deadline r - t < resolution
  | _, _ => False
  end.

(** A target is matched by its own marker only, while it lived. *)
Definition matched_ok (d : store_db) (t : target_row) : Prop :=
  forall now, tr_matched t = Some now ->
    exists canaryID marker service expires,
      planted d canaryID marker service expires /\ marker_hash marker = tr_hash t /\ now < expires.

Record db_inv (d : store_db) (sn : list (bytes * bytes)) : Prop := {
  di_commands : cmd_inv (commands d);
  di_alerts : forall row, row ∈ alerts d -> Synthetic (al_alert row) = true -> synthetic_ok d sn (al_alert row);
  di_keys : NoDup (omap alert_key (alerts d));
  di_agents : forall a x, a ∈ agents d -> a_addr a = Some x -> (a_id a, x) ∈ sn;
  di_runs : NoDup (run_command <$> runs d);
  di_verdicts : forall r, r ∈ runs d -> verdict_ok d r;
  di_targets : forall t, t ∈ targets d -> has_run d (tr_command t);
  di_matched : forall t, t ∈ targets d -> matched_ok d t;
}.

(** What a response says holds of the database. *)
Definition kept (d : store_db) (canaryID : bytes) (ev : ingestEvent) : Prop :=
  IsBase (event_service ev) = true \/ IsSelfTestResult (event_service ev) = true \/
  exists row, row ∈ alerts d /\ alert_key row = Some (canaryID, ieEventID ev).

Definition ack_ok (ParseAddr : bytes -> bool) (d : store_db) (canaryID : bytes) (evs : list ingestEvent)
    (stored : list bytes) (rejected : gmap bytes bytes) : Prop :=
  (forall id, id ∈ stored ->
     exists ev, ev ∈ evs /\ ieEventID ev = id /\ validateEvent ParseAddr ev = None /\ kept d canaryID ev) /\
  (forall id reason, rejected !! id = Some reason ->
     exists ev, ev ∈ evs /\ ieEventID ev = id /\ validateEvent ParseAddr ev = Some reason).

Definition response_ok (ParseAddr : bytes -> bool) (d : store_db) (x : bytes * list ingestEvent * response) : Prop :=
  match x with
  | (canaryID, evs, RespAck stored rejected) => ack_ok ParseAddr d canaryID evs stored rejected
  | (_, evs, RespError 503) => evs ≠ [] /\ Forall (fun ev => validateEvent ParseAddr ev = None) evs
  | _ => True
  end.

Definition index_ok (d : store_db) (i : byCanary) : Prop :=
  forall c m info, default ∅ (i !! c) !! m = Some info -> planted d c m (miService info) (miExpires info).

Record bird_inv (ParseAddr : bytes -> bool) (w : birdcage) : Prop := {
  bi_db : db_inv (db w) (seen w);
  bi_idx : index_ok (db w) (idx w);
  bi_responses : Forall (response_ok ParseAddr (db w)) (responses w);
}.

(** *** What lasts *)

Lemma planted_mono d d' c m s e : cmd_le (commands d) (commands d') -> planted d c m s e -> planted d' c m s e.
Proof.
  intros Hle (r & p & t & Hr & Hk & Ha & He & (raw & Hraw & Hp) & Ht & Hm & Hs).
  destruct (table_le_in row_le _ _ _ Hle Hr) as (r' & Hr' & [_ Ha' [Hk' Hp'] [_ He'] _]).
  exists r', p, t. split_and!; try done; try congruence. exists raw. by rewrite Hp'.
Qed.

Lemma shows_mono sn sn' a m s : sn `prefix_of` sn' -> shows sn a m s -> shows sn' a m s.
Proof.
  intros [l ->] [?|[?|(? & ? & ?)]]; [by left|by right; left|]. right. right. split_and!; [done..|].
  apply elem_of_app. by left.
Qed.

Lemma synthetic_mono d d' sn sn' a :
  cmd_le (commands d) (commands d') -> sn `prefix_of` sn' -> synthetic_ok d sn a -> synthetic_ok d' sn' a.
Proof.
  intros Hle Hsn (m & s & e & Hp & Hlt & Hsh). exists m, s, e.
  split; [by eapply planted_mono|]. split; [done|]. by eapply shows_mono.
Qed.

Lemma matched_mono d d' t : cmd_le (commands d) (commands d') -> matched_ok d t -> matched_ok d' t.
Proof.
  intros Hle Hm now Hn. destruct (Hm now Hn) as (c & m & s & e & Hp & ?). exists c, m, s, e.
  split; [by eapply planted_mono|done].
Qed.

Lemma prefix_in {A} (l l' : list A) x : l `prefix_of` l' -> x ∈ l -> x ∈ l'.
Proof. intros [k ->] Hx. apply elem_of_app. by left. Qed.

Lemma kept_mono d d' c ev : alerts d `prefix_of` alerts d' -> kept d c ev -> kept d' c ev.
Proof.
  intros Hle [?|[?|(row & Hr & Hk)]]; [by left|by right; left|]. right. right. exists row.
  split; [by eapply prefix_in|done].
Qed.

Lemma ack_mono PA d d' c evs st rj : alerts d `prefix_of` alerts d' -> ack_ok PA d c evs st rj -> ack_ok PA d' c evs st rj.
Proof.
  intros Hle [H1 H2]. split; [|done]. intros id Hid. destruct (H1 id Hid) as (ev & ? & ? & ? & Hk).
  exists ev. split_and!; [done..|]. by eapply kept_mono.
Qed.

Lemma response_mono PA d d' x : alerts d `prefix_of` alerts d' -> response_ok PA d x -> response_ok PA d' x.
Proof. intros Hle. destruct x as [[c evs] [s|st rj]]; simpl; [done|]. by apply ack_mono. Qed.

Lemma index_mono d d' i : cmd_le (commands d) (commands d') -> index_ok d i -> index_ok d' i.
Proof. intros Hle Hi c m info Hm. eapply planted_mono; [done|]. by apply Hi. Qed.

(** Once all matched, and its run there, a command stays so. *)
Lemma all_matched_mono d d' c : db_le d d' -> has_run d c -> all_matched d c -> all_matched d' c.
Proof.
  intros Hle Hrun Hm t' Ht' <-. destruct (targets_le_back d d' t' (dl_targets _ _ Hle) Ht' Hrun) as (t & Ht & [Hk _ Heq]).
  injection Hk as Hc _ _. rewrite Heq; by apply Hm.
Qed.

Lemma verdict_mono d d' r : db_le d d' -> r ∈ runs d -> verdict_ok d r -> verdict_ok d' r.
Proof.
  intros Hle Hr. unfold verdict_ok. destruct (run_completed r), (run_passed r) as [[]|]; try done.
  apply all_matched_mono; [done|]. apply list_elem_of_fmap. by exists r.
Qed.
End invariant.

(** ** Statements *)

Section statements.
Context {stdlib : Stdlib} {codec : Codec} {engine : Engine}.
Implicit Types (d : store_db) (sn : list (bytes * bytes)).

(** A statement that keeps the invariant, within the order. *)
Definition keeps d sn (d' : store_db) : Prop := db_inv d' sn /\ db_le d d'.

Lemma insert_audit_keeps e d sn : db_inv d sn ->
  keeps d sn (mkStore (commands d) (runs d) (targets d) (agents d) (alerts d) (audits d ++ [in_seconds e])).
Proof.
  intros [H1 H2 H3 H4 H5 H6 H7 H8]. split; [by split|]. split; try done.
  exists (targets d), []. rewrite app_nil_r. split_and!; [done|reflexivity|done].
Qed.

Lemma agents_keep f d sn sn' :
  db_inv d sn -> sn `prefix_of` sn' ->
  (forall a x, a ∈ agents d -> a_addr (f a) = Some x -> (a_id (f a), x) ∈ sn') ->
  db_inv (set_agents (f <$> agents d) d) sn' /\ db_le d (set_agents (f <$> agents d) d).
Proof.
  intros [H1 H2 H3 H4 H5 H6 H7 H8] Hsn Hf. split.
  - split; simpl; try done.
    + intros row Hr Hs. eapply (synthetic_mono d); [reflexivity|exact Hsn|by apply H2].
    + intros a' x (a & -> & Ha)%list_elem_of_fmap. by apply Hf.
  - split; simpl; try done. exists (targets d), []. rewrite app_nil_r. split_and!; [done|reflexivity|done].
Qed.

Lemma register_keeps c at_ d sn d' u :
  db_inv d sn -> register_agent c at_ d = Some (d', u) -> keeps d sn d'.
Proof.
  intros HI [= <- _]. apply (agents_keep _ d sn sn); [done|done|]. intros a x Ha.
  destruct (_ && _)%bool; simpl; by apply (di_agents d sn HI).
Qed.

Lemma update_addr_keeps c address d sn d' n :
  db_inv d sn -> update_addr c address d = Some (d', n) -> db_inv d' (sn ++ [(c, address)]) /\ db_le d d'.
Proof.
  intros HI [= <- _]. apply (agents_keep _ d sn); [done|by apply prefix_app_r|]. intros a x Ha.
  case_bool_decide as Hc; simpl; intros Hx; apply elem_of_app.
  - right. injection Hx as <-. subst c. by left.
  - left. by apply (di_agents d sn HI).
Qed.

(** The commands of the queue are only added to and delivered. *)
Lemma commands_keep c d sn :
  db_inv d sn -> cmd_inv c -> cmd_le (commands d) c -> keeps d sn (set_commands c d).
Proof.
  intros [H1 H2 H3 H4 H5 H6 H7 H8] Hc Hle. split.
  - split; simpl; try done.
    + intros row Hr Hs. eapply (synthetic_mono d); [done|reflexivity|by apply H2].
    + intros t Ht. apply (matched_mono d); [done|by apply H8].
  - split; simpl; try done. exists (targets d), []. rewrite app_nil_r. split_and!; [done|reflexivity|done].
Qed.

Lemma insert_alert_keeps a d sn d' new :
  db_inv d sn -> InsertAlertIfNew a d = Some (d', new) -> (Synthetic a = true -> synthetic_ok d sn a) ->
  keeps d sn d' /\ exists row, row ∈ alerts d' /\
    alert_key row = (if bool_decide (EventID a = []) then None else Some (InstanceID a, EventID a)).
Proof.
  intros HI. unfold InsertAlertIfNew. set (row := mkAlertRow a _).
  assert (alert_key row = if bool_decide (EventID a = []) then None else Some (InstanceID a, EventID a)) as Hkey.
  { unfold alert_key, row. simpl. by case_bool_decide. }
  destruct (_ && _)%bool eqn:E; intros [= <- <-] Ha.
  { split; [split; [done|reflexivity]|]. apply andb_true_iff in E as [_ E].
    apply existsb_exists in E as (r & Hr & Hk). apply bool_decide_eq_true in Hk.
    exists r. split; [by apply list_elem_of_In|by rewrite Hk, Hkey]. }
  destruct HI as [H1 H2 H3 H4 H5 H6 H7 H8]. split.
  - split.
    + split; simpl; try done.
      * intros r [Hr|Hr%list_elem_of_singleton]%elem_of_app Hs; [by apply H2|]. subst r. by apply Ha.
      * rewrite omap_app. apply NoDup_app. split; [done|]. simpl.
        destruct (alert_key row) as [k|] eqn:Ek; simpl; [|split; [by intros x _ ?%not_elem_of_nil|constructor]].
        split; [|apply NoDup_singleton]. intros x Hx ->%list_elem_of_singleton.
        apply list_elem_of_omap in Hx as (r & Hr & Hk). apply andb_false_iff in E as [E|E].
        { apply bool_decide_eq_false in E. by destruct E. }
        assert (existsb (fun r => bool_decide (alert_key r = Some k)) (alerts d) = true); [|congruence].
        apply existsb_exists. exists r. split; [by apply list_elem_of_In|]. by apply bool_decide_eq_true.
    + split; simpl; try done; [|by apply prefix_app_r]. exists (targets d), []. rewrite app_nil_r.
      split_and!; [done|reflexivity|done].
  - exists row. split; [apply elem_of_app; right; by apply list_elem_of_singleton|done].
Qed.

(** A marker shows, and the targets of its hash are matched. *)
Lemma update_matched_keeps hash now d sn d' n :
  db_inv d sn -> update_matched hash now d = Some (d', n) ->
  (exists c m s e, planted d c m s e /\ marker_hash m = hash /\ now < e) -> keeps d sn d'.
Proof.
  intros [H1 H2 H3 H4 H5 H6 H7 H8] [= <- _] Hm. set (f := fun t => _).
  assert (forall t, target_le t (f t)) as Hf.
  { intros t. unfold f, unmatched_hash. destruct (_ && _)%bool eqn:E; [|reflexivity]. go_bools. by split. }
  assert (db_le d (set_targets (f <$> targets d) d)) as Hle.
  { split; simpl; try done. exists (f <$> targets d), []. rewrite app_nil_r. split; [done|]. split; [|done].
    apply Forall2_fmap_r, Forall_Forall2_diag, Forall_forall. intros t _. apply Hf. }
  split; [|done]. split; simpl; try done.
  - intros r Hr. apply (verdict_mono d); [done|done|by apply H6].
  - intros t' (t & -> & Ht)%list_elem_of_fmap. destruct (Hf t) as [Hk _ _]. injection Hk as Hc _ _.
    rewrite Hc. by apply H7.
  - intros t' (t & -> & Ht)%list_elem_of_fmap. unfold f, unmatched_hash. destruct (_ && _)%bool eqn:E; [|by apply H8].
    go_bools. intros x [= <-]. destruct Hm as (c & m & s & e & Hp & Hh & Hlt).
    exists c, m, s, e. split; [exact Hp|]. split; [simpl; congruence|done].
Qed.

(** A verdict is given to runs without one. *)
Lemma complete_keeps (sel : run_row -> bool) now passed d sn :
  db_inv d sn -> (forall r, sel r = true -> run_completed r = None) ->
  (forall r, sel r = true -> if passed : bool then all_matched d (run_command r) else run_deadline r - now < resolution) ->
  keeps d sn (set_runs ((fun r => if sel r then complete_run now passed r else r) <$> runs d) d).
Proof.
  intros [H1 H2 H3 H4 H5 H6 H7 H8] Hsel Hv. set (f := fun r => _).
  assert (run_command <$> (f <$> runs d) = run_command <$> runs d) as Hc.
  { apply table_column_map. intros r _. unfold f. by destruct (sel r). }
  assert (table_le run_le (runs d) (f <$> runs d)) as Hle.
  { apply table_le_map. intros r _. unfold f. destruct (sel r) eqn:E; [|reflexivity].
    specialize (Hsel r E). by split. }
  split; [|split; simpl; try done].
  - split; simpl; try done; [by rewrite Hc| |by rewrite Hc].
    intros r' (r & -> & Hr)%list_elem_of_fmap. unfold f. destruct (sel r) eqn:E; [|by apply H6].
    specialize (Hv r E). unfold verdict_ok. simpl. by destruct passed.
  - exists (targets d), []. rewrite app_nil_r. split_and!; [done|reflexivity|done].
Qed.

Lemma update_passed_keeps c now d sn d' u :
  db_inv d sn -> update_passed c now d = Some (d', u) -> all_matched d c -> keeps d sn d'.
Proof.
  intros HI [= <- _] Hm.
  apply (complete_keeps (fun r => bool_decide (run_command r = c) && bool_decide (run_completed r = None))); [done| |];
    intros r E; cbn beta in E; go_bools; by subst.
Qed.

Lemma sweep_keeps now d sn d' n : db_inv d sn -> sweep_expired now d = Some (d', n) -> keeps d sn d'.
Proof.
  intros HI [= <- _]. apply complete_keeps; [done| |]; intros r E; unfold expired in E; go_bools; [done|by apply instant_le].
Qed.
(** *** Minting *)

Definition target_of (command : bytes) (t : Target) : target_row :=
  mkTargetRow command (tService t) (tDestPort t) (marker_hash (tMarker t)) (gradeForService (tService t)) None.

Lemma insert_targets_exec command cmd ts : forall d d' x,
  exec (insert_targets command ts (Ret (Ok cmd))) d = (d', Ok x) ->
  x = cmd /\ d' = set_targets (targets d ++ (target_of command <$> ts)) d.
Proof.
  induction ts as [|t ts IH]; intros d d' x; simpl.
  - intros [= <- <-]. split; [done|]. rewrite app_nil_r. by destruct d.
  - destruct (insert_target _ d) as [[d1 u]|] eqn:E; [|done]. intros Hx. apply IH in Hx as [-> ->].
    unfold insert_target in E. destruct (existsb _ _); [done|]. injection E as <- _. split; [done|].
    simpl. by rewrite <- app_assoc.
Qed.

Lemma mint_command c p t e rid db db' cmd :
  cmd_inv db -> exec (MintCanaryCommand c CommandSelfTest (marshal_params p) t e rid) db = (db', Ok cmd) ->
  cmd_inv db' /\ cmd_le db db' /\ exists r, r ∈ db' /\ r_agent r = c /\ r_kind r = CommandSelfTest /\
    r_expires r = ExpiresAt cmd /\ r_params r = Some (marshal_params p).
Proof.
  intros HI Hx.
  destruct (valid_exec cmd_inv cmd_le _ _ [] db HI (mint_valid c CommandSelfTest (marshal_params p) t e rid db))
    as (H1 & H2 & o & Ho & Hle); [by intros s ?%not_elem_of_nil|]. rewrite Hx in *. simpl in *.
  split; [done|]. split; [done|]. destruct Ho as (s & r & Hs & Hr & _ & -> & Heq). simpl in Heq.
  destruct (table_le_in row_le _ _ _ (Hle s Hs) Hr) as (r' & Hr' & [_ Ha [Hk Hp] [_ He] _]).
  injection Heq as Ha' Hk' Hp' _ He' _. exists r'. simpl. split; [done|]. split_and!; try congruence.
  rewrite Hp. destruct (r_params r) as [q|]; simpl in Hp'; [congruence|]. by destruct (marshal_nonempty p).
Qed.

Lemma mint_keeps c p t e rid d sn d' cmd :
  db_inv d sn -> exec (mint_selftest c p t e rid) d = (d', Ok cmd) ->
  keeps d sn d' /\ forall tg, tg ∈ pTargets p -> planted d' c (tMarker tg) (tService tg) (ExpiresAt cmd).
Proof.
  intros HI. unfold mint_selftest. rewrite exec_pbind, exec_on_table by (by intros []).
  destruct (exec (MintCanaryCommand _ _ _ _ _ _) (commands d)) as [cs [x|err]] eqn:E; [|done].
  cbn [fst snd exec]. destruct (mint_command _ _ _ _ _ _ _ _ (di_commands _ _ HI) E) as (Hc & Hle & r & Hr & Ha & Hk & He & Hp).
  destruct (insert_run _ _) as [[d1 u]|] eqn:Er; [|done]. intros Hx. apply insert_targets_exec in Hx as [-> ->].
  unfold insert_run in Er. destruct (existsb _ _) eqn:Ex; [done|]. injection Er as <- _. set (rn := mkRun _ _ _ _ _ _ _).
  simpl in *. assert (~ has_run d (ID x)) as Hnew.
  { intros (y & Hy & Hin)%list_elem_of_fmap. rewrite <- not_true_iff_false, existsb_exists in Ex. apply Ex.
    exists y. split; [by apply list_elem_of_In|by apply bool_decide_eq_true]. }
  destruct (commands_keep cs d sn HI Hc Hle) as [[H1 H2 H3 H4 H5 H6 H7 H8] _].
  assert (forall tg, tg ∈ pTargets p ->
            planted (mkStore cs (runs d ++ [rn]) (targets d ++ (target_of (ID x) <$> pTargets p)) (agents d) (alerts d) (audits d))
              c (tMarker tg) (tService tg) (ExpiresAt x)) as Hpl.
  { intros tg Htg. exists r, p, tg. split_and!; try done. exists (marshal_params p). split; [done|by left]. }
  assert (db_le d (mkStore cs (runs d ++ [rn]) (targets d ++ (target_of (ID x) <$> pTargets p)) (agents d) (alerts d)
                     (audits d))) as Hd.
  { split; simpl; try done; [apply (table_le_insert run_le)|]. exists (targets d), (target_of (ID x) <$> pTargets p).
    split_and!; [done|reflexivity|]. apply Forall_fmap, Forall_forall. by intros tg _. }
  split; [split; [split|]|]; simpl; try done.
  - rewrite fmap_app. apply NoDup_app. split; [done|]. split; [|apply NoDup_singleton].
    intros y Hy ->%list_elem_of_singleton. by apply Hnew.
  - intros y [Hy| ->%list_elem_of_singleton]%elem_of_app; [|done].
    apply (verdict_mono d); [done|done|]. by apply (di_verdicts _ _ HI).
  - intros tg [Htg|(t' & -> & Ht')%list_elem_of_fmap]%elem_of_app; rewrite fmap_app; apply elem_of_app.
    + left. by apply H7.
    + right. by apply list_elem_of_singleton.
  - intros tg [Htg|(t' & -> & Ht')%list_elem_of_fmap]%elem_of_app; [by apply H8|]. by intros now ?.
Qed.
End statements.

(** ** The index *)

Section index.
Context {stdlib : Stdlib} {codec : Codec} {engine : Engine}.
Implicit Types (d : store_db) (i : byCanary).

Lemma scan_markers_spec now fits keys : forall m found found' m',
  scan_markers now fits keys m found = (found', m') ->
  m' ⊆ m /\ forall k, found' = Some k ->
    found = Some k \/ exists info, m !! k = Some info /\ now < miExpires info /\ fits k = true.
Proof.
  induction keys as [|k keys IH]; simpl; intros m found found' m'; [intros [= <- <-]; auto|].
  destruct (m !! k) as [info|] eqn:Hk; [|by apply IH]. destruct (now <? miExpires info) eqn:E; simpl; intros Hs.
  - destruct (IH _ _ _ _ Hs) as [Hm Hf]. split; [done|]. intros x Hx.
    destruct (Hf x Hx) as [Hy|?]; [|by right]. destruct (fits k) eqn:Ek; [|by left]. injection Hy as <-.
    right. exists info. go_bools. done.
  - destruct (IH _ _ _ _ Hs) as [Hm Hf]. split; [etrans; [exact Hm|apply delete_subseteq]|]. intros x Hx.
    destruct (Hf x Hx) as [?|(y & Hy & ?)]; [by left|]. right. exists y.
    split; [|done]. by apply lookup_delete_Some in Hy as [_ Hy].
Qed.

Lemma put_markers_ok d c m i :
  index_ok d i -> (forall k info, m !! k = Some info -> planted d c k (miService info) (miExpires info)) ->
  index_ok d (put_markers c m i).
Proof.
  intros Hi Hm c' k info. unfold put_markers. destruct (decide (c' = c)) as [->|Hne].
  - case_bool_decide as E; [by rewrite lookup_delete_eq|]. rewrite lookup_insert_eq. apply Hm.
  - case_bool_decide; [rewrite lookup_delete_ne by done|rewrite lookup_insert_ne by done]; apply Hi.
Qed.

Lemma match_markers_ok d c now fits order i :
  index_ok d i ->
  index_ok d (match_markers c now fits order i).2 /\
  forall m, (match_markers c now fits order i).1 = Some m ->
    exists s e, planted d c m s e /\ now < e /\ fits m = true.
Proof.
  intros Hi. unfold match_markers. destruct (scan_markers _ _ _ _ _) as [found m'] eqn:E. simpl.
  apply scan_markers_spec in E as [Hsub Hf]. split.
  - apply put_markers_ok; [done|]. intros k info Hk. apply Hi. by eapply lookup_weaken.
  - intros m Hm. destruct (Hf m Hm) as [?|(info & Hin & ?)]; [done|]. eauto.
Qed.

Lemma matchVNC_ok d c raw now order i :
  index_ok d i ->
  index_ok d (matchVNCChallenge c raw now order i).2 /\
  forall m, (matchVNCChallenge c raw now order i).1 = Some m ->
    exists s e ch r, planted d c m s e /\ now < e /\ parseVNCChallenge raw = Some (ch, r) /\
      verifyVNCChallenge m ch r = true.
Proof.
  intros Hi. unfold matchVNCChallenge. destruct (parseVNCChallenge raw) as [[ch r]|]; [|done].
  destruct (match_markers_ok d c now (fun m => verifyVNCChallenge m ch r) order i Hi) as [H1 H2].
  split; [done|]. intros m Hm. destruct (H2 m Hm) as (s & e & ? & ? & ?). by exists s, e, ch, r.
Qed.

Lemma lookupMarker_ok d c m now i :
  index_ok d i ->
  index_ok d (lookupMarker c m now i).2 /\
  forall info, (lookupMarker c m now i).1 = Some info -> planted d c m (miService info) (miExpires info) /\ now < miExpires info.
Proof.
  intros Hi. unfold lookupMarker. destruct (_ !! m) as [info|] eqn:E; [|done].
  destruct (now <? miExpires info) eqn:El; simpl.
  - split; [done|]. intros x [= <-]. go_bools. split; [by apply Hi|done].
  - split; [|done]. apply put_markers_ok; [done|]. intros k x Hk. apply Hi.
    by apply lookup_delete_Some in Hk as [_ Hk].
Qed.

Lemma tryClaim_ok d c m id i : index_ok d i -> index_ok d (tryClaim c m id i).2.
Proof.
  intros Hi. unfold tryClaim. destruct (_ !! m) as [info|] eqn:E; [|done].
  destruct (_ && _)%bool; [done|]. simpl. intros c' k x. destruct (decide (c' = c)) as [->|Hne].
  - rewrite lookup_insert_eq. simpl. destruct (decide (k = m)) as [->|Hk].
    + rewrite lookup_insert_eq. intros [= <-]. simpl. by apply Hi.
    + rewrite lookup_insert_ne by done. apply Hi.
  - rewrite lookup_insert_ne by done. apply Hi.
Qed.

Lemma addLocked_ok d c ts e i :
  index_ok d i -> (forall t, t ∈ ts -> planted d c (tMarker t) (tService t) e) -> index_ok d (addLocked c ts e i).
Proof.
  intros Hi Hts. unfold addLocked. set (m := default ∅ (i !! c)).
  assert (forall k info, m !! k = Some info -> planted d c k (miService info) (miExpires info)) as Hm by (apply Hi).
  clearbody m.
  assert (forall k info, foldl (fun m t => <[tMarker t := mkInfo e (tService t) []]> m) m ts !! k = Some info ->
            planted d c k (miService info) (miExpires info)) as Hf.
  { revert m Hm. induction ts as [|t ts IH]; intros m Hm; [done|]. simpl. apply IH; [intros; apply Hts; by right|].
    intros k info. destruct (decide (k = tMarker t)) as [->|Hne].
    - rewrite lookup_insert_eq. intros [= <-]. simpl. apply Hts. by left.
    - rewrite lookup_insert_ne by done. apply Hm. }
  intros c' k info. destruct (decide (c' = c)) as [->|Hne].
  - rewrite lookup_insert_eq. apply Hf.
  - rewrite lookup_insert_ne by done. apply Hi.
Qed.

Lemma load_ok now d i :
  index_ok d i -> index_ok d (foldl (load_row now) i (select_selftests d)).
Proof.
  intros Hi. unfold select_selftests.
  assert (forall r, r ∈ filter (fun r => r_kind r = CommandSelfTest) (commands d) -> r ∈ commands d /\ r_kind r = CommandSelfTest) as Hr.
  { intros r Hr. by apply list_elem_of_filter in Hr as [? ?]. }
  revert i Hi Hr. induction (filter _ (commands d)) as [|r rs IH]; intros i Hi Hr; [done|]. simpl.
  apply IH; [|intros; apply Hr; by right]. destruct (Hr r ltac:(left)) as [Hin Hk]. unfold load_row.
  destruct (r_params r) as [raw|] eqn:Hp; [|done]. destruct (negb _); [done|].
  destruct (DecodeParams raw) as [p|] eqn:Hd; [|done]. apply addLocked_ok; [done|]. intros t Ht.
  exists r, p, t. split_and!; try done. exists raw. split; [done|by right].
Qed.
End index.

(** ** The handlers *)

Section handlers.
Context {stdlib : Stdlib} {codec : Codec} {unicode : Unicode} {engine : Engine} (ParseAddr : bytes -> bool) (hub : bool).

Notation inv := (bird_inv ParseAddr).
Notation ok := (safe inv bird_le).

Notation always := (@always birdcage server_input inv bird_le).

(** An operation on the process's memory alone. *)
Lemma always_index {T} (f : byCanary -> T * byCanary) (P : birdcage -> T -> Prop) (k : T -> go) w :
  (forall d i, index_ok d i -> index_ok d (f i).2) ->
  (forall w1, bird_le w w1 -> inv w1 -> P w1 (f (idx w1)).1) ->
  (forall w1 x, bird_le w w1 -> P w1 x -> always (k x) w1) ->
  always (Act (fun w => let '(x, i) := f (idx w) in (x, set_idx i w)) k) w.
Proof.
  intros Hf HP Hk. apply (always_act inv bird_le). intros w1 HR HI.
  pose proof (Hf (db w1) (idx w1) (bi_idx _ _ HI)) as Hi. specialize (HP w1 HR HI).
  specialize (Hk w1 (f (idx w1)).1 HR HP). destruct (f (idx w1)) as [x i]. simpl in *.
  split; [|split; [by split_and!|]].
  - destruct HI as [H1 H2 H3]. by split.
  - by apply (always_le inv bird_le _ w1).
Qed.

Lemma always_coalescer {T} (f : auditCoalescer -> T * auditCoalescer) (k : T -> go) w :
  (forall x, always (k x) w) ->
  always (Act (fun w => let '(x, c) := f (coalescer w) in (x, set_coalescer c w)) k) w.
Proof.
  intros Hk. apply (always_act inv bird_le). intros w1 HR HI. destruct (f (coalescer w1)) as [x c]. simpl.
  split; [destruct HI as [H1 H2 H3]; by split|]. split; [by split_and!|]. by apply (always_le inv bird_le _ w).
Qed.

Lemma always_clock k w : (forall t, always (k t) w) -> always (clock k) w.
Proof. apply (clock_always inv bird_le). Qed.

Lemma always_order k w : (forall l, always (k l) w) -> always (with_order k) w.
Proof. apply (order_always inv bird_le). Qed.

Lemma bird_set_db d' w :
  inv w -> keeps (db w) (seen w) d' -> inv (set_db d' w) /\ bird_le w (set_db d' w).
Proof.
  intros [H1 H2 H3] [Hi Hle]. split; [split; simpl|split_and!; done].
  - done.
  - by eapply index_mono; [apply Hle|].
  - eapply Forall_impl; [exact H3|]. intros x. apply response_mono, Hle.
Qed.

Lemma always_stmt {T} (f : store_db -> option (store_db * T)) (k : option T -> go) w :
  (forall w1, bird_le w w1 -> inv w1 -> forall d' r, f (db w1) = Some (d', r) ->
     keeps (db w1) (seen w1) d' /\ (bird_le w (set_db d' w1) -> always (k (Some r)) (set_db d' w1))) ->
  always (k None) w -> always (stmt f k) w.
Proof.
  intros Hf Hk. apply (stmt_always db set_db inv bird_le); [|done]. intros w1 HR HI d' r E.
  destruct (Hf w1 HR HI d' r E) as [Hkeep Hal]. destruct (bird_set_db d' w1 HI Hkeep) as [HI' HR'].
  split; [done|]. split; [done|]. apply Hal. by etrans.
Qed.

Lemma always_write {T} (f : store_db -> option (store_db * T)) (k : option T -> go) w :
  (forall w1, bird_le w w1 -> inv w1 -> forall d' r, f (db w1) = Some (d', r) -> keeps (db w1) (seen w1) d') ->
  (forall r, always (k r) w) -> always (stmt f k) w.
Proof.
  intros Hf Hk. apply always_stmt; [|done]. intros w1 HR HI d' r Hx. split; [by eapply Hf|]. intros HR'.
  by apply (always_le inv bird_le _ w).
Qed.

Lemma always_query {T} (q : store_db -> T) (k : option T -> go) w :
  (forall w1, bird_le w w1 -> inv w1 -> always (k (Some (q (db w1)))) w1) -> always (k None) w ->
  always (stmt (query q) k) w.
Proof.
  intros Hq Hk. apply always_stmt; [|done]. intros w1 HR HI d' r [= <- <-].
  split; [split; [apply HI|reflexivity]|]. intros _. apply (always_le inv bird_le _ w1); [|by apply Hq].
  destruct w1. reflexivity.
Qed.

(** *** Audit entries *)

Lemma always_audit e k w : always k w -> always (audit_append e k) w.
Proof.
  intros Hk. unfold audit_append. destruct (negb _); [done|]. apply always_write; [|done].
  intros w1 _ HI d' r [= <- _]. apply insert_audit_keeps, HI.
Qed.

Lemma always_coalesced c action reason noun k w :
  always k w -> always (recordCoalesced c action reason noun k) w.
Proof.
  intros Hk. apply always_clock. intros t. apply (always_coalescer (fun c0 => coalesce_admit c0 c action t)).
  intros [write n]. destruct write; [|done]. simpl. by apply always_audit.
Qed.
(** *** Matching *)

Lemma always_settle c at_ k w : (forall b, always (k b) w) -> always (settlePendingForCommand c at_ k) w.
Proof.
  intros Hk. apply always_query; [|apply Hk]. intros w1 HR HI. destruct (select_run_agent c (db w1)); simpl;
    [|by apply (always_le inv bird_le _ w)]. apply always_write; [|intros r; by apply (always_le inv bird_le _ w)].
  intros w2 _ HI2 d' r Hx. eapply register_keeps; [apply HI2|exact Hx].
Qed.

(** A marker that was planted and lives. *)
Definition live (w : birdcage) (m : bytes) (now : Z) : Prop :=
  exists c s e, planted (db w) c m s e /\ now < e.

Lemma always_record m now k w : live w m now -> (forall b, always (k b) w) ->
  always (recordSelfTestMatch (marker_hash m) now k) w.
Proof.
  intros (c & s & e & Hp & Hlt) Hk. unfold recordSelfTestMatch. apply always_query; [|apply Hk].
  intros w1 HR1 HI1. destruct (select_unmatched _ (db w1)) as [cmd|] eqn:Es; [|by apply (always_le inv bird_le _ w)].
  assert (has_run (db w1) cmd) as Hrun1.
  { unfold select_unmatched in Es. destruct (head _) as [t|] eqn:Eh; [|done]. injection Es as <-.
    apply (di_targets _ _ (bi_db _ _ HI1)). apply head_Some_elem_of in Eh.
    by apply list_elem_of_filter in Eh as [_ ?]. }
  apply always_stmt; [|by apply (always_le inv bird_le _ w)]. intros w2 HR2 HI2 d' n Hu. split.
  { eapply update_matched_keeps; [apply HI2|exact Hu|]. exists c, m, s, e. split; [|done].
    eapply planted_mono; [|exact Hp]. apply (transitivity HR1 HR2). }
  intros HR2'. assert (bird_le w (set_db d' w2)) as HR3 by (by etrans). assert (forall b, always (k b) (set_db d' w2)) as Hk3
    by (intros b; by apply (always_le inv bird_le _ w)). destruct (n =? 0); [apply Hk3|].
  apply always_query; [|apply Hk3]. intros w4 HR4 HI4. assert (forall b, always (k b) w4) as Hk4
    by (intros b; by apply (always_le inv bird_le _ (set_db d' w2))).
  destruct (0 <? count_unmatched cmd (db w4)) eqn:Ec; [apply Hk4|].
  assert (all_matched (db w4) cmd) as Hall.
  { unfold count_unmatched, zlen in Ec. go_bools. intros t Ht Htc Hn.
    assert (t ∈ filter (fun t => tr_command t = cmd /\ tr_matched t = None) (targets (db w4))) as Hin
      by (by apply list_elem_of_filter). destruct (filter _ (targets (db w4))); [by apply not_elem_of_nil in Hin|].
    simpl in Ec. lia. }
  assert (has_run (db w4) cmd) as Hrun4.
  { eapply has_run_mono; [|exact Hrun1]. apply (transitivity HR2' HR4). }
  apply always_stmt; [|apply Hk4]. intros w5 HR5 HI5 d5 u Hx. split.
  - eapply update_passed_keeps; [apply HI5|exact Hx|]. eapply all_matched_mono; [apply HR5|done|done].
  - intros HR6. apply always_settle. intros b. by apply (always_le inv bird_le _ w4).
Qed.

Lemma always_loaded k w : (forall b, always (k b) w) -> always (ensureLoaded k) w.
Proof.
  intros Hk. apply always_clock. intros now. apply (always_ask inv bird_le). intros a. apply (always_act inv bird_le). intros w1 HR HI.
  generalize (match a with Answers => true | _ => false end). intros b. unfold load_index.
  destruct (loaded w1) eqn:El; [simpl; split_and!; [done|reflexivity|by apply (always_le inv bird_le _ w)]|].
  destruct b; simpl; [|split_and!; [done|reflexivity|by apply (always_le inv bird_le _ w)]].
  destruct HI as [H1 H2 H3]. split; [split; simpl; [done|by apply load_ok|done]|].
  split; [by split_and!|by apply (always_le inv bird_le _ w)].
Qed.
Lemma always_MatchSelfTest alert k w :
  (forall w1 r, bird_le w w1 -> (r = Some true -> synthetic_ok (db w1) (seen w1) alert) -> always (k r) w1) ->
  always (MatchSelfTest alert (ReceivedAt alert) k) w.
Proof.
  intros Hk. unfold MatchSelfTest. apply always_loaded. intros b. destruct b; [|by apply (Hk w)].
  assert (forall w1 m s e, bird_le w w1 -> planted (db w1) (InstanceID alert) m s e -> ReceivedAt alert < e ->
            shows (seen w1) alert m s ->
            always (recordSelfTestMatch (marker_hash m) (ReceivedAt alert) (fun ok => k (if ok : bool then Some true else None))) w1) as Hrec.
  { intros w1 m s e HR Hp Hlt Hs. apply always_record; [by exists (InstanceID alert), s, e|]. intros ok.
    apply Hk; [done|]. intros _. by exists m, s, e. }
  apply always_order. intros order.
  apply (always_index (idx_match (InstanceID alert) (Raw alert) (ReceivedAt alert) order) (fun w1 found =>
           forall m, found = Some m -> exists s e, planted (db w1) (InstanceID alert) m s e /\ ReceivedAt alert < e /\ Contains (Raw alert) m = true)).
  { intros d i Hi. by apply match_markers_ok. }
  { intros w1 _ HI. apply match_markers_ok, HI. }
  intros w1 [m|] HR Hm.
  { destruct (Hm m eq_refl) as (s & e & ? & ? & ?). eapply Hrec; [done..|]. by left. }
  case_bool_decide as Hv; [|by apply Hk]. apply always_order. intros order'.
  apply (always_index (matchVNCChallenge (InstanceID alert) (Raw alert) (ReceivedAt alert) order') (fun w1 found =>
           forall m, found = Some m -> exists s e ch r, planted (db w1) (InstanceID alert) m s e /\ ReceivedAt alert < e /\
             parseVNCChallenge (Raw alert) = Some (ch, r) /\ verifyVNCChallenge m ch r = true)).
  { intros d i Hi. by apply matchVNC_ok. }
  { intros w2 _ HI. apply matchVNC_ok, HI. }
  intros w2 [m|] HR2 Hm2; [|by apply Hk; [by etrans|]].
  destruct (Hm2 m eq_refl) as (s & e & ch & r & ? & ? & ? & ?). eapply Hrec; [by etrans|done|done|].
  right. left. eauto.
Qed.

Lemma always_claim alert m k w :
  (forall w1 r, bird_le w w1 -> (r = Some None -> synthetic_ok (db w1) (seen w1) alert) -> always (k r) w1) ->
  always (MatchSelfTestClaim alert m (ReceivedAt alert) k) w.
Proof.
  intros Hk. unfold MatchSelfTestClaim. apply always_loaded. intros b. destruct b; [|by apply (Hk w)].
  apply (always_index (lookupMarker (InstanceID alert) m (ReceivedAt alert)) (fun w1 found =>
           forall info, found = Some info -> planted (db w1) (InstanceID alert) m (miService info) (miExpires info) /\
             ReceivedAt alert < miExpires info)).
  { intros d i Hi. by apply lookupMarker_ok. }
  { intros w1 _ HI. apply lookupMarker_ok, HI. }
  intros w1 [info|] HR Hm; [|by apply Hk]. destruct (Hm info eq_refl) as [Hp Hlt].
  destruct (_ && _)%bool; [by apply Hk|]. case_bool_decide as Hg; [|by apply Hk]. case_bool_decide as Hs; [|by apply Hk].
  cbn [negb]. apply always_query; [|by apply Hk]. intros w2 HR2 HI2. assert (bird_le w w2) as HR2' by (by etrans).
  case_bool_decide as Ha; [|by apply Hk]. cbn [negb].
  assert (synthetic_ok (db w2) (seen w2) alert) as Hsyn.
  { exists m, (miService info), (miExpires info). split; [eapply planted_mono; [|exact Hp]; apply HR2|].
    split; [done|]. right. right. split_and!; [done|done|]. destruct (select_agent _ _) as [a|] eqn:Esel; [|done].
    simpl in Ha. unfold select_agent in Esel. apply head_Some_elem_of, list_elem_of_filter in Esel as [<- Hin].
    by apply (di_agents _ _ (bi_db _ _ HI2)). }
  apply always_record.
  { exists (InstanceID alert), (miService info), (miExpires info). split; [|done]. eapply planted_mono; [|exact Hp]. apply HR2. }
  intros ok. destruct ok; [|by apply Hk]. cbn [negb].
  apply (always_index (tryClaim (InstanceID alert) m (EventID alert)) (fun _ _ => True)); [|done|].
  { intros d i Hi. by apply tryClaim_ok. }
  intros w3 won HR3 _. destruct won; (apply Hk; [by etrans|]); [|done]. intros _.
  eapply synthetic_mono; [apply HR3|apply HR3|done].
Qed.
(** *** The batch *)

Lemma always_answer c evs r w :
  (forall w1, bird_le w w1 -> inv w1 -> response_ok ParseAddr (db w1) (c, evs, r)) -> always (answer c evs r) w.
Proof.
  intros Hr. apply (always_act inv bird_le). intros w1 HR HI. simpl. split; [|split; [|apply always_done]].
  - destruct HI as [H1 H2 H3]. split; simpl; [done|done|]. apply Forall_app. split; [done|].
    apply Forall_singleton, Hr; [done|by split].
  - split_and!; simpl; [done|done|by apply prefix_app_r].
Qed.

(** What the loop has collected of the events it has seen. *)
Record tally (d : store_db) (c : bytes) (evs : list ingestEvent) (st : list bytes) (rj : gmap bytes bytes) (n : Z) : Prop := {
  ta_ack : ack_ok ParseAddr d c evs st rj;
  ta_count : 0 <= n <= zlen evs;
  ta_all : n = zlen evs -> Forall (fun ev => validateEvent ParseAddr ev = None) evs;
}.

Lemma tally_mono d d' c evs st rj n : alerts d `prefix_of` alerts d' -> tally d c evs st rj n -> tally d' c evs st rj n.
Proof. intros Hle [H1 H2 H3]. split; [by eapply ack_mono|done|done]. Qed.

Lemma ack_more d c evs ev st rj : ack_ok ParseAddr d c evs st rj -> ack_ok ParseAddr d c (evs ++ [ev]) st rj.
Proof.
  intros [H1 H2]. split; [intros id Hid; destruct (H1 id Hid) as (x & Hx & ?)|intros id why Hid; destruct (H2 id why Hid) as (x & Hx & ?)];
    exists x; (split; [apply elem_of_app; by left|done]).
Qed.

Lemma tally_rejected d c evs ev st rj n why :
  tally d c evs st rj n -> validateEvent ParseAddr ev = Some why ->
  tally d c (evs ++ [ev]) st (<[ieEventID ev := why]> rj) n.
Proof.
  intros [H1 H2 H3] Hv. split.
  - apply (ack_more _ _ _ ev) in H1 as [Ha Hb]. split; [done|]. intros id reason.
    destruct (decide (id = ieEventID ev)) as [->|Hne]; [|rewrite lookup_insert_ne by done; apply Hb].
    rewrite lookup_insert_eq. intros [= <-]. exists ev. split_and!; [|done|done].
    apply elem_of_app. right. by apply list_elem_of_singleton.
  - autorewrite with go. lia.
  - autorewrite with go. lia.
Qed.

Lemma tally_stored d c evs ev st rj n :
  tally d c evs st rj n -> validateEvent ParseAddr ev = None -> kept d c ev ->
  tally d c (evs ++ [ev]) (st ++ [ieEventID ev]) rj n.
Proof.
  intros [H1 H2 H3] Hv Hk. split.
  - apply (ack_more _ _ _ ev) in H1 as [Ha Hb]. split; [|done].
    intros id [Hid| ->%list_elem_of_singleton]%elem_of_app; [by apply Ha|]. exists ev. split_and!; try done.
    apply elem_of_app. right. by apply list_elem_of_singleton.
  - autorewrite with go. lia.
  - autorewrite with go. lia.
Qed.

Lemma tally_failed d c evs ev st rj n :
  tally d c evs st rj n -> validateEvent ParseAddr ev = None -> tally d c (evs ++ [ev]) st rj (n + 1).
Proof.
  intros [H1 H2 H3] Hv. split; [by apply ack_more| |].
  - autorewrite with go. lia.
  - autorewrite with go. intros Hn. apply Forall_app. split; [apply H3; lia|].
    by apply Forall_singleton.
Qed.

Lemma valid_id ev : validateEvent ParseAddr ev = None -> ieEventID ev ≠ [].
Proof.
  unfold validateEvent. intros Hv Hn. rewrite Hn in Hv. by vm_compute in Hv.
Qed.
Lemma always_store c t ev ack fail b w :
  validateEvent ParseAddr ev = None -> (b = true -> synthetic_ok (db w) (seen w) (alert_of c t ev false)) ->
  (forall w1, bird_le w w1 -> kept (db w1) c ev -> always ack w1) -> always fail w ->
  always (store_event hub c t ev ack fail b) w.
Proof.
  intros Hv Hb Hack Hfail. unfold store_event.
  destruct (IsSelfTestResult _) eqn:Es; [by apply Hack; [done|right; left]|]. apply always_stmt; [|done].
  intros w2 HR2 HI2 d' new Hins.
  destruct (insert_alert_keeps _ _ _ _ _ (bi_db _ _ HI2) Hins) as (Hkeep & row & Hrow & Hkey).
  { simpl. intros ->. eapply (synthetic_mono (db w)); [apply HR2|apply HR2|by apply Hb]. }
  split; [done|]. intros HR3. assert (always ack (set_db d' w2)) as Ha.
  { apply Hack; [done|]. right. right. exists row. split; [done|]. rewrite Hkey. simpl.
    by rewrite bool_decide_eq_false_2 by (by apply valid_id). }
  destruct (new && hub)%bool; [|done]. apply (always_act inv bird_le). intros w4 HR4 [H1 H2 H3]. simpl.
  split; [by split|]. split; [by split_and!|]. eapply (always_le inv bird_le); [|exact Ha]. etrans; [exact HR4|by split_and!].
Qed.

Lemma always_events c t k evs : forall seen_evs st rj n w,
  tally (db w) c seen_evs st rj n ->
  (forall w1 st rj n, bird_le w w1 -> tally (db w1) c (seen_evs ++ evs) st rj n -> always (k st rj n) w1) ->
  always (ingest_events ParseAddr hub c t evs st rj n k) w.
Proof.
  induction evs as [|ev evs IH]; intros se st rj n w Ht Hk; cbn [ingest_events].
  { rewrite app_nil_r in Hk. by apply Hk. }
  rewrite (cons_middle ev se evs), app_assoc in Hk.
  destruct (validateEvent ParseAddr ev) as [why|] eqn:Hv.
  { apply (IH (se ++ [ev])); [by apply tally_rejected|done]. }
  cbv zeta. set (ack := ingest_events _ _ _ _ _ (st ++ _) _ _ _). set (fail := ingest_events _ _ _ _ _ _ _ (n + 1) _).
  assert (forall w1, bird_le w w1 -> kept (db w1) c ev -> always ack w1) as Hack.
  { intros w1 HR Hkept. apply (IH (se ++ [ev])).
    - apply tally_stored; [|done|done]. eapply tally_mono; [apply HR|done].
    - intros w2 st2 rj2 n2 HR2. apply Hk. by etrans. }
  assert (always fail w) as Hfail by (apply (IH (se ++ [ev])); [by apply tally_failed|done]).
  clearbody ack fail. destruct (IsBase (event_service ev)) eqn:Eb; [by apply Hack; [|left]|].
  assert (forall w1 b, bird_le w w1 ->
    (b = true -> synthetic_ok (db w1) (seen w1) (alert_of c t ev false)) ->
    always (store_event hub c t ev ack fail b) w1) as Hstore.
  { intros w1 b HR1 Hb. apply always_store; [done|done| |by apply (always_le inv bird_le _ w)].
    intros w2 HR2. apply Hack. by etrans. }
  destruct (negb _).
  - apply (always_claim (alert_of c t ev false)). intros w1 r HR1 Hr.
    destruct r as [[why|]|]; [|by apply Hstore; [|intros _; apply Hr]|by apply Hstore].
    apply always_coalesced. by apply Hstore.
  - apply (always_MatchSelfTest (alert_of c t ev false)). intros w1 r HR1 Hr. apply Hstore; [done|].
    destruct r as [[]|]; try done. intros _. by apply Hr.
Qed.

Lemma always_batch c body w : always (handleBatch ParseAddr hub c body) w.
Proof.
  assert (forall c evs s w, s ≠ 503 -> always (answer c evs (RespError s)) w) as Herr.
  { intros c1 evs s w1 Hs. apply always_answer. intros w2 _ _. simpl.
    destruct s as [|s|]; try done. by repeat (destruct s as [s|s|]; try done). }
  destruct body as [| | |node evs]; try by apply Herr. cbn [handleBatch].
  destruct (zlen evs =? 0) eqn:Ez; [by apply Herr|]. destruct (_ <? _); [by apply Herr|].
  assert (always (recordRateLimitCrossed c (lit "events/min") (answer c evs (RespError 429))) w) as Hrate
    by (apply always_coalesced; by apply Herr).
  apply (always_ask inv bird_le). intros a. destruct a as [| | | |[]|]; try exact Hrate. apply always_clock. intros t.
  apply (always_events c t _ evs []).
  { split; [|done..]. split; [by intros id ?%not_elem_of_nil|]. intros id why. by rewrite lookup_empty. }
  simpl. intros w1 st rj n HR1 [Hack Hn Hall]. destruct (_ && _)%bool eqn:E; apply always_answer; intros w2 HR2 _.
  - go_bools. simpl. split; [by intros ->|by apply Hall].
  - eapply ack_mono; [apply HR2|done].
Qed.

(** *** Beside it *)

Lemma always_mint c a ts t e runID rid fresh w : always (MintSelfTestCommand c a ts t e runID rid fresh) w.
Proof.
  unfold MintSelfTestCommand. destruct (build_params _ _ _ _) as [p|err]; [|apply always_done].
  apply always_stmt; [|apply always_done]. intros w1 HR HI d' r. unfold transaction.
  destruct (exec _ (db w1)) as [d1 [cmd|err]] eqn:E; intros [= <- <-].
  - destruct (mint_keeps _ _ _ _ _ _ _ _ _ (bi_db _ _ HI) E) as [Hkeep Hpl]. split; [done|]. intros HR'.
    apply (always_act inv bird_le). intros w2 HR2 [H1 H2 H3]. simpl. split; [|split; [by split_and!|apply always_done]].
    split; simpl; [done| |done]. apply addLocked_ok; [done|]. intros tg Htg.
    eapply planted_mono; [apply HR2|by apply Hpl].
  - split; [split; [apply HI|reflexivity]|]. intros _. apply always_done.
Qed.

Lemma always_seen c a w : always (SetCanaryLastSeenAddr c a) w.
Proof.
  apply (always_ask inv bird_le). intros i.
  assert (forall (f : birdcage -> birdcage) w, (forall w1, inv w1 -> inv (f w1) /\ bird_le w1 (f w1)) ->
            always (Act (effect f) (fun _ => Done)) w) as Heff.
  { intros f w0 Hf. apply (always_act inv bird_le). intros w1 _ HI. destruct (Hf w1 HI). split_and!; [done..|apply always_done]. }
  destruct i; try (apply always_done); apply Heff; intros w1 [H1 H2 H3]; unfold Server.run_stmt;
    destruct (update_addr c a (db w1)) as [[d' n]|] eqn:E; try done;
    destruct (update_addr_keeps _ _ _ _ _ _ H1 E) as [HI' Hle]; simpl;
    (split; [split; simpl; [done|by eapply index_mono; [apply Hle|]|]|split_and!; simpl; [done|by apply prefix_app_r|done]]);
    (eapply Forall_impl; [exact H3|]); intros x; apply response_mono, Hle.
Qed.

Lemma always_statements {A} post (p : prog cmd_db A) (k : A -> go) : forall o w,
  valid cmd_inv cmd_le post p o (commands (db w)) -> (forall a, always (k a) w) ->
  always (statements (on_table commands set_commands p) k) w.
Proof.
  induction p as [a|T f q IH]; intros o w Hv Hk; cbn [on_table Server.statements]; [apply Hk|].
  assert (forall w1, bird_le w w1 -> forall a, always (k a) w1) as Hk1 by (intros w1 HR a; by apply (always_le inv bird_le _ w)).
  apply always_stmt.
  - intros w1 HR HI d' r. destruct (f (commands (db w1))) as [[cs x]|] eqn:E; intros [= <- <-].
    destruct (proj1 (Hv (commands (db w1)) (dl_commands _ _ (proj1 HR)) (di_commands _ _ (bi_db _ _ HI))) cs x E)
      as (Hc & Hle & Hq & _).
    split; [apply commands_keep; [apply HI|done|done]|]. intros HR'. eapply IH; [exact Hq|by apply Hk1].
  - intros w1 HR HI. eapply IH; [|by apply Hk1|reflexivity|done].
    exact (proj2 (Hv (commands (db w1)) (dl_commands _ _ (proj1 HR)) (di_commands _ _ (bi_db _ _ HI)))).
Qed.

Lemma always_restart w : always (Act (effect restart) (fun _ => Done)) w.
Proof.
  apply (always_act inv bird_le). intros w1 _ [H1 H2 H3]. simpl. split; [|split; [by split_and!|apply always_done]].
  split; [done| |done]. intros c m info. simpl. by rewrite lookup_empty.
Qed.

Lemma always_handle rq w : always (handle ParseAddr hub rq) w.
Proof.
  destruct rq as [c body|c a ts t e runID rid fresh|c a|now|c allowed now|]; cbn [handle].
  - apply always_batch.
  - apply always_mint.
  - apply always_seen.
  - apply always_write; [|intros; apply always_done]. intros w1 _ HI d' r Hx. eapply sweep_keeps; [apply HI|exact Hx].
  - eapply always_statements; [apply (cmd_serve_valid (ReqClaim c allowed now))|intros; apply always_done].
  - apply always_restart.
Qed.

(** Birdcage with a database in which no self-test has run and no alert is
    stored. *)
Definition new_birdcage (ags : list agent_row) : birdcage :=
  mkBirdcage (mkStore [] [] [] ags [] []) false ∅ newAuditCoalescer [] [] [].

Lemma new_inv ags : Forall (fun a => a_addr a = None) ags -> inv (new_birdcage ags).
Proof.
  intros Hags. rewrite Forall_forall in Hags.
  split; [split; simpl; try (by intros ? ?%not_elem_of_nil); try constructor|intros c m info; simpl; by rewrite lookup_empty|done].
  - constructor.
  - constructor.
  - intros a x Ha Hx. by rewrite Hags in Hx.
Qed.

(** Requests of any kind, interleaved. *)
Lemma handled w0 rqs c :
  inv w0 -> interleaves (mkPool w0 (handle ParseAddr hub <$> rqs)) c ->
  inv (shared c) /\ bird_le w0 (shared c) /\ forall c', interleaves c c' -> bird_le (shared c) (shared c').
Proof.
  intros HI Hr. assert (Forall (fun p => ok p w0) (handle ParseAddr hub <$> rqs)) as Hok.
  { apply Forall_fmap, Forall_forall. intros rq _. by apply (always_handle rq w0). }
  destruct (interleaves_safe inv bird_le _ _ _ Hr HI Hok) as (H1 & H2 & _). split; [done|]. split; [done|].
  intros c' Hr'. exact (interleaves_later inv bird_le _ _ _ _ Hr Hr' HI Hok).
Qed.
End handlers.

(** ** The guarantees *)

Section guarantees.
Context {stdlib : Stdlib} {codec : Codec} {unicode : Unicode} {engine : Engine}.

End guarantees.

(** ** A self-test, a restart and a sweep *)

(** A self-test's parameters with lengths before the fields. *)
Definition ex_field (b : bytes) : bytes := zlen b :: b.
Definition ex_marshal (p : Params) : bytes :=
  ex_field (pRunID p) ++ ex_field (pAddress p) ++
  flat_map (fun t => tDestPort t :: ex_field (tService t) ++ ex_field (tMarker t)) (pTargets p).

Definition ex_take (b : bytes) : option (bytes * bytes) :=
  match b with
  | [] => None
  | n :: b => if (0 <=? n) && (n <=? zlen b) then Some (take (Z.to_nat n) b, drop (Z.to_nat n) b) else None
  end.

Fixpoint ex_targets (fuel : nat) (b : bytes) : option (list Target) :=
  match fuel, b with
  | _, [] => Some []
  | O, _ => None
  | S fuel, port :: b =>
      '(service, b) ← ex_take b;
      '(marker, b) ← ex_take b;
      rest ← ex_targets fuel b;
      Some (mkTarget service port marker :: rest)
  end.

Definition ex_unmarshal (b : bytes) : option Params :=
  '(runID, b) ← ex_take b;
  '(address, b) ← ex_take b;
  ts ← ex_targets (length b) b;
  Some (mkParams runID address ts).

#[local] Instance ex_codec : Codec := {|
  marshal_params := ex_marshal;
  marshal_nonempty := fun p Heq => @nil_cons _ _ _ (eq_sym Heq);
  decode_params := ex_unmarshal;
  vnc_fields := fun _ => None;
  marker_hash := fun m => rev m;
  hmac_sha256 := fun k c => k ++ c;
|}.

(** SQLite's [julianday] keeps milliseconds. *)
#[local] Instance ex_engine : Engine.
Proof.
  refine {| instant := fun t => (t + 500000) / 1000000; resolution := 1000000 |}.
  - intros a b Hab. Z.to_euclidean_division_equations. lia.
  - intros a b Hab. apply Z.div_le_mono; lia.
Defined.
#[local] Existing Instance ex_stdlib.
#[local] Existing Instance ascii_only.

Definition ex_agents : list agent_row := [mkAgent (lit "gull") Honeypot None None].
Definition ex_event_id : bytes := replicate 64 97.
Definition ex_event : ingestEvent :=
  mkIngest ex_event_id (lit "10.0.0.1") 80 (lit "http") (lit "GET /mark7") [].
Definition ex_knock : ingestEvent :=
  mkIngest (replicate 64 98) (lit "10.0.0.9") 123 (lit "ntp") (lit "knock") (lit "mark8").
Definition ex_bad : ingestEvent := mkIngest (lit "zz") [] (-1) [] [] [].

Definition ex_requests : list server_request :=
  [ReqMintSelfTest (lit "gull") (lit "10.0.0.9") [(lit "http", 80); (lit "ntp", 123)] 10 1000 (Some (lit "run"))
     (Some (lit "cmd")) [Some (lit "mark7"); Some (lit "mark8")];
   ReqRestart; ReqSeen (lit "gull") (lit "10.0.0.9");
   ReqBatch (lit "gull") (Body (lit "node") [ex_event; ex_bad]);
   ReqBatch (lit "gull") (Body (lit "node") [ex_knock]);
   ReqSweep 2000].

(** Thread [i] to its end, at 100, every statement answering. *)
Definition ex_turn (i : nat) : list (nat * server_input) :=
  concat (replicate 40 [(i, Allows true); (i, Clock 100); (i, Answers); (i, Order [])]).

Definition ex_upto (is_ : list nat) : pool birdcage server_input :=
  pschedule (concat (ex_turn <$> is_)) (mkPool (new_birdcage ex_agents) (handle (fun _ => true) true <$> ex_requests)).

Definition ex_tested : pool birdcage server_input := ex_upto [0; 1; 2; 3; 4]%nat.

Lemma ex_agents_unseen : Forall (fun a => a_addr a = None) ex_agents.
Proof. by apply Forall_singleton. Qed.

Lemma ex_upto_interleaves is_ :
  interleaves (mkPool (new_birdcage ex_agents) (handle (fun _ => true) true <$> ex_requests)) (ex_upto is_).
Proof. apply pschedule_interleaves. Qed.

Definition ex_alert (i : nat) : alert_row :=
  default (mkAlertRow (mkAlert [] [] 0 [] [] 0 [] false) None) (alerts (db (shared ex_tested)) !! i).

Lemma ex_alert_in i : (i < 2)%nat -> ex_alert i ∈ alerts (db (shared ex_tested)).
Proof.
  intros Hi. apply (list_elem_of_lookup_2 _ i). unfold ex_alert.
  destruct (alerts (db (shared ex_tested)) !! i) eqn:E; [done|]. apply lookup_ge_None in E.
  replace (length (alerts (db (shared ex_tested)))) with 2%nat in E by (vm_compute; reflexivity). lia.
Qed.

