(* ===== verification/ScanRun.v ===== *)
(** Ordered scans ([internal/store/scanrun.go], [scan.go]): their runs' stages,
    the snapshot that settles one, the handlers that report them
    ([internal/ingest/scans.go], [heartbeat.go], [command.go]) and the state
    they give a scanner's tile.

    A scan's run is a row of [self_test_runs] with a stage; its unique indexes
    are those of [migrations/sqlite/0022_scan_runs.sql]. Times are nanoseconds
    from the zero time, compared by the database at its resolution ([SelfTest.Engine]). JSON and
    the parsing of times are parameters. *)
From S2P Require Import Prelude GoBase GoStrings HostMask Sql Commands SelfTest.
#[local] Open Scope Z_scope.

(** ** scanrun.go: data *)

Inductive ScanRunTrigger : Type := TriggerProof | TriggerManual.

#[export] Instance ScanRunTrigger_eq_dec : EqDecision ScanRunTrigger.
Proof. solve_decision. Defined.

Inductive ScanStage : Type :=
| StageOrdered
| StageCollected
| StageMountsChecked
| StageDBRefreshed
| StageScanning
| StageAnswered.

#[export] Instance ScanStage_eq_dec : EqDecision ScanStage.
Proof. solve_decision. Defined.

Definition stageRank (s : ScanStage) : Z :=
  match s with
  | StageOrdered => 0
  | StageCollected => 1
  | StageMountsChecked => 2
  | StageDBRefreshed => 3
  | StageScanning => 4
  | StageAnswered => 5
  end.

Definition AgentReportableStage (s : ScanStage) : bool :=
  match s with StageMountsChecked | StageDBRefreshed | StageScanning => true | _ => false end.

Definition ScanService : bytes := lit "scan".
Definition ScanDBMaxAge : Z := 5 * 24 * 3600 * 1000000000.

Definition ReasonScanFailed : bytes := lit "scan_failed".
Definition ReasonTakenBeforeIssued : bytes := lit "taken_before_issued".
Definition ReasonDBTooOld : bytes := lit "db_too_old".
Definition ReasonDBRefreshFailed : bytes := lit "db_refresh_failed".
Definition ReasonMasksIncomplete : bytes := lit "masks_incomplete".
Definition runReasonMaxLen : Z := 500.

(** [truncate] and [truncateReason] *)
Definition truncate (s : bytes) (n : Z) : bytes := if zlen s <=? n then s else slice s 0 n.
Definition truncateReason (s : bytes) : bytes := truncate s runReasonMaxLen.

(** ** scan.go *)

(** [ScanSnapshot]; the status is [true] for ok. *)
Record ScanSnapshot : Type := mkSnapshot {
  snCanaryID : bytes;
  TakenAt : Z;
  ReceivedAt : Z;
  EngineName : bytes;
  EngineVersion : bytes;
  DBBuiltAt : option Z;
  StatusOK : bool;
  snReason : bytes;
  FindingCount : Z;
  MaskedPaths : list bytes;
  DBRefreshedAt : option Z;
  DBRefreshError : bytes;
  SelfTestRunID : bytes;
}.

Definition set_run (command : bytes) (s : ScanSnapshot) : ScanSnapshot :=
  mkSnapshot (snCanaryID s) (TakenAt s) (ReceivedAt s) (EngineName s) (EngineVersion s) (DBBuiltAt s) (StatusOK s)
    (snReason s) (FindingCount s) (MaskedPaths s) (DBRefreshedAt s) (DBRefreshError s) command.

Definition isAbsolutePath (p : bytes) : bool :=
  match p with c :: _ => c =? 47 | [] => false end.

(** What [RecordScanSnapshot] refuses. *)
Definition snapshot_ok (s : ScanSnapshot) : bool :=
  negb (bool_decide (snCanaryID s = [])) && negb (TakenAt s =? 0) && negb (ReceivedAt s =? 0) &&
  (if StatusOK s then bool_decide (snReason s = [])
   else negb (bool_decide (snReason s = [])) && (FindingCount s =? 0)) &&
  (0 <=? FindingCount s) && forallb isAbsolutePath (MaskedPaths s).

(** ** The database *)

Record scan_row : Type := mkScanRow {
  s_command : bytes;
  s_agent : bytes;
  s_run : bytes;
  s_issued : Z;
  s_deadline : Z;
  s_completed : option Z;
  s_passed : option bool;
  s_trigger : ScanRunTrigger;
  s_stage : ScanStage;
  s_stage_at : Z;
  s_reason : bytes;
}.

#[export] Instance scan_row_eq_dec : EqDecision scan_row.
Proof. solve_decision. Defined.

(** The columns of [agents] a scan reads and writes. *)
Record scanner_row : Type := mkScanner {
  sa_id : bytes;
  sa_kind : bytes;
  sa_registered : option Z;
  sa_failing_since : option Z;
  sa_refresh_error : bytes;
}.

(** [scan_targets] holds each command's single target, and when it matched. *)
Record scan_db : Type := mkScanDB {
  sc_commands : cmd_db;
  scan_runs : list scan_row;
  scan_targets : list (bytes * option Z);
  scanners : list scanner_row;
  snapshots : list ScanSnapshot;
}.

Definition put_commands (c : cmd_db) (d : scan_db) : scan_db :=
  mkScanDB c (scan_runs d) (scan_targets d) (scanners d) (snapshots d).
Definition put_runs (r : list scan_row) (d : scan_db) : scan_db :=
  mkScanDB (sc_commands d) r (scan_targets d) (scanners d) (snapshots d).
Definition put_targets (t : list (bytes * option Z)) (d : scan_db) : scan_db :=
  mkScanDB (sc_commands d) (scan_runs d) t (scanners d) (snapshots d).
Definition put_scanners (a : list scanner_row) (d : scan_db) : scan_db :=
  mkScanDB (sc_commands d) (scan_runs d) (scan_targets d) a (snapshots d).
Definition put_snapshots (s : list ScanSnapshot) (d : scan_db) : scan_db :=
  mkScanDB (sc_commands d) (scan_runs d) (scan_targets d) (scanners d) s.

(** *** Statements *)

Definition select_kind (canaryID : bytes) (d : scan_db) : option bytes :=
  sa_kind <$> head (filter (fun a => sa_id a = canaryID) (scanners d)).

Definition open_runs (canaryID : bytes) (d : scan_db) : list scan_row :=
  filter (fun r => s_agent r = canaryID /\ s_completed r = None) (scan_runs d).

(** The primary key, and one open scan a node. *)
Definition insert_scan_run (r : scan_row) (d : scan_db) : option (scan_db * unit) :=
  if existsb (fun x => bool_decide (s_command x = s_command r)) (scan_runs d) ||
     (bool_decide (s_completed r = None) && negb (bool_decide (open_runs (s_agent r) d = []))) then None
  else Some (put_runs (scan_runs d ++ [r]) d, tt).

Definition insert_scan_target (command : bytes) (d : scan_db) : option (scan_db * unit) :=
  if existsb (fun t => bool_decide (t.1 = command)) (scan_targets d) then None
  else Some (put_targets (scan_targets d ++ [(command, None)]) d, tt).

Definition lookupScanRun (canaryID runID : bytes) (d : scan_db) : option scan_row :=
  head (filter (fun r => s_run r = runID /\ s_agent r = canaryID) (scan_runs d)).

Definition answer_run (now : Z) (passed : bool) (reason : bytes) (r : scan_row) : scan_row :=
  mkScanRow (s_command r) (s_agent r) (s_run r) (s_issued r) (s_deadline r) (Some now) (Some passed) (s_trigger r)
    StageAnswered now reason.

Definition is_open (command : bytes) (r : scan_row) : bool :=
  bool_decide (s_command r = command) && bool_decide (s_completed r = None).

Definition complete_scan_run (command : bytes) (now : Z) (passed : bool) (reason : bytes) (d : scan_db) :
    option (scan_db * Z) :=
  Some (put_runs ((fun r => if is_open command r then answer_run now passed reason r else r) <$> scan_runs d) d,
        zlen (filter (fun r => is_open command r = true) (scan_runs d))).

Definition match_target (command : bytes) (now : Z) (d : scan_db) : option (scan_db * unit) :=
  Some (put_targets ((fun t => if bool_decide (t.1 = command) && bool_decide (t.2 = None) then (t.1, Some now) else t)
                       <$> scan_targets d) d, tt).

Definition set_stage (stage : ScanStage) (now : Z) (r : scan_row) : scan_row :=
  mkScanRow (s_command r) (s_agent r) (s_run r) (s_issued r) (s_deadline r) (s_completed r) (s_passed r) (s_trigger r)
    stage now (s_reason r).

Definition at_stage (command : bytes) (from : ScanStage) (r : scan_row) : bool :=
  is_open command r && bool_decide (s_stage r = from).

Definition update_stage (command : bytes) (from stage : ScanStage) (now : Z) (d : scan_db) : option (scan_db * Z) :=
  Some (put_runs ((fun r => if at_stage command from r then set_stage stage now r else r) <$> scan_runs d) d,
        zlen (filter (fun r => at_stage command from r = true) (scan_runs d))).

(** [SettlePending] *)
Definition settle_scanner (canaryID : bytes) (at_ : Z) (d : scan_db) : option (scan_db * unit) :=
  Some (put_scanners ((fun a =>
          if bool_decide (sa_id a = canaryID) && bool_decide (sa_registered a = None)
          then mkScanner (sa_id a) (sa_kind a) (Some at_) (sa_failing_since a) (sa_refresh_error a) else a)
        <$> scanners d) d, tt).

(** [SetCanaryDBRefresh] *)
Definition refresh_scanner (canaryID : bytes) (failing : bool) (lastError : bytes) (now : Z) (a : scanner_row) :
    scanner_row :=
  if negb (bool_decide (sa_id a = canaryID)) then a
  else if failing
       then mkScanner (sa_id a) (sa_kind a) (sa_registered a) (Some (default now (sa_failing_since a)))
              (truncateReason lastError)
       else mkScanner (sa_id a) (sa_kind a) (sa_registered a) None [].

Definition SetCanaryDBRefresh (canaryID : bytes) (failing : bool) (lastError : bytes) (now : Z) (d : scan_db) :
    option (scan_db * unit) :=
  Some (put_scanners (refresh_scanner canaryID failing lastError now <$> scanners d) d, tt).

Definition insert_snapshot (s : ScanSnapshot) (d : scan_db) : option (scan_db * unit) :=
  Some (put_snapshots (snapshots d ++ [s]) d, tt).

(** [SweepExpiredSelfTestRuns] on the rows of scans. *)
Definition sweep_row `{Engine} (now : Z) (r : scan_row) : scan_row :=
  if bool_decide (s_completed r = None) && (instant (s_deadline r) <=? instant now)
  then mkScanRow (s_command r) (s_agent r) (s_run r) (s_issued r) (s_deadline r) (Some now) (Some false) (s_trigger r)
         (s_stage r) (s_stage_at r) (s_reason r)
  else r.

Definition sweep_scans `{Engine} (now : Z) (d : scan_db) : option (scan_db * unit) :=
  Some (put_runs (sweep_row now <$> scan_runs d) d, tt).

(** ** scanrun.go: operations *)

(** [scanRunRow.open] *)
Definition run_open (r : scan_row) (now : Z) : bool := bool_decide (s_completed r = None) && (now <? s_deadline r).

Definition ScanDBTooOld (builtAt : option Z) (takenAt : Z) : bool :=
  match builtAt with None => true | Some b => ScanDBMaxAge <? time_sub takenAt b end.

Definition masksComplete (reported : list bytes) : bool := forallb (fun p => bool_decide (p ∈ reported)) Paths.

Definition scanRunFailure (run : scan_row) (snap : ScanSnapshot) : bytes :=
  if negb (StatusOK snap) then truncateReason (ReasonScanFailed ++ lit ": " ++ snReason snap)
  else if TakenAt snap <? s_issued run then ReasonTakenBeforeIssued
  else if ScanDBTooOld (DBBuiltAt snap) (TakenAt snap) then ReasonDBTooOld
  else if match DBRefreshedAt snap with None => true | Some t => t <? s_issued run end then ReasonDBRefreshFailed
  else if negb (masksComplete (MaskedPaths snap)) then ReasonMasksIncomplete
  else [].

Inductive scan_error : Type :=
| ErrScanStore
| ErrScanRunOpen
| ErrNotScanner
| ErrScanCommand (e : command_error)
| ErrSnapshotInvalid
| ErrRunUnknown.

(** [ScanRunOutcome]; a pass and a fail carry the run's command. *)
Inductive ScanRunMatch : Type :=
| ScanRunUnknown
| ScanRunStale
| ScanRunFail (command reason : bytes)
| ScanRunPass (command : bytes).

Section scans.
Context `{Stdlib} (marshal_scan : bytes -> bytes).

(** [MintScanCommand], from the transaction on. *)
Definition mint_scan (canaryID : bytes) (trigger : ScanRunTrigger) (now deadline : Z) (runID : bytes)
    (rid : option bytes) : prog scan_db (res scan_error CanaryCommand) :=
  Stmt (query (select_kind canaryID)) (fun kind =>
  match kind with
  | None => Ret (Err ErrScanStore)
  | Some kind =>
  if negb (bool_decide (kind = Some Scanner)) then Ret (Err ErrNotScanner) else
  Stmt (query (fun d => zlen (open_runs canaryID d))) (fun n =>
  match n with
  | None => Ret (Err ErrScanStore)
  | Some n =>
  if 0 <? n then Ret (Err ErrScanRunOpen) else
  pbind (on_table sc_commands put_commands
           (MintCanaryCommand canaryID CommandScan (marshal_scan runID) now deadline rid)) (fun r =>
  match r with
  | Err e => Ret (Err (ErrScanCommand e))
  | Ok cmd =>
      Stmt (insert_scan_run (mkScanRow (ID cmd) canaryID runID (CreatedAt cmd) (ExpiresAt cmd) None None trigger
                               StageOrdered (CreatedAt cmd) [])) (fun r =>
      match r with
      | None => Ret (Err ErrScanStore)
      | Some _ =>
          Stmt (insert_scan_target (ID cmd)) (fun r =>
          Ret (match r with None => Err ErrScanStore | Some _ => Ok cmd end))
      end)
  end)
  end)
  end).

Definition MintScanCommand (canaryID : bytes) (trigger : ScanRunTrigger) (now deadline : Z) (runID rid : option bytes) :
    prog scan_db (res scan_error CanaryCommand) :=
  match runID with
  | None => Ret (Err ErrScanStore)
  | Some runID => in_transaction ErrScanStore (mint_scan canaryID trigger now deadline runID rid)
  end.

Definition MatchScanRun (canaryID runID : bytes) (snap : ScanSnapshot) (now : Z) :
    prog scan_db (res scan_error ScanRunMatch) :=
  Stmt (query (lookupScanRun canaryID runID)) (fun run =>
  match run with
  | None => Ret (Err ErrScanStore)
  | Some None => Ret (Ok ScanRunUnknown)
  | Some (Some run) =>
  if negb (run_open run now) then Ret (Ok ScanRunStale) else
  let reason := scanRunFailure run snap in
  let passed := bool_decide (reason = []) in
  Stmt (complete_scan_run (s_command run) now passed reason) (fun n =>
  match n with
  | None => Ret (Err ErrScanStore)
  | Some n =>
  if n =? 0 then Ret (Ok ScanRunStale) else
  if negb passed then Ret (Ok (ScanRunFail (s_command run) reason)) else
  Stmt (match_target (s_command run) now) (fun r =>
  match r with
  | None => Ret (Err ErrScanStore)
  | Some _ =>
  if negb (bool_decide (s_trigger run = TriggerProof)) then Ret (Ok (ScanRunPass (s_command run))) else
  Stmt (settle_scanner canaryID now) (fun r =>
  Ret (match r with None => Err ErrScanStore | Some _ => Ok (ScanRunPass (s_command run)) end))
  end)
  end)
  end).

Inductive StageResult : Type := StageStale | StageUnchanged | StageAdvanced.

Definition AdvanceRunStage (canaryID runID : bytes) (stage : ScanStage) (now : Z) :
    prog scan_db (res scan_error StageResult) :=
  Stmt (query (lookupScanRun canaryID runID)) (fun run =>
  match run with
  | None => Ret (Err ErrScanStore)
  | Some None => Ret (Ok StageStale)
  | Some (Some run) =>
  if negb (run_open run now) then Ret (Ok StageStale) else
  if stageRank stage =? stageRank (s_stage run) then Ret (Ok StageUnchanged) else
  if stageRank stage <? stageRank (s_stage run) then Ret (Ok StageStale) else
  Stmt (update_stage (s_command run) (s_stage run) stage now) (fun n =>
  Ret (match n with
       | None => Err ErrScanStore
       | Some n => if n =? 0 then Ok StageStale else Ok StageAdvanced
       end))
  end).

Definition RecordScanSnapshot (s : ScanSnapshot) (k : prog scan_db (res scan_error ScanRunMatch)) :
    prog scan_db (res scan_error ScanRunMatch) :=
  if negb (snapshot_ok s) then Ret (Err ErrSnapshotInvalid) else
  Stmt (insert_snapshot s) (fun r => match r with None => Ret (Err ErrScanStore) | Some _ => k end).

(** ** scans.go: the transaction of a snapshot *)

(** Setting the refresh state, where the snapshot says something of it. *)
Definition record_refresh (s : ScanSnapshot) (now : Z) (result : ScanRunMatch) :
    prog scan_db (res scan_error ScanRunMatch) :=
  let set failing lastError :=
    Stmt (SetCanaryDBRefresh (snCanaryID s) failing lastError now) (fun r =>
    Ret (match r with None => Err ErrScanStore | Some _ => Ok result end)) in
  if negb (bool_decide (DBRefreshError s = [])) then set true (DBRefreshError s)
  else if StatusOK s && bool_decide (DBRefreshedAt s ≠ None) then set false []
  else Ret (Ok result).

(** [storeScan]: an unknown run rolls back like an error. *)
Definition store_scan (s : ScanSnapshot) (runID : bytes) (now : Z) : prog scan_db (res scan_error ScanRunMatch) :=
  let record s result := RecordScanSnapshot s (record_refresh s now result) in
  if bool_decide (runID = []) then record s ScanRunUnknown else
  pbind (MatchScanRun (snCanaryID s) runID s now) (fun r =>
  match r with
  | Err e => Ret (Err e)
  | Ok ScanRunUnknown => Ret (Err ErrRunUnknown)
  | Ok ScanRunStale => record s ScanRunStale
  | Ok (ScanRunFail c why) => record (set_run c s) (ScanRunFail c why)
  | Ok (ScanRunPass c) => record (set_run c s) (ScanRunPass c)
  end).

Definition storeScan (s : ScanSnapshot) (runID : bytes) (now : Z) : prog scan_db (res scan_error ScanRunMatch) :=
  in_transaction ErrScanStore (store_scan s runID now).
End scans.

(** *** The request *)

Record ingestScanFinding : Type := mkFinding {
  fTarget : bytes; fPackage : bytes; fVersion : bytes; fType : bytes; fVulnerability : bytes; fSeverity : bytes;
}.

(** [validateFinding] *)
Definition validateFinding (f : ingestScanFinding) : bool :=
  forallb (fun x : bytes => negb (bool_decide (x = [])))
    [fTarget f; fPackage f; fVersion f; fType f; fVulnerability f; fSeverity f].

(** [ingestScan], its engine's fields among the others. *)
Record ingestScan : Type := mkIngestScan {
  isRunID : bytes;
  isTakenAt : bytes;
  isEngineName : bytes;
  isEngineVersion : bytes;
  isDBBuiltAt : bytes;
  isDBRefreshedAt : bytes;
  isDBRefreshError : bytes;
  isStatus : bytes;
  isReason : bytes;
  isFindings : list ingestScanFinding;
  isMaskedPaths : list bytes;
}.

Definition dbRefreshErrorMaxLen : Z := 1024.
Definition maxRunIDLen : Z := 128.

Section request.
Context (ParseRFC3339 : bytes -> option Z) (FormatRFC3339 : Z -> bytes).

(** A time that may be absent: [None] where it does not parse. *)
Definition optional_time (s : bytes) : option (option Z) :=
  if bool_decide (s = []) then Some None else match ParseRFC3339 s with Some t => Some (Some t) | None => None end.

(** The checks of the status and what goes with it. *)
Definition status_ok (b : ingestScan) : bool :=
  if bool_decide (isStatus b = lit "failed")
  then negb (bool_decide (isReason b = [])) && bool_decide (isFindings b = [])
  else bool_decide (isStatus b = lit "ok") && bool_decide (isReason b = []) &&
       negb (bool_decide (isEngineName b = [])) && negb (bool_decide (isEngineVersion b = [])) &&
       negb (bool_decide (isDBBuiltAt b = [])) && forallb validateFinding (isFindings b).

(** A database past its age makes an ok snapshot a failed one. *)
Definition too_old_fails (s : ScanSnapshot) : ScanSnapshot :=
  if StatusOK s && ScanDBTooOld (DBBuiltAt s) (TakenAt s) then
    mkSnapshot (snCanaryID s) (TakenAt s) (ReceivedAt s) (EngineName s) (EngineVersion s) (DBBuiltAt s) false
      (ReasonDBTooOld ++ lit ": vulnerability database built " ++ FormatRFC3339 (default 0 (DBBuiltAt s)) ++
       lit " is more than five days old")
      0 (MaskedPaths s) (DBRefreshedAt s) (DBRefreshError s) (SelfTestRunID s)
  else s.

(** The snapshot of a request's body, [None] where it is refused. *)
Definition scan_snapshot (canaryID : bytes) (now : Z) (b : ingestScan) : option ScanSnapshot :=
  match ParseRFC3339 (isTakenAt b) with
  | None => None
  | Some takenAt =>
  if negb (status_ok b) then None else
  match optional_time (isDBBuiltAt b) with
  | None => None
  | Some builtAt =>
  match optional_time (isDBRefreshedAt b) with
  | None => None
  | Some refreshedAt =>
  if maxRunIDLen <? zlen (isRunID b) then None else
  if negb (forallb (fun p => HasPrefix p (lit "/")) (isMaskedPaths b)) then None else
  Some (too_old_fails (mkSnapshot canaryID takenAt now (isEngineName b) (isEngineVersion b) builtAt
          (bool_decide (isStatus b = lit "ok")) (isReason b) (zlen (isFindings b)) (isMaskedPaths b) refreshedAt
          (truncate (isDBRefreshError b) dbRefreshErrorMaxLen) []))
  end
  end
  end.

(** [handleScan] on a decoded body: its status. *)
Definition handleScan (canaryID : bytes) (now : Z) (b : ingestScan) : prog scan_db Z :=
  match scan_snapshot canaryID now b with
  | None => Ret 400
  | Some s =>
      pbind (storeScan s (isRunID b) now) (fun r =>
      Ret (match r with Err ErrRunUnknown => 400 | Err _ => 503 | Ok _ => 200 end))
  end.
End request.

(** ** What reports a stage *)

(** [ingestRunReport] *)
Record ingestRunReport : Type := mkReport { rrRunID : bytes; rrStage : ScanStage }.

(** What [validateScannerHeartbeat] asks of a report. *)
Definition report_ok (rr : ingestRunReport) : bool :=
  negb (bool_decide (rrRunID rr = [])) && (zlen (rrRunID rr) <=? maxRunIDLen) && AgentReportableStage (rrStage rr).

(** [recordScannerProgress]: the refresh, failing with its error, then the
    stage reported. *)
Definition recordScannerProgress (canaryID : bytes) (refresh : option bytes) (run : option ingestRunReport) (now : Z) :
    prog scan_db (res scan_error (option StageResult)) :=
  let failing := bool_decide (refresh ≠ None) in
  Stmt (SetCanaryDBRefresh canaryID failing (default [] refresh) now) (fun r =>
  match r, run with
  | None, _ => Ret (Err ErrScanStore)
  | Some _, None => Ret (Ok None)
  | Some _, Some rr =>
      pbind (AdvanceRunStage canaryID (rrRunID rr) (rrStage rr) now) (fun r =>
      Ret (match r with Err e => Err e | Ok x => Ok (Some x) end))
  end).

(** [advanceClaimedScan]: what a poll does with a scan it was given. *)
Definition advanceClaimedScan (run_of_params : bytes -> option bytes) (canaryID : bytes) (cmd : CanaryCommand) (now : Z)
    (k : prog scan_db (option CanaryCommand)) : prog scan_db (option CanaryCommand) :=
  match run_of_params (Commands.Params cmd) with
  | None => k
  | Some runID =>
      if bool_decide (runID = []) then k
      else pbind (AdvanceRunStage canaryID runID StageCollected now) (fun _ => k)
  end.

(** [handleCommands] from its claim on: the command it delivers. *)
Definition handleCommands `{Stdlib} (run_of_params : bytes -> option bytes) (canaryID kind : bytes) (now : Z) :
    prog scan_db (option CanaryCommand) :=
  pbind (on_table sc_commands put_commands
           (ClaimNextCanaryCommandOfKinds canaryID (Some (commandKindsFor kind)) now)) (fun r =>
  match r with
  | Err _ => Ret None
  | Ok cmd =>
      if bool_decide (Commands.Kind cmd = CommandScan)
      then advanceClaimedScan run_of_params canaryID cmd now (Ret (Some cmd))
      else Ret (Some cmd)
  end).

(** ** A scanner's tile *)

Inductive Verdict : Type := VerdictPass | VerdictFail | VerdictExpired.

Definition verdict (r : scan_row) : Verdict :=
  if bool_decide (s_passed r = Some true) then VerdictPass
  else if bool_decide (s_stage r = StageAnswered) then VerdictFail
  else VerdictExpired.

(** The open run and the last of [applyScanRunState]. *)
Definition latest_open (now : Z) (best : option scan_row) (r : scan_row) : option scan_row :=
  if bool_decide (s_completed r = None) && (now <? s_deadline r) &&
     match best with None => true | Some b => s_issued b <? s_issued r end
  then Some r else best.

Definition latest_completed (best : option scan_row) (r : scan_row) : option scan_row :=
  match s_completed r with
  | None => best
  | Some t =>
      if match best with None => true | Some b => default 0 (s_completed b) <? t end then Some r else best
  end.

Definition agent_runs (canaryID : bytes) (d : scan_db) : list scan_row :=
  filter (fun r => s_agent r = canaryID) (scan_runs d).

(** [latestOKSnapshotReceivedAt] *)
Definition later_time (latest : option Z) (t : Z) : option Z :=
  if match latest with None => true | Some l => l <? t end then Some t else latest.

Definition ok_times (canaryID : bytes) (d : scan_db) : list Z :=
  ReceivedAt <$> filter (fun s => snCanaryID s = canaryID /\ StatusOK s = true) (snapshots d).

Definition latestOKSnapshotReceivedAt (canaryID : bytes) (d : scan_db) : option Z :=
  foldl later_time None (ok_times canaryID d).

(** [applyScanRunState]: whether the failed test still stands, and the runs
    shown; [lastSelfTest] is when the last run ended. *)
Definition applyScanRunState (canaryID : bytes) (testFailed : bool) (lastSelfTest : option Z) (now : Z) :
    prog scan_db (option (bool * option scan_row * option scan_row)) :=
  Stmt (query (agent_runs canaryID)) (fun runs =>
  match runs with
  | None => Ret None
  | Some runs =>
      let open := foldl (latest_open now) None runs in
      let last := foldl latest_completed None runs in
      match testFailed, lastSelfTest with
      | true, Some ended =>
          Stmt (query (latestOKSnapshotReceivedAt canaryID)) (fun okAt =>
          Ret (match okAt with
               | None => None
               | Some (Some t) => Some (negb (ended <? t), open, last)
               | Some None => Some (true, open, last)
               end))
      | _, _ => Ret (Some (testFailed, open, last))
      end
  end).

(** ** The order of states and the invariant *)

Record srow_le (r r' : scan_row) : Prop := {
  sl_ids : s_command r' = s_command r /\ s_agent r' = s_agent r /\ s_run r' = s_run r /\ s_trigger r' = s_trigger r;
  sl_times : s_issued r' = s_issued r /\ s_deadline r' = s_deadline r;
  sl_stage : stageRank (s_stage r) <= stageRank (s_stage r');
  sl_completed : s_completed r ≠ None -> r' = r;
}.

#[export] Instance srow_le_preorder : PreOrder srow_le.
Proof.
  split.
  - intros r. split; try done.
  - intros a b c [(H1 & H2 & H3 & H4) [H5 H6] H7 H8] [(K1 & K2 & K3 & K4) [K5 K6] K7 K8].
    split; [intuition congruence|intuition congruence|lia|].
    intros Hc. assert (b = a) as -> by auto. by apply K8.
Qed.

Record scan_le (d d' : scan_db) : Prop := {
  scl_commands : cmd_le (sc_commands d) (sc_commands d');
  scl_runs : table_le srow_le (scan_runs d) (scan_runs d');
  scl_snapshots : snapshots d `prefix_of` snapshots d';
}.

#[export] Instance scan_le_preorder : PreOrder scan_le.
Proof. split; [by split|]. intros a b c [H1 H2 H3] [K1 K2 K3]. split; by etrans. Qed.

(** A snapshot that proves its scanner. *)
Record passes (run : scan_row) (s : ScanSnapshot) : Prop := {
  pa_ok : StatusOK s = true;
  pa_taken : s_issued run <= TakenAt s;
  pa_built : exists b, DBBuiltAt s = Some b /\ time_sub (TakenAt s) b <= ScanDBMaxAge;
  pa_refreshed : exists t, DBRefreshedAt s = Some t /\ s_issued run <= t;
  pa_masks : forall p, p ∈ Paths -> p ∈ MaskedPaths s;
}.

Lemma slice_prefix_of (a b : bytes) n : zlen a <= n -> a `prefix_of` slice (a ++ b) 0 n.
Proof.
  intros Hn. unfold slice, zlen in *. rewrite drop_0, Z.sub_0_r.
  rewrite take_app_ge by lia. by apply prefix_app_r.
Qed.

Lemma truncate_prefix (a b : bytes) : zlen a <= runReasonMaxLen -> a `prefix_of` truncateReason (a ++ b).
Proof.
  intros Hn. unfold truncateReason, truncate. destruct (_ <=? _); [by apply prefix_app_r|]. by apply slice_prefix_of.
Qed.

Lemma failed_reason why : exists rest, truncateReason (ReasonScanFailed ++ lit ": " ++ why) = ReasonScanFailed ++ rest.
Proof.
  destruct (truncate_prefix ReasonScanFailed (lit ": " ++ why)) as [rest Hr]; [by vm_compute|]. by exists rest.
Qed.

Lemma scanRunFailure_passes run s : scanRunFailure run s = [] <-> passes run s.
Proof.
  unfold scanRunFailure. split.
  - destruct (StatusOK s) eqn:E1; simpl.
    2: { destruct (failed_reason (snReason s)) as [rest Hr]. simpl in Hr. rewrite Hr. by destruct rest. }
    destruct (_ <? _) eqn:E2; [done|]. destruct (ScanDBTooOld _ _) eqn:E3; [done|].
    destruct (match DBRefreshedAt s with None => _ | _ => _ end) eqn:E4; [done|].
    destruct (masksComplete _) eqn:E5; [|done]. intros _. unfold ScanDBTooOld in E3. go_bools. split; [done|done| | |].
    + destruct (DBBuiltAt s) as [b|]; [|done]. exists b. go_bools. by split.
    + destruct (DBRefreshedAt s) as [t|]; [|done]. exists t. go_bools. by split.
    + intros p Hp. unfold masksComplete in E5. rewrite forallb_forall in E5.
      apply list_elem_of_In, E5 in Hp. by apply bool_decide_eq_true in Hp.
  - intros [-> H2 (b & -> & H3) (t & -> & H4) H5]. simpl. rewrite (proj2 (Z.ltb_ge _ _) H2).
    unfold ScanDBTooOld. rewrite (proj2 (Z.ltb_ge _ _) H3), (proj2 (Z.ltb_ge _ _) H4).
    assert (masksComplete (MaskedPaths s) = true) as ->; [|done]. unfold masksComplete. apply forallb_forall.
    intros p Hp. apply bool_decide_eq_true, H5. by apply list_elem_of_In.
Qed.

(** The snapshot that settled a run. *)
Definition settled_by (r : scan_row) (s : ScanSnapshot) : Prop :=
  SelfTestRunID s = s_command r /\ snCanaryID s = s_agent r /\ s_completed r = Some (ReceivedAt s) /\
  ReceivedAt s < s_deadline r /\ (s_passed r = Some true <-> passes r s).

Record scan_row_ok `{Engine} (d : scan_db) (r : scan_row) : Prop := {
  so_id : s_command r ≠ [];
  so_verdict : s_completed r = None <-> s_passed r = None;
  so_answered : s_stage r = StageAnswered -> exists s, s ∈ snapshots d /\ settled_by r s;
  so_expired : s_stage r ≠ StageAnswered -> forall t, s_completed r = Some t ->
    s_passed r = Some false /\ s_deadline r - t < resolution;
  so_reason : s_reason r ≠ ReasonDBTooOld;
}.

Record scan_inv `{Stdlib} `{Engine} (d : scan_db) : Prop := {
  si_commands : cmd_inv (sc_commands d);
  si_runs : NoDup (s_command <$> scan_runs d);
  si_open : forall r r', r ∈ scan_runs d -> r' ∈ scan_runs d -> s_agent r = s_agent r' ->
    s_completed r = None -> s_completed r' = None -> r = r';
  si_rows : forall r, r ∈ scan_runs d -> scan_row_ok d r;
  si_snapshots : NoDup (filter (fun c => c ≠ []) (SelfTestRunID <$> snapshots d));
  si_named : forall s, s ∈ snapshots d -> SelfTestRunID s ≠ [] ->
    exists r, r ∈ scan_runs d /\ s_command r = SelfTestRunID s /\ s_stage r = StageAnswered;
}.

(** ** Statements *)

Section keeps.
Context {stdlib : Stdlib} {engine : Engine}.
Implicit Types (d : scan_db).

Definition scan_keeps d (d' : scan_db) : Prop := scan_inv d' /\ scan_le d d'.

Lemma answered_rank s : stageRank StageAnswered <= stageRank s -> s = StageAnswered.
Proof. destruct s; simpl; [lia..|done]. Qed.

Lemma open_not_answered d r : scan_row_ok d r -> s_completed r = None -> s_stage r ≠ StageAnswered.
Proof. intros Hok Hc Hs. destruct (so_answered _ _ Hok Hs) as (s & _ & _ & _ & Heq & _). congruence. Qed.

Lemma scan_row_ok_more d d' r :
  (forall s, s ∈ snapshots d -> s ∈ snapshots d') -> scan_row_ok d r -> scan_row_ok d' r.
Proof.
  intros Hs [H1 H2 H3 H4 H5]. split; try done. intros Ha. destruct (H3 Ha) as (s & Hin & Hset).
  exists s. split; [by apply Hs|done].
Qed.

(** Changes of the runs, and of what the invariant does not speak of. *)
Lemma runs_keep (f : scan_row -> scan_row) sn ts ss d :
  scan_inv d -> (forall s, s ∈ snapshots d -> s ∈ sn) -> snapshots d `prefix_of` sn ->
  (forall r, r ∈ scan_runs d -> srow_le r (f r) /\ (s_completed (f r) = None -> s_completed r = None)) ->
  (forall r, r ∈ scan_runs d -> scan_row_ok (put_snapshots sn d) (f r)) ->
  NoDup (filter (fun c => c ≠ []) (SelfTestRunID <$> sn)) ->
  (forall s, s ∈ sn -> s ∈ snapshots d \/ (SelfTestRunID s ≠ [] ->
     exists r, r ∈ scan_runs d /\ s_command r = SelfTestRunID s /\ s_stage (f r) = StageAnswered)) ->
  scan_keeps d (mkScanDB (sc_commands d) (f <$> scan_runs d) ts ss sn).
Proof.
  intros [H1 H2 H3 H4 H5 H6] Hsn Hpre Hf Hok Hnd Hnamed. split; [split; simpl; try done|split; simpl; try done].
  - rewrite table_column_map; [done|]. intros r Hr. apply (Hf r Hr).
  - intros x y (r & -> & Hr)%list_elem_of_fmap (r' & -> & Hr')%list_elem_of_fmap.
    destruct (Hf r Hr) as [[(_ & Ha & _) _ _ _] Hc], (Hf r' Hr') as [[(_ & Ha' & _) _ _ _] Hc'].
    intros Heq Hx Hy. f_equal. apply H3; [done|done|congruence|by apply Hc|by apply Hc'].
  - intros x (r & -> & Hr)%list_elem_of_fmap. destruct (Hok r Hr) as [K1 K2 K3 K4 K5]. by split.
  - intros s Hs Hne. destruct (Hnamed s Hs) as [Hold|Hnew].
    + destruct (H6 s Hold Hne) as (r & Hr & Hc & Ha). exists (f r). split; [apply list_elem_of_fmap; by exists r|].
      destruct (Hf r Hr) as [[(Hcf & _) _ Hrank _] _]. split; [congruence|]. apply answered_rank. by rewrite <- Ha.
    + destruct (Hnew Hne) as (r & Hr & Hc & Ha). exists (f r). split; [apply list_elem_of_fmap; by exists r|].
      destruct (Hf r Hr) as [[(Hcf & _) _ _ _] _]. split; [congruence|done].
  - apply table_le_map. intros r Hr. by apply Hf.
Qed.

Lemma same_runs_keep sn ts ss d :
  scan_inv d -> snapshots d `prefix_of` sn -> (forall s, s ∈ sn -> s ∈ snapshots d \/ SelfTestRunID s = []) ->
  NoDup (filter (fun c => c ≠ []) (SelfTestRunID <$> sn)) ->
  scan_keeps d (mkScanDB (sc_commands d) (scan_runs d) ts ss sn).
Proof.
  intros HI Hpre Hin Hnd. assert (forall s, s ∈ snapshots d -> s ∈ sn) as Hsn
    by (destruct Hpre as [l ->]; intros s Hs; apply elem_of_app; by left).
  rewrite <- (list_fmap_id (scan_runs d)) at 1. apply runs_keep; try done.
  - intros r Hr. simpl. eapply scan_row_ok_more; [exact Hsn|]. by apply (si_rows _ HI).
  - intros s Hs. destruct (Hin s Hs); [by left|by right].
Qed.

Lemma scanners_keep ss d : scan_inv d -> scan_keeps d (put_scanners ss d).
Proof. intros HI. apply same_runs_keep; [done|done|by left|apply HI]. Qed.

Lemma stage_keeps command from stage now d d' n :
  scan_inv d -> stage ≠ StageAnswered -> stageRank from < stageRank stage ->
  update_stage command from stage now d = Some (d', n) -> scan_keeps d d'.
Proof.
  intros HI Hst Hrank [= <- _]. unfold put_runs. set (f := fun r => _).
  assert (forall r, f r = r \/ (f r = set_stage stage now r /\ s_completed r = None /\ s_stage r = from)) as Hf.
  { intros r. unfold f, at_stage, is_open. destruct (_ && _)%bool eqn:E; [|by left]. right. go_bools. done. }
  apply (runs_keep f); try done; [| |apply HI|by left].
  - intros r Hr. destruct (Hf r) as [->|(-> & Hc & Hs)]; [done|]. split; [|done]. split; simpl; try done. subst. lia.
  - intros r Hr. pose proof (si_rows _ HI r Hr) as Hok. destruct (Hf r) as [->|(-> & Hc & Hs)].
    { eapply scan_row_ok_more; [|exact Hok]. done. }
    destruct Hok as [K1 K2 K3 K4 K5]. split; simpl; try done. intros _ t. congruence.
Qed.

Lemma sweep_scans_keeps now d d' u : scan_inv d -> sweep_scans now d = Some (d', u) -> scan_keeps d d'.
Proof.
  intros HI [= <- _]. unfold put_runs. apply runs_keep; try done; [| |apply HI|by left].
  - intros r Hr. unfold sweep_row. destruct (_ && _)%bool eqn:E; [|done]. go_bools. split; [|done]. by split.
  - intros r Hr. pose proof (si_rows _ HI r Hr) as Hok. unfold sweep_row. destruct (_ && _)%bool eqn:E.
    2: { eapply scan_row_ok_more; [|exact Hok]. done. }
    go_bools. pose proof (open_not_answered _ _ Hok H) as Hna. destruct Hok as [K1 K2 K3 K4 K5].
    split; simpl; try done. intros _ t [= <-]. split; [done|]. by apply instant_le.
Qed.

(** *** A mint *)

Lemma mint_scan_command c p t e rid db db' cmd :
  cmd_inv db -> exec (MintCanaryCommand c CommandScan p t e rid) db = (db', Ok cmd) ->
  cmd_inv db' /\ cmd_le db db' /\ rid = Some (ID cmd).
Proof.
  intros HI Hx.
  pose proof (valid_exec cmd_inv cmd_le _ _ [] db HI (mint_valid c CommandScan p t e rid db)) as Hv.
  destruct Hv as (H1 & H2 & _); [by intros s ?%not_elem_of_nil|]. rewrite Hx in H1, H2.
  split; [done|]. split; [done|]. unfold MintCanaryCommand in Hx. destruct (negb _) in Hx; [done|].
  destruct (_ && _)%bool in Hx; [done|]. destruct (_ || _)%bool in Hx; [done|]. destruct (negb _) in Hx; [done|].
  destruct rid as [id|]; [|done]. simpl in Hx. destruct (insert_command _ db) as [[db1 u]|]; [|done].
  by injection Hx as _ <-.
Qed.

Lemma commands_scan_keep c d : scan_inv d -> cmd_inv c -> cmd_le (sc_commands d) c -> scan_keeps d (put_commands c d).
Proof.
  intros [H1 H2 H3 H4 H5 H6] Hc Hle. split; [split; simpl; try done|by split].
  intros r Hr. destruct (H4 r Hr). by split.
Qed.

Lemma insert_run_keeps r d d' u :
  scan_inv d -> insert_scan_run r d = Some (d', u) -> s_command r ≠ [] -> s_completed r = None -> s_passed r = None ->
  s_stage r = StageOrdered -> s_reason r = [] -> scan_keeps d d'.
Proof.
  intros [H1 H2 H3 H4 H5 H6] Hins Hid Hc Hp Hs Hw. unfold insert_scan_run in Hins.
  destruct (_ || _)%bool eqn:E; [done|]. injection Hins as <- _. apply orb_false_iff in E as [E1 E2].
  rewrite bool_decide_eq_true_2 in E2 by done. cbn [andb] in E2. apply negb_false_iff, bool_decide_eq_true in E2.
  assert (forall x, x ∈ scan_runs d -> s_command x ≠ s_command r) as Hfresh.
  { intros x Hx Heq. rewrite <- not_true_iff_false, existsb_exists in E1. apply E1. exists x.
    split; [by apply list_elem_of_In|by apply bool_decide_eq_true]. }
  assert (forall x, x ∈ scan_runs d -> s_completed x = None -> s_agent x ≠ s_agent r) as Hno.
  { intros x Hx Hxc Ha. apply (not_elem_of_nil x). rewrite <- E2. by apply list_elem_of_filter. }
  split; [split; simpl; try done|split; simpl; try done; by apply (table_le_insert srow_le)].
  - by apply NoDup_fmap_snoc.
  - intros x y [Hx| ->%list_elem_of_singleton]%elem_of_app [Hy| ->%list_elem_of_singleton]%elem_of_app Ha Hxc Hyc.
    + by apply H3.
    + by destruct (Hno x Hx Hxc).
    + by destruct (Hno y Hy Hyc).
    + done.
  - intros x [Hx| ->%list_elem_of_singleton]%elem_of_app; [by destruct (H4 x Hx)|].
    split; [done|by split|by rewrite Hs|by rewrite Hc|by rewrite Hw].
  - intros s Hs' Hne. destruct (H6 s Hs' Hne) as (x & Hx & ?). exists x. split; [apply elem_of_app; by left|done].
Qed.

Lemma keeps_trans d1 d2 d3 : scan_keeps d1 d2 -> scan_keeps d2 d3 -> scan_keeps d1 d3.
Proof. intros [_ H1] [H2 H3]. split; [done|by etrans]. Qed.

Lemma mint_scan_keeps marshal c trigger now deadline runID rid d d' cmd :
  scan_inv d -> rid ≠ Some [] -> exec (mint_scan marshal c trigger now deadline runID rid) d = (d', Ok cmd) ->
  scan_keeps d d'.
Proof.
  intros HI Hid. unfold mint_scan. cbn [exec query]. destruct (negb _); [done|]. cbn [exec query].
  destruct (0 <? _); [done|]. rewrite exec_pbind, exec_on_table by (by intros []).
  destruct (exec (MintCanaryCommand _ _ _ _ _ _) (sc_commands d)) as [cs [x|err]] eqn:E; [|done]. cbn [fst snd exec].
  destruct (mint_scan_command c (marshal runID) now deadline rid _ _ _ (si_commands _ HI) E) as (Hc & Hle & Hrid).
  pose proof (commands_scan_keep cs d HI Hc Hle) as Hk.
  destruct (insert_scan_run _ _) as [[d1 u]|] eqn:Er; [|done]. unfold insert_scan_target. cbn [exec].
  destruct (existsb _ _); [done|]. intros [= <- _].
  assert (scan_keeps (put_commands cs d) d1) as Hk1.
  { eapply insert_run_keeps; [apply Hk|exact Er|..]; simpl; try done. congruence. }
  eapply keeps_trans; [exact Hk|]. eapply keeps_trans; [exact Hk1|].
  apply same_runs_keep; [apply Hk1|done|by left|]. apply (si_snapshots _ (proj1 Hk1)).
Qed.

(** *** A snapshot *)

(** The run a snapshot is for is answered as the snapshot is stored. *)
Lemma settle_keeps run s now ts ss d :
  scan_inv d -> run ∈ scan_runs d -> run_open run now = true -> ReceivedAt s = now -> snCanaryID s = s_agent run ->
  SelfTestRunID s = s_command run -> scanRunFailure run s ≠ ReasonDBTooOld ->
  scan_keeps d (mkScanDB (sc_commands d)
    ((fun r => if is_open (s_command run) r
               then answer_run now (bool_decide (scanRunFailure run s = [])) (scanRunFailure run s) r else r) <$> scan_runs d)
    ts ss (snapshots d ++ [s])).
Proof.
  intros HI Hrun Hopen Hat Hag Hid Hold. unfold run_open in Hopen. go_bools. set (f := fun r => _).
  assert (forall r, r ∈ scan_runs d -> (r ≠ run /\ f r = r) \/
            (r = run /\ f r = answer_run now (bool_decide (scanRunFailure run s = [])) (scanRunFailure run s) run)) as Hf.
  { intros r Hr. unfold f, is_open. destruct (decide (r = run)) as [->|Hne].
    - right. split; [done|]. by rewrite (bool_decide_eq_true_2 _ eq_refl), (bool_decide_eq_true_2 _ H).
    - left. split; [done|]. rewrite bool_decide_eq_false_2; [done|]. intros Hc. apply Hne.
      by eapply (NoDup_fmap_in s_command); [apply HI|..]. }
  assert (forall x, x ∈ snapshots d -> SelfTestRunID x ≠ s_command run) as Hfresh.
  { intros x Hx Heq. destruct (si_named _ HI x Hx) as (r & Hr & Hc & Ha).
    { rewrite Heq. by apply (so_id _ _ (si_rows _ HI run Hrun)). }
    assert (r = run) as -> by (eapply (NoDup_fmap_in s_command); [apply HI|done|done|congruence]).
    by apply (open_not_answered d run (si_rows _ HI run Hrun)). }
  apply runs_keep; [done| |by apply prefix_app_r| | | |].
  - intros x Hx. apply elem_of_app. by left.
  - intros r Hr. destruct (Hf r Hr) as [[_ ->]|[-> ->]]; [done|]. split; [|done]. split; simpl; try done.
    destruct (s_stage run); simpl; lia.
  - intros r Hr. pose proof (si_rows _ HI r Hr) as Hok. destruct (Hf r Hr) as [[_ ->]|[-> ->]].
    { eapply scan_row_ok_more; [|exact Hok]. intros x Hx. apply elem_of_app. by left. }
    destruct Hok as [K1 K2 K3 K4 K5]. split; simpl; try done. intros _. exists s.
    split; [apply elem_of_app; right; by apply list_elem_of_singleton|].
    split; [done|]. split; [done|]. split; [by rewrite Hat|]. split; [simpl; by rewrite Hat|]. simpl.
    pose proof (scanRunFailure_passes run s) as Hp. case_bool_decide as Hb.
    + split; [|done]. intros _. apply Hp in Hb. by destruct Hb.
    + split; [done|]. intros [P1 P2 P3 P4 P5]. destruct Hb. apply Hp. by split.
  - rewrite fmap_app, filter_app. apply NoDup_app. split; [apply HI|]. split.
    + intros c Hc Hc'. apply list_elem_of_filter in Hc as [_ (x & -> & Hx)%list_elem_of_fmap].
      apply list_elem_of_filter in Hc' as [_ Heq%list_elem_of_singleton]. apply (Hfresh x Hx). congruence.
    + simpl. rewrite filter_cons. case_decide; [apply NoDup_singleton|constructor].
  - intros x [Hx| ->%list_elem_of_singleton]%elem_of_app; [by left|]. right. intros _. exists run.
    split; [done|]. split; [done|]. destruct (Hf run Hrun) as [[? _]|[_ ->]]; done.
Qed.

Lemma match_exec c runID s now d d' res :
  exec (MatchScanRun c runID s now) d = (d', res) ->
  match res with
  | Ok (ScanRunPass cmd) | Ok (ScanRunFail cmd _) =>
      exists run ts ss, run ∈ scan_runs d /\ cmd = s_command run /\ s_agent run = c /\ run_open run now = true /\
        d' = mkScanDB (sc_commands d)
          ((fun r => if is_open cmd r
             then answer_run now (bool_decide (scanRunFailure run s = [])) (scanRunFailure run s) r else r) <$> scan_runs d)
          ts ss (snapshots d)
  | Ok ScanRunUnknown => d' = d
  | Ok ScanRunStale => d' = d
  | Err _ => True
  end.
Proof.
  unfold MatchScanRun. cbn [exec query]. destruct (lookupScanRun c runID d) as [run|] eqn:El; [|by intros [= <- <-]].
  unfold lookupScanRun in El. apply head_Some_elem_of, list_elem_of_filter in El as [[_ Ha] Hin].
  destruct (run_open run now) eqn:Eo; cbn [negb]; [|by intros [= <- <-]]. cbn [exec complete_scan_run].
  assert (zlen (filter (fun r => is_open (s_command run) r = true) (scan_runs d)) ≠ 0) as Hn.
  { assert (run ∈ filter (fun r => is_open (s_command run) r = true) (scan_runs d)) as Hf.
    { apply list_elem_of_filter. split; [|done]. unfold is_open, run_open in *. go_bools.
      by rewrite !bool_decide_eq_true_2. }
    destruct (filter _ _); [by apply not_elem_of_nil in Hf|]. unfold zlen. simpl. lia. }
  apply Z.eqb_neq in Hn. rewrite Hn. destruct (bool_decide _) eqn:Er; cbn [negb].
  - cbn [exec match_target]. destruct (negb _); cbn [exec settle_scanner]; intros [= <- <-]; exists run; eexists _, _;
      rewrite Er; (split; [done|]); (split; [done|]); (split; [done|]); by split.
  - intros [= <- <-]. exists run. eexists _, _. rewrite Er. split; [done|]. split; [done|]. split; [done|]. by split.
Qed.

Lemma record_exec s now result d d' x :
  exec (RecordScanSnapshot s (record_refresh s now result)) d = (d', Ok x) ->
  exists ss, d' = mkScanDB (sc_commands d) (scan_runs d) (scan_targets d) ss (snapshots d ++ [s]).
Proof.
  unfold RecordScanSnapshot, record_refresh. destruct (negb (snapshot_ok s)); [done|]. cbn [exec insert_snapshot].
  cbv zeta. destruct (negb _); cbn [exec SetCanaryDBRefresh]; [intros [= <- _]; by eexists|].
  destruct (_ && _)%bool; cbn [exec SetCanaryDBRefresh]; intros [= <- _]; by eexists.
Qed.

Lemma reason_not_too_old run s :
  (StatusOK s && ScanDBTooOld (DBBuiltAt s) (TakenAt s))%bool = false -> scanRunFailure run s ≠ ReasonDBTooOld.
Proof.
  intros Hold Heq. unfold scanRunFailure in Heq. destruct (StatusOK s) eqn:E; simpl in Heq.
  - simpl in Hold. rewrite Hold in Heq. repeat (destruct (_ : bool) in Heq; [by vm_compute in Heq|]). done.
  - destruct (failed_reason (snReason s)) as [rest Hr]. simpl in Hr. rewrite Hr in Heq. by vm_compute in Heq.
Qed.

Lemma store_scan_keeps s runID now d d' x :
  scan_inv d -> ReceivedAt s = now -> SelfTestRunID s = [] ->
  (StatusOK s && ScanDBTooOld (DBBuiltAt s) (TakenAt s))%bool = false ->
  exec (store_scan s runID now) d = (d', Ok x) -> scan_keeps d d'.
Proof.
  intros HI Hat Hid Hold. unfold store_scan. cbv zeta.
  assert (forall ss, scan_keeps d (mkScanDB (sc_commands d) (scan_runs d) (scan_targets d) ss (snapshots d ++ [s]))) as Hplain.
  { intros ss. apply same_runs_keep; [done|by apply prefix_app_r| |].
    - intros y [Hy| ->%list_elem_of_singleton]%elem_of_app; [by left|by right].
    - rewrite fmap_app, filter_app. simpl. rewrite Hid, filter_cons_False, filter_nil, app_nil_r by auto. apply HI. }
  destruct (bool_decide _); [intros Hx; apply record_exec in Hx as [ss ->]; apply Hplain|].
  rewrite exec_pbind. destruct (exec (MatchScanRun _ _ _ _) d) as [d1 r] eqn:E. apply match_exec in E.
  destruct r as [[| |cmd why|cmd]|err]; [done| | | |done].
  - subst d1. intros Hx. apply record_exec in Hx as [ss ->]. apply Hplain.
  - destruct E as (run & ts & ss & Hrun & -> & Ha & Ho & ->). intros Hx.
    apply record_exec in Hx as [ss' ->]. simpl.
    apply (settle_keeps run (set_run (s_command run) s)); try done. by apply reason_not_too_old.
  - destruct E as (run & ts & ss & Hrun & -> & Ha & Ho & ->). intros Hx.
    apply record_exec in Hx as [ss' ->]. simpl.
    apply (settle_keeps run (set_run (s_command run) s)); try done. by apply reason_not_too_old.
Qed.
End keeps.

(** ** Requests *)

Section requests.
Context {stdlib : Stdlib} {engine : Engine} (marshal_scan : bytes -> bytes) (run_of_params : bytes -> option bytes)
  (ParseRFC3339 : bytes -> option Z) (FormatRFC3339 : Z -> bytes).

Inductive scan_request : Type :=
| ReqMintScan (canaryID : bytes) (trigger : ScanRunTrigger) (now deadline : Z) (runID rid : option bytes)
| ReqScan (canaryID : bytes) (now : Z) (body : ingestScan)
| ReqProgress (canaryID : bytes) (refresh : option bytes) (run : option ingestRunReport) (now : Z)
| ReqPollScan (canaryID kind : bytes) (now : Z)
| ReqSweepScans (now : Z).

Definition ignore {A} (p : prog scan_db A) : prog scan_db unit := pbind p (fun _ => Ret tt).

(** A heartbeat with a malformed report is refused before anything is stored. *)
Definition serve_scan (rq : scan_request) : prog scan_db unit :=
  match rq with
  | ReqMintScan c t now deadline runID rid => ignore (MintScanCommand marshal_scan c t now deadline runID rid)
  | ReqScan c now b => ignore (handleScan ParseRFC3339 FormatRFC3339 c now b)
  | ReqProgress c refresh run now =>
      if match run with Some rr => report_ok rr | None => true end
      then ignore (recordScannerProgress c refresh run now) else Ret tt
  | ReqPollScan c kind now => ignore (handleCommands run_of_params c kind now)
  | ReqSweepScans now => Stmt (sweep_scans now) (fun _ => Ret tt)
  end.

(** The random source never gives an empty id. *)
Definition drawn (rq : scan_request) : Prop :=
  match rq with ReqMintScan _ _ _ _ _ rid => rid ≠ Some [] | _ => True end.

Notation holds := (valid scan_inv scan_le (fun _ _ => True)).

Lemma ignore_valid {A} (p : prog scan_db A) o d : holds p o d -> holds (ignore p) o d.
Proof. intros Hp. eapply (valid_pbind scan_inv scan_le); [exact Hp|]. by intros. Qed.

Lemma stmt_valid {A T} (f : scan_db -> option (scan_db * T)) (k : option T -> prog scan_db A) o d :
  (forall d1 d' r, scan_inv d1 -> f d1 = Some (d', r) -> scan_keeps d1 d') ->
  (forall r o d', holds (k r) o d') -> holds (Stmt f k) o d.
Proof.
  intros Hf Hk d1 HR HI. split; [|apply Hk]. intros d' r Hx. destruct (Hf d1 d' r HI Hx) as [HI' HR'].
  split; [done|]. split; [done|]. split; apply Hk.
Qed.

Lemma query_valid {A T} (q : scan_db -> T) (k : option T -> prog scan_db A) o d :
  (forall r o d', holds (k r) o d') -> holds (Stmt (query q) k) o d.
Proof. intros Hk. apply stmt_valid; [|exact Hk]. intros d1 d' r HI [= <- <-]. by split. Qed.

Lemma in_transaction_valid {E A} (lost : E) (body : prog scan_db (res E A)) o d :
  (forall d1 d' a, scan_inv d1 -> exec body d1 = (d', Ok a) -> scan_keeps d1 d') -> holds (in_transaction lost body) o d.
Proof.
  intros Hb. apply stmt_valid; [|done]. intros d1 d' r HI. unfold transaction.
  destruct (exec body d1) as [d2 [a|e]] eqn:Ex; intros [= <- _]; [by eapply Hb|by split].
Qed.

Lemma advance_valid c runID stage now o d :
  stage ≠ StageAnswered -> holds (AdvanceRunStage c runID stage now) o d.
Proof.
  intros Hst. unfold AdvanceRunStage. apply query_valid. intros [[run|]|] o' d'; try done.
  destruct (negb _); [done|]. destruct (_ =? _) eqn:E1; [done|]. destruct (_ <? _) eqn:E2; [done|]. go_bools.
  apply stmt_valid; [|done]. intros d1 d2 n HI. apply stage_keeps; [done|done|lia].
Qed.

Lemma snapshot_fields c now b s :
  scan_snapshot ParseRFC3339 FormatRFC3339 c now b = Some s ->
  ReceivedAt s = now /\ SelfTestRunID s = [] /\ snCanaryID s = c /\
  (StatusOK s && ScanDBTooOld (DBBuiltAt s) (TakenAt s))%bool = false.
Proof.
  unfold scan_snapshot. intros Hs. repeat (case_match; try done). injection Hs as <-. unfold too_old_fails.
  destruct (_ && _)%bool eqn:E; simpl in *; by split_and!.
Qed.

Lemma serve_scan_valid rq o d : drawn rq -> holds (serve_scan rq) o d.
Proof.
  intros Hd. destruct rq as [c t now deadline runID rid|c now b|c refresh run now|c kind now|now]; cbn [serve_scan].
  - apply ignore_valid. unfold MintScanCommand. destruct runID as [runID|]; [|done]. apply in_transaction_valid.
    intros d1 d' cmd HI. by apply mint_scan_keeps.
  - apply ignore_valid. unfold handleScan. destruct (scan_snapshot _ _ c now b) as [s|] eqn:E; [|done].
    apply snapshot_fields in E as (H1 & H2 & _ & H3).
    eapply (valid_pbind scan_inv scan_le); [|by intros]. apply in_transaction_valid. intros d1 d' x HI.
    by apply store_scan_keeps.
  - destruct (match run with Some rr => _ | None => _ end) eqn:E; [|done]. apply ignore_valid.
    apply stmt_valid; [intros d1 d' r HI [= <- _]; by apply scanners_keep|]. intros r o' d'.
    destruct r as [u|]; [|done]. destruct run as [rr|]; [|done].
    eapply (valid_pbind scan_inv scan_le); [|by intros]. apply advance_valid. unfold report_ok in E. go_bools.
    by destruct (rrStage rr).
  - apply ignore_valid. unfold handleCommands. eapply (valid_pbind scan_inv scan_le).
    + apply (valid_on_table cmd_inv cmd_le scan_inv scan_le sc_commands put_commands (fun _ => True)) with (ot := []).
      * intros db [? _ _ _ _ _]. done.
      * by intros db db' [? _ _].
      * intros db t. apply commands_scan_keep.
      * done.
      * eapply (valid_mono cmd_inv cmd_le); [|apply (cmd_serve_valid (ReqClaim c (Some (commandKindsFor kind)) now))].
        done.
    + intros [cmd|e] o' d' _ _; [|done]. destruct (bool_decide _); [|done]. unfold advanceClaimedScan.
      destruct (run_of_params _) as [runID|]; [|done]. destruct (bool_decide _); [done|].
      eapply (valid_pbind scan_inv scan_le); [by apply advance_valid|by intros].
  - apply stmt_valid; [|done]. intros d1 d' r HI. by apply sweep_scans_keeps.
Qed.

(** A database in which no scan was ordered. *)
Definition new_scan_db (ags : list scanner_row) : scan_db := mkScanDB [] [] [] ags [].

Lemma new_scan_inv ags : scan_inv (new_scan_db ags).
Proof.
  split; simpl; try (by intros ? ?%not_elem_of_nil); try constructor; try constructor.
  by intros r r' ?%not_elem_of_nil.
Qed.

(** C20. A scan's run is settled once and honestly: however mints, snapshots,
    progress reports, polls and sweeps interleave, with statements failing or
    losing their answers, a node has one open run at most; a run has a verdict
    exactly when it is complete; it is answered exactly by one stored
    snapshot of its own node, received before its deadline, and passed exactly
    when that snapshot is ok, taken and its database refreshed after the run
    was ordered, from a database young enough and with every path masked;
    otherwise it failed at its deadline; no run gives an old database as its
    reason; and what a statement left complete, or at a stage, is not undone. *)
Theorem scan_runs_settle_once (ags : list scanner_row) (rqs : list scan_request) (c : conf scan_db unit) :
  Forall drawn rqs -> Sql.runs (start (new_scan_db ags) (serve_scan <$> rqs)) c ->
  let d := cdb c in
  (forall r r', r ∈ scan_runs d -> r' ∈ scan_runs d -> s_agent r = s_agent r' ->
     s_completed r = None -> s_completed r' = None -> r = r') /\
  (forall r, r ∈ scan_runs d ->
     (s_completed r = None <-> s_passed r = None) /\ s_reason r ≠ ReasonDBTooOld /\
     (s_stage r = StageAnswered -> exists s, s ∈ snapshots d /\ SelfTestRunID s = s_command r /\
        snCanaryID s = s_agent r /\ s_completed r = Some (ReceivedAt s) /\ ReceivedAt s < s_deadline r /\
        (s_passed r = Some true <-> passes r s)) /\
     (s_stage r ≠ StageAnswered -> forall t, s_completed r = Some t ->
        s_passed r = Some false /\ s_deadline r - t < resolution)) /\
  NoDup (filter (fun c => c ≠ []) (SelfTestRunID <$> snapshots d)) /\
  (forall n i a b r, ctrace c !! n = Some (i, (a, b)) -> r ∈ scan_runs b ->
     exists r', r' ∈ scan_runs d /\ s_command r' = s_command r /\ stageRank (s_stage r) <= stageRank (s_stage r') /\
       (s_completed r ≠ None -> r' = r)).
Proof.
  intros Hd Hr d. rewrite Forall_forall in Hd.
  destruct (runs_valid scan_inv scan_le (fun _ _ _ => True) _ _ _ Hr (new_scan_inv ags)) as (HI & Hch & _ & _).
  { intros i p Hi. rewrite list_lookup_fmap in Hi. apply fmap_Some in Hi as (rq & Hi & ->).
    apply serve_scan_valid, Hd. by eapply list_elem_of_lookup_2. }
  split; [apply HI|]. split; [|split; [apply HI|]].
  - intros r Hin. destruct (si_rows _ HI r Hin) as [_ H2 H3 H4 H5]. by split_and!.
  - intros n i a b r Hn Hin. pose proof (chain_after scan_inv scan_le _ _ _ _ _ _ _ Hch Hn) as Hle.
    destruct (table_le_in srow_le _ _ _ (scl_runs _ _ Hle) Hin) as (r' & Hr' & [(Hc & _) _ Hs Heq]). by exists r'.
Qed.
End requests.

(** ** A proof of a scanner *)

#[local] Instance ex_milliseconds : Engine.
Proof.
  refine {| instant := fun t => t; resolution := 1 |}; intros a b Hab; lia.
Defined.
#[local] Existing Instance ex_stdlib.

Definition ex_time (s : bytes) : option Z := Some (dec_val s).
Definition ex_scan (runID : string) (built : string) : ingestScan :=
  mkIngestScan (lit runID) (lit "200") (lit "grype") (lit "1") (lit built) (lit "150") [] (lit "ok") [] [] Paths.

Definition ex_scan_requests : list scan_request :=
  [ReqMintScan (lit "owl") TriggerProof 100 1000 (Some (lit "r1")) (Some (lit "c1"));
   ReqMintScan (lit "owl") TriggerManual 110 1010 (Some (lit "r2")) (Some (lit "c2"));
   ReqPollScan (lit "owl") Scanner 120;
   ReqProgress (lit "owl") None (Some (mkReport (lit "r1") StageScanning)) 160;
   ReqScan (lit "owl") 300 (ex_scan "r1" "100");
   ReqScan (lit "owl") 310 (ex_scan "r1" "100");
   ReqSweepScans 2000].

Definition ex_scan_run : conf scan_db unit :=
  schedule (concat (replicate 4 <$> [0; 1; 2; 3; 4; 5; 6])%nat)
    (start (new_scan_db [mkScanner (lit "owl") Scanner None None []])
       (serve_scan (fun r => r) (fun p => Some p) ex_time (fun _ => []) <$> ex_scan_requests)).

Definition ex_proof_run : scan_row :=
  mkScanRow (lit "c1") (lit "owl") (lit "r1") 100 1000 (Some 300) (Some true) TriggerProof StageAnswered 300 [].

Lemma scan_runs_settle_once_witness :
  scan_runs (cdb ex_scan_run) = [ex_proof_run] /\ (sa_registered <$> scanners (cdb ex_scan_run)) = [Some 300] /\
  (SelfTestRunID <$> snapshots (cdb ex_scan_run)) = [lit "c1"; []] /\
  exists s, s ∈ snapshots (cdb ex_scan_run) /\ SelfTestRunID s = lit "c1" /\ passes ex_proof_run s.
Proof.
  assert (scan_runs (cdb ex_scan_run) = [ex_proof_run]) as Hruns by (vm_compute; reflexivity).
  split; [exact Hruns|]. split; [vm_compute; reflexivity|]. split; [vm_compute; reflexivity|].
  assert (Forall drawn ex_scan_requests) as Hd by (unfold ex_scan_requests; repeat constructor; simpl; done).
  destruct (scan_runs_settle_once (fun r => r) (fun p => Some p) ex_time (fun _ => []) [mkScanner (lit "owl") Scanner None None []]
              ex_scan_requests ex_scan_run Hd (schedule_runs _ _)) as (_ & Hrows & _ & _).
  assert (ex_proof_run ∈ scan_runs (cdb ex_scan_run)) as Hin by (rewrite Hruns; by left).
  destruct (Hrows ex_proof_run Hin) as (_ & _ & Hans & _). destruct (Hans eq_refl) as (s & Hs & Hid & _ & _ & _ & Hp).
  exists s. split; [exact Hs|]. split; [exact Hid|]. by apply Hp.
Defined.
