(* ===== verification/Settings.v ===== *)
(** A canary's settings: birdcage's table of them
    ([internal/store/canary_settings.go]), what a heartbeat answers
    ([pushSettings] of [internal/ingest/heartbeat.go]), and what the agent makes
    of it ([cmd/mockingbird/agentsettings.go],
    [internal/agent/client/settings.go]).

    A Go map is a [gmap]; the order in which [range] visits it is an argument.
    SHA-256 in hex is the section variable [sha256_hex]. *)
From S2P Require Import Prelude GoBase GoStrings GoTime Sql SelfTest AuditLog BaitNames Query Schedule.
#[local] Open Scope Z_scope.

(** ** canary_settings.go: keys and their values *)

Definition CanarySettingSegmentProfile : bytes := lit "segment_profile".
Definition CanarySettingBaitNames : bytes := lit "bait_names".
Definition CanarySettingPaceFloor : bytes := lit "pace_floor".
Definition CanarySettingPaceCeiling : bytes := lit "pace_ceiling".
Definition CanarySettingWorkingHours : bytes := lit "working_hours".

Definition orderedCanarySettingKeys : list bytes :=
  [CanarySettingSegmentProfile; CanarySettingBaitNames; CanarySettingPaceFloor; CanarySettingPaceCeiling;
   CanarySettingWorkingHours].

Definition canarySettingMaxValueLen : Z := 512.

Definition validateCanarySettingSize (value : bytes) : bool := zlen value <=? canarySettingMaxValueLen.

Definition validatePositiveDuration (value : bytes) : bool :=
  if bool_decide (value = []) then true
  else match ParseDuration value with None => false | Some d => 0 <? d end.

Section values.
Context `{Unicode}.

(** The operator's names: [None] where an entry could not be used. *)
Definition usable_names (value : bytes) : option (list bytes) :=
  if bool_decide (value = []) then Some []
  else let '(names, refused, err) := ParseNames value in
       if bool_decide (err = None) && negb (0 <? refused) then Some names else None.

(** [canarySettingDefs]: each key's check of its value; every key is for
    honeypots only. *)
Definition canarySettingDefs : list (bytes * (bytes -> bool)) :=
  [(CanarySettingSegmentProfile, fun value => bool_decide (is_Some (ParseProfile value)));
   (CanarySettingBaitNames, fun value => bool_decide (is_Some (usable_names value)));
   (CanarySettingPaceFloor, validatePositiveDuration);
   (CanarySettingPaceCeiling, validatePositiveDuration);
   (CanarySettingWorkingHours, fun value => is_ok (ParseWorkingHours value))].

Definition setting_def (key : bytes) : option (bytes -> bool) :=
  snd <$> head (filter (fun d => d.1 = key) canarySettingDefs).

Definition honeypotOnly (kind : bytes) : bool := bool_decide (kind = lit "honeypot").

Definition CanarySettingAppliesToKind (key kind : bytes) : bool :=
  bool_decide (is_Some (setting_def key)) && honeypotOnly kind.

(** ** The table *)

Record CanarySetting : Type := mkSetting {
  csAgent : bytes;
  Key : bytes;
  Value : bytes;
  Version : Z;
  UpdatedAt : Z;
}.

Record settings_db : Type := mkSettingsDB {
  settings : list CanarySetting;
  settings_audits : list Entry;
}.

Definition put_audits (l : list Entry) (d : settings_db) : settings_db := mkSettingsDB (settings d) l.

Inductive settings_error : Type :=
| ErrCanarySettingUnknown
| ErrCanarySettingInvalidValue
| ErrCanarySettingWrongKind
| ErrSettingsCaller
| ErrSettingsStore.

Definition is_setting (canaryID key : bytes) (s : CanarySetting) : bool :=
  bool_decide (csAgent s = canaryID) && bool_decide (Key s = key).

Definition bump (value : bytes) (at_ : Z) (s : CanarySetting) : CanarySetting :=
  mkSetting (csAgent s) (Key s) value (Version s + 1) at_.

(** [INSERT ... ON CONFLICT (agent_id, key) DO UPDATE] *)
Definition upsert (canaryID key value : bytes) (at_ : Z) (d : settings_db) : option (settings_db * unit) :=
  let l := settings d in
  Some (mkSettingsDB
          (if existsb (is_setting canaryID key) l
           then (fun s => if is_setting canaryID key s then bump value at_ s else s) <$> l
           else l ++ [mkSetting canaryID key value 1 at_])
          (settings_audits d), tt).

Definition upsertCanarySetting (canaryID key value : bytes) (at_ : Z) : prog settings_db (res settings_error unit) :=
  match setting_def key with
  | None => Ret (Err ErrCanarySettingUnknown)
  | Some validate =>
      if negb (validateCanarySettingSize value) then Ret (Err ErrCanarySettingInvalidValue) else
      if negb (validate value) then Ret (Err ErrCanarySettingInvalidValue) else
      if at_ =? 0 then Ret (Err ErrSettingsCaller) else
      Stmt (upsert canaryID key value at_)
        (fun r => Ret (match r with None => Err ErrSettingsStore | Some _ => Ok tt end))
  end.

(** [a < b] on strings. *)
Fixpoint bytes_le (a b : bytes) : bool :=
  match a, b with
  | [], _ => true
  | _ :: _, [] => false
  | x :: a, y :: b => if x =? y then bytes_le a b else x <? y
  end.

Definition str_le (a b : bytes) : Prop := bytes_le a b = true.

#[export] Instance str_le_dec a b : Decision (str_le a b).
Proof. unfold str_le. apply _. Defined.

(** [sort.Strings] *)
Definition sort_strings : list bytes -> list bytes := merge_sort str_le.

(** The loop over the sorted keys. *)
Fixpoint upsert_all (canaryID : bytes) (updates : gmap bytes bytes) (keys : list bytes) (at_ : Z)
    (k : prog settings_db (res settings_error unit)) : prog settings_db (res settings_error unit) :=
  match keys with
  | [] => k
  | key :: keys =>
      pbind (upsertCanarySetting canaryID key (default [] (updates !! key)) at_) (fun r =>
      match r with Err e => Ret (Err e) | Ok _ => upsert_all canaryID updates keys at_ k end)
  end.

Definition keys_of (m : gmap bytes bytes) : list bytes := (map_to_list m).*1.

(** What is checked before the transaction, the keys in the order [range]
    visits them. *)
Fixpoint keys_allowed (kind : bytes) (keys : list bytes) : res settings_error unit :=
  match keys with
  | [] => Ok tt
  | key :: keys =>
      if bool_decide (setting_def key = None) then Err ErrCanarySettingUnknown
      else if negb (CanarySettingAppliesToKind key kind) then Err ErrCanarySettingWrongKind
      else keys_allowed kind keys
  end.

Definition comma_names (keys : list bytes) : bytes :=
  match keys with [] => [] | k :: keys => k ++ concat ((fun k => lit ", " ++ k) <$> keys) end.

Definition SetCanarySettings (canaryID kind : bytes) (updates : gmap bytes bytes) (order : list bytes) (at_ : Z)
    (triggeredBy : bytes) : prog settings_db (res settings_error unit) :=
  if bool_decide (updates = ∅) then Ret (Err ErrSettingsCaller) else
  if at_ =? 0 then Ret (Err ErrSettingsCaller) else
  if bool_decide (triggeredBy = []) then Ret (Err ErrSettingsCaller) else
  match keys_allowed kind order with
  | Err e => Ret (Err e)
  | Ok _ =>
      let keys := sort_strings order in
      in_transaction ErrSettingsStore
        (upsert_all canaryID updates keys at_
           (pbind (on_table settings_audits put_audits
                     (Append (mkAudit (lit "canary_settings.updated") canaryID (lit "updated " ++ comma_names keys)
                                triggeredBy at_)))
              (fun ok : bool => Ret (if ok then Ok tt else Err ErrSettingsStore))))
  end.

(** [SeedCanarySettingsFromEnrolment], within provisioning's transaction. *)
Definition seed_one (canaryID key value : bytes) (now : Z) (k : prog settings_db (res settings_error unit)) :
    prog settings_db (res settings_error unit) :=
  if bool_decide (value = []) then k
  else pbind (upsertCanarySetting canaryID key value now) (fun r => match r with Err e => Ret (Err e) | Ok _ => k end).

Definition SeedCanarySettingsFromEnrolment (canaryID baitNames segmentProfile : bytes) (now : Z) :
    prog settings_db (res settings_error unit) :=
  seed_one canaryID CanarySettingBaitNames baitNames now
    (seed_one canaryID CanarySettingSegmentProfile segmentProfile now (Ret (Ok tt))).

(** [ListCanarySettings]: in the order of the keys. *)
Definition setting_le (a b : CanarySetting) : Prop := str_le (Key a) (Key b).

#[local] Instance setting_le_dec a b : Decision (setting_le a b).
Proof. unfold setting_le. apply _. Defined.

Definition ListCanarySettings (canaryID : bytes) (d : settings_db) : list CanarySetting :=
  merge_sort setting_le (filter (fun s => csAgent s = canaryID) (settings d)).

(** ** The digest of a block of settings *)

Section digest.
Context (sha256_hex : bytes -> bytes).

Definition pair_line (m : gmap bytes bytes) (k : bytes) : bytes := k ++ 61 :: default [] (m !! k) ++ [10].

(** [hashSettingsPairs], and [client.SettingsHash]. *)
Definition settings_text (m : gmap bytes bytes) : bytes := concat (pair_line m <$> sort_strings (keys_of m)).
Definition hashSettingsPairs (m : gmap bytes bytes) : bytes := sha256_hex (settings_text m).

Definition pairs_of (l : list CanarySetting) : gmap bytes bytes := foldl (fun m s => <[Key s := Value s]> m) ∅ l.

Definition SettingsHash (l : list CanarySetting) : bytes := hashSettingsPairs (pairs_of l).

(** ** heartbeat.go: the answer *)

(** The block [pushSettings] answers with, given what listing the settings gave. *)
Definition pushSettings (listed : option (list CanarySetting)) (reportedHash : bytes) : option (gmap bytes bytes) :=
  match listed with
  | None => None
  | Some l =>
      if zlen l =? 0 then None
      else if bool_decide (SettingsHash l = reportedHash) then None else Some (pairs_of l)
  end.

(** ** agentsettings.go *)

Definition settingMaxValueLen : Z := 512.

Record agentSettings : Type := mkAgentSettings {
  effective : gmap bytes bytes;
  profile : bytes;
  names : list bytes;
  pace : PaceSettings;
}.

Definition newAgentSettings (p : bytes) (ns : list bytes) (ps : PaceSettings) : agentSettings := mkAgentSettings ∅ p ns ps.

(** [Hash]: nothing until a push was applied. *)
Definition Hash (a : agentSettings) : bytes := if bool_decide (effective a = ∅) then [] else hashSettingsPairs (effective a).

Definition with_profile (p : bytes) (a : agentSettings) : agentSettings := mkAgentSettings (effective a) p (names a) (pace a).
Definition with_names (ns : list bytes) (a : agentSettings) : agentSettings :=
  mkAgentSettings (effective a) (profile a) ns (pace a).
Definition with_pace (f : PaceSettings -> PaceSettings) (a : agentSettings) : agentSettings :=
  mkAgentSettings (effective a) (profile a) (names a) (f (pace a)).

Definition with_floor (d : Z) (p : PaceSettings) : PaceSettings := mkPace d (CeilingGap p) (Hours p).
Definition with_ceiling (d : Z) (p : PaceSettings) : PaceSettings := mkPace (FloorGap p) d (Hours p).
Definition with_hours (h : WorkingHours) (p : PaceSettings) : PaceSettings := mkPace (FloorGap p) (CeilingGap p) h.

(** What a pushed pair sets; [None] where it is refused. *)
Definition setting_effect (key value : bytes) : option (agentSettings -> agentSettings) :=
  if settingMaxValueLen <? zlen value then None else
  if bool_decide (key = CanarySettingSegmentProfile) then option_map with_profile (ParseProfile value)
  else if bool_decide (key = CanarySettingBaitNames) then option_map with_names (usable_names value)
  else if bool_decide (key = CanarySettingPaceFloor) then
    match ParseDuration value with
    | Some d => if d <=? 0 then None else Some (with_pace (with_floor d))
    | None => None
    end
  else if bool_decide (key = CanarySettingPaceCeiling) then
    match ParseDuration value with
    | Some d => if d <=? 0 then None else if d <? MinCeilingGap then None else Some (with_pace (with_ceiling d))
    | None => None
    end
  else if bool_decide (key = CanarySettingWorkingHours) then
    match ParseWorkingHours value with Ok h => Some (with_pace (with_hours h)) | Err _ => None end
  else None.

Definition set_effective (key value : bytes) (a : agentSettings) : agentSettings :=
  mkAgentSettings (<[key := value]> (effective a)) (profile a) (names a) (pace a).

(** The loop of [Apply], and whether something changed. *)
Definition apply_pair (s : agentSettings * bool) (kv : bytes * bytes) : agentSettings * bool :=
  match setting_effect kv.1 kv.2 with
  | None => s
  | Some f => (set_effective kv.1 kv.2 (f s.1), true)
  end.

(** What the detector is set to. *)
Definition live : Type := bytes * list bytes * PaceSettings.
Definition live_of (a : agentSettings) : live := (profile a, names a, pace a).

(** [Apply]: the new state, and what [SetLiveSettings] is called with. *)
Definition Apply (pushed : gmap bytes bytes) (order : list (bytes * bytes)) (detector : bool) (a : agentSettings) :
    agentSettings * option live :=
  if negb detector || bool_decide (pushed = ∅) then (a, None) else
  let '(a, changed) := foldl apply_pair (a, false) order in
  (a, if changed then Some (live_of a) else None).

(** [sendHeartbeat] of an agent with a detector, against a birdcage that
    lists the settings [l]. *)
Definition sendHeartbeat (listed : option (list CanarySetting)) (range : gmap bytes bytes -> list (bytes * bytes))
    (a : agentSettings) : agentSettings * option live :=
  match pushSettings listed (Hash a) with
  | None => (a, None)
  | Some pushed => Apply pushed (range pushed) true a
  end.
End digest.

(** ** Sorting *)

#[local] Instance str_le_total : Total str_le.
Proof.
  intros a. unfold str_le. induction a as [|x a IH]; intros [|y b]; simpl; auto.
  rewrite (Z.eqb_sym y x). destruct (Z.eqb_spec x y); [apply IH|]. destruct (Z.ltb_spec x y); [by left|].
  right. apply Z.ltb_lt. lia.
Qed.

Lemma sort_strings_perm l : Permutation (sort_strings l) l.
Proof. apply merge_sort_Permutation. Qed.

(** ** The table *)

(** What the table holds: one row for each canary and key, every one with a
    value its key allows. *)
Definition row_valid (s : CanarySetting) : Prop :=
  zlen (Value s) <= canarySettingMaxValueLen /\
  exists validate, setting_def (Key s) = Some validate /\ validate (Value s) = true.

Record settings_inv (d : settings_db) : Prop := {
  se_keys : NoDup ((fun s => (csAgent s, Key s)) <$> settings d);
  se_rows : Forall row_valid (settings d);
}.

Lemma is_setting_spec c k s : is_setting c k s = true <-> csAgent s = c /\ Key s = k.
Proof. unfold is_setting. by rewrite andb_true_iff, !bool_decide_eq_true. Qed.

Lemma upsert_keeps c k v t validate d d' u :
  settings_inv d -> setting_def k = Some validate -> validate v = true -> zlen v <= canarySettingMaxValueLen ->
  upsert c k v t d = Some (d', u) -> settings_inv d'.
Proof.
  intros [Hk Hr] Hd Hv Hl [= <- <-]. rewrite Forall_forall in Hr. destruct (existsb _ _) eqn:Ex; split; simpl.
  - rewrite table_column_map; [done|]. intros s _. by destruct (is_setting c k s).
  - apply Forall_fmap, Forall_forall. intros s Hs. simpl. destruct (is_setting c k s) eqn:Ei; [|by apply Hr].
    apply is_setting_spec in Ei as [_ Hk']. split; [done|]. exists validate. simpl. by rewrite Hk'.
  - apply NoDup_fmap_snoc; [done|]. simpl. intros s Hs [= Hc Hk']. rewrite <- not_true_iff_false, existsb_exists in Ex.
    apply Ex. exists s. split; [by apply list_elem_of_In|]. by apply is_setting_spec.
  - apply Forall_app. split; [by apply Forall_forall|]. apply Forall_singleton. split; [done|]. by exists validate.
Qed.

Lemma upsertCanarySetting_keeps c k v t d :
  settings_inv d -> settings_inv (exec (upsertCanarySetting c k v t) d).1.
Proof.
  intros HI. unfold upsertCanarySetting. destruct (setting_def k) as [validate|] eqn:Ed; [|done].
  destruct (negb (validateCanarySettingSize v)) eqn:E1; [done|]. destruct (negb (validate v)) eqn:E2; [done|].
  destruct (t =? 0); [done|]. unfold validateCanarySettingSize in E1. go_bools. cbn [exec].
  destruct (upsert c k v t d) as [[d' u]|] eqn:E; [|done]. simpl. by eapply upsert_keeps.
Qed.

Lemma upsert_all_keeps c m keys t k : (forall d, settings_inv d -> settings_inv (exec k d).1) -> forall d,
  settings_inv d -> settings_inv (exec (upsert_all c m keys t k) d).1.
Proof.
  intros Hk. induction keys as [|key keys IH]; intros d HI; simpl; [by apply Hk|].
  rewrite exec_pbind. pose proof (upsertCanarySetting_keeps c key (default [] (m !! key)) t d HI) as H1.
  destruct (exec _ d) as [d' [u|e]]; simpl in *; [by apply IH|done].
Qed.

Lemma SetCanarySettings_keeps c kind m order t by_ d :
  settings_inv d -> settings_inv (exec (SetCanarySettings c kind m order t by_) d).1.
Proof.
  intros HI. unfold SetCanarySettings. destruct (bool_decide (m = _)); [done|]. destruct (t =? 0); [done|].
  destruct (bool_decide (by_ = _)); [done|]. destruct (keys_allowed kind order); [|done]. cbn [in_transaction exec].
  unfold transaction. set (p := upsert_all _ _ _ _ _). assert (settings_inv (exec p d).1) as Hp.
  { unfold p. apply upsert_all_keeps; [|done]. intros d0 [H1 H2]. rewrite exec_pbind.
    rewrite exec_on_table by (by intros []). cbn [exec]. destruct (exec _ _) as [l ok]. simpl. by destruct ok. }
  by destruct (exec p d) as [d' [u|e]].
Qed.

(** The value stored for a canary's key. *)
Definition stored_value (d : settings_db) (c k v : bytes) : Prop :=
  exists s, s ∈ settings d /\ csAgent s = c /\ Key s = k /\ Value s = v.

Lemma upsert_stored c k v t d d' u : upsert c k v t d = Some (d', u) -> forall c' k' v',
  stored_value d' c' k' v' <-> (c' = c /\ k' = k /\ v' = v) \/ (~ (c' = c /\ k' = k) /\ stored_value d c' k' v').
Proof.
  intros [= <- <-] c' k' v'. unfold stored_value. cbn [settings]. destruct (existsb _ _) eqn:Ex.
  - apply existsb_exists in Ex as (s0 & Hs0%list_elem_of_In & Hi0). pose proof Hi0 as [<- <-]%is_setting_spec.
    setoid_rewrite list_elem_of_fmap. split.
    + intros (s & (x & -> & Hx) & <- & <- & <-). destruct (is_setting _ _ x) eqn:Ei.
      * apply is_setting_spec in Ei as [? ?]. left. by split_and!.
      * right. split; [|by exists x]. intros [? ?]. rewrite <- not_true_iff_false, is_setting_spec in Ei. by apply Ei.
    + intros [(-> & -> & ->)|(Hne & s & Hs & <- & <- & <-)].
      * exists (bump v t s0). split; [|done]. exists s0. by rewrite Hi0.
      * exists s. split; [|done]. exists s. split; [|done]. destruct (is_setting _ _ s) eqn:Ei; [|done].
        by apply is_setting_spec in Ei.
  - rewrite <- not_true_iff_false, existsb_exists in Ex. setoid_rewrite elem_of_app. setoid_rewrite list_elem_of_singleton. split.
    + intros (s & [Hs| ->] & <- & <- & <-); [|by left]. right. split; [|by exists s]. intros [? ?]. apply Ex. exists s.
      split; [by apply list_elem_of_In|by apply is_setting_spec].
    + intros [(-> & -> & ->)|(Hne & s & Hs & ? & ? & ?)]; [eexists; split; [by right|done]|]. exists s. tauto.
Qed.

Definition value_allowed (k v : bytes) : Prop :=
  zlen v <= canarySettingMaxValueLen /\ exists validate, setting_def k = Some validate /\ validate v = true.

Lemma upsert_all_stored c m t K : forall keys d d', NoDup keys ->
  (forall d d', exec K d = (d', Ok tt) -> settings d' = settings d) ->
  exec (upsert_all c m keys t K) d = (d', Ok tt) ->
  (forall k, k ∈ keys -> value_allowed k (default [] (m !! k))) /\
  forall c' k v, stored_value d' c' k v <->
    (c' = c /\ k ∈ keys /\ v = default [] (m !! k)) \/ (~ (c' = c /\ k ∈ keys) /\ stored_value d c' k v).
Proof.
  induction keys as [|key keys IH]; intros d d' Hnd HK He; cbn [upsert_all] in He.
  { apply HK in He. split; [by intros k ?%not_elem_of_nil|]. intros c' k v. unfold stored_value. rewrite He.
    split; [intros Hs; right; split; [by intros [_ ?%not_elem_of_nil]|done]|]. by intros [(_ & ?%not_elem_of_nil & _)|[_ ?]]. }
  apply NoDup_cons in Hnd as [Hnew Hnd]. rewrite exec_pbind in He.
  destruct (exec (upsertCanarySetting _ _ _ _) d) as [d1 r1] eqn:Eu. unfold upsertCanarySetting in Eu.
  destruct (setting_def key) as [validate|] eqn:Ed; [|by injection Eu as <- <-].
  destruct (negb (validateCanarySettingSize _)) eqn:E1; [by injection Eu as <- <-|].
  destruct (negb (validate _)) eqn:E2; [by injection Eu as <- <-|]. destruct (t =? 0); [by injection Eu as <- <-|].
  cbn [exec] in Eu. destruct (upsert _ _ _ _ d) as [[d2 u]|] eqn:Ep; [|by injection Eu as <- <-].
  cbn [exec] in Eu. injection Eu as <- <-. cbn [exec fst snd] in He.
  destruct (IH d2 d' Hnd HK He) as [Hall Hst]. unfold validateCanarySettingSize in E1. go_bools. split.
  - intros k [-> |Hk]%elem_of_cons; [|by apply Hall]. split; [done|]. by exists validate.
  - intros c' k v. rewrite Hst, (upsert_stored _ _ _ _ _ _ _ Ep), elem_of_cons.
    destruct (decide (c' = c)), (decide (k = key)), (decide (k ∈ keys)); naive_solver.
Qed.

Lemma keys_allowed_spec kind keys : keys_allowed kind keys = Ok tt ->
  forall k, k ∈ keys -> CanarySettingAppliesToKind k kind = true.
Proof.
  induction keys as [|key keys IH]; cbn [keys_allowed]; intros Ha k; [by intros ?%not_elem_of_nil|].
  destruct (bool_decide _); [done|]. destruct (CanarySettingAppliesToKind key kind) eqn:E; [|done].
  intros [-> |Hk]%elem_of_cons; [done|by apply IH].
Qed.

(** What a write of settings does: all of it, or nothing. *)
Lemma SetCanarySettings_spec c kind m order t by_ d d' r :
  Permutation order (keys_of m) -> exec (SetCanarySettings c kind m order t by_) d = (d', r) ->
  (r ≠ Ok tt -> settings d' = settings d) /\
  (r = Ok tt ->
     (forall k v, m !! k = Some v -> CanarySettingAppliesToKind k kind = true /\ value_allowed k v) /\
     forall c' k v, stored_value d' c' k v <->
       (c' = c /\ m !! k = Some v) \/ (~ (c' = c /\ is_Some (m !! k)) /\ stored_value d c' k v)).
Proof.
  intros Ho He. unfold SetCanarySettings in He. destruct (bool_decide (m = _)); [by injection He as <- <-|].
  destruct (t =? 0); [by injection He as <- <-|]. destruct (bool_decide (by_ = _)); [by injection He as <- <-|].
  destruct (keys_allowed kind order) as [[]|] eqn:Ek; [|by injection He as <- <-]. cbn [in_transaction exec] in He.
  unfold transaction in He. set (K := pbind (on_table _ _ _) _) in He.
  destruct (exec (upsert_all c m (sort_strings order) t K) d) as [d1 [[]|e]] eqn:Eu; cbn [exec] in He; injection He as <- <-.
  2: { by split. }
  split; [done|]. intros _.
  assert (forall k, k ∈ sort_strings order <-> is_Some (m !! k)) as Hin.
  { intros k. rewrite sort_strings_perm, Ho. unfold keys_of. rewrite list_elem_of_fmap. split.
    - intros ([k' v] & -> & Hk%elem_of_map_to_list). by exists v.
    - intros [v Hv]. exists (k, v). split; [done|by apply elem_of_map_to_list]. }
  destruct (upsert_all_stored c m t K (sort_strings order) d d1) as [Hall Hst]; [| |done|].
  - rewrite sort_strings_perm, Ho. apply NoDup_fst_map_to_list.
  - intros d0 d0'. unfold K. rewrite exec_pbind, exec_on_table by (by intros []). destruct (exec _ _) as [l ok].
    cbn [fst snd]. destruct ok; cbn [exec]; [|done]. by intros [= <-].
  - split.
    + intros k v Hv. assert (k ∈ sort_strings order) as Hk by (apply Hin; by exists v). split.
      * eapply keys_allowed_spec; [exact Ek|]. by rewrite sort_strings_perm in Hk.
      * pose proof (Hall k Hk) as Ha. by rewrite Hv in Ha.
    + intros c' k v. rewrite Hst, Hin. destruct (m !! k) as [w|]; cbn [default]; [|by split; [intros [(_ & [? ?] & _)|?]; [done|by right]|intros [[_ ?]|?]; [done|by right]]].
      assert (is_Some (Some w)) by (by exists w). naive_solver.
Qed.

(** ** The digest *)

Section exchange.
Context (sha256_hex : bytes -> bytes).
Hypothesis digest_nonempty : forall t, sha256_hex t ≠ [].

(** Two blocks of different text with one digest. *)
Definition collides (m m' : gmap bytes bytes) : Prop :=
  settings_text m ≠ settings_text m' /\ sha256_hex (settings_text m) = sha256_hex (settings_text m').

Definition plain_key (k : bytes) : Prop := plain k /\ (10 : Z) ∉ k.

Definition plain_pairs (m : gmap bytes bytes) : Prop := forall k v, m !! k = Some v -> plain_key k /\ plain v.

Lemma known_key k validate : setting_def k = Some validate -> k ∈ orderedCanarySettingKeys.
Proof.
  unfold setting_def. intros Hd. destruct (head (filter _ _)) as [d|] eqn:Eh; [|done].
  assert (d ∈ filter (fun d => d.1 = k) canarySettingDefs) as Hin by (destruct (filter _ _); [done|injection Eh as ->; left]).
  apply list_elem_of_filter in Hin as [<- Hin]. unfold canarySettingDefs in Hin. unfold orderedCanarySettingKeys.
  rewrite !elem_of_cons in Hin. rewrite !elem_of_cons.
  destruct Hin as [->|[->|[->|[->|[->|Hin]]]]]; simpl; try tauto; by apply not_elem_of_nil in Hin.
Qed.

Lemma known_key_plain k : k ∈ orderedCanarySettingKeys -> plain_key k.
Proof.
  assert (Forall plain_key orderedCanarySettingKeys) as Hf.
  { unfold plain_key, plain. apply (bool_decide_unpack _). vm_compute. exact I. }
  rewrite Forall_forall in Hf. apply Hf.
Qed.

(** The text of what follows a value, its line's end first. *)
Definition after_value (v : bytes) (l : list (bytes * bytes)) : bytes :=
  v ++ 10 :: concat ((fun p => p.1 ++ 61 :: p.2 ++ [10]) <$> l).

Lemma after_value_cons v k w l : after_value v ((k, w) :: l) = (v ++ 10 :: k) ++ 61 :: after_value w l.
Proof. unfold after_value. simpl. by rewrite <- !app_assoc, <- app_comm_cons, <- !app_assoc. Qed.

Lemma first_sep_inj {A} (c : A) (a a' b b' : list A) : c ∉ a -> c ∉ a' -> a ++ c :: b = a' ++ c :: b' -> a = a' /\ b = b'.
Proof.
  revert a'. induction a as [|x a IH]; intros [|y a'] Ha Ha' Heq; simpl in Heq.
  - by injection Heq as ->.
  - injection Heq as -> ->. destruct Ha'. by left.
  - injection Heq as -> <-. destruct Ha. by left.
  - injection Heq as -> Heq. apply not_elem_of_cons in Ha as [_ Ha], Ha' as [_ Ha'].
    by destruct (IH a' Ha Ha' Heq) as [-> ->].
Qed.

Definition plain_list (l : list (bytes * bytes)) : Prop := Forall (fun p => plain_key p.1 /\ plain p.2) l.

Lemma after_value_inj l : forall v v' l', plain v -> plain v' -> plain_list l -> plain_list l' ->
  after_value v l = after_value v' l' -> v = v' /\ l = l'.
Proof.
  assert (forall v, plain v -> plain (v ++ [10])) as Hend by (intros v Hv; apply plain_app; split; [done|by apply plain_cons, not_elem_of_nil]).
  assert (forall v k, plain v -> plain k -> plain (v ++ 10 :: k)) as Hmid by (intros; apply plain_app; split; [done|by apply plain_cons]).
  assert (forall v v' k w l, plain v -> plain k -> after_value v [] = after_value v' ((k, w) :: l) -> False) as Hne.
  { intros v v' k w l0 Hv Hk Heq. rewrite after_value_cons in Heq. apply (Hend v Hv).
    change (v ++ [10]) with (after_value v []). rewrite Heq. apply elem_of_app. right. by left. }
  induction l as [|[k w] l IH]; intros v v' [|[k' w'] l'] Hv Hv' Hl Hl' Heq.
  - apply app_inj_tail in Heq as [-> _]. done.
  - apply Forall_cons in Hl' as [[[Hk' _] _] _]. by destruct (Hne v v' k' w' l').
  - apply Forall_cons in Hl as [[[Hk _] _] _]. by destruct (Hne v' v k w l).
  - apply Forall_cons in Hl as [[[Hk Hn] Hw] Hl], Hl' as [[[Hk' Hn'] Hw'] Hl']. simpl in *.
    rewrite !after_value_cons in Heq. apply first_sep_inj in Heq as [H1 H2]; [|by apply Hmid..].
    apply app_sep_inj in H1 as [-> ->]; [|done..]. destruct (IH w w' l') as [-> ->]; done.
Qed.

Definition text_pairs (m : gmap bytes bytes) : list (bytes * bytes) :=
  (fun k => (k, default [] (m !! k))) <$> sort_strings (keys_of m).

Lemma text_pairs_perm m : Permutation (text_pairs m) (map_to_list m).
Proof.
  unfold text_pairs. rewrite sort_strings_perm. unfold keys_of. rewrite <- list_fmap_compose.
  rewrite <- (list_fmap_id (map_to_list m)) at 2. apply reflexive_eq, list_fmap_ext.
  intros i [k v] Hi. apply list_elem_of_lookup_2, elem_of_map_to_list in Hi. simpl. by rewrite Hi.
Qed.

Lemma text_inj m m' : plain_pairs m -> plain_pairs m' -> settings_text m = settings_text m' -> m = m'.
Proof.
  assert (forall m, plain_pairs m -> plain_list (text_pairs m)) as Hp.
  { intros m0 Hm. unfold plain_list. rewrite text_pairs_perm. apply Forall_forall. intros [k v] Hi%elem_of_map_to_list.
    by apply Hm. }
  assert (forall m, 10 :: settings_text m = after_value [] (text_pairs m)) as Ht.
  { intros m0. unfold settings_text, after_value, text_pairs, pair_line. by rewrite <- list_fmap_compose. }
  intros Hm Hm' Heq. assert (after_value [] (text_pairs m) = after_value [] (text_pairs m')) as Ha by (rewrite <- !Ht; by rewrite Heq).
  apply after_value_inj in Ha as [_ Ha]; [|apply not_elem_of_nil..|by apply Hp|by apply Hp].
  apply map_to_list_inj. by rewrite <- text_pairs_perm, Ha, text_pairs_perm.
Qed.

Lemma hash_inj m m' :
  plain_pairs m -> plain_pairs m' -> hashSettingsPairs sha256_hex m = hashSettingsPairs sha256_hex m' ->
  m = m' \/ collides m m'.
Proof.
  intros Hm Hm' Heq. destruct (decide (settings_text m = settings_text m')) as [Ht|Ht]; [left; by apply text_inj|].
  right. by split.
Qed.

(** ** Applying a push *)

Definition taken (k v : bytes) : Prop := is_Some (setting_effect k v).

#[local] Instance taken_dec k v : Decision (taken k v).
Proof. unfold taken. apply _. Defined.

Lemma effect_cases k v f : setting_effect k v = Some f ->
  (k = CanarySettingSegmentProfile /\ exists p, f = with_profile p) \/
  (k = CanarySettingBaitNames /\ exists ns, f = with_names ns) \/
  (k = CanarySettingPaceFloor /\ exists d, f = with_pace (with_floor d)) \/
  (k = CanarySettingPaceCeiling /\ exists d, f = with_pace (with_ceiling d)) \/
  (k = CanarySettingWorkingHours /\ exists h, f = with_pace (with_hours h)).
Proof.
  unfold setting_effect. destruct (_ <? _); [done|].
  destruct (bool_decide_reflect (k = CanarySettingSegmentProfile)).
  { destruct (ParseProfile v); [|done]. intros [= <-]. eauto. }
  destruct (bool_decide_reflect (k = CanarySettingBaitNames)).
  { destruct (usable_names v); [|done]. intros [= <-]. eauto 6. }
  destruct (bool_decide_reflect (k = CanarySettingPaceFloor)).
  { destruct (ParseDuration v) as [d|]; [|done]. destruct (d <=? 0); [done|]. intros [= <-]. eauto 6. }
  destruct (bool_decide_reflect (k = CanarySettingPaceCeiling)).
  { destruct (ParseDuration v) as [d|]; [|done]. destruct (d <=? 0); [done|]. destruct (_ <? _); [done|].
    intros [= <-]. eauto 7. }
  destruct (bool_decide_reflect (k = CanarySettingWorkingHours)); [|done].
  destruct (ParseWorkingHours v); [|done]. intros [= <-]. eauto 8.
Qed.

(** Setting one key twice is setting it once, and two keys do not meet. *)
Lemma effect_set k v f a : setting_effect k v = Some f -> effective (f a) = effective a /\ f (f a) = f a.
Proof. intros [[_ [? ->]]|[[_ [? ->]]|[[_ [? ->]]|[[_ [? ->]]|[_ [? ->]]]]]]%effect_cases; done. Qed.

Lemma effect_other k v f k' v' f' a :
  setting_effect k v = Some f -> setting_effect k' v' = Some f' -> k ≠ k' -> f' a = a -> f' (f a) = f a.
Proof.
  intros Hc%effect_cases Hc'%effect_cases Hne Ha.
  destruct Hc as [[-> [? ->]]|[[-> [? ->]]|[[-> [? ->]]|[[-> [? ->]]|[-> [? ->]]]]]],
    Hc' as [[-> [? ->]]|[[-> [? ->]]|[[-> [? ->]]|[[-> [? ->]]|[-> [? ->]]]]]]; try done;
    destruct a as [e p n []]; unfold with_profile, with_names, with_pace, with_floor, with_ceiling, with_hours in *; simpl in *;
    congruence.
Qed.

Lemma effect_mark k v f k' v' a : setting_effect k v = Some f -> f (set_effective k' v' a) = set_effective k' v' (f a).
Proof. intros [[_ [? ->]]|[[_ [? ->]]|[[_ [? ->]]|[[_ [? ->]]|[_ [? ->]]]]]]%effect_cases; done. Qed.

(** A detector set as a value says, each key by the reading of its value. *)
Definition set_as (k v : bytes) (x : live) : Prop :=
  let '(p, ns, pc) := x in
  zlen v <= 512 /\
  (k = CanarySettingSegmentProfile /\ ParseProfile v = Some p \/
   k = CanarySettingBaitNames /\ usable_names v = Some ns \/
   k = CanarySettingPaceFloor /\ ParseDuration v = Some (FloorGap pc) /\ 0 < FloorGap pc \/
   k = CanarySettingPaceCeiling /\ ParseDuration v = Some (CeilingGap pc) /\ 0 < CeilingGap pc /\ MinCeilingGap <= CeilingGap pc \/
   k = CanarySettingWorkingHours /\ ParseWorkingHours v = Ok (Hours pc)).

(** What a detector has for a key is what it had. *)
Definition same_part (k : bytes) (x y : live) : Prop :=
  (k = CanarySettingSegmentProfile -> x.1.1 = y.1.1) /\ (k = CanarySettingBaitNames -> x.1.2 = y.1.2) /\
  (k = CanarySettingPaceFloor -> FloorGap x.2 = FloorGap y.2) /\
  (k = CanarySettingPaceCeiling -> CeilingGap x.2 = CeilingGap y.2) /\
  (k = CanarySettingWorkingHours -> Hours x.2 = Hours y.2).

Lemma set_as_spec k v a : (exists f, setting_effect k v = Some f /\ f a = a) <-> set_as k v (live_of a).
Proof.
  unfold set_as, live_of, setting_effect, settingMaxValueLen. destruct a as [e p ns [fl ce hr]]. cbn [profile names pace FloorGap CeilingGap Hours].
  destruct (Z.ltb_spec 512 (zlen v)) as [|Hl].
  { split; [by intros (? & ? & _)|lia]. }
  destruct (bool_decide_reflect (k = CanarySettingSegmentProfile)) as [->|].
  { split.
    - destruct (ParseProfile v) as [q|]; [|by intros (? & ? & _)]. intros (f & [= <-] & [= ->]). split; [done|by left].
    - intros (_ & [[_ ->]|[[? _]|[[? _]|[[? _]|[? _]]]]]); [by eexists|done..]. }
  destruct (bool_decide_reflect (k = CanarySettingBaitNames)) as [->|].
  { split.
    - destruct (usable_names v) as [q|]; [|by intros (? & ? & _)]. intros (f & [= <-] & [= ->]). split; [done|by right; left].
    - intros (_ & [[? _]|[[_ ->]|[[? _]|[[? _]|[? _]]]]]); first [done|by eexists]. }
  destruct (bool_decide_reflect (k = CanarySettingPaceFloor)) as [->|].
  { split.
    - destruct (ParseDuration v) as [q|]; [|by intros (? & ? & _)]. destruct (Z.leb_spec q 0); [by intros (? & ? & _)|].
      intros (f & [= <-] & [= ->]). split; [done|]. do 2 right. by left.
    - intros (_ & [[? _]|[[? _]|[(_ & -> & Hp)|[[? _]|[? _]]]]]); try done. rewrite (proj2 (Z.leb_gt _ _)) by done. by eexists. }
  destruct (bool_decide_reflect (k = CanarySettingPaceCeiling)) as [->|].
  { split.
    - destruct (ParseDuration v) as [q|]; [|by intros (? & ? & _)]. destruct (Z.leb_spec q 0); [by intros (? & ? & _)|].
      destruct (Z.ltb_spec q MinCeilingGap); [by intros (? & ? & _)|].
      intros (f & [= <-] & [= ->]). split; [done|]. do 3 right. by left.
    - intros (_ & [[? _]|[[? _]|[[? _]|[(_ & -> & Hp & Hm)|[? _]]]]]); try done. rewrite (proj2 (Z.leb_gt _ _)) by done.
      rewrite (proj2 (Z.ltb_ge _ _)) by done. by eexists. }
  destruct (bool_decide_reflect (k = CanarySettingWorkingHours)) as [->|].
  { split.
    - destruct (ParseWorkingHours v) as [q|]; [|by intros (? & ? & _)]. intros (f & [= <-] & [= ->]). split; [done|]. by do 4 right.
    - intros (_ & [[? _]|[[? _]|[[? _]|[[? _]|[_ ->]]]]]); first [done|by eexists]. }
  split; [by intros (? & ? & _)|]. by intros (_ & [[? _]|[[? _]|[[? _]|[[? _]|[? _]]]]]).
Qed.

(** A pair sets no part but its own. *)
Lemma apply_pair_part a b kv k : k ≠ kv.1 \/ setting_effect kv.1 kv.2 = None -> same_part k (live_of a) (live_of (apply_pair (a, b) kv).1).
Proof.
  intros Hk. unfold apply_pair. destruct (setting_effect kv.1 kv.2) as [f|] eqn:Ef; [|by repeat split].
  destruct Hk as [Hk|]; [|done].
  destruct (effect_cases _ _ _ Ef) as [[Heq [? ->]]|[[Heq [? ->]]|[[Heq [? ->]]|[[Heq [? ->]]|[Heq [? ->]]]]]]; rewrite Heq in Hk;
    unfold same_part; simpl; repeat split; done.
Qed.

Lemma apply_all_part order : forall s k, (forall v, (k, v) ∈ order -> setting_effect k v = None) ->
  same_part k (live_of s.1) (live_of (foldl apply_pair s order).1).
Proof.
  induction order as [|[k0 v0] order IH]; intros [a b] k Hk; [by repeat split|]. cbn [foldl].
  assert (same_part k (live_of a) (live_of (apply_pair (a, b) (k0, v0)).1)) as H1.
  { apply apply_pair_part. cbn [fst snd]. destruct (decide (k = k0)) as [->|]; [right; apply Hk; by left|by left]. }
  pose proof (IH (apply_pair (a, b) (k0, v0)) k ltac:(intros v Hv; apply Hk; by right)) as H2.
  destruct H1 as (A1 & A2 & A3 & A4 & A5), H2 as (B1 & B2 & B3 & B4 & B5). unfold same_part.
  split; [|split; [|split; [|split]]]; intros Hx.
  - exact (eq_trans (A1 Hx) (B1 Hx)).
  - exact (eq_trans (A2 Hx) (B2 Hx)).
  - exact (eq_trans (A3 Hx) (B3 Hx)).
  - exact (eq_trans (A4 Hx) (B4 Hx)).
  - exact (eq_trans (A5 Hx) (B5 Hx)).
Qed.

(** The detector is set as the values in force say. *)
Definition coherent (a : agentSettings) : Prop :=
  forall k v, effective a !! k = Some v -> exists f, setting_effect k v = Some f /\ f a = a.

Lemma apply_pair_coherent a b kv : coherent a -> coherent (apply_pair (a, b) kv).1.
Proof.
  intros Ha. unfold apply_pair. destruct (setting_effect kv.1 kv.2) as [f|] eqn:Ef; [|done]. simpl.
  destruct (effect_set _ _ _ a Ef) as [He Hff]. intros k v. simpl. rewrite lookup_insert_Some.
  intros [[<- <-]|[Hne Hk]].
  - exists f. split; [done|]. erewrite effect_mark by done. by rewrite Hff.
  - rewrite He in Hk. destruct (Ha k v Hk) as (g & Hg & Hga). exists g. split; [done|].
    erewrite effect_mark by done. f_equal. by eapply effect_other.
Qed.

Lemma apply_all_spec order : forall a b, NoDup order.*1 ->
  let r := foldl apply_pair (a, b) order in
  (coherent a -> coherent r.1) /\
  (forall k v, (k, v) ∈ order -> taken k v -> effective r.1 !! k = Some v) /\
  (forall k, (forall v, (k, v) ∈ order -> ~ taken k v) -> effective r.1 !! k = effective a !! k) /\
  (r.2 = true <-> b = true \/ exists kv, kv ∈ order /\ taken kv.1 kv.2).
Proof.
  induction order as [|[k0 v0] order IH]; intros a b Hnd; simpl.
  { split; [done|]. split; [by intros ? ? ?%not_elem_of_nil|]. split; [done|]. split; [by left|].
    intros [?|(? & ?%not_elem_of_nil & _)]; done. }
  apply NoDup_cons in Hnd as [Hk0 Hnd].
  destruct (apply_pair (a, b) (k0, v0)) as [a1 b1] eqn:E1.
  pose proof (apply_pair_coherent a b (k0, v0)) as Hco. rewrite E1 in Hco.
  destruct (IH a1 b1 Hnd) as (H1 & H2 & H3 & H4). clear IH.
  assert (forall k, k ≠ k0 -> effective a1 !! k = effective a !! k) as Hoth.
  { intros k Hk. unfold apply_pair in E1. simpl in E1. destruct (setting_effect k0 v0) as [f|] eqn:Ef.
    - injection E1 as <- <-. simpl. rewrite lookup_insert_ne by done. by destruct (effect_set _ _ _ a Ef) as [-> _].
    - by injection E1 as <- <-. }
  assert (b1 = true <-> b = true \/ taken k0 v0) as Hb1.
  { unfold apply_pair in E1. simpl in E1. unfold taken. destruct (setting_effect k0 v0) as [f|].
    - injection E1 as <- <-. split; [intros _; right; eauto|done].
    - injection E1 as <- <-. split; [by left|]. by intros [?|[? ?]]. }
  assert (forall v, (k0, v) ∈ order -> False) as Hno by (intros v Hv; apply Hk0, list_elem_of_fmap; by exists (k0, v)).
  split; [tauto|]. split; [|split].
  - intros k v [[= -> ->]|Hin]%elem_of_cons Ht; [|by apply H2]. rewrite H3 by (intros v' Hv'; by destruct (Hno v')).
    unfold apply_pair in E1. simpl in E1. destruct Ht as [f Ef]. rewrite Ef in E1. injection E1 as <- _. simpl.
    by rewrite lookup_insert_eq.
  - intros k Hk. rewrite H3 by (intros v Hv; apply Hk; by right). destruct (decide (k = k0)) as [->|Hne]; [|by apply Hoth].
    unfold apply_pair in E1. simpl in E1. destruct (setting_effect k0 v0) as [f|] eqn:Ef; [|by injection E1 as <- _].
    destruct (Hk v0); [by left|]. by exists f.
  - rewrite H4, Hb1. split.
    + intros [[?|Ht]|([k v] & Hin & Ht)]; [by left|right; exists (k0, v0); split; [by left|done]|].
      right. exists (k, v). split; [by right|done].
    + intros [?|([k v] & [[= -> ->]|Hin]%elem_of_cons & Ht)]; [tauto|tauto|]. right. by exists (k, v).
Qed.

(** Nothing was taken: nothing changed. *)
Lemma apply_all_unchanged order : forall a b a', foldl apply_pair (a, b) order = (a', false) -> a' = a.
Proof.
  induction order as [|kv order IH]; intros a b a' Hq; simpl in Hq; [by injection Hq as <-|]. unfold apply_pair in Hq at 2.
  destruct (setting_effect kv.1 kv.2) as [f|]; [|by apply IH in Hq].
  assert (forall order s, s.2 = true -> (foldl apply_pair s order).2 = true) as Hstay.
  { clear. induction order as [|kv order IH]; intros s Hs; [done|]. simpl. apply IH. unfold apply_pair. by case_match. }
  pose proof (Hstay order (set_effective kv.1 kv.2 (f a), true) eq_refl) as Ht. simpl in Hq. by rewrite Hq in Ht.
Qed.

(** ** What is listed *)

Lemma pairs_of_lookup l : NoDup (Key <$> l) -> forall k v, pairs_of l !! k = Some v <-> exists s, s ∈ l /\ Key s = k /\ Value s = v.
Proof.
  unfold pairs_of. induction l as [|s l IH] using rev_ind; intros Hnd k v; simpl.
  { rewrite lookup_empty. split; [done|]. by intros (? & ?%not_elem_of_nil & _). }
  rewrite fmap_app in Hnd. apply NoDup_app in Hnd as (Hnd & Hs & _). rewrite foldl_snoc, lookup_insert_Some, (IH Hnd).
  split.
  - intros [[<- <-]|(_ & x & Hx & Hk & Hv)]; [exists s|exists x]; rewrite elem_of_app, list_elem_of_singleton; tauto.
  - intros (x & [Hx| ->%list_elem_of_singleton]%elem_of_app & Hk & Hv); [|tauto]. right. split; [|by exists x].
    intros Hks. apply (Hs (Key x)); [by apply list_elem_of_fmap_2|]. rewrite Hk, <- Hks. by left.
Qed.

Lemma listed_in c d s : s ∈ ListCanarySettings c d <-> s ∈ settings d /\ csAgent s = c.
Proof. unfold ListCanarySettings. rewrite merge_sort_Permutation, list_elem_of_filter. tauto. Qed.

Lemma listed_keys c d : settings_inv d -> NoDup (Key <$> ListCanarySettings c d).
Proof.
  intros [Hk _]. unfold ListCanarySettings. rewrite merge_sort_Permutation.
  assert (forall l, NoDup ((fun s => (csAgent s, Key s)) <$> l) -> NoDup (Key <$> filter (fun s => csAgent s = c) l)) as Hl; [|auto].
  clear. induction l as [|s l IH]; [intros _; constructor|]. rewrite fmap_cons. intros [Hs Hnd]%NoDup_cons.
  rewrite filter_cons.
  destruct (decide (csAgent s = c)) as [Hc|]; [|by apply IH]. apply NoDup_cons. split; [|by apply IH].
  intros (x & Hx & [Hxc Hin]%list_elem_of_filter)%list_elem_of_fmap. apply Hs, list_elem_of_fmap. exists x. split; [|done].
  congruence.
Qed.

(** What birdcage stores and an agent refuses. *)
Definition refused_by_agent (k v : bytes) : Prop :=
  ((k = CanarySettingPaceFloor \/ k = CanarySettingPaceCeiling) /\ v = []) \/
  (k = CanarySettingPaceCeiling /\ exists d, ParseDuration v = Some d /\ d < MinCeilingGap).

Lemma positive_spec v : validatePositiveDuration v = true <-> v = [] \/ exists d, ParseDuration v = Some d /\ 0 < d.
Proof.
  unfold validatePositiveDuration. destruct (bool_decide_reflect (v = [])) as [->|Hv]; [tauto|].
  destruct (ParseDuration v) as [d|]; split.
  - intros Hp. go_bools. right. by exists d.
  - intros [?|(? & [= ->] & ?)]; [done|]. by apply Z.ltb_lt.
  - done.
  - by intros [?|(? & ? & _)].
Qed.

Lemma setting_def_cases k validate : setting_def k = Some validate ->
  (k = CanarySettingSegmentProfile /\ validate = fun value => bool_decide (is_Some (ParseProfile value))) \/
  (k = CanarySettingBaitNames /\ validate = fun value => bool_decide (is_Some (usable_names value))) \/
  (k = CanarySettingPaceFloor /\ validate = validatePositiveDuration) \/
  (k = CanarySettingPaceCeiling /\ validate = validatePositiveDuration) \/
  (k = CanarySettingWorkingHours /\ validate = fun value => is_ok (ParseWorkingHours value)).
Proof.
  intros Hd. pose proof (known_key _ _ Hd) as Hk. unfold orderedCanarySettingKeys in Hk. rewrite !elem_of_cons in Hk.
  assert (forall v, setting_def k = Some v -> validate = v) as Hf by congruence.
  destruct Hk as [->|[->|[->|[->|[->|Hk]]]]]; [| | | | |by apply not_elem_of_nil in Hk];
    rewrite (Hf _ eq_refl); tauto.
Qed.

Lemma taken_spec k v validate :
  setting_def k = Some validate -> validate v = true -> zlen v <= canarySettingMaxValueLen ->
  ~ taken k v <-> refused_by_agent k v.
Proof.
  intros Hd Hv Hl. unfold taken, setting_effect, settingMaxValueLen. unfold canarySettingMaxValueLen in Hl.
  rewrite (proj2 (Z.ltb_ge _ _) Hl). unfold refused_by_agent.
  destruct (setting_def_cases _ _ Hd) as [[-> ->]|[[-> ->]|[[-> ->]|[[-> ->]|[-> ->]]]]];
    repeat (rewrite (bool_decide_eq_false_2 (_ = _)) by done); rewrite (bool_decide_eq_true_2 (_ = _)) by done; cbn beta in Hv.
  - apply bool_decide_eq_true in Hv as [p ->]. simpl. split; [intros []; eauto|]. by intros [[[?|?] _]|[? _]].
  - apply bool_decide_eq_true in Hv as [p ->]. simpl. split; [intros []; eauto|]. by intros [[[?|?] _]|[? _]].
  - apply positive_spec in Hv as [->|(d & E & Hp)].
    + split; [by left; auto|]. by intros _ [? ?].
    + rewrite E, (proj2 (Z.leb_gt _ _) Hp). split; [intros []; eauto|]. by intros [[_ ->]|[? _]].
  - apply positive_spec in Hv as [->|(d & E & Hp)].
    + split; [by left; auto|]. by intros _ [? ?].
    + rewrite E, (proj2 (Z.leb_gt _ _) Hp). destruct (Z.ltb_spec d MinCeilingGap) as [Hlt|Hge]; split.
      * intros _. right. eauto.
      * by intros _ [? ?].
      * intros []; eauto.
      * intros [[_ ->]|[_ (d' & E' & Hd')]]; [done|]. exfalso. injection E' as <-. lia.
  - destruct (ParseWorkingHours v); [|done]. split; [intros []; eauto|]. by intros [[[?|?] _]|[? _]].
Qed.

(** ** The exchange *)

(** An agent that has been sent no key but those of [m] and holds what it was
    sent. *)
Record in_step (m : gmap bytes bytes) (a : agentSettings) : Prop := {
  is_keys : dom (effective a) ⊆ dom m;
  is_set : forall k v, effective a !! k = Some v -> set_as k v (live_of a);
  is_plain : plain_pairs (effective a);
}.

Lemma is_coherent m a : in_step m a -> coherent a.
Proof. intros [_ Hs _] k v Hv. by apply set_as_spec, Hs. Qed.

Lemma listed_empty l : NoDup (Key <$> l) -> pairs_of l = ∅ <-> l = [].
Proof.
  intros Hnd. split; [|by intros ->]. destruct l as [|s l]; [done|]. intros He.
  assert (pairs_of (s :: l) !! Key s = Some (Value s)) as Hs by (apply pairs_of_lookup; [done|]; exists s; by split; [left|]).
  by rewrite He in Hs.
Qed.

Lemma push_none l a m :
  NoDup (Key <$> l) -> m = pairs_of l -> plain_pairs m -> in_step m a ->
  pushSettings sha256_hex (Some l) (Hash sha256_hex a) = None -> effective a = m \/ collides (effective a) m.
Proof.
  intros Hnd -> Hp [Hk _ Ha]. cbn [pushSettings]. destruct (Z.eqb_spec (zlen l) 0) as [Hz|Hz].
  { assert (l = []) as -> by (destruct l; [done|]; rewrite zlen_cons in Hz; pose proof (zlen_nonneg l); lia).
    intros _. left. apply dom_empty_inv_L. set_solver. }
  unfold SettingsHash, Hash. destruct (bool_decide_reflect (effective a = ∅)) as [He|He].
  - by rewrite bool_decide_eq_false_2 by apply digest_nonempty.
  - destruct (bool_decide_reflect (hashSettingsPairs sha256_hex (pairs_of l) = hashSettingsPairs sha256_hex (effective a))); [|done].
    intros _. by apply hash_inj.
Qed.

Lemma push_quiet l a : effective a = pairs_of l -> pushSettings sha256_hex (Some l) (Hash sha256_hex a) = None.
Proof.
  intros He. cbn [pushSettings]. destruct (Z.eqb_spec (zlen l) 0) as [Hz|Hz]; [done|]. unfold SettingsHash, Hash. rewrite He.
  destruct (bool_decide_reflect (pairs_of l = ∅)) as [Hm|Hm]; [|by rewrite bool_decide_eq_true_2].
  exfalso. destruct l as [|s l]; [done|]. unfold pairs_of in Hm. clear He Hz. revert Hm.
  assert (forall m : gmap bytes bytes, m ≠ ∅ -> foldl (fun m s => <[Key s := Value s]> m) m l ≠ ∅) as Hf.
  { induction l as [|x l IH]; intros m Hm; [done|]. apply IH, insert_non_empty. }
  apply Hf. simpl. apply insert_non_empty.
Qed.

(** C5. Settings reach the agent, but for those only birdcage accepts. A
    [SetCanarySettings] stores all its values, each allowed for its key and the
    kind of agent, and touches no other, or changes nothing. With a table so
    kept, a heartbeat's answer sets the agent to the settings listed for it, each
    key once; the agent ends up holding exactly them when it takes them all, and
    the next heartbeat is answered with nothing. The detector follows the agent:
    it is called with the agent's new settings whenever a pushed one was taken,
    and only then; every value the agent holds is what the detector is set to, by
    the reading of its key, and what no taken setting is about stays as it was.
    Of what birdcage stores the agent refuses exactly an empty pace and a pace
    ceiling under its minimum, which it never comes to hold, so that it is sent
    its settings again on every heartbeat. All this for values without an equals
    sign, and unless two different blocks have one digest. *)
Theorem settings_reach_the_agent (d : settings_db) (canaryID : bytes) (range : gmap bytes bytes -> list (bytes * bytes))
    (a : agentSettings) :
  settings_inv d -> (forall m, Permutation (range m) (map_to_list m)) ->
  (forall c kind updates order at_ by_, Permutation order (keys_of updates) ->
     let '(d', r) := exec (SetCanarySettings c kind updates order at_ by_) d in
     settings_inv d' /\ (r ≠ Ok tt -> settings d' = settings d) /\
     (r = Ok tt ->
        (forall k v, updates !! k = Some v -> CanarySettingAppliesToKind k kind = true /\ value_allowed k v) /\
        forall c' k v, stored_value d' c' k v <->
          (c' = c /\ updates !! k = Some v) \/ (~ (c' = c /\ is_Some (updates !! k)) /\ stored_value d c' k v))) /\
  let l := ListCanarySettings canaryID d in
  let m := pairs_of l in
  plain_pairs m -> in_step m a ->
  let r := sendHeartbeat sha256_hex (Some l) range a in
  (forall k v, m !! k = Some v <-> stored_value d canaryID k v) /\
  in_step m r.1 /\
  (forall k, (forall v, m !! k = Some v -> ~ taken k v) -> same_part k (live_of a) (live_of r.1)) /\
  (r.2 = Some (live_of r.1) \/ r.2 = None) /\ default (live_of a) r.2 = live_of r.1 /\
  (r.2 ≠ None <-> pushSettings sha256_hex (Some l) (Hash sha256_hex a) = Some m /\ exists k v, m !! k = Some v /\ taken k v) /\
  ((forall k v, m !! k = Some v -> taken k v) ->
     (effective r.1 = m \/ collides (effective a) m) /\
     (effective r.1 = m -> pushSettings sha256_hex (Some l) (Hash sha256_hex r.1) = None)) /\
  (forall k v, m !! k = Some v -> ~ taken k v ->
     refused_by_agent k v /\ effective r.1 !! k ≠ Some v /\
     (pushSettings sha256_hex (Some l) (Hash sha256_hex r.1) = None -> collides (effective r.1) m)) /\
  (forall k v, m !! k = Some v -> refused_by_agent k v -> ~ taken k v).
Proof.
  intros HI Hrange. split.
  { intros c kind updates order at_ by_ Ho. pose proof (SetCanarySettings_keeps c kind updates order at_ by_ d HI) as Hk.
    destruct (exec _ d) as [d' x] eqn:E. split; [done|]. by eapply SetCanarySettings_spec. }
  intros l m Hp Ha r. pose proof (listed_keys canaryID d HI) as Hnd. fold l in Hnd.
  pose proof (pairs_of_lookup l Hnd) as Hlook. fold m in Hlook.
  assert (forall k v, m !! k = Some v -> ~ taken k v <-> refused_by_agent k v) as Hspec.
  { intros k v (s & Hs & <- & <-)%Hlook. apply listed_in in Hs as [Hs _]. destruct HI as [_ Hr].
    rewrite Forall_forall in Hr. destruct (Hr s Hs) as (Hl & validate & Hd & Hv). by eapply taken_spec. }
  assert (in_step m r.1 /\ (forall k, (forall v, m !! k = Some v -> ~ taken k v) -> same_part k (live_of a) (live_of r.1)) /\
    ((r.2 = Some (live_of r.1) \/ r.2 = None) /\ default (live_of a) r.2 = live_of r.1 /\
     (r.2 ≠ None <-> pushSettings sha256_hex (Some l) (Hash sha256_hex a) = Some m /\ exists k v, m !! k = Some v /\ taken k v)) /\
    ((forall k v, m !! k = Some v -> taken k v) -> effective r.1 = m \/ collides (effective a) m)) as (Hstep & Hpart & (Hlive & Hdet & Hcall) & Hall).
  { unfold r, sendHeartbeat. destruct (pushSettings _ _ _) as [pushed|] eqn:Epush; simpl.
    2: { split; [done|]. split; [by repeat split|]. split; [split; [by right|]; split; [done|]; by split; [|intros [? _]]|]. intros _. by eapply push_none. }
    assert (pushed = m) as ->.
    { cbn [pushSettings] in Epush. destruct (_ =? _); [done|]. destruct (bool_decide _); [done|]. by injection Epush as <-. }
    pose proof (is_coherent _ _ Ha) as Hc. destruct Ha as [Hk Hset Hpl]. unfold Apply. cbn [negb orb]. destruct (bool_decide_reflect (m = ∅)) as [Hm|Hm].
    { simpl. split; [done|]. split; [by repeat split|]. split; [|intros _; left; rewrite Hm in Hk |- *; apply dom_empty_inv_L; set_solver].
      split; [by right|]. split; [done|]. split; [done|]. intros (_ & k & v & Hv & _). by rewrite Hm in Hv. }
    assert (NoDup (range m).*1) as Hro by (rewrite Hrange; apply NoDup_fst_map_to_list).
    assert (forall k v, (k, v) ∈ range m <-> m !! k = Some v) as Hri by (intros; rewrite Hrange; apply elem_of_map_to_list).
    destruct (apply_all_spec (range m) a false Hro) as (H1 & H2 & H3 & H4).
    pose proof (apply_all_unchanged (range m) a false) as H5.
    pose proof (apply_all_part (range m) (a, false)) as H6.
    destruct (foldl apply_pair (a, false) (range m)) as [a' changed]. simpl in *.
    assert (forall k v, effective a' !! k = Some v -> m !! k = Some v \/ effective a !! k = Some v) as Hfrom.
    { intros k v Hv. destruct (m !! k) as [w|] eqn:Ew.
      - destruct (decide (taken k w)) as [Ht|Ht].
        + rewrite (H2 k w) in Hv by (done || by apply Hri). injection Hv as ->. by left.
        + right. rewrite <- H3; [done|]. intros w' Hw'. apply Hri in Hw'. congruence.
      - right. rewrite <- H3; [done|]. intros w' Hw'. apply Hri in Hw'. congruence. }
    split; [split; simpl|split; [|split]].
    - intros k (v & Hv)%elem_of_dom. destruct (Hfrom k v Hv) as [?|?]; [by apply elem_of_dom|]. apply Hk, elem_of_dom. eauto.
    - intros k v Hv. apply set_as_spec, H1; done.
    - intros k v Hv. destruct (Hfrom k v Hv); [by apply Hp|by apply Hpl].
    - intros k Hk'. apply H6. intros v Hv%Hri. destruct (setting_effect k v) as [f|] eqn:Ef; [|done]. destruct (Hk' v Hv). by exists f.
    - assert ((exists k v, m !! k = Some v /\ taken k v) <-> changed = true) as Hch.
      { rewrite H4. split; [intros (k & v & Hv & Ht); right; exists (k, v); split; [by apply Hri|done]|].
        intros [?|([k v] & Hv & Ht)]; [done|]. exists k, v. split; [by apply Hri|done]. }
      rewrite Hch. destruct changed; [by repeat split; [left|..]|]. rewrite (H5 a' eq_refl). repeat split; [by right|done|]. by intros [_ ?].
    - intros Ht. left. apply map_eq. intros k. destruct (m !! k) as [v|] eqn:Ev.
      + apply H2; [by apply Hri|by apply Ht].
      + rewrite H3 by (intros w Hw; apply Hri in Hw; congruence). apply not_elem_of_dom. intros Hin%Hk.
        by apply elem_of_dom in Hin as [? ?]; congruence. }
  split; [|split; [done|split; [done|split; [done|split; [done|split; [done|split; [|split]]]]]]].
  - intros k v. rewrite Hlook. split.
    + intros (s & [Hs Hc]%listed_in & ? & ?). by exists s.
    + intros (s & Hs & Hc & ? & ?). exists s. split; [by apply listed_in|done].
  - intros Ht. split; [by apply Hall|]. intros He. by apply push_quiet.
  - intros k v Hv Ht. assert (effective r.1 !! k ≠ Some v) as Hne.
    { intros He. destruct (is_coherent m r.1 Hstep k v He) as (f & Hf & _). apply Ht. by exists f. }
    split; [by apply Hspec|]. split; [done|]. intros Hq. apply (push_none l _ m) in Hq; [|done..].
    destruct Hq as [He|?]; [|done]. by rewrite He in Hne.
  - intros k v Hv Hr. by apply (Hspec k v Hv).
Qed.
End exchange.
End values.

(** ** A canary whose pace was reset *)

(** A digest that tells every two texts apart. *)
Definition ex_digest (t : bytes) : bytes := 0 :: t.

Lemma ex_digest_inj t u : ex_digest t = ex_digest u -> t = u.
Proof. by intros [= ->]. Qed.

Definition ex_settings (floor : string) : settings_db :=
  (exec (SetCanarySettings (H := ascii_only) (lit "gull") (lit "honeypot")
           {[ CanarySettingSegmentProfile := lit "linux"; CanarySettingPaceFloor := lit floor ]}
           [CanarySettingPaceFloor; CanarySettingSegmentProfile] 1000000000 (lit "admin"))
     (mkSettingsDB [] [])).1.

Definition ex_agent_settings : agentSettings := newAgentSettings ProfileWindows [] DefaultPaceSettings.

Lemma settings_reach_the_agent_witness :
  (let r := sendHeartbeat (H := ascii_only) ex_digest (Some (ListCanarySettings (lit "gull") (ex_settings "1h30m")))
              map_to_list ex_agent_settings in
   pushSettings ex_digest (Some (ListCanarySettings (lit "gull") (ex_settings "1h30m"))) (Hash ex_digest r.1) = None /\
   r.2 = Some (ProfileLinux, [], mkPace (90 * Minute) DefaultCeilingGap DefaultWorkingHours)) /\
  (let r := sendHeartbeat (H := ascii_only) ex_digest (Some (ListCanarySettings (lit "gull") (ex_settings "")))
              map_to_list ex_agent_settings in
   effective r.1 !! CanarySettingPaceFloor ≠ Some [] /\
   pushSettings ex_digest (Some (ListCanarySettings (lit "gull") (ex_settings ""))) (Hash ex_digest r.1) ≠ None).
Proof.
  assert (forall floor, settings_inv (H := ascii_only) (ex_settings floor)) as HI.
  { intros floor. apply SetCanarySettings_keeps. split; [constructor|constructor]. }
  assert (forall m, in_step (H := ascii_only) m ex_agent_settings) as Ha.
  { intros m. split; [simpl; set_solver| |]; intros k v Hv; simpl in Hv; by rewrite lookup_empty in Hv. }
  assert (forall m : gmap bytes bytes, Forall (fun p => plain_key p.1 /\ plain p.2) (map_to_list m) -> plain_pairs m) as Hpp.
  { intros m Hm k v Hv. rewrite Forall_forall in Hm. apply (Hm (k, v)), elem_of_map_to_list. done. }
  split.
  - pose proof (settings_reach_the_agent (H := ascii_only) ex_digest ltac:(by intros ? ?) (ex_settings "1h30m") (lit "gull")
      map_to_list ex_agent_settings (HI _) ltac:(by intros)) as Hw.
    cbv zeta in Hw. destruct Hw as [_ Hw]. destruct Hw as (_ & _ & _ & _ & _ & _ & Hok & _).
    + apply Hpp. unfold plain_key, plain. apply (bool_decide_unpack _). vm_compute. exact I.
    + apply Ha.
    + split; [|vm_compute; reflexivity]. apply Hok; [|vm_compute; reflexivity].
      intros k v Hv. assert (Forall (fun p => taken (H := ascii_only) p.1 p.2) (map_to_list (pairs_of (ListCanarySettings (lit "gull") (ex_settings "1h30m"))))) as Hf
        by (unfold taken; apply (bool_decide_unpack _); vm_compute; exact I).
      rewrite Forall_forall in Hf. by apply (Hf (k, v)), elem_of_map_to_list.
  - pose proof (settings_reach_the_agent (H := ascii_only) ex_digest ltac:(by intros ? ?) (ex_settings "") (lit "gull")
      map_to_list ex_agent_settings (HI _) ltac:(by intros)) as Hw.
    cbv zeta in Hw. destruct Hw as [_ Hw]. destruct Hw as (_ & _ & _ & _ & _ & _ & _ & Hno & Hr).
    + apply Hpp. unfold plain_key, plain. apply (bool_decide_unpack _). vm_compute. exact I.
    + apply Ha.
    + assert (pairs_of (ListCanarySettings (lit "gull") (ex_settings "")) !! CanarySettingPaceFloor = Some []) as Hl
        by (vm_compute; reflexivity).
      assert (refused_by_agent CanarySettingPaceFloor []) as Href by (left; split; [left; reflexivity|reflexivity]).
      destruct (Hno _ _ Hl (Hr _ _ Hl Href)) as (_ & Hne & Hq).
      split; [exact Hne|]. intros Hn. apply Hq in Hn as [Ht Hh]. apply Ht, ex_digest_inj, Hh.
Defined.
