(* ===== verification/ClientCerts.v ===== *)
(** Client certificates and what a node authenticates with
    ([internal/store/clientcert.go], [provision.go], the node's row of
    [canary.go] and its dual-use columns of [credhealth.go]): recording,
    superseding, binding and revoking certificates, and provisioning.

    The database holds the tables of tokens ([Tokens]), sessions ([Enrolment])
    and settings ([Settings]) with those of certificates, nodes and audit
    entries. A certificate is its DER encoding; the class [X509] reads its
    fields, and [fingerprint] is SHA-256 in hex. No row is deleted, so the
    next AUTOINCREMENT id is one more than the number of certificates. *)
From S2P Require Import Prelude GoBase GoStrings Sql SelfTest AuditLog Settings Enrolment Tokens.
#[local] Open Scope Z_scope.

Class X509 : Type := {
  CommonName : bytes -> bytes;
  OrganizationalUnit : bytes -> list bytes;
  SerialNumber : bytes -> bytes;
  cert_not_before : bytes -> Z;
  cert_not_after : bytes -> Z;
}.

(** [ClientCert] *)
Record ClientCert : Type := mkCert {
  c_id : Z;
  c_agent : bytes;
  c_serial : bytes;
  c_fp : bytes;
  c_not_before : Z;
  c_not_after : Z;
  c_used : option Z;
  c_revoked : option Z;
}.

#[export] Instance ClientCert_eq_dec : EqDecision ClientCert.
Proof. solve_decision. Defined.

Definition Live (c : ClientCert) : bool := bool_decide (c_revoked c = None).

(** A row of [agents]. *)
Record node_row : Type := mkNode {
  n_id : bytes;
  n_name : bytes;
  n_lane : bytes;
  n_kind : bytes;
  n_ports : bytes;
  n_interval : Z;
  n_enrolled : Z;
  n_registered : option Z;
  n_lure : option bool;
  n_workgroup : bytes;
  n_shares : bytes;
  n_addr : option bytes;
  n_dual_addrs : option (bytes * bytes * Z);
  n_dual_versions : option (bytes * bytes * Z);
}.

Record cred_db : Type := mkCred {
  tokens : tok_db;
  certs : list ClientCert;
  nodes : list node_row;
  sessions : enr_db;
  node_settings : list CanarySetting;
  cred_audits : list Entry;
}.

Definition put_tokens (t : tok_db) (d : cred_db) : cred_db :=
  mkCred t (certs d) (nodes d) (sessions d) (node_settings d) (cred_audits d).
Definition put_certs (c : list ClientCert) (d : cred_db) : cred_db :=
  mkCred (tokens d) c (nodes d) (sessions d) (node_settings d) (cred_audits d).
Definition put_nodes (n : list node_row) (d : cred_db) : cred_db :=
  mkCred (tokens d) (certs d) n (sessions d) (node_settings d) (cred_audits d).
Definition put_sessions (s : enr_db) (d : cred_db) : cred_db :=
  mkCred (tokens d) (certs d) (nodes d) s (node_settings d) (cred_audits d).
Definition put_entries (l : list Entry) (d : cred_db) : cred_db :=
  mkCred (tokens d) (certs d) (nodes d) (sessions d) (node_settings d) l.
Definition get_settings (d : cred_db) : settings_db := mkSettingsDB (node_settings d) (cred_audits d).
Definition put_settings (s : settings_db) (d : cred_db) : cred_db :=
  mkCred (tokens d) (certs d) (nodes d) (sessions d) (settings s) (settings_audits s).

Inductive cred_error : Type :=
| ErrClientCertNotFound
| ErrCanaryNotFound
| ErrCertName
| ErrNoFingerprint
| ErrZeroTime
| ErrCredStore.

(** ** Statements *)

Definition lookup_cert (fp : bytes) (d : cred_db) : option ClientCert := head (filter (fun c => c_fp c = fp) (certs d)).

Definition agent_certs (canaryID : bytes) (d : cred_db) : list ClientCert := filter (fun c => c_agent c = canaryID) (certs d).

Definition insert_cert (canaryID serial fp : bytes) (nb na : Z) (d : cred_db) : option (cred_db * unit) :=
  if existsb (fun c => bool_decide (c_fp c = fp)) (certs d) then None
  else Some (put_certs (certs d ++ [mkCert (zlen (certs d) + 1) canaryID serial fp nb na None None]) d, tt).

Definition update_certs (p : ClientCert -> bool) (f : ClientCert -> ClientCert) (d : cred_db) : option (cred_db * Z) :=
  Some (put_certs ((fun c => if p c then f c else c) <$> certs d) d, zlen (filter (fun c => p c = true) (certs d))).

Definition cert_use (at_ : Z) (c : ClientCert) : ClientCert :=
  mkCert (c_id c) (c_agent c) (c_serial c) (c_fp c) (c_not_before c) (c_not_after c) (Some at_) (c_revoked c).
Definition cert_revoke (at_ : Z) (c : ClientCert) : ClientCert :=
  mkCert (c_id c) (c_agent c) (c_serial c) (c_fp c) (c_not_before c) (c_not_after c) (c_used c) (Some at_).

Definition cert_unused (id : Z) (c : ClientCert) : bool :=
  (c_id c =? id) && bool_decide (c_used c = None) && Live c.
Definition cert_older (canaryID : bytes) (id : Z) (c : ClientCert) : bool :=
  bool_decide (c_agent c = canaryID) && (c_id c <? id) && Live c.
Definition cert_of (canaryID : bytes) (c : ClientCert) : bool := bool_decide (c_agent c = canaryID) && Live c.

(** An [UPDATE] of tokens; [bind_token] sets their certificate. *)
Definition update_tokens (p : token_row -> bool) (f : token_row -> token_row) (d : cred_db) : option (cred_db * Z) :=
  match update p f (tokens d) with Some (t, n) => Some (put_tokens t d, n) | None => None end.

Definition bind_token (fp : bytes) (r : token_row) : token_row :=
  mkRow (r_id r) (r_agent r) (r_hash r) (r_created r) (r_last_used r) (r_revoked r) (Some fp).
Definition token_of (canaryID : bytes) (r : token_row) : bool :=
  bool_decide (r_agent r = canaryID) && bool_decide (r_revoked r = None).

(** The certificate a token is bound to: the join of [TokenBoundToCert]. *)
Definition bound_cert (id : bytes) (d : cred_db) : option ClientCert :=
  match select_id id (tokens d) with
  | Some r => match r_cert r with Some fp => lookup_cert fp d | None => None end
  | None => None
  end.

Definition count_nodes (canaryID : bytes) (d : cred_db) : Z := zlen (filter (fun n => n_id n = canaryID) (nodes d)).

(** ** clientcert.go *)

Definition answer_or {A B} (r : option A) (k : A -> prog cred_db (res cred_error B)) : prog cred_db (res cred_error B) :=
  match r with None => Ret (Err ErrCredStore) | Some a => k a end.

Section clientcert.
Context `{X509} (fingerprint HashToken : bytes -> bytes).

Definition LookupClientCertByFingerprint (fp : bytes) : prog cred_db (res cred_error ClientCert) :=
  Stmt (query (lookup_cert fp)) (fun r => answer_or r (fun c =>
  Ret (match c with None => Err ErrClientCertNotFound | Some c => Ok c end))).

Definition RecordClientCert (canaryID der : bytes) : prog cred_db (res cred_error ClientCert) :=
  if negb (bool_decide (CommonName der = canaryID)) then Ret (Err ErrCertName) else
  Stmt (insert_cert canaryID (SerialNumber der) (fingerprint der) (cert_not_before der) (cert_not_after der))
    (fun r => answer_or r (fun _ => LookupClientCertByFingerprint (fingerprint der))).

Definition ListClientCertsForCanary (canaryID : bytes) : prog cred_db (res cred_error (list ClientCert)) :=
  Stmt (query (agent_certs canaryID)) (fun r => answer_or r (fun l => Ret (Ok l))).

Definition newest_live (l : list ClientCert) : option ClientCert := last (filter (fun c => Live c = true) l).

Definition CurrentClientCert (canaryID : bytes) : prog cred_db (res cred_error ClientCert) :=
  pbind (ListClientCertsForCanary canaryID) (fun r =>
  Ret (match r with
       | Err e => Err e
       | Ok l => match newest_live l with None => Err ErrClientCertNotFound | Some c => Ok c end
       end)).

Definition CanaryHasLiveClientCert (canaryID : bytes) : prog cred_db (res cred_error bool) :=
  Stmt (query (fun d => zlen (filter (fun c => cert_of canaryID c = true) (certs d))))
    (fun r => answer_or r (fun n => Ret (Ok (0 <? n)))).

(** [UPDATE agents SET kind = kind]: how many rows it locks. *)
Definition lock_node (canaryID : bytes) (d : cred_db) : option (cred_db * Z) := Some (d, count_nodes canaryID d).

Definition LockCanaryCredentials (canaryID : bytes) : prog cred_db (res cred_error unit) :=
  Stmt (lock_node canaryID) (fun r => answer_or r (fun n => Ret (if n =? 0 then Err ErrCanaryNotFound else Ok tt))).

(** The body of the transaction of [RecordClientCertFirstUse]. *)
Definition cert_first_use (cert : ClientCert) (at_ : Z) : prog cred_db (res cred_error (bool * Z)) :=
  pbind (LockCanaryCredentials (c_agent cert)) (fun r =>
  match r with
  | Err ErrCanaryNotFound | Ok _ =>
      Stmt (update_certs (cert_unused (c_id cert)) (cert_use at_)) (fun n => answer_or n (fun n =>
      if n =? 0 then Ret (Ok (false, 0)) else
      Stmt (update_certs (cert_older (c_agent cert) (c_id cert)) (cert_revoke at_)) (fun n => answer_or n (fun n =>
      Ret (Ok (true, n))))))
  | Err e => Ret (Err e)
  end).

Definition RecordClientCertFirstUse (cert : ClientCert) (at_ : Z) : prog cred_db (res cred_error (bool * Z)) :=
  in_transaction ErrCredStore (cert_first_use cert at_).

Fixpoint supersede (inUseID at_ : Z) (l out : list ClientCert) : prog cred_db (res cred_error (list ClientCert)) :=
  match l with
  | [] => Ret (Ok out)
  | c :: l =>
      if (c_id c <=? inUseID) || negb (Live c) || negb (bool_decide (c_used c = None)) then supersede inUseID at_ l out
      else Stmt (update_certs (cert_unused (c_id c)) (cert_revoke at_)) (fun n => answer_or n (fun n =>
           supersede inUseID at_ l (if n =? 1 then out ++ [c] else out)))
  end.

Definition SupersedePendingClientCerts (canaryID : bytes) (inUseID at_ : Z) : prog cred_db (res cred_error (list ClientCert)) :=
  pbind (ListClientCertsForCanary canaryID) (fun r =>
  match r with Err e => Ret (Err e) | Ok l => supersede inUseID at_ l [] end).

Definition MintCanaryTokenForCert (canaryID certFingerprint : bytes) (createdAt : Z) (rid rraw : option bytes) :
    prog cred_db (res cred_error (bytes * CanaryToken)) :=
  if bool_decide (certFingerprint = []) then Ret (Err ErrNoFingerprint) else
  pbind (on_table tokens put_tokens (MintCanaryToken HashToken canaryID createdAt rid rraw)) (fun r =>
  match r with
  | Err _ => Ret (Err ErrCredStore)
  | Ok (raw, tok) =>
      Stmt (update_tokens (has_id (ID tok)) (bind_token certFingerprint)) (fun n => answer_or n (fun _ =>
      Ret (Ok (raw, mkToken (ID tok) (CanaryID tok) (CreatedAt tok) (LastUsedAt tok) (RevokedAt tok) (Kind tok)
                      certFingerprint))))
  end).

Definition BindCanaryTokensToCert (canaryID certFingerprint : bytes) : prog cred_db (res cred_error Z) :=
  Stmt (update_tokens (token_of canaryID) (bind_token certFingerprint)) (fun n => answer_or n (fun n => Ret (Ok n))).

(** What [TokenBoundToCert] decides of the certificate [bound] it found. *)
Definition accepts_binding (tok : CanaryToken) (cert : ClientCert) (bound : option ClientCert) : bool :=
  match bound with
  | None => false
  | Some b =>
      if bool_decide (c_fp b = c_fp cert) then bool_decide (c_agent b = CanaryID tok)
      else bool_decide (c_agent b = c_agent cert) && bool_decide (c_agent b = CanaryID tok) &&
           (c_id cert <? c_id b) && Live b && bool_decide (c_used b = None)
  end.

Definition TokenBoundToCert (tok : CanaryToken) (cert : ClientCert) : prog cred_db (res cred_error bool) :=
  Stmt (query (bound_cert (ID tok))) (fun r => answer_or r (fun b => Ret (Ok (accepts_binding tok cert b)))).

(** [RevokeCanaryCredentials], within the caller's transaction: how many tokens
    and certificates. *)
Definition revoke_credentials (canaryID : bytes) (at_ : Z) : prog cred_db (res cred_error (Z * Z)) :=
  if at_ =? 0 then Ret (Err ErrZeroTime) else
  Stmt (query (count_nodes canaryID)) (fun r => answer_or r (fun n =>
  if n =? 0 then Ret (Err ErrCanaryNotFound) else
  Stmt (update_tokens (token_of canaryID) (set_revoked at_)) (fun n => answer_or n (fun ts =>
  Stmt (update_certs (cert_of canaryID) (cert_revoke at_)) (fun n => answer_or n (fun cs =>
  Ret (Ok (ts, cs)))))))).
End clientcert.

(** ** provision.go *)

(** [agentkind.Lookup]: the ports of a kind's image. *)
Definition kind_ports (kind : bytes) : option bytes :=
  if bool_decide (kind = lit "honeypot") then Some (lit "21,22,23,69,80,1433,3306,3389,5060,6379")
  else if bool_decide (kind = lit "scanner") then Some []
  else None.

Definition DefaultHeartbeatIntervalS : Z := 60.

(** [InsertCanary] *)
Definition insert_node (n : node_row) (d : cred_db) : option (cred_db * unit) :=
  if existsb (fun x => bool_decide (n_id x = n_id n)) (nodes d) then None
  else Some (put_nodes (nodes d ++ [n]) d, tt).

Definition with_interval (i : Z) (n : node_row) : node_row :=
  mkNode (n_id n) (n_name n) (n_lane n) (n_kind n) (n_ports n) i (n_enrolled n) (n_registered n) (n_lure n)
    (n_workgroup n) (n_shares n) (n_addr n) (n_dual_addrs n) (n_dual_versions n).

Definition InsertCanary (n : node_row) : prog cred_db (res cred_error unit) :=
  let interval := if n_interval n <=? 0 then DefaultHeartbeatIntervalS else n_interval n in
  if n_enrolled n =? 0 then Ret (Err ErrZeroTime) else
  if negb (kind_valid (n_kind n)) then Ret (Err ErrCredStore) else
  Stmt (insert_node (with_interval interval n)) (fun r => answer_or r (fun _ => Ret (Ok tt))).

Inductive ProvisionOutcome : Type := Provisioned | UnknownSecret | WindowExpired.

Definition provision_String (o : ProvisionOutcome) : string :=
  match o with Provisioned => "provisioned" | UnknownSecret => "unknown_secret" | WindowExpired => "window_expired" end.

(** [ProvisionResult]; the certificate is its DER. *)
Record ProvisionResult : Type := mkProvision { prCanaryID : bytes; prToken : bytes; prCert : bytes; prInterval : Z }.

(** A call that ends the transaction: its error, or that another request took
    the session first. *)
Inductive provision_error : Type := ProvisionFailed | ProvisionRaced.

Definition or_fail {A B} (r : res cred_error A) (k : A -> prog cred_db (res provision_error B)) :
    prog cred_db (res provision_error B) :=
  match r with Err _ => Ret (Err ProvisionFailed) | Ok a => k a end.

(** [audit.Append] in a transaction. *)
Definition append_entry `{Unicode} (e : Entry) : prog cred_db bool := on_table cred_audits put_entries (Append e).

(** The node a session is provisioned as: it waits for its first self-test. *)
Definition provisioned_node (s : EnrolmentSession) (canaryID ports : bytes) (now : Z) : node_row :=
  mkNode canaryID (Name s) (Lane s) (Enrolment.Kind s) ports DefaultHeartbeatIntervalS now None (SMBLure s) (SMBWorkgroup s) (SMBShares s)
    None None None.

Section provision.
Context `{X509} `{Unicode} (fingerprint HashToken : bytes -> bytes).

Definition expire_session (id : bytes) (d : cred_db) : option (cred_db * Z) :=
  match Enrolment.update (fun r => bool_decide (Enrolment.r_id r = id)) (set_state EnrolmentStateExpired) (sessions d) with
  | Some (s, n) => Some (put_sessions s d, n)
  | None => None
  end.

(** The part of [Provision] that makes the node and its credentials. *)
Definition provision_node (s : EnrolmentSession) (now : Z) (rcanary rid rraw : option bytes)
    (sign : bytes -> bytes -> option bytes) : prog cred_db (res provision_error ProvisionResult) :=
  match kind_ports (Enrolment.Kind s), rcanary with
  | Some ports, Some canaryID =>
      pbind (InsertCanary (provisioned_node s canaryID ports now)) (fun r => or_fail r (fun _ =>
      pbind (on_table get_settings put_settings
               (SeedCanarySettingsFromEnrolment canaryID (BaitNames s) (SegmentProfile s) now)) (fun r =>
      match r with
      | Err _ => Ret (Err ProvisionFailed)
      | Ok _ =>
          match sign canaryID (Enrolment.Kind s) with
          | None => Ret (Err ProvisionFailed)
          | Some der =>
              pbind (RecordClientCert fingerprint canaryID der) (fun r => or_fail r (fun recorded =>
              pbind (MintCanaryTokenForCert HashToken canaryID (c_fp recorded) now rid rraw) (fun r => or_fail r (fun minted =>
              pbind (on_table sessions put_sessions (completeContactedSession (Enrolment.ID s) canaryID)) (fun r =>
              match r with
              | Err _ => Ret (Err ProvisionFailed)
              | Ok won =>
                  if negb won then Ret (Err ProvisionRaced) else
                  pbind (append_entry (mkAudit (lit "enrolment.provisioned") canaryID
                           (lit "provisioned from enrolment session " ++ Enrolment.ID s) (lit "enrolment") now))
                    (fun ok : bool =>
                    Ret (if ok then Ok (mkProvision canaryID minted.1 der DefaultHeartbeatIntervalS)
                         else Err ProvisionFailed))
              end)))))
          end
      end)))
  | _, _ => Ret (Err ProvisionFailed)
  end.

(** The body of its transaction. *)
Definition provision (secretHash : bytes) (now : Z) (rcanary rid rraw : option bytes)
    (sign : bytes -> bytes -> option bytes) :
    prog cred_db (res provision_error (option ProvisionResult * ProvisionOutcome)) :=
  Stmt (query (fun d => scanEnrolmentSessionBySecretHash secretHash (sessions d))) (fun r =>
  match r with
  | None => Ret (Err ProvisionFailed)
  | Some None => Ret (Ok (None, UnknownSecret))
  | Some (Some s) =>
      match WindowDeadline s with
      | None => Ret (Err ProvisionFailed)
      | Some deadline =>
          if negb (now <? deadline) then
            Stmt (expire_session (Enrolment.ID s)) (fun n =>
            Ret (match n with None => Err ProvisionFailed | Some _ => Ok (None, WindowExpired) end))
          else
            pbind (provision_node s now rcanary rid rraw sign) (fun r =>
            Ret (match r with Err e => Err e | Ok p => Ok (Some p, Provisioned) end))
      end
  end).

Definition Provision (secretHash : bytes) (now : Z) (rcanary rid rraw : option bytes)
    (sign : bytes -> bytes -> option bytes) :
    prog cred_db (option (option ProvisionResult * ProvisionOutcome)) :=
  if now =? 0 then Ret None else
  pbind (in_transaction ProvisionFailed (provision secretHash now rcanary rid rraw sign)) (fun r =>
  Ret (match r with Ok x => Some x | Err ProvisionRaced => Some (None, UnknownSecret) | Err _ => None end)).
End provision.
