(* ===== verification/Issuance.v ===== *)
(** The transactions that change what a node authenticates with: rotating its
    token and renewing its certificate ([internal/ingest/rotate.go],
    [renew.go]), and the command line's [mint] and [revoke]
    ([cmd/birdcage/canary.go]); with the order and the invariant of the
    credential tables that they, provisioning and the first uses keep. *)
From S2P Require Import Prelude GoBase GoStrings Sql SelfTest AuditLog Settings Enrolment Tokens ClientCerts.
#[local] Open Scope Z_scope.

Section issuance.
Context `{X509} `{Unicode} (fingerprint HashToken : bytes -> bytes).

(** ** rotate.go and renew.go *)

Definition or_abort {E A B} (r : res E A) (k : A -> prog cred_db (res unit B)) : prog cred_db (res unit B) :=
  match r with Err _ => Ret (Err tt) | Ok a => k a end.

(** An audit entry the transaction depends on. *)
Definition must_append {B} (e : Entry) (k : prog cred_db (res unit B)) : prog cred_db (res unit B) :=
  pbind (append_entry e) (fun ok : bool => if ok then k else Ret (Err tt)).

(** The body of [handleRotate]'s transaction: the raw token. *)
Definition rotate (canaryID : bytes) (minted recorded : Z) (rid rraw : option bytes) : prog cred_db (res unit bytes) :=
  pbind (LockCanaryCredentials canaryID) (fun r => or_abort r (fun _ =>
  pbind (CurrentClientCert canaryID) (fun current =>
  let entry := mkAudit (lit "ingest.token_minted") canaryID (lit "rotation minted a new token") canaryID recorded in
  match current with
  | Ok current =>
      pbind (MintCanaryTokenForCert HashToken canaryID (c_fp current) minted rid rraw) (fun r => or_abort r (fun m =>
      must_append entry (Ret (Ok m.1))))
  | Err ErrClientCertNotFound =>
      pbind (on_table tokens put_tokens (MintCanaryToken HashToken canaryID minted rid rraw)) (fun r => or_abort r (fun m =>
      must_append entry (Ret (Ok m.1))))
  | Err _ => Ret (Err tt)
  end))).

(** One entry per certificate; their times are one reading of the clock. *)
Fixpoint superseded_entries {B} (canaryID : bytes) (at_ : Z) (old : list ClientCert) (k : prog cred_db (res unit B)) :
    prog cred_db (res unit B) :=
  match old with
  | [] => k
  | c :: old =>
      must_append (mkAudit (lit "ingest.cert_renewal_superseded") canaryID
                     (lit "renewal revoked client certificate serial " ++ c_serial c ++
                      lit ", issued by an earlier renewal and never used") canaryID at_)
        (superseded_entries canaryID at_ old k)
  end.

(** The body of [handleRenew]'s transaction: the certificate recorded. *)
Definition renew (canaryID : bytes) (presented : ClientCert) (der : bytes) (at_ recorded issued : Z) :
    prog cred_db (res unit ClientCert) :=
  pbind (LockCanaryCredentials canaryID) (fun r => or_abort r (fun _ =>
  pbind (SupersedePendingClientCerts canaryID (c_id presented) at_) (fun r => or_abort r (fun superseded =>
  superseded_entries canaryID recorded superseded
    (pbind (RecordClientCert fingerprint canaryID der) (fun r => or_abort r (fun rec =>
     pbind (BindCanaryTokensToCert canaryID (c_fp rec)) (fun r => or_abort r (fun _ =>
     must_append (mkAudit (lit "ingest.cert_issued") canaryID
                    (lit "renewal signed a new client certificate (serial " ++ c_serial rec ++ lit ") to replace serial " ++
                     c_serial presented) canaryID issued)
       (Ret (Ok rec))))))))))).

(** ** canary.go *)

Definition mint (canaryID : bytes) (now : Z) (rid rraw : option bytes) : prog cred_db (res unit bytes) :=
  pbind (on_table tokens put_tokens (MintCanaryToken HashToken canaryID now rid rraw)) (fun r => or_abort r (fun m =>
  must_append (mkAudit (lit "canary.token_minted") canaryID (lit "minted via CLI") (lit "cli") now) (Ret (Ok m.1)))).

Definition revoke (canaryID : bytes) (now : Z) : prog cred_db (res unit (Z * Z)) :=
  pbind (revoke_credentials canaryID now) (fun r => or_abort r (fun n =>
  must_append (mkAudit (lit "canary.revoked") canaryID (lit "revoked via CLI") (lit "cli") now) (Ret (Ok n)))).
End issuance.

(** ** The order of the tables' states *)

Record cert_le (c c' : ClientCert) : Prop := {
  cl_id : c_id c' = c_id c;
  cl_agent : c_agent c' = c_agent c;
  cl_fp : c_fp c' = c_fp c;
  cl_revoked : c_revoked c ≠ None -> c_revoked c' ≠ None;
  cl_used : c_used c ≠ None -> c_used c' ≠ None;
}.

#[export] Instance cert_le_preorder : PreOrder cert_le.
Proof. split; [by split|]. intros a b c [H1 H2 H3 H4 H5] [K1 K2 K3 K4 K5]. split; try congruence; auto. Qed.

(** A token may be bound again, never unbound. *)
Record bound_le (r r' : token_row) : Prop := {
  bl_row : row_le r r';
  bl_cert : r_cert r ≠ None -> r_cert r' ≠ None;
}.

#[export] Instance bound_le_preorder : PreOrder bound_le.
Proof.
  split; [by split|]. intros a b c [H1 H2] [K1 K2]. split; [by transitivity b|auto].
Qed.

Definition node_le (n n' : node_row) : Prop := n_id n' = n_id n /\ n_kind n' = n_kind n.

#[export] Instance node_le_preorder : PreOrder node_le.
Proof. split; [by split|]. intros a b c [H1 H2] [K1 K2]. split; congruence. Qed.

Record cred_le (d d' : cred_db) : Prop := {
  le_tokens : table_le bound_le (tokens d) (tokens d');
  le_certs : table_le cert_le (certs d) (certs d');
  le_nodes : table_le node_le (nodes d) (nodes d');
  le_audits : table_le eq (cred_audits d) (cred_audits d');
}.

#[export] Instance cred_le_preorder : PreOrder cred_le.
Proof.
  split; [by split|]. intros a b c [H1 H2 H3 H4] [K1 K2 K3 K4].
  split; [transitivity (tokens b)|transitivity (certs b)|transitivity (nodes b)|transitivity (cred_audits b)]; done.
Qed.

(** ** The invariant *)

(** The operator revoked the node: its entry in the audit log. *)
Definition revoked_by_operator (canaryID : bytes) (d : cred_db) : Prop :=
  exists e, e ∈ cred_audits d /\ Action e = lit "canary.revoked" /\ AuditTarget e = canaryID.

(** The certificate is its node's newest live one. *)
Definition newest (c : ClientCert) (l : list ClientCert) : Prop :=
  c_revoked c = None /\ forall x, x ∈ l -> c_agent x = c_agent c -> c_revoked x = None -> c_id x <= c_id c.

(** Certificates keep their keys; a used one has no live elder; one is revoked
    by the operator or for a successor. *)
Record certs_inv (d : cred_db) : Prop := {
  ci_ids : c_id <$> certs d = Z.of_nat <$> seq 1 (length (certs d));
  ci_fps : NoDup (c_fp <$> certs d);
  ci_used : forall c x, c ∈ certs d -> x ∈ certs d -> c_used c ≠ None -> c_agent x = c_agent c -> c_id x < c_id c ->
              c_revoked x ≠ None;
  ci_succ : forall c, c ∈ certs d -> c_revoked c ≠ None ->
              revoked_by_operator (c_agent c) d \/
              exists x, x ∈ certs d /\ c_agent x = c_agent c /\ c_id c < c_id x;
  ci_node : forall c, c ∈ certs d -> exists n, n ∈ nodes d /\ n_id n = c_agent c;
}.

(** A token's certificate is on record for its node, and a live token's is the
    newest live one; a token is revoked by the operator or for a bound token
    minted later. *)
Record tokens_inv (d : cred_db) : Prop := {
  ki_rows : tok_inv (tokens d);
  ki_bound : forall r fp, r ∈ tokens d -> r_cert r = Some fp ->
               exists c, c ∈ certs d /\ c_fp c = fp /\ c_agent c = r_agent r /\
                 (r_revoked r = None -> newest c (certs d));
  ki_succ : forall r, r ∈ tokens d -> r_revoked r ≠ None ->
              revoked_by_operator (r_agent r) d \/
              exists x, x ∈ tokens d /\ r_agent x = r_agent r /\ r_cert x ≠ None /\ r_created r < r_created x;
}.

Definition cred_inv (d : cred_db) : Prop := certs_inv d /\ tokens_inv d.

(** ** Facts of the invariant *)

Lemma table_le_same {Row} (P : Row -> Row -> Prop) `{!PreOrder P} l l' : l' = l -> table_le P l l'.
Proof. intros ->. reflexivity. Qed.

Lemma revoked_by_operator_mono c d d' :
  table_le eq (cred_audits d) (cred_audits d') -> revoked_by_operator c d -> revoked_by_operator c d'.
Proof. intros Hle (e & He & Hc). destruct (table_le_in eq _ _ _ Hle He) as (e' & He' & <-). by exists e. Qed.

Lemma cert_at (l : list ClientCert) i c : c_id <$> l = Z.of_nat <$> seq 1 (length l) -> l !! i = Some c -> c_id c = Z.of_nat (S i).
Proof.
  intros Hids Hi. assert ((c_id <$> l) !! i = Some (c_id c)) as H1 by (by rewrite list_lookup_fmap, Hi).
  rewrite Hids, list_lookup_fmap in H1. apply lookup_lt_Some in Hi as Hlt.
  rewrite lookup_seq_lt in H1 by done. simpl in H1. congruence.
Qed.

Lemma cert_id_inj d c c' : certs_inv d -> c ∈ certs d -> c' ∈ certs d -> c_id c = c_id c' -> c = c'.
Proof.
  intros HI [i Hi]%list_elem_of_lookup [j Hj]%list_elem_of_lookup Hid.
  rewrite (cert_at _ _ _ (ci_ids d HI) Hi), (cert_at _ _ _ (ci_ids d HI) Hj) in Hid. assert (i = j) as -> by lia. congruence.
Qed.

Lemma cert_id_bound d c : certs_inv d -> c ∈ certs d -> 1 <= c_id c <= zlen (certs d).
Proof.
  intros HI [i Hi]%list_elem_of_lookup. rewrite (cert_at _ _ _ (ci_ids d HI) Hi).
  apply lookup_lt_Some in Hi. unfold zlen. lia.
Qed.

(** The last of the rows a condition selects has the greatest key of them. *)
Lemma last_filter_max {A} (key : A -> Z) (P : A -> Prop) `{forall x, Decision (P x)} (l : list A) c :
  (forall i j x y, l !! i = Some x -> l !! j = Some y -> (i <= j)%nat -> key x <= key y) ->
  last (filter P l) = Some c -> P c /\ c ∈ l /\ forall x, x ∈ l -> P x -> key x <= key c.
Proof.
  induction l as [|y l IH] using rev_ind; intros Hmon Hl; [done|]. rewrite filter_app in Hl.
  assert (forall x, x ∈ l ++ [y] -> key x <= key y) as Hy.
  { intros x [i Hi]%list_elem_of_lookup. apply (Hmon i (length l) x y Hi).
    - rewrite lookup_app_r, Nat.sub_diag by lia. done.
    - apply lookup_lt_Some in Hi. rewrite length_app in Hi. simpl in Hi. lia. }
  destruct (decide (P y)) as [HPy|HPy].
  - rewrite (filter_cons_True P y []), filter_nil in Hl by done. rewrite last_snoc in Hl. injection Hl as <-.
    split; [done|]. split; [apply elem_of_app; right; by left|]. intros x Hx _. by apply Hy.
  - rewrite (filter_cons_False P y []), filter_nil, app_nil_r in Hl by done. destruct IH as (HP & Hin & Hmax); [|done|].
    { intros i j a b Hi Hj. apply Hmon; by apply lookup_app_l_Some. }
    split; [done|]. split; [apply elem_of_app; by left|].
    intros x [Hx| ->%list_elem_of_singleton]%elem_of_app HPx; [by apply Hmax|done].
Qed.

Lemma Live_spec c : Live c = true <-> c_revoked c = None.
Proof. apply bool_decide_eq_true. Qed.

Lemma newest_live_spec canaryID d c :
  certs_inv d -> newest_live (agent_certs canaryID d) = Some c ->
  c ∈ certs d /\ c_agent c = canaryID /\ newest c (certs d).
Proof.
  intros HI. unfold newest_live, agent_certs. rewrite list_filter_filter. intros Hl.
  apply (last_filter_max c_id) in Hl as ((Hlive & Ha) & Hin & Hmax).
  - split; [done|]. split; [done|]. split; [by apply Live_spec|]. intros x Hx Hxa Hxl. apply Hmax; [done|].
    split; [by apply Live_spec|congruence].
  - intros i j x y Hi Hj Hij. rewrite (cert_at _ _ _ (ci_ids d HI) Hi), (cert_at _ _ _ (ci_ids d HI) Hj). lia.
Qed.

Lemma newest_live_none canaryID d :
  newest_live (agent_certs canaryID d) = None -> forall x, x ∈ certs d -> c_agent x = canaryID -> c_revoked x ≠ None.
Proof.
  unfold newest_live, agent_certs. rewrite list_filter_filter. intros Hl%last_None x Hx Ha Hr.
  assert (x ∈ filter (fun y => Live y = true /\ c_agent y = canaryID) (certs d)) as Hin
    by (apply list_elem_of_filter; rewrite Live_spec; done).
  rewrite Hl in Hin. by apply not_elem_of_nil in Hin.
Qed.

Lemma lookup_cert_in d c : certs_inv d -> c ∈ certs d -> lookup_cert (c_fp c) d = Some c.
Proof.
  intros HI Hc. unfold lookup_cert. rewrite (filter_key c_fp _ _ c (ci_fps d HI) Hc); done.
Qed.

Lemma lookup_cert_some d fp c : lookup_cert fp d = Some c -> c ∈ certs d /\ c_fp c = fp.
Proof.
  unfold lookup_cert. intros Hh. assert (c ∈ filter (fun c => c_fp c = fp) (certs d)) as Hin.
  { destruct (filter _ _); [done|]. injection Hh as ->. by left. }
  apply list_elem_of_filter in Hin as [? ?]. done.
Qed.

(** A live bound token and a live certificate of its node are accepted. *)
Lemma live_pair_accepted d r x :
  cred_inv d -> r ∈ tokens d -> r_revoked r = None -> r_cert r ≠ None ->
  x ∈ certs d -> c_agent x = r_agent r -> c_revoked x = None ->
  forall tok, ID tok = r_id r -> CanaryID tok = r_agent r -> accepts_binding tok x (bound_cert (ID tok) d) = true.
Proof.
  intros [HC HK] Hr Hlive Hb Hx Hxa Hxl tok Hid Ha. destruct (r_cert r) as [fp|] eqn:Hfp; [|done].
  destruct (ki_bound d HK r fp Hr Hfp) as (c & Hc & <- & Hca & [Hcl Hmax]%(fun h => h Hlive)).
  unfold bound_cert, select_id. rewrite Hid, (filter_key r_id _ _ r (ti_ids _ (ki_rows d HK)) Hr) by done.
  cbn [head]. rewrite Hfp, (lookup_cert_in d c HC Hc). unfold accepts_binding.
  rewrite !(bool_decide_eq_true_2 (c_agent c = CanaryID tok)) by congruence.
  destruct (decide (c_fp c = c_fp x)) as [Heq|Hne]; [by rewrite bool_decide_eq_true_2 by done|].
  rewrite bool_decide_eq_false_2 by done. rewrite (bool_decide_eq_true_2 (c_agent c = c_agent x)) by congruence.
  assert (c_id x < c_id c) as Hlt.
  { pose proof (Hmax x Hx ltac:(congruence) Hxl). assert (c_id x ≠ c_id c); [|lia].
    intros Hid'. by rewrite (cert_id_inj d x c HC Hx Hc Hid') in Hne. }
  rewrite (proj2 (Z.ltb_lt _ _) Hlt), (proj2 (Live_spec c) Hcl). simpl. apply bool_decide_eq_true.
  destruct (c_used c) as [u|] eqn:Hu; [|done]. exfalso.
  by apply (ci_used d HC c x Hc Hx); [rewrite Hu|congruence|..].
Qed.

(** A row whose revocation follows a later one: the latest is live. *)
Lemma latest_live {A} (key : A -> Z) (Q Rv : A -> Prop) `{forall x, Decision (Rv x)} (l : list A) :
  (forall r, r ∈ l -> Q r -> Rv r -> exists x, x ∈ l /\ Q x /\ key r < key x) ->
  (exists r, r ∈ l /\ Q r) -> exists r, r ∈ l /\ Q r /\ ~ Rv r.
Proof.
  intros Hs (r & Hr & HQ).
  assert (exists m, forall x, x ∈ l -> key x <= m) as [m Hm].
  { clear. induction l as [|y l [m Hm]]; [by exists 0; intros x ?%not_elem_of_nil|].
    exists (Z.max m (key y)). intros x [->|Hx]%elem_of_cons; [lia|]. specialize (Hm x Hx). lia. }
  remember (Z.to_nat (m - key r)) as n eqn:Hn.
  revert r Hr HQ Hn. induction n as [n IH] using lt_wf_ind. intros r Hr HQ ->.
  destruct (decide (Rv r)) as [HR|HR]; [|by exists r].
  destruct (Hs r Hr HQ HR) as (x & Hx & HQx & Hlt). apply (IH (Z.to_nat (m - key x))) with x; try done.
  pose proof (Hm r Hr). pose proof (Hm x Hx). lia.
Qed.

(** ** A change that keeps the invariant *)

Lemma seq_ids_snoc {A} (key : A -> Z) (l l' : list A) (ex : option A) :
  key <$> l = Z.of_nat <$> seq 1 (length l) -> key <$> l' = key <$> l ->
  (forall n, ex = Some n -> key n = zlen l + 1) ->
  key <$> (l' ++ option_list ex) = Z.of_nat <$> seq 1 (length (l' ++ option_list ex)).
Proof.
  intros Hids Heq Hex. assert (length l' = length l) as Hlen by (by rewrite <- (length_fmap key l'), Heq, length_fmap).
  rewrite fmap_app, length_app, seq_app, fmap_app, Heq, Hids, Hlen. f_equal.
  destruct ex as [n|]; [|done]. simpl. rewrite (Hex n eq_refl). unfold zlen. f_equal. lia.
Qed.

(** The rows become [f] of themselves and a new one may come last. *)
Lemma certs_step d d' f ex :
  certs_inv d -> table_le eq (cred_audits d) (cred_audits d') -> table_le node_le (nodes d) (nodes d') ->
  certs d' = (f <$> certs d) ++ option_list ex ->
  (forall c, c ∈ certs d -> cert_le c (f c)) ->
  (forall c x, c ∈ certs d -> x ∈ certs d -> c_used c = None -> c_used (f c) ≠ None -> c_agent x = c_agent c ->
     c_id x < c_id c -> c_revoked (f x) ≠ None) ->
  (forall c, c ∈ certs d -> c_revoked c = None -> c_revoked (f c) ≠ None ->
     revoked_by_operator (c_agent c) d' \/ exists x, x ∈ certs d' /\ c_agent x = c_agent c /\ c_id c < c_id x) ->
  (forall n, ex = Some n -> c_id n = zlen (certs d) + 1 /\ c_used n = None /\ c_revoked n = None /\
     (forall c, c ∈ certs d -> c_fp c ≠ c_fp n) /\ exists m, m ∈ nodes d' /\ n_id m = c_agent n) ->
  certs_inv d' /\ table_le cert_le (certs d) (certs d').
Proof.
  intros HI Haud Hnodes Heq Hle Huse Hrev Hnew.
  assert (forall c', c' ∈ certs d' -> (exists c, c ∈ certs d /\ c' = f c) \/ ex = Some c') as Hin.
  { intros c'. rewrite Heq. intros [(c & -> & Hc)%list_elem_of_fmap|Hc']%elem_of_app; [left; by exists c|right].
    destruct ex; [|by apply not_elem_of_nil in Hc']. apply list_elem_of_singleton in Hc' as ->. done. }
  assert (forall c, c ∈ certs d -> f c ∈ certs d') as Hmap
    by (intros c Hc; rewrite Heq; apply elem_of_app; left; by apply list_elem_of_fmap_2).
  assert (forall {B} (g : ClientCert -> B), (forall c, c ∈ certs d -> g (f c) = g c) -> g <$> (f <$> certs d) = g <$> certs d)
    as Hcol by (intros B g Hg; by apply table_column_map).
  split; [split|rewrite Heq; eexists _, _; split; [done|]].
  - rewrite Heq. apply seq_ids_snoc with (certs d); [apply HI| |].
    + apply Hcol. intros c Hc. apply (Hle c Hc).
    + intros n Hn. by apply Hnew.
  - rewrite Heq. assert (NoDup (c_fp <$> (f <$> certs d))) as Hnd
      by (rewrite Hcol; [apply HI|intros c Hc; apply (Hle c Hc)]).
    destruct ex as [n|]; [|by rewrite app_nil_r]. apply NoDup_fmap_snoc; [done|].
    intros y (c & -> & Hc)%list_elem_of_fmap. rewrite (cl_fp _ _ (Hle c Hc)). by apply (Hnew n).
  - intros c' x' [(c & Hc & ->)|Hc']%Hin Hx' Hu Ha Hlt; [|by destruct (Hnew c' Hc') as (_ & ? & _)].
    rewrite (cl_agent _ _ (Hle c Hc)) in Ha. rewrite (cl_id _ _ (Hle c Hc)) in Hlt.
    apply Hin in Hx' as [(x & Hx & ->)|Hx'].
    + rewrite (cl_agent _ _ (Hle x Hx)) in Ha. rewrite (cl_id _ _ (Hle x Hx)) in Hlt.
      destruct (c_used c) as [u|] eqn:Hcu; [|by apply (Huse c x)].
      apply (cl_revoked _ _ (Hle x Hx)), (ci_used d HI c); [done|done|by rewrite Hcu|done|done].
    + destruct (Hnew x' Hx') as (Hid & _). pose proof (cert_id_bound d c HI Hc). lia.
  - intros c' [(c & Hc & ->)|Hc']%Hin Hr; [|by destruct (Hnew c' Hc') as (_ & _ & ? & _)].
    rewrite (cl_agent _ _ (Hle c Hc)), (cl_id _ _ (Hle c Hc)).
    destruct (c_revoked c) as [t|] eqn:Hcr; [|by apply (Hrev c Hc)].
    destruct (ci_succ d HI c Hc ltac:(by rewrite Hcr)) as [Hop|(x & Hx & Hxa & Hlt)].
    + left. by apply (revoked_by_operator_mono _ d).
    + right. exists (f x). rewrite (cl_agent _ _ (Hle x Hx)), (cl_id _ _ (Hle x Hx)). auto.
  - intros c' [(c & Hc & ->)|Hc']%Hin; [|by destruct (Hnew c' Hc') as (_ & _ & _ & _ & ?)].
    rewrite (cl_agent _ _ (Hle c Hc)). destruct (ci_node d HI c Hc) as (n & Hn & Hid).
    destruct (table_le_in node_le _ _ _ Hnodes Hn) as (n' & Hn' & [Hid' _]). exists n'. by rewrite Hid'.
  - apply Forall2_fmap_r, Forall_Forall2_diag, Forall_forall. done.
Qed.

(** What a token's binding asks of the certificates. *)
Definition bound_in (r : token_row) (l : list ClientCert) : Prop :=
  forall fp, r_cert r = Some fp ->
    exists c, c ∈ l /\ c_fp c = fp /\ c_agent c = r_agent r /\ (r_revoked r = None -> newest c l).

Lemma tokens_step d d' f ex :
  tokens_inv d -> table_le eq (cred_audits d) (cred_audits d') ->
  tokens d' = (f <$> tokens d) ++ option_list ex ->
  (forall r, r ∈ tokens d -> bound_le r (f r)) ->
  (forall r, r ∈ tokens d -> bound_in (f r) (certs d')) ->
  (forall r, r ∈ tokens d -> r_revoked r = None -> r_revoked (f r) ≠ None ->
     revoked_by_operator (r_agent r) d' \/
     exists x, x ∈ tokens d' /\ r_agent x = r_agent r /\ r_cert x ≠ None /\ r_created r < r_created x) ->
  (forall n, ex = Some n -> r_revoked n = None /\ bound_in n (certs d') /\
     forall r, r ∈ tokens d -> r_id r ≠ r_id n /\ r_hash r ≠ r_hash n) ->
  tokens_inv d' /\ table_le bound_le (tokens d) (tokens d').
Proof.
  intros HI Haud Heq Hle Hbound Hrev Hnew.
  assert (forall c', c' ∈ tokens d' -> (exists c, c ∈ tokens d /\ c' = f c) \/ ex = Some c') as Hin.
  { intros c'. rewrite Heq. intros [(c & -> & Hc)%list_elem_of_fmap|Hc']%elem_of_app; [left; by exists c|right].
    destruct ex; [|by apply not_elem_of_nil in Hc']. apply list_elem_of_singleton in Hc' as ->. done. }
  split; [split|rewrite Heq; eexists _, _; split; [done|]].
  - destruct (ki_rows d HI) as [Hids Hhashes]. rewrite Heq. split.
    + assert (NoDup (r_id <$> (f <$> tokens d))) as Hnd
        by (rewrite table_column_map; [done|intros r Hr; apply (Hle r Hr)]).
      destruct ex as [n|]; [|by rewrite app_nil_r]. apply NoDup_fmap_snoc; [done|].
      intros y (r & -> & Hr)%list_elem_of_fmap. rewrite (rl_id _ _ (bl_row _ _ (Hle r Hr))). by apply (Hnew n).
    + assert (NoDup (r_hash <$> (f <$> tokens d))) as Hnd
        by (rewrite table_column_map; [done|intros r Hr; apply (Hle r Hr)]).
      destruct ex as [n|]; [|by rewrite app_nil_r]. apply NoDup_fmap_snoc; [done|].
      intros y (r & -> & Hr)%list_elem_of_fmap. rewrite (rl_hash _ _ (bl_row _ _ (Hle r Hr))). by apply (Hnew n).
  - intros r' fp [(r & Hr & ->)|Hr']%Hin; [by apply Hbound|]. by apply (Hnew r').
  - intros r' [(r & Hr & ->)|Hr']%Hin Hr'v; [|by destruct (Hnew r' Hr')].
    destruct (Hle r Hr) as [[_ Ha _ Hcr _ _] _]. rewrite Ha, Hcr.
    destruct (r_revoked r) as [t|] eqn:Hrr; [|by apply Hrev].
    destruct (ki_succ d HI r Hr ltac:(by rewrite Hrr)) as [Hop|(x & Hx & Hxa & Hxc & Hlt)].
    + left. by apply (revoked_by_operator_mono _ d).
    + right. exists (f x). destruct (Hle x Hx) as [[_ Ha' _ Hcr' _ _] Hc']. rewrite Ha', Hcr'. split; [|auto].
      rewrite Heq. apply elem_of_app. left. by apply list_elem_of_fmap_2.
  - apply Forall2_fmap_r, Forall_Forall2_diag, Forall_forall. done.
Qed.

(** ** Steps of the credential tables *)

Definition keeps (d d' : cred_db) : Prop := cred_inv d' /\ cred_le d d'.

Lemma cred_keeps_refl d : cred_inv d -> keeps d d.
Proof. by split. Qed.

Lemma cred_keeps_trans a b c : keeps a b -> keeps b c -> keeps a c.
Proof. intros [H1 H2] [K1 K2]. split; [done|by transitivity b]. Qed.

Lemma bound_in_inv d r : tokens_inv d -> r ∈ tokens d -> bound_in r (certs d).
Proof. intros HK Hr fp. by apply (ki_bound d HK). Qed.

(** Certificates and tokens alone are left alone. *)
Lemma same_certs_inv d d' :
  certs_inv d -> certs d' = certs d -> table_le eq (cred_audits d) (cred_audits d') ->
  table_le node_le (nodes d) (nodes d') -> certs_inv d'.
Proof.
  intros HI Heq Ha Hn. destruct HI as [H1 H2 H3 H4 H5]. split; try (by rewrite Heq); rewrite Heq.
  - intros c Hc Hr. destruct (H4 c Hc Hr) as [Ho|Hx]; [left; by apply (revoked_by_operator_mono _ d)|by right].
  - intros c Hc. destruct (H5 c Hc) as (n & Hin & Hid). destruct (table_le_in node_le _ _ _ Hn Hin) as (n' & Hn' & [Hid' _]).
    exists n'. by rewrite Hid'.
Qed.

(** A change of the token table that binds nothing anew. *)
Lemma tokens_keep d d' f ex :
  cred_inv d -> certs d' = certs d -> table_le eq (cred_audits d) (cred_audits d') ->
  table_le node_le (nodes d) (nodes d') ->
  tokens d' = (f <$> tokens d) ++ option_list ex ->
  (forall r, r ∈ tokens d -> row_le r (f r) /\ r_cert (f r) = r_cert r) ->
  (forall r, r ∈ tokens d -> r_revoked r = None -> r_revoked (f r) ≠ None ->
     exists x, x ∈ tokens d' /\ r_agent x = r_agent r /\ r_cert x ≠ None /\ r_created r < r_created x) ->
  (forall n, ex = Some n -> r_revoked n = None /\ bound_in n (certs d) /\
     forall r, r ∈ tokens d -> r_id r ≠ r_id n /\ r_hash r ≠ r_hash n) ->
  keeps d d'.
Proof.
  intros [HC HK] Hcerts Haud Hnodes Heq Hf Hrev Hnew.
  destruct (tokens_step d d' f ex HK Haud Heq) as [HK' Hle].
  - intros r Hr. destruct (Hf r Hr) as [Hle Hc]. split; [done|]. by rewrite Hc.
  - intros r Hr fp Hfp. destruct (Hf r Hr) as [Hle Hc]. rewrite Hc in Hfp. rewrite Hcerts.
    destruct (ki_bound d HK r fp Hr Hfp) as (c & Hcin & Hcfp & Hca & Hnw). exists c. rewrite (rl_agent _ _ Hle).
    split_and!; try done. intros Hl. apply Hnw.
    destruct (decide (r_revoked r = None)) as [|Er]; [done|]. by rewrite (rl_revoked _ _ Hle Er) in Hl.
  - intros r Hr H1 H2. right. by apply Hrev.
  - intros n Hn. rewrite Hcerts. by apply Hnew.
  - split; [split; [by apply (same_certs_inv d)|done]|]. split; try done. by apply table_le_same; [apply _|].
Qed.

(** Audit entries and the nodes' other columns. *)
Lemma same_keeps d d' :
  cred_inv d -> certs d' = certs d -> tokens d' = tokens d -> table_le eq (cred_audits d) (cred_audits d') ->
  table_le node_le (nodes d) (nodes d') -> keeps d d'.
Proof.
  intros HI Hc Ht Ha Hn. apply (tokens_keep d d' id None); try done.
  - by rewrite list_fmap_id, app_nil_r.
Qed.

Lemma entries_keep d e : cred_inv d -> keeps d (put_entries (cred_audits d ++ [e]) d).
Proof. intros HI. apply same_keeps; try done. apply (table_le_insert eq). Qed.

Lemma nodes_keep d f : cred_inv d -> (forall n, node_le n (f n)) -> keeps d (put_nodes (f <$> nodes d) d).
Proof. intros HI Hf. apply same_keeps; try done. apply table_le_map. auto. Qed.

(** A use of a token. *)
Lemma use_keep d id at_ : cred_inv d -> keeps d (put_tokens ((fun r => if has_id id r then set_used at_ r else r) <$> tokens d) d).
Proof.
  intros HI. eapply (tokens_keep d _ (fun r => if has_id id r then set_used at_ r else r) None); try done.
  - by rewrite app_nil_r.
  - intros r _. destruct (has_id id r); [|done]. split; [apply set_used_le|done].
  - intros r _ Hl Hn. destruct (has_id id r); by destruct Hn.
Qed.

(** The first use of a bound token of the table. *)
Lemma first_use_keep d tok at_ r0 :
  cred_inv d -> r0 ∈ tokens d -> r_agent r0 = CanaryID tok -> r_created r0 = CreatedAt tok -> r_cert r0 ≠ None ->
  keeps d (put_tokens (first_use_row tok at_ <$> tokens d) d).
Proof.
  intros HI Hr0 Ha Hcr Hb. assert (forall r, r_cert (first_use_row tok at_ r) = r_cert r) as Hcert.
  { intros r. unfold first_use_row. case_decide; [done|]. by destruct (unused_id _ r). }
  apply (tokens_keep d _ (first_use_row tok at_) None); try done.
  - by rewrite app_nil_r.
  - intros r _. split; [apply first_use_row_le|done].
  - intros r Hr Hl Hn. unfold first_use_row in Hn. case_decide as Ho; [|by destruct (unused_id _ r)].
    destruct Ho as (Hra & _ & _ & Hlt). exists (first_use_row tok at_ r0). cbn [tokens put_tokens].
    destruct (first_use_row_le tok at_ r0) as [_ Ha' _ Hcr' _ _]. rewrite Ha', Hcr', Hcert.
    split; [by apply list_elem_of_fmap_2|]. split_and!; [congruence|done|lia].
Qed.

(** ** What the operations leave *)

Lemma answered_ok {A B} (o : option A) (k : A -> prog cred_db (res cred_error B)) d d' b :
  exec (answer_or o k) d = (d', Ok b) -> exists a, o = Some a /\ exec (k a) d = (d', Ok b).
Proof. destruct o as [a|]; [by exists a|done]. Qed.

Lemma or_abort_ok {E A B} (r : res E A) (k : A -> prog cred_db (res unit B)) d d' b :
  exec (or_abort r k) d = (d', Ok b) -> exists a, r = Ok a /\ exec (k a) d = (d', Ok b).
Proof. destruct r as [a|e]; [by exists a|done]. Qed.

(** A program followed by what an answer other than an error leads to. *)
Lemma pbind_ok {A B} (p : prog cred_db A) (k : A -> prog cred_db B) d r :
  exec (pbind p k) d = r -> exists d1 a, exec p d = (d1, a) /\ exec (k a) d1 = r.
Proof. rewrite exec_pbind. destruct (exec p d) as [d1 a]. intros H. by exists d1, a. Qed.

Section exec.
Context `{X : X509} `{U : Unicode} (fingerprint HashToken : bytes -> bytes).

Lemma exec_append e d :
  exec (append_entry e) d =
    if entry_ok e then (put_entries (cred_audits d ++ [in_seconds e]) d, true) else (d, false).
Proof. unfold append_entry, Append. by destruct (entry_ok e). Qed.

Lemma must_append_ok {B} e (k : prog cred_db (res unit B)) d d' b :
  exec (must_append e k) d = (d', Ok b) -> exec k (put_entries (cred_audits d ++ [in_seconds e]) d) = (d', Ok b).
Proof. unfold must_append. rewrite exec_pbind, exec_append. by destruct (entry_ok e). Qed.

(** The row a mint adds. *)
Definition mints (canaryID : bytes) (d : cred_db) (r : token_row) : Prop :=
  r_agent r = canaryID /\ r_revoked r = None /\ r_last_used r = None /\
  forall x, x ∈ tokens d -> r_id x ≠ r_id r /\ r_hash x ≠ r_hash r.

Lemma MintCanaryToken_ok c t rid rraw d d' m :
  exec (on_table tokens put_tokens (MintCanaryToken HashToken c t rid rraw)) d = (d', Ok m) ->
  exists r, d' = put_tokens (tokens d ++ [r]) d /\ mints c d r /\ r_cert r = None /\ r_id r = ID m.2.
Proof.
  unfold MintCanaryToken. destruct (t =? 0); [done|]. destruct rid as [id|], rraw as [raw|]; try done.
  cbn [on_table exec]. unfold insert_token. destruct (existsb _ _) eqn:Ex; [done|]. intros [= <- <-].
  eexists. split; [done|]. split; [|done]. split_and!; try done. intros x Hx.
  rewrite <- not_true_iff_false, existsb_exists in Ex.
  split; intros Heq; apply Ex; exists x; (split; [by apply list_elem_of_In|]); apply orb_true_iff; [left|right];
    by apply bool_decide_eq_true.
Qed.

Lemma MintCanaryTokenForCert_ok c fp t rid rraw d d' m :
  exec (MintCanaryTokenForCert HashToken c fp t rid rraw) d = (d', Ok m) ->
  exists r, d' = put_tokens (tokens d ++ [r]) d /\ mints c d r /\ r_cert r = Some fp.
Proof.
  unfold MintCanaryTokenForCert. case_bool_decide; [done|]. intros (d1 & [[raw tok]|e] & Hm & Hk)%pbind_ok; [|done].
  apply MintCanaryToken_ok in Hm as (r & -> & (Ha & Hr & Hu & Hnew) & _ & Hid). cbn [exec] in Hk. cbn [snd] in Hid.
  unfold update_tokens, update in Hk. injection Hk as <- _. exists (bind_token fp r). split; [|done].
  unfold put_tokens. cbn. f_equal. rewrite fmap_app. f_equal.
  - rewrite <- (list_fmap_id (tokens d)) at 2. apply list_fmap_ext. intros i x Hx%list_elem_of_lookup_2.
    unfold has_id. rewrite bool_decide_eq_false_2; [done|]. rewrite <- Hid. by apply Hnew.
  - cbn. unfold has_id. by rewrite bool_decide_eq_true_2 by done.
Qed.

Lemma CurrentClientCert_ok c d : exec (CurrentClientCert c) d =
  (d, match newest_live (agent_certs c d) with None => Err ErrClientCertNotFound | Some x => Ok x end).
Proof. done. Qed.

Lemma LockCanaryCredentials_ok c d d' u :
  exec (LockCanaryCredentials c) d = (d', Ok u) -> d' = d /\ exists n, n ∈ nodes d /\ n_id n = c.
Proof.
  unfold LockCanaryCredentials. cbn. destruct (count_nodes c d =? 0) eqn:En; [done|]. go_bools. intros [= <- _].
  split; [done|]. unfold count_nodes in En. destruct (filter (fun n => n_id n = c) (nodes d)) as [|n l] eqn:Ef; [done|].
  exists n. assert (n ∈ filter (fun n => n_id n = c) (nodes d)) as Hin by (rewrite Ef; left).
  by apply list_elem_of_filter in Hin as [? ?].
Qed.

(** ** Minting *)

Lemma mint_keep d r c : cred_inv d -> mints c d r -> bound_in r (certs d) -> keeps d (put_tokens (tokens d ++ [r]) d).
Proof.
  intros HI (Ha & Hr & _ & Hnew) Hb. apply (tokens_keep d _ id (Some r)); try done.
  - by rewrite list_fmap_id.
  - intros n [= <-]. done.
Qed.

Lemma rotate_keeps c t1 t2 rid rraw d d' raw :
  cred_inv d -> exec (rotate HashToken c t1 t2 rid rraw) d = (d', Ok raw) -> keeps d d'.
Proof.
  intros HI (d1 & r & Hl & (u & -> & Hk)%or_abort_ok)%pbind_ok. apply LockCanaryCredentials_ok in Hl as [-> _].
  apply pbind_ok in Hk as (d1 & r & Hc & Hk). rewrite CurrentClientCert_ok in Hc. injection Hc as <- <-.
  destruct (newest_live (agent_certs c d)) as [x|] eqn:Hn; apply pbind_ok in Hk as (d2 & r & Hm & (m & -> & Hk)%or_abort_ok);
    apply must_append_ok in Hk; injection Hk as <- _.
  - apply newest_live_spec in Hn as (Hx & Ha & Hnew); [|apply HI].
    apply MintCanaryTokenForCert_ok in Hm as (r & -> & Hm & Hfp).
    eapply cred_keeps_trans; [apply (mint_keep d r c HI Hm)|]; [|apply entries_keep, (mint_keep d r c HI Hm)];
      intros fp Heq; exists x; rewrite Hfp in Heq; injection Heq as <-; destruct Hm as (Hra & _);
      (split_and!; [done|done|congruence|done]).
  - apply MintCanaryToken_ok in Hm as (r & -> & Hm & Hfp & _).
    assert (bound_in r (certs d)) as Hb by (intros fp; by rewrite Hfp).
    eapply cred_keeps_trans; [by apply (mint_keep d r c HI Hm)|]. by apply entries_keep, (mint_keep d r c HI Hm).
Qed.

Lemma cli_mint_keeps c t rid rraw d d' raw :
  cred_inv d -> exec (mint HashToken c t rid rraw) d = (d', Ok raw) -> keeps d d'.
Proof.
  intros HI (d2 & r & Hm & (m & -> & Hk)%or_abort_ok)%pbind_ok. apply must_append_ok in Hk. injection Hk as <- _.
  apply MintCanaryToken_ok in Hm as (r & -> & Hm & Hfp & _).
  assert (bound_in r (certs d)) as Hb by (intros fp; by rewrite Hfp).
  eapply cred_keeps_trans; [by apply (mint_keep d r c HI Hm)|]. by apply entries_keep, (mint_keep d r c HI Hm).
Qed.
End exec.

(** ** Certificates *)

Lemma newest_map c f l :
  (forall x, x ∈ l -> cert_le x (f x)) -> c ∈ l -> newest c l -> c_revoked (f c) = None -> newest (f c) (f <$> l).
Proof.
  intros Hle Hc [_ Hmax] Hr. split; [done|]. intros x' (x & -> & Hx)%list_elem_of_fmap.
  rewrite (cl_agent _ _ (Hle x Hx)), (cl_agent _ _ (Hle c Hc)), (cl_id _ _ (Hle x Hx)), (cl_id _ _ (Hle c Hc)).
  intros Ha Hl. apply Hmax; [done|done|]. destruct (decide (c_revoked x = None)) as [|Hn]; [done|].
  by destruct (cl_revoked _ _ (Hle x Hx) Hn).
Qed.

Definition used_first (cert : ClientCert) (at_ : Z) (c : ClientCert) : ClientCert :=
  let c := if cert_unused (c_id cert) c then cert_use at_ c else c in
  if cert_older (c_agent cert) (c_id cert) c then cert_revoke at_ c else c.

Lemma cert_unused_spec id c : cert_unused id c = true <-> c_id c = id /\ c_used c = None /\ c_revoked c = None.
Proof. unfold cert_unused. rewrite !andb_true_iff, Z.eqb_eq, Live_spec, bool_decide_eq_true. tauto. Qed.

Lemma cert_older_spec a id c : cert_older a id c = true <-> c_agent c = a /\ c_id c < id /\ c_revoked c = None.
Proof. unfold cert_older. rewrite !andb_true_iff, Z.ltb_lt, Live_spec, bool_decide_eq_true. tauto. Qed.

Lemma used_first_le cert at_ c : cert_le c (used_first cert at_ c).
Proof.
  unfold used_first. destruct (cert_unused (c_id cert) c) eqn:Eu; destruct (cert_older _ _ _) eqn:Eo; by split.
Qed.

Lemma used_first_revoked cert at_ c :
  c_revoked (used_first cert at_ c) ≠ None <->
    c_revoked c ≠ None \/ c_agent c = c_agent cert /\ c_id c < c_id cert.
Proof.
  unfold used_first. set (c1 := if cert_unused _ _ then _ else _).
  assert (c_agent c1 = c_agent c /\ c_id c1 = c_id c /\ c_revoked c1 = c_revoked c) as (Ha & Hi & Hr)
    by (unfold c1; by destruct (cert_unused _ _)).
  destruct (cert_older _ _ _) eqn:Eo.
  - apply cert_older_spec in Eo as (? & ? & ?). split; [|done]. intros _. right. by rewrite <- Ha, <- Hi.
  - rewrite Hr. split; [by left|]. intros [?|[H1 H2]]; [done|]. intros Hn. apply not_true_iff_false in Eo. apply Eo.
    apply cert_older_spec. by rewrite Ha, Hi, Hr.
Qed.

Lemma used_first_used cert at_ c :
  c_used c = None -> c_used (used_first cert at_ c) ≠ None -> c_id c = c_id cert /\ c_revoked c = None.
Proof.
  unfold used_first. intros Hu. destruct (cert_unused (c_id cert) c) eqn:Eu.
  - apply cert_unused_spec in Eu as (? & _ & ?). done.
  - by destruct (cert_older _ _ _).
Qed.

Lemma cert_first_use_ok cert at_ d d' n :
  exec (cert_first_use cert at_) d = (d', Ok n) ->
  (d' = d /\ n = (false, 0)) \/
  (d' = put_certs (used_first cert at_ <$> certs d) d /\ exists x, x ∈ certs d /\ cert_unused (c_id cert) x = true).
Proof.
  unfold cert_first_use. intros (d1 & r & Hl & Hk)%pbind_ok.
  assert (d1 = d) as -> by (unfold LockCanaryCredentials in Hl; cbn in Hl; by destruct (count_nodes _ _ =? 0); injection Hl).
  assert (r = Ok tt \/ r = Err ErrCanaryNotFound) as Hr.
  { unfold LockCanaryCredentials in Hl. cbn in Hl. destruct (count_nodes _ _ =? 0); injection Hl; auto. }
  assert (exec (Stmt (update_certs (cert_unused (c_id cert)) (cert_use at_)) (fun n => answer_or n (fun n =>
      if n =? 0 then Ret (Ok (false, 0)) else
      Stmt (update_certs (cert_older (c_agent cert) (c_id cert)) (cert_revoke at_)) (fun n => answer_or n (fun n =>
      Ret (Ok (true, n))))))) d = (d', Ok n)) as Hk' by (by destruct Hr as [-> | ->]).
  clear Hk Hl Hr. cbn in Hk'. destruct (zlen _ =? 0) eqn:En.
  - left. cbn in Hk'. injection Hk' as <- <-. split; [|done]. destruct d as [t cs ns s st au]. unfold put_certs. cbn in *. f_equal.
    rewrite <- (list_fmap_id cs) at 2. apply list_fmap_ext. intros i c Hc%list_elem_of_lookup_2.
    destruct (cert_unused _ c) eqn:Eu; [|done]. go_bools.
    assert (c ∈ filter (fun c => cert_unused (c_id cert) c = true) cs) as Hin by (by apply list_elem_of_filter).
    destruct (filter _ cs) as [|y l]; [by apply not_elem_of_nil in Hin|]. rewrite zlen_cons in En. pose proof (zlen_nonneg l). lia.
  - right. cbn in Hk'. injection Hk' as <- _. split.
    + unfold put_certs. cbn. by rewrite <- list_fmap_compose.
    + go_bools. destruct (filter (fun c => cert_unused (c_id cert) c = true) (certs d)) as [|x l] eqn:Ef; [by destruct En|].
      exists x. assert (x ∈ filter (fun c => cert_unused (c_id cert) c = true) (certs d)) as Hin by (rewrite Ef; left).
      by apply list_elem_of_filter in Hin as [? ?].
Qed.

Lemma cert_first_use_keeps cert at_ d d' n y :
  cred_inv d -> y ∈ certs d -> c_id y = c_id cert -> c_agent y = c_agent cert ->
  exec (cert_first_use cert at_) d = (d', Ok n) -> keeps d d'.
Proof.
  intros [HC HK] Hy Hyid Hya [[-> _]|(-> & x & Hx & (Hxid & Hxu & Hxl)%cert_unused_spec)]%cert_first_use_ok; [by apply cred_keeps_refl|].
  assert (x = y) as -> by (eapply cert_id_inj; [done..|congruence]).
  destruct (certs_step d (put_certs (used_first cert at_ <$> certs d) d) (used_first cert at_) None HC) as [HC' Hle]; try done.
  - by rewrite app_nil_r.
  - intros c _. apply used_first_le.
  - intros c z Hc Hz Hu [Hid _]%used_first_used Ha Hlt; [|done]. apply used_first_revoked. right.
    assert (c = y) as -> by (eapply cert_id_inj; [done..|congruence]). split; [congruence|lia].
  - intros c Hc Hl [?|[Ha Hlt]]%used_first_revoked; [done|]. right. exists (used_first cert at_ y).
    rewrite (cl_agent _ _ (used_first_le cert at_ y)), (cl_id _ _ (used_first_le cert at_ y)).
    split; [by apply list_elem_of_fmap_2|]. split; [congruence|lia].
  - destruct (tokens_step d (put_certs (used_first cert at_ <$> certs d) d) id None HK) as [HK' Hle']; try done.
    + by rewrite list_fmap_id, app_nil_r.
    + intros r Hr fp Hfp. destruct (ki_bound d HK r fp Hr Hfp) as (c & Hc & <- & Hca & Hnew).
      exists (used_first cert at_ c). destruct (used_first_le cert at_ c) as [_ Ha Hf _ _]. rewrite Ha, Hf.
      split; [by apply list_elem_of_fmap_2|]. split_and!; try done. intros Hl. specialize (Hnew Hl).
      apply newest_map; [intros z _; apply used_first_le|done|done|].
      destruct (decide (c_revoked (used_first cert at_ c) = None)) as [|Hr']; [done|]. exfalso.
      apply used_first_revoked in Hr' as [Hr'|[Ha' Hlt]]; [by destruct Hnew|].
      pose proof (proj2 Hnew y Hy ltac:(congruence) Hxl). lia.
Qed.

(** ** Renewal *)

(** Some of the live certificates of a list are revoked. *)
Definition superseding (at_ : Z) (l : list ClientCert) (f : ClientCert -> ClientCert) : Prop :=
  forall c, f c = c \/ f c = cert_revoke at_ c /\ c_revoked c = None /\ exists x, x ∈ l /\ c_id x = c_id c.

Lemma superseding_le at_ l f c : superseding at_ l f -> cert_le c (f c).
Proof. intros Hf. destruct (Hf c) as [-> |(-> & _)]; by split. Qed.

Lemma supersede_ok inUse at_ l : forall out d d' out',
  exec (supersede inUse at_ l out) d = (d', Ok out') ->
  exists f, d' = put_certs (f <$> certs d) d /\ superseding at_ l f.
Proof.
  induction l as [|c l IH]; intros out d d' out'.
  { intros [= <- _]. exists id. rewrite list_fmap_id. split; [by destruct d|]. by left. }
  cbn [supersede]. destruct (_ || _) eqn:Eg.
  { intros (f & -> & Hf)%IH. exists f. split; [done|]. intros x. destruct (Hf x) as [?|(? & ? & y & Hy & Hid)]; [by left|].
    right. split_and!; try done. exists y. split; [by right|done]. }
  cbn [exec update_certs answer_or]. set (g := fun x => if cert_unused (c_id c) x then cert_revoke at_ x else x).
  intros (f & -> & Hf)%IH. exists (f ∘ g). split; [by rewrite list_fmap_compose|].
  intros x. unfold compose. destruct (Hf (g x)) as [Hfx|(Hfx & Hr & y & Hy & Hid)]; rewrite Hfx; unfold g in *;
    destruct (cert_unused (c_id c) x) eqn:Eu; try done.
  - apply cert_unused_spec in Eu as (Hid & _ & Hr). right. split_and!; try done. exists c. split; [by left|done].
  - by left.
  - right. split_and!; try done. exists y. split; [by right|done].
Qed.

Section renewal.
Context `{X : X509} `{U : Unicode} (fingerprint HashToken : bytes -> bytes).

Lemma superseded_entries_ok {B} c t old (k : prog cred_db (res unit B)) : forall d d' b,
  exec (superseded_entries c t old k) d = (d', Ok b) ->
  exists es, exec k (put_entries (cred_audits d ++ es) d) = (d', Ok b).
Proof.
  induction old as [|x old IH]; intros d d' b.
  - intros Hk. exists []. rewrite app_nil_r. by destruct d.
  - intros (es & Hk)%must_append_ok%IH. eexists. rewrite <- Hk. cbn [cred_audits put_entries]. rewrite <- app_assoc. done.
Qed.

(** The certificate [RecordClientCert] adds. *)
Definition records (c : bytes) (d : cred_db) (n : ClientCert) : Prop :=
  c_id n = zlen (certs d) + 1 /\ c_agent n = c /\ c_used n = None /\ c_revoked n = None /\
  forall x, x ∈ certs d -> c_fp x ≠ c_fp n.

Lemma RecordClientCert_ok c der d d' rec :
  exec (RecordClientCert fingerprint c der) d = (d', Ok rec) ->
  exists n, d' = put_certs (certs d ++ [n]) d /\ records c d n /\ c_fp rec = c_fp n.
Proof.
  unfold RecordClientCert. destruct (negb _); [done|]. cbn. unfold insert_cert. destruct (existsb _ _) eqn:Ex; [done|].
  set (n := mkCert _ _ _ _ _ _ _ _). intros Hk. exists n.
  destruct (lookup_cert _ _) as [x|] eqn:El; [|done]. injection Hk as <- <-. split; [done|].
  apply lookup_cert_some in El as [_ Hfp]. split; [|done]. split_and!; try done.
  intros y Hy Heq. rewrite <- not_true_iff_false, existsb_exists in Ex. apply Ex. exists y.
  split; [by apply list_elem_of_In|by apply bool_decide_eq_true].
Qed.

(** The node's certificates are superseded by a new one, which its live tokens
    are bound to. *)
Lemma renewal_keep d d' c f n at_ :
  cred_inv d -> superseding at_ (agent_certs c d) f -> records c d n ->
  (exists m, m ∈ nodes d /\ n_id m = c) ->
  certs d' = (f <$> certs d) ++ [n] ->
  tokens d' = (fun r => if token_of c r then bind_token (c_fp n) r else r) <$> tokens d ->
  nodes d' = nodes d -> table_le eq (cred_audits d) (cred_audits d') -> keeps d d'.
Proof.
  intros [HC HK] Hf (Hid & Ha & Hu & Hl & Hfp) Hnode Hcerts Htoks Hnodes Haud.
  assert (table_le node_le (nodes d) (nodes d')) as Hn by (by apply table_le_same; [apply _|]).
  assert (n ∈ certs d') as Hin by (rewrite Hcerts; apply elem_of_app; right; by left).
  assert (forall x, x ∈ certs d -> f x = x \/ c_agent x = c) as Hother.
  { intros x Hx. destruct (Hf x) as [?|(_ & _ & y & [Hya Hy]%list_elem_of_filter & Hyid)]; [by left|]. right.
    by rewrite <- (cert_id_inj d y x HC Hy Hx Hyid). }
  destruct (certs_step d d' f (Some n) HC) as [HC' Hle]; try done.
  - intros x _. by apply (superseding_le at_ (agent_certs c d)).
  - intros x z _ _ Hxu Hfu. exfalso. apply Hfu. destruct (Hf x) as [-> |(-> & _)]; done.
  - intros x Hx Hxl Hfr. right. exists n. destruct (Hother x Hx) as [Hsame|Hxa]; [by rewrite Hsame in Hfr|].
    split; [done|]. split; [congruence|]. pose proof (cert_id_bound d x HC Hx). lia.
  - intros n' [= <-]. split_and!; try done. rewrite Hnodes, Ha. done.
  - destruct (tokens_step d d' (fun r => if token_of c r then bind_token (c_fp n) r else r) None HK) as [HK' Hle']; try done.
    + by rewrite app_nil_r.
    + intros r _. destruct (token_of c r); by split.
    + intros r Hr fp Hrfp. unfold token_of in *.
      destruct (decide (r_agent r = c /\ r_revoked r = None)) as [[Hra Hrl]|Hno].
      * rewrite !bool_decide_eq_true_2 in Hrfp |- * by done. simpl in Hrfp |- *. injection Hrfp as <-.
        exists n. split_and!; [done|done|congruence|]. intros _. split; [done|].
        intros x. rewrite Hcerts. intros [(y & -> & Hy)%list_elem_of_fmap|Hx]%elem_of_app _ _.
        -- rewrite (cl_id _ _ (superseding_le _ _ _ y Hf)). pose proof (cert_id_bound d y HC Hy). lia.
        -- by apply list_elem_of_singleton in Hx as ->.
      * assert (bool_decide (r_agent r = c) && bool_decide (r_revoked r = None) = false) as Eb
          by (rewrite <- not_true_iff_false, andb_true_iff, !bool_decide_eq_true; exact Hno).
        rewrite Eb in Hrfp |- *. destruct (ki_bound d HK r fp Hr Hrfp) as (x & Hx & <- & Hxa & Hnew).
        exists (f x). destruct (superseding_le _ _ _ x Hf) as [Hi Hag Hfx _ _]. rewrite Hag, Hfx.
        split; [rewrite Hcerts; apply elem_of_app; left; by apply list_elem_of_fmap_2|]. split_and!; try done.
        intros Hrl. destruct (Hnew Hrl) as [Hxl Hmax]. assert (r_agent r ≠ c) as Hra by tauto.
        destruct (Hother x Hx) as [-> |]; [|congruence]. split; [done|].
        intros y. rewrite Hcerts. intros [(z & -> & Hz)%list_elem_of_fmap|Hy]%elem_of_app Hya Hyl.
        -- rewrite (cl_agent _ _ (superseding_le _ _ _ z Hf)) in Hya. rewrite (cl_id _ _ (superseding_le _ _ _ z Hf)).
           destruct (Hother z Hz) as [Hz'|]; [|congruence]. rewrite Hz' in Hyl. by apply Hmax.
        -- apply list_elem_of_singleton in Hy as ->. congruence.
    + intros r _ Hrl Hfr. exfalso. apply Hfr. by destruct (token_of c r).
Qed.

Lemma renew_keeps c presented der t1 t2 t3 d d' rec :
  cred_inv d -> exec (renew fingerprint c presented der t1 t2 t3) d = (d', Ok rec) -> keeps d d'.
Proof.
  intros HI (d1 & r & Hl & (u & -> & Hk)%or_abort_ok)%pbind_ok. apply LockCanaryCredentials_ok in Hl as [-> Hnode].
  apply pbind_ok in Hk as (d1 & r & Hs & (old & -> & Hk)%or_abort_ok).
  unfold SupersedePendingClientCerts in Hs. cbn [pbind ListClientCertsForCanary] in Hs. cbn in Hs.
  apply supersede_ok in Hs as (f & -> & Hf). apply superseded_entries_ok in Hk as (es & Hk).
  apply pbind_ok in Hk as (d1 & r & Hr & (n & -> & Hk)%or_abort_ok).
  apply RecordClientCert_ok in Hr as (m & -> & Hm & Hfp). apply pbind_ok in Hk as (d1 & r & Hb & (k & -> & Hk)%or_abort_ok).
  apply must_append_ok in Hk. injection Hk as <- _. cbn in Hb. injection Hb as <- _.
  eapply (renewal_keep d _ c f m t1 HI Hf); cbn; try done.
  - destruct Hm as (H1 & H2 & H3 & H4 & H5). split_and!; try done.
    + cbn in H1. unfold zlen in *. by rewrite length_fmap in H1.
    + intros x Hx. rewrite <- (cl_fp _ _ (superseding_le _ _ _ x Hf)). apply H5. cbn. by apply list_elem_of_fmap_2.
  - by rewrite Hfp.
  - eexists (cred_audits d), _. rewrite <- app_assoc. split; [done|]. reflexivity.
Qed.
End renewal.

(** ** Revocation and provisioning *)

Section provisioning.
Context `{X : X509} `{U : Unicode} (fingerprint HashToken : bytes -> bytes).

Lemma token_of_spec c r : token_of c r = true <-> r_agent r = c /\ r_revoked r = None.
Proof. unfold token_of. by rewrite andb_true_iff, !bool_decide_eq_true. Qed.

Lemma cert_of_spec c x : cert_of c x = true <-> c_agent x = c /\ c_revoked x = None.
Proof. unfold cert_of. by rewrite andb_true_iff, bool_decide_eq_true, Live_spec. Qed.

Lemma revoke_ok c now d d' n :
  exec (revoke c now) d = (d', Ok n) ->
  exists e, d' = put_entries (cred_audits d ++ [e])
                   (put_certs ((fun x => if cert_of c x then cert_revoke now x else x) <$> certs d)
                      (put_tokens ((fun r => if token_of c r then set_revoked now r else r) <$> tokens d) d)) /\
    Action e = lit "canary.revoked" /\ AuditTarget e = c.
Proof.
  unfold revoke, revoke_credentials. intros (d1 & r & Hr & (m & -> & Hk)%or_abort_ok)%pbind_ok.
  apply must_append_ok in Hk. injection Hk as <- _. destruct (now =? 0); [done|]. cbn in Hr.
  destruct (count_nodes c d =? 0); [done|]. cbn in Hr. injection Hr as <- _. by eexists.
Qed.

Lemma revoke_keeps c now d d' n : cred_inv d -> exec (revoke c now) d = (d', Ok n) -> keeps d d'.
Proof.
  intros [HC HK] (e & -> & Hact & Htgt)%revoke_ok. set (f := fun x => if cert_of c x then _ else _).
  set (g := fun r => if token_of c r then _ else _). set (d' := put_entries _ _).
  assert (table_le eq (cred_audits d) (cred_audits d')) as Haud by apply (table_le_insert eq).
  assert (revoked_by_operator c d') as Hop by (exists e; split; [apply elem_of_app; right; by left|done]).
  assert (forall x, cert_le x (f x)) as Hf by (intros x; unfold f; destruct (cert_of c x); by split).
  destruct (certs_step d d' f None HC) as [HC' Hle]; try done.
  - by rewrite app_nil_r.
  - intros x y _ _ Hu Hu'. exfalso. apply Hu'. unfold f. by destruct (cert_of c x).
  - intros x Hx Hl Hr. left. unfold f in Hr. destruct (cert_of c x) eqn:Eo; [|done].
    by apply cert_of_spec in Eo as [-> _].
  - destruct (tokens_step d d' g None HK) as [HK' Hle']; try done.
    + by rewrite app_nil_r.
    + intros r _. unfold g. destruct (token_of c r); [|done]. split; [apply set_revoked_le|done].
    + intros r Hr fp Hfp. assert (r_cert r = Some fp /\ r_agent (g r) = r_agent r) as [Hrfp Hra]
        by (unfold g in *; by destruct (token_of c r)).
      destruct (ki_bound d HK r fp Hr Hrfp) as (x & Hx & <- & Hxa & Hnew). exists (f x). rewrite Hra.
      rewrite (cl_fp _ _ (Hf x)), (cl_agent _ _ (Hf x)). split; [by apply list_elem_of_fmap_2|]. split_and!; try done.
      intros Hl. unfold g in Hl. destruct (token_of c r) eqn:Eo; [simpl in Hl; done|].
      specialize (Hnew Hl). apply newest_map; try done. unfold f.
      destruct (cert_of c x) eqn:Ex; [|by destruct Hnew]. exfalso. apply cert_of_spec in Ex as [Hxc _].
      apply not_true_iff_false in Eo. apply Eo, token_of_spec. split; [congruence|done].
    + intros r Hr Hl Hg. left. unfold g in Hg. destruct (token_of c r) eqn:Eo; [|done]. by apply token_of_spec in Eo as [-> _].
Qed.

(** The first certificate of a node. *)
Lemma first_cert_keep d n c :
  cred_inv d -> records c d n -> (forall x, x ∈ certs d -> c_agent x ≠ c) -> (exists m, m ∈ nodes d /\ n_id m = c) ->
  keeps d (put_certs (certs d ++ [n]) d).
Proof.
  intros [HC HK] (Hid & Ha & Hu & Hl & Hfp) Hfresh Hnode.
  destruct (certs_step d (put_certs (certs d ++ [n]) d) id (Some n) HC) as [HC' Hle]; try done.
  - by rewrite list_fmap_id.
  - intros n' [= <-]. by rewrite Ha.
  - destruct (tokens_step d (put_certs (certs d ++ [n]) d) id None HK) as [HK' Hle']; try done.
    + by rewrite list_fmap_id, app_nil_r.
    + intros r Hr fp Hrfp. destruct (ki_bound d HK r fp Hr Hrfp) as (x & Hx & <- & Hxa & Hnew). exists x.
      split; [by apply elem_of_app; left|]. split_and!; try done. intros Hrl. destruct (Hnew Hrl) as [Hxl Hmax].
      split; [done|]. intros y [Hy|Hy]%elem_of_app Hya Hyl; [by apply Hmax|].
      apply list_elem_of_singleton in Hy as ->. exfalso. apply (Hfresh x Hx). congruence.
Qed.

Lemma get_put_settings d : put_settings (get_settings d) d = d.
Proof. by destruct d. Qed.

Lemma seed_audits c b s now d :
  settings_audits (exec (SeedCanarySettingsFromEnrolment c b s now) d).1 = settings_audits d.
Proof.
  assert (forall k v (p : prog settings_db (res settings_error unit)),
    (forall d, settings_audits (exec p d).1 = settings_audits d) ->
    forall d, settings_audits (exec (seed_one c k v now p) d).1 = settings_audits d) as Hone.
  { intros k v p Hp d0. unfold seed_one. case_bool_decide; [apply Hp|]. rewrite exec_pbind. unfold upsertCanarySetting.
    destruct (setting_def k); [|done]. destruct (negb _); [done|]. destruct (negb _); [done|]. destruct (now =? 0); [done|].
    cbn. by rewrite Hp. }
  unfold SeedCanarySettingsFromEnrolment. apply Hone. intros d0. by apply Hone.
Qed.

Lemma seed_keeps c b s now d d' r :
  cred_inv d -> exec (on_table get_settings put_settings (SeedCanarySettingsFromEnrolment c b s now)) d = (d', r) ->
  keeps d d' /\ certs d' = certs d /\ nodes d' = nodes d.
Proof.
  intros HI. rewrite exec_on_table; [|apply get_put_settings|by intros [? ?] ?|done]. intros [= <- _].
  split; [|done]. apply same_keeps; try done. apply table_le_same; [apply _|]. cbn. by rewrite seed_audits.
Qed.

Lemma InsertCanary_ok n d d' u :
  exec (InsertCanary n) d = (d', Ok u) ->
  exists n', d' = put_nodes (nodes d ++ [n']) d /\ n_id n' = n_id n /\ n_kind n' = n_kind n /\ forall x, x ∈ nodes d -> n_id x ≠ n_id n.
Proof.
  unfold InsertCanary. destruct (n_enrolled n =? 0); [done|]. destruct (negb _); [done|]. cbn. unfold insert_node.
  set (n' := with_interval _ _). destruct (existsb _ _) eqn:Ex; [done|]. intros [= <- _]. exists n'. split_and!; try done.
  intros x Hx Heq. rewrite <- not_true_iff_false, existsb_exists in Ex. apply Ex. exists x.
  split; [by apply list_elem_of_In|by apply bool_decide_eq_true].
Qed.

Lemma insert_keep d n : cred_inv d -> keeps d (put_nodes (nodes d ++ [n]) d).
Proof. intros HI. apply same_keeps; try done. apply (table_le_insert node_le). Qed.

Lemma or_fail_ok {A B} (r : res cred_error A) (k : A -> prog cred_db (res provision_error B)) d d' b :
  exec (or_fail r k) d = (d', Ok b) -> exists a, r = Ok a /\ exec (k a) d = (d', Ok b).
Proof. destruct r as [a|e]; [by exists a|done]. Qed.

Lemma sessions_keep d s : cred_inv d -> keeps d (put_sessions s d).
Proof. intros HI. by apply same_keeps. Qed.

Lemma provision_node_keeps s now rcanary rid rraw sign d d' p :
  cred_inv d -> exec (provision_node fingerprint HashToken s now rcanary rid rraw sign) d = (d', Ok p) -> keeps d d'.
Proof.
  intros HI. unfold provision_node. destruct (kind_ports _) as [ports|]; [|done]. destruct rcanary as [c|]; [|done].
  intros (d1 & r & Hi & (u & -> & Hk)%or_fail_ok)%pbind_ok.
  apply InsertCanary_ok in Hi as (n & -> & Hnid & _ & Hfresh). pose proof (insert_keep d n HI) as K1. cbn [n_id provisioned_node] in Hnid, Hfresh.
  apply pbind_ok in Hk as (d1 & r & Hs & Hk). apply seed_keeps in Hs as (K2 & Hcs & Hns); [|apply K1].
  destruct r as [u'|e]; [|done]. destruct (sign c (Enrolment.Kind s)) as [der|]; [|done].
  apply pbind_ok in Hk as (d2 & r & Hr & (rec & -> & Hk)%or_fail_ok). apply RecordClientCert_ok in Hr as (m & -> & Hm & Hfp).
  cbn in Hcs, Hns.
  assert (forall x, x ∈ certs d1 -> c_agent x ≠ c) as Hno.
  { rewrite Hcs. intros x Hx Ha. destruct (ci_node d (proj1 HI) x Hx) as (y & Hy & Hyid). apply (Hfresh y Hy). congruence. }
  assert (keeps d1 (put_certs (certs d1 ++ [m]) d1)) as K3.
  { apply (first_cert_keep d1 m c); [apply K2|done|done|]. exists n. rewrite Hns. split; [apply elem_of_app; right; by left|done]. }
  apply pbind_ok in Hk as (d2 & r & Ht & (t & -> & Hk)%or_fail_ok).
  apply MintCanaryTokenForCert_ok in Ht as (row & -> & Hrow & Hrfp).
  assert (keeps (put_certs (certs d1 ++ [m]) d1) (put_tokens (tokens d1 ++ [row]) (put_certs (certs d1 ++ [m]) d1))) as K4.
  { apply (mint_keep _ row c (proj1 K3) Hrow). intros fp Heq. rewrite Hrfp in Heq. injection Heq as <-.
    destruct Hm as (_ & Ha & _ & Hl & _), Hrow as (Hra & _). exists m. split; [apply elem_of_app; right; by left|].
    split_and!; [done|congruence|]. intros _. split; [done|]. intros x [Hx|Hx]%elem_of_app Hxa _.
    - by destruct (Hno x Hx); rewrite Hxa.
    - by apply list_elem_of_singleton in Hx as ->. }
  apply pbind_ok in Hk as (d2 & r & Hw & Hk).
  rewrite exec_on_table in Hw; [|by intros []|done|done]. injection Hw as <- Hw. destruct r as [[]|e]; [|done|done].
  cbn [negb] in Hk. apply pbind_ok in Hk as (d2 & ok & Ha & Hk). rewrite exec_append in Ha.
  destruct (entry_ok _); injection Ha as <- <-; [|done]. injection Hk as <- _.
  pose proof (sessions_keep _ ((fun r => if contacted (Enrolment.ID s) r then set_provisioned c r else r) <$> sessions d1) (proj1 K4)) as K5.
  pose proof (cred_keeps_trans _ _ _ K1 (cred_keeps_trans _ _ _ K2 (cred_keeps_trans _ _ _ K3 (cred_keeps_trans _ _ _ K4 K5)))) as K.
  exact (cred_keeps_trans _ _ _ K (entries_keep _ _ (proj1 K5))).
Qed.

Lemma provision_keeps h now rcanary rid rraw sign d d' p :
  cred_inv d -> exec (provision fingerprint HashToken h now rcanary rid rraw sign) d = (d', Ok p) -> keeps d d'.
Proof.
  intros HI. unfold provision. cbn [exec query]. destruct (scanEnrolmentSessionBySecretHash h (sessions d)) as [s|].
  2: { intros [= <- _]. by apply cred_keeps_refl. }
  destruct (WindowDeadline s) as [deadline|]; [|done]. destruct (negb _).
  - cbn [exec]. unfold expire_session. destruct (Enrolment.update _ _ _) as [[s' n]|]; [|done]. intros [= <- _].
    by apply sessions_keep.
  - intros (d1 & r & Hn & Hk)%pbind_ok. destruct r as [x|e]; [|done]. injection Hk as <- _. by eapply provision_node_keeps.
Qed.
End provisioning.
