(* ===== verification/Credentials.v ===== *)
(** Who may speak on the ingest road: the bearer-token and client-certificate
    check in front of every route ([internal/ingest/auth.go], [http.go]), the
    two routes that issue credentials ([rotate.go], [renew.go]), enrolment's
    provisioning, and the command line's [add], [mint] and [revoke]
    ([cmd/birdcage/canary.go]).

    Each request or command is a process over birdcage's tables, its audit
    coalescer and its dual-use tracker. A transaction is one statement. The
    state also keeps a history no operation reads: the calls of the rotation
    hook, the replies given, and the requests let through to their route with
    the database as it was when each arrived. *)
From S2P Require Import Prelude GoBase GoStrings Sql Process Watch SelfTest AuditLog Server Settings Enrolment Tokens ClientCerts Issuance.
#[local] Open Scope Z_scope.

(** ** http.go *)

Inductive ingest_handler : Type :=
| handleBatch | handleRotate | handleRenew | handleHeartbeat | handleCommands | handleScan | handleUpgradeToken.

Record ingestRoute : Type := mkRoute { pattern : bytes; kinds : list bytes; handler : ingest_handler }.

Definition Honeypot : bytes := lit "honeypot".
Definition Scanner : bytes := lit "scanner".

Definition ingestRoutes : list ingestRoute :=
  [ mkRoute (lit "POST /ingest/events") [Honeypot] handleBatch;
    mkRoute (lit "POST /ingest/rotate") [Honeypot; Scanner] handleRotate;
    mkRoute (lit "POST /ingest/renew") [Honeypot; Scanner] handleRenew;
    mkRoute (lit "POST /ingest/heartbeat") [Honeypot; Scanner] handleHeartbeat;
    mkRoute (lit "POST /ingest/commands") [Honeypot; Scanner] handleCommands;
    mkRoute (lit "POST /ingest/scans") [Scanner] handleScan;
    mkRoute (lit "POST /ingest/upgrade-token") [Honeypot; Scanner] handleUpgradeToken ].

(** What reading and parsing a renewal's body gives: a refusal, or the public
    key of the request to sign. *)
Inductive renew_body : Type :=
| RenewMalformed
| RenewTrailing
| RenewBadCSR
| RenewCSR (key : bytes).

(** A request: its header, the certificates its TLS connection presented, the
    host its peer's address splits into, its route, and for the routes that
    issue credentials the random bytes read, the body and the signer. *)
Record request : Type := mkRequest {
  rq_authorization : bytes;
  rq_tls : option (list bytes);
  rq_host : option bytes;
  rq_route : ingestRoute;
  rq_rid : option bytes;
  rq_rraw : option bytes;
  rq_body : renew_body;
  rq_sign : option (bytes -> bytes -> option bytes);
}.

Inductive reply : Type :=
| Refused (status : Z)
| Rotated (raw : bytes)
| Renewed (der : bytes) (notAfter : Z)
| Passed.

(** A request let through, the database when it arrived, its token and its
    certificate. *)
Record admission : Type := mkAdmission {
  ad_arrival : cred_db;
  ad_request : request;
  ad_token : CanaryToken;
  ad_cert : option ClientCert;
}.

(** ** The state *)

Record gate : Type := mkGate {
  gdb : cred_db;
  gcoal : auditCoalescer;
  gdual : dualUseTracker;
  first_contacts : list (bytes * Z);
  rotations : list (bytes * Z);
  admitted : list admission;
  replies : list (request * reply);
}.

Definition set_gdb (d : cred_db) (w : gate) : gate :=
  mkGate d (gcoal w) (gdual w) (first_contacts w) (rotations w) (admitted w) (replies w).
Definition set_gcoal (c : auditCoalescer) (w : gate) : gate :=
  mkGate (gdb w) c (gdual w) (first_contacts w) (rotations w) (admitted w) (replies w).
Definition set_gdual (t : dualUseTracker) (w : gate) : gate :=
  mkGate (gdb w) (gcoal w) t (first_contacts w) (rotations w) (admitted w) (replies w).
Definition FirstContact (canaryID : bytes) (at_ : Z) (w : gate) : gate :=
  mkGate (gdb w) (gcoal w) (gdual w) (first_contacts w ++ [(canaryID, at_)]) (rotations w) (admitted w) (replies w).
Definition RotationSucceeded (canaryID : bytes) (at_ : Z) (w : gate) : gate :=
  mkGate (gdb w) (gcoal w) (gdual w) (first_contacts w) (rotations w ++ [(canaryID, at_)]) (admitted w) (replies w).
Definition let_through (a : admission) (w : gate) : gate :=
  mkGate (gdb w) (gcoal w) (gdual w) (first_contacts w) (rotations w) (admitted w ++ [a]) (replies w).
Definition answer (rq : request) (r : reply) (w : gate) : gate :=
  mkGate (gdb w) (gcoal w) (gdual w) (first_contacts w) (rotations w) (admitted w) (replies w ++ [(rq, r)]).

Notation go := (proc gate server_input).
Notation run_stmt := (Server.run_stmt gdb set_gdb).
Notation stmt := (Server.stmt gdb set_gdb).
Notation statements := (Server.statements gdb set_gdb).

(** ** Statements *)

Definition node_kind (canaryID : bytes) (d : cred_db) : option bytes :=
  option_map n_kind (head (filter (fun n => n_id n = canaryID) (nodes d))).

(** [LookupCanaryTokenByHash]: a live token, with its node's kind. *)
Definition live_token (hash : bytes) (d : cred_db) : option CanaryToken :=
  option_map (fun r => scanCanaryTokenWithKind (node_kind (r_agent r) d) r) (select_live hash (tokens d)).

Definition update_nodes (canaryID : bytes) (f : node_row -> node_row) (d : cred_db) : option (cred_db * Z) :=
  Some (put_nodes ((fun n => if bool_decide (n_id n = canaryID) then f n else n) <$> nodes d) d, count_nodes canaryID d).

Definition set_addr (address : bytes) (n : node_row) : node_row :=
  mkNode (n_id n) (n_name n) (n_lane n) (n_kind n) (n_ports n) (n_interval n) (n_enrolled n) (n_registered n) (n_lure n)
    (n_workgroup n) (n_shares n) (Some address) (n_dual_addrs n) (n_dual_versions n).

Inductive DualUseKind : Type := DualUseAddresses | DualUseVersions.

Definition maxDualUseValueLen : Z := 128.

Definition truncate (s : bytes) (n : Z) : bytes := if zlen s <=? n then s else take (Z.to_nat n) s.

Definition set_dual (kind : DualUseKind) (pair : bytes * bytes * Z) (n : node_row) : node_row :=
  match kind with
  | DualUseAddresses =>
      mkNode (n_id n) (n_name n) (n_lane n) (n_kind n) (n_ports n) (n_interval n) (n_enrolled n) (n_registered n)
        (n_lure n) (n_workgroup n) (n_shares n) (n_addr n) (Some pair) (n_dual_versions n)
  | DualUseVersions =>
      mkNode (n_id n) (n_name n) (n_lane n) (n_kind n) (n_ports n) (n_interval n) (n_enrolled n) (n_registered n)
        (n_lure n) (n_workgroup n) (n_shares n) (n_addr n) (n_dual_addrs n) (Some pair)
  end.

(** [RecordCredentialDualUse] *)
Definition RecordCredentialDualUse (canaryID : bytes) (kind : DualUseKind) (a b : bytes) (at_ : Z) :
    prog cred_db (res cred_error unit) :=
  if at_ =? 0 then Ret (Err ErrZeroTime) else
  Stmt (update_nodes canaryID (set_dual kind (truncate a maxDualUseValueLen, truncate b maxDualUseValueLen, at_)))
    (fun n => answer_or n (fun n => Ret (if n =? 0 then Err ErrCanaryNotFound else Ok tt))).

(** ** Values *)

(** [bearerToken] *)
Definition bearerToken (header : bytes) : option bytes :=
  let prefix := lit "Bearer " in
  if negb (HasPrefix header prefix) then None else
  let raw := drop (length prefix) header in
  if bool_decide (raw = []) then None else Some raw.

Definition kindAllowed (allowed : list bytes) (k : bytes) : bool := existsb (fun a => bool_decide (a = k)) allowed.

Fixpoint formatKinds (ks : list bytes) : bytes :=
  match ks with
  | [] => []
  | [k] => k
  | k :: ks => k ++ lit ", " ++ formatKinds ks
  end.

Section gate.
Context `{X509} `{Unicode} (fingerprint HashToken PublicKey Quote : bytes -> bytes) (hook : bool).

Definition certificateKind (peers : list bytes) : option bytes :=
  match peers with
  | [] => None
  | leaf :: _ =>
      match OrganizationalUnit leaf with
      | [ou] => if kind_valid ou then Some ou else None
      | _ => None
      end
  end.

Definition presentedOrganizationalUnit (peers : list bytes) : list bytes :=
  match peers with [] => [] | leaf :: _ => OrganizationalUnit leaf end.

(** [%v] of a slice of strings. *)
Fixpoint spaced (l : list bytes) : bytes :=
  match l with
  | [] => []
  | [x] => x
  | x :: l => x ++ 32 :: spaced l
  end.
Definition format_slice (l : list bytes) : bytes := lit "[" ++ spaced l ++ lit "]".

(** ** What every refusal and every success writes *)

Definition finish (rq : request) (r : reply) : go := Act (effect (answer rq r)) (fun _ => Done).

Definition audit_append (e : Entry) (k : go) : go := statements (append_entry e) (fun _ => k).

(** An entry for one key of the coalescer. *)
Definition recordKeyed (canaryID key action reason noun : bytes) (k : Z -> go) (none : go) : go :=
  clock (fun at_ =>
  Act (fun w => let '(out, c) := coalesce_admit (gcoal w) canaryID key at_ in (out, set_gcoal c w)) (fun out =>
    let '(write, occurrences) := out in
    if negb write then none
    else audit_append (mkAudit action canaryID (coalescedReason reason occurrences noun) canaryID at_) (k at_))).

Definition recordCoalesced (canaryID action reason noun : bytes) (k : go) : go :=
  recordKeyed canaryID action action reason noun (fun _ => k) k.

Definition recordTokenConflictIfSuccessorActive (hash : bytes) (k : go) : go :=
  statements (on_table tokens put_tokens (LookupCanaryTokenByHashAnyStatus hash)) (fun r =>
  match r with
  | Err _ => k
  | Ok tok =>
      if bool_decide (RevokedAt tok = None) then k else
      statements (on_table tokens put_tokens (CanaryHasActiveToken (CanaryID tok))) (fun r =>
      match r with
      | Ok true =>
          recordCoalesced (CanaryID tok) (lit "ingest.token_conflict")
            (lit "revoked token presented while a successor token is active") (lit "presentations") k
      | _ => k
      end)
  end).

Definition recordClientCertMismatch (canaryID presentedCN : bytes) (k : go) : go :=
  clock (fun at_ =>
  audit_append (mkAudit (lit "ingest.client_cert_mismatch") canaryID
    (lit "bearer token resolved to canary " ++ canaryID ++ lit " but the presented client certificate CN was " ++
     Quote presentedCN) canaryID at_) k).

Definition recordKindRefused (canaryID kind route : bytes) (allowed : list bytes) (k : go) : go :=
  recordCoalesced canaryID (lit "ingest.kind_refused")
    (lit "canary " ++ canaryID ++ lit " (kind " ++ Quote kind ++ lit ") posted to " ++ route ++
     lit ", which allows kind(s) " ++ formatKinds allowed) (lit "refusals") k.

Definition recordKindMismatch (canaryID : bytes) (presentedOU : list bytes) (k : go) : go :=
  recordCoalesced canaryID (lit "ingest.kind_mismatch")
    (lit "certificate for canary " ++ canaryID ++ lit " carries organizational unit " ++ format_slice presentedOU ++
     lit ", want exactly one value naming its registered kind") (lit "presentations") k.

Definition recordRateLimitCrossed (canaryID limit : bytes) (k : go) : go :=
  recordCoalesced canaryID (lit "ingest.rate_limited") (limit ++ lit " limit exceeded") (lit "crossings") k.

(** [recordDualUse]: the pair is stored when an entry is due. *)
Definition recordDualUse (canaryID : bytes) (kind : DualUseKind) (a b : bytes) (k : go) : go :=
  let '(key, base) :=
    match kind with
    | DualUseAddresses =>
        (lit "ingest.credential_dual_use:addresses",
         lit "credential in use from two addresses: " ++ a ++ lit " and " ++ b)
    | DualUseVersions =>
        (lit "ingest.credential_dual_use:versions",
         lit "credential in use by two agent builds: " ++ Quote a ++ lit " and " ++ Quote b)
    end in
  recordKeyed canaryID key (lit "ingest.credential_dual_use") base (lit "observations")
    (fun at_ => statements (RecordCredentialDualUse canaryID kind a b at_) (fun _ => k)) k.

(** ** auth.go *)

(** [checkClientCertificate]: the certificate, or the status to refuse with. *)
Definition checkClientCertificate (tok : CanaryToken) (leaf : bytes) (k : res Z ClientCert -> go) : go :=
  statements (LookupClientCertByFingerprint (fingerprint leaf)) (fun r =>
  let unknown :=
    recordCoalesced (CanaryID tok) (lit "ingest.cert_unknown")
      (lit "client certificate serial " ++ SerialNumber leaf ++ lit " is not on record as issued to canary " ++
       CanaryID tok) (lit "presentations") (k (Err 401)) in
  match r with
  | Err ErrClientCertNotFound => unknown
  | Err _ => k (Err 503)
  | Ok cert =>
      if negb (bool_decide (c_agent cert = CanaryID tok)) then unknown else
      if negb (Live cert) then
        statements (CanaryHasLiveClientCert (c_agent cert)) (fun r =>
        match r with
        | Ok true =>
            recordCoalesced (c_agent cert) (lit "ingest.cert_conflict")
              (lit "revoked client certificate serial " ++ c_serial cert ++
               lit " presented while a successor certificate is live") (lit "presentations") (k (Err 401))
        | _ => k (Err 401)
        end)
      else
        statements (TokenBoundToCert tok cert) (fun r =>
        match r with
        | Err _ => k (Err 503)
        | Ok false =>
            recordCoalesced (CanaryID tok) (lit "ingest.token_cert_mismatch")
              (lit "token " ++ ID tok ++ lit " presented over client certificate serial " ++ c_serial cert ++
               lit ", which it is not bound to") (lit "presentations") (k (Err 401))
        | Ok true => k (Ok cert)
        end)
  end).

Definition recordLastSeenAddr (canaryID : bytes) (host : option bytes) (k : go) : go :=
  match host with
  | None => k
  | Some host => stmt (update_nodes canaryID (set_addr host)) (fun _ => k)
  end.

Definition completeRotation (tok : CanaryToken) (revoked at_ : Z) (host : option bytes) (k : go) : go :=
  if revoked =? 0 then
    audit_append (mkAudit (lit "ingest.token_first_use") (CanaryID tok) (lit "first use of a canary's first token")
                    (CanaryID tok) at_)
      (if hook then
         recordLastSeenAddr (CanaryID tok) host (Act (effect (FirstContact (CanaryID tok) at_)) (fun _ => k))
       else k)
  else
    audit_append (mkAudit (lit "ingest.token_rotated") (CanaryID tok)
                    (lit "first use of a new token revoked " ++ Itoa revoked ++ lit " older token(s)") (CanaryID tok) at_) k.

Definition completeRenewal (cert : ClientCert) (k : go) : go :=
  clock (fun at_ =>
  statements (RecordClientCertFirstUse cert at_) (fun r =>
  match r with
  | Err _ => k
  | Ok (first, revoked) =>
      if negb first || (revoked =? 0) then k
      else audit_append (mkAudit (lit "ingest.cert_renewed") (c_agent cert)
             (lit "first use of client certificate serial " ++ c_serial cert ++ lit " revoked " ++ Itoa revoked ++
              lit " older certificate(s)") (c_agent cert) at_) k
  end)).

(** The dual-use observation of a request's address. *)
Definition observe_address (tok : CanaryToken) (cert : ClientCert) (host : option bytes) (k : go) : go :=
  match host with
  | None => k
  | Some host =>
      clock (fun now =>
      Act (fun w => let '(out, t) := dual_observe (gdual w) (c_fp cert) host false now in (out, set_gdual t w)) (fun out =>
        let '(prev, dual) := out in
        if dual : bool then recordDualUse (CanaryID tok) DualUseAddresses prev host k else k))
  end.

(** What follows a request that is who it says it is. *)
Definition record_use (rq : request) (tok : CanaryToken) (presented : option ClientCert) (k : go) : go :=
  let observed :=
    match presented with
    | None => k
    | Some cert =>
        let rest := observe_address tok cert (rq_host rq) k in
        if bool_decide (c_used cert = None) then completeRenewal cert rest else rest
    end in
  clock (fun at_ =>
  statements (on_table tokens put_tokens (CompleteCanaryTokenFirstUse tok at_)) (fun r =>
  match r with
  | Ok (true, revoked) => completeRotation tok revoked at_ (rq_host rq) observed
  | _ => statements (on_table tokens put_tokens (RecordCanaryTokenUse (ID tok) at_)) (fun _ => observed)
  end)).

(** The kinds a request must match: its route's and its certificate's. *)
Definition check_kinds (rq : request) (tok : CanaryToken) (k : go) : go :=
  if negb (kindAllowed (kinds (rq_route rq)) (Tokens.Kind tok)) then
    recordKindRefused (CanaryID tok) (Tokens.Kind tok) (pattern (rq_route rq)) (kinds (rq_route rq)) (finish rq (Refused 403))
  else
    match rq_tls rq with
    | None => k
    | Some peers =>
        if bool_decide (certificateKind peers = Some (Tokens.Kind tok)) then k
        else recordKindMismatch (CanaryID tok) (presentedOrganizationalUnit peers) (finish rq (Refused 403))
    end.

(** The certificate a request presents, when it is over TLS. *)
Definition check_certificate (rq : request) (tok : CanaryToken) (k : option ClientCert -> go) : go :=
  match rq_tls rq with
  | None => k None
  | Some peers =>
      let presentedCN := match peers with [] => [] | leaf :: _ => CommonName leaf end in
      if negb (bool_decide (presentedCN = CanaryID tok)) then
        recordClientCertMismatch (CanaryID tok) presentedCN (finish rq (Refused 401))
      else
        match peers with
        | [] => finish rq (Refused 401)
        | leaf :: _ =>
            checkClientCertificate tok leaf (fun r =>
            match r with Err status => finish rq (Refused status) | Ok cert => k (Some cert) end)
        end
  end.

(** ** rotate.go and renew.go *)

Definition run_rotate (rq : request) (tok : CanaryToken) : go :=
  clock (fun minted => clock (fun recorded =>
  statements (in_transaction tt (rotate HashToken (CanaryID tok) minted recorded (rq_rid rq) (rq_rraw rq))) (fun r =>
  match r with
  | Err _ => finish rq (Refused 503)
  | Ok raw =>
      if hook then
        clock (fun at_ => Act (effect (RotationSucceeded (CanaryID tok) at_)) (fun _ => finish rq (Rotated raw)))
      else finish rq (Rotated raw)
  end))).

Definition run_renew (rq : request) (tok : CanaryToken) (cert : option ClientCert) : go :=
  match cert, rq_tls rq with
  | Some presented, Some (leaf :: _) =>
      match rq_sign rq with
      | None => finish rq (Refused 503)
      | Some sign =>
          match rq_body rq with
          | RenewMalformed | RenewTrailing | RenewBadCSR => finish rq (Refused 400)
          | RenewCSR key =>
              if bool_decide (key = PublicKey leaf) then finish rq (Refused 400) else
              match sign (CanaryID tok) (Tokens.Kind tok) with
              | None => finish rq (Refused 503)
              | Some der =>
                  clock (fun at_ => clock (fun recorded => clock (fun issued =>
                  statements (in_transaction tt (renew fingerprint (CanaryID tok) presented der at_ recorded issued)) (fun r =>
                  finish rq (match r with Err _ => Refused 503 | Ok rec => Renewed der (c_not_after rec) end)))))
              end
          end
      end
  | _, _ => finish rq (Refused 401)
  end.

(** The route's handler; those that issue no credentials are modelled apart. *)
Definition route_handler (rq : request) (tok : CanaryToken) (cert : option ClientCert) : go :=
  match handler (rq_route rq) with
  | handleRotate => run_rotate rq tok
  | handleRenew => run_renew rq tok cert
  | _ => finish rq Passed
  end.

Definition requireBearerToken (rq : request) : go :=
  Act (look gdb) (fun arrival =>
  match bearerToken (rq_authorization rq) with
  | None => finish rq (Refused 401)
  | Some raw =>
      let hash := HashToken raw in
      stmt (query (live_token hash)) (fun r =>
      match r with
      | None => finish rq (Refused 503)
      | Some None => recordTokenConflictIfSuccessorActive hash (finish rq (Refused 401))
      | Some (Some tok) =>
          check_certificate rq tok (fun presented =>
          check_kinds rq tok
            (record_use rq tok presented
               (allowed (fun ok =>
                if negb ok then
                  recordRateLimitCrossed (CanaryID tok) (lit "requests/min") (finish rq (Refused 429))
                else
                  Act (effect (let_through (mkAdmission arrival rq tok presented))) (fun _ =>
                  route_handler rq tok presented)))))
      end)
  end).

(** ** The command line and enrolment *)

Inductive actor : Type :=
| Serve (rq : request)
| runCanaryAdd (id name lane ports : bytes) (interval : Z)
| runCanaryMint (canaryID : bytes) (rid rraw : option bytes)
| runCanaryRevoke (canaryID : bytes)
| serveProvision (secretHash : bytes) (rcanary rid rraw : option bytes) (sign : bytes -> bytes -> option bytes).

Definition act (a : actor) : go :=
  match a with
  | Serve rq => requireBearerToken rq
  | runCanaryAdd id name lane ports interval =>
      clock (fun now =>
      statements (InsertCanary (mkNode id name lane Honeypot ports interval now (Some now) None [] [] None None None))
        (fun _ => Done))
  | runCanaryMint c rid rraw =>
      clock (fun now => statements (in_transaction tt (mint HashToken c now rid rraw)) (fun _ => Done))
  | runCanaryRevoke c => clock (fun now => statements (in_transaction tt (revoke c now)) (fun _ => Done))
  | serveProvision h rc rid rraw sign =>
      clock (fun now => statements (Provision fingerprint HashToken h now rc rid rraw sign) (fun _ => Done))
  end.
End gate.

(** ** What a request let through has shown *)

Section earned.
Context `{X : X509} `{U : Unicode} (fingerprint HashToken PublicKey Quote : bytes -> bytes) (hook : bool).

(** The request presented, at times between its arrival and now, a token live
    and of its node, its route's kind, and a certificate of that node and kind,
    live, that the token's binding accepts; neither was revoked when it
    arrived. *)
Definition token_shown (a : admission) (d : cred_db) : Prop :=
  exists raw r, bearerToken (rq_authorization (ad_request a)) = Some raw /\
    r ∈ tokens d /\ r_hash r = HashToken raw /\ r_revoked r = None /\
    ad_token a = scanCanaryTokenWithKind (node_kind (r_agent r) d) r /\
    (forall x, x ∈ tokens (ad_arrival a) -> r_hash x = HashToken raw -> r_revoked x = None).

Definition cert_shown (a : admission) (leaf : bytes) (x : ClientCert) (d : cred_db) : Prop :=
  x ∈ certs d /\ c_fp x = fingerprint leaf /\ c_agent x = CanaryID (ad_token a) /\ c_revoked x = None /\
  (forall y, y ∈ certs (ad_arrival a) -> c_fp y = fingerprint leaf -> c_revoked y = None).

Definition earned (now : cred_db) (a : admission) : Prop :=
  exists leaf rest x d1 d2 d3,
    rq_tls (ad_request a) = Some (leaf :: rest) /\ ad_cert a = Some x /\
    (cred_le (ad_arrival a) d1 /\ cred_le d1 d2 /\ cred_le d2 d3 /\ cred_le d3 now) /\
    token_shown a d1 /\ cert_shown a leaf x d2 /\
    accepts_binding (ad_token a) x (bound_cert (ID (ad_token a)) d3) = true /\
    CommonName leaf = CanaryID (ad_token a) /\
    OrganizationalUnit leaf = [Tokens.Kind (ad_token a)] /\
    Tokens.Kind (ad_token a) ∈ kinds (rq_route (ad_request a)).

Lemma earned_mono d d' a : cred_le d d' -> earned d a -> earned d' a.
Proof.
  intros Hle (leaf & rest & x & d1 & d2 & d3 & H1 & H2 & (H3 & H4 & H5 & H6) & H7).
  exists leaf, rest, x, d1, d2, d3. split_and!; try done; try (by transitivity d); by destruct H7 as (? & ? & ? & ? & ? & ?).
Qed.

Definition gate_inv (w : gate) : Prop := cred_inv (gdb w) /\ Forall (earned (gdb w)) (admitted w).
Definition gate_le (w w' : gate) : Prop := cred_le (gdb w) (gdb w').

#[export] Instance gate_le_preorder : PreOrder gate_le.
Proof. unfold gate_le. split; [done|]. intros a b c H1 H2. by transitivity (gdb b). Qed.

Notation always := (@always gate server_input gate_inv gate_le).

Lemma stmt_keeps {T} (f : cred_db -> option (cred_db * T)) (k : option T -> go) w :
  (forall w1 d' r, gate_le w w1 -> gate_inv w1 -> f (gdb w1) = Some (d', r) ->
     keeps (gdb w1) d' /\ always (k (Some r)) (set_gdb d' w1)) ->
  always (k None) w -> always (stmt f k) w.
Proof.
  intros Hf Hk. apply (stmt_always gdb set_gdb gate_inv gate_le); [|done].
  intros w1 HR HI d' r Hr. destruct (Hf w1 d' r HR HI Hr) as [[HI' Hle] Hal]. split; [|done].
  split; [done|]. destruct HI as [_ Hall]. eapply Forall_impl; [exact Hall|]. intros a. by apply earned_mono.
Qed.

(** A transaction: what its body keeps, it keeps. *)
Lemma transaction_keeps {E A} (lost : E) (body : prog cred_db (res E A)) (k : res E A -> go) w :
  (forall d d' a, cred_inv d -> exec body d = (d', Ok a) -> keeps d d') ->
  (forall r w1, gate_le w w1 -> always (k r) w1) ->
  always (statements (in_transaction lost body) k) w.
Proof.
  intros Hb Hk. apply stmt_keeps; [|by apply Hk].
  intros w1 d' r HR [HI _] Ht. unfold transaction in Ht.
  assert (keeps (gdb w1) d') as Hd.
  { destruct (exec body (gdb w1)) as [d1 [a|e]] eqn:Eb; injection Ht as <- _; [by eapply Hb|by apply cred_keeps_refl]. }
  split; [done|]. apply Hk. transitivity w1; [done|]. apply Hd.
Qed.

(** A read answers with what the tables hold. *)
Lemma query_always {T} (q : cred_db -> T) (k : option T -> go) w :
  (forall w1, gate_le w w1 -> gate_inv w1 -> always (k (Some (q (gdb w1)))) w1) ->
  always (k None) w -> always (stmt (query q) k) w.
Proof.
  intros Hq Hk. apply stmt_keeps; [|done]. intros w1 d' r HR HI [= <- <-].
  split; [apply cred_keeps_refl, HI|]. destruct w1. by apply Hq.
Qed.

Lemma act_always {T} (f : gate -> T * gate) (k : T -> go) w :
  (forall w1, gdb (f w1).2 = gdb w1 /\ admitted (f w1).2 = admitted w1) ->
  (forall r w1, gate_le w w1 -> always (k r) w1) -> always (Act f k) w.
Proof.
  intros Hf Hk. apply (always_act gate_inv gate_le). intros w1 HR HI. destruct (Hf w1) as [Hd Ha].
  unfold gate_inv, gate_le in *. rewrite Hd, Ha. split; [done|]. split; [done|]. apply Hk. unfold gate_le. by rewrite Hd.
Qed.

Lemma later k w w1 : gate_le w w1 -> always k w -> always k w1.
Proof. apply (always_le gate_inv gate_le). Qed.

(** ** Nothing else touches the credentials *)

Lemma finish_always rq r w : always (finish rq r) w.
Proof. apply act_always; [done|]. intros. apply (always_done gate_inv gate_le). Qed.

Lemma audit_always e k w : (forall w1, gate_le w w1 -> always k w1) -> always (audit_append e k) w.
Proof.
  intros Hk. unfold audit_append, append_entry, Append. destruct (negb (entry_ok e)); [by apply Hk|].
  apply stmt_keeps; [|by apply Hk]. intros w1 d' r HR [HI _] [= <- <-].
  pose proof (entries_keep _ (in_seconds e) HI) as Hkeep. split; [done|]. apply Hk. transitivity w1; [done|]. apply Hkeep.
Qed.

Lemma keyed_always c key action reason noun k none w :
  (forall t w1, gate_le w w1 -> always (k t) w1) -> (forall w1, gate_le w w1 -> always none w1) ->
  always (recordKeyed c key action reason noun k none) w.
Proof.
  intros Hk Hn. apply (clock_always gate_inv gate_le). intros t. apply act_always.
  - intros w1. by destruct (coalesce_admit _ _ _ _).
  - intros [write n] w1 HR. destruct (negb write); [by apply Hn|]. apply audit_always. intros w2 HR2. apply Hk. by transitivity w1.
Qed.

Lemma coalesced_always c action reason noun k w :
  (forall w1, gate_le w w1 -> always k w1) -> always (recordCoalesced c action reason noun k) w.
Proof. intros Hk. apply keyed_always; auto. Qed.

(** A read whose answer does not matter. *)
Lemma read_always {T} (q : cred_db -> T) (k : option T -> go) w :
  (forall r w1, gate_le w w1 -> always (k r) w1) -> always (stmt (query q) k) w.
Proof. intros Hk. apply query_always; [|by apply Hk]. auto. Qed.

Lemma token_query_always {T} (q : tok_db -> T) (k : option T -> go) w :
  (forall r w1, gate_le w w1 -> always (k r) w1) ->
  always (stmt (fun db => match query q (tokens db) with Some (t, r) => Some (put_tokens t db, r) | None => None end) k) w.
Proof.
  intros Hk. apply stmt_keeps; [|by apply Hk]. intros w1 d' r HR [HI _] [= <- <-].
  assert (put_tokens (tokens (gdb w1)) (gdb w1) = gdb w1) as -> by (by destruct (gdb w1)).
  split; [by apply cred_keeps_refl|]. destruct w1. by apply Hk.
Qed.

Lemma conflict_always hash k w :
  (forall w1, gate_le w w1 -> always k w1) -> always (recordTokenConflictIfSuccessorActive hash k) w.
Proof.
  intros Hk. apply token_query_always. intros r w1 HR. cbn [on_table Server.statements].
  destruct (found _) as [tok|e]; [|by apply Hk]. case_bool_decide; [by apply Hk|].
  apply token_query_always. intros n w2 HR2. assert (gate_le w w2) as HR' by (by transitivity w1).
  cbn [on_table Server.statements]. destruct n as [n|]; [|by apply Hk]. destruct (0 <? n); [|by apply Hk].
  apply coalesced_always. intros w3 HR3. apply Hk. by transitivity w2.
Qed.

Lemma mismatch_always c cn k w :
  (forall w1, gate_le w w1 -> always k w1) -> always (recordClientCertMismatch Quote c cn k) w.
Proof. intros Hk. apply (clock_always gate_inv gate_le). intros t. by apply audit_always. Qed.

Lemma nodes_always canaryID f (k : option Z -> go) w :
  (forall n, node_le n (f n)) -> (forall r w1, gate_le w w1 -> always (k r) w1) ->
  always (stmt (update_nodes canaryID f) k) w.
Proof.
  intros Hf Hk. apply stmt_keeps; [|by apply Hk]. intros w1 d' r HR [HI _] [= <- <-].
  set (g := fun n => if bool_decide (n_id n = canaryID) then f n else n).
  assert (forall n, node_le n (g n)) as Hg by (intros n; unfold g; by case_bool_decide).
  pose proof (nodes_keep (gdb w1) g HI Hg) as Hkeep. split; [done|]. apply Hk. transitivity w1; [done|]. apply Hkeep.
Qed.

Lemma dual_always c kind a b k w :
  (forall w1, gate_le w w1 -> always k w1) -> always (recordDualUse Quote c kind a b k) w.
Proof.
  intros Hk. unfold recordDualUse. destruct (match kind with DualUseAddresses => _ | DualUseVersions => _ end) as [key base].
  apply keyed_always; [|done]. intros t w1 HR. assert (forall w2, gate_le w1 w2 -> always k w2) as Hk1
    by (intros w2 HR2; apply Hk; by transitivity w1).
  unfold RecordCredentialDualUse. destruct (t =? 0); [by apply Hk1|]. apply nodes_always.
  - intros n. by destruct kind.
  - intros r w2 HR2. destruct r as [n|]; [|by apply Hk1]. cbn [answer_or]. destruct (n =? 0); by apply Hk1.
Qed.

Lemma observe_always tok cert host k w :
  (forall w1, gate_le w w1 -> always k w1) -> always (observe_address Quote tok cert host k) w.
Proof.
  intros Hk. unfold observe_address. destruct host as [host|]; [|by apply Hk].
  apply (clock_always gate_inv gate_le). intros t. apply act_always.
  - intros w1. by destruct (dual_observe _ _ _ _ _).
  - intros [prev dual] w1 HR. destruct dual; [|by apply Hk]. apply dual_always. intros w2 HR2. apply Hk. by transitivity w1.
Qed.

Lemma rotation_always tok revoked at_ host k w :
  (forall w1, gate_le w w1 -> always k w1) -> always (completeRotation hook tok revoked at_ host k) w.
Proof.
  intros Hk. unfold completeRotation. destruct (revoked =? 0); apply audit_always; [|done].
  intros w1 HR. assert (forall w2, gate_le w1 w2 -> always k w2) as Hk1 by (intros w2 HR2; apply Hk; by transitivity w1).
  destruct hook; [|by apply Hk]. unfold recordLastSeenAddr.
  assert (forall w2, gate_le w1 w2 -> always (Act (effect (FirstContact (CanaryID tok) at_)) (fun _ => k)) w2) as Hact.
  { intros w2 HR2. apply act_always; [done|]. intros _ w3 HR3. apply Hk1. by transitivity w2. }
  destruct host as [host|]; [|by apply Hact]. apply nodes_always; [done|]. auto.
Qed.

(** ** A request *)

(** The token and the certificate of a request are rows of the tables. *)
Definition on_file_token (tok : CanaryToken) (d : cred_db) : Prop :=
  exists r, r ∈ tokens d /\ r_id r = ID tok /\ r_agent r = CanaryID tok /\ r_created r = CreatedAt tok /\ r_cert r ≠ None.
Definition on_file_cert (cert : ClientCert) (d : cred_db) : Prop :=
  exists y, y ∈ certs d /\ c_id y = c_id cert /\ c_agent y = c_agent cert.

Lemma on_file_token_mono tok d d' : cred_le d d' -> on_file_token tok d -> on_file_token tok d'.
Proof.
  intros [Hle _ _ _] (r & Hr & H1 & H2 & H3 & H4).
  destruct (table_le_in bound_le _ _ _ Hle Hr) as (r' & Hr' & [[Ki Ka _ Kc _ _] Kb]). exists r'. split_and!; try congruence; auto.
Qed.

Lemma on_file_cert_mono cert d d' : cred_le d d' -> on_file_cert cert d -> on_file_cert cert d'.
Proof.
  intros [_ Hle _ _] (r & Hr & H1 & H2). destruct (table_le_in cert_le _ _ _ Hle Hr) as (r' & Hr' & [Ki Ka _ _ _]).
  exists r'. split_and!; try congruence; auto.
Qed.

Lemma renewal_always cert k w :
  on_file_cert cert (gdb w) -> (forall w1, gate_le w w1 -> always k w1) -> always (completeRenewal cert k) w.
Proof.
  intros Hc Hk. apply (clock_always gate_inv gate_le). intros t. apply stmt_keeps; [|by apply Hk].
  intros w1 d' r HR [HI _] Ht. assert (keeps (gdb w1) d') as Hd.
  { unfold transaction in Ht. destruct (exec (cert_first_use cert t) (gdb w1)) as [d1 [a|e]] eqn:Eb;
      injection Ht as <- _; [|by apply cred_keeps_refl].
    destruct (on_file_cert_mono _ _ _ HR Hc) as (y & Hy & Hyid & Hya). by eapply cert_first_use_keeps. }
  split; [done|]. assert (forall w2, gate_le (set_gdb d' w1) w2 -> always k w2) as Hk'.
  { intros w2 HR2. apply Hk. transitivity w1; [done|]. transitivity (set_gdb d' w1); [apply Hd|done]. }
  cbn [Server.statements]. destruct r as [[first revoked]|e]; [|by apply Hk'].
  destruct (_ || _); [by apply Hk'|]. by apply audit_always.
Qed.

Lemma first_use_always tok at_ k w :
  on_file_token tok (gdb w) -> (forall r w1, gate_le w w1 -> always (k r) w1) ->
  always (statements (on_table tokens put_tokens (CompleteCanaryTokenFirstUse tok at_)) k) w.
Proof.
  intros Ht Hk. apply stmt_keeps; [|by apply Hk]. intros w1 d' r HR [HI _] Hs.
  assert (keeps (gdb w1) d') as Hd; [|split; [done|]; apply Hk; transitivity w1; [done|apply Hd]].
  unfold transaction in Hs. rewrite first_use_exec in Hs by apply HI.
  assert (keeps (gdb w1) (put_tokens (tokens (gdb w1)) (gdb w1))) as Hsame.
  { assert (put_tokens (tokens (gdb w1)) (gdb w1) = gdb w1) as -> by (by destruct (gdb w1)). by apply cred_keeps_refl. }
  destruct (existsb _ _); injection Hs as <- _; [|done].
  destruct (on_file_token_mono _ _ _ HR Ht) as (r0 & Hr0 & _ & Ha & Hcr & Hb). by apply (first_use_keep _ tok at_ r0).
Qed.

Lemma use_always id at_ k w :
  (forall r w1, gate_le w w1 -> always (k r) w1) ->
  always (statements (on_table tokens put_tokens (RecordCanaryTokenUse id at_)) k) w.
Proof.
  intros Hk. apply stmt_keeps; [|by apply Hk]. intros w1 d' r HR [HI _] [= <- <-].
  pose proof (use_keep (gdb w1) id at_ HI) as Hd. split; [done|]. apply Hk. transitivity w1; [done|apply Hd].
Qed.

Lemma record_use_always rq tok cert k w :
  on_file_token tok (gdb w) -> on_file_cert cert (gdb w) -> (forall w1, gate_le w w1 -> always k w1) ->
  always (record_use Quote hook rq tok (Some cert) k) w.
Proof.
  intros Ht Hc Hk. unfold record_use. set (observed := if bool_decide _ then _ else _).
  assert (forall w1, gate_le w w1 -> always observed w1) as Hobs.
  { intros w1 HR. assert (forall w2, gate_le w1 w2 -> always k w2) as Hk1 by (intros w2 HR2; apply Hk; by transitivity w1).
    unfold observed. case_bool_decide; [|by apply observe_always].
    apply renewal_always; [by eapply on_file_cert_mono|]. intros w2 HR2. apply observe_always. intros w3 HR3. apply Hk1.
    by transitivity w2. }
  apply (clock_always gate_inv gate_le). intros t. apply first_use_always; [done|]. intros r w1 HR.
  assert (forall w2, gate_le w1 w2 -> always observed w2) as Hobs1 by (intros w2 HR2; apply Hobs; by transitivity w1).
  destruct r as [[[] revoked]|e]; [by apply rotation_always|..]; (apply use_always; intros r w2 HR2; by apply Hobs1).
Qed.

(** ** The handlers *)

Lemma rotate_always rq tok w : always (run_rotate HashToken hook rq tok) w.
Proof.
  apply (clock_always gate_inv gate_le). intros t1. apply (clock_always gate_inv gate_le). intros t2.
  apply transaction_keeps; [intros d d' a HI; by apply rotate_keeps|]. intros r w1 HR.
  destruct r as [raw|e]; [|apply finish_always]. destruct hook; [|apply finish_always].
  apply (clock_always gate_inv gate_le). intros t3. apply act_always; [done|]. intros _ w2 _. apply finish_always.
Qed.

Lemma renew_always rq tok cert w : always (run_renew fingerprint PublicKey rq tok cert) w.
Proof.
  unfold run_renew. destruct cert as [presented|]; [|apply finish_always].
  destruct (rq_tls rq) as [[|leaf rest]|]; try apply finish_always. destruct (rq_sign rq) as [sign|]; [|apply finish_always].
  destruct (rq_body rq); try apply finish_always. case_bool_decide; [apply finish_always|].
  destruct (sign _ _) as [der|]; [|apply finish_always].
  do 3 (apply (clock_always gate_inv gate_le); intros ?).
  apply transaction_keeps; [intros d d' a HI; by apply renew_keeps|]. intros r w1 HR. apply finish_always.
Qed.

Lemma handler_always rq tok cert w : always (route_handler fingerprint HashToken PublicKey hook rq tok cert) w.
Proof.
  unfold route_handler. destruct (handler (rq_route rq)); try apply finish_always; [apply rotate_always|apply renew_always].
Qed.

Lemma let_through_always a k w :
  earned (gdb w) a -> (forall w1, gate_le w w1 -> always k w1) -> always (Act (effect (let_through a)) (fun _ => k)) w.
Proof.
  intros Ha Hk. apply (always_act gate_inv gate_le). intros w1 HR [HI Hall]. split; [|split; [done|by apply Hk]].
  split; [done|]. apply Forall_app. split; [done|]. apply Forall_singleton. by eapply earned_mono.
Qed.

(** ** The check *)

Lemma live_token_spec hash d tok :
  live_token hash d = Some tok ->
  exists r, r ∈ tokens d /\ r_hash r = hash /\ r_revoked r = None /\ tok = scanCanaryTokenWithKind (node_kind (r_agent r) d) r.
Proof.
  unfold live_token. destruct (select_live hash (tokens d)) as [r|] eqn:Es; [|done]. intros [= <-].
  apply head_filter_in in Es as [Hr [Hh Hl]]. by exists r.
Qed.

(** A row live now was live when the request arrived. *)
Lemma live_before d d' r x :
  cred_inv d' -> cred_le d d' -> r ∈ tokens d' -> r_revoked r = None -> x ∈ tokens d -> r_hash x = r_hash r -> r_revoked x = None.
Proof.
  intros [_ HK] [Hle _ _ _] Hr Hl Hx Hh. destruct (table_le_in bound_le _ _ _ Hle Hx) as (x' & Hx' & [[_ _ Hh' _ Hrv _] _]).
  assert (x' = r) as -> by (eapply (NoDup_fmap_in r_hash); [apply (ti_hashes _ (ki_rows _ HK))|done|done|congruence]).
  destruct (decide (r_revoked x = None)) as [|Hn]; [done|]. specialize (Hrv Hn). congruence.
Qed.

Lemma cert_live_before d d' c x :
  cred_inv d' -> cred_le d d' -> c ∈ certs d' -> c_revoked c = None -> x ∈ certs d -> c_fp x = c_fp c -> c_revoked x = None.
Proof.
  intros [HC _] [_ Hle _ _] Hc Hl Hx Hh. destruct (table_le_in cert_le _ _ _ Hle Hx) as (x' & Hx' & [_ _ Hf Hrv _]).
  assert (x' = c) as -> by (eapply (NoDup_fmap_in c_fp); [apply (ci_fps _ HC)|done|done|congruence]).
  destruct (decide (c_revoked x = None)) as [|Hn]; [done|]. by specialize (Hrv Hn).
Qed.

(** A token found on record, whose binding names a certificate, is a bound row. *)
Lemma bound_on_file tok cert d1 d r :
  cred_inv d -> cred_le d1 d -> r ∈ tokens d1 -> tok = scanCanaryTokenWithKind (node_kind (r_agent r) d1) r ->
  accepts_binding tok cert (bound_cert (ID tok) d) = true -> on_file_token tok d.
Proof.
  intros [_ HK] [Hle _ _ _] Hr -> Hacc. destruct (table_le_in bound_le _ _ _ Hle Hr) as (r' & Hr' & [[Hi Ha _ Hcr _ _] _]).
  exists r'. split_and!; try done. unfold bound_cert, select_id in Hacc. cbn [ID scanCanaryTokenWithKind] in Hacc.
  rewrite <- Hi, (filter_key r_id _ _ r' (ti_ids _ (ki_rows d HK)) Hr') in Hacc by done. cbn [head] in Hacc.
  by destruct (r_cert r').
Qed.

Lemma coalesced_finish c action reason noun rq r w : always (recordCoalesced c action reason noun (finish rq r)) w.
Proof. apply coalesced_always. intros. apply finish_always. Qed.

Lemma checkClientCertificate_always arrival tok leaf k w :
  (forall status w1, always (k (Err status)) w1) ->
  (forall x w2 w3, gate_le w w2 -> gate_le w2 w3 -> gate_inv w2 -> gate_inv w3 ->
     cred_le arrival (gdb w2) ->
     x ∈ certs (gdb w2) -> c_fp x = fingerprint leaf -> c_agent x = CanaryID tok -> c_revoked x = None ->
     accepts_binding tok x (bound_cert (ID tok) (gdb w3)) = true -> always (k (Ok x)) w3) ->
  cred_le arrival (gdb w) ->
  always (checkClientCertificate fingerprint tok leaf k) w.
Proof.
  intros Herr Hok Harr. unfold checkClientCertificate. cbn zeta.
  assert (forall a b c d w1, always (recordCoalesced a b c d (k (Err 401))) w1) as Hco
    by (intros; apply coalesced_always; auto).
  apply query_always; [|apply Herr]. intros w2 HR2 HI2. cbn [answer_or Server.statements].
  destruct (lookup_cert (fingerprint leaf) (gdb w2)) as [x|] eqn:El; [|apply Hco].
  apply lookup_cert_some in El as [Hx Hfp]. destruct (decide (c_agent x = CanaryID tok)) as [Ha|Ha].
  2: { rewrite bool_decide_eq_false_2 by done. apply Hco. }
  rewrite bool_decide_eq_true_2 by done. cbn [negb]. destruct (Live x) eqn:Elive; cbn [negb].
  - apply query_always; [|apply Herr]. intros w3 HR3 HI3. cbn [answer_or Server.statements].
    destruct (accepts_binding _ _ _) eqn:Eacc; [|apply Hco]. apply (Hok x w2 w3); try done.
    + unfold gate_le in HR2. by transitivity (gdb w).
    + by apply Live_spec.
  - apply read_always. intros r w3 HR3. destruct r as [n|]; [|apply Herr]. cbn [answer_or Server.statements].
    destruct (0 <? n); [apply Hco|apply Herr].
Qed.

Lemma certificateKind_spec leaf rest k :
  certificateKind (leaf :: rest) = Some k -> OrganizationalUnit leaf = [k].
Proof.
  unfold certificateKind. destruct (OrganizationalUnit leaf) as [|ou [|]]; try done.
  destruct (kind_valid ou); [|done]. by intros [= ->].
Qed.

Lemma kindAllowed_spec l k : kindAllowed l k = true -> k ∈ l.
Proof.
  unfold kindAllowed. rewrite existsb_exists. intros (x & Hx%list_elem_of_In & Hk). go_bools. by subst.
Qed.

Lemma requireBearerToken_always rq w :
  rq_tls rq ≠ None -> always (requireBearerToken fingerprint HashToken PublicKey Quote hook rq) w.
Proof.
  intros Htls. apply (always_act gate_inv gate_le). intros w0 HR0 HI0. split; [done|]. split; [done|]. cbn [look fst snd].
  destruct (bearerToken (rq_authorization rq)) as [raw|] eqn:Eraw; [|apply finish_always].
  apply query_always; [|apply finish_always]. intros w1 HR1 HI1.
  destruct (live_token (HashToken raw) (gdb w1)) as [tok|] eqn:Etok.
  2: { apply conflict_always. intros. apply finish_always. }
  apply live_token_spec in Etok as (r & Hr & Hh & Hl & Htok).
  unfold check_certificate. destruct (rq_tls rq) as [peers|] eqn:Epeers; [|done].
  case_bool_decide as Hcn; cbn [negb]; [|apply mismatch_always; intros; apply finish_always].
  destruct peers as [|leaf rest]; [apply finish_always|].
  apply (checkClientCertificate_always (gdb w0)); [intros; apply finish_always| |done].
  intros x w2 w3 HR2 HR3 HI2 HI3 Harr Hx Hfp Ha Hxl Hacc.
  unfold check_kinds. destruct (kindAllowed _ _) eqn:Ek; cbn [negb].
  2: { apply coalesced_finish. }
  rewrite Epeers. case_bool_decide as Hck; [|apply coalesced_finish].
  assert (cred_le (gdb w1) (gdb w3)) as Hle13 by (transitivity (gdb w2); [apply HR2|apply HR3]).
  apply record_use_always.
  - destruct HI3 as [HI3 _]. eapply (bound_on_file tok x (gdb w1) (gdb w3) r HI3 Hle13 Hr Htok Hacc).
  - eapply on_file_cert_mono; [apply HR3|]. by exists x.
  - intros w4 HR4. apply (allowed_always gate_inv gate_le). intros [|]; cbn [negb]; [|apply coalesced_finish].
    apply let_through_always; [|intros; apply handler_always].
    exists leaf, rest, x, (gdb w1), (gdb w2), (gdb w3). split; [done|]. split; [done|]. split; [by split_and!|].
    split.
    { exists raw, r. split_and!; try done. intros y Hy Hyh. destruct HI1 as [HI1 _].
      eapply (live_before (gdb w0) (gdb w1) r y HI1 HR1 Hr Hl Hy). congruence. }
    split.
    { split_and!; try done. intros y Hy Hyf. destruct HI2 as [HI2 _].
      eapply (cert_live_before (gdb w0) (gdb w2) x y HI2 Harr Hx Hxl Hy). congruence. }
    split_and!; [done|done|by apply certificateKind_spec in Hck|by apply kindAllowed_spec].
Qed.

Lemma actor_always a w :
  (forall rq, a = Serve rq -> rq_tls rq ≠ None) -> always (act fingerprint HashToken PublicKey Quote hook a) w.
Proof.
  intros Htls. destruct a as [rq|id name lane ports interval|c rid rraw|c|h rc rid rraw sign]; cbn [act].
  - apply requireBearerToken_always. by apply Htls.
  - apply (clock_always gate_inv gate_le). intros now. unfold InsertCanary. cbn [n_enrolled].
    destruct (now =? 0); [apply (always_done gate_inv gate_le)|]. destruct (negb _); [apply (always_done gate_inv gate_le)|].
    apply stmt_keeps; [|apply (always_done gate_inv gate_le)]. intros w1 d' r HR [HI _] Hi.
    unfold insert_node in Hi. destruct (existsb _ _); [done|]. injection Hi as <- <-.
    split; [by apply insert_keep|apply (always_done gate_inv gate_le)].
  - apply (clock_always gate_inv gate_le). intros now. apply transaction_keeps; [intros d d' a HI; by apply cli_mint_keeps|].
    intros. apply (always_done gate_inv gate_le).
  - apply (clock_always gate_inv gate_le). intros now. apply transaction_keeps; [intros d d' a HI; by apply revoke_keeps|].
    intros. apply (always_done gate_inv gate_le).
  - apply (clock_always gate_inv gate_le). intros now. unfold Provision.
    destruct (now =? 0); [apply (always_done gate_inv gate_le)|]. cbn [pbind in_transaction].
    apply stmt_keeps; [|apply (always_done gate_inv gate_le)]. intros w1 d' r HR [HI _] Ht. unfold transaction in Ht.
    assert (keeps (gdb w1) d') as Hd; [|split; [done|apply (always_done gate_inv gate_le)]].
    destruct (exec (provision _ _ _ _ _ _ _ _) (gdb w1)) as [d1 [a|e]] eqn:Eb; injection Ht as <- _;
      [by eapply provision_keeps|by apply cred_keeps_refl].
Qed.

(** ** Every run *)

Definition newGate (d : cred_db) : gate := mkGate d newAuditCoalescer newDualUseTracker [] [] [] [].

Definition over_tls (actors : list actor) : Prop := forall rq, Serve rq ∈ actors -> rq_tls rq ≠ None.

Lemma run_keeps d0 actors c :
  cred_inv d0 -> over_tls actors ->
  interleaves (mkPool (newGate d0) (act fingerprint HashToken PublicKey Quote hook <$> actors)) c ->
  gate_inv (shared c) /\ cred_le d0 (gdb (shared c)).
Proof.
  intros HI Htls Hr. destruct (interleaves_safe gate_inv gate_le _ _ _ Hr) as (HI' & Hle & _); [by split|..].
  - apply Forall_fmap, Forall_forall. intros a Ha. apply (always_ok gate_inv gate_le); [by split|].
    apply actor_always. intros rq ->. by apply Htls.
  - by split.
Qed.

(** C2. Nobody speaks for a node on a credential that is not its own, is
    revoked, or does not match the other: under any interleaving of requests
    over TLS with rotations, renewals, enrolments and the operator's
    commands, with statements failing or losing their answer anywhere, each
    request let through to its route carried a token that was live, after it
    arrived, of a node whose kind the route serves, and a certificate issued
    to that node, live in its turn and then accepted by the token's binding,
    whose subject names the node and whose one organizational unit names its
    kind; and neither of the two was revoked when the request arrived. *)
Theorem admissions_are_earned (d0 : cred_db) (actors : list actor) (c : pool gate server_input) :
  cred_inv d0 -> over_tls actors ->
  interleaves (mkPool (newGate d0) (act fingerprint HashToken PublicKey Quote hook <$> actors)) c ->
  forall a, a ∈ admitted (shared c) -> earned (gdb (shared c)) a.
Proof.
  intros HI Htls Hr. destruct (run_keeps d0 actors c HI Htls Hr) as [[_ Hall] _]. by apply Forall_forall.
Qed.

(** C3. Replacing a node's credentials never locks out who holds them: in
    every state of such runs any live bound token and any live certificate of
    the same node pass the binding check together, whichever of a rotation's
    or a renewal's answers were lost; and a node that was ever given bound
    credentials and that the operator did not revoke still has a live bound
    token and a live certificate. *)
Theorem holders_are_not_locked_out (d0 : cred_db) (actors : list actor) (c : pool gate server_input) :
  cred_inv d0 -> over_tls actors ->
  interleaves (mkPool (newGate d0) (act fingerprint HashToken PublicKey Quote hook <$> actors)) c ->
  let d := gdb (shared c) in
  (forall r x, r ∈ tokens d -> r_revoked r = None -> r_cert r ≠ None ->
     x ∈ certs d -> c_revoked x = None -> c_agent x = r_agent r ->
     forall kind, accepts_binding (scanCanaryTokenWithKind kind r) x (bound_cert (r_id r) d) = true) /\
  (forall canaryID, ~ revoked_by_operator canaryID d ->
     (exists r, r ∈ tokens d /\ r_agent r = canaryID /\ r_cert r ≠ None) ->
     (exists r, r ∈ tokens d /\ r_agent r = canaryID /\ r_cert r ≠ None /\ r_revoked r = None) /\
     (exists x, x ∈ certs d /\ c_agent x = canaryID /\ c_revoked x = None)).
Proof.
  intros HI Htls Hr d. destruct (run_keeps d0 actors c HI Htls Hr) as [[[HC HK] _] _]. split.
  - intros r x Hrin Hrl Hb Hx Hxl Ha kind. by apply (live_pair_accepted d r x (conj HC HK) Hrin Hrl Hb Hx Ha Hxl).
  - intros canaryID Hop Hex.
    assert (exists r, r ∈ tokens d /\ (r_agent r = canaryID /\ r_cert r ≠ None) /\ ~ (r_revoked r ≠ None)) as (r & Hrin & [Hra Hb] & Hrl).
    { apply (latest_live r_created (fun r => r_agent r = canaryID /\ r_cert r ≠ None) (fun r => r_revoked r ≠ None)); [|destruct Hex as (r & ? & ? & ?); by exists r].
      intros r Hr1 [Hr2 Hr3] Hr4. destruct (ki_succ d HK r Hr1 Hr4) as [Ho|(x & Hx1 & Hx2 & Hx3 & Hx4)].
      - by rewrite Hr2 in Ho.
      - exists x. split_and!; try done. congruence. }
    assert (r_revoked r = None) as Hrl' by (destruct (r_revoked r); [by destruct Hrl|done]).
    split; [by exists r|]. destruct (r_cert r) as [fp|] eqn:Hfp; [|done].
    destruct (ki_bound d HK r fp Hrin Hfp) as (x & Hx & _ & Hxa & Hn). exists x. split; [done|]. split; [congruence|].
    by apply Hn.
Qed.
End earned.

(** ** A node's credentials *)

(** A certificate is its serial, a byte, then its node; all are honeypots. *)
Definition ex_x509 : X509 := {|
  CommonName := drop 1; OrganizationalUnit := fun _ => [Honeypot]; SerialNumber := take 1;
  cert_not_before := fun _ => 0; cert_not_after := fun _ => 1000;
|}.

Definition ex_fp (der : bytes) : bytes := 35 :: der.
Definition ex_token_hash (raw : bytes) : bytes := 36 :: raw.
Definition ex_sign (serial : Z) (canaryID kind : bytes) : option bytes := Some (serial :: canaryID).

Definition ex_session : session_row :=
  Enrolment.mkRow (lit "s1") (lit "$deploy") (lit "gull") (lit "dmz") Honeypot 10 1000 (Some 20) (Some (lit "secret"))
    (Some 1000) EnrolmentStateContacted None None None (Some 1) None None.

Definition ex_cred0 : cred_db := mkCred [] [] [] [ex_session] [] [].

Definition ex_request (raw : string) (serial : Z) (path : nat) (rid rraw : string) : request :=
  mkRequest (lit "Bearer " ++ lit raw) (Some [serial :: lit "gull"]) (Some (lit "10.0.0.5"))
    (default (mkRoute [] [] handleBatch) (ingestRoutes !! path)) (Some (lit rid)) (Some (lit rraw))
    (RenewCSR (lit "key")) (Some (ex_sign 2)).

(** The node is provisioned, sends a heartbeat, rotates its token and renews
    its certificate; the operator revokes it; a heartbeat on what the last two
    issued. *)
Definition ex_actors : list actor :=
  [ serveProvision (lit "secret") (Some (lit "gull")) (Some (lit "t1")) (Some (lit "r1")) (ex_sign 1);
    Serve (ex_request "r1" 1 3 "" "");
    Serve (ex_request "r1" 1 1 "t2" "r2");
    Serve (ex_request "r1" 1 2 "" "");
    runCanaryRevoke (lit "gull");
    Serve (ex_request "r2" 2 3 "" "") ].

Definition ex_start : pool gate server_input :=
  mkPool (newGate ex_cred0)
    (@act ex_x509 ascii_only ex_fp ex_token_hash id id true <$> ex_actors).

Definition ex_provisioned : pool gate server_input := drive 60 200 1 (drive 40 100 0 ex_start).

(** The rotation and the renewal are past their checks when the operator
    revokes. *)
Definition ex_revoked : pool gate server_input :=
  drive 40 400 4 (drive 16 300 3 (drive 16 300 2 ex_provisioned)).

Definition ex_outrun : pool gate server_input :=
  drive 60 600 5 (drive 40 500 3 (drive 40 500 2 ex_revoked)).

Lemma ex_cred0_inv : cred_inv ex_cred0.
Proof.
  split; split; try (by intros ? ?%not_elem_of_nil); try done; try (by constructor).
  - by intros ? ? ?%not_elem_of_nil.
  - split; constructor.
  - by intros ? ? ?%not_elem_of_nil.
Qed.

Lemma ex_over_tls : over_tls ex_actors.
Proof.
  intros rq Hrq. unfold ex_actors in Hrq.
  repeat (apply elem_of_cons in Hrq as [Hrq|Hrq]; [try done; injection Hrq as ->; done|]).
  by apply not_elem_of_nil in Hrq.
Qed.

Lemma ex_runs : interleaves ex_start ex_provisioned /\ interleaves ex_start ex_outrun.
Proof.
  assert (interleaves ex_start ex_provisioned) as Hp
    by (transitivity (drive 40 100 0 ex_start); apply drive_interleaves).
  split; [done|]. unfold ex_outrun, ex_revoked.
  transitivity ex_provisioned; [done|]. transitivity (drive 16 300 2 ex_provisioned); [apply drive_interleaves|].
  transitivity (drive 16 300 3 (drive 16 300 2 ex_provisioned)); [apply drive_interleaves|].
  transitivity ex_revoked; [apply drive_interleaves|]. transitivity (drive 40 500 2 ex_revoked); [apply drive_interleaves|].
  transitivity (drive 40 500 3 (drive 40 500 2 ex_revoked)); apply drive_interleaves.
Qed.

Lemma admissions_are_earned_witness :
  zlen (admitted (shared ex_outrun)) = 4 /\
  Forall (@earned ex_x509 ex_fp ex_token_hash (gdb (shared ex_outrun))) (admitted (shared ex_outrun)).
Proof.
  split; [vm_compute; reflexivity|]. apply Forall_forall. intros a Ha.
  exact (@admissions_are_earned ex_x509 ascii_only ex_fp ex_token_hash id id true ex_cred0 ex_actors ex_outrun
           ex_cred0_inv ex_over_tls (proj2 ex_runs) a Ha).
Defined.

Lemma holders_are_not_locked_out_witness :
  exists r x, r ∈ tokens (gdb (shared ex_provisioned)) /\ r_revoked r = None /\
    x ∈ certs (gdb (shared ex_provisioned)) /\ c_revoked x = None /\
    accepts_binding (scanCanaryTokenWithKind None r) x (bound_cert (r_id r) (gdb (shared ex_provisioned))) = true.
Proof.
  destruct (@holders_are_not_locked_out ex_x509 ascii_only ex_fp ex_token_hash id id true ex_cred0 ex_actors ex_provisioned
              ex_cred0_inv ex_over_tls (proj1 ex_runs)) as [Hacc Hlive].
  destruct (Hlive (lit "gull")) as [(r & Hr & Hra & Hb & Hrl) (x & Hx & Hxa & Hxl)].
  - intros (e & He & Hact & _). assert (Forall (fun e => Action e ≠ lit "canary.revoked") (cred_audits (gdb (shared ex_provisioned)))) as Hf
      by (apply (bool_decide_unpack _); vm_compute; exact I).
    exact (proj1 (Forall_forall _ _) Hf e He Hact).
  - assert (Exists (fun r => r_agent r = lit "gull" /\ r_cert r ≠ None) (tokens (gdb (shared ex_provisioned)))) as Hex
      by (apply (bool_decide_unpack _); vm_compute; exact I).
    apply Exists_exists in Hex as (r & Hr & Ha). by exists r.
  - exists r, x. split_and!; try assumption. apply Hacc; try assumption. congruence.
Defined.

(** Revoking a node does not end the requests past their checks: there is
    a run in which a rotation and a renewal were let through before the
    operator revoked their node, commit after it (neither looks again at its
    token or certificate once it holds the lock), and leave a live token bound
    to a live certificate, on which a request that arrived after the
    revocation is let through. *)
Theorem revocation_outrun :
  exists (c : pool gate server_input) (a : admission),
    interleaves ex_start c /\ a ∈ admitted (shared c) /\
    revoked_by_operator (CanaryID (ad_token a)) (ad_arrival a) /\
    exists r x, r ∈ tokens (gdb (shared c)) /\ r_agent r = CanaryID (ad_token a) /\ r_revoked r = None /\
      r_cert r = Some (c_fp x) /\ x ∈ certs (gdb (shared c)) /\ c_revoked x = None.
Proof.
  assert (Exists (fun a => Exists (fun e => Action e = lit "canary.revoked" /\ AuditTarget e = CanaryID (ad_token a))
                             (cred_audits (ad_arrival a)) /\
      Exists (fun r => Exists (fun x => r_agent r = CanaryID (ad_token a) /\ r_revoked r = None /\
                r_cert r = Some (c_fp x) /\ c_revoked x = None) (certs (gdb (shared ex_outrun))))
        (tokens (gdb (shared ex_outrun)))) (admitted (shared ex_outrun))) as Hex
    by (apply (bool_decide_unpack _); vm_compute; exact I).
  apply Exists_exists in Hex as (a & Ha & (e & He & Hact & Htgt)%Exists_exists & (r & Hr & (x & Hx & Hr1 & Hr2 & Hr3 & Hr4)%Exists_exists)%Exists_exists).
  exists ex_outrun, a. split; [apply ex_runs|]. split; [done|]. split; [by exists e|]. by exists r, x.
Qed.
