(* ===== verification/Health.v ===== *)
(** The health of a canary ([internal/store/health.go], [credhealth.go] and the
    part of [canary.go] that records heartbeats and lists canaries): the
    signals, and the ordered states they put a tile in.

    Listing reads the tables of several components, each as that component
    models it; a node's row here holds the columns a heartbeat writes. Times
    and durations are nanoseconds, durations 64-bit; [Duration.Seconds] is
    computed in the float64 it is written in ([GoTime]). *)
From S2P Require Import Prelude GoBase GoStrings GoTime Sql Upgrade SelfTest ScanRun Settings Tokens ClientCerts.
#[local] Open Scope Z_scope.

(** ** States *)

Inductive HealthState : Type :=
| StateTokenConflict
| StateCredentialConflict
| StateSilent
| StateNotDelivering
| StateOpenCanaryDown
| StateHitsMerged
| StateTestFailed
| StateDBStale
| StateThrottled
| StateRotationStalled
| StateRenewalStalled
| StateUpgradeInProgress
| StateAgentOutOfDate
| StatePending
| StateOK.

#[export] Instance HealthState_eq_dec : EqDecision HealthState.
Proof. solve_decision. Defined.

Definition healthStateRank (s : HealthState) : Z :=
  match s with
  | StateTokenConflict => 0
  | StateCredentialConflict => 1
  | StateSilent => 2
  | StateNotDelivering => 3
  | StateOpenCanaryDown => 4
  | StateHitsMerged => 5
  | StateTestFailed => 6
  | StateDBStale => 7
  | StateThrottled => 8
  | StateRotationStalled => 9
  | StateRenewalStalled => 10
  | StateUpgradeInProgress => 11
  | StateAgentOutOfDate => 12
  | StatePending => 13
  | StateOK => 14
  end.

(** The name a state is stored and shown by. *)
Definition state_name (s : HealthState) : bytes :=
  lit match s with
  | StateTokenConflict => "token_conflict"
  | StateCredentialConflict => "credential_conflict"
  | StateSilent => "silent"
  | StateNotDelivering => "not_delivering"
  | StateOpenCanaryDown => "opencanary_down"
  | StateHitsMerged => "hits_merged"
  | StateTestFailed => "self_test_failed"
  | StateDBStale => "db_stale"
  | StateThrottled => "throttled"
  | StateRotationStalled => "rotation_stalled"
  | StateRenewalStalled => "renewal_stalled"
  | StateUpgradeInProgress => "upgrade_in_progress"
  | StateAgentOutOfDate => "agent_out_of_date"
  | StatePending => "pending"
  | StateOK => "ok"
  end.

Definition worse (a b : HealthState) : Prop := healthStateRank a <= healthStateRank b.

#[export] Instance worse_dec a b : Decision (worse a b).
Proof. apply Z_le_dec. Defined.

Definition throttledWindow : Z := 5 * 60 * GoTime.Second.
Definition tokenConflictQuietPeriod : Z := 24 * 3600 * GoTime.Second.
Definition rotationStalledThreshold : Z := 15 * 60 * GoTime.Second.
Definition rotationStalledEscalateThreshold : Z := 24 * 3600 * GoTime.Second.
Definition rotationStaleThreshold : Z := 25 * 3600 * GoTime.Second.
Definition dbStaleThreshold : Z := 24 * 3600 * GoTime.Second.
Definition heartbeatRetention : Z := 24 * 3600 * GoTime.Second.
Definition silenceThresholdMultiple : Z := 3.
Definition credentialConflictWindow : Z := 2 * 60 * GoTime.Second.
Definition renewalStalledMargin : Z := 15 * 60 * GoTime.Second.

(** ** Data *)

(** The columns of a node's row the states are derived from, and those a
    heartbeat writes. *)
Record canary_row : Type := mkCanaryRow {
  h_id : bytes;
  h_kind : bytes;
  h_interval : Z;
  h_enrolled : Z;
  h_last : option Z;
  h_registered : option Z;
  h_log_ok : option bool;
  h_version : option bytes;
  h_collisions : option Z;
  h_opencanary : option bool;
  h_dual_addrs : option (bytes * bytes * Z);
  h_dual_versions : option (bytes * bytes * Z);
  h_failing_since : option Z;
  h_refresh_error : option bytes;
  h_queue_depth : option Z;
  h_last_event : option bytes;
  h_dropped : option Z;
  h_rejected : option Z;
  h_position_found : option bool;
  h_poisoner_names : option bytes;
}.

Record health_db : Type := mkHealthDB {
  rows : list canary_row;
  heartbeats : list (bytes * Z);
  creds : cred_db;
  selftests : store_db;
  scans : scan_db;
  upgrades : up_db;
}.

Definition put_rows (r : list canary_row) (d : health_db) : health_db :=
  mkHealthDB r (heartbeats d) (creds d) (selftests d) (scans d) (upgrades d).
Definition put_heartbeats (h : list (bytes * Z)) (d : health_db) : health_db :=
  mkHealthDB (rows d) h (creds d) (selftests d) (scans d) (upgrades d).
Definition put_creds (c : cred_db) (d : health_db) : health_db :=
  mkHealthDB (rows d) (heartbeats d) c (selftests d) (scans d) (upgrades d).
Definition put_selftests (s : store_db) (d : health_db) : health_db :=
  mkHealthDB (rows d) (heartbeats d) (creds d) s (scans d) (upgrades d).
Definition put_scans (s : scan_db) (d : health_db) : health_db :=
  mkHealthDB (rows d) (heartbeats d) (creds d) (selftests d) s (upgrades d).
Definition put_upgrades (u : up_db) (d : health_db) : health_db :=
  mkHealthDB (rows d) (heartbeats d) (creds d) (selftests d) (scans d) u.

(** The derived part of [Canary]; fields that are set together are one field. *)
Record Canary : Type := mkCanary {
  Row : canary_row;
  Hits : Z;
  Status : HealthState;
  ActiveStates : list HealthState;
  SilentForS : option (Z * Z);
  NotDelivering : bool;
  ThrottledForS : option Z;
  RotationStalledForS : option (Z * bool);
  TokenConflictForS : option Z;
  CredentialConflict : option (option (bytes * bytes) * option (bytes * bytes));
  RenewalStalledForS : option Z;
  CertificateExpired : bool;
  UpgradeWindowUntil : option Z;
  DBRefresh : option (Z * bytes);
}.

Inductive health_error : Type := ErrCanaryNotFound | ErrHealthStore.

(** [sort.Slice] of tokens by the time they were made. *)
Class TokenSort : Type := {
  sort_tokens : list CanaryToken -> list CanaryToken;
  sort_tokens_perm l : Permutation (sort_tokens l) l;
  sort_tokens_sorted l : StronglySorted (fun a b => CreatedAt a <= CreatedAt b) (sort_tokens l);
}.

(** ** Signals *)

(** [applyStatus] *)
Definition silence_threshold (interval : Z) : Z := wrap_i 64 (wrap_i 64 (silenceThresholdMultiple * interval) * GoTime.Second).

Definition beating (r : canary_row) (now : Z) : bool :=
  match h_last r with
  | Some t => negb (now <? t) && (time_sub now t <=? silence_threshold (h_interval r))
  | None => false
  end.

Definition silent_for (r : canary_row) (now : Z) : Z * Z :=
  let since := default (h_enrolled r) (h_last r) in
  let silentFor := if since <? now then Seconds (time_sub now since) else 0 in
  (silentFor, if 0 <? h_interval r then Z.quot silentFor (h_interval r) else 0).

Definition applyStatus (r : canary_row) (now : Z) : Canary :=
  let c status silent := mkCanary r 0 status [] silent false None None None None None false None None in
  if beating r now then c StateOK None else c StateSilent (Some (silent_for r now)).

Definition notDelivering (r : canary_row) : bool := bool_decide (h_log_ok r = Some false).
Definition openCanaryDown (r : canary_row) : bool := bool_decide (h_opencanary r = Some false).

Definition matching `{Engine} (action target : bytes) (cutoff : Z) (e : Entry) : bool :=
  bool_decide (Action e = action) && bool_decide (AuditTarget e = target) && (instant cutoff <=? instant (EntryAt e)).

(** The latest of the rows [latestAuditSince] selects. *)
Definition latest_of (latest : option Z) (e : Entry) : option Z :=
  match latest with
  | None => Some (EntryAt e)
  | Some l => if l <? EntryAt e then Some (EntryAt e) else latest
  end.

Definition latest_audit `{Engine} (action target : bytes) (cutoff : Z) (l : list Entry) : option Z :=
  foldl latest_of None (filter (fun e => matching action target cutoff e = true) l).

(** The newest used token. *)
Definition activated (l : list CanaryToken) : option CanaryToken := last (filter (fun t => LastUsedAt t ≠ None) l).

Definition rotationSignal `{TokenSort} (l : list CanaryToken) (now : Z) : option (Z * bool) :=
  let tokens := sort_tokens l in
  let stale :=
    match activated tokens with
    | None => None
    | Some t =>
        let elapsed := time_sub now (CreatedAt t) in
        if rotationStaleThreshold <=? elapsed then Some (Seconds elapsed, true) else None
    end in
  match last tokens with
  | None => None
  | Some latest =>
      if (1 <? zlen tokens) && bool_decide (LastUsedAt latest = None) then
        let elapsed := time_sub now (CreatedAt latest) in
        if rotationStalledThreshold <=? elapsed
        then Some (Seconds elapsed, rotationStalledEscalateThreshold <=? elapsed)
        else stale
      else stale
  end.

(** The certificate in use: the newest live used one, or the newest live one. *)
Definition current_cert (l : list ClientCert) : option ClientCert :=
  match last (filter (fun c => Live c && bool_decide (c_used c ≠ None) = true) l) with
  | Some c => Some c
  | None => newest_live l
  end.

Definition renewal_due (c : ClientCert) : Z :=
  let lifetime := time_sub (c_not_after c) (c_not_before c) in
  let margin := if Z.quot lifetime 10 <? renewalStalledMargin then Z.quot lifetime 10 else renewalStalledMargin in
  c_not_before c + Z.quot lifetime 2 + margin.

(** [certificateSignal]: for how long the renewal has stalled, and whether the
    certificate has expired. *)
Definition certificateSignal (l : list ClientCert) (now : Z) : option Z * bool :=
  match current_cert l with
  | None => (None, false)
  | Some c =>
      if negb (now <? c_not_after c) then (None, true) else
      if now <? renewal_due c then (None, false) else
      let halfLife := c_not_before c + Z.quot (time_sub (c_not_after c) (c_not_before c)) 2 in
      (Some (Seconds (time_sub now halfLife)), false)
  end.

Definition recentPair (pair : option (bytes * bytes * Z)) (now : Z) : option (bytes * bytes) :=
  match pair with
  | None => None
  | Some (a, b, at_) => if credentialConflictWindow <=? time_sub now at_ then None else Some (a, b)
  end.

(** ** Merging states *)

(** [sort.SliceStable] by rank. *)
Definition sort_states : list HealthState -> list HealthState := merge_sort worse.

Definition set_active (l : list HealthState) (c : Canary) : Canary :=
  mkCanary (Row c) (Hits c) (default StateOK (head l)) l (SilentForS c) (NotDelivering c) (ThrottledForS c)
    (RotationStalledForS c) (TokenConflictForS c) (CredentialConflict c) (RenewalStalledForS c) (CertificateExpired c)
    (UpgradeWindowUntil c) (DBRefresh c).

Definition addActiveStates (c : Canary) (states : list HealthState) : Canary :=
  set_active (sort_states (ActiveStates c ++ states)) c.

Definition applyHealthState (c : Canary) (throttledSince : option Z) (rotation : option (Z * bool))
    (tokenConflictSince : option Z) (testFailed pending : bool) (now : Z) : Canary :=
  let on (s : HealthState) (b : bool) := if b then [s] else [] in
  let since := option_map (fun t => Seconds (time_sub now t)) in
  let c := mkCanary (Row c) (Hits c) (Status c) (ActiveStates c) (SilentForS c) (notDelivering (Row c)) (since throttledSince)
             rotation (since tokenConflictSince) (CredentialConflict c) (RenewalStalledForS c) (CertificateExpired c)
             (UpgradeWindowUntil c) (DBRefresh c) in
  set_active (sort_states
    (on StateSilent (bool_decide (Status c = StateSilent)) ++
     on StateTokenConflict (bool_decide (tokenConflictSince ≠ None)) ++
     on StateNotDelivering (notDelivering (Row c)) ++
     on StateTestFailed testFailed ++
     on StateThrottled (bool_decide (throttledSince ≠ None)) ++
     on StateRotationStalled (bool_decide (rotation ≠ None)) ++
     on StatePending pending)) c.

Definition applyHitsMergedHealth (c : Canary) : Canary :=
  match h_collisions (Row c) with
  | Some n => if 0 <? n then addActiveStates c [StateHitsMerged] else c
  | None => c
  end.

Definition applyOpenCanaryHealth (c : Canary) : Canary :=
  if openCanaryDown (Row c) then addActiveStates c [StateOpenCanaryDown] else c.

Definition applyAgentOutOfDateHealth (c : Canary) (birdcageVersion : bytes) : Canary :=
  if agentBehindBirdcage (default [] (h_version (Row c))) birdcageVersion
  then addActiveStates c [StateAgentOutOfDate] else c.

Definition applyUpgradeWindowHealth (c : Canary) (until : option Z) : Canary :=
  match until with
  | None => c
  | Some _ =>
      addActiveStates (mkCanary (Row c) (Hits c) (Status c) (ActiveStates c) (SilentForS c) (NotDelivering c) (ThrottledForS c)
        (RotationStalledForS c) (TokenConflictForS c) (CredentialConflict c) (RenewalStalledForS c)
        (CertificateExpired c) until (DBRefresh c)) [StateUpgradeInProgress]
  end.

Definition applyCredentialHealth (c : Canary) (cert : option Z * bool) (now : Z) : Canary :=
  let addrs := recentPair (h_dual_addrs (Row c)) now in
  let versions := recentPair (h_dual_versions (Row c)) now in
  let conflict := bool_decide (addrs ≠ None) || bool_decide (versions ≠ None) in
  let add := (if conflict then [StateCredentialConflict] else []) ++
             (if bool_decide (cert.1 ≠ None) then [StateRenewalStalled] else []) ++
             (if cert.2 && negb (NotDelivering c) then [StateNotDelivering] else []) in
  let c := mkCanary (Row c) (Hits c) (Status c) (ActiveStates c) (SilentForS c) (NotDelivering c || cert.2) (ThrottledForS c)
             (RotationStalledForS c) (TokenConflictForS c) (if conflict then Some (addrs, versions) else None) cert.1
             cert.2 (UpgradeWindowUntil c) (DBRefresh c) in
  if bool_decide (add = []) then c else addActiveStates c add.

Definition applyDBRefreshHealth (c : Canary) (now : Z) : Canary :=
  match h_failing_since (Row c) with
  | None => c
  | Some since =>
      let c := mkCanary (Row c) (Hits c) (Status c) (ActiveStates c) (SilentForS c) (NotDelivering c) (ThrottledForS c)
                 (RotationStalledForS c) (TokenConflictForS c) (CredentialConflict c) (RenewalStalledForS c)
                 (CertificateExpired c) (UpgradeWindowUntil c) (Some (since, default [] (h_refresh_error (Row c)))) in
      if time_sub now since <=? dbStaleThreshold then c else addActiveStates c [StateDBStale]
  end.

(** ** Listing *)

Definition read {A B} (q : health_db -> A) (k : A -> prog health_db (res health_error B)) :
    prog health_db (res health_error B) :=
  Stmt (query q) (fun r => match r with None => Ret (Err ErrHealthStore) | Some a => k a end).

Definition or_stop {E A B} (r : res E A) (k : A -> prog health_db (res health_error B)) :
    prog health_db (res health_error B) :=
  match r with Err _ => Ret (Err ErrHealthStore) | Ok a => k a end.

Definition audits_of (d : health_db) : list Entry := cred_audits (creds d).

(** The later of two conflicts, the token's when they are equal. *)
Definition later_conflict (token cert : option Z) : option Z :=
  match cert with
  | None => token
  | Some c => match token with Some t => if t <? c then cert else token | None => cert end
  end.

(** The alerts of each node within the window, a self-test's left out. *)
Definition recent_hit `{Engine} (now rangeWindow : Z) (a : alert_row) : Prop :=
  instant (now - rangeWindow) <= instant (SelfTest.ReceivedAt (al_alert a)) <= instant now /\ SelfTest.Synthetic (al_alert a) = false.

Definition count_hit (hits : gmap bytes Z) (a : alert_row) : gmap bytes Z :=
  <[SelfTest.InstanceID (al_alert a) := default 0 (hits !! SelfTest.InstanceID (al_alert a)) + 1]> hits.

Definition hitsSinceByInstance `{Engine} (now rangeWindow : Z) (l : list alert_row) : gmap bytes Z :=
  foldl count_hit ∅ (filter (recent_hit now rangeWindow) l).

Definition set_hits (n : Z) (c : Canary) : Canary :=
  mkCanary (Row c) n (Status c) (ActiveStates c) (SilentForS c) (NotDelivering c) (ThrottledForS c)
    (RotationStalledForS c) (TokenConflictForS c) (CredentialConflict c) (RenewalStalledForS c) (CertificateExpired c)
    (UpgradeWindowUntil c) (DBRefresh c).

Definition rangeDurations : list (bytes * Z) :=
  [(lit "15m", 15 * 60 * GoTime.Second); (lit "1h", 3600 * GoTime.Second); (lit "24h", 24 * 3600 * GoTime.Second);
   (lit "14d", 14 * 24 * 3600 * GoTime.Second); (lit "90d", 90 * 24 * 3600 * GoTime.Second)].

Definition DefaultRange : bytes := lit "14d".

(** An unknown range is [None]. *)
Definition ParseRange (s : bytes) : option Z :=
  let s := if bool_decide (s = []) then DefaultRange else s in
  snd <$> find (fun r => bool_decide (r.1 = s)) rangeDurations.

Definition row_le_id (a b : canary_row) : Prop := Settings.str_le (h_id a) (h_id b).

#[local] Instance row_le_id_dec a b : Decision (row_le_id a b).
Proof. unfold row_le_id. apply _. Defined.

Section list.
Context {TS : TokenSort} {EN : Engine}.

(** Whether a node's last test failed; a scanner's ends with a later proof. *)
Definition test_state (row : canary_row) (now : Z) : prog health_db (res health_error bool) :=
  pbind (on_table selftests put_selftests (applySelfTestState (h_id row) (h_kind row))) (fun r => or_stop r (fun st =>
  if negb (bool_decide (h_kind row = Commands.Scanner)) then Ret (Ok (SelfTest.testFailed st)) else
  pbind (on_table scans put_scans (applyScanRunState (h_id row) (SelfTest.testFailed st) (LastSelfTestAt st) now)) (fun r =>
  Ret (match r with None => Err ErrHealthStore | Some x => Ok x.1.1 end)))).

(** The body of the loop of [ListCanaries]. *)
Definition list_canary (c : Canary) (now : Z) (birdcageVersion : bytes) : prog health_db (res health_error Canary) :=
  let row := Row c in
  let id := h_id row in
  read (fun d => latest_audit (lit "ingest.rate_limited") id (now - throttledWindow) (audits_of d)) (fun throttledSince =>
  read (fun d => latest_audit (lit "ingest.token_conflict") id (now - tokenConflictQuietPeriod) (audits_of d)) (fun token =>
  read (fun d => latest_audit (lit "ingest.cert_conflict") id (now - tokenConflictQuietPeriod) (audits_of d)) (fun cert =>
  let conflict := later_conflict token cert in
  read (fun d => select_agent id (tokens (creds d))) (fun toks =>
  let rotation := rotationSignal toks now in
  pbind (test_state row now) (fun r => or_stop r (fun testFailed =>
  let c := applyHealthState c throttledSince rotation conflict testFailed (bool_decide (h_registered row = None)) now in
  let c := applyHitsMergedHealth c in
  let c := applyOpenCanaryHealth c in
  let c := applyAgentOutOfDateHealth c birdcageVersion in
  pbind (on_table upgrades put_upgrades (OpenUpgradeWindowUntil id now)) (fun r => or_stop r (fun until =>
  let c := applyUpgradeWindowHealth c until in
  read (fun d => agent_certs id (creds d)) (fun certs =>
  let c := applyCredentialHealth c (certificateSignal certs now) now in
  Ret (Ok (applyDBRefreshHealth c now))))))))))).

Fixpoint list_canaries (l : list Canary) (now : Z) (birdcageVersion : bytes) : prog health_db (res health_error (list Canary)) :=
  match l with
  | [] => Ret (Ok [])
  | c :: l =>
      pbind (list_canary c now birdcageVersion) (fun r => or_stop r (fun c =>
      pbind (list_canaries l now birdcageVersion) (fun r => or_stop r (fun l => Ret (Ok (c :: l))))))
  end.

Definition ListCanaries (now rangeWindow : Z) (birdcageVersion : bytes) : prog health_db (res health_error (list Canary)) :=
  read (fun d => merge_sort row_le_id (rows d)) (fun rows =>
  read (fun d => hitsSinceByInstance now rangeWindow (alerts (selftests d))) (fun hits =>
  list_canaries ((fun c => set_hits (default 0 (hits !! h_id (Row c))) c) <$> ((fun r => applyStatus r now) <$> rows))
    now birdcageVersion)).
End list.

(** ** Heartbeats *)

(** [UPDATE agents SET f WHERE id] *)
Definition update_row (canaryID : bytes) (f : canary_row -> canary_row) (d : health_db) : option (health_db * Z) :=
  Some (put_rows ((fun r => if bool_decide (h_id r = canaryID) then f r else r) <$> rows d) d,
        zlen (filter (fun r => h_id r = canaryID) (rows d))).

Definition set_last (at_ : Z) (r : canary_row) : canary_row :=
  mkCanaryRow (h_id r) (h_kind r) (h_interval r) (h_enrolled r) (Some at_) (h_registered r) (h_log_ok r) (h_version r)
    (h_collisions r) (h_opencanary r) (h_dual_addrs r) (h_dual_versions r) (h_failing_since r) (h_refresh_error r)
    (h_queue_depth r) (h_last_event r) (h_dropped r) (h_rejected r) (h_position_found r) (h_poisoner_names r).

Definition set_version (v : bytes) (r : canary_row) : canary_row :=
  mkCanaryRow (h_id r) (h_kind r) (h_interval r) (h_enrolled r) (h_last r) (h_registered r) (h_log_ok r) (Some v)
    (h_collisions r) (h_opencanary r) (h_dual_addrs r) (h_dual_versions r) (h_failing_since r) (h_refresh_error r)
    (h_queue_depth r) (h_last_event r) (h_dropped r) (h_rejected r) (h_position_found r) (h_poisoner_names r).

(** [AgentHeartbeat] *)
Record AgentHeartbeat : Type := mkHeartbeat {
  QueueDepth : Z;
  LogReadOK : bool;
  LastEventID : bytes;
  AgentVersion : bytes;
  Dropped : option Z;
  Rejected : option Z;
  EventIDCollisions : option Z;
  PositionFound : option bool;
  PoisonerNames : bytes;
  OpenCanaryUp : option bool;
}.

Definition set_report (p : AgentHeartbeat) (r : canary_row) : canary_row :=
  mkCanaryRow (h_id r) (h_kind r) (h_interval r) (h_enrolled r) (h_last r) (h_registered r) (Some (LogReadOK p))
    (Some (AgentVersion p)) (EventIDCollisions p) (OpenCanaryUp p) (h_dual_addrs r) (h_dual_versions r)
    (h_failing_since r) (h_refresh_error r) (Some (QueueDepth p)) (Some (LastEventID p)) (Dropped p) (Rejected p)
    (PositionFound p) (if bool_decide (PoisonerNames p = []) then None else Some (PoisonerNames p)).

Definition insert_heartbeat (canaryID : bytes) (at_ : Z) (d : health_db) : option (health_db * unit) :=
  Some (put_heartbeats (heartbeats d ++ [(canaryID, at_)]) d, tt).

Definition prune_heartbeats `{Engine} (canaryID : bytes) (cutoff : Z) (d : health_db) : option (health_db * unit) :=
  Some (put_heartbeats (filter (fun h => ~ (h.1 = canaryID /\ instant h.2 < instant cutoff)) (heartbeats d)) d, tt).

(** Three statements, each on its own. *)
Definition RecordHeartbeat `{Engine} (canaryID : bytes) (at_ : Z) : prog health_db (res health_error unit) :=
  Stmt (update_row canaryID (set_last at_)) (fun n =>
  match n with
  | None => Ret (Err ErrHealthStore)
  | Some n =>
      if n =? 0 then Ret (Err ErrCanaryNotFound) else
      Stmt (insert_heartbeat canaryID at_) (fun r =>
      match r with
      | None => Ret (Err ErrHealthStore)
      | Some _ =>
          Stmt (prune_heartbeats canaryID (at_ - heartbeatRetention)) (fun r =>
          Ret (match r with None => Err ErrHealthStore | Some _ => Ok tt end))
      end)
  end).

Definition then_update (canaryID : bytes) (f : canary_row -> canary_row) (r : res health_error unit) :
    prog health_db (res health_error unit) :=
  match r with
  | Err e => Ret (Err e)
  | Ok _ => Stmt (update_row canaryID f) (fun n => Ret (match n with None => Err ErrHealthStore | Some _ => Ok tt end))
  end.

Definition RecordCanaryAgentHeartbeat `{Engine} (canaryID : bytes) (at_ : Z) (report : AgentHeartbeat) :
    prog health_db (res health_error unit) :=
  pbind (RecordHeartbeat canaryID at_) (then_update canaryID (set_report report)).

Definition RecordCanaryCommonHeartbeat `{Engine} (canaryID : bytes) (at_ : Z) (agentVersion : bytes) :
    prog health_db (res health_error unit) :=
  pbind (RecordHeartbeat canaryID at_) (then_update canaryID (set_version agentVersion)).

(** ** The order of states *)

Definition worst_first : list HealthState :=
  [StateTokenConflict; StateCredentialConflict; StateSilent; StateNotDelivering; StateOpenCanaryDown; StateHitsMerged;
   StateTestFailed; StateDBStale; StateThrottled; StateRotationStalled; StateRenewalStalled; StateUpgradeInProgress;
   StateAgentOutOfDate; StatePending].

#[local] Instance worse_total : Total worse.
Proof. intros a b. unfold worse. lia. Qed.
#[local] Instance worse_trans : Transitive worse.
Proof. intros a b c. unfold worse. lia. Qed.
#[local] Instance worse_antisymm : AntiSymm (=) worse.
Proof. intros a b H1 H2. assert (healthStateRank a = healthStateRank b) as H by (unfold worse in *; lia). by destruct a, b. Qed.

(** The faults a condition selects, worst first. *)
Definition selected (Q : HealthState -> bool) : list HealthState := filter (fun s => Q s = true) worst_first.

Lemma selected_ext Q Q' : (forall s, s ≠ StateOK -> Q s = Q' s) -> selected Q = selected Q'.
Proof.
  intros HQ. unfold selected. assert (Forall (fun s => s ≠ StateOK) worst_first) as Hall by (by repeat constructor).
  induction Hall as [|s l Hs _ IH]; [done|]. rewrite !filter_cons, IH, (HQ s Hs). done.
Qed.

Lemma elem_of_selected s Q : s ∈ selected Q <-> Q s = true /\ s ≠ StateOK.
Proof.
  unfold selected. rewrite list_elem_of_filter. assert (s ∈ worst_first <-> s ≠ StateOK); [|tauto].
  split; [intros Hin ->; unfold worst_first in Hin; set_solver|].
  intros Hs. unfold worst_first. destruct s; set_solver.
Qed.

Lemma sort_selected l Q :
  NoDup l -> (forall s, s ∈ l <-> Q s = true /\ s ≠ StateOK) -> sort_states l = selected Q.
Proof.
  intros Hnd Hl. apply (StronglySorted_unique worse).
  - apply (StronglySorted_merge_sort worse).
  - unfold selected. apply sorted_filter. repeat constructor; unfold worse; simpl; lia.
  - unfold sort_states. rewrite merge_sort_Permutation. apply NoDup_Permutation; [done| |].
    + apply NoDup_filter. apply (bool_decide_unpack _). vm_compute. exact I.
    + intros s. by rewrite Hl, elem_of_selected.
Qed.

(** The tile shows the faults a condition selects. *)
Definition shows (c : Canary) (Q : HealthState -> bool) : Prop :=
  ActiveStates c = selected Q /\ Status c = default StateOK (head (selected Q)).

Lemma shows_ext c Q Q' : (forall s, s ≠ StateOK -> Q s = Q' s) -> shows c Q -> shows c Q'.
Proof. intros HQ [H1 H2]. split; by rewrite <- (selected_ext Q Q' HQ). Qed.

Lemma add_shows c Q add :
  shows c Q -> NoDup add -> (forall s, s ∈ add -> Q s = false /\ s ≠ StateOK) ->
  shows (addActiveStates c add) (fun s => Q s || bool_decide (s ∈ add)).
Proof.
  intros [Ha Hs] Hnd Hadd. assert (sort_states (ActiveStates c ++ add) = selected (fun s => Q s || bool_decide (s ∈ add))) as Heq.
  { rewrite Ha. apply sort_selected.
    - apply NoDup_app. split; [apply NoDup_filter; apply (bool_decide_unpack _); vm_compute; exact I|]. split; [|done].
      intros s [HQ _]%elem_of_selected Hin. destruct (Hadd s Hin) as [HQ' _]. congruence.
    - intros s. rewrite elem_of_app, elem_of_selected, orb_true_iff, bool_decide_eq_true.
      split; [intros [[? ?]|Hin]; [auto|destruct (Hadd s Hin); auto]|]. intros [[?|?] ?]; auto. }
  unfold addActiveStates. rewrite Heq. by split.
Qed.

(** One more state under a condition. *)
Lemma add_one_shows c Q s0 (b : bool) (c' : Canary) :
  shows c Q -> Q s0 = false -> s0 ≠ StateOK -> c' = (if b then addActiveStates c [s0] else c) ->
  shows c' (fun s => Q s || (b && bool_decide (s = s0))).
Proof.
  intros Hs HQ Hok ->. destruct b.
  - eapply shows_ext; [|apply (add_shows c Q [s0] Hs)].
    + intros s _. simpl. f_equal. apply bool_decide_ext. by rewrite list_elem_of_singleton.
    + apply NoDup_singleton.
    + by intros s ->%list_elem_of_singleton.
  - eapply shows_ext; [|exact Hs]. intros s _. by rewrite orb_false_r.
Qed.

(** ** What each state means *)

Section health.
Context {TS : TokenSort} {EN : Engine}.

Definition entered (actions : list bytes) (id : bytes) (cutoff : Z) (d : health_db) : bool :=
  existsb (fun e => existsb (fun a => matching a id cutoff e) actions) (audits_of d).

Definition test_failed (d : health_db) (now : Z) (row : canary_row) : bool :=
  match (exec (test_state row now) d).2 with Ok b => b | Err _ => false end.

Definition rotation_of (d : health_db) (now : Z) (row : canary_row) : option (Z * bool) :=
  rotationSignal (select_agent (h_id row) (tokens (creds d))) now.

Definition certificate_of (d : health_db) (now : Z) (row : canary_row) : option Z * bool :=
  certificateSignal (agent_certs (h_id row) (creds d)) now.

(** Whether a node is in a state: each condition on its own, of the tables. *)
Definition holds (d : health_db) (now : Z) (version : bytes) (row : canary_row) (s : HealthState) : bool :=
  match s with
  | StateTokenConflict =>
      entered [lit "ingest.token_conflict"; lit "ingest.cert_conflict"] (h_id row) (now - tokenConflictQuietPeriod) d
  | StateCredentialConflict =>
      bool_decide (recentPair (h_dual_addrs row) now ≠ None) || bool_decide (recentPair (h_dual_versions row) now ≠ None)
  | StateSilent => negb (beating row now)
  | StateNotDelivering => notDelivering row || (certificate_of d now row).2
  | StateOpenCanaryDown => openCanaryDown row
  | StateHitsMerged => match h_collisions row with Some n => 0 <? n | None => false end
  | StateTestFailed => test_failed d now row
  | StateDBStale => match h_failing_since row with Some t => dbStaleThreshold <? time_sub now t | None => false end
  | StateThrottled => entered [lit "ingest.rate_limited"] (h_id row) (now - throttledWindow) d
  | StateRotationStalled => bool_decide (rotation_of d now row ≠ None)
  | StateRenewalStalled => bool_decide ((certificate_of d now row).1 ≠ None)
  | StateUpgradeInProgress => existsb (fun _ => true) (upgradeWindows (h_id row) now (upgrades d))
  | StateAgentOutOfDate => agentBehindBirdcage (default [] (h_version row)) version
  | StatePending => bool_decide (h_registered row = None)
  | StateOK => false
  end.

(** ** Each step of the list *)

Lemma latest_audit_some action target cutoff l :
  bool_decide (latest_audit action target cutoff l ≠ None) = existsb (matching action target cutoff) l.
Proof.
  unfold latest_audit. assert (forall o l', foldl latest_of (Some o) l' ≠ None) as Hs.
  { intros o l'. revert o. induction l' as [|e l' IH]; intros o; [done|]. simpl. destruct (o <? _); apply IH. }
  induction l as [|e l IH]; [done|]. rewrite filter_cons. simpl. destruct (matching action target cutoff e) eqn:Em.
  - rewrite decide_True by done. simpl. apply bool_decide_eq_true. apply Hs.
  - by rewrite decide_False by done.
Qed.

Lemma later_conflict_some token cert :
  bool_decide (later_conflict token cert ≠ None) = bool_decide (token ≠ None) || bool_decide (cert ≠ None).
Proof. destruct token as [t|], cert as [c|]; simpl; try done. by destruct (t <? c). Qed.

Lemma entered_two a b id cutoff d :
  entered [a; b] id cutoff d = existsb (matching a id cutoff) (audits_of d) || existsb (matching b id cutoff) (audits_of d).
Proof.
  unfold entered. induction (audits_of d) as [|e l IH]; [done|]. cbn [existsb] in *. rewrite IH, orb_false_r.
  destruct (matching a id cutoff e), (matching b id cutoff e), (existsb (matching a id cutoff) l); done.
Qed.

Lemma entered_one a id cutoff d : entered [a] id cutoff d = existsb (matching a id cutoff) (audits_of d).
Proof. unfold entered. induction (audits_of d) as [|e l IH]; [done|]. cbn [existsb] in *. by rewrite IH, orb_false_r. Qed.

(** Decides the tests of a known state against another. *)
Ltac state_bits :=
  cbn -[bool_decide]; rewrite ?(bool_decide_eq_false_2 (_ = _ :> HealthState)) by discriminate;
  rewrite ?(bool_decide_eq_true_2 (_ = _ :> HealthState)) by reflexivity;
  rewrite ?andb_false_r, ?andb_true_r, ?orb_false_r.
Ltac other_state := state_bits; reflexivity.

(** The states of [applyHealthState]. *)
Definition first_states (silent conflict notdel failed throttled rotation pending : bool) (s : HealthState) : bool :=
  match s with
  | StateSilent => silent
  | StateTokenConflict => conflict
  | StateNotDelivering => notdel
  | StateTestFailed => failed
  | StateThrottled => throttled
  | StateRotationStalled => rotation
  | StatePending => pending
  | _ => false
  end.

Lemma first_shows c throttled rotation conflict failed pending now :
  shows (applyHealthState c throttled rotation conflict failed pending now)
    (first_states (bool_decide (Status c = StateSilent)) (bool_decide (conflict ≠ None)) (notDelivering (Row c)) failed
       (bool_decide (throttled ≠ None)) (bool_decide (rotation ≠ None)) pending).
Proof.
  unfold applyHealthState. cbv zeta. cbn [Status Row].
  generalize (bool_decide (Status c = StateSilent)) (bool_decide (conflict ≠ None)) (notDelivering (Row c))
    (bool_decide (throttled ≠ None)) (bool_decide (rotation ≠ None)).
  intros b1 b2 b3 b4 b5. set (Q := first_states _ _ _ _ _ _ _).
  assert (forall l, sort_states l = selected Q -> forall c, shows (set_active (sort_states l) c) Q) as Hset
    by (intros l Hl c0; rewrite Hl; by split).
  apply Hset.
  set (pairs := [(StateSilent, b1); (StateTokenConflict, b2); (StateNotDelivering, b3); (StateTestFailed, failed);
                 (StateThrottled, b4); (StateRotationStalled, b5); (StatePending, pending)]).
  match goal with |- sort_states ?l = _ => assert (l = (filter (fun p => p.2 = true) pairs).*1) as -> end.
  { unfold pairs. destruct b1, b2, b3, b4, b5, failed, pending; reflexivity. }
  apply sort_selected.
  - apply NoDup_fmap_filter. apply (bool_decide_unpack _). vm_compute. exact I.
  - intros s. rewrite list_elem_of_fmap. transitivity ((s, true) ∈ pairs).
    + split; [by intros ([s' b] & -> & [Hb Hin]%list_elem_of_filter); simpl in *; subst|].
      intros Hin. exists (s, true). split; [done|]. by apply list_elem_of_filter.
    + unfold pairs, Q. rewrite !elem_of_cons, elem_of_nil. destruct s; cbn [first_states]; intuition congruence.
Qed.

(** A state added twice is added once. *)
Lemma hits_shows c Q : shows c Q -> Q StateHitsMerged = false ->
  shows (applyHitsMergedHealth c)
    (fun s => Q s || (match h_collisions (Row c) with Some n => 0 <? n | None => false end && bool_decide (s = StateHitsMerged))).
Proof.
  intros Hs HQ. apply (add_one_shows c Q StateHitsMerged _ _ Hs HQ); [done|]. unfold applyHitsMergedHealth.
  by destruct (h_collisions (Row c)).
Qed.

Lemma opencanary_shows c Q : shows c Q -> Q StateOpenCanaryDown = false ->
  shows (applyOpenCanaryHealth c) (fun s => Q s || (openCanaryDown (Row c) && bool_decide (s = StateOpenCanaryDown))).
Proof. intros Hs HQ. by apply (add_one_shows c Q StateOpenCanaryDown _ _ Hs HQ). Qed.

Lemma behind_shows c Q version : shows c Q -> Q StateAgentOutOfDate = false ->
  shows (applyAgentOutOfDateHealth c version)
    (fun s => Q s || (agentBehindBirdcage (default [] (h_version (Row c))) version && bool_decide (s = StateAgentOutOfDate))).
Proof. intros Hs HQ. by apply (add_one_shows c Q StateAgentOutOfDate _ _ Hs HQ). Qed.

Lemma db_shows c Q now : shows c Q -> Q StateDBStale = false ->
  shows (applyDBRefreshHealth c now)
    (fun s => Q s || (match h_failing_since (Row c) with Some t => dbStaleThreshold <? time_sub now t | None => false end &&
                      bool_decide (s = StateDBStale))).
Proof.
  intros Hs HQ. unfold applyDBRefreshHealth. destruct (h_failing_since (Row c)) as [t|].
  2: { by apply (add_one_shows c Q StateDBStale false _ Hs HQ). }
  cbv zeta. set (c1 := mkCanary _ _ _ _ _ _ _ _ _ _ _ _ _ _). assert (shows c1 Q) as Hs1 by exact Hs.
  apply (add_one_shows c1 Q StateDBStale _ _ Hs1 HQ); [done|].
  rewrite Z.ltb_antisym. by destruct (time_sub now t <=? dbStaleThreshold).
Qed.

Lemma window_shows c Q until : shows c Q -> Q StateUpgradeInProgress = false ->
  shows (applyUpgradeWindowHealth c until)
    (fun s => Q s || (bool_decide (until ≠ None) && bool_decide (s = StateUpgradeInProgress))).
Proof.
  intros Hs HQ. unfold applyUpgradeWindowHealth. destruct until as [t|].
  2: { by apply (add_one_shows c Q StateUpgradeInProgress false _ Hs HQ). }
  set (c1 := mkCanary _ _ _ _ _ _ _ _ _ _ _ _ _ _). assert (shows c1 Q) as Hs1 by exact Hs.
  by apply (add_one_shows c1 Q StateUpgradeInProgress true _ Hs1 HQ).
Qed.

Lemma credential_shows c Q cert now :
  shows c Q -> Q StateCredentialConflict = false -> Q StateRenewalStalled = false ->
  Q StateNotDelivering = NotDelivering c ->
  let conflict := bool_decide (recentPair (h_dual_addrs (Row c)) now ≠ None) ||
                  bool_decide (recentPair (h_dual_versions (Row c)) now ≠ None) in
  shows (applyCredentialHealth c cert now)
    (fun s => Q s || (conflict && bool_decide (s = StateCredentialConflict)) ||
              (bool_decide (cert.1 ≠ None) && bool_decide (s = StateRenewalStalled)) ||
              (cert.2 && bool_decide (s = StateNotDelivering))).
Proof.
  intros Hs H1 H2 H3 conflict. unfold applyCredentialHealth. fold conflict. clearbody conflict.
  set (add := (if conflict then _ else _) ++ _). set (c1 := mkCanary _ _ _ _ _ _ _ _ _ _ _ _ _ _).
  assert (shows c1 Q) as Hs1 by exact Hs.
  assert (NoDup add /\ forall s, s ∈ add <-> (conflict = true /\ s = StateCredentialConflict) \/
            (bool_decide (cert.1 ≠ None) = true /\ s = StateRenewalStalled) \/
            (cert.2 && negb (NotDelivering c) = true /\ s = StateNotDelivering)) as [Hnd Hin].
  { unfold add. split.
    - generalize (bool_decide (cert.1 ≠ None)) (cert.2 && negb (NotDelivering c)). intros b1 b2.
      destruct conflict, b1, b2; apply (bool_decide_unpack _); vm_compute; exact I.
    - intros s. rewrite !elem_of_app.
      assert (forall (b : bool) x, s ∈ (if b then [x] else []) <-> b = true /\ s = x) as Hon
        by (intros [] x; [rewrite list_elem_of_singleton|rewrite elem_of_nil]; intuition congruence).
      rewrite !Hon. tauto. }
  assert (shows (addActiveStates c1 add) (fun s => Q s || bool_decide (s ∈ add))) as Hadd.
  { apply (add_shows c1 Q add Hs1 Hnd). intros s [[_ ->]|[[_ ->]|[Hb ->]]]%Hin; try done. split; [|done].
    apply andb_true_iff in Hb as [_ Hb]. apply negb_true_iff in Hb. congruence. }
  assert (shows (if bool_decide (add = []) then c1 else addActiveStates c1 add) (fun s => Q s || bool_decide (s ∈ add))) as Hres.
  { destruct (bool_decide (add = [])) eqn:Ha; [|exact Hadd]. apply bool_decide_eq_true in Ha. eapply shows_ext; [|exact Hs1]. intros s _. rewrite Ha.
    rewrite bool_decide_eq_false_2 by apply not_elem_of_nil. by rewrite orb_false_r. }
  eapply shows_ext; [|exact Hres]. intros s _. cbn beta. rewrite (bool_decide_ext _ _ (Hin s)).
  destruct (decide (s = StateCredentialConflict)) as [->|]; [|destruct (decide (s = StateRenewalStalled)) as [->|];
    [|destruct (decide (s = StateNotDelivering)) as [->|]]].
  - rewrite H1. cbn. rewrite !andb_false_r, andb_true_r, !orb_false_r. apply eq_true_iff_eq. rewrite bool_decide_eq_true.
    intuition congruence.
  - rewrite H2. cbn [orb]. rewrite !(bool_decide_eq_false_2 (StateRenewalStalled = _)), (bool_decide_eq_true_2 (StateRenewalStalled = _)) by done.
    rewrite !andb_false_r, andb_true_r, orb_false_r. apply eq_true_iff_eq. rewrite bool_decide_eq_true. intuition congruence.
  - rewrite H3. rewrite !(bool_decide_eq_false_2 (StateNotDelivering = StateCredentialConflict)), (bool_decide_eq_false_2 (StateNotDelivering = StateRenewalStalled)), (bool_decide_eq_true_2 (StateNotDelivering = StateNotDelivering)) by done.
    rewrite !andb_false_r, andb_true_r, !orb_false_r. destruct (NotDelivering c), cert.2; cbn; try done;
      apply eq_true_iff_eq; rewrite bool_decide_eq_true; intuition congruence.
  - rewrite !(bool_decide_eq_false_2 (s = _)) by done. rewrite !andb_false_r, !orb_false_r.
    rewrite bool_decide_eq_false_2; [by rewrite orb_false_r|]. tauto.
Qed.

(** ** Listing a node *)

(** A program over one table that changes nothing. *)
Lemma exec_read_table {T A} (get : health_db -> T) (put : T -> health_db -> health_db) (p : prog T A) d :
  (forall db, put (get db) db = db) -> (forall t db, get (put t db) = t) -> (forall t u db, put t (put u db) = put t db) ->
  (exec p (get d)).1 = get d -> exec (on_table get put p) d = (d, (exec p (get d)).2).
Proof. intros H1 H2 H3 Hp. rewrite exec_on_table by done. by rewrite Hp, H1. Qed.

Lemma selftest_reads id kind s : exists st, exec (applySelfTestState id kind) s = (s, Ok st).
Proof.
  unfold applySelfTestState, LatestCompletedSelfTestRun. cbn [pbind exec query].
  destruct (foldl _ _ _) as [run|]; [|by eexists]. case_bool_decide; [by eexists|].
  case_bool_decide; by eexists.
Qed.

Lemma scan_reads id failed last now s : exists x, exec (applyScanRunState id failed last now) s = (s, Some x).
Proof.
  unfold applyScanRunState. cbn [exec query]. destruct failed, last as [t|]; try by eexists. cbn [exec query].
  destruct (latestOKSnapshotReceivedAt id s); by eexists.
Qed.

Lemma test_state_exec d now row : exec (test_state row now) d = (d, Ok (test_failed d now row)).
Proof.
  assert (exists b, exec (test_state row now) d = (d, Ok b)) as [b Hb]; [|unfold test_failed; by rewrite Hb].
  unfold test_state. rewrite exec_pbind. destruct (selftest_reads (h_id row) (h_kind row) (selftests d)) as [st Hst].
  rewrite exec_read_table by (done || (by intros []) || by rewrite Hst). rewrite Hst. cbn [or_stop snd].
  destruct (negb _); [by eexists|]. rewrite exec_pbind.
  destruct (scan_reads (h_id row) (SelfTest.testFailed st) (LastSelfTestAt st) now (scans d)) as [x Hx].
  rewrite exec_read_table by (done || (by intros []) || by rewrite Hx). rewrite Hx. by eexists.
Qed.

Lemma window_exec id now d :
  exists until, exec (on_table upgrades put_upgrades (OpenUpgradeWindowUntil id now)) d = (d, Ok until) /\
    bool_decide (until ≠ None) = existsb (fun _ => true) (upgradeWindows id now (upgrades d)).
Proof.
  rewrite exec_read_table by (done || by intros []). unfold OpenUpgradeWindowUntil. cbn [exec query snd]. eexists. split; [done|].
  assert (forall o (l : list (bytes * bytes * Z)), foldl (fun latest w => match latest with None => Some w.2
    | Some l => if l <? w.2 then Some w.2 else latest end) (Some o) l ≠ None) as Hs.
  { intros o l. revert o. induction l as [|w l IH]; intros o; [done|]. simpl. destruct (o <? w.2); apply IH. }
  destruct (upgradeWindows id now (upgrades d)) as [|w l]; [done|]. simpl. apply bool_decide_eq_true. apply Hs.
Qed.

(** The node's tile is its row's: each fault its condition holds, worst first. *)
Definition tile (d : health_db) (now : Z) (version : bytes) (c : Canary) : Prop :=
  shows c (holds d now version (Row c)).

(** What a tile is made of, once the tables are read. *)
Definition fold_states (c : Canary) (thr : option Z) (rot : option (Z * bool)) (conf : option Z) (failed : bool) (now : Z)
    (version : bytes) (until : option Z) (cert : option Z * bool) : Canary :=
  let c := applyHealthState c thr rot conf failed (bool_decide (h_registered (Row c) = None)) now in
  let c := applyHitsMergedHealth c in
  let c := applyOpenCanaryHealth c in
  let c := applyAgentOutOfDateHealth c version in
  let c := applyUpgradeWindowHealth c until in
  let c := applyCredentialHealth c cert now in
  applyDBRefreshHealth c now.

Definition signalled (row : canary_row) (silent : bool) (thr : option Z) (rot : option (Z * bool)) (conf : option Z)
    (failed : bool) (now : Z) (version : bytes) (until : option Z) (cert : option Z * bool) (s : HealthState) : bool :=
  match s with
  | StateTokenConflict => bool_decide (conf ≠ None)
  | StateCredentialConflict =>
      bool_decide (recentPair (h_dual_addrs row) now ≠ None) || bool_decide (recentPair (h_dual_versions row) now ≠ None)
  | StateSilent => silent
  | StateNotDelivering => notDelivering row || cert.2
  | StateOpenCanaryDown => openCanaryDown row
  | StateHitsMerged => match h_collisions row with Some n => 0 <? n | None => false end
  | StateTestFailed => failed
  | StateDBStale => match h_failing_since row with Some t => dbStaleThreshold <? time_sub now t | None => false end
  | StateThrottled => bool_decide (thr ≠ None)
  | StateRotationStalled => bool_decide (rot ≠ None)
  | StateRenewalStalled => bool_decide (cert.1 ≠ None)
  | StateUpgradeInProgress => bool_decide (until ≠ None)
  | StateAgentOutOfDate => agentBehindBirdcage (default [] (h_version row)) version
  | StatePending => bool_decide (h_registered row = None)
  | StateOK => false
  end.

Lemma fold_states_shows c0 thr rot conf failed now version until cert :
  let c := fold_states c0 thr rot conf failed now version until cert in
  Row c = Row c0 /\ Hits c = Hits c0 /\
  shows c (signalled (Row c0) (bool_decide (Status c0 = StateSilent)) thr rot conf failed now version until cert).
Proof.
  unfold fold_states. cbv zeta. set (row := Row c0). set (n := Hits c0).
  set (c1 := applyHealthState _ _ _ _ _ _ _). set (c2 := applyHitsMergedHealth c1). set (c3 := applyOpenCanaryHealth c2).
  set (c4 := applyAgentOutOfDateHealth c3 version). set (c5 := applyUpgradeWindowHealth c4 until).
  set (c6 := applyCredentialHealth c5 cert now). set (c7 := applyDBRefreshHealth c6 now).
  assert (Row c1 = row /\ NotDelivering c1 = notDelivering row /\ Hits c1 = n) as (R1 & N1 & H1)
    by (split_and!; unfold c1; cbn; by rewrite ?Hrow).
  assert (Row c2 = row /\ NotDelivering c2 = notDelivering row /\ Hits c2 = n) as (R2 & N2 & H2).
  { unfold c2, applyHitsMergedHealth. destruct (h_collisions _) as [m|]; [destruct (0 <? m)|]; done. }
  assert (Row c3 = row /\ NotDelivering c3 = notDelivering row /\ Hits c3 = n) as (R3 & N3 & H3)
    by (unfold c3, applyOpenCanaryHealth; by destruct (openCanaryDown _)).
  assert (Row c4 = row /\ NotDelivering c4 = notDelivering row /\ Hits c4 = n) as (R4 & N4 & H4)
    by (unfold c4, applyAgentOutOfDateHealth; by destruct (agentBehindBirdcage _ _)).
  assert (Row c5 = row /\ NotDelivering c5 = notDelivering row /\ Hits c5 = n) as (R5 & N5 & H5)
    by (unfold c5, applyUpgradeWindowHealth; by destruct until).
  assert (Row c6 = row /\ Hits c6 = n) as [R6 H6].
  { unfold c6, applyCredentialHealth. cbv zeta.
    by match goal with |- Row (if ?b then _ else addActiveStates _ _) = _ /\ _ => destruct b end. }
  assert (Row c7 = row /\ Hits c7 = n) as [R7 H7]
    by (unfold c7, applyDBRefreshHealth; destruct (h_failing_since _) as [t|]; [by destruct (time_sub now t <=? _)|done]).
  split; [exact R7|]. split; [exact H7|].
  pose proof (first_shows c0 thr rot conf failed (bool_decide (h_registered row = None)) now) as S1. fold c1 in S1. fold row in S1.
  apply hits_shows in S1 as S2; [|other_state]. fold c2 in S2. rewrite R1 in S2.
  apply opencanary_shows in S2 as S3; [|other_state]. fold c3 in S3. rewrite R2 in S3.
  apply (behind_shows c3 _ version) in S3 as S4; [|other_state]. fold c4 in S4. rewrite R3 in S4.
  apply (window_shows c4 _ until) in S4 as S5; [|other_state]. fold c5 in S5.
  apply (credential_shows c5 _ cert now) in S5 as S6; [|other_state|other_state|rewrite N5; other_state].
  fold c6 in S6. rewrite R5 in S6. apply (db_shows c6 _ now) in S6 as S7; [|other_state]. fold c7 in S7. rewrite R6 in S7.
  eapply shows_ext; [|exact S7]. intros s Hs. clear S1 S2 S3 S4 S5 S6 S7.
  destruct s; state_bits; reflexivity.
Qed.

Lemma list_canary_exec d now version row n :
  exists c, exec (list_canary (set_hits n (applyStatus row now)) now version) d = (d, Ok c) /\
    Row c = row /\ Hits c = n /\ tile d now version c.
Proof.
  set (c0 := set_hits n (applyStatus row now)).
  assert (Row c0 = row) as Hrow by (unfold c0, applyStatus; by destruct (beating row now)).
  assert (Hits c0 = n) as Hn by done.
  assert (bool_decide (Status c0 = StateSilent) = negb (beating row now)) as Hsilent
    by (unfold c0, applyStatus; by destruct (beating row now)).
  clearbody c0. subst row.
  unfold list_canary, read. cbn [exec query]. set (thr := latest_audit _ _ _ _).
  set (conf := later_conflict _ _). set (rot := rotationSignal _ now). rewrite exec_pbind, test_state_exec. cbn [or_stop].
  rewrite exec_pbind. destruct (window_exec (h_id (Row c0)) now d) as (until & Hu & Huntil). rewrite Hu. cbn [or_stop exec query].
  set (cert := certificateSignal _ now). eexists. split; [reflexivity|].
  destruct (fold_states_shows c0 thr rot conf (test_failed d now (Row c0)) now version until cert) as (H1 & H2 & H3).
  change (applyDBRefreshHealth _ now) with (fold_states c0 thr rot conf (test_failed d now (Row c0)) now version until cert).
  split; [exact H1|]. split; [congruence|]. unfold tile. rewrite H1. eapply shows_ext; [|exact H3]. intros s Hs. rewrite Hsilent.
  clear H3. unfold signalled, holds. destruct s; try reflexivity.
  - rewrite entered_two, <- !latest_audit_some. apply later_conflict_some.
  - by rewrite entered_one, <- latest_audit_some.
  - exact Huntil.
Qed.

Lemma list_canaries_exec (d : health_db) (now : Z) (version : bytes) (hits : gmap bytes Z) (l : list canary_row) :
  exists cs, exec (list_canaries ((fun c => set_hits (default 0 (hits !! h_id (Row c))) c) <$> ((fun r => applyStatus r now) <$> l)) now version) d =
      (d, Ok cs) /\
    Row <$> cs = l /\ Forall (fun c => tile d now version c /\ Hits c = default 0 (hits !! h_id (Row c))) cs.
Proof.
  induction l as [|row l (cs & He & Hr & Ht)]; [by exists []|].
  assert (Row (applyStatus row now) = row) as Hrow by (unfold applyStatus; by destruct (beating row now)).
  destruct (list_canary_exec d now version row (default 0 (hits !! h_id row))) as (c & Hc & Hcr & Hh & Htile).
  exists (c :: cs). rewrite !fmap_cons. cbn [list_canaries]. rewrite Hrow, exec_pbind, Hc. cbn [or_stop]. rewrite exec_pbind, He.
  split; [done|]. rewrite Hr, Hcr. split; [done|]. constructor; [|done]. by rewrite Hh, Hcr.
Qed.

(** The count of a node's alerts. *)
Lemma hits_counted now rangeWindow l id :
  default 0 (hitsSinceByInstance now rangeWindow l !! id) =
  zlen (filter (fun a => SelfTest.InstanceID (al_alert a) = id /\ recent_hit now rangeWindow a) l).
Proof.
  unfold hitsSinceByInstance. rewrite <- list_filter_filter. generalize (filter (recent_hit now rangeWindow) l). clear l. intros l.
  induction l as [|a l IH] using rev_ind; [done|]. rewrite foldl_snoc, filter_app. unfold count_hit at 1. cbn [foldl].
  rewrite filter_cons, filter_nil. unfold zlen in *. rewrite length_app, Nat2Z.inj_add, <- IH.
  destruct (decide (SelfTest.InstanceID (al_alert a) = id)) as [<-|Hne]; [by rewrite lookup_insert_eq|].
  rewrite lookup_insert_ne by done. simpl. lia.
Qed.

Lemma last_greatest {A} (R : A -> A -> Prop) `{!Reflexive R} l x :
  StronglySorted R l -> last l = Some x -> x ∈ l /\ forall y, y ∈ l -> R y x.
Proof.
  induction 1 as [|a l Hl IH Ha]; [done|]. intros Hx. destruct l as [|b l].
  - injection Hx as <-. split; [by left|]. intros y ->%list_elem_of_singleton. done.
  - destruct (IH Hx) as [Hin Hall]. split; [by right|]. intros y [->|Hy]%elem_of_cons; [|by apply Hall].
    rewrite Forall_forall in Ha. by apply Ha.
Qed.

Definition newest (P : CanaryToken -> Prop) (l : list CanaryToken) (t : CanaryToken) : Prop :=
  t ∈ l /\ P t /\ forall u, u ∈ l -> P u -> CreatedAt u <= CreatedAt t.

(** The last of the sorted tokens is the newest, when no two are as old. *)
Lemma last_newest (P : CanaryToken -> Prop) `{forall t, Decision (P t)} l t :
  NoDup (CreatedAt <$> l) -> last (filter P (sort_tokens l)) = Some t <-> newest P l t.
Proof.
  intros Hnd. assert (forall u, u ∈ filter P (sort_tokens l) <-> P u /\ u ∈ l) as Hin
    by (intros u; by rewrite list_elem_of_filter, sort_tokens_perm).
  set (le := fun a b => CreatedAt a <= CreatedAt b). assert (Reflexive le) as Hrefl by (intros a; unfold le; lia).
  pose proof (sorted_filter le P _ (sort_tokens_sorted l)) as Hs.
  assert (forall u, last (filter P (sort_tokens l)) = Some u -> newest P l u) as Hlast.
  { intros u [Hu Hall]%(last_greatest le); [|done]. apply Hin in Hu as [??]. split_and!; [done..|]. intros v Hv HP.
    by apply Hall, Hin. }
  split; [apply Hlast|]. intros (Ht & HP & Hall). destruct (last (filter P (sort_tokens l))) as [u|] eqn:Hu.
  - destruct (Hlast u eq_refl) as (Hul & HPu & Hall'). f_equal. apply (NoDup_fmap_in CreatedAt l); try done.
    specialize (Hall u Hul HPu). specialize (Hall' t Ht HP). lia.
  - apply last_None in Hu. assert (t ∈ filter P (sort_tokens l)) as Hc by (by apply Hin). rewrite Hu in Hc.
    by apply elem_of_nil in Hc.
Qed.

(** A rotation has stalled: a replacement unused for a quarter of an hour, or
    the token in use older than a day and an hour. *)
Lemma rotation_stalled l now :
  NoDup (CreatedAt <$> l) ->
  rotationSignal l now ≠ None <->
  (exists t, newest (fun _ => True) l t /\ 1 < zlen l /\ LastUsedAt t = None /\
     rotationStalledThreshold <= time_sub now (CreatedAt t)) \/
  (exists t, newest (fun t => LastUsedAt t ≠ None) l t /\ rotationStaleThreshold <= time_sub now (CreatedAt t)).
Proof.
  intros Hnd. pose proof (fun t => last_newest (fun t => LastUsedAt t ≠ None) l t Hnd) as Hused.
  pose proof (fun t => last_newest (fun _ => True) l t Hnd) as Hnew.
  assert (filter (fun _ => True) (sort_tokens l) = sort_tokens l) as Hall
    by (generalize (sort_tokens l); intros k; induction k as [|a k IH]; [done|]; by rewrite filter_cons, decide_True, IH).
  rewrite Hall in Hnew. clear Hall.
  assert (zlen (sort_tokens l) = zlen l) as Hlen by (unfold zlen; by rewrite sort_tokens_perm).
  unfold rotationSignal, activated. rewrite Hlen. clear Hlen.
  set (latest := last (sort_tokens l)) in *. set (used := last (filter _ (sort_tokens l))) in *.
  assert (latest = None -> used = None) as Hnone.
  { intros Hl%last_None. unfold used. by rewrite Hl. }
  set (stale := match used with None => None | Some t => _ end).
  assert (stale ≠ None <-> exists t, newest (fun t => LastUsedAt t ≠ None) l t /\ rotationStaleThreshold <= time_sub now (CreatedAt t)) as Hstale.
  { unfold stale. split.
    - destruct used as [t|]; [|done]. case_match eqn:E; [|done]. intros _. exists t. split; [by apply Hused|]. by apply Z.leb_le.
    - intros (t & Ht & Hold). apply Hused in Ht. rewrite Ht. by rewrite (proj2 (Z.leb_le _ _) Hold). }
  clearbody stale. destruct latest as [t|].
  - assert (forall u, newest (fun _ => True) l u -> u = t) as Huniq by (intros u Hu%Hnew; congruence).
    assert (newest (fun _ => True) l t) as Ht by (by apply Hnew).
    destruct ((1 <? zlen l) && bool_decide (LastUsedAt t = None)) eqn:E.
    + apply andb_true_iff in E as [E1%Z.ltb_lt E2%bool_decide_eq_true].
      destruct (rotationStalledThreshold <=? time_sub now (CreatedAt t)) eqn:E3.
      * apply Z.leb_le in E3. split; [|done]. intros _. left. by exists t.
      * apply Z.leb_gt in E3. rewrite Hstale. split; [by right|]. intros [(u & Hu & _ & _ & Hold)|?]; [|done].
        apply Huniq in Hu as ->. lia.
    + rewrite Hstale. split; [by right|]. intros [(u & Hu & H1 & H2 & _)|?]; [|done]. apply Huniq in Hu as ->.
      rewrite (proj2 (Z.ltb_lt _ _) H1), bool_decide_eq_true_2 in E by done. done.
  - rewrite <- Hstale. split; [done|]. intros [(u & Hu & _)|Hs]; [apply Hnew in Hu; discriminate|]. apply Hstale in Hs as (u & Hu%Hused & _).
    rewrite Hnone in Hu by done. discriminate.
Qed.

Lemma in_active d now version c s : tile d now version c -> s ∈ ActiveStates c <-> holds d now version (Row c) s = true.
Proof. intros [-> _]. rewrite elem_of_selected. split; [tauto|]. intros Hs. split; [done|]. by intros ->. Qed.

(** The hits of a node in the window. *)
Definition hits_of (d : health_db) (now rangeWindow : Z) (id : bytes) : Z :=
  zlen (filter (fun a => SelfTest.InstanceID (al_alert a) = id /\
    instant (now - rangeWindow) <= instant (SelfTest.ReceivedAt (al_alert a)) <= instant now /\
    SelfTest.Synthetic (al_alert a) = false) (alerts (selftests d))).

Lemma ListCanaries_exec d now rangeWindow version :
  exists cs, exec (ListCanaries now rangeWindow version) d = (d, Ok cs) /\ Permutation (Row <$> cs) (rows d) /\
    Forall (fun c => tile d now version c /\ Hits c = hits_of d now rangeWindow (h_id (Row c))) cs.
Proof.
  destruct (list_canaries_exec d now version (hitsSinceByInstance now rangeWindow (alerts (selftests d))) (merge_sort row_le_id (rows d)))
    as (cs & He & Hr & Ht).
  exists cs. split; [exact He|]. split; [rewrite Hr; apply merge_sort_Permutation|].
  eapply Forall_impl; [exact Ht|]. intros c [? ->]. by rewrite hits_counted.
Qed.

(** Whatever happens between its reads, a listing gives one tile per row it
    read, each state in it once. *)
Definition ids_unique (d : health_db) : Prop := NoDup (h_id <$> rows d).

Lemma valid_any {DB A} (p : prog DB A) : forall o d, valid (fun _ => True) (fun _ _ => True) (fun _ _ => True) p o d.
Proof. induction p as [a|T f k IH]; intros o d; simpl; [done|]. intros. split; [intros; split_and!; auto|apply IH]. Qed.

Lemma shows_nodup c Q : shows c Q -> NoDup (ActiveStates c).
Proof. intros [-> _]. apply NoDup_filter. apply (bool_decide_unpack _). vm_compute. exact I. Qed.

#[local] Instance any_preorder : PreOrder (fun _ _ : health_db => True).
Proof. by split. Qed.

Abbreviation lists post := (valid ids_unique (fun _ _ => True) (fun r _ => match r with Ok x => post x | Err _ => True end)).

Lemma read_valid {A B : Type} (q : health_db -> A) (k : A -> prog health_db (res health_error B)) (P : B -> Prop) :
  (forall d o d1, ids_unique d -> lists P (k (q d)) o d1) -> forall o d, lists P (read q k) o d.
Proof.
  intros Hk o d. unfold read. cbn [valid]. intros d1 _ HI. split; [|done]. intros d' r. unfold query. intros [= <- <-].
  split; [done|]. split; [done|]. split; [|done]. by apply Hk.
Qed.

Lemma table_valid {T A B : Type} (get : health_db -> T) (put : T -> health_db -> health_db) (p : prog T A)
    (k : A -> prog health_db (res health_error B)) (P : B -> Prop) :
  (forall t d, get (put t d) = t) -> (forall t d, rows (put t d) = rows d) ->
  (forall a o d, lists P (k a) o d) -> forall o d, lists P (pbind (on_table get put p) k) o d.
Proof.
  intros Hget Hrows Hk o d. eapply (valid_pbind ids_unique (fun _ _ => True)); [|intros a o' d' _ _; apply Hk].
  eapply (valid_on_table (fun _ => True) (fun _ _ => True) ids_unique (fun _ _ => True) get put (fun _ => True)) with (ot := []);
    [done|done| |done|apply valid_any].
  intros db t HI _ _. split; [|done]. unfold ids_unique. by rewrite Hrows.
Qed.

Lemma test_state_valid row now o d : lists (fun _ => True) (test_state row now) o d.
Proof.
  unfold test_state. apply table_valid; [done|done|]. intros [st|e] o1 d1; cbn [or_stop]; [|done].
  destruct (negb _); [done|]. apply table_valid; [done|done|]. intros [x|] o2 d2; done.
Qed.

Lemma list_canary_valid c now version o d :
  lists (fun c' => Row c' = Row c /\ NoDup (ActiveStates c')) (list_canary c now version) o d.
Proof.
  unfold list_canary. cbv zeta. do 4 (apply read_valid; intros ????).
  eapply (valid_pbind ids_unique (fun _ _ => True)); [apply test_state_valid|]. intros [failed|e] ?? _ _; cbn [or_stop]; [|done].
  apply table_valid; [done|done|]. intros [until|e] ??; cbn [or_stop]; [|done]. apply read_valid. intros ??? _. cbn [valid].
  match goal with |- Row (applyDBRefreshHealth (applyCredentialHealth (applyUpgradeWindowHealth (applyAgentOutOfDateHealth
    (applyOpenCanaryHealth (applyHitsMergedHealth (applyHealthState _ ?thr ?rot ?conf _ _ _))) _) _) ?cert _) _) = _ /\ _ =>
    destruct (fold_states_shows c thr rot conf failed now version until cert) as (Er & _ & Es) end.
  split; [exact Er|]. exact (shows_nodup _ _ Es).
Qed.

Lemma list_canaries_valid now version l : forall o d,
  lists (fun cs => Row <$> cs = Row <$> l /\ Forall (fun c => NoDup (ActiveStates c)) cs) (list_canaries l now version) o d.
Proof.
  induction l as [|c l IH]; intros o d; cbn [list_canaries]; [done|].
  eapply (valid_pbind ids_unique (fun _ _ => True)); [apply list_canary_valid|]. intros [c'|e] o1 d1 _ Hc; cbn [or_stop]; [|done].
  eapply (valid_pbind ids_unique (fun _ _ => True)); [apply IH|]. intros [cs|e] o2 d2 _ Hcs; cbn [or_stop valid]; [|done].
  destruct Hc as [Hc Hnd], Hcs as [Hcs Hall]. split; [by rewrite !fmap_cons, Hc, Hcs|by constructor].
Qed.

Lemma ListCanaries_valid now rangeWindow version o d :
  lists (fun cs => NoDup ((fun c => h_id (Row c)) <$> cs) /\ Forall (fun c => NoDup (ActiveStates c)) cs)
    (ListCanaries now rangeWindow version) o d.
Proof.
  unfold ListCanaries. apply read_valid. intros d1 o1 d2 HI. apply read_valid. intros d3 o3 d4 _.
  eapply (valid_mono ids_unique (fun _ _ => True)); [|apply list_canaries_valid]. intros [cs|e] o5; [|done]. intros [Hr Hall].
  split; [|done]. rewrite (list_fmap_compose Row h_id), Hr, <- !list_fmap_compose.
  assert ((h_id ∘ (Row ∘ (fun c => set_hits (default 0 (hitsSinceByInstance now rangeWindow (alerts (selftests d3)) !! h_id (Row c))) c) ∘
    (fun r => applyStatus r now))) <$> merge_sort row_le_id (rows d1) = h_id <$> merge_sort row_le_id (rows d1)) as Hids.
  { apply list_fmap_ext. intros _ r _. unfold compose, applyStatus. simpl. by destruct (beating r now). }
  unfold compose in *. rewrite Hids. rewrite merge_sort_Permutation. exact HI.
Qed.

(** ** Heartbeats *)

(** The database after a node's report. *)
Definition reported (canaryID : bytes) (at_ : Z) (f : canary_row -> canary_row) (d : health_db) : health_db :=
  put_heartbeats (filter (fun h => ~ (h.1 = canaryID /\ instant h.2 < instant (at_ - heartbeatRetention))) (heartbeats d ++ [(canaryID, at_)]))
    (put_rows ((fun r => if bool_decide (h_id r = canaryID) then f (set_last at_ r) else r) <$> rows d) d).

Lemma update_row_twice (canaryID : bytes) f g (l : list canary_row) :
  (forall r, h_id (f r) = h_id r) ->
  (fun r => if bool_decide (h_id r = canaryID) then g r else r) <$> ((fun r => if bool_decide (h_id r = canaryID) then f r else r) <$> l) =
  (fun r => if bool_decide (h_id r = canaryID) then g (f r) else r) <$> l.
Proof.
  intros Hf. rewrite <- list_fmap_compose. apply list_fmap_ext. intros _ r _. unfold compose.
  destruct (bool_decide (h_id r = canaryID)) eqn:E; rewrite ?Hf, E; done.
Qed.

(** The node's own row and every other one. *)
Lemma heartbeat_exec canaryID at_ f d :
  exec (pbind (RecordHeartbeat canaryID at_) (then_update canaryID f)) d =
  if decide (canaryID ∈ h_id <$> rows d) then (reported canaryID at_ f d, Ok tt) else (d, Err ErrCanaryNotFound).
Proof.
  rewrite exec_pbind. unfold RecordHeartbeat. cbn [exec update_row fst snd].
  destruct (zlen (filter (fun r => h_id r = canaryID) (rows d)) =? 0) eqn:E.
  - apply Z.eqb_eq in E. assert (filter (fun r => h_id r = canaryID) (rows d) = []) as Hno
      by (destruct (filter _ _); [done|unfold zlen in E; simpl in E; lia]).
    assert (canaryID ∉ h_id <$> rows d) as Hnin.
    { intros (r & Hid & Hin)%list_elem_of_fmap. assert (r ∈ filter (fun r => h_id r = canaryID) (rows d)) as Hf
        by (by apply list_elem_of_filter). rewrite Hno in Hf. by apply elem_of_nil in Hf. }
    rewrite decide_False by done. cbn [exec then_update]. f_equal. destruct d. unfold put_rows. simpl. f_equal.
    rewrite <- (list_fmap_id rows0) at 2. apply list_fmap_ext. intros i r Hr. rewrite bool_decide_eq_false_2; [done|].
    intros Hid. apply Hnin, list_elem_of_fmap. exists r. split; [done|]. by eapply list_elem_of_lookup_2.
  - apply Z.eqb_neq in E. rewrite decide_True.
    + cbn [exec then_update update_row insert_heartbeat prune_heartbeats fst snd]. f_equal. unfold reported, put_heartbeats, put_rows. cbn.
      f_equal. by apply update_row_twice.
    + destruct (filter _ (rows d)) as [|r l] eqn:Hf; [done|]. assert (r ∈ filter (fun r => h_id r = canaryID) (rows d)) as Hin
        by (rewrite Hf; by left). apply list_elem_of_filter in Hin as [??]. apply list_elem_of_fmap. by exists r.
Qed.

(** The heartbeats a report leaves. *)
Lemma reported_kept canaryID at_ f d h :
  h ∈ heartbeats (reported canaryID at_ f d) <-> (h ∈ heartbeats d \/ h = (canaryID, at_)) /\
    (h.1 = canaryID -> instant (at_ - heartbeatRetention) <= instant h.2).
Proof.
  cbn [heartbeats reported put_heartbeats]. rewrite list_elem_of_filter, elem_of_app, list_elem_of_singleton. split.
  - intros [Hn ?]. split; [done|]. intros ?. apply Z.nlt_ge. intros ?. by apply Hn.
  - intros [? Hle]. split; [|done]. intros [? ?]. specialize (Hle ltac:(done)). lia.
Qed.

(** A report changes the conditions only through the node's row. *)
Lemma holds_reported canaryID at_ f d now version row s :
  holds (reported canaryID at_ f d) now version row s = holds d now version row s.
Proof.
  assert (test_failed (reported canaryID at_ f d) now row = test_failed d now row) as Ht; [|by destruct s].
  unfold test_failed, test_state. rewrite !exec_pbind.
  destruct (selftest_reads (h_id row) (h_kind row) (selftests d)) as [st Hst].
  set (d' := reported canaryID at_ f d).
  assert (exec (applySelfTestState (h_id row) (h_kind row)) (selftests d') = (selftests d', Ok st)) as Hst' by exact Hst.
  rewrite !exec_read_table by (done || (by intros []) || by rewrite ?Hst, ?Hst'). rewrite Hst, Hst'.
  cbn [or_stop snd]. destruct (negb _); [done|]. rewrite !exec_pbind.
  destruct (scan_reads (h_id row) (SelfTest.testFailed st) (LastSelfTestAt st) now (scans d)) as [x Hx].
  assert (exec (applyScanRunState (h_id row) (SelfTest.testFailed st) (LastSelfTestAt st) now) (scans d') = (scans d', Some x)) as Hx' by exact Hx.
  rewrite !exec_read_table by (done || (by intros []) || by rewrite ?Hx, ?Hx'). by rewrite Hx, Hx'.
Qed.

Lemma beating_reported row now at_ (f : canary_row -> canary_row) :
  h_interval (f (set_last at_ row)) = h_interval row -> h_last (f (set_last at_ row)) = Some at_ ->
  0 <= h_interval row < 2 ^ 31 ->
  beating (f (set_last at_ row)) now = bool_decide (at_ <= now <= at_ + 3 * h_interval row * GoTime.Second).
Proof.
  intros Hi Hl Hr. unfold beating, silence_threshold, silenceThresholdMultiple. rewrite Hi, Hl.
  rewrite (wrap_i_small 64 (3 * _)), wrap_i_small by (unfold in_i, GoTime.Second; lia). unfold time_sub, GoTime.Second in *.
  apply eq_true_iff_eq. rewrite andb_true_iff, negb_true_iff, Z.ltb_ge, bool_decide_eq_true. repeat case_match; go_bools; lia.
Qed.

(** *** What each state means, independently of the signals *)

Definition seconds (n : Z) : Z := n * GoTime.Second.

Definition used_live (c : ClientCert) : Prop := c_revoked c = None /\ c_used c ≠ None.

(** The certificate in use, of a node's certificates in the order they were
    recorded: the newest that is used and not revoked, or, before any is, the
    newest not revoked. *)
Definition in_use (l : list ClientCert) (c : ClientCert) : Prop :=
  exists a b, l = a ++ c :: b /\
    (used_live c /\ (forall x, x ∈ b -> ~ used_live x) \/
     (forall x, x ∈ l -> ~ used_live x) /\ c_revoked c = None /\ forall x, x ∈ b -> c_revoked x ≠ None).

(** When a renewal is late: a tenth of the lifetime, a quarter of an hour at
    most, after its half. *)
Definition late_from (c : ClientCert) : Z :=
  let lifetime := time_sub (c_not_after c) (c_not_before c) in
  c_not_before c + Z.quot lifetime 2 + Z.min (Z.quot lifetime 10) (seconds 900).

(** The last test to end, the first of several at once, was failed; and, for a
    scanner, no good scan has come in after it. *)
Definition test_stands (d : health_db) (row : canary_row) : Prop :=
  let ended := filter (fun r => run_agent r = h_id row /\ run_completed r ≠ None) (runs (selftests d)) in
  exists i run t, ended !! i = Some run /\ run_completed run = Some t /\ run_passed run = Some false /\
    (forall j r u, ended !! j = Some r -> run_completed r = Some u -> u <= t /\ ((j < i)%nat -> u < t)) /\
    (h_kind row = Commands.Scanner -> forall s, s ∈ snapshots (scans d) -> snCanaryID s = h_id row -> StatusOK s = true ->
       ScanRun.ReceivedAt s <= t).

(** An audit entry about the node since a time, at the database's resolution. *)
Definition audited (d : health_db) (id : bytes) (actions : list bytes) (since : Z) : Prop :=
  exists e, e ∈ audits_of d /\ Action e ∈ actions /\ AuditTarget e = id /\ instant since <= instant (EntryAt e).

Definition condition (d : health_db) (now : Z) (version : bytes) (row : canary_row) (s : HealthState) : Prop :=
  let id := h_id row in
  match s with
  | StateTokenConflict => audited d id [lit "ingest.token_conflict"; lit "ingest.cert_conflict"] (now - seconds 86400)
  | StateCredentialConflict =>
      exists x y at_, (h_dual_addrs row = Some (x, y, at_) \/ h_dual_versions row = Some (x, y, at_)) /\
        time_sub now at_ < seconds 120
  | StateSilent =>
      forall t, h_last row = Some t -> now < t \/ wrap_i 64 (wrap_i 64 (3 * h_interval row) * GoTime.Second) < time_sub now t
  | StateNotDelivering =>
      h_log_ok row = Some false \/ exists c, in_use (agent_certs id (creds d)) c /\ c_not_after c <= now
  | StateOpenCanaryDown => h_opencanary row = Some false
  | StateHitsMerged => exists n, h_collisions row = Some n /\ 0 < n
  | StateTestFailed => test_stands d row
  | StateDBStale => exists t, h_failing_since row = Some t /\ seconds 86400 < time_sub now t
  | StateThrottled => audited d id [lit "ingest.rate_limited"] (now - seconds 300)
  | StateRotationStalled =>
      let own := select_agent id (tokens (creds d)) in
      (exists t, newest (fun _ => True) own t /\ 1 < zlen own /\ LastUsedAt t = None /\
         seconds 900 <= time_sub now (CreatedAt t)) \/
      (exists t, newest (fun t => LastUsedAt t ≠ None) own t /\ seconds 90000 <= time_sub now (CreatedAt t))
  | StateRenewalStalled =>
      exists c, in_use (agent_certs id (creds d)) c /\ now < c_not_after c /\ late_from c <= now
  | StateUpgradeInProgress =>
      exists r until, r ∈ upgrade_tokens (upgrades d) /\ Upgrade.r_agent r = id /\ Upgrade.r_used r ≠ None /\
        Upgrade.r_window r = Some until /\ now < until
  | StateAgentOutOfDate => agentBehindBirdcage (default [] (h_version row)) version = true
  | StatePending => h_registered row = None
  | StateOK => False
  end.

(** The last a condition selects. *)
Lemma last_filter_split {A} (P : A -> Prop) `{forall x, Decision (P x)} l x :
  last (filter P l) = Some x <-> exists a b, l = a ++ x :: b /\ P x /\ forall y, y ∈ b -> ~ P y.
Proof.
  induction l as [|z l IH] using rev_ind.
  { split; [done|]. intros (a & b & Hl & _). by destruct a. }
  rewrite filter_app, filter_cons, filter_nil. destruct (decide (P z)) as [Hz|Hz].
  - rewrite last_snoc. split.
    + intros [= ->]. exists l, []. split; [done|]. split; [done|]. by intros y ?%elem_of_nil.
    + intros (a & b & Hl & _ & Hb). destruct b as [|y b _] using rev_ind; [by apply app_inj_tail in Hl as [_ ->]|].
      rewrite app_comm_cons, app_assoc in Hl. apply app_inj_tail in Hl as [_ ->]. destruct (Hb y); [|done].
      apply elem_of_app. right. by left.
  - rewrite app_nil_r, IH. split.
    + intros (a & b & -> & Hx & Hb). exists a, (b ++ [z]). split; [by rewrite <- app_assoc|]. split; [done|].
      intros y [Hy| ->%list_elem_of_singleton]%elem_of_app; [by apply Hb|done].
    + intros (a & b & Hl & Hx & Hb). destruct b as [|y b _] using rev_ind; [by apply app_inj_tail in Hl as [_ ->]|].
      rewrite app_comm_cons, app_assoc in Hl. apply app_inj_tail in Hl as [-> ->]. exists a, b. split; [done|]. split; [done|].
      intros w Hw. apply Hb, elem_of_app. by left.
Qed.

Lemma current_in_use l c : current_cert l = Some c <-> in_use l c.
Proof.
  assert (forall x, Live x && bool_decide (c_used x ≠ None) = true <-> used_live x) as Hu
    by (intros x; unfold used_live, Live; by rewrite andb_true_iff, !bool_decide_eq_true).
  assert (forall x, Live x = true <-> c_revoked x = None) as Hlive by (intros x; unfold Live; by rewrite bool_decide_eq_true).
  unfold current_cert, in_use, newest_live. destruct (last (filter _ l)) as [u|] eqn:Hlast.
  - pose proof Hlast as Hs. apply last_filter_split in Hs as (a & b & Hl & Hc%Hu & Hb). split.
    + intros [= ->]. exists a, b. split; [done|]. left. split; [done|]. intros x Hx ?%Hu. by apply (Hb x).
    + intros (a' & b' & Hl' & [[Hc' Hb']|[Hno _]]).
      * enough (last (filter (fun x => Live x && bool_decide (c_used x ≠ None) = true) l) = Some c) as Hc2 by congruence.
        apply last_filter_split. exists a', b'. split; [done|]. split; [by apply Hu|]. intros x Hx ?%Hu. by apply (Hb' x).
      * destruct (Hno u); [|done]. rewrite Hl. apply elem_of_app. right. by left.
  - assert (forall x, x ∈ l -> ~ used_live x) as Hno.
    { intros x Hx Hux%Hu. apply last_None in Hlast. assert (x ∈ filter (fun x => Live x && bool_decide (c_used x ≠ None) = true) l) as Hin
        by (by apply list_elem_of_filter). rewrite Hlast in Hin. by apply elem_of_nil in Hin. }
    rewrite last_filter_split. split.
    + intros (a & b & Hl & Hc%Hlive & Hb). exists a, b. split; [done|]. right. split; [done|]. split; [done|].
      intros x Hx ?%Hlive. by apply (Hb x).
    + intros (a & b & Hl & [[Hc _]|(_ & Hc & Hb)]).
      * destruct (Hno c); [|done]. rewrite Hl. apply elem_of_app. right. by left.
      * exists a, b. split; [done|]. split; [by apply Hlive|]. intros x Hx ?%Hlive. by apply (Hb x).
Qed.

Lemma certificate_expired l now : (certificateSignal l now).2 = true <-> exists c, in_use l c /\ c_not_after c <= now.
Proof.
  unfold certificateSignal. setoid_rewrite <- current_in_use. destruct (current_cert l) as [c|].
  - destruct (Z.ltb_spec now (c_not_after c)); cbn [negb snd]; [case_match|]; (split; [|intros (? & [= <-] & ?)]); try done; try lia.
    intros _. by exists c.
  - split; [done|]. by intros (? & ? & _).
Qed.

Lemma renewal_late l now :
  (certificateSignal l now).1 ≠ None <-> exists c, in_use l c /\ now < c_not_after c /\ late_from c <= now.
Proof.
  unfold certificateSignal. setoid_rewrite <- current_in_use. destruct (current_cert l) as [c|].
  2: { split; [done|]. by intros (? & ? & _). }
  assert (renewal_due c = late_from c) as Hdue.
  { unfold renewal_due, late_from, renewalStalledMargin. cbv zeta. change (seconds 900) with (15 * 60 * GoTime.Second).
    destruct (Z.ltb_spec (Z.quot (time_sub (c_not_after c) (c_not_before c)) 10) (15 * 60 * GoTime.Second)); lia. }
  rewrite Hdue. clear Hdue. destruct (Z.ltb_spec now (c_not_after c)); cbn [negb fst].
  - destruct (Z.ltb_spec now (late_from c)); cbn [fst]; (split; [|intros (? & [= <-] & ?)]); try done; try lia.
    intros _. by exists c.
  - split; [done|]. intros (? & [= <-] & ?). lia.
Qed.

Lemma existsb_audits (actions : list bytes) id cutoff d :
  entered actions id cutoff d = true <-> audited d id actions cutoff.
Proof.
  unfold entered, audited. rewrite existsb_exists. setoid_rewrite existsb_exists. setoid_rewrite <- list_elem_of_In. split.
  - intros (e & He & a & Ha & Hm). unfold matching in Hm. rewrite !andb_true_iff, !bool_decide_eq_true, Z.leb_le in Hm.
    destruct Hm as [[<- <-] Hm]. by exists e.
  - intros (e & He & Ha & <- & Hc). exists e. split; [done|]. exists (Action e). split; [done|].
    unfold matching. by rewrite !bool_decide_eq_true_2, (proj2 (Z.leb_le _ _) Hc) by done.
Qed.

Lemma later_first l : forall run, foldl later None l = Some run <->
  exists i, l !! i = Some run /\ forall j r, l !! j = Some r ->
    default 0 (run_completed r) <= default 0 (run_completed run) /\
    ((j < i)%nat -> default 0 (run_completed r) < default 0 (run_completed run)).
Proof.
  assert (foldl later None l = None -> l = []) as Hnone.
  { destruct l as [|x l _] using rev_ind; [done|]. rewrite foldl_snoc. unfold later at 1. destruct (foldl _ _ _); [|done].
    by destruct (_ <? _). }
  assert (forall run, foldl later None l = Some run -> exists i, l !! i = Some run /\ forall j r, l !! j = Some r ->
    default 0 (run_completed r) <= default 0 (run_completed run) /\
    ((j < i)%nat -> default 0 (run_completed r) < default 0 (run_completed run))) as Hsome.
  { clear Hnone. induction l as [|x l IH] using rev_ind; [done|]. intros run. rewrite foldl_snoc. unfold later at 1.
    destruct (foldl later None l) as [b|] eqn:Hb.
    - destruct (IH b eq_refl) as (i & Hi & Hall). destruct (Z.ltb_spec (default 0 (run_completed b)) (default 0 (run_completed x))) as [Hlt|Hge].
      + intros [= <-]. exists (length l). split; [by apply list_lookup_middle|]. intros j r Hj.
        apply lookup_app_Some in Hj as [Hj|[Hj [? <-]%list_lookup_singleton_Some]]; [|lia]. destruct (Hall j r Hj). lia.
      + intros [= <-]. exists i. split; [by apply lookup_app_l_Some|]. intros j r Hj. pose proof (lookup_lt_Some _ _ _ Hi).
        apply lookup_app_Some in Hj as [Hj|[Hj [? <-]%list_lookup_singleton_Some]]; [by apply Hall|lia].
    - intros [= <-]. assert (l = []) as ->.
      { destruct l as [|y l _] using rev_ind; [done|]. exfalso. rewrite foldl_snoc in Hb. unfold later at 1 in Hb.
        destruct (foldl _ _ _); [|done]. by destruct (_ <? _). }
      exists 0%nat. split; [done|]. intros j r [? <-]%list_lookup_singleton_Some. lia. }
  intros run. split; [apply Hsome|]. intros (i & Hi & Hall). destruct (foldl later None l) as [b|] eqn:Hb.
  - destruct (Hsome b eq_refl) as (k & Hk & Hmax). destruct (Hall k b Hk) as [H1 H2], (Hmax i run Hi) as [H3 H4].
    destruct (Nat.lt_trichotomy i k) as [?|[<-|?]]; [lia|congruence|lia].
  - rewrite (Hnone eq_refl) in Hi. done.
Qed.

(** What the last test was, in the state read. *)
Lemma selftest_last id kind s :
  exists st, exec (applySelfTestState id kind) s = (s, Ok st) /\
    (SelfTest.testFailed st = true <-> exists run, foldl later None (completed_runs id s) = Some run /\ run_passed run = Some false) /\
    (forall run, foldl later None (completed_runs id s) = Some run -> LastSelfTestAt st = run_completed run).
Proof.
  unfold applySelfTestState, LatestCompletedSelfTestRun. cbn [pbind exec query].
  destruct (foldl later None (completed_runs id s)) as [run|].
  2: { eexists. split; [reflexivity|]. split; [|done]. split; [done|]. by intros (? & ? & _). }
  case_bool_decide as Hp; [|case_bool_decide]; (eexists; split; [reflexivity|]; split; [|by intros ? [= <-]]).
  - split; [done|]. by intros (? & [= <-] & ?).
  - split; [|done]. intros _. exists run. split; [done|]. by destruct (run_passed run) as [[]|]; try done; destruct Hp.
  - split; [|done]. intros _. exists run. split; [done|]. by destruct (run_passed run) as [[]|]; try done; destruct Hp.
Qed.

Lemma later_time_max l : match foldl later_time None l with Some t => t ∈ l /\ forall u, u ∈ l -> u <= t | None => l = [] end.
Proof.
  induction l as [|x l IH] using rev_ind; [done|]. rewrite foldl_snoc. unfold later_time at 1.
  destruct (foldl later_time None l) as [t|].
  - destruct IH as [Hin Hall]. destruct (Z.ltb_spec t x).
    + split; [apply elem_of_app; right; by left|]. intros u [Hu| ->%list_elem_of_singleton]%elem_of_app; [|lia]. specialize (Hall u Hu). lia.
    + split; [apply elem_of_app; by left|]. by intros u [Hu| ->%list_elem_of_singleton]%elem_of_app; [apply Hall|].
  - rewrite IH. split; [by left|]. by intros u ->%list_elem_of_singleton.
Qed.

Lemma test_failed_stands d now row : test_failed d now row = true <-> test_stands d row.
Proof.
  destruct (selftest_last (h_id row) (h_kind row) (selftests d)) as (st & Hst & Hfail & Hlast).
  assert (test_failed d now row = true <-> SelfTest.testFailed st = true /\ (h_kind row = Commands.Scanner ->
    forall t s, LastSelfTestAt st = Some t -> s ∈ snapshots (scans d) -> snCanaryID s = h_id row -> StatusOK s = true -> ScanRun.ReceivedAt s <= t)) as ->.
  { unfold test_failed, test_state. rewrite exec_pbind, exec_read_table by (done || (by intros []) || by rewrite Hst). rewrite Hst.
    cbn [or_stop snd]. case_bool_decide as Hk; cbn [negb exec snd]; [|tauto].
    destruct (scan_reads (h_id row) (SelfTest.testFailed st) (LastSelfTestAt st) now (scans d)) as [x Hx].
    rewrite exec_pbind, exec_read_table by (done || (by intros []) || by rewrite Hx). rewrite Hx. cbn [snd exec].
    revert Hx. unfold applyScanRunState. cbn [exec query]. destruct (SelfTest.testFailed st); [|intros [= <-]; cbn; split; [done|]; by intros [? _]].
    destruct (LastSelfTestAt st) as [t|]; [|intros [= <-]; cbn; done]. cbn [exec query].
    pose proof (later_time_max (ok_times (h_id row) (scans d))) as Hmax. unfold latestOKSnapshotReceivedAt.
    assert (forall s, s ∈ snapshots (scans d) /\ snCanaryID s = h_id row /\ StatusOK s = true ->
      ScanRun.ReceivedAt s ∈ ok_times (h_id row) (scans d)) as Hin.
    { intros s (? & ? & ?). apply list_elem_of_fmap. exists s. split; [done|]. by apply list_elem_of_filter. }
    destruct (foldl later_time None (ok_times (h_id row) (scans d))) as [u|] eqn:Hu; intros [= <-]; cbn.
    - destruct Hmax as [Hmem Hall]. rewrite negb_true_iff, Z.ltb_ge. split.
      + intros Hle. split; [done|]. intros _ t' s [= <-] ???. specialize (Hall _ (Hin s ltac:(done))). lia.
      + intros [_ Hno]. apply list_elem_of_fmap in Hmem as (s & -> & [[? ?] ?]%list_elem_of_filter). by apply (Hno Hk t s).
    - split; [|done]. intros _. split; [done|]. intros _ t' s _ ???. specialize (Hin s ltac:(done)). rewrite Hmax in Hin. by apply elem_of_nil in Hin. }
  rewrite Hfail. unfold test_stands. fold (completed_runs (h_id row) (selftests d)).
  assert (forall r, r ∈ completed_runs (h_id row) (selftests d) -> exists u, run_completed r = Some u) as Hdone
    by (intros r [[_ Hr] _]%list_elem_of_filter; destruct (run_completed r); [by eexists|done]).
  setoid_rewrite later_first. split.
  - intros [(run & (i & Hi & Hall) & Hp) Hno]. destruct (Hdone run) as [t Ht]; [by eapply list_elem_of_lookup_2|].
    assert (LastSelfTestAt st = Some t) as Hst' by (rewrite <- Ht; apply Hlast, later_first; by exists i).
    exists i, run, t. split_and!; [done..| |].
    + intros j r u Hj Hr. specialize (Hall j r Hj). by rewrite Hr, Ht in Hall.
    + intros Hk s. by apply Hno.
  - intros (i & run & t & Hi & Ht & Hp & Hall & Hno).
    assert (foldl later None (completed_runs (h_id row) (selftests d)) = Some run) as Hrun.
    { apply later_first. exists i. split; [done|]. intros j r Hj. destruct (Hdone r) as [u Hr]; [by eapply list_elem_of_lookup_2|].
      rewrite Ht, Hr. by apply (Hall j r u). }
    split; [exists run; split; [by apply later_first|done]|]. intros Hk t' s Hst'. rewrite (Hlast run Hrun), Ht in Hst'. injection Hst' as <-.
    by apply Hno.
Qed.

Lemma window_stands id now (u : up_db) :
  existsb (fun _ => true) (upgradeWindows id now u) = true <->
  exists r until, r ∈ upgrade_tokens u /\ Upgrade.r_agent r = id /\ Upgrade.r_used r ≠ None /\ Upgrade.r_window r = Some until /\ now < until.
Proof.
  rewrite existsb_exists. setoid_rewrite <- list_elem_of_In. unfold upgradeWindows. setoid_rewrite list_elem_of_omap. split.
  - intros (w & (r & Hr & Hw) & _). destruct (Upgrade.r_used r) eqn:Hu; [|done]. destruct (Upgrade.r_window r) as [until|] eqn:Hu'; [|done].
    destruct (_ && _) eqn:E; [|done]. apply andb_true_iff in E as [Ha%bool_decide_eq_true Hn%Z.ltb_lt]. exists r, until. by rewrite Hu.
  - intros (r & until & Hr & Ha & Hu & Hw & Hn). exists (Upgrade.r_from r, Upgrade.r_to r, until). split; [|done]. exists r. split; [done|].
    destruct (Upgrade.r_used r); [|done]. by rewrite Hw, bool_decide_eq_true_2, (proj2 (Z.ltb_lt _ _) Hn).
Qed.

Lemma recent_pair now p :
  recentPair p now ≠ None <-> exists x y at_, p = Some (x, y, at_) /\ time_sub now at_ < seconds 120.
Proof.
  unfold recentPair. destruct p as [[[x y] at_]|]; [|split; [done|]; by intros (? & ? & ? & ? & _)].
  change credentialConflictWindow with (seconds 120). destruct (Z.leb_spec (seconds 120) (time_sub now at_)).
  - split; [done|]. intros (? & ? & ? & [= <- <- <-] & ?). lia.
  - split; [|done]. intros _. by eexists _, _, _.
Qed.

Lemma not_beating row now :
  beating row now = false <->
  forall t, h_last row = Some t -> now < t \/ wrap_i 64 (wrap_i 64 (3 * h_interval row) * GoTime.Second) < time_sub now t.
Proof.
  unfold beating. destruct (h_last row) as [t|]; [|done]. change (silence_threshold (h_interval row)) with
    (wrap_i 64 (wrap_i 64 (3 * h_interval row) * GoTime.Second)).
  rewrite andb_false_iff, negb_false_iff, Z.ltb_lt, Z.leb_gt. split; [by intros ? ? [= <-]|]. intros Hall. by apply Hall.
Qed.

(** Each condition is what the state means. *)
Lemma holds_condition d now version row s :
  (s = StateRotationStalled -> NoDup (CreatedAt <$> select_agent (h_id row) (tokens (creds d)))) ->
  holds d now version row s = true <-> condition d now version row s.
Proof.
  intros Hnd. destruct s; cbn [holds condition].
  - apply existsb_audits.
  - rewrite orb_true_iff, !bool_decide_eq_true, !recent_pair. split.
    + by intros [(x & y & t & ? & ?)|(x & y & t & ? & ?)]; exists x, y, t; auto.
    + intros (x & y & t & [?|?] & ?); [left|right]; by exists x, y, t.
  - rewrite negb_true_iff. apply not_beating.
  - unfold notDelivering. by rewrite orb_true_iff, bool_decide_eq_true, <- certificate_expired.
  - unfold openCanaryDown. by rewrite bool_decide_eq_true.
  - destruct (h_collisions row) as [n|]; [rewrite Z.ltb_lt; split; [by exists n|by intros (? & [= <-] & ?)]|].
    split; [done|]. by intros (? & ? & _).
  - apply test_failed_stands.
  - destruct (h_failing_since row) as [t|]; [rewrite Z.ltb_lt; split; [by exists t|by intros (? & [= <-] & ?)]|].
    split; [done|]. by intros (? & ? & _).
  - apply existsb_audits.
  - rewrite bool_decide_eq_true. by apply rotation_stalled, Hnd.
  - rewrite bool_decide_eq_true. apply renewal_late.
  - apply window_stands.
  - done.
  - by rewrite bool_decide_eq_true.
  - done.
Qed.

(** C6. Listing the nodes changes nothing and gives one tile per node. A tile
    is in exactly the states whose condition holds of the tables, each stated
    on its own beside the signals the code computes, and whatever the order
    they were folded in: each state once and the worst first, the tile's status
    the worst of them or ok; and it counts the node's real alerts in the window.
    For a stalled rotation no two tokens of the node may have been made at one
    instant, among which the sort picks any as the newest; the conditions are
    the stored values', the comparison of versions that of the code. *)
Theorem health_states_exact d now rangeWindow version :
  exists cs, exec (ListCanaries now rangeWindow version) d = (d, Ok cs) /\ Permutation (Row <$> cs) (rows d) /\
    forall c, c ∈ cs ->
      ActiveStates c `sublist_of` worst_first /\ Status c = default StateOK (head (ActiveStates c)) /\
      Hits c = hits_of d now rangeWindow (h_id (Row c)) /\
      forall s, (s = StateRotationStalled -> NoDup (CreatedAt <$> select_agent (h_id (Row c)) (tokens (creds d)))) ->
        s ∈ ActiveStates c <-> condition d now version (Row c) s.
Proof.
  destruct (ListCanaries_exec d now rangeWindow version) as (cs & He & Hp & Hall). exists cs. split_and!; [done..|].
  intros c Hc. rewrite Forall_forall in Hall. destruct (Hall c Hc) as [Ht Hh]. split; [|split; [|split; [done|]]].
  - destruct Ht as [-> _]. apply sublist_filter.
  - destruct Ht as [-> ->]. done.
  - intros s Hs. rewrite (in_active _ _ _ _ _ Ht). by apply holds_condition.
Qed.

(** C7. What a node reports is what its tile shows: after a heartbeat the
    node is silent only before the beat or once three intervals have passed
    since; it is not delivering, its honeypot down, its hits merged or its agent
    out of date exactly as the report says, an expired certificate apart; every
    other condition and every other tile is as it was, and of the stored
    heartbeats the node keeps a day's, and none older by the resolution the
    database compares times at. A beat of an unknown node is refused and changes
    nothing. *)
Theorem heartbeats_are_shown d canaryID at_ now rangeWindow version report :
  NoDup (h_id <$> rows d) ->
  (canaryID ∉ h_id <$> rows d ->
   exec (RecordCanaryAgentHeartbeat canaryID at_ report) d = (d, Err ErrCanaryNotFound)) /\
  (forall row, row ∈ rows d -> h_id row = canaryID -> 0 <= h_interval row < 2 ^ 31 ->
   exists d' cs c, exec (RecordCanaryAgentHeartbeat canaryID at_ report) d = (d', Ok tt) /\
     exec (ListCanaries now rangeWindow version) d' = (d', Ok cs) /\ c ∈ cs /\ h_id (Row c) = canaryID /\
     (StateSilent ∈ ActiveStates c <-> now < at_ \/ at_ + 3 * h_interval row * GoTime.Second < now) /\
     (StateNotDelivering ∈ ActiveStates c <-> LogReadOK report = false \/ (certificate_of d now row).2 = true) /\
     (StateOpenCanaryDown ∈ ActiveStates c <-> OpenCanaryUp report = Some false) /\
     (StateHitsMerged ∈ ActiveStates c <-> exists n, EventIDCollisions report = Some n /\ 0 < n) /\
     (StateAgentOutOfDate ∈ ActiveStates c <-> agentBehindBirdcage (AgentVersion report) version = true) /\
     (forall s, s ∈ [StateTokenConflict; StateCredentialConflict; StateTestFailed; StateDBStale; StateThrottled;
                     StateRotationStalled; StateRenewalStalled; StateUpgradeInProgress; StatePending] ->
        s ∈ ActiveStates c <-> holds d now version row s = true) /\
     (forall c', c' ∈ cs -> h_id (Row c') ≠ canaryID -> Row c' ∈ rows d /\ tile d now version c') /\
     (forall h, h ∈ heartbeats d' <->
        (h ∈ heartbeats d \/ h = (canaryID, at_)) /\
        (h.1 = canaryID -> instant (at_ - heartbeatRetention) <= instant h.2)) /\
     (forall h, h ∈ heartbeats d' -> h.1 = canaryID -> at_ - heartbeatRetention - resolution < h.2) /\
     (forall h, h ∈ heartbeats d \/ h = (canaryID, at_) -> at_ - heartbeatRetention <= h.2 -> h ∈ heartbeats d')).
Proof.
  intros Hnd. unfold RecordCanaryAgentHeartbeat. rewrite heartbeat_exec. split; [intros Hno; by rewrite decide_False|].
  intros row Hrow Hid Hint. rewrite decide_True by (apply list_elem_of_fmap; by exists row).
  set (f := set_report report). destruct (ListCanaries_exec (reported canaryID at_ f d) now rangeWindow version) as (cs & He & Hp & [Ht _]%Forall_and).
  rewrite Forall_forall in Ht.
  assert (f (set_last at_ row) ∈ Row <$> cs) as (c & Hr & Hc)%list_elem_of_fmap.
  { rewrite Hp. apply list_elem_of_fmap. exists row. by rewrite bool_decide_eq_true_2. }
  exists (reported canaryID at_ f d), cs, c. pose proof (fun s => in_active _ _ _ _ s (Ht c Hc)) as Hin.
  rewrite <- Hr in Hin. setoid_rewrite holds_reported in Hin.
  assert (forall h, h ∈ heartbeats (reported canaryID at_ f d) <-> (h ∈ heartbeats d \/ h = (canaryID, at_)) /\
    (h.1 = canaryID -> instant (at_ - heartbeatRetention) <= instant h.2)) as Hkept by apply reported_kept.
  split_and!; [done..|by rewrite <- Hr| | | | | | | | | |].
  - rewrite Hin. cbn [holds]. rewrite (beating_reported row now at_ f) by done. rewrite negb_true_iff, bool_decide_eq_false. lia.
  - rewrite Hin. cbn [holds]. rewrite orb_true_iff. unfold notDelivering. rewrite bool_decide_eq_true. cbn. intuition congruence.
  - rewrite Hin. cbn [holds]. unfold openCanaryDown. by rewrite bool_decide_eq_true.
  - rewrite Hin. cbn. destruct (EventIDCollisions report) as [n|].
    + rewrite Z.ltb_lt. split; [eauto|]. by intros (m & [= ->] & ?).
    + split; [done|]. by intros (m & ? & ?).
  - rewrite Hin. done.
  - intros s Hs. rewrite Hin.
    repeat (apply elem_of_cons in Hs as [->|Hs]; [done|]). by apply elem_of_nil in Hs.
  - intros c' Hc' Hne. assert (Row c' ∈ Row <$> cs) as Hrc by (apply list_elem_of_fmap; by exists c').
    rewrite Hp in Hrc. apply list_elem_of_fmap in Hrc as (r & Hr' & Hrin). destruct (bool_decide (h_id r = canaryID)) eqn:E.
    + apply bool_decide_eq_true in E. rewrite Hr' in Hne. by destruct Hne.
    + rewrite Hr'. split; [done|]. unfold tile. eapply shows_ext; [|apply (Ht c' Hc')]. intros s _. apply holds_reported.
  - exact Hkept.
  - intros h [_ Hold]%Hkept Hh. specialize (Hold Hh). apply instant_le in Hold. lia.
  - intros h Hin' Hold. apply Hkept. split; [done|]. intros _. by apply instant_mono.
Qed.
End health.

(** ** Executions *)

Definition older (a b : CanaryToken) : Prop := CreatedAt a <= CreatedAt b.

#[export] Instance older_dec a b : Decision (older a b).
Proof. apply Z_le_dec. Defined.

#[local] Instance older_total : Total older.
Proof. intros a b. unfold older. lia. Qed.

#[local] Instance older_trans : Transitive older.
Proof. intros a b c. unfold older. lia. Qed.

#[local] Instance ex_sort : TokenSort := {|
  sort_tokens := merge_sort older;
  sort_tokens_perm := merge_sort_Permutation older;
  sort_tokens_sorted := StronglySorted_merge_sort older;
|}.

(** SQLite's milliseconds. *)
#[local] Instance ex_julian : Engine.
Proof.
  refine {| instant := fun t => (t + 500000) / 1000000; resolution := 1000000 |}.
  - intros a b Hab. Z.to_euclidean_division_equations. lia.
  - intros a b Hab. apply Z.div_le_mono; lia.
Defined.

Definition ex_row (id : bytes) (last : option Z) : canary_row :=
  mkCanaryRow id (lit "opencanary") 60 0 last (Some 0) None None None None None None None None None None None None None None.

Definition ex_token (id : bytes) (created : Z) (used : option Z) : Tokens.token_row :=
  Tokens.mkRow id (lit "c1") id created used None None.

Definition ex_health : health_db :=
  mkHealthDB [ex_row (lit "c1") None; ex_row (lit "c2") (Some 5)] []
    (mkCred [ex_token (lit "t1") 10 (Some 20); ex_token (lit "t2") 30 None]
       [mkCert 1 (lit "c2") [] (lit "f1") 0 600000000000 (Some 1) None; mkCert 2 (lit "c2") [] (lit "f2") 0 (2 ^ 60) None None] [] [] [] [])
    (mkStore [] [] [] [] [] []) (mkScanDB [] [] [] [] []) (mkUp ∅ []).

(** A stalled rotation, and a certificate in use that has expired while its
    successor waits. *)
Lemma health_states_exact_witness :
  exists cs c1 c2, exec (ListCanaries (30 + rotationStalledThreshold) 100 (lit "v1.0.0")) ex_health = (ex_health, Ok cs) /\
    c1 ∈ cs /\ h_id (Row c1) = lit "c1" /\ ActiveStates c1 = [StateSilent; StateRotationStalled] /\
    StateRotationStalled ∈ ActiveStates c1 /\
    c2 ∈ cs /\ h_id (Row c2) = lit "c2" /\ StateNotDelivering ∈ ActiveStates c2.
Proof.
  destruct (health_states_exact ex_health (30 + rotationStalledThreshold) 100 (lit "v1.0.0")) as (cs & He & _ & Hall).
  vm_compute in He. injection He as <-. eexists _, _, _. split; [reflexivity|]. split; [left|].
  split; [reflexivity|]. split; [reflexivity|]. split; [|split; [right; left|split; [reflexivity|]]].
  - apply Hall; [left|intros _; apply (bool_decide_unpack _); vm_compute; exact I|].
    left. exists (scanCanaryToken (ex_token (lit "t2") 30 None)). split; [split; [right; left|split; [exact I|]]|].
    + intros u [->|[->|Hu]%elem_of_cons]%elem_of_cons _; [vm_compute; discriminate..|by apply elem_of_nil in Hu].
    + split; [reflexivity|]. split; [reflexivity|]. vm_compute. discriminate.
  - apply Hall; [right; left|discriminate|]. right. exists (mkCert 1 (lit "c2") [] (lit "f1") 0 600000000000 (Some 1) None). split.
    + exists [], [mkCert 2 (lit "c2") [] (lit "f2") 0 (2 ^ 60) None None]. split; [vm_compute; reflexivity|]. left. split; [split; [reflexivity|discriminate]|].
      by intros x ->%list_elem_of_singleton [_ []].
    + vm_compute. discriminate.
Defined.

Lemma heartbeats_are_shown_witness :
  exists d' cs c,
    exec (RecordCanaryAgentHeartbeat (lit "c1") 1000 (mkHeartbeat 0 false [] (lit "v1.0.0") None None (Some 2) None [] (Some true)))
      ex_health = (d', Ok tt) /\
    exec (ListCanaries 2000 500 (lit "v1.0.0")) d' = (d', Ok cs) /\ c ∈ cs /\
    ~ StateSilent ∈ ActiveStates c /\ StateNotDelivering ∈ ActiveStates c /\ StateHitsMerged ∈ ActiveStates c.
Proof.
  destruct (heartbeats_are_shown ex_health (lit "c1") 1000 2000 500 (lit "v1.0.0")
    (mkHeartbeat 0 false [] (lit "v1.0.0") None None (Some 2) None [] (Some true))) as [_ Hrec];
    [apply (bool_decide_unpack _); vm_compute; exact I|].
  destruct (Hrec (ex_row (lit "c1") None)) as (d' & cs & c & He & Hl & Hc & _ & Hs & Hn & _ & Hm & _);
    [left|reflexivity|cbn; lia|].
  exists d', cs, c. split; [exact He|]. split; [exact Hl|]. split; [exact Hc|]. split.
  - intros Hin. apply Hs in Hin. cbn in Hin. unfold GoTime.Second in Hin. lia.
  - split; [apply Hn; left; reflexivity|apply Hm; exists 2; split; [reflexivity|lia]].
Defined.
