(* ===== verification/ServerSettings.v ===== *)
(** The server's settings ([internal/store/settings.go]): a closed set of keys,
    each with its validation and its default, in one key-value table.

    The patterns of [regexp] are written as the tests they make on bytes; a
    time's text form is a class, [RFC3339Nano] as [time] formats and parses it
    between the years 1 and 9999. *)
From S2P Require Import Prelude GoBase GoStrings Sql.
#[local] Open Scope Z_scope.

(** ** Times as text *)

(** The nanoseconds from the year 1 to the year 10000. *)
Definition max_time : Z := 3652059 * 24 * 3600 * 1000000000.

Definition text_time (t : Z) : Prop := 0 < t < max_time.

Class TimeText : Type := {
  FormatTime : Z -> bytes;
  ParseTime : bytes -> option Z;
  ParseTime_Format t : text_time t -> ParseTime (FormatTime t) = Some t;
  ParseTime_empty : ParseTime [] = None;
}.

(** ** Keys *)

Definition SettingSelfTestEnabled : bytes := lit "selftest_enabled".
Definition SettingSelfTestSchedule : bytes := lit "selftest_schedule".
Definition SettingSelfTestUseRotationSchedule : bytes := lit "selftest_use_rotation_schedule".
Definition SettingRotationSchedule : bytes := lit "rotation_schedule".
Definition SettingAdminApprovalAddress : bytes := lit "admin_approval_address".
Definition SettingAdminApprovalSigningDomain : bytes := lit "admin_approval_signing_domain".
Definition SettingReleaseAddress : bytes := lit "release_address".
Definition SettingHistoryLastTick : bytes := lit "history_last_tick".

Definition orderedSettingKeys : list bytes :=
  [SettingSelfTestEnabled; SettingSelfTestSchedule; SettingSelfTestUseRotationSchedule; SettingRotationSchedule;
   SettingAdminApprovalAddress; SettingAdminApprovalSigningDomain; SettingReleaseAddress; SettingHistoryLastTick].

(** ** Validation *)

Definition validateSettingBool (value : bytes) : bool :=
  bool_decide (value = lit "true") || bool_decide (value = lit "false").

(** [scheduleTimePattern] *)
Definition validateSettingScheduleTime (value : bytes) : bool :=
  match value with
  | [h1; h2; colon; m1; m2] =>
      (((h1 =? 48) || (h1 =? 49)) && is_digit h2 || (h1 =? 50) && (48 <=? h2) && (h2 <=? 51)) &&
      (colon =? 58) && (48 <=? m1) && (m1 <=? 53) && is_digit m2
  | _ => false
  end.

(** [controlCharPattern] *)
Definition control_char (c : Z) : bool := (c <=? 31) || (c =? 127).

Definition validateSettingAddress `{Unicode} (value : bytes) : bool :=
  negb (bool_decide (TrimSpace value = [])) && negb (existsb control_char value).

(** [hostnamePattern]: at least two labels of up to 63 letters, digits and
    inner hyphens. *)
Definition alphanumeric (c : Z) : bool := is_lower c || is_upper c || is_digit c.

Definition hostname_label (l : bytes) : bool :=
  match l, last l with
  | first :: _, Some final =>
      alphanumeric first && alphanumeric final && forallb (fun c => alphanumeric c || (c =? 45)) l && (zlen l <=? 63)
  | _, _ => false
  end.

Definition hostname (value : bytes) : bool :=
  let labels := Split value 46 in
  (2 <=? zlen labels) && forallb hostname_label labels.

Definition validateSettingSigningDomain (value : bytes) : bool :=
  if bool_decide (value = []) then true else
  (zlen value <=? 253) && hostname value.

Definition validateSettingTimestamp `{TimeText} (value : bytes) : bool := bool_decide (ParseTime value ≠ None).

Definition settingDefs `{Unicode} `{TimeText} : list (bytes * ((bytes -> bool) * bytes)) :=
  [(SettingSelfTestEnabled, (validateSettingBool, lit "true"));
   (SettingSelfTestSchedule, (validateSettingScheduleTime, lit "00:00"));
   (SettingSelfTestUseRotationSchedule, (validateSettingBool, lit "true"));
   (SettingRotationSchedule, (validateSettingScheduleTime, lit "00:00"));
   (SettingAdminApprovalAddress, (validateSettingAddress, []));
   (SettingAdminApprovalSigningDomain, (validateSettingSigningDomain, []));
   (SettingReleaseAddress, (validateSettingAddress, []));
   (SettingHistoryLastTick, (validateSettingTimestamp, []))].

Definition setting_def `{Unicode} `{TimeText} (key : bytes) : option ((bytes -> bool) * bytes) :=
  snd <$> find (fun d => bool_decide (d.1 = key)) settingDefs.

(** ** The table *)

(** A key's value and when it was set. *)
Abbreviation settings_db := (gmap bytes (bytes * Z)).

Inductive setting_error : Type :=
| ErrSettingUnknown
| ErrSettingInvalidValue
| ErrZeroUpdatedAt
| ErrSettingStore.

Section settings.
Context `{Unicode} `{TimeText}.

Definition GetSetting (key : bytes) : prog settings_db (res setting_error bytes) :=
  match setting_def key with
  | None => Ret (Err ErrSettingUnknown)
  | Some (_, defaultValue) =>
      Stmt (query (fun d : settings_db => d !! key)) (fun r =>
      Ret (match r with
           | None => Err ErrSettingStore
           | Some None => Ok defaultValue
           | Some (Some (value, _)) => Ok value
           end))
  end.

(** The upsert. *)
Definition upsert (key value : bytes) (updatedAt : Z) (d : settings_db) : option (settings_db * unit) :=
  Some (<[key := (value, updatedAt)]> d, tt).

Definition SetSetting (key value : bytes) (updatedAt : Z) : prog settings_db (res setting_error unit) :=
  match setting_def key with
  | None => Ret (Err ErrSettingUnknown)
  | Some (validate, _) =>
      if negb (validate value) then Ret (Err ErrSettingInvalidValue) else
      if updatedAt =? 0 then Ret (Err ErrZeroUpdatedAt) else
      Stmt (upsert key value updatedAt) (fun r =>
      Ret (match r with None => Err ErrSettingStore | Some _ => Ok tt end))
  end.

(** ** What is stored is valid *)

Definition setting_ok (key : bytes) (v : bytes * Z) : Prop :=
  exists validate defaultValue, setting_def key = Some (validate, defaultValue) /\ validate v.1 = true.

Definition settings_ok (d : settings_db) : Prop := map_Forall setting_ok d.

Lemma set_ok key value at_ d d' :
  settings_ok d -> upsert key value at_ d = Some (d', tt) -> setting_ok key (value, at_) -> settings_ok d'.
Proof. intros Hd [= <-] Hk. by apply map_Forall_insert_2. Qed.

Lemma get_exec key d validate defaultValue :
  setting_def key = Some (validate, defaultValue) ->
  exec (GetSetting key) d = (d, Ok (match d !! key with Some v => v.1 | None => defaultValue end)).
Proof. intros Hk. unfold GetSetting. rewrite Hk. cbn [exec query]. by destruct (d !! key) as [[v a]|]. Qed.

Lemma set_exec key value at_ d validate defaultValue :
  setting_def key = Some (validate, defaultValue) -> validate value = true -> at_ ≠ 0 ->
  exec (SetSetting key value at_) d = (<[key := (value, at_)]> d, Ok tt).
Proof.
  intros Hk Hv Ha. unfold SetSetting. rewrite Hk, Hv. cbn [negb]. by rewrite (proj2 (Z.eqb_neq _ _) Ha).
Qed.
End settings.
