(* ===== verification/History.v ===== *)
(** The history of health states ([internal/store/history.go] and
    [internal/history/history.go]): the spans a node spent in each state, kept
    by a recorder that reconciles them every half minute with what
    [ListCanaries] derives, and their summary over a window.

    The recorder's alert about a token conflict ([internal/mail]) is a
    parameter: what it does to the outbox, or that it fails. *)
From S2P Require Import Prelude GoBase GoStrings GoTime Sql SelfTest Settings ClientCerts Health ServerSettings.
#[local] Open Scope Z_scope.

Definition collapseWindow : Z := 10 * 60 * GoTime.Second.
Definition unobservedAfter : Z := 90 * GoTime.Second.

(** ** Data *)

Definition StateUnobserved : bytes := lit "unobserved".

Definition EndReasonCleared : bytes := lit "cleared".
Definition EndReasonQuietPeriod : bytes := lit "quiet_period".
Definition EndReasonUnobserved : bytes := lit "unobserved".
Definition endReasons : list bytes := [EndReasonCleared; EndReasonQuietPeriod; EndReasonUnobserved].

Record StatePeriod : Type := mkPeriod {
  p_id : Z;
  p_canary : bytes;
  p_state : bytes;
  p_started : Z;
  p_ended : option Z;
  p_flap : Z;
  p_reason : option bytes;
}.

(** [spanKey] *)
Definition key (p : StatePeriod) : bytes * bytes := (p_canary p, p_state p).

(** [M] is the outbox of the alerts. *)
Record hist_db (M : Type) : Type := mkHist {
  health : health_db;
  periods : list StatePeriod;
  next_period : Z;
  settings : settings_db;
  outbox : M;
}.
Arguments mkHist {M}.
Arguments health {M}.
Arguments periods {M}.
Arguments next_period {M}.
Arguments settings {M}.
Arguments outbox {M}.

Inductive history_error : Type :=
| ErrHistoryStore
| ErrPeriodInvalid
| ErrLastTick
| ErrConflictHook.

Definition put_health {M : Type} (h : health_db) (d : hist_db M) : hist_db M :=
  mkHist h (periods d) (next_period d) (settings d) (outbox d).
Definition put_periods {M : Type} (p : list StatePeriod) (d : hist_db M) : hist_db M :=
  mkHist (health d) p (next_period d) (settings d) (outbox d).
Definition put_settings {M : Type} (s : settings_db) (d : hist_db M) : hist_db M :=
  mkHist (health d) (periods d) (next_period d) s (outbox d).
Definition put_outbox {M : Type} (m : M) (d : hist_db M) : hist_db M :=
  mkHist (health d) (periods d) (next_period d) (settings d) m.

Definition is_open (p : StatePeriod) : Prop := p_ended p = None.

#[export] Instance is_open_dec p : Decision (is_open p).
Proof. unfold is_open. apply _. Defined.

Section history.
Context {TS : TokenSort} {EN : Engine} {UN : Unicode} {TT : TimeText} {M : Type}.

(** [TokenConflictHook]; [None] is the nil hook, a failing one answers with
    [None]. *)
Context (onTokenConflict : option (canary_row -> Z -> M -> option M)) (birdcageVersion : bytes).

Abbreviation hist_prog A := (prog (hist_db M) (res history_error A)).

(** A statement or call that answered with an error ends the operation. *)
Definition stmt {R A : Type} (f : hist_db M -> option (hist_db M * R)) (k : R -> hist_prog A) : hist_prog A :=
  Stmt f (fun r => match r with None => Ret (Err ErrHistoryStore) | Some x => k x end).

Definition call {A B : Type} (p : hist_prog A) (k : A -> hist_prog B) : hist_prog B :=
  pbind p (fun r => match r with Err e => Ret (Err e) | Ok a => k a end).

(** ** Spans *)

Definition OpenStatePeriods : hist_prog (list StatePeriod) :=
  stmt (query (fun d => filter is_open (periods d))) (fun l => Ret (Ok l)).

(** The row with the generated id. *)
Definition insert_period (p : StatePeriod) (d : hist_db M) : option (hist_db M * unit) :=
  Some (mkHist (health d)
          (periods d ++ [mkPeriod (next_period d) (p_canary p) (p_state p) (p_started p) (p_ended p)
                           (if p_flap p <=? 0 then 1 else p_flap p) (p_reason p)])
          (next_period d + 1) (settings d) (outbox d), tt).

Definition OpenStatePeriod (p : StatePeriod) : hist_prog unit :=
  if p_started p =? 0 then Ret (Err ErrPeriodInvalid) else
  if match p_reason p with Some r => negb (bool_decide (r ∈ endReasons)) | None => false end then Ret (Err ErrPeriodInvalid) else
  if negb (Bool.eqb (bool_decide (p_ended p = None)) (bool_decide (p_reason p = None))) then Ret (Err ErrPeriodInvalid) else
  stmt (insert_period p) (fun _ => Ret (Ok tt)).

(** [UPDATE agent_state_periods SET ... WHERE id] *)
Definition update_period (id : Z) (f : StatePeriod -> StatePeriod) (d : hist_db M) : option (hist_db M * unit) :=
  Some (put_periods ((fun p => if p_id p =? id then f p else p) <$> periods d) d, tt).

Definition set_end (ended : option Z) (reason : option bytes) (flap : Z) (p : StatePeriod) : StatePeriod :=
  mkPeriod (p_id p) (p_canary p) (p_state p) (p_started p) ended flap reason.

(** [SET ended_at, end_reason WHERE ended_at IS NULL] *)
Definition close_period (endedAt : Z) (reason : bytes) (p : StatePeriod) : StatePeriod :=
  if bool_decide (is_open p) then set_end (Some endedAt) (Some reason) (p_flap p) p else p.

Definition CloseStatePeriod (id endedAt : Z) (reason : bytes) : hist_prog unit :=
  if negb (bool_decide (reason ∈ endReasons)) then Ret (Err ErrPeriodInvalid) else
  if endedAt =? 0 then Ret (Err ErrPeriodInvalid) else
  stmt (update_period id (close_period endedAt reason)) (fun _ => Ret (Ok tt)).

Definition reopen_period (p : StatePeriod) : StatePeriod := set_end None None (p_flap p + 1) p.

Definition ReopenStatePeriod (id : Z) : hist_prog unit :=
  stmt (update_period id reopen_period) (fun _ => Ret (Ok tt)).

(** The [WHERE] of the lookup, and the latest end among its rows, the first of
    several. *)
Definition closed_since (k : bytes * bytes) (notBefore : Z) (p : StatePeriod) : Prop :=
  key p = k /\ match p_ended p with Some e => instant notBefore <= instant e | None => False end.

#[export] Instance closed_since_dec k notBefore p : Decision (closed_since k notBefore p).
Proof. unfold closed_since. apply and_dec; [apply _|]. destruct (p_ended p); apply _. Defined.

Definition later_end (latest : option StatePeriod) (p : StatePeriod) : option StatePeriod :=
  match latest with
  | None => Some p
  | Some l => if default 0 (p_ended l) <? default 0 (p_ended p) then Some p else latest
  end.

Definition latest_closed (k : bytes * bytes) (notBefore : Z) (l : list StatePeriod) : option StatePeriod :=
  foldl later_end None (filter (closed_since k notBefore) l).

Definition LatestClosedStatePeriod (canaryID state : bytes) (notBefore : Z) : hist_prog (option StatePeriod) :=
  stmt (query (fun d => latest_closed (canaryID, state) notBefore (periods d))) (fun l => Ret (Ok l)).

(** ** The recorder *)

Definition open_or_collapse (c : Canary) (state : bytes) (now : Z) : hist_prog unit :=
  call (LatestClosedStatePeriod (h_id (Row c)) state (now - collapseWindow)) (fun recent =>
  match recent with
  | Some p => ReopenStatePeriod (p_id p)
  | None => OpenStatePeriod (mkPeriod 0 (h_id (Row c)) state now None 0 None)
  end).

(** The hook, on the same transaction. *)
Definition run_hook (c : Canary) (now : Z) : hist_prog unit :=
  match onTokenConflict with
  | None => Ret (Ok tt)
  | Some hook =>
      Stmt (fun d => match hook (Row c) now (outbox d) with Some m => Some (put_outbox m d, tt) | None => None end)
        (fun r => Ret (match r with None => Err ErrConflictHook | Some _ => Ok tt end))
  end.

Definition openOrCollapse (c : Canary) (state : HealthState) (now : Z) : hist_prog unit :=
  call (open_or_collapse c (state_name state) now) (fun _ =>
  if bool_decide (state = StateTokenConflict) then run_hook c now else Ret (Ok tt)).

(** The nested loops over the nodes and their states, as one. *)
Definition active_pairs (canaries : list Canary) : list (Canary * HealthState) :=
  c ← canaries; (c,.) <$> ActiveStates c.

Definition pair_key (x : Canary * HealthState) : bytes * bytes := (h_id (Row x.1), state_name x.2).

Fixpoint open_new (l : list (Canary * HealthState)) (already : list (bytes * bytes)) (now : Z) : hist_prog unit :=
  match l with
  | [] => Ret (Ok tt)
  | x :: l =>
      if bool_decide (pair_key x ∈ already) then open_new l already now
      else call (openOrCollapse x.1 x.2 now) (fun _ => open_new l already now)
  end.

Definition end_reason (state : bytes) : bytes :=
  if bool_decide (state = state_name StateTokenConflict) then EndReasonQuietPeriod else EndReasonCleared.

Fixpoint close_stopped (l : list StatePeriod) (active : list (bytes * bytes)) (now : Z) : hist_prog unit :=
  match l with
  | [] => Ret (Ok tt)
  | p :: l =>
      if bool_decide (key p ∈ active) then close_stopped l active now
      else call (CloseStatePeriod (p_id p) now (end_reason (p_state p))) (fun _ => close_stopped l active now)
  end.

Definition reconcile (canaries : list Canary) (now : Z) : hist_prog unit :=
  call OpenStatePeriods (fun open =>
  let active := active_pairs canaries in
  call (open_new active (key <$> open) now) (fun _ =>
  close_stopped open (pair_key <$> active) now)).

Definition activeStates (now : Z) : hist_prog (list Canary) :=
  pbind (on_table health put_health (ListCanaries now 0 birdcageVersion)) (fun r =>
  Ret (match r with Err _ => Err ErrHistoryStore | Ok cs => Ok cs end)).

Definition setting_call {A B : Type} (p : prog settings_db (res setting_error A)) (k : A -> hist_prog B) : hist_prog B :=
  pbind (on_table settings put_settings p) (fun r =>
  match r with Err _ => Ret (Err ErrHistoryStore) | Ok a => k a end).

(** The transaction of [Tick]. *)
Definition tick_body (canaries : list Canary) (now : Z) : hist_prog unit :=
  call (reconcile canaries now) (fun _ =>
  setting_call (SetSetting SettingHistoryLastTick (FormatTime now) now) (fun _ => Ret (Ok tt))).

Definition Tick (now : Z) : hist_prog unit :=
  call (activeStates now) (fun canaries => in_transaction ErrHistoryStore (tick_body canaries now)).

Fixpoint close_all (l : list StatePeriod) (lastTick : Z) : hist_prog unit :=
  match l with
  | [] => Ret (Ok tt)
  | p :: l => call (CloseStatePeriod (p_id p) lastTick EndReasonUnobserved) (fun _ => close_all l lastTick)
  end.

Fixpoint mark_unobserved (l : list Canary) (lastTick now : Z) : hist_prog unit :=
  match l with
  | [] => Ret (Ok tt)
  | c :: l =>
      call (OpenStatePeriod (mkPeriod 0 (h_id (Row c)) StateUnobserved lastTick (Some now) 0 (Some EndReasonUnobserved)))
        (fun _ => mark_unobserved l lastTick now)
  end.

(** The transaction of [recordUnobserved]. *)
Definition unobserved_body (canaries : list Canary) (lastTick now : Z) : hist_prog unit :=
  call OpenStatePeriods (fun open =>
  call (close_all open lastTick) (fun _ => mark_unobserved canaries lastTick now)).

Definition recordUnobserved (lastTick now : Z) : hist_prog unit :=
  call (activeStates now) (fun canaries => in_transaction ErrHistoryStore (unobserved_body canaries lastTick now)).

Definition Start (now : Z) : hist_prog unit :=
  setting_call (GetSetting SettingHistoryLastTick) (fun raw =>
  if bool_decide (raw = []) then Tick now else
  match ParseTime raw with
  | None => Ret (Err ErrLastTick)
  | Some lastTick =>
      if unobservedAfter <? time_sub now lastTick
      then call (recordUnobserved lastTick now) (fun _ => Tick now)
      else Tick now
  end).

(** ** Reading the history *)

(** [COALESCE(c.name, '')] of the join with the nodes. *)
Definition node_name (id : bytes) (h : health_db) : bytes :=
  match find (fun n => bool_decide (n_id n = id)) (nodes (creds h)) with Some n => n_name n | None => [] end.

Definition overlaps (since until : Z) (canaryID : bytes) (p : StatePeriod) : Prop :=
  instant (p_started p) <= instant until /\
  match p_ended p with Some e => instant since <= instant e | None => True end /\
  (canaryID = [] \/ p_canary p = canaryID).

#[export] Instance overlaps_dec since until canaryID p : Decision (overlaps since until canaryID p).
Proof. unfold overlaps. apply and_dec; [apply _|]. apply and_dec; [|apply _]. destruct (p_ended p); apply _. Defined.

(** By name, then start, then id; a period comes with its node's name. *)
Definition period_le (a b : bytes * StatePeriod) : Prop :=
  if decide (a.1 = b.1) then p_started a.2 < p_started b.2 \/ p_started a.2 = p_started b.2 /\ p_id a.2 <= p_id b.2
  else Settings.str_le a.1 b.1.

#[export] Instance period_le_dec a b : Decision (period_le a b).
Proof. unfold period_le. case_decide; apply _. Defined.

Definition ListStatePeriods (since until : Z) (canaryID : bytes) : hist_prog (list (bytes * StatePeriod)) :=
  stmt (query (fun d =>
    merge_sort period_le ((fun p => (node_name (p_canary p) (health d), p)) <$> filter (overlaps since until canaryID) (periods d))))
    (fun l => Ret (Ok l)).
End history.

Record StateSummary : Type := mkSummary {
  s_canary : bytes;
  s_name : bytes;
  s_state : bytes;
  s_count : Z;
  s_longest : Z;
  s_total : Z;
}.

Definition sum_key (s : StateSummary) : bytes * bytes := (s_canary s, s_state s).

(** The seconds of a span inside the window. *)
Definition clipped (since until : Z) (p : StatePeriod) : Z :=
  let start := Z.max since (p_started p) in
  let end_ := match p_ended p with Some e => Z.min e until | None => until end in
  if start <? end_ then Seconds (time_sub end_ start) else 0.

Definition add_span (seconds : Z) (s : StateSummary) : StateSummary :=
  mkSummary (s_canary s) (s_name s) (s_state s) (i64 (s_count s + 1))
    (if s_longest s <? seconds then seconds else s_longest s) (i64 (s_total s + seconds)).

(** The totals, in the order their keys were first met. *)
Definition add_total (since until : Z) (totals : list StateSummary) (x : bytes * StatePeriod) : list StateSummary :=
  let k := key x.2 in
  let totals := if bool_decide (k ∈ sum_key <$> totals) then totals
                else totals ++ [mkSummary (p_canary x.2) x.1 (p_state x.2) 0 0 0] in
  (fun s => if bool_decide (sum_key s = k) then add_span (clipped since until x.2) s else s) <$> totals.

Definition all_states : list HealthState := worst_first ++ [StateOK].

(** [stateSortRank] *)
Definition stateSortRank (state : bytes) : Z :=
  match find (fun s => bool_decide (state_name s = state)) all_states with
  | Some s => healthStateRank s
  | None => zlen all_states
  end.

Definition summary_le (a b : StateSummary) : Prop :=
  if decide (s_name a = s_name b) then
    if decide (s_canary a = s_canary b) then stateSortRank (s_state a) <= stateSortRank (s_state b)
    else Settings.str_le (s_canary a) (s_canary b)
  else Settings.str_le (s_name a) (s_name b).

#[export] Instance summary_le_dec a b : Decision (summary_le a b).
Proof. unfold summary_le. repeat case_decide; apply _. Defined.

Definition SummarizeStatePeriods (periods : list (bytes * StatePeriod)) (since until : Z) : list StateSummary :=
  merge_sort summary_le (foldl (add_total since until) [] periods).

(** ** Spans and what becomes of them *)

Definition covers (p : StatePeriod) (s : Z) : Prop :=
  p_started p <= s /\ match p_ended p with Some e => s <= e | None => True end.

(** One span ended, and the other started, more than the collapse window
    apart. *)
Definition apart (p q : StatePeriod) : Prop := exists e, p_ended p = Some e /\ e + collapseWindow < p_started q.

Definition span_ok (t B : Z) (p : StatePeriod) : Prop :=
  p_started p <= t /\
  match p_ended p with
  | Some e => p_started p <= e <= t /\ (p_state p ≠ StateUnobserved -> e <= B) /\ exists r, p_reason p = Some r /\ r ∈ endReasons
  | None => p_started p <= B /\ p_reason p = None /\ p_state p ≠ StateUnobserved
  end.

Lemma span_ok_mono t B t' B' p : t <= t' -> B <= B' -> span_ok t B p -> span_ok t' B' p.
Proof.
  intros Ht HB [H1 H2]. split; [lia|]. destruct (p_ended p); destruct H2 as (? & Hb & ?); (split; [lia|]); [|done].
  split; [|done]. intros Hst. specialize (Hb Hst). lia.
Qed.

(** At time [t]; no span of an observed state reaches past [B]. *)
Record spans_ok (t B : Z) (ps : list StatePeriod) (next : Z) : Prop := {
  so_ids : NoDup (p_id <$> ps);
  so_fresh : Forall (fun p => p_id p < next) ps;
  so_each : Forall (span_ok t B) ps;
  so_apart p q : p ∈ ps -> q ∈ ps -> p_id p ≠ p_id q -> key p = key q -> p_state p ≠ StateUnobserved -> apart p q \/ apart q p;
}.

Definition same_span (p q : StatePeriod) : Prop := p_id q = p_id p /\ key q = key p /\ p_started q = p_started p.

(** What the spans covered up to [L] they still cover. *)
Definition spans_le (L : Z) (ps ps' : list StatePeriod) : Prop :=
  forall p, p ∈ ps -> exists p', p' ∈ ps' /\ same_span p p' /\ forall s, s <= L -> covers p s -> covers p' s.

Lemma spans_le_refl L ps : spans_le L ps ps.
Proof. intros p Hp. by exists p. Qed.

Lemma spans_le_trans L L' ps ps' ps'' : L <= L' -> spans_le L ps ps' -> spans_le L' ps' ps'' -> spans_le L ps ps''.
Proof.
  intros HL H1 H2 p Hp. destruct (H1 p Hp) as (q & Hq & (I1 & K1 & S1) & C1). destruct (H2 q Hq) as (r & Hr & (I2 & K2 & S2) & C2).
  exists r. split; [done|]. split; [unfold same_span; by rewrite I2, K2, S2|]. intros s Hs Hc. apply C2; [lia|]. by apply C1.
Qed.

Definition open_keys (ps : list StatePeriod) : list (bytes * bytes) := key <$> filter is_open ps.

Lemma elem_of_open_keys k ps : k ∈ open_keys ps <-> exists p, p ∈ ps /\ is_open p /\ key p = k.
Proof.
  unfold open_keys. rewrite list_elem_of_fmap. split.
  - intros (p & -> & [Ho Hp]%list_elem_of_filter). eauto.
  - intros (p & Hp & Ho & <-). exists p. split; [done|]. by apply list_elem_of_filter.
Qed.

Section spans.
Context {EN : Engine} (now B : Z) (ps : list StatePeriod) (next : Z) (Hok : spans_ok now B ps next).

Lemma span_in p : p ∈ ps -> span_ok now B p.
Proof. intros Hp. pose proof (so_each _ _ _ _ Hok) as Hall. rewrite Forall_forall in Hall. by apply Hall. Qed.

Lemma same_row p q : p ∈ ps -> q ∈ ps -> p_id p = p_id q -> p = q.
Proof. intros. eapply (NoDup_fmap_in p_id); [apply Hok|done..]. Qed.

(** At most one open span per key. *)
Lemma open_unique p q : p ∈ ps -> q ∈ ps -> is_open p -> is_open q -> key p = key q -> p = q.
Proof.
  intros Hp Hq Op Oq Hk. apply same_row; [done..|]. destruct (decide (p_id p = p_id q)) as [|Hne]; [done|]. exfalso.
  destruct (span_in p Hp) as [_ Hs]. rewrite Op in Hs.
  destruct (so_apart _ _ _ _ Hok p q Hp Hq Hne Hk) as [(e & He & _)|(e & He & _)]; [tauto|congruence|congruence].
Qed.

(** Changing the rows of one id keeps the rows and their ids. *)
Lemma update_ids id f : (forall p, same_span p (f p)) -> p_id <$> ((fun p => if p_id p =? id then f p else p) <$> ps) = p_id <$> ps.
Proof.
  intros Hf. rewrite <- list_fmap_compose. apply list_fmap_ext. intros _ p _. unfold compose.
  destruct (p_id p =? id); [|done]. by destruct (Hf p) as [-> _].
Qed.

(** One row is closed or reopened. *)
Lemma update_ok p0 f B' :
  p0 ∈ ps -> (forall p, same_span p (f p)) -> B <= B' -> span_ok now B' (f p0) ->
  (forall q, q ∈ ps -> p_id q ≠ p_id p0 -> key q = key p0 -> p_state p0 ≠ StateUnobserved -> apart q p0 \/ apart (f p0) q) ->
  spans_ok now B' ((fun p => if p_id p =? p_id p0 then f p else p) <$> ps) next.
Proof.
  intros Hin Hf HB Hs Hap. destruct (Hf p0) as (I0 & K0 & S0).
  assert (forall p', p' ∈ (fun p => if p_id p =? p_id p0 then f p else p) <$> ps ->
            p' = f p0 \/ (p' ∈ ps /\ p_id p' ≠ p_id p0)) as Hin'.
  { intros p' (p & -> & Hp)%list_elem_of_fmap. destruct (Z.eqb_spec (p_id p) (p_id p0)) as [E|E]; [left|by right].
    by rewrite (same_row p p0). }
  split.
  - rewrite update_ids by done. apply Hok.
  - apply Forall_forall. intros p' [->|[Hp _]]%Hin'.
    + rewrite I0. pose proof (so_fresh _ _ _ _ Hok) as Hall. rewrite Forall_forall in Hall. by apply Hall.
    + pose proof (so_fresh _ _ _ _ Hok) as Hall. rewrite Forall_forall in Hall. by apply Hall.
  - apply Forall_forall. intros p' [->|[Hp _]]%Hin'; [done|]. destruct (span_in p' Hp) as [H1 H2]. split; [done|].
    destruct (p_ended p'); destruct H2 as (? & Hb & ?); (split; [lia|]); [|done]. split; [|done]. intros Hst. specialize (Hb Hst). lia.
  - intros p q Hp Hq Hne Hk Hst. apply Hin' in Hp as [->|[Hp Np]], Hq as [->|[Hq Nq]].
    + done.
    + assert (p_state p0 ≠ StateUnobserved) as Hst0 by (injection K0 as _ E; congruence).
      destruct (Hap q Hq Nq) as [H|H]; [congruence|done|right|by left].
      destruct H as (e & He & Hlt). exists e. by rewrite S0.
    + assert (p_state p0 ≠ StateUnobserved) as Hst0 by (injection K0 as _ E; injection Hk as _ E'; congruence).
      destruct (Hap p Hp Np) as [H|H]; [congruence|done|left|by right].
      destruct H as (e & He & Hlt). exists e. by rewrite S0.
    + apply (so_apart _ _ _ _ Hok); done.
Qed.

Lemma update_le p0 f L :
  p0 ∈ ps -> (forall p, same_span p (f p)) -> (forall s, s <= L -> covers p0 s -> covers (f p0) s) ->
  spans_le L ps ((fun p => if p_id p =? p_id p0 then f p else p) <$> ps).
Proof.
  intros Hin Hf Hc p Hp. destruct (Z.eqb_spec (p_id p) (p_id p0)) as [E|E].
  - assert (p = p0) as -> by (by apply same_row). exists (f p0). split; [|split; [apply Hf|done]].
    apply list_elem_of_fmap. exists p0. by rewrite Z.eqb_refl.
  - exists p. split; [|split; [done|auto]]. apply list_elem_of_fmap. exists p. by rewrite (proj2 (Z.eqb_neq _ _) E).
Qed.

(** *** Closing *)

Lemma close_same e r p : same_span p (close_period e r p).
Proof. unfold close_period. by case_bool_decide. Qed.

Lemma close_ok p0 e r B' :
  p0 ∈ ps -> p_started p0 <= e <= now -> e <= B' -> r ∈ endReasons -> B <= B' ->
  spans_ok now B' ((fun p => if p_id p =? p_id p0 then close_period e r p else p) <$> ps) next.
Proof.
  intros Hin He HeB Hr HB. apply update_ok; [done|apply close_same|done| |].
  - destruct (span_in p0 Hin) as [H1 H2]. unfold close_period. case_bool_decide as Ho; unfold is_open in Ho.
    + split; [done|]. simpl. split; [done|]. split; [done|]. by exists r.
    + eapply span_ok_mono; [reflexivity|exact HB|by apply span_in].
  - intros q Hq Hne Hk Hst. destruct (so_apart _ _ _ _ Hok q p0 Hq Hin Hne Hk) as [H|H].
    + injection Hk as _ ->. done.
    + by left.
    + right. unfold close_period. rewrite bool_decide_eq_false_2; [done|]. destruct H as (x & Hx & _). unfold is_open. congruence.
Qed.

Lemma close_le p0 e r L : p0 ∈ ps -> L <= e ->
  spans_le L ps ((fun p => if p_id p =? p_id p0 then close_period e r p else p) <$> ps).
Proof.
  intros Hin HL. apply update_le; [done|apply close_same|]. intros s Hs [H1 H2]. unfold close_period.
  case_bool_decide as Ho; [|done]. split; simpl; [done|lia].
Qed.

Lemma close_open p0 e r p : p0 ∈ ps ->
  p ∈ (fun p => if p_id p =? p_id p0 then close_period e r p else p) <$> ps /\ is_open p <->
  p ∈ ps /\ is_open p /\ p_id p ≠ p_id p0.
Proof.
  intros Hin. rewrite list_elem_of_fmap. split.
  - intros [(q & -> & Hq) Ho]. destruct (Z.eqb_spec (p_id q) (p_id p0)) as [E|E]; [|done].
    exfalso. unfold close_period in Ho. case_bool_decide; done.
  - intros (Hp & Ho & Hne). split; [|done]. exists p. by rewrite (proj2 (Z.eqb_neq _ _) Hne).
Qed.

(** *** Reopening *)

Lemma later_end_in l : forall o, match foldl later_end o l with
  | Some p => (o = Some p \/ p ∈ l) /\ (forall q, q ∈ l \/ o = Some q -> default 0 (p_ended q) <= default 0 (p_ended p))
  | None => o = None /\ l = []
  end.
Proof.
  induction l as [|a l IH]; intros o; cbn [foldl].
  { destruct o as [p|]; [|done]. split; [auto|]. intros q [Hq|[= ->]]; [by apply elem_of_nil in Hq|lia]. }
  specialize (IH (later_end o a)). destruct (foldl later_end (later_end o a) l) as [p|].
  - destruct IH as [H1 H2]. assert (later_end o a = Some a \/ (exists b, o = Some b /\ later_end o a = Some b /\
      default 0 (p_ended a) <= default 0 (p_ended b))) as Ha.
    { unfold later_end. destruct o as [b|]; [|auto]. destruct (_ <? _) eqn:E; [auto|]. right. exists b. split_and!; try done. lia. }
    split.
    + destruct H1 as [H1|H1]; [|right; by right]. destruct Ha as [Ha|(b & -> & Ha & _)]; rewrite Ha in H1; [injection H1 as <-; right; left|auto].
    + intros q [Hq|Hq].
      * apply elem_of_cons in Hq as [->|Hq]; [|by apply H2; left]. destruct Ha as [Ha|(b & -> & Ha & Hle)]; [by apply H2; right|].
        specialize (H2 b (or_intror Ha)). lia.
      * subst o. clear Ha H1. unfold later_end in H2. destruct (default 0 (p_ended q) <? default 0 (p_ended a)) eqn:E;
          [|by apply H2; right]. specialize (H2 a (or_intror eq_refl)). lia.
  - destruct IH as [H1 _]. by destruct o as [b|]; [unfold later_end in H1; destruct (_ <? _)|].
Qed.

Lemma latest_closed_some k notBefore p : latest_closed k notBefore ps = Some p ->
  p ∈ ps /\ key p = k /\ exists e, p_ended p = Some e /\ instant notBefore <= instant e /\
    forall q f, q ∈ ps -> key q = k -> p_ended q = Some f -> f <= e.
Proof.
  unfold latest_closed. intros Hl. pose proof (later_end_in (filter (closed_since k notBefore) ps) None) as H. rewrite Hl in H.
  destruct H as [[?|[[Hk He] Hp]%list_elem_of_filter] Hmax]; [done|]. split; [done|]. split; [done|].
  destruct (p_ended p) as [e|] eqn:Hpe; [exists e|done]. split; [done|]. split; [done|]. intros q f Hq Hkq Hf.
  apply Z.nlt_ge. intros Hlt. assert (q ∈ filter (closed_since k notBefore) ps) as Hin.
  { apply list_elem_of_filter. split; [|done]. split; [done|]. rewrite Hf. etransitivity; [exact He|]. apply instant_mono. lia. }
  specialize (Hmax q (or_introl Hin)). rewrite Hf in Hmax. simpl in Hmax. lia.
Qed.

Lemma latest_closed_none k notBefore p e : latest_closed k notBefore ps = None -> p ∈ ps -> key p = k -> p_ended p = Some e ->
  instant e < instant notBefore.
Proof.
  unfold latest_closed. intros Hl Hp Hk He. pose proof (later_end_in (filter (closed_since k notBefore) ps) None) as H. rewrite Hl in H.
  destruct H as [_ H]. destruct (decide (instant e < instant notBefore)) as [|Hge]; [done|]. exfalso.
  assert (p ∈ filter (closed_since k notBefore) ps) as Hin.
  { apply list_elem_of_filter. split; [|done]. split; [done|]. rewrite He. lia. }
  rewrite H in Hin. by apply elem_of_nil in Hin.
Qed.

Lemma reopen_same p : same_span p (reopen_period p).
Proof. done. Qed.

Lemma reopen_ok k p0 :
  latest_closed k (now - collapseWindow) ps = Some p0 -> k.2 ≠ StateUnobserved -> (forall q, q ∈ ps -> key q = k -> ~ is_open q) ->
  B <= now -> spans_ok now now ((fun p => if p_id p =? p_id p0 then reopen_period p else p) <$> ps) next.
Proof.
  intros Hl Hst Hno HB. apply latest_closed_some in Hl as (Hin & Hk & e & He & Hle & Hmax).
  assert (p_state p0 ≠ StateUnobserved) as Hst0 by (rewrite <- Hk in Hst; done).
  apply update_ok; [done|apply reopen_same|done| |].
  - destruct (span_in p0 Hin) as [H1 H2]. split; [done|]. simpl. done.
  - intros q Hq Hne Hkq _. destruct (so_apart _ _ _ _ Hok q p0 Hq Hin Hne Hkq) as [H|(e' & He' & Hlt)]; [|by left|].
    { injection Hkq as _ ->. done. }
    exfalso. rewrite He in He'. injection He' as <-. destruct (span_in q Hq) as [H1 H2].
    assert (key q = k) as Hkq' by congruence. destruct (p_ended q) as [f|] eqn:Hf; [|by apply (Hno q)].
    specialize (Hmax q f Hq Hkq' Hf). unfold collapseWindow, GoTime.Second in Hlt. lia.
Qed.

Lemma reopen_le p0 L : p0 ∈ ps -> spans_le L ps ((fun p => if p_id p =? p_id p0 then reopen_period p else p) <$> ps).
Proof. intros Hin. apply update_le; [done|apply reopen_same|]. by intros s _ [H1 _]. Qed.

(** *** A new row *)

Lemma insert_ok p B' :
  p_id p = next -> span_ok now B' p -> B <= B' ->
  (forall q, q ∈ ps -> key q = key p -> p_state p ≠ StateUnobserved -> apart q p) -> spans_ok now B' (ps ++ [p]) (next + 1).
Proof.
  intros Hid Hp HB Hap. pose proof (so_fresh _ _ _ _ Hok) as Hfr. rewrite Forall_forall in Hfr. split.
  - apply NoDup_fmap_snoc; [apply Hok|]. intros q Hq. specialize (Hfr q Hq). lia.
  - apply Forall_app. split; [|repeat constructor; lia]. apply Forall_forall. intros q Hq. specialize (Hfr q Hq). lia.
  - apply Forall_app. split; [|by constructor]. apply Forall_forall. intros q Hq. eapply span_ok_mono; [reflexivity|exact HB|by apply span_in].
  - intros a b [Ha|Ha%list_elem_of_singleton]%elem_of_app [Hb|Hb%list_elem_of_singleton]%elem_of_app Hne Hk Hst; subst.
    + by apply (so_apart _ _ _ _ Hok).
    + left. apply Hap; [done|done|]. injection Hk as _ <-. done.
    + right. by apply Hap.
    + done.
Qed.

Lemma insert_le p L : spans_le L ps (ps ++ [p]).
Proof. intros q Hq. exists q. split; [apply elem_of_app; by left|]. done. Qed.
End spans.

(** ** The recorder's transactions *)

Lemma state_name_inj a b : state_name a = state_name b -> a = b.
Proof. intros Hab. destruct a, b; try reflexivity; exfalso; revert Hab; apply (bool_decide_unpack _); vm_compute; exact I. Qed.

Lemma state_name_observed s : state_name s ≠ StateUnobserved.
Proof. destruct s; apply (bool_decide_unpack _); vm_compute; exact I. Qed.

Section recorder.
Context {TS : TokenSort} {EN : Engine} {UN : Unicode} {TT : TimeText} {M : Type}.
Context (onTokenConflict : option (canary_row -> Z -> M -> option M)) (birdcageVersion : bytes).

Lemma exec_call {A B : Type} (p : prog (hist_db M) (res history_error A)) (k : A -> prog (hist_db M) (res history_error B)) d :
  exec (call p k) d = match exec p d with (d', Ok a) => exec (k a) d' | (d', Err e) => (d', Err e) end.
Proof. unfold call. rewrite exec_pbind. by destruct (exec p d) as [d' [a|e]]. Qed.

(** A part of a tick at [now]: it keeps the spans in order and what they
    covered up to [L], and touches nothing else but the outbox. *)
Record part (L B now : Z) (d d' : hist_db M) : Prop := {
  part_ok : spans_ok now B (periods d') (next_period d');
  part_le : spans_le L (periods d) (periods d');
  part_health : health d' = health d;
  part_settings : settings d' = settings d;
}.

Lemma part_refl L B now d : spans_ok now B (periods d) (next_period d) -> part L B now d d.
Proof. intros Hd. split; [done|apply spans_le_refl|done..]. Qed.

Lemma part_trans L B now a b c : part L B now a b -> part L B now b c -> part L B now a c.
Proof.
  intros [_ L1 E1 S1] [O2 L2 E2 S2]. split; [done|by eapply (spans_le_trans L L)|congruence..].
Qed.

(** A span open since [now]: a new one, when none of its key had ended within
    the collapse window, or one that had. *)
Definition begun (now : Z) (ps : list StatePeriod) (p : StatePeriod) : Prop :=
  is_open p /\ p_state p ≠ StateUnobserved /\
  ((p_started p = now /\ forall q e, q ∈ ps -> key q = key p -> p_ended q = Some e ->
      instant e < instant (now - collapseWindow)) \/
   exists q e, q ∈ ps /\ same_span q p /\ p_ended q = Some e /\ instant (now - collapseWindow) <= instant e /\
     forall r f, r ∈ ps -> key r = key p -> p_ended r = Some f -> f <= e).

(** A node enters a state it had no open span of. *)
Lemma open_or_collapse_exec L c state now d :
  spans_ok now now (periods d) (next_period d) -> 0 < now -> state ≠ StateUnobserved ->
  (h_id (Row c), state) ∉ open_keys (periods d) ->
  exists d', exec (open_or_collapse c state now) d = (d', Ok tt) /\ part L now now d d' /\
    (forall p, is_open p -> p ∈ periods d -> p ∈ periods d') /\
    (forall k, k ∈ open_keys (periods d') <-> k ∈ open_keys (periods d) \/ k = (h_id (Row c), state)) /\
    (forall p, p ∈ periods d' -> p ∈ periods d \/ key p = (h_id (Row c), state) /\ begun now (periods d) p) /\
    (forall q, q ∈ periods d -> key q ≠ (h_id (Row c), state) -> q ∈ periods d').
Proof.
  intros Hok Hnow Hst Hno. set (k0 := (h_id (Row c), state)) in *.
  assert (forall q, q ∈ periods d -> key q = k0 -> ~ is_open q) as Hclosed
    by (intros q Hq Hk Ho; apply Hno, elem_of_open_keys; eauto).
  unfold open_or_collapse. rewrite exec_call. cbn [LatestClosedStatePeriod stmt exec query]. fold k0.
  destruct (latest_closed k0 (now - collapseWindow) (periods d)) as [p0|] eqn:Hl.
  - pose proof (latest_closed_some _ _ _ _ Hl) as (Hin & Hk & e & He & Hlate & Hmax).
    cbn [ReopenStatePeriod stmt exec update_period]. eexists. split; [reflexivity|]. cbn [periods put_periods]. split; [|split; [|split; [|split]]].
    + split; [|by eapply reopen_le|done..]. cbn [periods put_periods next_period]. eapply reopen_ok; [exact Hok|exact Hl|done|done|lia].
    + intros p Ho Hp. apply list_elem_of_fmap. exists p. split; [|done]. destruct (Z.eqb_spec (p_id p) (p_id p0)) as [E|E]; [|done].
      exfalso. assert (p = p0) as -> by (by eapply same_row). unfold is_open in Ho. congruence.
    + intros k. rewrite !elem_of_open_keys. split.
      * intros (p & (q & -> & Hq)%list_elem_of_fmap & Ho & <-). destruct (Z.eqb_spec (p_id q) (p_id p0)) as [E|E].
        -- right. assert (q = p0) as -> by (by eapply same_row). done.
        -- left. eauto.
      * intros [(p & Hp & Ho & <-)| ->].
        -- exists p. split; [|done]. apply list_elem_of_fmap. exists p. split; [|done].
           destruct (Z.eqb_spec (p_id p) (p_id p0)) as [E|E]; [|done]. exfalso.
           assert (p = p0) as -> by (by eapply same_row). unfold is_open in Ho. congruence.
        -- exists (reopen_period p0). split; [|done]. apply list_elem_of_fmap. exists p0. by rewrite Z.eqb_refl.
    + intros p (q & -> & Hq)%list_elem_of_fmap. destruct (Z.eqb_spec (p_id q) (p_id p0)) as [E|E]; [right|by left].
      assert (q = p0) as -> by (by eapply same_row). split; [done|]. split; [done|]. split.
      { injection Hk as _ Hk. cbn. by rewrite Hk. }
      right. exists p0, e. split_and!; [done..|]. intros r f Hr Hkr. apply Hmax; [done|]. by rewrite Hkr.
    + intros q Hq Hne. apply list_elem_of_fmap. exists q. split; [|done]. destruct (Z.eqb_spec (p_id q) (p_id p0)) as [E|E]; [|done].
      assert (q = p0) as -> by (by eapply same_row). done.
  - unfold OpenStatePeriod. cbn [p_started p_reason p_ended]. rewrite (proj2 (Z.eqb_neq now 0)) by lia.
    cbn [stmt exec insert_period p_canary p_state p_started p_ended p_flap p_reason].
    set (p := mkPeriod (next_period d) (h_id (Row c)) state now None 1 None).
    change (Bool.eqb _ _) with true. cbn [negb].
    eexists. split; [reflexivity|]. cbn [periods]. split; [|split; [|split; [|split]]].
    + split; [|apply insert_le|done..]. cbn [periods next_period]. eapply insert_ok; [exact Hok|done| |lia|].
      * split; simpl; [lia|]. done.
      * intros q Hq Hk _. destruct (p_ended q) as [e|] eqn:He; [|exfalso; by eapply Hclosed].
        exists e. split; [done|]. cbn [p_started]. eapply (latest_closed_none (periods d) k0) in Hl; [|done..].
        apply Z.nle_gt. intros Hle. assert (now - collapseWindow <= e) as Hm%instant_mono by lia. lia.
    + intros q _ Hq. apply elem_of_app. by left.
    + intros k. rewrite !elem_of_open_keys. split.
      * intros (q & [Hq| ->%list_elem_of_singleton]%elem_of_app & Ho & <-); [left; eauto|by right].
      * intros [(q & Hq & Ho & <-)| ->]; [exists q; split; [apply elem_of_app; by left|done]|].
        exists p. split; [apply elem_of_app; right; by apply list_elem_of_singleton|done].
    + intros q [Hq| ->%list_elem_of_singleton]%elem_of_app; [by left|right]. split; [done|]. split; [done|]. split; [done|]. left. split; [done|].
      intros q' e Hq' Hk' He'. by eapply (latest_closed_none (periods d) k0) in Hl.
    + intros q Hq _. apply elem_of_app. by left.
Qed.

(** The alert, when there is one, only changes the outbox. *)
Definition hook_failed (r : res history_error unit) : Prop := r = Err ErrConflictHook /\ onTokenConflict ≠ None.

Lemma run_hook_exec c now d :
  (exists m, exec (run_hook onTokenConflict c now) d = (put_outbox m d, Ok tt)) \/
  exists r, exec (run_hook onTokenConflict c now) d = (d, r) /\ hook_failed r.
Proof.
  unfold run_hook, hook_failed. destruct onTokenConflict as [hook|]; [|left; exists (outbox d); by destruct d].
  cbn [exec]. destruct (hook (Row c) now (outbox d)) as [m|]; [left; by exists m|right; by eexists].
Qed.

(** Every state entered is open, and no other. *)
Lemma open_new_exec L now l : forall already (d : hist_db M),
  0 < now -> spans_ok now now (periods d) (next_period d) -> NoDup (pair_key <$> l) ->
  (forall x, x ∈ l -> pair_key x ∈ already <-> pair_key x ∈ open_keys (periods d)) ->
  forall d' r, exec (open_new onTokenConflict l already now) d = (d', r) -> hook_failed r \/
  r = Ok tt /\ part L now now d d' /\
  (forall p, is_open p -> p ∈ periods d -> p ∈ periods d') /\
  (forall k, k ∈ open_keys (periods d') <-> k ∈ open_keys (periods d) \/ k ∈ pair_key <$> l) /\
  (forall p, p ∈ periods d' -> p ∈ periods d \/ key p ∈ pair_key <$> l /\ begun now (periods d) p) /\
  (forall q, q ∈ periods d -> key q ∉ pair_key <$> l -> q ∈ periods d').
Proof.
  induction l as [|x l IH]; intros already d Hnow Hok Hnd Hal d' r He.
  { cbn in He. injection He as <- <-. right. split; [done|]. split; [by apply part_refl|]. split; [done|]. split; [|split; [by left|done]]. intros k. cbn. rewrite elem_of_nil. tauto. }
  rewrite fmap_cons in Hnd. apply NoDup_cons in Hnd as [Hx Hnd]. cbn [open_new] in He. case_bool_decide as Hin.
  - destruct (IH already d Hnow Hok Hnd) with (d' := d') (r := r) as [Hf|(Hr & H1 & H2 & H3 & H4 & H5)]; [by intros y Hy; apply Hal; right|done|by left|].
    right. split; [done|]. split; [done|]. split; [done|]. split; [|split].
    2: { intros p Hp. destruct (H4 p Hp) as [?|[? ?]]; [by left|right; split; [by right|done]]. }
    2: { intros q Hq Hk. apply H5; [done|]. intros ?. apply Hk. by right. }
    intros k. rewrite H3, fmap_cons, elem_of_cons. split; [tauto|].
    intros [?|[->|?]]; [by left| |by right]. left. apply Hal; [by left|done].
  - rewrite exec_call in He. unfold openOrCollapse in He. rewrite exec_call in He.
    destruct (open_or_collapse_exec L x.1 (state_name x.2) now d Hok Hnow (state_name_observed _)) as (d1 & He1 & P1 & K1 & O1 & Q1 & S1).
    { intros Ho. apply Hin, Hal; [by left|done]. }
    rewrite He1 in He.
    assert (hook_failed r \/ exists d2, part L now now d d2 /\ periods d2 = periods d1 /\ exec (open_new onTokenConflict l already now) d2 = (d', r))
      as [Hf|(d2 & P2 & E2 & He')]; [|by left|].
    { destruct (bool_decide (x.2 = StateTokenConflict)).
      - destruct (run_hook_exec x.1 now d1) as [[m Hm]|(r' & Hm & Hf)]; rewrite Hm in He.
        2: { left. pose proof Hf as [-> _]. injection He as _ <-. done. }
        right. exists (put_outbox m d1). split; [|done]. destruct P1. by split.
      - right. by exists d1. }
    destruct (IH already d2 Hnow) with (d' := d') (r := r) as [Hf|(Hr & H1 & H2 & H3 & H4 & H5)]; [apply P2|done| |done|by left|right; split; [done|]].
    { intros y Hy. rewrite E2, O1. rewrite <- Hal by (by right). split; [tauto|]. intros [?|Hk]; [done|].
      exfalso. apply Hx. apply list_elem_of_fmap. exists y. split; [by symmetry|done]. }
    split; [by eapply part_trans|]. split; [|split; [|split]].
    + intros p Ho Hp. apply H2; [done|]. rewrite E2. by apply K1.
    + intros k. rewrite H3, E2, O1, fmap_cons, elem_of_cons. unfold pair_key at 2. tauto.
    + intros p Hp. rewrite fmap_cons, elem_of_cons. destruct (H4 p Hp) as [Hp1|[Hk Hc]]; rewrite E2 in *.
      * destruct (Q1 p Hp1) as [?|[Hk Hc]]; [by left|right]. split; [by left|done].
      * right. split; [by right|]. assert (key p ≠ pair_key x) as Hne.
        { intros Heq. apply Hx. rewrite <- Heq. done. }
        destruct Hc as (Ho & Hst & Hc). split; [done|]. split; [done|]. destruct Hc as [[Hs Hall]|(q & e & Hq & Hsq & He2 & Hle & Hmax)].
        -- left. split; [done|]. intros q e Hq Hkq. apply Hall; [|done]. apply S1; [done|]. unfold pair_key in Hne. congruence.
        -- right. exists q, e. split; [|split_and!; [done..|]].
           { destruct (Q1 q Hq) as [?|[Hkx _]]; [done|]. exfalso. apply Hne. by destruct Hsq as (_ & -> & _). }
           intros r0 f Hr0 Hkr. apply Hmax; [|done]. apply S1; [done|]. unfold pair_key in Hne. congruence.
    + intros q Hq Hk. rewrite fmap_cons, elem_of_cons in Hk. apply H5; [|tauto]. rewrite E2. apply S1; [done|]. intros Heq. apply Hk. by left.
Qed.

Lemma close_exec p e r (d : hist_db M) : r ∈ endReasons -> e ≠ 0 ->
  exec (CloseStatePeriod (p_id p) e r) d =
  (put_periods ((fun q => if p_id q =? p_id p then close_period e r q else q) <$> periods d) d, Ok tt).
Proof.
  intros Hr He. unfold CloseStatePeriod. rewrite bool_decide_eq_true_2 by done. cbn [negb].
  by rewrite (proj2 (Z.eqb_neq _ _) He).
Qed.

Lemma end_reason_in s : end_reason s ∈ endReasons.
Proof. unfold end_reason, endReasons. case_bool_decide; [right; left|left]. Qed.

(** Closing some spans that were open, one by one. *)
Fixpoint close_each (l : list StatePeriod) (e : Z) (reason : StatePeriod -> bytes) : prog (hist_db M) (res history_error unit) :=
  match l with
  | [] => Ret (Ok tt)
  | p :: l => call (CloseStatePeriod (p_id p) e (reason p)) (fun _ => close_each l e reason)
  end.

Lemma close_stopped_each l active now :
  close_stopped l active now = close_each (filter (fun p => key p ∉ active) l) now (fun p => end_reason (p_state p)).
Proof.
  induction l as [|p l IH]; [done|]. cbn [close_stopped]. rewrite filter_cons, IH.
  case_bool_decide; [by rewrite decide_False by tauto|by rewrite decide_True].
Qed.

Lemma close_all_each l e : close_all l e = close_each l e (fun _ => EndReasonUnobserved).
Proof. induction l as [|p l IH]; [done|]. cbn [close_all close_each]. by rewrite IH. Qed.

Lemma close_each_exec L B e now reason l : forall d : hist_db M,
  0 < e -> L <= e <= now -> e <= B -> (forall p, reason p ∈ endReasons) -> spans_ok now B (periods d) (next_period d) ->
  (forall q, q ∈ l -> p_started q <= e /\ exists p, p ∈ periods d /\ same_span p q) ->
  exists d', exec (close_each l e reason) d = (d', Ok tt) /\ part L B now d d' /\
    forall p, p ∈ periods d' /\ is_open p <-> p ∈ periods d /\ is_open p /\ forall q, q ∈ l -> p_id p ≠ p_id q.
Proof.
  induction l as [|q l IH]; intros d Hnow HL HB Hr Hok Hl.
  { exists d. split; [done|]. split; [by apply part_refl|]. intros p. split; [|tauto].
    intros [? ?]. split; [done|]. split; [done|]. by intros q ?%elem_of_nil. }
  cbn [close_each]. rewrite exec_call, close_exec by (done || lia).
  destruct (Hl q) as (Hse & p0 & Hp0 & (I0 & K0 & S0)); [by left|]. rewrite I0.
  set (d1 := put_periods _ d).
  assert (part L B now d d1) as P1.
  { split; [eapply close_ok; [exact Hok|done|lia|lia|done|lia]|eapply close_le; [exact Hok|done|lia]|done|done]. }
  destruct (IH d1 Hnow HL HB Hr) as (d' & He & P & Ho); [apply P1| |].
  { intros x Hx. destruct (Hl x) as (Hxe & p & Hp & Hs); [by right|]. split; [done|].
    destruct (part_le _ _ _ _ _ P1 p Hp) as (p' & Hp' & (J1 & J2 & J3) & _).
    exists p'. split; [done|]. destruct Hs as (S1 & S2 & S3). unfold same_span. by rewrite J1, J2, J3. }
  exists d'. split; [done|]. split; [by eapply part_trans|]. intros p. rewrite Ho.
  assert (forall A B C : Prop, (A /\ B) /\ C <-> A /\ B /\ C) as Hassoc by tauto.
  rewrite <- Hassoc. unfold d1. cbn [periods put_periods]. rewrite (close_open (periods d) p0) by done. split.
  - intros [(H1 & H2 & H3) H4]. split; [done|]. split; [done|]. intros x [->|Hx]%elem_of_cons; [congruence|by apply H4].
  - intros (H1 & H2 & H3). split; [|intros x Hx; apply H3; by right]. split; [done|]. split; [done|].
    rewrite <- I0. apply H3. by left.
Qed.

Definition active_keys (cs : list Canary) : list (bytes * bytes) := pair_key <$> active_pairs cs.

Lemma reconcile_exec L now cs (d d' : hist_db M) r :
  0 < now -> L <= now -> spans_ok now now (periods d) (next_period d) -> NoDup (active_keys cs) ->
  exec (reconcile onTokenConflict cs now) d = (d', r) -> hook_failed r \/
  r = Ok tt /\ part L now now d d' /\ (forall k, k ∈ open_keys (periods d') <-> k ∈ active_keys cs) /\
  ((forall p, p ∈ periods d -> ~ is_open p) ->
   (forall p, p ∈ periods d' -> p ∈ periods d \/ begun now (periods d) p) /\
   forall q, q ∈ periods d -> p_state q = StateUnobserved -> q ∈ periods d').
Proof.
  intros Hnow HL Hok Hnd He. unfold reconcile in He. rewrite exec_call in He. cbn [OpenStatePeriods stmt exec query] in He.
  set (open := filter is_open (periods d)) in *. rewrite exec_call in He.
  destruct (exec (open_new onTokenConflict (active_pairs cs) (key <$> open) now) d) as [d1 r1] eqn:He1.
  destruct (open_new_exec L now (active_pairs cs) (key <$> open) d Hnow Hok Hnd) with (d' := d1) (r := r1)
    as [Hf|(-> & P1 & K1 & O1 & Q1 & S1)]; [done|done|left; pose proof Hf as [-> _]; injection He as _ <-; done|].
  assert (forall q, q ∈ open -> q ∈ periods d1 /\ is_open q) as Hopen
    by (intros q [Ho Hq]%list_elem_of_filter; split; [by apply K1|done]).
  rewrite close_stopped_each in He.
  destruct (close_each_exec L now now now (fun p => end_reason (p_state p)) (filter (fun p => key p ∉ active_keys cs) open) d1)
    as (d2 & He2 & P2 & O2); [done|lia|lia|intros; apply end_reason_in|apply P1| |].
  { intros q [_ Hq]%list_elem_of_filter. destruct (Hopen q Hq) as [Hq1 _]. split; [|by exists q].
    by destruct (span_in now now _ _ (part_ok _ _ _ _ _ P1) q Hq1). }
  unfold active_keys in He2. rewrite He2 in He. injection He as <- <-. right. split; [done|]. split; [by eapply part_trans|].
  pose proof (part_ok _ _ _ _ _ P1) as Hok1. split; [|].
  2: { intros Hquiet. assert (open = []) as Hnone.
       { unfold open. apply filter_none, Forall_forall. exact Hquiet. }
       rewrite Hnone in He2. cbn in He2. injection He2 as <-. split; [intros p Hp; destruct (Q1 p Hp) as [?|[_ ?]]; auto|].
       intros q Hq Hst. apply S1; [done|]. intros (x & Hk & _)%list_elem_of_fmap. injection Hk as _ Hk. rewrite Hst in Hk.
       by apply (state_name_observed x.2). }
  intros k. rewrite elem_of_open_keys. split.
  - intros (p & Hp & Ho & <-). destruct (O2 p) as [Hf _]. destruct Hf as (Hp1 & _ & Hno); [done|].
    destruct (decide (key p ∈ active_keys cs)) as [|Hna]; [done|exfalso].
    assert (key p ∈ open_keys (periods d1)) as Hk by (apply elem_of_open_keys; eauto).
    apply O1 in Hk as [(q & Hq & Hqo & Hqk)%elem_of_open_keys|Hk]; [|done].
    assert (q ∈ open) as Hqin by (by apply list_elem_of_filter). destruct (Hopen q Hqin) as [Hq1 _].
    assert (p = q) as -> by (by eapply (open_unique now now (periods d1))). apply (Hno q); [by apply list_elem_of_filter|done].
  - intros Hk. assert (k ∈ open_keys (periods d1)) as (p & Hp & Ho & <-)%elem_of_open_keys by (apply O1; by right).
    exists p. split; [|done]. apply O2. split; [done|]. split; [done|]. intros q [Hna Hq]%list_elem_of_filter Heq.
    assert (p = q) as ->; [|done]. eapply (same_row now now (periods d1)); [exact Hok1|done|by apply Hopen|done].
Qed.

(** ** The recorder's invariant *)

(** The last tick on record. *)
Definition observed (d : hist_db M) : Z :=
  match settings d !! SettingHistoryLastTick with Some v => default 0 (ParseTime v.1) | None => 0 end.

Record hist_inv (t : Z) (d : hist_db M) : Prop := {
  hi_spans : spans_ok t (observed d) (periods d) (next_period d);
  hi_observed : 0 <= observed d <= t;
  hi_text v : settings d !! SettingHistoryLastTick = Some v -> v.1 = FormatTime (observed d) /\ text_time (observed d);
  hi_nodes : NoDup (h_id <$> rows (health d));
}.

Record hist_le (d d' : hist_db M) : Prop := {
  hl_observed : observed d <= observed d';
  hl_spans : spans_le (observed d) (periods d) (periods d');
}.

#[local] Instance hist_le_preorder : PreOrder hist_le.
Proof.
  split; [intros d; split; [lia|apply spans_le_refl]|].
  intros a b c [O1 L1] [O2 L2]. split; [lia|]. by eapply (spans_le_trans (observed a) (observed b)).
Qed.

Lemma spans_ok_mono t B t' B' ps next : t <= t' -> B <= B' -> spans_ok t B ps next -> spans_ok t' B' ps next.
Proof.
  intros Ht HB [H1 H2 H3 H4]. split; [done|done| |done]. eapply Forall_impl; [exact H3|]. intros p. by apply span_ok_mono.
Qed.

Lemma hist_inv_mono t t' d : t <= t' -> hist_inv t d -> hist_inv t' d.
Proof.
  intros Ht [H1 H2 H3 H4]. split; [|lia|done|done]. eapply spans_ok_mono; [exact Ht| |exact H1]. lia.
Qed.

Lemma history_def : setting_def SettingHistoryLastTick = Some (validateSettingTimestamp, []).
Proof. reflexivity. Qed.

Lemma tick_body_ok t now cs d d' r :
  hist_inv t d -> t <= now -> text_time now -> NoDup (active_keys cs) ->
  exec (tick_body onTokenConflict cs now) d = (d', r) -> hook_failed r \/
  r = Ok tt /\ hist_inv now d' /\ hist_le d d' /\ health d' = health d /\ observed d' = now /\
  (forall k, k ∈ open_keys (periods d') <-> k ∈ active_keys cs) /\
  ((forall p, p ∈ periods d -> ~ is_open p) ->
   (forall p, p ∈ periods d' -> p ∈ periods d \/ begun now (periods d) p) /\
   forall q, q ∈ periods d -> p_state q = StateUnobserved -> q ∈ periods d').
Proof.
  intros HI Ht Hnow Hnd He. pose proof (hist_inv_mono _ _ _ Ht HI) as [Hs Ho Htx Hn]. unfold tick_body in He.
  rewrite exec_call in He. destruct (exec (reconcile onTokenConflict cs now) d) as [d1 r1] eqn:He1.
  assert (0 < now) as Hpos by (unfold text_time in Hnow; lia).
  destruct (reconcile_exec (observed d) now cs d d1 r1) as [Hf|(-> & P & O & Q)]; [lia|lia| |done|done| |].
  { eapply spans_ok_mono; [| |exact Hs]; lia. }
  { left. pose proof Hf as [-> _]. injection He as _ <-. done. }
  unfold setting_call in He. rewrite exec_pbind, exec_on_table in He by (done || by intros []).
  rewrite (set_exec _ _ _ _ _ _ history_def) in He;
    [|unfold validateSettingTimestamp; rewrite ParseTime_Format by done; by apply bool_decide_eq_true|lia].
  cbn [fst snd exec] in He. injection He as <- <-. cbn [periods put_settings next_period settings health]. right. split; [done|].
  assert (observed (put_settings (<[SettingHistoryLastTick := (FormatTime now, now)]> (settings d1)) d1) = now) as Hobs.
  { unfold observed. cbn [settings put_settings]. rewrite lookup_insert_eq. cbn [fst]. by rewrite ParseTime_Format. }
  split; [split|split; [split|split; [|split]]].
  - rewrite Hobs. apply P.
  - rewrite Hobs. lia.
  - intros v. cbn [settings put_settings]. rewrite lookup_insert_eq. intros [= <-]. rewrite Hobs. done.
  - cbn [health put_settings]. by rewrite (part_health _ _ _ _ _ P).
  - rewrite Hobs. lia.
  - apply P.
  - apply P.
  - done.
  - done.
Qed.

Lemma mark_unobserved_exec L now cs : forall d : hist_db M,
  0 < L <= now -> spans_ok now L (periods d) (next_period d) ->
  exists d', exec (mark_unobserved cs L now) d = (d', Ok tt) /\ part L L now d d' /\
    (forall p, p ∈ periods d' -> p ∈ periods d \/ p_state p = StateUnobserved /\ ~ is_open p) /\
    (forall p, p ∈ periods d -> p ∈ periods d') /\
    (forall c, c ∈ cs -> exists p, p ∈ periods d' /\ key p = (h_id (Row c), StateUnobserved) /\ p_started p = L /\ p_ended p = Some now).
Proof.
  induction cs as [|c cs IH]; intros d HL Hok.
  { exists d. split; [done|]. split; [by apply part_refl|]. split; [auto|]. split; [auto|]. by intros c ?%elem_of_nil. }
  cbn [mark_unobserved]. rewrite exec_call. unfold OpenStatePeriod. cbn [p_started p_reason p_ended].
  rewrite (proj2 (Z.eqb_neq L 0)) by lia. rewrite bool_decide_eq_true_2 by (right; right; left). cbn [negb].
  change (Bool.eqb _ _) with true. cbn [negb stmt exec insert_period p_canary p_state p_started p_ended p_flap p_reason].
  set (p := mkPeriod (next_period d) (h_id (Row c)) StateUnobserved L (Some now) 1 (Some EndReasonUnobserved)).
  set (d1 := mkHist _ _ _ _ _). assert (part L L now d d1) as P1.
  { split; [|apply insert_le|done..]. eapply insert_ok; [exact Hok|done| |lia|done].
    split; simpl; [lia|]. split; [lia|]. split; [done|]. eexists. split; [done|]. right. right. left. }
  destruct (IH d1 HL) as (d' & He & P & Hp & Hkeep & Hc); [apply P1|]. exists d'. split; [done|]. split; [by eapply part_trans|].
  split; [|split].
  - intros q Hq. destruct (Hp q Hq) as [[Hq'| ->%list_elem_of_singleton]%elem_of_app|?]; [by left|right; split; [done|discriminate]|by right].
  - intros q Hq. apply Hkeep, elem_of_app. by left.
  - intros c' [->|Hc']%elem_of_cons; [|by apply Hc]. exists p. split; [|done]. apply Hkeep, elem_of_app. right. by apply list_elem_of_singleton.
Qed.

(** Closing the books on the time nobody watched: every span is closed at the
    last tick. *)
Lemma unobserved_body_ok t now cs d d' :
  hist_inv t d -> t <= now -> 0 < observed d ->
  exec (unobserved_body cs (observed d) now) d = (d', Ok tt) ->
  hist_inv now d' /\ hist_le d d' /\ observed d' = observed d /\
  (forall p, p ∈ periods d' -> exists e, p_ended p = Some e /\ (p_state p ≠ StateUnobserved -> e <= observed d)) /\
  (forall p, p ∈ periods d -> is_open p -> exists p', p' ∈ periods d' /\ same_span p p' /\ p_ended p' = Some (observed d)) /\
  (forall c, c ∈ cs -> exists p, p ∈ periods d' /\ key p = (h_id (Row c), StateUnobserved) /\ p_started p = observed d /\ p_ended p = Some now).
Proof.
  intros HI Ht HL He. pose proof (hist_inv_mono _ _ _ Ht HI) as [Hs Ho Htx Hn]. unfold unobserved_body in He.
  rewrite exec_call in He. cbn [OpenStatePeriods stmt exec query] in He. rewrite exec_call, close_all_each in He.
  destruct (close_each_exec (observed d) (observed d) (observed d) now (fun _ => EndReasonUnobserved) (filter is_open (periods d)) d)
    as (d1 & He1 & P1 & O1); [done|lia|lia|intros; right; right; left|done| |].
  { intros q [Hq Hin]%list_elem_of_filter. split; [|by exists q]. destruct (span_in _ _ _ _ Hs q Hin) as [_ Hs']. rewrite Hq in Hs'. tauto. }
  rewrite He1 in He. destruct (mark_unobserved_exec (observed d) now cs d1) as (d2 & He2 & P2 & O2 & _ & C2); [lia|apply P1|].
  rewrite He2 in He. injection He as <-. pose proof (part_trans _ _ _ _ _ _ P1 P2) as P.
  assert (observed d2 = observed d) as Hobs by (unfold observed; by rewrite (part_settings _ _ _ _ _ P)).
  assert (forall p, p ∈ periods d2 -> exists e, p_ended p = Some e /\ (p_state p ≠ StateUnobserved -> e <= observed d)) as Hclosed.
  { intros p Hp. destruct (span_in _ _ _ _ (part_ok _ _ _ _ _ P) p Hp) as [_ Hsp].
    destruct (p_ended p) as [e|] eqn:Hend; [exists e; split; [done|]; apply Hsp|]. exfalso.
    destruct (O2 p Hp) as [Hp1|[_ Hno]]; [|done]. destruct (O1 p) as [Hf _]. destruct Hf as (Hpd & Hop & Hno); [done|].
    apply (Hno p); [|done]. by apply list_elem_of_filter. }
  split; [split|split; [split|split; [done|split; [done|split; [|done]]]]].
  - rewrite Hobs. apply P.
  - rewrite Hobs. lia.
  - rewrite Hobs, (part_settings _ _ _ _ _ P). done.
  - by rewrite (part_health _ _ _ _ _ P).
  - by rewrite Hobs.
  - apply P.
  - intros p Hp Hop. destruct (part_le _ _ _ _ _ P p Hp) as (p' & Hp' & Hsame & Hcov). exists p'. split; [done|]. split; [done|].
    destruct (span_in _ _ _ _ Hs p Hp) as [_ Hsp]. rewrite Hop in Hsp. destruct Hsp as (Hst & _ & Hun).
    destruct (Hclosed p' Hp') as (e & He3 & Hle). rewrite He3.
    destruct (Hcov (observed d)) as [_ Hc]; [lia|split; [lia|by rewrite Hop]|]. rewrite He3 in Hc.
    assert (p_state p' ≠ StateUnobserved) as Hst' by (destruct Hsame as (_ & Hk & _); injection Hk as _ Hk; congruence).
    specialize (Hle Hst'). f_equal. lia.
Qed.

(** ** The recorder beside the rest of the server *)

(** What everybody else may change: not the spans, not the last tick, and no
    two nodes get one id. *)
Record others (d d' : hist_db M) : Prop := {
  ot_periods : periods d' = periods d;
  ot_next : next_period d' = next_period d;
  ot_tick : settings d' !! SettingHistoryLastTick = settings d !! SettingHistoryLastTick;
  ot_nodes : NoDup (h_id <$> rows (health d)) -> NoDup (h_id <$> rows (health d'));
}.

#[local] Instance others_preorder : PreOrder others.
Proof.
  split; [by intros d|]. intros a b c [P1 N1 T1 I1] [P2 N2 T2 I2]. split; [congruence..|]. auto.
Qed.

Lemma others_observed d d' : others d d' -> observed d' = observed d.
Proof. intros [_ _ Ht _]. unfold observed. by rewrite Ht. Qed.

Lemma others_inv t d d' : others d d' -> hist_inv t d -> hist_inv t d'.
Proof.
  intros Ho [H1 H2 H3 H4]. pose proof (others_observed _ _ Ho) as Hobs. destruct Ho as [Hp Hn Htk Hi].
  split; rewrite ?Hobs, ?Hp, ?Hn, ?Htk; auto.
Qed.

Lemma others_le d d' : others d d' -> hist_le d d'.
Proof.
  intros Ho. pose proof (others_observed _ _ Ho) as Hobs. destruct Ho as [Hp _ _ _]. split; [lia|]. rewrite Hp. apply spans_le_refl.
Qed.

Lemma active_keys_unique cs :
  NoDup ((fun c => h_id (Row c)) <$> cs) -> Forall (fun c => NoDup (ActiveStates c)) cs -> NoDup (active_keys cs).
Proof.
  unfold active_keys, active_pairs. induction cs as [|c cs IH]; [by constructor|]. rewrite fmap_cons.
  intros [Hc Hnd]%NoDup_cons [Hs Hall]%Forall_cons. rewrite bind_cons, fmap_app. apply NoDup_app. split; [|split; [|by apply IH]].
  - rewrite <- list_fmap_compose. apply (NoDup_fmap_2_strong _); [|done]. intros a b _ _ Hab. apply state_name_inj. by injection Hab.
  - intros k (x & -> & (s & -> & _)%list_elem_of_fmap)%list_elem_of_fmap (y & Hk & Hy)%list_elem_of_fmap.
    apply list_elem_of_bind in Hy as (c' & (s' & -> & _)%list_elem_of_fmap & Hc'). apply Hc. apply list_elem_of_fmap.
    exists c'. split; [|done]. by injection Hk.
Qed.

(** The listing of a tick. *)
Lemma activeStates_alone now d d' r :
  NoDup (h_id <$> rows (health d)) -> alone others (activeStates birdcageVersion now) d d' r ->
  others d d' /\ match r with Some (Ok cs) => NoDup (active_keys cs) | _ => True end.
Proof.
  intros Hids Ha. set (ids := fun d : hist_db M => NoDup (h_id <$> rows (health d))).
  assert (valid ids others (fun r _ => match r with Ok cs => NoDup (active_keys cs) | Err _ => True end)
    (activeStates birdcageVersion now) [] d) as Hv.
  { unfold activeStates. eapply (valid_pbind ids others).
    - eapply (valid_on_table ids_unique (fun _ _ => True) ids others health put_health
        (fun r => match r with Ok cs => NoDup (active_keys cs) | Err _ => True end)) with (ot := []); [done|done| |done|].
      + intros db t _ Ht _. split; [done|]. by split.
      + eapply (valid_mono ids_unique (fun _ _ => True)); [|apply ListCanaries_valid]. intros [cs|e] o; [|done].
        intros [H1 H2]. by apply active_keys_unique.
    - intros [cs|e] o db _ Hp; done. }
  destruct (alone_valid others ids others _ _ _ (fun a b Ho Ha => conj (ot_nodes _ _ Ho Ha) Ho) d d' [] Ha Hids Hv) as (_ & Ho & Hr).
  split; [done|]. destruct r as [[cs|e]|]; [|done|done]. by destruct Hr.
Qed.

(** A transaction happened, or nothing did. *)
Lemma alone_transaction {A : Type} (lost : history_error) (body : prog (hist_db M) (res history_error A)) d d' r :
  alone others (in_transaction lost body) d d' r ->
  exists d0 d1, others d d0 /\ others d1 d' /\
    ((d1 = d0 /\ forall a, r ≠ Some (Ok a)) \/ exists a, exec body d0 = (d1, Ok a) /\ (r = Some (Ok a) \/ forall b, r ≠ Some (Ok b))).
Proof.
  unfold in_transaction. cbn [alone]. intros (d0 & H0 & Hc). exists d0.
  destruct Hc as [[-> ->]|[[Hn Hr]|(d1 & x & Hf & Hx)]].
  - exists d0. split; [done|]. split; [reflexivity|]. by left.
  - exists d0. split; [done|]. split; [done|]. left. split; [done|]. intros a. by destruct Hr as [-> | ->].
  - unfold transaction in Hf. destruct (exec body d0) as [db [a|e]] eqn:He; injection Hf as <- <-.
    + exists db. split; [done|]. destruct Hx as [[Ho Hr]|[Ho Hr]]; (split; [done|]); right; exists a; (split; [done|]);
        destruct Hr as [-> | ->]; auto; right; intros b; discriminate.
    + exists d0. split; [done|]. destruct Hx as [[Ho Hr]|[Ho Hr]]; (split; [done|]); left; (split; [done|]); intros a; destruct Hr as [-> | ->]; discriminate.
Qed.

(** A tick, whatever fails and wherever it stops. *)
Lemma tick_alone t now d d' r :
  hist_inv t d -> t <= now -> text_time now -> alone others (Tick onTokenConflict birdcageVersion now) d d' r ->
  hist_inv now d' /\ hist_le d d'.
Proof.
  intros HI Ht Hnow Ha. unfold Tick, call in Ha.
  apply (alone_pbind others) in Ha as [(d1 & b & Hb & Ha)|[Hb ->]]; [|apply activeStates_alone in Hb as [Ho _]; [|apply HI];
    split; [by eapply hist_inv_mono, others_inv|by apply others_le]].
  apply activeStates_alone in Hb as [Ho Hcs]; [|apply HI]. apply (others_inv _ _ _ Ho) in HI. apply others_le in Ho.
  destruct b as [cs|e]; [|destruct Ha as [Ha _]; split; [by eapply hist_inv_mono, others_inv|etransitivity; [exact Ho|by apply others_le]]].
  apply alone_transaction in Ha as (d2 & d3 & H2 & H3 & Hc). apply (others_inv _ _ _ H2) in HI.
  apply others_le in H2. pose proof (others_le _ _ H3) as L3. destruct Hc as [[-> _]|([] & He & _)].
  - split; [by eapply hist_inv_mono, others_inv|]. etransitivity; [exact Ho|]. by etransitivity.
  - destruct (tick_body_ok t now cs d2 d3 (Ok tt) HI Ht Hnow Hcs He) as [[? _]|(_ & HI' & Hle & _)]; [done|].
    split; [by eapply others_inv|]. etransitivity; [exact Ho|]. etransitivity; [exact H2|]. by etransitivity.
Qed.

Lemma unobserved_alone t now d d' r :
  hist_inv t d -> t <= now -> 0 < observed d ->
  alone others (recordUnobserved birdcageVersion (observed d) now) d d' r -> hist_inv now d' /\ hist_le d d'.
Proof.
  intros HI Ht Hpos Ha. unfold recordUnobserved, call in Ha.
  apply (alone_pbind others) in Ha as [(d1 & b & Hb & Ha)|[Hb ->]]; [|apply activeStates_alone in Hb as [Ho _]; [|apply HI];
    split; [by eapply hist_inv_mono, others_inv|by apply others_le]].
  apply activeStates_alone in Hb as [Ho Hcs]; [|apply HI]. apply (others_inv _ _ _ Ho) in HI.
  pose proof (others_observed _ _ Ho) as Hobs. apply others_le in Ho.
  destruct b as [cs|e]; [|destruct Ha as [Ha _]; split; [by eapply hist_inv_mono, others_inv|etransitivity; [exact Ho|by apply others_le]]].
  apply alone_transaction in Ha as (d2 & d3 & H2 & H3 & Hc). apply (others_inv _ _ _ H2) in HI.
  pose proof (others_observed _ _ H2) as Hobs2. apply others_le in H2. pose proof (others_le _ _ H3) as L3. destruct Hc as [[-> _]|([] & He & _)].
  - split; [by eapply hist_inv_mono, others_inv|]. etransitivity; [exact Ho|]. by etransitivity.
  - rewrite <- Hobs, <- Hobs2 in He. destruct (unobserved_body_ok t now cs d2 d3 HI Ht) as (HI' & Hle & _); [by rewrite Hobs2, Hobs|exact He|].
    split; [by eapply others_inv|]. etransitivity; [exact Ho|]. etransitivity; [exact H2|]. by etransitivity.
Qed.

Lemma GetSetting_tick : GetSetting SettingHistoryLastTick =
  Stmt (query (fun d : settings_db => d !! SettingHistoryLastTick)) (fun r =>
  Ret (match r with None => Err ErrSettingStore | Some None => Ok [] | Some (Some (value, _)) => Ok value end)).
Proof. reflexivity. Qed.

(** What the last tick on record says. *)
Definition resumed (raw : bytes) (d : hist_db M) : Prop :=
  match settings d !! SettingHistoryLastTick with Some v => raw = v.1 | None => raw = [] end.

Lemma resumed_parse t d raw : hist_inv t d -> resumed raw d ->
  raw = [] /\ observed d = 0 \/ raw ≠ [] /\ ParseTime raw = Some (observed d) /\ text_time (observed d).
Proof.
  intros HI Hraw. pose proof (hi_text _ _ HI) as Htx. unfold resumed in Hraw. unfold observed in *.
  destruct (settings d !! SettingHistoryLastTick) as [v|]; [right|by left]. destruct (Htx v eq_refl) as [Hv Ht].
  subst raw. set (L := default 0 (ParseTime v.1)) in *. assert (ParseTime v.1 = Some L) as Hp by (rewrite Hv; by apply ParseTime_Format).
  split; [|done]. intros Hnil. rewrite Hnil, ParseTime_empty in Hp. done.
Qed.

Lemma start_alone t now d d' r :
  hist_inv t d -> t <= now -> text_time now -> alone others (Start onTokenConflict birdcageVersion now) d d' r ->
  hist_inv now d' /\ hist_le d d'.
Proof.
  intros HI Ht Hnow Ha. unfold Start, setting_call in Ha.
  apply (alone_pbind others) in Ha as [(d1 & b & Hb & Ha)|[Hb ->]].
  - rewrite GetSetting_tick in Hb. cbn [on_table alone query] in Hb. destruct Hb as (d0 & H0 & Hc).
    assert (others d d1 /\ (forall raw, b = Ok raw -> resumed raw d1)) as [Ho Hraw].
    { destruct Hc as [[_ ?]|[[Ho Hr]|(d2 & x & Hf & Hx)]]; [done| |].
      - split; [by etransitivity|]. destruct Hr as [[= ->]|?]; done.
      - injection Hf as <- <-. assert (put_settings (settings d0) d0 = d0) as Heq by (by destruct d0). rewrite Heq in Hx.
        destruct Hx as [[Ho Hr]|[Ho Hr]]; (split; [by etransitivity|]); intros raw ->; destruct Hr as [[= Hr]|?]; try done.
        unfold resumed. rewrite (ot_tick _ _ Ho). destruct (settings d0 !! SettingHistoryLastTick) as [[v a]|]; by injection Hr. }
    apply (others_inv _ _ _ Ho) in HI. apply others_le in Ho.
    destruct b as [raw|e]; [|destruct Ha as [Ha _]; split; [by eapply hist_inv_mono, others_inv|etransitivity; [exact Ho|by apply others_le]]].
    assert (forall d2, hist_inv t d2 -> alone others (Tick onTokenConflict birdcageVersion now) d2 d' r -> hist_inv now d' /\ hist_le d2 d') as Htick
      by (intros d2 HI2; by apply (tick_alone t)).
    destruct (resumed_parse t d1 raw HI (Hraw raw eq_refl)) as [[-> _]|(Hne & Hparse & Htx)].
    + rewrite bool_decide_eq_true_2 in Ha by done. destruct (Htick d1 HI Ha). split; [done|]. by etransitivity.
    + rewrite bool_decide_eq_false_2, Hparse in Ha by done. destruct (unobservedAfter <? _).
      * unfold call in Ha. apply (alone_pbind others) in Ha as [(d2 & b & Hb & Ha)|[Hb ->]].
        -- destruct (unobserved_alone t now d1 d2 (Some b) HI Ht) as [HI2 L2]; [unfold text_time in Htx; lia|done|].
           destruct b as [[]|e].
           ++ destruct (tick_alone now now d2 d' r HI2 ltac:(lia) Hnow Ha) as [? L3]. split; [done|]. etransitivity; [exact Ho|]. by etransitivity.
           ++ destruct Ha as [Ha _]. split; [by eapply others_inv|]. etransitivity; [exact Ho|]. etransitivity; [exact L2|by apply others_le].
        -- destruct (unobserved_alone t now d1 d' None HI Ht) as [? ?]; [unfold text_time in Htx; lia|done|]. split; [done|]. by etransitivity.
      * destruct (Htick d1 HI Ha). split; [done|]. by etransitivity.
  - rewrite GetSetting_tick in Hb. cbn [on_table alone query] in Hb. destruct Hb as (d0 & H0 & Hc).
    assert (others d d') as Ho.
    { destruct Hc as [[-> _]|[[Ho _]|(d2 & x & Hf & Hx)]]; [done|by etransitivity|].
      injection Hf as <- <-. assert (put_settings (settings d0) d0 = d0) as Heq by (by destruct d0). rewrite Heq in Hx.
      destruct Hx as [[Ho _]|[Ho _]]; by etransitivity. }
    split; [by eapply hist_inv_mono, others_inv|by apply others_le].
Qed.

(** The databases the recorder leaves, life after life, whatever fails and
    wherever it stops, while the clock does not go back. *)
Inductive recorded : Z -> hist_db M -> Prop :=
| recorded_new d :
    periods d = [] -> settings d !! SettingHistoryLastTick = None -> NoDup (h_id <$> rows (health d)) -> recorded 0 d
| recorded_start t d now d' r :
    recorded t d -> t <= now -> text_time now -> alone others (Start onTokenConflict birdcageVersion now) d d' r ->
    recorded now d'
| recorded_tick t d now d' r :
    recorded t d -> t <= now -> text_time now -> alone others (Tick onTokenConflict birdcageVersion now) d d' r ->
    recorded now d'.

Lemma recorded_exec t d now :
  recorded t d -> t <= now -> text_time now -> recorded now (exec (Tick onTokenConflict birdcageVersion now) d).1.
Proof. intros Hd Ht Hnow. eapply recorded_tick; [exact Hd|exact Ht|exact Hnow|]. apply (alone_exec others). Qed.

Lemma recorded_inv t d : recorded t d -> hist_inv t d.
Proof.
  induction 1 as [d Hp Hs Hn|t d now d' r _ IH Ht Hnow Ha|t d now d' r _ IH Ht Hnow Ha].
  - assert (observed d = 0) as Hobs by (unfold observed; by rewrite Hs).
    split; rewrite ?Hobs, ?Hp, ?Hs; [|lia|done|done]. split; [constructor..|]. by intros p q ?%elem_of_nil.
  - by destruct (start_alone t now d d' r IH Ht Hnow Ha).
  - by destruct (tick_alone t now d d' r IH Ht Hnow Ha).
Qed.

(** *** What a tick does when nothing fails *)

Lemma tick_exec t now d :
  hist_inv t d -> t <= now -> text_time now ->
  exists cs, Permutation (Row <$> cs) (rows (health d)) /\ Forall (tile (health d) now birdcageVersion) cs /\ NoDup (active_keys cs) /\
    exec (activeStates birdcageVersion now) d = (d, Ok cs) /\
    exec (Tick onTokenConflict birdcageVersion now) d =
      match exec (tick_body onTokenConflict cs now) d with (d', Ok a) => (d', Ok a) | (_, Err e) => (d, Err e) end.
Proof.
  intros HI Ht Hnow. destruct (ListCanaries_exec (health d) now 0 birdcageVersion) as (cs & He & Hp & [Hti _]%Forall_and).
  exists cs. assert (exec (activeStates birdcageVersion now) d = (d, Ok cs)) as Hact.
  { unfold activeStates. rewrite exec_pbind, exec_on_table by (done || by intros []). rewrite He. cbn [fst snd exec]. f_equal. by destruct d. }
  split; [done|]. split; [done|]. split; [|split; [done|]].
  - apply active_keys_unique.
    + rewrite (list_fmap_compose Row h_id), Hp. apply (hi_nodes _ _ HI).
    + eapply Forall_impl; [exact Hti|]. intros c Hc. eapply shows_nodup. exact Hc.
  - unfold Tick. rewrite exec_call, Hact. unfold in_transaction. cbn [exec]. unfold transaction.
    by destruct (exec (tick_body onTokenConflict cs now) d) as [d' [a|e]].
Qed.

Lemma active_keys_hold now (h : health_db) cs id s :
  Permutation (Row <$> cs) (rows h) -> Forall (tile h now birdcageVersion) cs ->
  (id, state_name s) ∈ active_keys cs <-> exists row, row ∈ rows h /\ h_id row = id /\ holds h now birdcageVersion row s = true.
Proof.
  intros Hp Hti. rewrite Forall_forall in Hti. unfold active_keys, active_pairs. rewrite list_elem_of_fmap. split.
  - intros (x & Hk & (c & (s' & -> & Hs)%list_elem_of_fmap & Hc)%list_elem_of_bind). injection Hk as -> Hs'.
    apply state_name_inj in Hs' as <-. exists (Row c). split; [rewrite <- Hp; apply list_elem_of_fmap; by exists c|]. split; [done|].
    by apply (in_active _ _ _ _ _ (Hti c Hc)).
  - intros (row & Hrow & <- & Hh). rewrite <- Hp in Hrow. apply list_elem_of_fmap in Hrow as (c & -> & Hc).
    exists (c, s). split; [done|]. apply list_elem_of_bind. exists c. split; [|done]. apply list_elem_of_fmap. exists s. split; [done|].
    by apply (in_active _ _ _ _ _ (Hti c Hc)).
Qed.

(** *** How many spans start in an hour *)

Definition starts_within (k : bytes * bytes) (a span : Z) (p : StatePeriod) : Prop :=
  key p = k /\ a <= p_started p < a + span.

#[local] Instance starts_within_dec k a span p : Decision (starts_within k a span p).
Proof. unfold starts_within. apply _. Defined.

Lemma starts_bounded t B ps next k a n :
  spans_ok t B ps next -> k.2 ≠ StateUnobserved -> 0 <= n ->
  Z.of_nat (length (filter (starts_within k a (n * collapseWindow)) ps)) <= n.
Proof.
  intros Hok Hk Hn. set (l := filter _ ps). set (bucket := fun p => (p_started p - a) / collapseWindow).
  assert (forall p, p ∈ l -> p ∈ ps /\ key p = k /\ a <= p_started p < a + n * collapseWindow) as Hl
    by (intros p [[? ?] ?]%list_elem_of_filter; auto).
  assert (NoDup (bucket <$> l)) as Hnd.
  { apply (NoDup_fmap_2_strong _).
    - intros p q Hp Hq Hb. apply Hl in Hp as (Hp & Kp & Sp), Hq as (Hq & Kq & Sq).
      destruct (decide (p_id p = p_id q)) as [|Hne]; [by eapply (same_row t B ps)|exfalso].
      assert (forall x y, x ∈ ps -> y ∈ ps -> bucket x = bucket y -> ~ apart x y) as Hno.
      { intros x y Hx Hy Hxy (e & He & Hlt). destruct (span_in _ _ _ _ Hok x Hx) as [_ Hsx]. rewrite He in Hsx.
        unfold bucket in Hxy. assert (0 < collapseWindow) as HW by done. set (W := collapseWindow) in *. clearbody W.
        pose proof (Z.mul_div_le (p_started x - a) W HW). pose proof (Z.mul_succ_div_gt (p_started y - a) W HW). rewrite Hxy in *. nia. }
      destruct (so_apart _ _ _ _ Hok p q Hp Hq Hne) as [H|H]; [congruence|rewrite <- Kp in Hk; exact Hk|exact (Hno p q Hp Hq Hb H)|].
      exact (Hno q p Hq Hp (eq_sym Hb) H).
    - apply (NoDup_filter _). eapply NoDup_fmap_1. apply Hok. }
  assert (bucket <$> l ⊆ seqZ 0 n) as Hsub.
  { intros b (p & -> & Hp)%list_elem_of_fmap. apply Hl in Hp as (_ & _ & Hs). apply elem_of_seqZ.
    assert (0 < collapseWindow) as HW by done. unfold bucket. set (W := collapseWindow) in *. clearbody W. clear -Hs HW.
    split; [apply Z.div_pos; lia|]. apply Z.div_lt_upper_bound; lia. }
  pose proof (NoDup_submseteq _ _ Hnd Hsub) as Hm%submseteq_length. rewrite length_fmap, length_seqZ in Hm. lia.
Qed.

(** C8. The record kept by starts and ticks while the clock does not go back,
    other writers and failures between their statements included: every span
    ends no earlier than it starts, with a known reason exactly when it ended;
    two spans of one node and one observed state lie more than the collapse
    window apart, so at most one is open and at most six start in any hour,
    while the spans of the time nobody watched, one for each start after a gap,
    have no such bound; and a later start or tick deletes no span and takes from
    none a moment the recorder had observed. *)
Theorem history_is_kept t d :
  recorded t d ->
  (forall p, p ∈ periods d -> p_started p <= t /\
     match p_ended p with
     | Some e => p_started p <= e <= t /\ exists r, p_reason p = Some r /\ r ∈ endReasons
     | None => p_reason p = None /\ p_state p ≠ StateUnobserved
     end) /\
  (forall p q, p ∈ periods d -> q ∈ periods d -> p_id p ≠ p_id q -> key p = key q -> p_state p ≠ StateUnobserved ->
     apart p q \/ apart q p) /\
  (forall k a, k.2 ≠ StateUnobserved ->
     Z.of_nat (length (filter (starts_within k a (3600 * GoTime.Second)) (periods d))) <= 6) /\
  (forall now d' r, t <= now -> text_time now ->
     alone others (Start onTokenConflict birdcageVersion now) d d' r \/ alone others (Tick onTokenConflict birdcageVersion now) d d' r ->
     forall p, p ∈ periods d -> exists p', p' ∈ periods d' /\ same_span p p' /\
       forall s, s <= observed d -> covers p s -> covers p' s).
Proof.
  intros HI%recorded_inv. pose proof (hi_spans _ _ HI) as Hs. split; [|split; [|split]].
  - intros p Hp. destruct (span_in _ _ _ _ Hs p Hp) as [H1 H2]. split; [done|]. destruct (p_ended p); tauto.
  - apply (so_apart _ _ _ _ Hs).
  - intros k a Hk. exact (starts_bounded _ _ _ _ k a 6 Hs Hk ltac:(lia)).
  - intros now d' r Ht Hnow Ha p Hp.
    assert (hist_le d d') as [_ Hle] by (destruct Ha as [Ha|Ha]; [by destruct (start_alone _ _ _ _ _ HI Ht Hnow Ha)|by destruct (tick_alone _ _ _ _ _ HI Ht Hnow Ha)]).
    exact (Hle p Hp).
Qed.

(** C9. A tick on which no statement fails leaves open exactly the spans of
    the states that hold of the nodes now and advances the last tick, or the
    alert failed and it changed nothing. A start after a gap records it as
    unobserved for every node; after one longer than the collapse window, at the
    resolution the database compares times at, no other span covers a moment of
    the gap, after a shorter one a state found again continues its old span, the
    gap included. *)
Theorem ticks_follow_states t d now :
  recorded t d -> t <= now -> text_time now ->
  (exists d' r, exec (Tick onTokenConflict birdcageVersion now) d = (d', r) /\
     (r = Err ErrConflictHook /\ d' = d /\ onTokenConflict ≠ None \/
      r = Ok tt /\ observed d' = now /\ forall id s,
        (exists p, p ∈ periods d' /\ is_open p /\ key p = (id, state_name s)) <->
        exists row, row ∈ rows (health d) /\ h_id row = id /\ holds (health d) now birdcageVersion row s = true)) /\
  (forall d', 0 < observed d -> observed d + unobservedAfter < now ->
     exec (Start onTokenConflict birdcageVersion now) d = (d', Ok tt) ->
     (forall row, row ∈ rows (health d) -> exists p, p ∈ periods d' /\ key p = (h_id row, StateUnobserved) /\
        p_started p = observed d /\ p_ended p = Some now) /\
     (instant (observed d) < instant (now - collapseWindow) ->
        forall p s, p ∈ periods d' -> p_state p ≠ StateUnobserved -> observed d < s < now -> ~ covers p s) /\
     (instant (now - collapseWindow) <= instant (observed d) ->
        forall p, p ∈ periods d -> is_open p -> key p ∈ open_keys (periods d') ->
        exists p', p' ∈ periods d' /\ same_span p p' /\ is_open p')).
Proof.
  intros HI%recorded_inv Ht Hnow. split.
  - destruct (tick_exec t now d HI Ht Hnow) as (cs & Hp & Hti & Hnd & _ & He). rewrite He. clear He.
    destruct (exec (tick_body onTokenConflict cs now) d) as [d1 r1] eqn:He.
    destruct (tick_body_ok t now cs d d1 r1 HI Ht Hnow Hnd He) as [[-> Hf]|(-> & _ & _ & _ & Hobs & Hk & _)].
    + eexists _, _. split; [done|]. by left.
    + eexists _, _. split; [done|]. right. split; [done|]. split; [done|]. intros id s. rewrite <- active_keys_hold, <- Hk by done.
      by rewrite elem_of_open_keys.
  - intros d' Hpos Hgap He. unfold Start, setting_call in He.
    rewrite exec_pbind, exec_on_table in He by (done || by intros []). rewrite (get_exec _ _ _ _ history_def) in He. cbn [fst snd] in He.
    assert (put_settings (settings d) d = d) as Hput by (by destruct d). rewrite Hput in He. clear Hput.
    set (raw := match settings d !! SettingHistoryLastTick with Some v => v.1 | None => [] end) in He.
    assert (resumed raw d) as Hraw by (unfold resumed, raw; by destruct (settings d !! SettingHistoryLastTick)).
    destruct (resumed_parse t d raw HI Hraw) as [[_ H0]|(Hne & Hparse & Htx)]; [lia|].
    rewrite bool_decide_eq_false_2, Hparse in He by done.
    assert ((unobservedAfter <? time_sub now (observed d)) = true) as Htest
      by (apply Z.ltb_lt; unfold time_sub, unobservedAfter, GoTime.Second in *; lia).
    rewrite Htest, exec_call in He. unfold recordUnobserved in He. rewrite exec_call in He.
    destruct (tick_exec t now d HI Ht Hnow) as (cs & Hperm & _ & _ & Hact & _). rewrite Hact in He.
    unfold in_transaction in He. cbn [exec] in He. unfold transaction in He.
    destruct (exec (unobserved_body cs (observed d) now) d) as [d1 [[]|e]] eqn:He1; [|done].
    destruct (unobserved_body_ok t now cs d d1 HI Ht Hpos He1) as (HI1 & _ & Hobs1 & Hclosed & Hopen & Hmarks).
    destruct (tick_exec now now d1 HI1 ltac:(lia) Hnow) as (cs2 & _ & _ & Hnd2 & _ & He2). rewrite He2 in He. clear He2.
    destruct (exec (tick_body onTokenConflict cs2 now) d1) as [d2 r2] eqn:He2.
    destruct (tick_body_ok now now cs2 d1 d2 r2 HI1 ltac:(lia) Hnow Hnd2 He2) as [[-> _]|(-> & HI2 & _ & _ & _ & Hkeys & Hnew)]; [done|].
    injection He as <-. assert (forall p, p ∈ periods d1 -> ~ is_open p) as Hno
      by (intros p Hp Ho; destruct (Hclosed p Hp) as (e & He & _); unfold is_open in Ho; congruence).
    destruct (Hnew Hno) as [Hnew' Hmark']. clear Hnew. rename Hnew' into Hnew. split; [|split].
    + intros row Hrow. rewrite <- Hperm in Hrow. apply list_elem_of_fmap in Hrow as (c & -> & Hc).
      destruct (Hmarks c Hc) as (p & Hp & Hk & Hse). exists p. split; [|done]. apply Hmark'; [done|]. by injection Hk.
    + intros Hlong p s Hp Hst Hs [Hc1 Hc2]. destruct (Hnew p Hp) as [Hp1|(Hop & _ & [[Hs0 _]|(q & e & Hq & (_ & Hkq & _) & He & Hle & _)])].
      * destruct (Hclosed p Hp1) as (e & He & Hle). rewrite He in Hc2. specialize (Hle Hst). lia.
      * lia.
      * destruct (Hclosed q Hq) as (e' & He' & Hle'). rewrite He in He'. injection He' as <-.
        assert (p_state q ≠ StateUnobserved) as Hstq by (injection Hkq as _ <-; done). specialize (Hle' Hstq). apply instant_mono in Hle'. lia.
    + intros Hshort p Hp Hop (p' & Hp' & Hop' & Hk)%elem_of_open_keys.
      destruct (Hopen p Hp Hop) as (p1 & Hp1 & Hs1 & He1').
      assert (key p1 = key p) as Hk1 by apply Hs1.
      destruct (Hnew p' Hp') as [Hp1'|(_ & Hst & [[_ Hall]|(q & e & Hq & Hsq & He & Hle & Hmax)])].
      * by destruct (Hno p' Hp1').
      * specialize (Hall p1 (observed d) Hp1 ltac:(congruence) He1'). lia.
      * assert (key q = key p1) as Hkq by (destruct Hsq as (_ & Hkq & _); congruence).
        assert (p_state q ≠ StateUnobserved) as Hstq by (destruct Hsq as (_ & Hk' & _); injection Hk' as _ <-; done).
        pose proof (hi_spans _ _ HI1) as Hsp1.
        assert (q = p1) as ->.
        { destruct (decide (p_id q = p_id p1)) as [|Hneq]; [by eapply (same_row _ _ _ _ Hsp1)|exfalso].
          destruct (Hclosed q Hq) as (e' & He' & Hle'). rewrite He in He'. injection He' as <-. specialize (Hle' Hstq).
          destruct (span_in _ _ _ _ Hsp1 q Hq) as [_ Hq2], (span_in _ _ _ _ Hsp1 p1 Hp1) as [_ Hp2]. rewrite He in Hq2. rewrite He1' in Hp2.
          destruct (so_apart _ _ _ _ Hsp1 q p1 Hq Hp1 Hneq Hkq Hstq) as [(x & Hx & Hlt)|(x & Hx & Hlt)].
          - rewrite He in Hx. injection Hx as <-. specialize (Hmax p1 (observed d) Hp1 ltac:(congruence) He1').
            unfold collapseWindow, GoTime.Second in *. lia.
          - rewrite He1' in Hx. injection Hx as <-.
            unfold collapseWindow, GoTime.Second in *. lia. }
        exists p'. split; [done|]. split; [|done]. destruct Hs1 as (I1 & _ & S1), Hsq as (I2 & _ & S2). unfold same_span. split_and!; congruence.
Qed.
End recorder.

(** ** The summary *)

Lemma i64_add_l a b : i64 (i64 a + b) = i64 (a + b).
Proof. unfold wrap_i. f_equal. rewrite <- (Z.add_opp_r _ (2 ^ (64 - 1))), <- !Z.add_assoc, Zplus_mod_idemp_l. f_equal. lia. Qed.

Lemma longest_snoc l b : foldr Z.max 0 (l ++ [b]) = if foldr Z.max 0 l <? b then b else foldr Z.max 0 l.
Proof.
  assert (0 <= foldr Z.max 0 l /\ foldr Z.max 0 (l ++ [b]) = Z.max (foldr Z.max 0 l) b) as [H0 ->];
    [|destruct (Z.ltb_spec (foldr Z.max 0 l) b); lia].
  induction l as [|y l IH]; simpl; [lia|]. destruct IH as [? ->]. lia.
Qed.

Definition of_key (k : bytes * bytes) (ps : list (bytes * StatePeriod)) : list (bytes * StatePeriod) := filter (fun x => key x.2 = k) ps.

Definition sums_up (since until : Z) (ps : list (bytes * StatePeriod)) (s : StateSummary) : Prop :=
  let spans := clipped since until ∘ snd <$> of_key (sum_key s) ps in
  s_count s = i64 (zlen spans) /\ s_total s = i64 (sum_by id spans) /\ s_longest s = foldr Z.max 0 spans.

(** One summary for each node and state among the periods, with the number,
    the sum and the longest of their seconds inside the window. *)
Theorem summaries_add_up ps since until :
  let out := SummarizeStatePeriods ps since until in
  NoDup (sum_key <$> out) /\ (forall k, k ∈ sum_key <$> out <-> k ∈ key ∘ snd <$> ps) /\ Forall (sums_up since until ps) out.
Proof.
  cbv zeta. unfold SummarizeStatePeriods. set (out := foldl (add_total since until) [] ps).
  assert (NoDup (sum_key <$> out) /\ (forall k, k ∈ sum_key <$> out <-> k ∈ key ∘ snd <$> ps) /\ Forall (sums_up since until ps) out)
    as (H1 & H2 & H3); [|split; [|split]; [by rewrite merge_sort_Permutation|intros k; by rewrite merge_sort_Permutation|by rewrite merge_sort_Permutation]].
  subst out. induction ps as [|x ps IH] using rev_ind; [split; [constructor|split; [done|constructor]]|].
  rewrite foldl_snoc. destruct IH as (Hnd & Hk & Hall). set (out := foldl _ [] ps) in *. unfold add_total.
  set (k := key x.2). set (out1 := if bool_decide _ then out else _).
  assert (NoDup (sum_key <$> out1) /\ (forall j, j ∈ sum_key <$> out1 <-> j ∈ sum_key <$> out \/ j = k) /\ Forall (sums_up since until ps) out1)
    as (Hnd1 & Hk1 & Hall1).
  { unfold out1. case_bool_decide as Hin; [split; [done|split; [|done]]; intros j; split; [by left|by intros [?| ->]]|]. split; [|split].
    - apply NoDup_fmap_snoc; [done|]. intros y Hy Heq. apply Hin, list_elem_of_fmap. exists y. split; [|done]. by rewrite Heq.
    - intros j. rewrite fmap_app, elem_of_app. cbn [fmap list_fmap]. rewrite list_elem_of_singleton. done.
    - apply Forall_app. split; [done|]. constructor; [|constructor]. unfold sums_up.
      assert (of_key k ps = []) as He; [|unfold sum_key; cbn [s_canary s_state]; fold (key x.2) k; by rewrite He].
      apply filter_none, Forall_forall. intros y Hy Heq. apply Hin, Hk, list_elem_of_fmap. exists y. by split. }
  clearbody out1. set (f := fun s => if bool_decide (sum_key s = k) then add_span _ s else s).
  assert (forall s, sum_key (f s) = sum_key s) as Hf by (intros s; unfold f; by case_bool_decide).
  assert (sum_key <$> (f <$> out1) = sum_key <$> out1) as Hfk
    by (rewrite <- list_fmap_compose; apply list_fmap_ext; intros _ s _; apply Hf).
  rewrite Hfk. split; [done|]. split.
  - intros j. rewrite Hk1, Hk, fmap_app, elem_of_app. cbn [fmap list_fmap]. rewrite list_elem_of_singleton. done.
  - apply Forall_fmap. eapply Forall_impl; [exact Hall1|]. intros s (Hc & Ht & Hl). unfold compose, sums_up. rewrite Hf.
    unfold of_key. rewrite filter_app, filter_cons, filter_nil. fold k. unfold f. case_bool_decide as Hs.
    + rewrite decide_True by done. rewrite fmap_app. cbn [fmap list_fmap]. rewrite zlen_app, sum_by_app, longest_snoc.
      cbn [add_span s_count s_total s_longest]. unfold of_key in Hc, Ht, Hl. rewrite Hc, Ht, Hl, !i64_add_l. split; [done|]. split.
      { f_equal. cbn. unfold compose, id. lia. }
      done.
    + rewrite decide_False by (intros ?; by apply Hs). rewrite app_nil_r. done.
Qed.

(** ** An execution *)

#[local] Instance ex_time : TimeText := {|
  FormatTime t := [t];
  ParseTime s := match s with [t] => Some t | _ => None end;
  ParseTime_Format t _ := eq_refl;
  ParseTime_empty := eq_refl;
|}.

#[local] Existing Instance ex_sort.
#[local] Existing Instance ex_julian.

Definition ex_version : bytes := lit "v1.0.0".
Definition ex_hist0 : hist_db unit := mkHist ex_health [] 1 ∅ tt.
Definition ex_tick_at : Z := 1000.

(** Node c1 never beat: its first tick finds it silent. Birdcage stops for five
    minutes and finds it silent still. *)
Definition ex_hist1 : hist_db unit := (exec (Tick (UN := ascii_only) None ex_version ex_tick_at) ex_hist0).1.
Definition ex_back_at : Z := ex_tick_at + 300 * GoTime.Second.
Definition ex_hist2 : hist_db unit := (exec (Start (UN := ascii_only) None ex_version ex_back_at) ex_hist1).1.

Lemma ex_recorded : recorded (UN := ascii_only) None ex_version ex_tick_at ex_hist1.
Proof.
  unfold ex_hist1. apply (recorded_exec None ex_version 0).
  - apply recorded_new; [reflexivity|reflexivity|]. apply (bool_decide_unpack _). vm_compute. exact I.
  - unfold ex_tick_at. lia.
  - split; reflexivity.
Qed.

Lemma history_is_kept_witness :
  (key <$> filter is_open (periods ex_hist1))= [(lit "c1", lit "silent")] /\
  Z.of_nat (length (filter (starts_within (lit "c1", lit "silent") 0 (3600 * GoTime.Second)) (periods ex_hist1))) <= 6.
Proof.
  split; [vm_compute; reflexivity|].
  apply (history_is_kept (UN := ascii_only) None ex_version ex_tick_at ex_hist1 ex_recorded). apply (bool_decide_unpack _). vm_compute. exact I.
Defined.


Definition ex_silent : StatePeriod := mkPeriod 1 (lit "c1") (lit "silent") ex_tick_at None 1 None.

Lemma ex_back_later : ex_tick_at <= ex_back_at.
Proof. unfold ex_back_at, GoTime.Second. lia. Qed.

Lemma ex_back_text : text_time ex_back_at.
Proof. split; [reflexivity|vm_compute; reflexivity]. Qed.

Lemma ex_observed : observed ex_hist1 = ex_tick_at.
Proof. vm_compute. reflexivity. Qed.

Lemma ex_observed_pos : 0 < observed ex_hist1.
Proof. rewrite ex_observed. reflexivity. Qed.

Lemma ex_gap : unobservedAfter < ex_back_at - observed ex_hist1.
Proof. rewrite ex_observed. reflexivity. Qed.

Lemma ex_within : ex_back_at <= ex_tick_at + collapseWindow.
Proof. vm_compute. discriminate. Qed.

Lemma ex_restart : exec (Start (UN := ascii_only) None ex_version ex_back_at) ex_hist1 = (ex_hist2, Ok tt).
Proof.
  assert ((exec (Start (UN := ascii_only) None ex_version ex_back_at) ex_hist1).2 = Ok tt) as Hr by (vm_compute; reflexivity).
  rewrite <- Hr. apply surjective_pairing.
Qed.

Lemma ex_was_silent : ex_silent ∈ periods ex_hist1.
Proof. vm_compute. left. Qed.

Lemma ex_still_silent : key ex_silent ∈ open_keys (periods ex_hist2).
Proof. apply (bool_decide_unpack _). vm_compute. exact I. Qed.

(** The five minutes nobody watched are on record, and the silence of c1, which
    was not seen through them, is too. *)
Lemma ticks_follow_states_witness :
  exists d', exec (Start (UN := ascii_only) None ex_version ex_back_at) ex_hist1 = (d', Ok tt) /\
    (forall row, row ∈ rows (health ex_hist1) -> exists p, p ∈ periods d' /\ key p = (h_id row, StateUnobserved) /\
       p_started p = ex_tick_at /\ p_ended p = Some ex_back_at) /\
    exists p, p ∈ periods d' /\ key p = (lit "c1", lit "silent") /\ p_started p = ex_tick_at /\ is_open p.
Proof.
  destruct (ticks_follow_states (UN := ascii_only) None ex_version ex_tick_at ex_hist1 ex_back_at ex_recorded ex_back_later ex_back_text) as [_ Hs].
  destruct (Hs ex_hist2 ex_observed_pos ex_gap ex_restart) as (Hmark & _ & Hshort).
  rewrite ex_observed in Hmark, Hshort. exists ex_hist2. split; [exact ex_restart|]. split; [exact Hmark|].
  destruct (Hshort ex_within ex_silent ex_was_silent eq_refl ex_still_silent) as (p & Hp & (_ & Hk & Hst) & Ho).
  exists p. split; [exact Hp|]. split; [rewrite Hk; reflexivity|]. split; [rewrite Hst; reflexivity|exact Ho].
Defined.
