(* ===== verification/Approval.v ===== *)
(** The check of an administrator's approval ([internal/agent/approval]): from
    the raw bytes of a mail to the approval it is, or the first rule it breaks.

    The mail package ([ReadMessage], [ParseAddress], [ParseDate]), the decoding
    of encoded words and the verification of DKIM signatures
    ([github.com/emersion/go-msgauth/dkim]) are operations of the class
    [MailLib], about which nothing is assumed. *)
From S2P Require Import Prelude GoBase GoStrings Sql.
#[local] Open Scope Z_scope.

(** ** Outside the repository *)

(** A header's values under their canonical keys, in order. *)
Abbreviation header := (gmap bytes (list bytes)).

Record Verification : Type := mkVerification {
  v_Domain : bytes;
  v_HeaderKeys : list bytes;
  v_valid : bool;
}.

Inductive dkim_error : Type :=
| ErrTooManySignatures
| ErrSignaturesUnreadable.

(** [VerifyWithOptions] reads the clock itself, for signatures that expire. *)
Class MailLib : Type := {
  ReadMessage : bytes -> option header;
  ParseAddress : bytes -> option bytes;
  ParseDate : bytes -> option Z;
  DecodeHeader : bytes -> option bytes;
  VerifyWithOptions : Z -> bytes -> (bytes -> option (list bytes)) -> Z -> res dkim_error (list Verification);
}.

(** ** Rules *)

Definition MaxRawSize : Z := Z.shiftl 1 20.
Definition maxSignatures : Z := 8.
Definition signedHeaders : list bytes := [lit "from"; lit "subject"; lit "date"; lit "message-id"].

(** [Rules]: the nil hooks are [None]; the replay check is a program over the
    caller's database. *)
Record Rules (D : Type) : Type := mkRules {
  PinnedFrom : bytes;
  PinnedSigningDomain : bytes;
  Reference : bytes;
  Now : Z;
  MaxAge : Z;
  Resolver : option (bytes -> option (list bytes));
  Seen : option (bytes -> prog D bool);
}.
Arguments mkRules {D}.
Arguments PinnedFrom {D}.
Arguments PinnedSigningDomain {D}.
Arguments Reference {D}.
Arguments Now {D}.
Arguments MaxAge {D}.
Arguments Resolver {D}.
Arguments Seen {D}.

Record Approval : Type := mkApproval {
  From : bytes;
  MessageID : bytes;
  Subject : bytes;
  Date : Z;
  Domain : bytes;
  Selector : bytes;
}.

(** What the call finds besides its arguments: a context cancelled at the
    start or at a lookup, and the clock of the signatures' expiry. *)
Record call_env : Type := mkEnv {
  cancelled : bool;
  cancelled_at : bytes -> bool;
  clock : Z;
}.

Inductive approval_error : Type :=
| ErrCancelled
| ErrTooLarge
| ErrNothingPinned
| ErrPinnedInvalid
| ErrPinnedNoDomain
| ErrNoReference
| ErrReferenceBracket
| ErrNowZero
| ErrMaxAge
| ErrResolverNil
| ErrSeenNil
| ErrNotAnEmail
| ErrHeaderCount (name : bytes) (n : Z)
| ErrFromInvalid (value : bytes)
| ErrWrongSender (got pinned : bytes)
| ErrSubject (token subject : bytes)
| ErrDateUnreadable
| ErrDateAway (skew : Z)
| ErrNoMessageID
| ErrAlreadyAccepted (messageID : bytes)
| ErrUnsigned
| ErrBodyLength
| ErrWrongDomain (signers : list bytes)
| ErrManySignatures (n : Z)
| ErrSignatureCount
| ErrSignatureCheck
| ErrManyValid
| ErrInvalidSignature
| ErrNoValidSignature
| ErrNotCovered (missing : list bytes)
| ErrNoSelector.

Section approval.
Context {UN : Unicode} {ML : MailLib}.

Definition Token (reference : bytes) : bytes := lit "[birdcage " ++ reference ++ lit "]".

(** ** Subjects *)

Definition subjectForms (subject : bytes) : list bytes :=
  match DecodeHeader subject with
  | Some decoded => if bool_decide (decoded = subject) then [subject] else [subject; decoded]
  | None => [subject]
  end.

Definition subjectCarries (subject token : bytes) : bool := existsb (fun s => ContainsStr s token) (subjectForms subject).

Fixpoint first_reference (forms : list bytes) : bytes :=
  match forms with
  | [] => []
  | s :: forms =>
      let '(_, rest, ok) := CutStr s (lit "[birdcage ") in
      if negb ok then first_reference forms else
      let '(ref, _, ok) := Cut rest 93 in
      if negb ok then first_reference forms else
      let ref := TrimSpace ref in
      if bool_decide (ref = []) then first_reference forms else ref
  end.

Definition SubjectReference (subject : bytes) : bytes := first_reference (subjectForms subject).

(** ** Addresses and line endings *)

Definition domain (address : bytes) : bytes := let '(_, d, _) := Cut address 64 in d.

Definition signingDomain {D} (r : Rules D) (pinned : bytes) : bytes :=
  let d := TrimSpace (PinnedSigningDomain r) in if bool_decide (d = []) then domain pinned else d.

Definition sameAddress (got pinned : bytes) : bool :=
  let '(gotLocal, gotDomain, ok) := Cut got 64 in
  if negb ok then false else
  let '(pinnedLocal, pinnedDomain, ok) := Cut pinned 64 in
  if negb ok then false else
  bool_decide (gotLocal = pinnedLocal) && EqualFold gotDomain pinnedDomain.

(** [prev] is the byte before. *)
Fixpoint normalize_from (prev : Z) (raw : bytes) : bytes :=
  match raw with
  | [] => []
  | b :: rest =>
      (if (b =? 10) && negb (prev =? 13) then [13; 10] else [b]) ++ normalize_from b rest
  end.

Definition normalizeLineEndings (raw : bytes) : bytes :=
  if negb (bool_decide (10 ∈ raw)) then raw else normalize_from 0 raw.

(** ** Checking the rules themselves *)

Definition validate {D} (r : Rules D) : res approval_error bytes :=
  if bool_decide (TrimSpace (PinnedFrom r) = []) then Err ErrNothingPinned else
  match ParseAddress (PinnedFrom r) with
  | None => Err ErrPinnedInvalid
  | Some addr =>
      let '(_, d, ok) := Cut addr 64 in
      if negb ok || bool_decide (d = []) then Err ErrPinnedNoDomain else
      if bool_decide (TrimSpace (Reference r) = []) then Err ErrNoReference else
      if existsb (fun c => (c =? 91) || (c =? 93)) (Reference r) then Err ErrReferenceBracket else
      if Now r =? 0 then Err ErrNowZero else
      if MaxAge r <=? 0 then Err ErrMaxAge else
      if bool_decide (is_Some (Resolver r)) then
        if bool_decide (is_Some (Seen r)) then Ok addr else Err ErrSeenNil
      else Err ErrResolverNil
  end.

(** ** The signature *)

Definition add_tag (tags : gmap bytes bytes) (part : bytes) : gmap bytes bytes :=
  let '(name, v, ok) := Cut part 61 in
  if negb ok then tags else
  let name := TrimSpace name in
  if bool_decide (name = []) then tags else
  if bool_decide (is_Some (tags !! name)) then tags else
  <[name := TrimSpace v]> tags.

Definition parseTags (value : bytes) : gmap bytes bytes := foldl add_tag ∅ (Split value 59).

Definition values (h : header) (key : bytes) : list bytes := default [] (h !! key).

Definition signatureTags (raw : bytes) : option (list (gmap bytes bytes)) :=
  match ReadMessage raw with
  | None => None
  | Some msg => Some (parseTags <$> values msg (lit "Dkim-Signature"))
  end.

Definition tag (s : gmap bytes bytes) (name : bytes) : bytes := default [] (s !! name).

Fixpoint signing_domains (sigs : list (gmap bytes bytes)) (seen : list bytes) : list bytes :=
  match sigs with
  | [] => []
  | s :: sigs =>
      let d := TrimSpace (tag s (lit "d")) in
      let d := if bool_decide (d = []) then lit "(no domain)" else d in
      if bool_decide (d ∈ seen) then signing_domains sigs seen else d :: signing_domains sigs (d :: seen)
  end.

Definition signingDomains (sigs : list (gmap bytes bytes)) : list bytes :=
  let out := signing_domains sigs [] in if bool_decide (out = []) then [lit "nobody"] else out.

Definition missingSignedHeaders (keys : list bytes) : list bytes :=
  filter (fun want => want ∉ (fun k => ToLower (TrimSpace k)) <$> keys) signedHeaders.

(** The loop over the verifications: what was accepted and whether an invalid
    signature of the domain was met; [None] at the second valid one. *)
Fixpoint accept_one (wantDomain : bytes) (vs : list Verification) (accepted : option Verification) (failed : bool) :
    option (option Verification * bool) :=
  match vs with
  | [] => Some (accepted, failed)
  | v :: vs =>
      if negb (EqualFold (v_Domain v) wantDomain) then accept_one wantDomain vs accepted failed else
      if negb (v_valid v) then accept_one wantDomain vs accepted true else
      match accepted with
      | Some _ => None
      | None => accept_one wantDomain vs (Some v) failed
      end
  end.

Definition lookup (e : call_env) (resolver : bytes -> option (list bytes)) (name : bytes) : option (list bytes) :=
  if cancelled_at e name then None else resolver name.

Definition verifySignature (e : call_env) (raw wantDomain : bytes) (resolver : bytes -> option (list bytes)) :
    res approval_error (bytes * bytes) :=
  match signatureTags raw with
  | None => Err ErrNotAnEmail
  | Some sigs =>
      if bool_decide (sigs = []) then Err ErrUnsigned else
      if existsb (fun s => bool_decide (is_Some (s !! lit "l"))) sigs then Err ErrBodyLength else
      match List.filter (fun s => EqualFold (tag s (lit "d")) wantDomain) sigs with
      | [] => Err (ErrWrongDomain (signingDomains sigs))
      | _ :: _ :: _ as matching => Err (ErrManySignatures (zlen matching))
      | [matching] =>
          match VerifyWithOptions (clock e) raw (lookup e resolver) maxSignatures with
          | Err ErrTooManySignatures => Err ErrSignatureCount
          | Err ErrSignaturesUnreadable => Err ErrSignatureCheck
          | Ok vs =>
              match accept_one wantDomain vs None false with
              | None => Err ErrManyValid
              | Some (None, failed) => Err (if failed then ErrInvalidSignature else ErrNoValidSignature)
              | Some (Some accepted, _) =>
                  let missing := missingSignedHeaders (v_HeaderKeys accepted) in
                  if negb (bool_decide (missing = [])) then Err (ErrNotCovered missing) else
                  let selector := TrimSpace (tag matching (lit "s")) in
                  if bool_decide (selector = []) then Err ErrNoSelector else
                  Ok (selector, v_Domain accepted)
              end
          end
      end
  end.

(** ** The whole check *)

(** The single value of a header, or how many it has. *)
Definition single (msg : header) (key : bytes) : res approval_error bytes :=
  match values msg key with
  | [v] => Ok v
  | vs => Err (ErrHeaderCount key (zlen vs))
  end.

(** The checks of a message's headers, up to its Message-ID. *)
Definition check_headers {D} (r : Rules D) (pinned : bytes) (msg : header) :
    res approval_error (bytes * bytes * Z * bytes) :=
  match single msg (lit "From") with Err e => Err e | Ok from_value =>
  match ParseAddress from_value with None => Err (ErrFromInvalid from_value) | Some from =>
  if negb (sameAddress from pinned) then Err (ErrWrongSender from pinned) else
  match single msg (lit "Subject") with Err e => Err e | Ok subject =>
  let token := Token (Reference r) in
  if negb (subjectCarries subject token) then Err (ErrSubject token subject) else
  match single msg (lit "Date") with Err e => Err e | Ok date_value =>
  match ParseDate date_value with None => Err ErrDateUnreadable | Some date =>
  let skew := time_sub (Now r) date in
  if (MaxAge r <? skew) || (skew <? - MaxAge r) then Err (ErrDateAway skew) else
  match single msg (lit "Message-Id") with Err e => Err e | Ok id_value =>
  let messageID := TrimSpace id_value in
  if bool_decide (messageID = []) then Err ErrNoMessageID else
  Ok (from, subject, date, messageID)
  end end end end end end.

Definition Verify {D} (e : call_env) (raw : bytes) (r : Rules D) : prog D (res approval_error Approval) :=
  if cancelled e then Ret (Err ErrCancelled) else
  if MaxRawSize <? zlen raw then Ret (Err ErrTooLarge) else
  match validate r, Resolver r, Seen r with
  | Err err, _, _ => Ret (Err err)
  | Ok pinned, Some resolver, Some seen =>
      let raw := normalizeLineEndings raw in
      match ReadMessage raw with
      | None => Ret (Err ErrNotAnEmail)
      | Some msg =>
          match check_headers r pinned msg with
          | Err err => Ret (Err err)
          | Ok (from, subject, date, messageID) =>
              pbind (seen messageID) (fun accepted_before =>
              Ret (if accepted_before : bool then Err (ErrAlreadyAccepted messageID) else
                   match verifySignature e raw (signingDomain r pinned) resolver with
                   | Err err => Err err
                   | Ok (selector, domain) => Ok (mkApproval from messageID subject date domain selector)
                   end))
          end
      end
  | Ok _, None, _ => Ret (Err ErrResolverNil)
  | Ok _, _, None => Ret (Err ErrSeenNil)
  end.

(** ** What is accepted *)

(** The one value a message has for a header. *)
Definition has_one (msg : header) (key v : bytes) : Prop := values msg key = [v].

(** The token is in the subject, as received or as decoded. *)
Definition carries (subject token : bytes) : Prop :=
  exists form a b, (form = subject \/ DecodeHeader subject = Some form) /\ form = a ++ token ++ b.

(** Tag [name] of a signature header: the value of its first part of that
    name. *)
Definition first_tag (value name v : bytes) : Prop :=
  exists before part after text n,
    Split value 59 = before ++ part :: after /\ Cut part 61 = (n, text, true) /\ TrimSpace n = name /\ TrimSpace text = v /\
    forall q n' text', q ∈ before -> Cut q 61 = (n', text', true) -> TrimSpace n' ≠ name.

Definition no_tag (value name : bytes) : Prop :=
  forall q n text, q ∈ Split value 59 -> Cut q 61 = (n, text, true) -> TrimSpace n ≠ name.

Definition tag_is (value name v : bytes) : Prop := first_tag value name v \/ no_tag value name /\ v = [].

Definition signed_by (want value : bytes) : Prop := exists d, tag_is value (lit "d") d /\ EqualFold d want = true.

(** One signature of the domain, valid, over the four headers and the whole
    body; its selector. *)
Definition signed (e : call_env) (raw : bytes) (msg : header) (want : bytes) (resolver : bytes -> option (list bytes))
    (selector dom : bytes) : Prop :=
  (forall value, value ∈ values msg (lit "Dkim-Signature") -> no_tag value (lit "l")) /\
  (exists before value after,
     values msg (lit "Dkim-Signature") = before ++ value :: after /\ signed_by want value /\
     (forall other, other ∈ before ++ after -> ~ signed_by want other) /\
     exists s, tag_is value (lit "s") s /\ TrimSpace s = selector) /\
  selector ≠ [] /\
  exists vs before v after,
    VerifyWithOptions (clock e) raw (lookup e resolver) maxSignatures = Ok vs /\
    vs = before ++ v :: after /\ EqualFold (v_Domain v) want = true /\ v_valid v = true /\ v_Domain v = dom /\
    (forall u, u ∈ before ++ after -> EqualFold (v_Domain u) want = true -> v_valid u = false) /\
    forall h, h ∈ signedHeaders -> exists k, k ∈ v_HeaderKeys v /\ ToLower (TrimSpace k) = h.

(** The local part as it is, the domain in any case. *)
Definition same_mailbox (got pinned : bytes) : Prop :=
  exists local d1 d2, got = local ++ 64 :: d1 /\ pinned = local ++ 64 :: d2 /\ 64 ∉ local /\ EqualFold d1 d2 = true.

Definition approves {D} (e : call_env) (raw : bytes) (r : Rules D) (a : Approval) : Prop :=
  exists pinned resolver msg from_value subject date_value id_value,
    cancelled e = false /\ zlen raw <= MaxRawSize /\ validate r = Ok pinned /\ Resolver r = Some resolver /\
    ReadMessage (normalizeLineEndings raw) = Some msg /\
    has_one msg (lit "From") from_value /\ ParseAddress from_value = Some (From a) /\ same_mailbox (From a) pinned /\
    has_one msg (lit "Subject") subject /\ Subject a = subject /\ carries subject (Token (Reference r)) /\
    has_one msg (lit "Date") date_value /\ ParseDate date_value = Some (Date a) /\
    - MaxAge r <= time_sub (Now r) (Date a) <= MaxAge r /\
    has_one msg (lit "Message-Id") id_value /\ MessageID a = TrimSpace id_value /\ MessageID a ≠ [] /\
    signed e (normalizeLineEndings raw) msg (signingDomain r pinned) resolver (Selector a) (Domain a).

(** ** Lemmas *)

Lemma subjectCarries_spec subject token : subjectCarries subject token = true <-> carries subject token.
Proof.
  unfold subjectCarries, carries, subjectForms. rewrite existsb_exists. split.
  - intros (form & Hin & (a & b & ->)%ContainsStr_spec). eexists _, a, b. split; [|done].
    destruct (DecodeHeader subject) as [dec|] eqn:Hd; [case_bool_decide|]; cbn in Hin; naive_solver.
  - intros (form & a & b & Hf & Heq). exists form. split; [|apply ContainsStr_spec; eauto].
    destruct (DecodeHeader subject) as [dec|] eqn:Hd; [case_bool_decide|]; cbn; naive_solver.
Qed.

Lemma app_first_inj (c : Z) (a a' b b' : bytes) : c ∉ a -> c ∉ a' -> a ++ c :: b = a' ++ c :: b' -> a = a' /\ b = b'.
Proof.
  revert a'. induction a as [|x a IH]; intros [|y a'] Ha Ha' Heq; cbn in Heq.
  - by injection Heq as ->.
  - injection Heq as -> _. destruct Ha'. by left.
  - injection Heq as -> _. destruct Ha. by left.
  - injection Heq as -> Heq. apply not_elem_of_cons in Ha as [_ Ha], Ha' as [_ Ha']. by destruct (IH a' Ha Ha' Heq) as [-> ->].
Qed.

Lemma sameAddress_spec got pinned : sameAddress got pinned = true <-> same_mailbox got pinned.
Proof.
  unfold sameAddress, same_mailbox. pose proof (Cut_spec got 64) as Hg. pose proof (Cut_spec pinned 64) as Hp.
  destruct (Cut got 64) as [[l1 d1] [|]]; cbn [negb].
  - destruct Hg as [-> H1]. destruct (Cut pinned 64) as [[l2 d2] [|]]; cbn [negb].
    + destruct Hp as [-> H2]. rewrite andb_true_iff, bool_decide_eq_true. split.
      * intros [-> Hd]. by exists l2, d1, d2.
      * intros (l & e1 & e2 & E1 & E2 & Hl & Hd). apply app_first_inj in E1 as [-> ->]; [|done..]. by apply app_first_inj in E2 as [-> ->].
    + destruct Hp as (-> & -> & Hn). split; [done|]. intros (l & e1 & e2 & _ & -> & _). set_solver.
  - destruct Hg as (-> & -> & Hn). split; [done|]. intros (l & e1 & e2 & -> & _). set_solver.
Qed.

Lemma add_tag_lookup tags part name v :
  add_tag tags part !! name = Some v <->
  tags !! name = Some v \/
  tags !! name = None /\ name ≠ [] /\ exists n text, Cut part 61 = (n, text, true) /\ TrimSpace n = name /\ TrimSpace text = v.
Proof.
  unfold add_tag. destruct (Cut part 61) as [[n text] [|]] eqn:Hc; cbn [negb]; [|naive_solver].
  case_bool_decide as Hn; [naive_solver|]. case_bool_decide as Hs.
  - split; [auto|]. intros [?|(Hno & _ & n' & text' & [= <- <-] & <- & _)]; [done|]. rewrite Hno in Hs. by destruct Hs.
  - apply eq_None_not_Some in Hs. destruct (decide (TrimSpace n = name)) as [<-|Hne].
    + rewrite lookup_insert_eq, Hs. naive_solver.
    + rewrite lookup_insert_ne by done. naive_solver.
Qed.

Lemma add_tag_none tags part name :
  name ≠ [] ->
  add_tag tags part !! name = None <-> tags !! name = None /\ forall n text, Cut part 61 = (n, text, true) -> TrimSpace n ≠ name.
Proof.
  intros Hname. rewrite !eq_None_not_Some. split.
  - intros Hno. split.
    + intros [v Hv]. apply Hno. exists v. apply add_tag_lookup. by left.
    + intros n text Hc Hn. apply Hno. destruct (tags !! name) as [v|] eqn:Ht.
      * exists v. apply add_tag_lookup. by left.
      * exists (TrimSpace text). apply add_tag_lookup. right. split; [done|]. split; [done|]. by exists n, text.
  - intros [Hno Hn] [v [Hv|(_ & _ & n & text & Hc & Heq & _)]%add_tag_lookup]; [by apply Hno|by eapply Hn].
Qed.

Lemma add_tags_none l name :
  name ≠ [] ->
  foldl add_tag ∅ l !! name = None <-> forall q n text, q ∈ l -> Cut q 61 = (n, text, true) -> TrimSpace n ≠ name.
Proof.
  intros Hname. induction l as [|part l IH] using rev_ind.
  { cbn. split; [|done]. by intros _ q n text ?%elem_of_nil. }
  rewrite foldl_snoc, add_tag_none, IH by done. split.
  - intros [Hl Hp] q n text [Hq| ->%list_elem_of_singleton]%elem_of_app; [by apply Hl|by apply Hp].
  - intros Hall. split; [intros q n text Hq; apply Hall, elem_of_app; by left|intros n text; apply Hall, elem_of_app; right; by left].
Qed.

Lemma parseTags_none value name : name ≠ [] -> parseTags value !! name = None <-> no_tag value name.
Proof. apply add_tags_none. Qed.

Lemma parseTags_lookup value name v : name ≠ [] -> parseTags value !! name = Some v <-> first_tag value name v.
Proof.
  intros Hname. unfold parseTags, first_tag. generalize (Split value 59) as l. intros l.
  induction l as [|part l IH] using rev_ind.
  { cbn. rewrite lookup_empty. split; [done|]. intros (before & part & after & ? & ? & H & _). by destruct before. }
  rewrite foldl_snoc, add_tag_lookup, IH, add_tags_none by done. split.
  - intros [(before & p & after & text & n & -> & H)|(Hno & _ & n & text & Hc & Hn & Ht)].
    + exists before, p, (after ++ [part]), text, n. split; [by rewrite <- app_assoc|done].
    + exists l, part, [], text, n. by split_and!.
  - intros (before & p & after & text & n & Hl & Hc & Hn & Ht & Hb). destruct after as [|q after _] using rev_ind.
    + apply app_inj_tail in Hl as [-> ->]. right. split; [done|]. split; [done|]. by exists n, text.
    + rewrite app_comm_cons, app_assoc in Hl. apply app_inj_tail in Hl as [-> ->]. left. by exists before, p, after, text, n.
Qed.

Lemma tag_spec value name v : name ≠ [] -> tag (parseTags value) name = v <-> tag_is value name v.
Proof.
  intros Hname. unfold tag, tag_is. rewrite <- parseTags_lookup, <- parseTags_none by done.
  destruct (parseTags value !! name) as [w|]; cbn; naive_solver.
Qed.

Lemma filter_one {A B} (f : B -> bool) (g : A -> B) (l : list A) m :
  List.filter f (g <$> l) = [m] <->
  exists before x after, l = before ++ x :: after /\ m = g x /\ f (g x) = true /\ forall y, y ∈ before ++ after -> f (g y) = false.
Proof.
  assert (forall l, List.filter f (g <$> l) = [] <-> forall y, y ∈ l -> f (g y) = false) as Hnil.
  { clear l. intros l. induction l as [|y l IH]; cbn; [split; [by intros _ y ?%elem_of_nil|done]|].
    destruct (f (g y)) eqn:Hy; [split; [done|]; intros H; by rewrite H in Hy by left|]. rewrite IH. split.
    - by intros H z [-> |Hz]%elem_of_cons; [|apply H].
    - intros H z Hz. apply H. by right. }
  induction l as [|y l IH]; cbn.
  { split; [done|]. intros (before & x & after & H & _). by destruct before. }
  destruct (f (g y)) eqn:Hy; split.
  - intros [= <- H]. exists [], y, l. split_and!; [done|done|done|]. exact (proj1 (Hnil l) H).
  - intros ([|z before] & x & after & [= -> ->] & -> & Hx & Hall); [f_equal; exact (proj2 (Hnil after) Hall)|].
    rewrite (Hall z) in Hy by left. done.
  - intros (before & x & after & -> & -> & Hx & Hall)%IH. exists (y :: before), x, after. split; [done|]. split; [done|]. split; [done|].
    cbn. by intros z [-> |Hz]%elem_of_cons; [|apply Hall].
  - intros ([|z before] & x & after & [= -> ->] & -> & Hx & Hall); [congruence|]. apply IH. exists before, x, after.
    split; [done|]. split; [done|]. split; [done|]. intros w Hw. apply Hall. by right.
Qed.

Definition counts (want : bytes) (v : Verification) : bool := EqualFold (v_Domain v) want && v_valid v.

Lemma accept_one_spec want vs v : forall acc failed,
  (exists fl, accept_one want vs acc failed = Some (Some v, fl)) <->
  match acc with Some u => u = v /\ List.filter (counts want) vs = [] | None => List.filter (counts want) vs = [v] end.
Proof.
  induction vs as [|u vs IH]; intros acc failed; cbn [accept_one List.filter].
  - destruct acc as [u|]; [split; [by intros [fl [= ->]]|intros [-> _]; eauto]|split; [by intros [fl ?]|done]].
  - assert (counts want u = EqualFold (v_Domain u) want && v_valid u) as -> by done. destruct (EqualFold (v_Domain u) want); cbn [negb andb]; [|apply IH].
    destruct (v_valid u); cbn [negb]; [|apply IH]. destruct acc as [w|].
    + split; [by intros [fl ?]|by intros [_ ?]].
    + rewrite IH. split; [by intros [-> ->]|by intros [= -> ->]].
Qed.

Lemma missing_none keys :
  missingSignedHeaders keys = [] <-> forall h, h ∈ signedHeaders -> exists k, k ∈ keys /\ ToLower (TrimSpace k) = h.
Proof.
  unfold missingSignedHeaders. split; intros H; [intros h Hh|apply filter_none, Forall_forall; intros h Hh].
  - pose proof (filter_nil_not_elem_of _ _ h H) as Hn. destruct (decide (h ∈ (fun k => ToLower (TrimSpace k)) <$> keys)) as [Hk|Hk]; [|by destruct (Hn Hk)].
    apply list_elem_of_fmap in Hk as (k & -> & Hk). by exists k.
  - destruct (H h Hh) as (k & Hk & <-). intros Hn. apply Hn, list_elem_of_fmap. by exists k.
Qed.

Lemma verifySignature_shape e raw msg want resolver selector dom :
  let sigs := parseTags <$> values msg (lit "Dkim-Signature") in
  ReadMessage raw = Some msg ->
  verifySignature e raw want resolver = Ok (selector, dom) <->
  Forall (fun s => s !! lit "l" = None) sigs /\
  (exists m, List.filter (fun s => EqualFold (tag s (lit "d")) want) sigs = [m] /\ TrimSpace (tag m (lit "s")) = selector) /\
  selector ≠ [] /\
  exists vs v, VerifyWithOptions (clock e) raw (lookup e resolver) maxSignatures = Ok vs /\
    List.filter (counts want) vs = [v] /\ v_Domain v = dom /\ missingSignedHeaders (v_HeaderKeys v) = [].
Proof.
  intros sigs Hmsg. unfold verifySignature, signatureTags. rewrite Hmsg. fold sigs. clearbody sigs.
  case_bool_decide as Hs; [subst; split; [done|]; by intros (_ & (m & [=] & _) & _)|]. clear Hs.
  destruct (existsb (fun s => bool_decide (is_Some (s !! lit "l"))) sigs) eqn:Hl.
  { split; [done|]. intros (Hno & _). exfalso. apply existsb_exists in Hl as (s & Hs & Hls%bool_decide_eq_true).
    rewrite Forall_forall in Hno. rewrite Hno in Hls by (by apply list_elem_of_In). by destruct Hls. }
  assert (Forall (fun s => s !! lit "l" = None) sigs) as Hno.
  { apply Forall_forall. intros s Hs. destruct (s !! lit "l") as [w|] eqn:Hw; [|done]. exfalso.
    assert (existsb (fun s => bool_decide (is_Some (s !! lit "l"))) sigs = true) as Ht; [|congruence].
    apply existsb_exists. exists s. split; [by apply list_elem_of_In|]. apply bool_decide_eq_true. rewrite Hw. by exists w. }
  destruct (List.filter _ sigs) as [|m [|m2 ms]];
    [split; [done|]; by intros (_ & (m & [=] & _) & _)| |split; [done|]; by intros (_ & (m' & [=] & _) & _)].
  destruct (VerifyWithOptions _ _ _ _) as [vs|[]];
    [|split; [done|]; by intros (_ & _ & _ & vs & v & [=] & _)..].
  pose proof (fun v => accept_one_spec want vs v None false) as Hspec. cbn in Hspec.
  destruct (accept_one want vs None false) as [[[v|] fl]|].
  - assert (List.filter (counts want) vs = [v]) as Hv by (apply Hspec; by exists fl). case_bool_decide as Hmiss; cbn [negb].
    + case_bool_decide as Hsel.
      * split; [done|]. intros (_ & (m' & [= <-] & <-) & Hne & _). by destruct Hne.
      * split.
        -- intros [= <- <-]. split; [done|]. split; [by exists m|]. split; [done|]. by exists vs, v.
        -- intros (_ & (m' & [= <-] & <-) & _ & vs' & v' & [= <-] & Hv' & <- & _). rewrite Hv in Hv'. by injection Hv' as <-.
    + split; [done|]. intros (_ & _ & _ & vs' & v' & [= <-] & Hv' & _ & Hm). rewrite Hv in Hv'. by injection Hv' as <-.
  - split; [done|]. intros (_ & _ & _ & vs' & v' & [= <-] & [fl' [=]]%Hspec & _).
  - split; [done|]. intros (_ & _ & _ & vs' & v' & [= <-] & [fl' [=]]%Hspec & _).
Qed.

Lemma and_iff_compat (A A' B B' : Prop) : (A <-> A') -> (B <-> B') -> (A /\ B <-> A' /\ B').
Proof. tauto. Qed.

Lemma verifySignature_spec e raw msg want resolver selector dom :
  ReadMessage raw = Some msg ->
  verifySignature e raw want resolver = Ok (selector, dom) <-> signed e raw msg want resolver selector dom.
Proof.
  intros Hmsg. rewrite (verifySignature_shape _ _ _ _ _ _ _ Hmsg). unfold signed. set (vals := values msg _).
  assert (forall s, EqualFold (tag (parseTags s) (lit "d")) want = true <-> signed_by want s) as Hd.
  { intros s. unfold signed_by. split; [|intros (d & Hd & H); by apply tag_spec in Hd as <-].
    intros H. exists (tag (parseTags s) (lit "d")). split; [by apply tag_spec|done]. }
  assert (forall s, EqualFold (tag (parseTags s) (lit "d")) want = false <-> ~ signed_by want s) as Hnd
    by (intros s; by rewrite <- Hd, not_true_iff_false).
  apply and_iff_compat; [|apply and_iff_compat; [|apply and_iff_compat; [done|]]].
  - rewrite Forall_fmap, Forall_forall. apply forall_proper. intros s. cbn. by rewrite parseTags_none.
  - split.
    + intros (m & (before & value & after & Hv & -> & H1 & H2)%filter_one & Hs). exists before, value, after. split; [done|].
      split; [by apply Hd|]. split; [intros other Ho; by apply Hnd, H2|]. exists (tag (parseTags value) (lit "s")). split; [by apply tag_spec|done].
    + intros (before & value & after & Hv & H1 & H2 & s & Hs & Hsel). apply tag_spec in Hs as <-; [|done]. exists (parseTags value). split; [|done].
      apply filter_one. exists before, value, after. split; [done|]. split; [done|]. split; [by apply Hd|]. intros y Hy. by apply Hnd, H2.
  - apply exist_proper. intros vs. setoid_rewrite (missing_none). split.
    + intros (v & Hvs & Hf & <- & Hm). rewrite <- (list_fmap_id vs) in Hf.
      apply filter_one in Hf as (before & x & after & Heq & Hx & [Hv1 Hv2]%andb_true_iff & Hall). unfold id in Hx, Hv1, Hv2. subst x. exists before, v, after. split_and!; try done.
      intros u Hu Hw. specialize (Hall u Hu). unfold counts, id in Hall. by rewrite Hw in Hall.
    + intros (before & v & after & Hvs & -> & H1 & H2 & <- & Hall & Hm). exists v. split_and!; try done.
      rewrite <- (list_fmap_id (before ++ v :: after)). apply filter_one. exists before, v, after. split_and!; try done.
      * unfold counts, id. by rewrite H1, H2.
      * intros u Hu. unfold counts, id. destruct (EqualFold (v_Domain u) want) eqn:Hw; [|done]. by apply Hall.
Qed.

Lemma single_spec msg key v : single msg key = Ok v <-> has_one msg key v.
Proof. unfold single, has_one. destruct (values msg key) as [|w [|]]; split; congruence. Qed.

(** The left side fails; the right side's facts disagree with what is known. *)
Ltac refused :=
  split; [done|]; intros; repeat match goal with H : ex _ |- _ => destruct H | H : _ /\ _ |- _ => destruct H end; simplify_eq; try congruence.

Lemma check_headers_spec {D} (r : Rules D) pinned msg from subject date id :
  check_headers r pinned msg = Ok (from, subject, date, id) <->
  exists from_value date_value id_value,
    has_one msg (lit "From") from_value /\ ParseAddress from_value = Some from /\ same_mailbox from pinned /\
    has_one msg (lit "Subject") subject /\ carries subject (Token (Reference r)) /\
    has_one msg (lit "Date") date_value /\ ParseDate date_value = Some date /\
    - MaxAge r <= time_sub (Now r) date <= MaxAge r /\
    has_one msg (lit "Message-Id") id_value /\ id = TrimSpace id_value /\ id ≠ [].
Proof.
  setoid_rewrite <- single_spec. setoid_rewrite <- sameAddress_spec. setoid_rewrite <- subjectCarries_spec. unfold check_headers.
  destruct (single msg (lit "From")) as [fv|]; [|by refused]. destruct (ParseAddress fv) as [f|] eqn:Hf; [|by refused].
  destruct (sameAddress f pinned) eqn:Hs; cbn [negb]; [|by refused]. destruct (single msg (lit "Subject")) as [s|]; [|by refused].
  destruct (subjectCarries s _) eqn:Hc; cbn [negb]; [|by refused]. destruct (single msg (lit "Date")) as [dv|]; [|by refused].
  destruct (ParseDate dv) as [d|] eqn:Hd; [|by refused].
  destruct (Z.ltb_spec (MaxAge r) (time_sub (Now r) d)); cbn [orb];
    [refused; lia|].
  destruct (Z.ltb_spec (time_sub (Now r) d) (- MaxAge r));
    [refused; lia|].
  destruct (single msg (lit "Message-Id")) as [iv|]; [|by refused]. case_bool_decide; [by refused|]. split.
  - intros [= <- <- <- <-]. exists fv, dv, iv. split_and!; done.
  - intros (fv' & dv' & iv' & [= <-] & Hf' & _ & [= <-] & _ & [= <-] & Hd' & _ & [= <-] & -> & _). congruence.
Qed.

Lemma validate_hooks {D} (r : Rules D) pinned : validate r = Ok pinned -> is_Some (Resolver r) /\ is_Some (Seen r).
Proof.
  unfold validate. intros H.
  repeat match type of H with
  | (if bool_decide ?P then _ else _) = _ => destruct (bool_decide P) eqn:?
  | (if ?b then _ else _) = _ => destruct b
  | (match ?x with _ => _ end) = _ => destruct x
  end; try done. by rewrite !bool_decide_eq_true in *.
Qed.

(** An approval's headers and its signature, each checked by its function. *)
Lemma approves_checked {D} e raw (r : Rules D) a :
  approves e raw r a <->
  exists pinned resolver msg,
    cancelled e = false /\ zlen raw <= MaxRawSize /\ validate r = Ok pinned /\ Resolver r = Some resolver /\
    ReadMessage (normalizeLineEndings raw) = Some msg /\
    check_headers r pinned msg = Ok (From a, Subject a, Date a, MessageID a) /\
    verifySignature e (normalizeLineEndings raw) (signingDomain r pinned) resolver = Ok (Selector a, Domain a).
Proof.
  destruct a as [f i s d dm sl]. unfold approves. cbn. split.
  - intros (p & res & msg & fv & s' & dv & iv & H1 & H2 & H3 & H4 & Hmsg & K1 & K2 & K3 & K4 & -> & K5 & K6 & K7 & K8 & K9 & K10 & K11 & Hsig).
    exists p, res, msg. split_and!; try done; [|by apply (verifySignature_spec _ _ _ _ _ _ _ Hmsg)].
    apply check_headers_spec. by exists fv, dv, iv.
  - intros (p & res & msg & H1 & H2 & H3 & H4 & Hmsg & (fv & dv & iv & Hh)%check_headers_spec & Hsig).
    exists p, res, msg, fv, s, dv, iv. apply (verifySignature_spec _ _ _ _ _ _ _ Hmsg) in Hsig. by split_and!; destruct_and?.
Qed.

Ltac no_approval :=
  intros ? ?; repeat match goal with H : ex _ |- _ => destruct H | H : _ /\ _ |- _ => destruct H end; simplify_eq; try congruence.

(** A check refuses at once, or asks whether the Message-ID is known and then
    for the signature. *)
Lemma Verify_shape {D} e raw (r : Rules D) :
  (exists err, Verify e raw r = Ret (Err err) /\ forall a, ~ approves e raw r a) \/
  (exists seen id answer, Seen r = Some seen /\
     Verify e raw r = pbind (seen id) (fun b : bool => Ret (if b then Err (ErrAlreadyAccepted id) else answer)) /\
     (forall a, answer = Ok a <-> approves e raw r a) /\ forall a, approves e raw r a -> MessageID a = id).
Proof.
  setoid_rewrite approves_checked. unfold Verify. destruct (cancelled e); [left; eexists; split; [done|]; by no_approval|].
  destruct (Z.ltb_spec MaxRawSize (zlen raw)); [left; eexists; split; [done|]; intros a (? & ? & ? & ? & ? & _); lia|].
  destruct (validate r) as [pinned|err] eqn:Hval; [|left; eexists; split; [done|]; by no_approval].
  destruct (validate_hooks _ _ Hval) as [[resolver Hres] [seen Hseen]]. rewrite Hres, Hseen.
  set (crlf := normalizeLineEndings raw). destruct (ReadMessage crlf) as [msg|] eqn:Hmsg; [|left; eexists; split; [done|]; by no_approval].
  destruct (check_headers r pinned msg) as [[[[from subject] date] id]|err] eqn:Hch; [right|left; eexists; split; [done|]; by no_approval].
  exists seen, id, (match verifySignature e crlf (signingDomain r pinned) resolver with
    | Err err => Err err | Ok (selector, dom) => Ok (mkApproval from id subject date dom selector) end).
  split; [done|]. split; [done|]. split; intros [f i s d dm sl]; cbn; [split|].
  - destruct (verifySignature e crlf _ resolver) as [[sel dom]|] eqn:Hsig; [|done]. intros [= -> -> -> -> -> ->].
    by exists pinned, resolver, msg.
  - intros (p' & r' & m' & _ & _ & [= <-] & [= <-] & [= <-] & Hh & ->). rewrite Hch in Hh. by injection Hh as -> -> -> ->.
  - intros (p' & r' & m' & _ & _ & [= <-] & [= <-] & [= <-] & Hh & _). rewrite Hch in Hh. by injection Hh as -> -> -> ->.
Qed.

(** *** Line endings and references *)

Definition crlf_only (raw : bytes) : Prop := forall a b, raw = a ++ 10 :: b -> last a = Some 13.

Lemma normalize_from_fixed raw : forall prev,
  (forall a b, raw = a ++ 10 :: b -> last (prev :: a) = Some 13) -> normalize_from prev raw = raw.
Proof.
  induction raw as [|c raw IH]; intros prev H; [done|]. cbn [normalize_from]. rewrite IH.
  - destruct (Z.eqb_spec c 10) as [->|]; [|done]. specialize (H [] raw eq_refl). injection H as ->. done.
  - intros a b ->. exact (H (c :: a) b eq_refl).
Qed.

Lemma normalize_from_crlf raw : forall prev a b, normalize_from prev raw = a ++ 10 :: b -> last (prev :: a) = Some 13.
Proof.
  induction raw as [|c raw IH]; intros prev a b H; cbn [normalize_from] in H; [by destruct a|].
  destruct (Z.eqb_spec c 10) as [->|Hc]; cbn [andb] in H.
  - destruct (Z.eqb_spec prev 13) as [->|Hp]; cbn [negb app] in H.
    + destruct a as [|x a]; [done|]. injection H as <- H. apply IH in H. done.
    + destruct a as [|x [|y a]]; [done| |].
      * by injection H as <- _.
      * injection H as <- <- H. apply IH in H. done.
  - destruct a as [|x a]; [by injection H as ->|]. injection H as <- H. apply IH in H. done.
Qed.

Lemma normalize_crlf raw : crlf_only (normalizeLineEndings raw).
Proof.
  unfold normalizeLineEndings. case_bool_decide as Hin; cbn [negb]; intros a b H.
  - destruct a as [|c a]; [|exact (normalize_from_crlf raw 0 (c :: a) b H)].
    pose proof (normalize_from_crlf raw 0 [] b H) as H'. done.
  - destruct Hin. rewrite H. apply elem_of_app. right. by left.
Qed.

Lemma normalize_fixed raw : crlf_only raw -> normalizeLineEndings raw = raw.
Proof.
  intros H. unfold normalizeLineEndings. case_bool_decide; [|done]. cbn [negb]. apply normalize_from_fixed.
  intros [|c a] b Hab; [by specialize (H [] b Hab)|]. exact (H _ _ Hab).
Qed.

Lemma reference_read prefix ref suffix :
  91 ∉ prefix -> 93 ∉ ref -> TrimSpace ref = ref -> ref ≠ [] -> SubjectReference (prefix ++ Token ref ++ suffix) = ref.
Proof.
  intros Hp Hr Ht Hne. unfold SubjectReference. set (s := prefix ++ _).
  assert (exists more, subjectForms s = s :: more) as [more ->]
    by (unfold subjectForms; destruct (DecodeHeader s); [case_bool_decide|]; eauto).
  cbn [first_reference].
  assert (CutStr s (lit "[birdcage ") = (prefix, ref ++ lit "]" ++ suffix, true)) as ->.
  { pose proof (CutStr_spec s (lit "[birdcage ")) as H. destruct (CutStr s _) as [[a b] [|]].
    - destruct H as [Heq Hmin]. unfold s, Token in Heq, Hmin. rewrite <- !app_assoc in Heq, Hmin. specialize (Hmin _ _ eq_refl).
      assert (91 ∉ a) as Ha.
      { intros Ha. apply Hp. assert (a = take (length a) prefix) as Htake
          by (rewrite <- (take_app_le prefix (lit "[birdcage " ++ ref ++ lit "]" ++ suffix)), Heq, take_app_length by done; done).
        rewrite Htake in Ha. eapply elem_of_take in Ha as (i & Hi & _). by eapply list_elem_of_lookup_2. }
      by apply (app_first_inj 91) in Heq as [-> [= <-]].
    - destruct H as (_ & _ & H). destruct (H prefix (ref ++ lit "]" ++ suffix)). unfold s, Token. by rewrite <- !app_assoc. }
  cbn [negb]. assert (Cut (ref ++ lit "]" ++ suffix) 93 = (ref, suffix, true)) as ->.
  { pose proof (Cut_spec (ref ++ lit "]" ++ suffix) 93) as H. destruct (Cut _ 93) as [[a b] [|]].
    - destruct H as [Heq Ha]. by apply (app_first_inj 93) in Heq as [-> ->].
    - destruct H as (_ & _ & H). destruct H. apply elem_of_app. right. by left. }
  cbn [negb]. by rewrite Ht, bool_decide_eq_false_2.
Qed.

(** C10. The check accepts a mail exactly when every rule holds of it: one From,
    Subject, Date and Message-ID header; the pinned mailbox, the request's
    token, a date within the limit and an identifier not known yet; and one
    signature of the pinned domain, valid, over these headers and the whole
    body. Line endings are CRLF whatever they were, so the same mail gives the
    same answer; and the reference read off a subject is the one its token was
    made from. *)
Theorem verify_accepts_exactly {D} e raw (r : Rules D) (db : D) :
  (forall db' a, exec (Verify e raw r) db = (db', Ok a) <->
     approves e raw r a /\ exists seen, Seen r = Some seen /\ exec (seen (MessageID a)) db = (db', false)) /\
  (crlf_only (normalizeLineEndings raw) /\ (crlf_only raw -> normalizeLineEndings raw = raw)) /\
  (forall raw', normalizeLineEndings raw' = normalizeLineEndings raw -> zlen raw <= MaxRawSize -> zlen raw' <= MaxRawSize ->
     Verify e raw' r = Verify e raw r) /\
  (forall prefix ref suffix, 91 ∉ prefix -> 93 ∉ ref -> TrimSpace ref = ref -> ref ≠ [] ->
     SubjectReference (prefix ++ Token ref ++ suffix) = ref).
Proof.
  split_and!; [|apply normalize_crlf|apply normalize_fixed| |apply reference_read].
  - intros db' a. destruct (Verify_shape e raw r) as [(err & -> & Hno)|(seen & id & answer & Hs & -> & Hans & Hid)].
    + cbn. split; [done|]. intros [Ha _]. by destruct (Hno a).
    + rewrite exec_pbind. split.
      * destruct (exec (seen id) db) as [db1 [|]] eqn:He; cbn; intros [= -> Ha]. apply Hans in Ha. split; [done|].
        exists seen. split; [done|]. by rewrite (Hid a Ha).
      * intros [Ha (seen' & Hs' & He)]. assert (seen' = seen) as -> by congruence. rewrite (Hid a Ha) in He. rewrite He. cbn.
        by apply Hans in Ha as ->.
  - intros raw' Hn H1 H2. unfold Verify. rewrite Hn. by rewrite !(proj2 (Z.ltb_ge _ _)).
Qed.
End approval.

(** ** An execution *)

(** Header lines as they come, addresses and dates (a number) as they are; a
    signature is valid when its selector's key is published. *)
#[local] Instance ex_mail : MailLib := {|
  ReadMessage raw :=
    Some (foldl (fun h line => let '(k, v, _) := Cut line 58 in
            <[k := default [] (h !! k) ++ [@TrimSpace ascii_only v]]> h) ∅
          (List.filter (fun l => bool_decide (58 ∈ l)) (Split raw 10)));
  ParseAddress s := if bool_decide (64 ∈ s) then Some s else None;
  ParseDate s := Atoi s;
  DecodeHeader _ := None;
  VerifyWithOptions _ _ dns _ :=
    Ok [mkVerification (lit "example.net") [lit "From"; lit "Subject"; lit "Date"; lit "Message-ID"]
          (bool_decide (dns (lit "k1._domainkey.example.net") ≠ None))];
|}.

Definition crlf_line (s : bytes) : bytes := s ++ [13; 10].

Definition ex_mail_raw : bytes :=
  crlf_line (lit "Dkim-Signature:v=1; d=Example.net; s=k1; bh=x=; b=y") ++
  crlf_line (lit "From: admin@example.net") ++ crlf_line (lit "Subject: Re: [birdcage r7] upgrade") ++
  crlf_line (lit "Date: 100000000000") ++ crlf_line (lit "Message-Id: <m1>") ++ crlf_line [] ++ crlf_line (lit "yes").

Definition ex_rules : Rules (list bytes) :=
  mkRules (lit "admin@EXAMPLE.net") [] (lit "r7") 160000000000 3600000000000 (Some (fun _ => Some [lit "p=key"]))
    (Some (fun id => Stmt (query (fun seen : list bytes => bool_decide (id ∈ seen))) (fun r => Ret (default true r)))).

Definition ex_approval : Approval :=
  mkApproval (lit "admin@example.net") (lit "<m1>") (lit "Re: [birdcage r7] upgrade") 100000000000 (lit "example.net") (lit "k1").

Definition ex_env : call_env := mkEnv false (fun _ => false) 0.

(** Accepted once; known, it is refused. *)
Lemma verify_accepts_exactly_witness :
  approves (UN := ascii_only) ex_env ex_mail_raw ex_rules ex_approval /\
  SubjectReference (UN := ascii_only) (lit "Re: " ++ Token (lit "r7") ++ lit " upgrade") = lit "r7" /\
  exec (Verify (UN := ascii_only) ex_env ex_mail_raw ex_rules) [lit "<m1>"] = ([lit "<m1>"], Err (ErrAlreadyAccepted (lit "<m1>"))).
Proof.
  destruct (verify_accepts_exactly (UN := ascii_only) ex_env ex_mail_raw ex_rules []) as (Hacc & _ & _ & Href).
  split; [|split].
  - apply (Hacc []). vm_compute. reflexivity.
  - apply Href; apply (bool_decide_unpack _); vm_compute; exact I.
  - vm_compute. reflexivity.
Defined.
