(* ===== verification/Mailbox.v ===== *)
(** The approval mailbox on the server: the table of replies
    ([internal/store/approval.go]), the handler of one mail and the operator's
    check of a saved one ([cmd/birdcage/approval.go]), and the poll of the IMAP
    mailbox ([internal/mailbox/imap.go]).

    The IMAP server and the database are one state here: a command to the
    server is a statement, which may fail or lose its answer like any other.
    What a mail's handling finds outside (the clock, the name service) is its
    [delivery]. *)
From S2P Require Import Prelude GoBase GoStrings GoTime Sql ServerSettings Approval.
#[local] Open Scope Z_scope.

(** ** Data *)

Definition MaxApprovalRawSize : Z := Z.shiftl 1 20.
Definition MaxMessageSize : Z := Z.shiftl 1 20.
Definition maxMessagesPerPoll : nat := 50.
Definition approvalMaxAge : Z := 3600 * GoTime.Second.
Definition checkMaxAge : Z := 30 * 24 * 3600 * GoTime.Second.

(** A row of [approvals]; the reason of a rejection is the error whose text is
    stored. *)
Record ApprovalRow : Type := mkApprovalRow {
  a_id : Z;
  a_message_id : bytes;
  a_from : bytes;
  a_subject : bytes;
  a_reference : bytes;
  a_received : Z;
  a_verified : option Z;
  a_reject : option approval_error;
  a_raw : bytes;
  a_applied : option Z;
}.

Inductive reader : Type := Birdcage | AnotherClient.

(** A mail of the mailbox: the size the server declares, whether its search
    finds it, and who marked it read. *)
Record mail : Type := mkMail {
  m_uid : Z;
  m_size : Z;
  m_body : bytes;
  m_matches : bool;
  m_read : option reader;
}.

Record mail_db : Type := mkMailDB {
  md_approvals : list ApprovalRow;
  md_next : Z;
  md_settings : settings_db;
  md_box : list mail;
  md_next_uid : Z;
}.

Definition put_rows (l : list ApprovalRow) (n : Z) (d : mail_db) : mail_db :=
  mkMailDB l n (md_settings d) (md_box d) (md_next_uid d).
Definition put_mail_settings (s : settings_db) (d : mail_db) : mail_db :=
  mkMailDB (md_approvals d) (md_next d) s (md_box d) (md_next_uid d).
Definition put_box (b : list mail) (d : mail_db) : mail_db :=
  mkMailDB (md_approvals d) (md_next d) (md_settings d) b (md_next_uid d).

Inductive approval_store_error : Type :=
| ErrApprovalArgument
| ErrApprovalAlreadyRecorded
| ErrApprovalStore.

(** ** The table of replies *)

Definition known (messageID : bytes) (d : mail_db) : bool := bool_decide (messageID ∈ a_message_id <$> md_approvals d).

Definition ApprovalSeen (messageID : bytes) : prog mail_db (res approval_store_error bool) :=
  if bool_decide (messageID = []) then Ret (Err ErrApprovalArgument) else
  Stmt (query (known messageID)) (fun r => Ret (match r with None => Err ErrApprovalStore | Some seen => Ok seen end)).

(** The insert, which the unique Message-ID refuses. *)
Definition insert_approval (a : ApprovalRow) (d : mail_db) : option (mail_db * unit) :=
  if known (a_message_id a) d then None else
  Some (put_rows (md_approvals d ++
          [mkApprovalRow (md_next d) (a_message_id a) (a_from a) (a_subject a) (a_reference a) (a_received a)
             (a_verified a) (a_reject a) (a_raw a) None]) (md_next d + 1) d, tt).

Definition RecordApproval (a : ApprovalRow) : prog mail_db (res approval_store_error unit) :=
  if bool_decide (a_message_id a = []) then Ret (Err ErrApprovalArgument) else
  if a_received a =? 0 then Ret (Err ErrApprovalArgument) else
  if zlen (a_raw a) =? 0 then Ret (Err ErrApprovalArgument) else
  if MaxApprovalRawSize <? zlen (a_raw a) then Ret (Err ErrApprovalArgument) else
  match a_verified a, a_reject a with
  | Some _, Some _ | None, None => Ret (Err ErrApprovalArgument)
  | verified, _ =>
      if bool_decide (verified = Some 0) then Ret (Err ErrApprovalArgument) else
      Stmt (insert_approval a) (fun r =>
      match r with
      | Some _ => Ret (Ok tt)
      | None =>
          pbind (ApprovalSeen (a_message_id a)) (fun seen =>
          Ret (match seen with Ok true => Err ErrApprovalAlreadyRecorded | _ => Err ErrApprovalStore end))
      end)
  end.

(** The most recently received; the id breaks a tie. *)
Definition later_row (l a : ApprovalRow) : bool :=
  (a_received l <? a_received a) || (a_received a =? a_received l) && (a_id l <? a_id a).

Definition ApprovalByReference (reference : bytes) : prog mail_db (res approval_store_error (option ApprovalRow)) :=
  if bool_decide (reference = []) then Ret (Err ErrApprovalArgument) else
  Stmt (query (fun d => foldl (keep_latest later_row) None (filter (fun a => a_reference a = reference) (md_approvals d)))) (fun r =>
  Ret (match r with None => Err ErrApprovalStore | Some latest => Ok latest end)).

Definition row_before (b a : ApprovalRow) : Prop := a_received b < a_received a \/ a_received b = a_received a /\ a_id b <= a_id a.

#[local] Instance row_before_preorder : PreOrder row_before.
Proof. unfold row_before. split; [intros a; lia|intros a b c; lia]. Qed.

Lemma latest_row l a :
  foldl (keep_latest later_row) None l = Some a -> a ∈ l /\ forall b, b ∈ l -> row_before b a.
Proof.
  intros Hl. pose proof (keep_latest_spec later_row row_before l) as H. rewrite Hl in H.
  apply H; unfold later_row, row_before; intros x b; lia.
Qed.

(** What is found carries the reference and is the latest of those that do. *)
Lemma reference_found reference d d' a :
  exec (ApprovalByReference reference) d = (d', Ok (Some a)) ->
  a ∈ md_approvals d /\ a_reference a = reference /\
  forall b, b ∈ md_approvals d -> a_reference b = reference ->
    a_received b < a_received a \/ a_received b = a_received a /\ a_id b <= a_id a.
Proof.
  unfold ApprovalByReference. case_bool_decide; [done|]. cbn. intros [= _ Hf]. apply latest_row in Hf as [[Hr Ha]%list_elem_of_filter Hall].
  split; [done|]. split; [done|]. intros b Hb Hrb. apply Hall. by apply list_elem_of_filter.
Qed.

(** ** Headers read crudely *)

Definition blank (c : Z) : bool := (c =? 32) || (c =? 9).

Definition trimSpaceASCII (s : bytes) : bytes := reverse (drop_while blank (reverse (drop_while blank s))).

Definition equalFoldASCII (a b : bytes) : bool := bool_decide (lower_byte <$> a = lower_byte <$> b).

(** [splitHeaderLines], over the pieces between line feeds. *)
Fixpoint header_lines (pieces lines : list bytes) : list bytes :=
  match pieces with
  | [] => lines
  | line :: pieces =>
      let line := TrimSuffix line [13] in
      match line with
      | [] => lines
      | c :: _ =>
          match blank c, last lines with
          | true, Some final => header_lines pieces (removelast lines ++ [final ++ [32] ++ trimSpaceASCII line])
          | _, _ => header_lines pieces (lines ++ [line])
          end
      end
  end.

Definition splitHeaderLines (raw : bytes) : list bytes := header_lines (Split raw 10) [].

Fixpoint first_header (lines : list bytes) (prefix : bytes) : bytes :=
  match lines with
  | [] => []
  | line :: lines =>
      if zlen line <? zlen prefix then first_header lines prefix else
      if negb (equalFoldASCII (take (length prefix) line) prefix) then first_header lines prefix else
      trimSpaceASCII (drop (length prefix) line)
  end.

Definition firstHeader (raw name : bytes) : bytes := first_header (splitHeaderLines raw) (name ++ [58]).

Definition subjectOf (raw : bytes) : bytes := firstHeader raw (lit "subject").
Definition fromOf (raw : bytes) : bytes := firstHeader raw (lit "from").
Definition messageIDOf (raw : bytes) : bytes := firstHeader raw (lit "message-id").

(** ** Handling one mail *)

Record delivery : Type := mkDelivery {
  dl_now : Z;
  dl_env : call_env;
  dl_lookup : bytes -> option (list bytes);
}.

Inductive outcome : Type :=
| Recorded
| AlreadyKnown
| Ignored.

Inductive handler_error : Type :=
| ErrReadSettings
| ErrRecordApproval
| ErrMailbox.

Section mailbox.
Context {UN : Unicode} {TT : TimeText} {ML : MailLib}.

Abbreviation mail_prog A := (prog mail_db (res handler_error A)).

Definition read_setting {A : Type} (key : bytes) (k : bytes -> mail_prog A) : mail_prog A :=
  pbind (on_table md_settings put_mail_settings (GetSetting key)) (fun r =>
  match r with Err _ => Ret (Err ErrReadSettings) | Ok v => k v end).

(** The replay check; a lookup that fails counts as known. *)
Definition seen_hook (messageID : bytes) : prog mail_db bool :=
  pbind (ApprovalSeen messageID) (fun r => Ret (match r with Err _ => true | Ok seen => seen end)).

Definition poll_rules (pinned signing reference : bytes) (dl : delivery) : Rules mail_db :=
  mkRules pinned signing reference (dl_now dl) approvalMaxAge (Some (dl_lookup dl)) (Some seen_hook).

(** What is written down of a mail. *)
Definition record_of (raw reference : bytes) (now : Z) (verified : res approval_error Approval) : ApprovalRow :=
  let row id from subject :=
    mkApprovalRow 0 id from subject (if bool_decide (reference = []) then lit "(none)" else reference) now
      (match verified with Ok _ => Some now | Err _ => None end) (match verified with Ok _ => None | Err e => Some e end) raw None in
  match verified with
  | Err _ => row (messageIDOf raw) (fromOf raw) (subjectOf raw)
  | Ok a => row (MessageID a) (From a) (Subject a)
  end.

Definition approvalHandler (dl : delivery) (raw : bytes) : mail_prog outcome :=
  read_setting SettingAdminApprovalAddress (fun pinned =>
  read_setting SettingAdminApprovalSigningDomain (fun signing =>
  let reference := SubjectReference (subjectOf raw) in
  pbind (Verify (dl_env dl) raw (poll_rules pinned signing reference dl)) (fun verified =>
  let record := record_of raw reference (dl_now dl) verified in
  if bool_decide (a_message_id record = []) then Ret (Ok Ignored) else
  pbind (RecordApproval record) (fun r =>
  Ret (match r with
       | Ok _ => Ok Recorded
       | Err ErrApprovalAlreadyRecorded => Ok AlreadyKnown
       | Err _ => Err ErrRecordApproval
       end))))).

(** ** [birdcage approval check] *)

Inductive check_answer : Type :=
| NoToken
| No (reason : approval_error)
| Yes (a : Approval).

Inductive check_error : Type :=
| ErrFileTooLarge
| ErrCheckSettings
| ErrNoAddress.

Definition check_rules (pinned signing reference : bytes) (dl : delivery) : Rules mail_db :=
  mkRules pinned signing reference (dl_now dl) checkMaxAge (Some (dl_lookup dl)) (Some (fun _ => Ret false)).

Definition runApprovalCheck (dl : delivery) (raw : bytes) : prog mail_db (res check_error check_answer) :=
  if MaxRawSize <? zlen raw then Ret (Err ErrFileTooLarge) else
  pbind (on_table md_settings put_mail_settings (GetSetting SettingAdminApprovalAddress)) (fun r =>
  match r with Err _ => Ret (Err ErrCheckSettings) | Ok pinned =>
  if bool_decide (pinned = []) then Ret (Err ErrNoAddress) else
  pbind (on_table md_settings put_mail_settings (GetSetting SettingAdminApprovalSigningDomain)) (fun r =>
  match r with Err _ => Ret (Err ErrCheckSettings) | Ok signing =>
  let reference := SubjectReference (subjectOf raw) in
  if bool_decide (reference = []) then Ret (Ok NoToken) else
  pbind (Verify (dl_env dl) raw (check_rules pinned signing reference dl)) (fun v =>
  Ret (Ok (match v with Err e => No e | Ok a => Yes a end)))
  end)
  end).

(** ** Polling the mailbox *)

Definition unread_match (m : mail) : Prop := m_read m = None /\ m_matches m = true.

#[export] Instance unread_match_dec m : Decision (unread_match m).
Proof. unfold unread_match. apply and_dec; [destruct (m_read m); [by right|by left]|apply _]. Defined.

(** The search, and the first of what it finds. *)
Definition search (d : mail_db) : list Z := take maxMessagesPerPoll (m_uid <$> filter unread_match (md_box d)).

Definition fetch {A : Type} (f : mail -> A) (uid : Z) (d : mail_db) : option A :=
  f <$> find (fun m => m_uid m =? uid) (md_box d).

(** [STORE +FLAGS \Seen] *)
Definition store_seen (uid : Z) (d : mail_db) : option (mail_db * unit) :=
  Some (put_box ((fun m => if m_uid m =? uid
                           then mkMail (m_uid m) (m_size m) (m_body m) (m_matches m) (Some (default Birdcage (m_read m)))
                           else m) <$> md_box d) d, tt).

Definition markSeen (uid : Z) (handled : bool) : mail_prog bool :=
  Stmt (store_seen uid) (fun r => Ret (match r with None => Err ErrMailbox | Some _ => Ok handled end)).

Definition handleOne (dl : delivery) (uid : Z) : mail_prog bool :=
  Stmt (query (fetch m_size uid)) (fun r =>
  match r with
  | None => Ret (Err ErrMailbox)
  | Some None => Ret (Ok false)
  | Some (Some size) =>
      if MaxMessageSize <? size then markSeen uid false else
      Stmt (query (fetch m_body uid)) (fun r =>
      match r with
      | None => Ret (Err ErrMailbox)
      | Some None => Ret (Ok false)
      | Some (Some raw) =>
          if zlen raw =? 0 then markSeen uid false else
          if MaxMessageSize <? zlen raw then markSeen uid false else
          pbind (approvalHandler dl raw) (fun r =>
          match r with Err e => Ret (Err e) | Ok _ => markSeen uid true end)
      end)
  end).

Fixpoint handle_all (dl : Z -> delivery) (uids : list Z) (handled : Z) : mail_prog Z :=
  match uids with
  | [] => Stmt (query (fun _ => tt)) (fun _ => Ret (Ok handled))
  | uid :: uids =>
      pbind (handleOne (dl uid) uid) (fun r =>
      match r with
      | Err e => Ret (Err e)
      | Ok ok => handle_all dl uids (if ok then handled + 1 else handled)
      end)
  end.

(** The connection, the login and the selection of the mailbox are the first
    statement; a failed logout only logs. *)
Definition Poll (dl : Z -> delivery) : mail_prog Z :=
  Stmt (query (fun _ => tt)) (fun r =>
  match r with
  | None => Ret (Err ErrMailbox)
  | Some _ =>
      Stmt (query search) (fun r =>
      match r with None => Ret (Err ErrMailbox) | Some uids => handle_all dl uids 0 end)
  end).

(** ** What the table keeps *)

(** [P] holds of every administrator address and [Q] of every signing domain
    the settings ever have. *)
Context (P Q : bytes -> Prop).

Definition setting_value (key : bytes) (s : settings_db) : bytes := match s !! key with Some v => v.1 | None => [] end.

(** The reply passed every rule when it arrived. *)
Definition vouched (a : ApprovalRow) : Prop :=
  exists pinned signing dl appr,
    P pinned /\ Q signing /\ dl_now dl = a_received a /\
    approves (dl_env dl) (a_raw a) (poll_rules pinned signing (SubjectReference (subjectOf (a_raw a))) dl) appr /\
    a_message_id a = MessageID appr /\ a_from a = From appr /\ a_subject a = Subject appr /\
    a_reference a = SubjectReference (subjectOf (a_raw a)).

Definition row_ok (a : ApprovalRow) : Prop :=
  a_message_id a ≠ [] /\ 0 < zlen (a_raw a) <= MaxRawSize /\ a_applied a = None /\
  match a_verified a with
  | Some at_ => at_ = a_received a /\ a_reject a = None /\ vouched a
  | None => a_reject a ≠ None
  end.

(** The identifiers a mail may be known under: that of the crude reading, or
    that of the parsed header. *)
Definition identifies (raw id : bytes) : Prop :=
  id = messageIDOf raw \/
  exists msg v, ReadMessage (normalizeLineEndings raw) = Some msg /\ has_one msg (lit "Message-Id") v /\ id = TrimSpace v.

Definition on_record (raw : bytes) (rows : list ApprovalRow) : Prop :=
  messageIDOf raw = [] \/ exists a, a ∈ rows /\ identifies raw (a_message_id a).

(** Why a mail was marked read. *)
Definition settled (rows : list ApprovalRow) (m : mail) : Prop :=
  MaxMessageSize < m_size m \/ m_body m = [] \/ MaxMessageSize < zlen (m_body m) \/ on_record (m_body m) rows.

Record mail_inv (d : mail_db) : Prop := {
  mi_ids : NoDup (a_message_id <$> md_approvals d);
  mi_rows : Forall row_ok (md_approvals d);
  mi_pinned : P (setting_value SettingAdminApprovalAddress (md_settings d));
  mi_signing : Q (setting_value SettingAdminApprovalSigningDomain (md_settings d));
  mi_uids : NoDup (m_uid <$> md_box d);
  mi_next : forall m, m ∈ md_box d -> m_uid m < md_next_uid d;
  mi_read : forall m, m ∈ md_box d -> m_read m = Some Birdcage -> settled (md_approvals d) m;
}.

Definition same_mail (m m' : mail) : Prop := m_uid m' = m_uid m /\ m_size m' = m_size m /\ m_body m' = m_body m.

(** Rows are added, never changed; no mail takes the place of another. *)
Record mail_le (d d' : mail_db) : Prop := {
  ml_rows : md_approvals d `prefix_of` md_approvals d';
  ml_next : md_next_uid d <= md_next_uid d';
  ml_box : forall m', m' ∈ md_box d' -> m_uid m' < md_next_uid d -> exists m, m ∈ md_box d /\ same_mail m m';
}.

#[export] Instance mail_le_preorder : PreOrder mail_le.
Proof.
  split.
  - intros d. split; [done|lia|]. intros m Hm _. by exists m.
  - intros a b c [R1 N1 B1] [R2 N2 B2]. split; [by etransitivity|lia|]. intros m Hm Hu.
    destruct (B2 m Hm ltac:(lia)) as (m1 & Hm1 & U1 & S1 & O1).
    destruct (B1 m1 Hm1 ltac:(lia)) as (m0 & Hm0 & U0 & S0 & O0). exists m0. split; [done|]. unfold same_mail. split_and!; congruence.
Qed.

Lemma settled_mono rows rows' m : rows `prefix_of` rows' -> settled rows m -> settled rows' m.
Proof.
  intros [k ->] [?|[?|[?|[?|(a & Ha & Hi)]]]]; unfold settled, on_record; [tauto..|].
  do 4 right. exists a. split; [|done]. apply elem_of_app. by left.
Qed.

Abbreviation mvalid := (valid mail_inv mail_le).

(** A read. *)
Lemma read_keeps {A B} (post : A -> list (mail_db * mail_db) -> Prop) (q : mail_db -> B) k o db :
  (forall db1, mail_le db db1 -> mail_inv db1 -> mvalid post (k (Some (q db1))) (o ++ [(db1, db1)]) db1) ->
  (forall db1, mail_le db db1 -> mail_inv db1 -> mvalid post (k None) (o ++ [(db1, db1)]) db1) ->
  (forall db1, mail_le db db1 -> mail_inv db1 -> mvalid post (k None) o db1) -> mvalid post (Stmt (query q) k) o db.
Proof.
  intros H1 H2 H3 db1 HR HI. split; [|by apply H3]. intros db' r [= <- <-]. split; [done|]. split; [reflexivity|]. auto.
Qed.

(** *** The table *)

Lemma seen_valid id (post : res approval_store_error bool -> list (mail_db * mail_db) -> Prop) o db :
  (forall b, b = true -> forall d, known id d = true -> post (Ok b) (o ++ [(d, d)])) -> (forall o', post (Ok false) o') ->
  (forall e o', post (Err e) o') -> mvalid post (ApprovalSeen id) o db.
Proof.
  intros H1 H2 H3. unfold ApprovalSeen. case_bool_decide; [apply H3|]. apply read_keeps; intros db1 _ _; cbn; [|apply H3..].
  destruct (known id db1) eqn:Hk; [by apply H1|apply H2].
Qed.

Lemma record_insert_ok a d d' :
  mail_inv d -> row_ok (mkApprovalRow (md_next d) (a_message_id a) (a_from a) (a_subject a) (a_reference a) (a_received a)
    (a_verified a) (a_reject a) (a_raw a) None) ->
  insert_approval a d = Some (d', tt) -> mail_inv d' /\ mail_le d d' /\ known (a_message_id a) d' = true.
Proof.
  intros [I1 I2 I3 I4 I5 I6 I7] Hrow. unfold insert_approval, known. case_bool_decide as Hk; [done|]. intros [= <-]. split; [|split].
  - split; cbn; try done.
    + apply NoDup_fmap_snoc; [done|]. intros y Hy Heq. apply Hk. cbn in Heq. rewrite <- Heq. apply list_elem_of_fmap. by exists y.
    + apply Forall_app. split; [done|]. by constructor.
    + intros m Hm Hr. eapply settled_mono; [by eexists|]. by apply I7.
  - split; cbn; [by eexists|lia|]. intros m Hm _. by exists m.
  - apply bool_decide_eq_true. cbn. rewrite fmap_app. apply elem_of_app. right. by left.
Qed.

Definition stored (id : bytes) (o : list (mail_db * mail_db)) : Prop := exists s, s ∈ o /\ known id s.2 = true.

(** Recorded, or on record already. *)
Definition record_post (id : bytes) (r : res approval_store_error unit) (o : list (mail_db * mail_db)) : Prop :=
  match r with Ok _ | Err ErrApprovalAlreadyRecorded => stored id o | Err _ => True end.

Lemma RecordApproval_valid a o db :
  (forall n, row_ok (mkApprovalRow n (a_message_id a) (a_from a) (a_subject a) (a_reference a) (a_received a)
    (a_verified a) (a_reject a) (a_raw a) None)) ->
  mvalid (record_post (a_message_id a)) (RecordApproval a) o db.
Proof.
  intros Hrow.
  assert (forall o db, mvalid (record_post (a_message_id a)) (pbind (ApprovalSeen (a_message_id a)) (fun seen =>
    Ret (match seen with Ok true => Err ErrApprovalAlreadyRecorded | _ => Err ErrApprovalStore end))) o db) as Hseen.
  { intros o' db1. apply (valid_pbind _ _ (fun r o => match r with Ok true => stored (a_message_id a) o | _ => True end)).
    - apply seen_valid; [|done|done]. intros b -> d Hk. exists (d, d). split; [apply elem_of_app; right; by left|done].
    - by intros [[|]|] o2 db2 _ Hp. }
  assert (mvalid (record_post (a_message_id a)) (Stmt (insert_approval a) (fun r =>
      match r with
      | Some _ => Ret (Ok tt)
      | None => pbind (ApprovalSeen (a_message_id a)) (fun seen =>
          Ret (match seen with Ok true => Err ErrApprovalAlreadyRecorded | _ => Err ErrApprovalStore end))
      end)) o db) as Hins.
  { intros db1 HR HI. split; [|apply Hseen]. intros db' [] Hf.
    destruct (record_insert_ok _ _ _ HI (Hrow _) Hf) as (HI' & HR' & Hk). split; [done|]. split; [done|]. split; [|apply Hseen].
    exists (db1, db'). split; [apply elem_of_app; right; by left|done]. }
  unfold RecordApproval. by repeat case_match.
Qed.

(** *** Handling *)

Lemma read_setting_valid {A : Type} key validate (k : bytes -> mail_prog A)
    (post : res handler_error A -> list (mail_db * mail_db) -> Prop) o db :
  setting_def key = Some (validate, []) ->
  (forall d, mail_le db d -> mail_inv d -> mvalid post (k (setting_value key (md_settings d))) (o ++ [(d, d)]) d) ->
  (forall o', post (Err ErrReadSettings) o') -> mvalid post (read_setting key k) o db.
Proof.
  intros Hk H1 H2. unfold read_setting, GetSetting. rewrite Hk. cbn [on_table pbind]. intros d HR HI. split; [|apply H2].
  cbn [query]. intros d' r [= <- <-]. assert (put_mail_settings (md_settings d) d = d) as -> by (by destruct d).
  split; [done|]. split; [reflexivity|]. split; [|apply H2]. cbn. specialize (H1 d HR HI). unfold setting_value in H1.
  by destruct (md_settings d !! key) as [[v at_]|].
Qed.

Lemma admin_def : setting_def SettingAdminApprovalAddress = Some (validateSettingAddress, []).
Proof. reflexivity. Qed.

Lemma signing_def : setting_def SettingAdminApprovalSigningDomain = Some (validateSettingSigningDomain, []).
Proof. reflexivity. Qed.

Lemma Verify_valid dl raw pinned signing reference o db :
  mvalid (fun v _ => forall a, v = Ok a -> approves (dl_env dl) raw (poll_rules pinned signing reference dl) a)
    (Verify (dl_env dl) raw (poll_rules pinned signing reference dl)) o db.
Proof.
  destruct (Verify_shape (dl_env dl) raw (poll_rules pinned signing reference dl)) as [(err & -> & _)|(seen & id & answer & Hs & -> & Ha & _)]; [done|].
  injection Hs as <-. apply (valid_pbind _ _ (fun _ _ => True)).
  - unfold seen_hook. apply (valid_pbind _ _ (fun _ _ => True)); [by apply seen_valid|done].
  - intros [|] o' db' _ _; cbn; [done|]. intros a. apply Ha.
Qed.

Definition handled_post (raw : bytes) (r : res handler_error outcome) (o : list (mail_db * mail_db)) : Prop :=
  match r with
  | Ok _ => messageIDOf raw = [] \/ exists id, identifies raw id /\ stored id o
  | Err _ => True
  end.

Lemma record_ok dl raw pinned signing n v :
  raw ≠ [] -> zlen raw <= MaxMessageSize -> P pinned -> Q signing ->
  let reference := SubjectReference (subjectOf raw) in
  (forall a, v = Ok a -> approves (dl_env dl) raw (poll_rules pinned signing reference dl) a) ->
  let a := record_of raw reference (dl_now dl) v in
  (a_message_id a = [] -> messageIDOf raw = []) /\ identifies raw (a_message_id a) /\
  (a_message_id a ≠ [] -> row_ok (mkApprovalRow n (a_message_id a) (a_from a) (a_subject a) (a_reference a) (a_received a)
    (a_verified a) (a_reject a) (a_raw a) None)).
Proof.
  intros Hne Hlen HP HQ reference Hv. assert (0 < zlen raw <= MaxRawSize) as Hraw by (split; [by apply zlen_pos|exact Hlen]).
  destruct v as [appr|e]; cbn.
  - specialize (Hv appr eq_refl). destruct Hv as (p & rs & msg & fv & s & dv & iv & Hv).
    split; [naive_solver|]. split; [right; exists msg, iv; naive_solver|]. intros Hid.
    split; [done|]. split; [done|]. split; [done|]. cbn. split; [done|]. split; [done|].
    exists pinned, signing, dl, appr. cbn. split_and!; try done; [by exists p, rs, msg, fv, s, dv, iv|].
    case_bool_decide as Hr; [|done]. exfalso. destruct Hv as (_ & _ & Hv & _). unfold validate in Hv. cbn in Hv. fold reference in Hv.
    rewrite Hr in Hv. cbn in Hv. repeat case_match; done.
  - split; [done|]. split; [by left|]. intros Hid. by split.
Qed.

Lemma handler_valid dl raw o db :
  raw ≠ [] -> zlen raw <= MaxMessageSize -> mvalid (handled_post raw) (approvalHandler dl raw) o db.
Proof.
  intros Hne Hlen. unfold approvalHandler. eapply read_setting_valid; [apply admin_def| |done]. intros d1 _ [_ _ HP _ _ _ _].
  eapply read_setting_valid; [apply signing_def| |done]. intros d2 _ [_ _ _ HQ _ _ _].
  eapply (valid_pbind mail_inv mail_le); [apply Verify_valid|]. intros v o1 d3 _ Hv.
  destruct (record_ok dl raw _ _ 0 v Hne Hlen HP HQ Hv) as (Hnil & Hid & _).
  case_bool_decide as Hm; [left; by apply Hnil|]. eapply (valid_pbind mail_inv mail_le).
  - apply RecordApproval_valid. intros n. by apply (record_ok dl raw _ _ n v Hne Hlen HP HQ Hv).
  - intros [[]|[]] o2 d4 _ Hr; cbn; try done; right; eexists; (split; [exact Hid|exact Hr]).
Qed.

Lemma stored_le id o d : stored id o -> (forall s, s ∈ o -> mail_le s.2 d) -> exists a, a ∈ md_approvals d /\ a_message_id a = id.
Proof.
  intros (s & Hs & Hk%bool_decide_eq_true) Hle. apply list_elem_of_fmap in Hk as (a & -> & Ha). exists a. split; [|done].
  destruct (ml_rows _ _ (Hle s Hs)) as [k ->]. apply elem_of_app. by left.
Qed.

Lemma handled_on_record raw out o d :
  handled_post raw (Ok out) o -> (forall s, s ∈ o -> mail_le s.2 d) -> on_record raw (md_approvals d).
Proof. intros [?|(id & Hid & Hs)] Hle; [by left|]. right. destruct (stored_le id o d Hs Hle) as (a & Ha & <-). by exists a. Qed.

(** *** Marking read *)

Lemma same_uid d m m' : mail_inv d -> m ∈ md_box d -> m' ∈ md_box d -> m_uid m = m_uid m' -> m = m'.
Proof. intros HI. apply NoDup_fmap_in, HI. Qed.

Lemma store_seen_ok uid d d' :
  mail_inv d -> (forall m, m ∈ md_box d -> m_uid m = uid -> settled (md_approvals d) m) ->
  store_seen uid d = Some (d', tt) -> mail_inv d' /\ mail_le d d'.
Proof.
  intros [I1 I2 I3 I4 I5 I6 I7] Hset. unfold store_seen. set (f := fun m : mail => _). intros [= <-].
  assert (forall m, same_mail m (f m)) as Hf by (intros m; unfold f, same_mail; case_match; split_and!; done).
  assert (forall m', m' ∈ f <$> md_box d -> exists m, m ∈ md_box d /\ m' = f m) as Hin by (intros m' (m & -> & Hm)%list_elem_of_fmap; by exists m).
  split; split; cbn; try done.
  - rewrite <- list_fmap_compose. erewrite list_fmap_ext; [exact I5|]. intros _ m _. apply Hf.
  - intros m' (m & Hm & ->)%Hin. destruct (Hf m) as [-> _]. by apply I6.
  - intros m' (m & Hm & ->)%Hin. unfold f. case_match eqn:Hu; [|by apply I7]. apply Z.eqb_eq in Hu. intros _. exact (Hset m Hm Hu).
  - intros m' (m & Hm & ->)%Hin _. exists m. by split.
Qed.

Definition fetched {A : Type} (f : mail -> A) (uid : Z) (v : A) (d : mail_db) : Prop :=
  uid < md_next_uid d /\ forall m, m ∈ md_box d -> m_uid m = uid -> f m = v.

Lemma fetch_fetched {A : Type} (f : mail -> A) uid v d : mail_inv d -> fetch f uid d = Some v -> fetched f uid v d.
Proof.
  intros HI (m & Hm & ->)%fmap_Some. apply find_some in Hm as [Hm%list_elem_of_In Hu%Z.eqb_eq]. subst uid. split; [by apply HI|].
  intros m' Hm' Hu. by rewrite (same_uid d m' m).
Qed.

Lemma fetched_le {A : Type} (f : mail -> A) uid v d d' :
  (forall m m', same_mail m m' -> f m' = f m) -> mail_le d d' -> fetched f uid v d -> fetched f uid v d'.
Proof.
  intros Hf [_ Hn Hb] [Hu H]. split; [lia|]. intros m' Hm' <-. destruct (Hb m' Hm' Hu) as (m & Hm & Hs).
  rewrite (Hf m m' Hs). apply H; [done|]. symmetry. apply Hs.
Qed.

Lemma markSeen_valid uid ok (post : res handler_error bool -> list (mail_db * mail_db) -> Prop) o db :
  (forall d, mail_le db d -> mail_inv d -> forall m, m ∈ md_box d -> m_uid m = uid -> settled (md_approvals d) m) ->
  (forall r o', post r o') -> mvalid post (markSeen uid ok) o db.
Proof.
  intros Hset Hp d HR HI. split; [|apply Hp]. intros d' [] Hf.
  destruct (store_seen_ok uid d d' HI (Hset d HR HI) Hf). split; [done|]. split; [done|]. split; apply Hp.
Qed.

Lemma handleOne_valid dl uid o db : (forall s, s ∈ o -> mail_le s.2 db) -> mvalid (fun _ _ => True) (handleOne dl uid) o db.
Proof.
  intros Ho. unfold handleOne. apply read_keeps; [|done|done]. intros d1 HR1 HI1.
  destruct (fetch m_size uid d1) as [size|] eqn:Hs; [|done]. apply fetch_fetched in Hs; [|done].
  destruct (Z.ltb_spec MaxMessageSize size) as [Hbig|_].
  { apply markSeen_valid; [|done]. intros d HR HI m Hm Hu. left.
    destruct (fetched_le m_size uid size d1 d ltac:(by intros m1 m2 (_ & ? & _)) HR Hs) as [_ H]. by rewrite (H m Hm Hu). }
  apply read_keeps; [|done|done]. intros d2 HR2 HI2. destruct (fetch m_body uid d2) as [raw|] eqn:Hb; [|done].
  apply fetch_fetched in Hb; [|done].
  assert (forall d, mail_le d2 d -> forall m, m ∈ md_box d -> m_uid m = uid -> m_body m = raw) as Hbody.
  { intros d HR m Hm Hu. destruct (fetched_le m_body uid raw d2 d ltac:(by intros m1 m2 (_ & _ & ?)) HR Hb) as [_ H]. by apply H. }
  destruct (Z.eqb_spec (zlen raw) 0) as [H0|H0].
  { apply markSeen_valid; [|done]. intros d HR HI m Hm Hu. right; left. rewrite (Hbody d HR m Hm Hu).
    destruct raw; [done|]. unfold zlen in H0. cbn in H0. lia. }
  destruct (Z.ltb_spec MaxMessageSize (zlen raw)) as [Hbig|Hle].
  { apply markSeen_valid; [|done]. intros d HR HI m Hm Hu. do 2 right; left. by rewrite (Hbody d HR m Hm Hu). }
  eapply (valid_pbind_after mail_inv mail_le); [apply handler_valid; [by intros ->|done]| |].
  - intros s [[Hs'|Hs']%elem_of_app|Hs']%elem_of_app.
    + transitivity db; [by apply Ho|]. by transitivity d1.
    + apply list_elem_of_singleton in Hs' as ->. done.
    + apply list_elem_of_singleton in Hs' as ->. reflexivity.
  - intros [out|e] o' d3 HR3 Ho' Hpost; [|done]. apply markSeen_valid; [|done]. intros d HR HI m Hm Hu. do 3 right.
    rewrite (Hbody d) by (done || by transitivity d3). eapply handled_on_record; [exact Hpost|]. intros s Hs'. transitivity d3; [by apply Ho'|done].
Qed.

Lemma Poll_valid dl o db : (forall s, s ∈ o -> mail_le s.2 db) -> mvalid (fun _ _ => True) (Poll dl) o db.
Proof.
  intros Ho. unfold Poll. apply read_keeps; [|done|done]. intros d1 HR1 HI1. apply read_keeps; [|done|done]. intros d2 HR2 HI2.
  assert (forall uids n o d, (forall s, s ∈ o -> mail_le s.2 d) -> mvalid (fun _ _ => True) (handle_all dl uids n) o d) as Hall.
  { induction uids as [|uid uids IH]; intros n o' d Ho'; cbn [handle_all]; [by apply read_keeps|].
    eapply (valid_pbind_after mail_inv mail_le); [by apply handleOne_valid|done|]. intros [ok|e] o2 d3 _ Ho2 _; [by apply IH|done]. }
  apply Hall. intros s [[Hs|Hs]%elem_of_app|Hs]%elem_of_app.
  - transitivity db; [by apply Ho|]. by transitivity d1.
  - apply list_elem_of_singleton in Hs as ->. done.
  - apply list_elem_of_singleton in Hs as ->. reflexivity.
Qed.
End mailbox.

(** ** What happens around the polls *)

Inductive activity : Type :=
| DoPoll (dl : Z -> delivery)
| SetTo (key value : bytes) (at_ : Z)
| Arrive (size : Z) (body : bytes) (matches : bool)
| Expunge (uid : Z)
| Flag (uid : Z) (seen : bool).

Definition arrive (size : Z) (body : bytes) (matches : bool) (d : mail_db) : option (mail_db * unit) :=
  Some (mkMailDB (md_approvals d) (md_next d) (md_settings d) (md_box d ++ [mkMail (md_next_uid d) size body matches None])
          (md_next_uid d + 1), tt).

Definition expunge (uid : Z) (d : mail_db) : option (mail_db * unit) :=
  Some (put_box (filter (fun m => m_uid m ≠ uid) (md_box d)) d, tt).

(** Another client marks a mail read or unread. *)
Definition flag (uid : Z) (seen : bool) (d : mail_db) : option (mail_db * unit) :=
  Some (put_box ((fun m => if m_uid m =? uid
                           then mkMail (m_uid m) (m_size m) (m_body m) (m_matches m)
                                  (if seen then Some (default AnotherClient (m_read m)) else None)
                           else m) <$> md_box d) d, tt).

Section guarantees.
Context {UN : Unicode} {TT : TimeText} {ML : MailLib}.

(** The answer of a statement without a result. *)
Definition done_ : option unit -> prog mail_db (res handler_error unit) :=
  fun r => Ret (match r with None => Err ErrMailbox | Some _ => Ok tt end).

Definition serve (a : activity) : prog mail_db (res handler_error unit) :=
  match a with
  | DoPoll dl => pbind (Poll dl) (fun r => Ret (match r with Err e => Err e | Ok _ => Ok tt end))
  | SetTo key value at_ =>
      pbind (on_table md_settings put_mail_settings (SetSetting key value at_)) (fun r =>
      Ret (match r with Err _ => Err ErrReadSettings | Ok _ => Ok tt end))
  | Arrive size body matches => Stmt (arrive size body matches) done_
  | Expunge uid => Stmt (expunge uid) done_
  | Flag uid seen => Stmt (flag uid seen) done_
  end.

(** A value a setting has at the start or is ever given. *)
Definition ever_set (key : bytes) (db0 : mail_db) (acts : list activity) (v : bytes) : Prop :=
  v = setting_value key (md_settings db0) \/ exists at_, SetTo key v at_ ∈ acts.

Definition fresh (db0 : mail_db) : Prop :=
  md_approvals db0 = [] /\ NoDup (m_uid <$> md_box db0) /\
  forall m, m ∈ md_box db0 -> m_uid m < md_next_uid db0 /\ m_read m ≠ Some Birdcage.

Abbreviation pins db0 acts := (ever_set SettingAdminApprovalAddress db0 acts).
Abbreviation signers db0 acts := (ever_set SettingAdminApprovalSigningDomain db0 acts).

(** A change of the mailbox that keeps each mail what it is. *)
Lemma box_change P Q d b n :
  mail_inv P Q d -> NoDup (m_uid <$> b) -> md_next_uid d <= n -> (forall m, m ∈ b -> m_uid m < n) ->
  (forall m, m ∈ b -> m_uid m < md_next_uid d -> exists m0, m0 ∈ md_box d /\ same_mail m0 m) ->
  (forall m, m ∈ b -> m_read m = Some Birdcage -> exists m0, m0 ∈ md_box d /\ same_mail m0 m /\ m_read m0 = Some Birdcage) ->
  let d' := mkMailDB (md_approvals d) (md_next d) (md_settings d) b n in mail_inv P Q d' /\ mail_le d d'.
Proof.
  intros [I1 I2 I3 I4 I5 I6 I7] Hnd Hn Hu Hs Hr. split; split; cbn; try done.
  intros m Hm Hrm. destruct (Hr m Hm Hrm) as (m0 & Hm0 & (_ & Hsz & Hb) & Hr0). specialize (I7 m0 Hm0 Hr0).
  unfold settled in *. by rewrite Hsz, Hb.
Qed.

Lemma serve_valid db0 acts a o db :
  a ∈ acts -> (forall s, s ∈ o -> mail_le s.2 db) ->
  valid (mail_inv (pins db0 acts) (signers db0 acts)) mail_le (fun _ _ => True) (serve a) o db.
Proof.
  intros Ha Ho. destruct a as [dl|key value at_|size body matches|uid|uid seen]; cbn [serve].
  - eapply (valid_pbind _ mail_le); [by apply Poll_valid|]. done.
  - apply (valid_pbind _ mail_le (fun _ _ => True)); [|done]. unfold SetSetting. destruct (setting_def key) as [[validate def]|]; [|done].
    case_match; [done|]. case_match; [done|]. cbn [on_table]. intros d HR [I1 I2 I3 I4 I5 I6 I7]. split; [|done].
    cbn [upsert]. intros d' [] [= <-]. split; [|split; [|done]].
    + split; cbn; try done; unfold setting_value.
      * destruct (decide (key = SettingAdminApprovalAddress)) as [->|]; [rewrite lookup_insert_eq|by rewrite lookup_insert_ne].
        right. by exists at_.
      * destruct (decide (key = SettingAdminApprovalSigningDomain)) as [->|]; [rewrite lookup_insert_eq|by rewrite lookup_insert_ne].
        right. by exists at_.
    + split; cbn; [done|done|]. intros m Hm _. by exists m.
  - intros d HR HI. split; [|done]. intros d' [] [= <-].
    destruct (box_change _ _ d (md_box d ++ [mkMail (md_next_uid d) size body matches None]) (md_next_uid d + 1) HI); [| | | | |by split_and!].
    + apply NoDup_fmap_snoc; [apply HI|]. intros m Hm Heq. pose proof (mi_next _ _ _ HI m Hm). cbn in Heq. lia.
    + lia.
    + intros m [Hm| ->%list_elem_of_singleton]%elem_of_app; [pose proof (mi_next _ _ _ HI m Hm); lia|cbn; lia].
    + intros m [Hm| ->%list_elem_of_singleton]%elem_of_app; [intros _; by exists m|cbn; lia].
    + intros m [Hm| ->%list_elem_of_singleton]%elem_of_app; [by exists m|done].
  - intros d HR HI. split; [|done]. intros d' [] [= <-].
    destruct (box_change _ _ d (filter (fun m => m_uid m ≠ uid) (md_box d)) (md_next_uid d) HI); [| | | | |by split_and!].
    + eapply sublist_NoDup; [apply HI|]. apply fmap_sublist, sublist_filter.
    + lia.
    + intros m [_ Hm]%list_elem_of_filter. by apply (mi_next _ _ _ HI).
    + intros m [_ Hm]%list_elem_of_filter _. by exists m.
    + intros m [_ Hm]%list_elem_of_filter Hr. by exists m.
  - intros d HR HI. split; [|done]. unfold flag. set (f := fun m : mail => _). intros d' [] [= <-].
    assert (forall m, same_mail m (f m)) as Hf by (intros m; unfold f, same_mail; case_match; split_and!; done).
    destruct (box_change _ _ d (f <$> md_box d) (md_next_uid d) HI); [| | | | |by split_and!].
    + rewrite <- list_fmap_compose. erewrite list_fmap_ext; [apply HI|]. intros _ m _. apply Hf.
    + lia.
    + intros m (m0 & -> & Hm)%list_elem_of_fmap. destruct (Hf m0) as [-> _]. by apply (mi_next _ _ _ HI).
    + intros m (m0 & -> & Hm)%list_elem_of_fmap _. by exists m0.
    + intros m (m0 & -> & Hm)%list_elem_of_fmap Hr. exists m0. split; [done|]. split; [done|]. unfold f in Hr.
      destruct (m_uid m0 =? uid); [|done]. cbn in Hr. destruct seen; [|done]. by destruct (m_read m0) as [[]|].
Qed.

Lemma fresh_inv db0 acts : fresh db0 -> mail_inv (pins db0 acts) (signers db0 acts) db0.
Proof.
  intros (Ha & Hnd & Hm). split; rewrite ?Ha; try done.
  - constructor.
  - by left.
  - by left.
  - intros m Hin. by apply Hm.
  - intros m Hin Hr. by destruct (Hm m Hin) as [_ ?].
Qed.

Lemma run_kept db0 acts c :
  fresh db0 -> runs (start db0 (serve <$> acts)) c ->
  mail_inv (pins db0 acts) (signers db0 acts) (cdb c) /\
  forall n i a b, ctrace c !! n = Some (i, (a, b)) -> mail_le a b /\ mail_le b (cdb c).
Proof.
  intros Hf Hr.
  destruct (runs_valid (mail_inv (pins db0 acts) (signers db0 acts)) mail_le (fun _ _ _ => True) db0 (serve <$> acts) c Hr (fresh_inv db0 acts Hf))
    as (HI & Hch & _ & _).
  { intros i p Hi. rewrite list_lookup_fmap in Hi. apply fmap_Some in Hi as (a & Hi & ->).
    apply serve_valid; [by eapply list_elem_of_lookup_2|]. by intros s ?%elem_of_nil. }
  split; [done|]. intros n i a b Hn. split; [exact (chain_step _ mail_le _ _ _ _ _ _ _ Hch Hn)|exact (chain_after _ mail_le _ _ _ _ _ _ _ Hch Hn)].
Qed.

(** C11. However polls, arrivals, other mail clients and settings interleave and
    whatever fails: no two replies are recorded under one Message-ID and none is
    ever changed; a reply recorded as verified passed every rule at its receipt,
    for an administrator address and signing domain the settings had; and a mail
    birdcage marked read was too large, empty, without an identifier, or is on
    record. *)
Theorem approvals_recorded_once db0 acts c :
  fresh db0 -> runs (start db0 (serve <$> acts)) c ->
  NoDup (a_message_id <$> md_approvals (cdb c)) /\
  (forall n i a b, ctrace c !! n = Some (i, (a, b)) ->
     md_approvals a `prefix_of` md_approvals b /\ md_approvals b `prefix_of` md_approvals (cdb c)) /\
  (forall a, a ∈ md_approvals (cdb c) -> row_ok (pins db0 acts) (signers db0 acts) a) /\
  (forall m, m ∈ md_box (cdb c) -> m_read m = Some Birdcage -> settled (md_approvals (cdb c)) m).
Proof.
  intros Hf Hr. destruct (run_kept db0 acts c Hf Hr) as [[I1 I2 _ _ _ _ I7] Hle]. split; [done|]. split; [|split; [by apply Forall_forall|done]].
  intros n i a b Hn. destruct (Hle n i a b Hn) as [H1 H2]. split; [apply H1|apply H2].
Qed.

(** ** A poll that nothing interrupts *)

Definition mark_read (uids : list Z) (m : mail) : mail :=
  if bool_decide (m_uid m ∈ uids) then mkMail (m_uid m) (m_size m) (m_body m) (m_matches m) (Some (default Birdcage (m_read m))) else m.

Lemma read_setting_exec {A : Type} key validate (k : bytes -> prog mail_db (res handler_error A)) d :
  setting_def key = Some (validate, []) -> exec (read_setting key k) d = exec (k (setting_value key (md_settings d))) d.
Proof.
  intros Hk. unfold read_setting. rewrite exec_pbind, exec_on_table by (done || by intros []). rewrite (get_exec _ _ _ _ Hk). cbn [fst snd].
  assert (put_mail_settings (md_settings d) d = d) as -> by (by destruct d). done.
Qed.

Lemma Seen_exec id d : id ≠ [] -> exec (ApprovalSeen id) d = (d, Ok (known id d)).
Proof. intros Hid. unfold ApprovalSeen. by rewrite bool_decide_eq_false_2. Qed.

Lemma mark_one uid d : (store_seen uid d ≫= fun x => Some x.1) = Some (put_box (mark_read [uid] <$> md_box d) d).
Proof.
  unfold store_seen. cbn. do 2 f_equal. apply list_fmap_ext. intros _ m _. unfold mark_read.
  destruct (Z.eqb_spec (m_uid m) uid) as [->|Hne]; [by rewrite bool_decide_eq_true_2 by left|].
  rewrite bool_decide_eq_false_2; [done|]. by rewrite list_elem_of_singleton.
Qed.

Lemma mark_read_uid uids m : m_uid (mark_read uids m) = m_uid m.
Proof. unfold mark_read. by case_bool_decide. Qed.

Lemma mark_read_uids uids (b : list mail) : m_uid <$> (mark_read uids <$> b) = m_uid <$> b.
Proof. rewrite <- list_fmap_compose. apply list_fmap_ext. intros _ m _. apply mark_read_uid. Qed.

Lemma mark_read_cons uid uids m : mark_read uids (mark_read [uid] m) = mark_read (uid :: uids) m.
Proof.
  unfold mark_read at 1. rewrite mark_read_uid. unfold mark_read. rewrite !(bool_decide_ext (m_uid m ∈ [uid]) (m_uid m = uid)) by apply list_elem_of_singleton.
  rewrite (bool_decide_ext (m_uid m ∈ uid :: uids) (m_uid m = uid \/ m_uid m ∈ uids)) by apply elem_of_cons.
  repeat case_bool_decide; try tauto; destruct m; done.
Qed.

Lemma poll_settles P Q dl d d' n :
  mail_inv P Q d -> exec (handle_all dl (search d) 0) d = (d', Ok n) -> md_box d' = mark_read (search d) <$> md_box d ->
  (forall m, m ∈ md_box d' -> m_uid m ∈ search d -> settled (md_approvals d') m) /\
  ((length (filter unread_match (md_box d)) <= maxMessagesPerPoll)%nat -> filter unread_match (md_box d') = []).
Proof.
  intros HI He Hb.
  assert (forall m, m ∈ md_box d' -> exists m0, m0 ∈ md_box d /\ m = mark_read (search d) m0) as Hin
    by (intros m Hm; rewrite Hb in Hm; apply list_elem_of_fmap in Hm as (m0 & -> & Hm0); by exists m0).
  assert (forall m0, m0 ∈ md_box d -> m_uid m0 ∈ search d -> unread_match m0) as Hunread.
  { intros m0 Hm0 Hs. unfold search in Hs. apply elem_of_take in Hs as (i & Hi & _). apply list_elem_of_lookup_2 in Hi.
    apply list_elem_of_fmap in Hi as (m1 & Hu & [Hm1 Hin1]%list_elem_of_filter). by rewrite (same_uid _ _ d m0 m1 HI Hm0 Hin1 Hu). }
  split.
  - intros m Hm Hs. destruct (valid_exec _ mail_le _ (Poll dl) [] d HI (Poll_valid _ _ dl [] d ltac:(by intros s ?%elem_of_nil)))
      as ([_ _ _ _ _ _ Hset] & _ & _); [by intros s ?%elem_of_nil|].
    assert ((exec (Poll dl) d).1 = d') as Hd by (unfold Poll; cbn [exec query]; by rewrite He).
    rewrite Hd in Hset. apply Hset; [done|]. destruct (Hin m Hm) as (m0 & Hm0 & ->). rewrite mark_read_uid in Hs. unfold mark_read.
    rewrite bool_decide_eq_true_2 by done. cbn. by destruct (Hunread m0 Hm0 Hs) as [-> _].
  - intros Hfew. apply filter_none, Forall_forall. intros m Hm [Hu Hmt]. destruct (Hin m Hm) as (m0 & Hm0 & ->). unfold mark_read in Hu, Hmt.
    case_bool_decide as Hs; [done|]. apply Hs. unfold search. rewrite take_ge by (by rewrite length_fmap).
    apply list_elem_of_fmap. exists m0. split; [done|]. by apply list_elem_of_filter.
Qed.

(** *** The operator's check *)

Lemma validate_check pinned signing reference dl :
  validate (check_rules pinned signing reference dl) = validate (poll_rules pinned signing reference dl).
Proof. reflexivity. Qed.

Lemma approves_check e raw pinned signing reference dl a :
  approves e raw (poll_rules pinned signing reference dl) a <->
  approves e raw (check_rules pinned signing reference dl) a /\ - approvalMaxAge <= time_sub (dl_now dl) (Date a) <= approvalMaxAge.
Proof.
  unfold approves. rewrite validate_check. cbn [Resolver Reference MaxAge Now poll_rules check_rules].
  assert (approvalMaxAge <= checkMaxAge) as Hage by done. set (m1 := approvalMaxAge) in *. set (m2 := checkMaxAge) in *. clearbody m1 m2.
  split.
  - intros (p & rs & msg & fv & s & dv & iv & H). split; [|tauto]. exists p, rs, msg, fv, s, dv, iv.
    repeat (destruct H as [? H]; split; [first [done|lia]|]). exact H.
  - intros [(p & rs & msg & fv & s & dv & iv & H) Ha]. exists p, rs, msg, fv, s, dv, iv.
    repeat (destruct H as [? H]; split; [first [exact Ha|done]|]). exact H.
Qed.

Lemma approves_asked {D} e raw (r : Rules D) a : approves e raw r a -> PinnedFrom r ≠ [] /\ Reference r ≠ [] /\ zlen raw <= MaxRawSize.
Proof.
  intros (p & rs & msg & fv & s & dv & iv & _ & Hl & Hv & _). unfold validate in Hv. repeat split; [| |done].
  - intros Hp. by rewrite Hp in Hv.
  - intros Hr. rewrite Hr in Hv. repeat case_match; done.
Qed.

Lemma check_exec dl raw d a :
  let pinned := setting_value SettingAdminApprovalAddress (md_settings d) in
  let signing := setting_value SettingAdminApprovalSigningDomain (md_settings d) in
  exec (runApprovalCheck dl raw) d = (d, Ok (Yes a)) <->
  approves (dl_env dl) raw (check_rules pinned signing (SubjectReference (subjectOf raw)) dl) a.
Proof.
  intros pinned signing. unfold runApprovalCheck.
  assert (forall key validate, setting_def key = Some (validate, []) ->
    exec (on_table md_settings put_mail_settings (GetSetting key)) d = (d, Ok (setting_value key (md_settings d)))) as Hget.
  { intros key validate Hk. rewrite exec_on_table by (done || by intros []). rewrite (get_exec _ _ _ _ Hk). cbn [fst snd].
    assert (put_mail_settings (md_settings d) d = d) as -> by (by destruct d). done. }
  destruct (Z.ltb_spec MaxRawSize (zlen raw)).
  { split; [done|]. intros (_ & _ & ?)%approves_asked. lia. }
  rewrite exec_pbind, (Hget _ _ admin_def). fold pinned. case_bool_decide as Hp.
  { split; [done|]. by intros (? & _)%approves_asked. }
  rewrite exec_pbind, (Hget _ _ signing_def). fold signing. case_bool_decide as Hr.
  { split; [done|]. by intros (_ & ? & _)%approves_asked. }
  set (r := check_rules _ _ _ dl). rewrite exec_pbind.
  destruct (Verify_shape (dl_env dl) raw r) as [(err & -> & Hno)|(seen & id & answer & Hs & -> & Ha & _)].
  - cbn. split; [done|]. intros H1. by destruct (Hno a).
  - injection Hs as <-. cbn. rewrite <- Ha. destruct answer; split; congruence.
Qed.

(** *** What a poll writes down *)

(** The operator's check says yes to the mail, which is dated within the hour
    and not on record. *)
Definition passes (dl : delivery) (raw : bytes) (d : mail_db) (a : Approval) : Prop :=
  exec (runApprovalCheck dl raw) d = (d, Ok (Yes a)) /\ known (MessageID a) d = false /\
  - approvalMaxAge <= time_sub (dl_now dl) (Date a) <= approvalMaxAge.

(** A mail that passes is recorded as verified, under its own headers; any other
    is recorded as rejected with a reason, or already is, or has no identifier
    to be recorded under. *)
Definition recorded (dl : delivery) (raw : bytes) (d d' : mail_db) : Prop :=
  let reference := SubjectReference (subjectOf raw) in
  (exists a, passes dl raw d a /\
     md_approvals d' = md_approvals d ++
       [mkApprovalRow (md_next d) (MessageID a) (From a) (Subject a) reference (dl_now dl) (Some (dl_now dl)) None raw None]) \/
  (forall a, ~ passes dl raw d a) /\
  ((messageIDOf raw = [] \/ known (messageIDOf raw) d = true) /\ md_approvals d' = md_approvals d \/
   messageIDOf raw ≠ [] /\ known (messageIDOf raw) d = false /\ exists reason,
     md_approvals d' = md_approvals d ++
       [mkApprovalRow (md_next d) (messageIDOf raw) (fromOf raw) (subjectOf raw)
          (if bool_decide (reference = []) then lit "(none)" else reference) (dl_now dl) None (Some reason) raw None]).

(** A mail too large, or empty, is not read. *)
Definition taken (dl : delivery) (m : mail) (d d' : mail_db) : Prop :=
  if bool_decide (MaxMessageSize < m_size m \/ m_body m = [] \/ MaxMessageSize < zlen (m_body m))
  then md_approvals d' = md_approvals d else recorded dl (m_body m) d d'.

(** The mails are taken one after another. *)
Fixpoint taken_all (dl : Z -> delivery) (l : list mail) (d d' : mail_db) : Prop :=
  match l with
  | [] => d' = d
  | m :: l => exists d1, md_settings d1 = md_settings d /\ taken (dl (m_uid m)) m d d1 /\ taken_all dl l d1 d'
  end.

Lemma approves_id {D} e raw (r : Rules D) a : approves e raw r a -> MessageID a ≠ [].
Proof. intros (? & ? & ? & ? & ? & ? & ? & Ha). tauto. Qed.

Lemma verify_passes dl raw d :
  let pinned := setting_value SettingAdminApprovalAddress (md_settings d) in
  let signing := setting_value SettingAdminApprovalSigningDomain (md_settings d) in
  let reference := SubjectReference (subjectOf raw) in
  exists v, exec (Verify (dl_env dl) raw (poll_rules pinned signing reference dl)) d = (d, v) /\
    forall a, v = Ok a <-> passes dl raw d a /\ MessageID a ≠ [] /\ reference ≠ [].
Proof.
  intros pinned signing reference. unfold passes.
  assert (forall id, exec (seen_hook id) d = (d, if bool_decide (id = []) then true else known id d)) as Hseen
    by (intros id; unfold seen_hook, ApprovalSeen; by case_bool_decide).
  destruct (Verify_shape (dl_env dl) raw (poll_rules pinned signing reference dl)) as [(err & -> & Hno)|(seen & id & answer & Hs & -> & Ha & Hid)].
  - eexists. split; [reflexivity|]. intros a. rewrite check_exec. fold pinned signing reference. split; [done|].
    intros ((H1 & _ & H2) & _). destruct (Hno a). apply approves_check. by split.
  - injection Hs as <-. rewrite exec_pbind, Hseen. eexists. split; [reflexivity|]. intros a. rewrite check_exec. fold pinned signing reference. split.
    + intros Hans. case_bool_decide as Hn; [done|]. destruct (known id d) eqn:Hk; [done|]. apply Ha in Hans. rewrite (Hid a Hans).
      pose proof Hans as (_ & Href & _)%approves_asked. apply approves_check in Hans as [H1 H2]. by split.
    + intros ((H1 & H2 & H3) & Hne & _). assert (approves (dl_env dl) raw (poll_rules pinned signing reference dl) a) as Hans by (apply approves_check; by split).
      rewrite (Hid a Hans) in H2, Hne. by rewrite bool_decide_eq_false_2, H2; [apply Ha in Hans|].
Qed.

Lemma passes_named dl raw d a : passes dl raw d a -> MessageID a ≠ [] /\ SubjectReference (subjectOf raw) ≠ [].
Proof. intros (H1%check_exec & _). split; [by eapply approves_id|]. by apply approves_asked in H1 as (_ & ? & _). Qed.

(** A row the insert does not refuse. *)
Lemma RecordApproval_new a d :
  a_message_id a ≠ [] -> a_received a ≠ 0 -> 0 < zlen (a_raw a) <= MaxApprovalRawSize ->
  (a_verified a = None <-> a_reject a ≠ None) -> a_verified a ≠ Some 0 ->
  exec (RecordApproval a) d =
    if known (a_message_id a) d then (d, Err ErrApprovalAlreadyRecorded)
    else (put_rows (md_approvals d ++ [mkApprovalRow (md_next d) (a_message_id a) (a_from a) (a_subject a) (a_reference a) (a_received a)
            (a_verified a) (a_reject a) (a_raw a) None]) (md_next d + 1) d, Ok tt).
Proof.
  intros Hid Hr [Hl1 Hl2] Hx H0. unfold RecordApproval. rewrite bool_decide_eq_false_2 by done.
  rewrite (proj2 (Z.eqb_neq _ _) Hr), (proj2 (Z.eqb_neq _ _)), (proj2 (Z.ltb_ge _ _) Hl2) by lia.
  destruct (a_verified a) as [at_|] eqn:Hv, (a_reject a) as [e|] eqn:He; try (by exfalso; naive_solver);
    rewrite bool_decide_eq_false_2 by done; cbn [exec]; unfold insert_approval; rewrite Hv, He;
    (destruct (known (a_message_id a) d) eqn:Hk; [|done]); by rewrite exec_pbind, Seen_exec, Hk.
Qed.

Lemma handler_records dl raw d :
  dl_now dl ≠ 0 -> 0 < zlen raw <= MaxMessageSize ->
  exists d' out, exec (approvalHandler dl raw) d = (d', Ok out) /\ md_box d' = md_box d /\ md_settings d' = md_settings d /\ recorded dl raw d d'.
Proof.
  intros Hnow Hlen. unfold approvalHandler. rewrite (read_setting_exec _ _ _ _ admin_def), (read_setting_exec _ _ _ _ signing_def).
  rewrite exec_pbind. destruct (verify_passes dl raw d) as (v & -> & Hv). unfold recorded. destruct v as [a|e]; cbn [record_of a_message_id].
  - destruct (proj1 (Hv a) eq_refl) as (Hp & Hid & Href). rewrite bool_decide_eq_false_2 by done. rewrite exec_pbind.
    rewrite RecordApproval_new by (unfold MaxApprovalRawSize, MaxMessageSize in *; cbn; first [done|lia|congruence|split; congruence]). cbn [a_message_id]. rewrite (proj1 (proj2 Hp)).
    eexists _, _. split; [reflexivity|]. split; [done|]. split; [done|]. left. exists a. split; [done|]. cbn. by rewrite (bool_decide_eq_false_2 (_ = [])).
  - assert (forall a, ~ passes dl raw d a) as Hno.
    { intros a Hp. destruct (Hv a) as [_ Hb]. discriminate Hb. split; [done|]. by eapply passes_named. }
    case_bool_decide as Hid; [exists d, Ignored; split_and!; [done..|right; split; [done|left; split; [by left|done]]]|].
    rewrite exec_pbind, RecordApproval_new by (unfold MaxApprovalRawSize, MaxMessageSize in *; cbn; first [done|lia|congruence|split; congruence]). cbn [a_message_id].
    destruct (known (messageIDOf raw) d) eqn:Hk.
    + eexists _, _. split; [reflexivity|]. split_and!; [done..|]. right. split; [done|]. left. split; [by right|done].
    + eexists _, _. split; [reflexivity|]. split_and!; [done..|]. right. split; [done|]. right. split_and!; [done..|]. by eexists.
Qed.

(** A mail that is in the mailbox, whatever is marked read. *)
Definition held (m : mail) (d : mail_db) : Prop :=
  fetch m_size (m_uid m) d = Some (m_size m) /\ fetch m_body (m_uid m) d = Some (m_body m).

Lemma fetch_marked {A : Type} (f : mail -> A) uids uid d d' :
  (forall m, f (mark_read uids m) = f m) -> md_box d' = mark_read uids <$> md_box d -> fetch f uid d' = fetch f uid d.
Proof.
  intros Hf Hb. unfold fetch. rewrite Hb. generalize (md_box d). intros l. induction l as [|m l IH]; [done|].
  rewrite fmap_cons. cbn [find]. rewrite mark_read_uid. destruct (m_uid m =? uid); [by cbn; rewrite Hf|done].
Qed.

Lemma held_marked uids m d d' : md_box d' = mark_read uids <$> md_box d -> held m d -> held m d'.
Proof.
  intros Hb [H1 H2]. split; erewrite fetch_marked; try done; intros x; unfold mark_read; by case_bool_decide.
Qed.

Lemma held_in P Q m d : mail_inv P Q d -> m ∈ md_box d -> held m d.
Proof.
  intros HI Hm. assert (find (fun x => m_uid x =? m_uid m) (md_box d) = Some m) as Hf; [|by unfold held, fetch; rewrite Hf].
  destruct (find _ (md_box d)) as [x|] eqn:Hf.
  - apply find_some in Hf as [Hx Hu%Z.eqb_eq]. f_equal. apply (same_uid P Q d); [done|by apply list_elem_of_In|done|done].
  - pose proof (find_none _ _ Hf m (proj1 (list_elem_of_In _ _) Hm)) as Hn. cbn in Hn. by rewrite Z.eqb_refl in Hn.
Qed.

Lemma handleOne_takes dl m d :
  dl_now dl ≠ 0 -> held m d ->
  exists d' ok d1, exec (handleOne dl (m_uid m)) d = (d', Ok ok) /\ md_box d' = mark_read [m_uid m] <$> md_box d /\
    md_settings d1 = md_settings d /\ taken dl m d d1 /\ d' = put_box (md_box d') d1.
Proof.
  intros Hnow [Hsize Hbody].
  assert (forall d1 ok, md_box d1 = md_box d ->
    exists d' ok', exec (markSeen (m_uid m) ok) d1 = (d', Ok ok') /\ md_box d' = mark_read [m_uid m] <$> md_box d /\ d' = put_box (md_box d') d1) as Hmark.
  { intros d1 ok Hb. unfold markSeen. cbn [exec store_seen]. eexists _, _. split; [done|]. cbn. rewrite Hb. split; [|done].
    pose proof (mark_one (m_uid m) d) as H. unfold store_seen in H. injection H as H. done. }
  unfold handleOne, taken. cbn [exec query]. rewrite Hsize. case_bool_decide as Hno.
  - assert (exists d' ok, exec (if MaxMessageSize <? m_size m then markSeen (m_uid m) false else
      Stmt (query (fetch m_body (m_uid m))) (fun r => match r with
      | None => Ret (Err ErrMailbox)
      | Some None => Ret (Ok false)
      | Some (Some raw) => if zlen raw =? 0 then markSeen (m_uid m) false else if MaxMessageSize <? zlen raw then markSeen (m_uid m) false
          else pbind (approvalHandler dl raw) (fun r => match r with Err e => Ret (Err e) | Ok _ => markSeen (m_uid m) true end) end)) d = (d', Ok ok) /\
      md_box d' = mark_read [m_uid m] <$> md_box d /\ d' = put_box (md_box d') d) as (d' & ok & He & Hb & Hd); [|exists d', ok, d; by split_and!].
    destruct (Z.ltb_spec MaxMessageSize (m_size m)); [by apply Hmark|]. cbn [exec query]. rewrite Hbody.
    destruct (Z.eqb_spec (zlen (m_body m)) 0) as [|Hz]; [by apply Hmark|]. destruct (Z.ltb_spec MaxMessageSize (zlen (m_body m))); [by apply Hmark|].
    exfalso. destruct Hno as [?|[Hn|?]]; [lia| |lia]. by rewrite Hn in Hz.
  - assert (m_size m <= MaxMessageSize /\ m_body m ≠ [] /\ zlen (m_body m) <= MaxMessageSize) as (Hs & Hne & Hl).
    { split_and!; [apply Z.nlt_ge| |apply Z.nlt_ge]; tauto. }
    rewrite (proj2 (Z.ltb_ge _ _) Hs). cbn [exec query]. rewrite Hbody.
    assert (0 < zlen (m_body m)) as Hpos by (destruct (m_body m); [done|unfold zlen; simpl; lia]).
    rewrite (proj2 (Z.eqb_neq _ _)), (proj2 (Z.ltb_ge _ _) Hl), exec_pbind by lia.
    destruct (handler_records dl (m_body m) d Hnow ltac:(lia)) as (d1 & out & -> & Hb & Hset & Hrec).
    destruct (Hmark d1 true Hb) as (d' & ok & He & Hb' & Hd). exists d', ok, d1. by split_and!.
Qed.

(** What is recorded does not depend on the mailbox. *)
Lemma passes_box dl raw b d a : passes dl raw (put_box b d) a <-> passes dl raw d a.
Proof. unfold passes. by rewrite !check_exec. Qed.

Lemma taken_box dl m b d d' : taken dl m (put_box b d) d' <-> taken dl m d d'.
Proof.
  unfold taken. case_bool_decide; [done|]. unfold recorded. setoid_rewrite passes_box. done.
Qed.

Lemma taken_all_box dl l : forall b d d', taken_all dl l (put_box b d) d' -> exists d1, md_approvals d1 = md_approvals d' /\ taken_all dl l d d1.
Proof.
  destruct l as [|m l]; intros b d d'; cbn [taken_all]; [intros ->; by exists d|].
  intros (d1 & Hs & Ht%taken_box & Hall). exists d'. split; [done|]. by exists d1.
Qed.

Lemma handle_all_takes dl l : forall n d,
  (forall uid, dl_now (dl uid) ≠ 0) -> (forall m, m ∈ l -> held m d) ->
  exists d' k, exec (handle_all dl (m_uid <$> l) n) d = (d', Ok k) /\ md_box d' = mark_read (m_uid <$> l) <$> md_box d /\
    exists d1, md_approvals d' = md_approvals d1 /\ taken_all dl l d d1.
Proof.
  induction l as [|m l IH]; intros n d Hnow Hl; cbn [handle_all fmap list_fmap].
  { exists d, n. split; [done|]. split; [by rewrite <- (list_fmap_id (md_box d)) at 1|]. by exists d. }
  rewrite exec_pbind. destruct (handleOne_takes (dl (m_uid m)) m d (Hnow _)) as (d1 & ok & d0 & -> & Hb & Hs & Ht & Hd); [apply Hl; by left|].
  destruct (IH (if ok then n + 1 else n) d1 Hnow) as (d2 & k & He & Hb2 & d3 & Ha & Hall).
  { intros x Hx. eapply held_marked; [exact Hb|]. apply Hl. by right. }
  exists d2, k. split; [exact He|]. split.
  - rewrite Hb2, Hb, <- list_fmap_compose. apply list_fmap_ext. intros _ x _. apply mark_read_cons.
  - rewrite Hd in Hall. apply taken_all_box in Hall as (d4 & Ha4 & Hall). exists d4. split; [congruence|]. by exists d0.
Qed.

(** C12. A poll on which no statement fails answers, with the first fifty
    unread replies and no other mail marked read, each of them settled, so none
    is left when there were no more. It takes them one after another: it records
    one as verified exactly when at that moment the operator's check says yes to
    it, it is dated within the hour and it is not on record; any other it records
    as rejected, with a reason, unless it is on record already or carries no
    Message-ID; a mail that is empty or over a megabyte leaves no record. *)
Theorem polls_take_their_mail db0 acts c dl :
  fresh db0 -> runs (start db0 (serve <$> acts)) c -> (forall uid, dl_now (dl uid) ≠ 0) ->
  let unread := filter unread_match (md_box (cdb c)) in
  exists d' n, exec (Poll dl) (cdb c) = (d', Ok n) /\
    md_box d' = mark_read (m_uid <$> take 50 unread) <$> md_box (cdb c) /\
    (forall m, m ∈ md_box d' -> m_uid m ∈ m_uid <$> take 50 unread -> settled (md_approvals d') m) /\
    ((length unread <= 50)%nat -> filter unread_match (md_box d') = []) /\
    exists d1, md_approvals d' = md_approvals d1 /\ taken_all dl (take 50 unread) (cdb c) d1.
Proof.
  intros Hf Hr Hnow. destruct (run_kept db0 acts c Hf Hr) as [HI _]. set (d := cdb c) in *. intros unread.
  assert (search d = m_uid <$> take 50 unread) as Hsearch by (unfold search; by rewrite fmap_take).
  destruct (handle_all_takes dl (take 50 unread) 0 d Hnow) as (d' & n & He & Hb & Hall).
  { intros m Hm. eapply held_in; [exact HI|]. apply elem_of_take in Hm as (i & Hi & _). apply list_elem_of_lookup_2 in Hi.
    by apply list_elem_of_filter in Hi as [_ ?]. }
  exists d', n. rewrite <- Hsearch in He, Hb |- *. split; [done|]. split; [done|].
  destruct (poll_settles _ _ dl d d' n HI He Hb) as [Hset Hnone]. by split_and!.
Qed.
End guarantees.

(** ** An execution *)

#[local] Existing Instance ex_mail.

#[local] Instance ex_text : TimeText := {|
  FormatTime t := [t];
  ParseTime s := match s with [t] => Some t | _ => None end;
  ParseTime_Format t _ := eq_refl;
  ParseTime_empty := eq_refl;
|}.

(** The approval of [Approval.ex_mail_raw] twice, and a mail too large. *)
Definition ex_mails : mail_db :=
  mkMailDB [] 1 {[SettingAdminApprovalAddress := (lit "admin@EXAMPLE.net", 1)]}
    [mkMail 1 200 ex_mail_raw true None; mkMail 2 200 ex_mail_raw true None; mkMail 3 (MaxMessageSize + 1) [] true None] 4.

Definition ex_delivery (uid : Z) : delivery := mkDelivery 160000000000 ex_env (fun _ => Some [lit "p=key"]).

Lemma ex_fresh : fresh ex_mails.
Proof.
  split; [reflexivity|]. split; [apply (bool_decide_unpack _); vm_compute; exact I|].
  intros m Hm. cbn in Hm. rewrite !elem_of_cons in Hm. destruct Hm as [-> |[-> |[-> |Hm]]]; [split; [reflexivity|discriminate]..|].
  by apply elem_of_nil in Hm.
Qed.

(** One row for both copies, and the mailbox read. *)
Lemma approvals_recorded_once_witness :
  let c := schedule (repeat 0%nat 20) (start ex_mails (serve (UN := ascii_only) <$> [DoPoll ex_delivery])) in
  (a_message_id <$> md_approvals (cdb c)) = [lit "<m1>"] /\ (m_read <$> md_box (cdb c)) = [Some Birdcage; Some Birdcage; Some Birdcage] /\
  Forall (row_ok (UN := ascii_only) (ever_set SettingAdminApprovalAddress ex_mails [DoPoll ex_delivery])
            (ever_set SettingAdminApprovalSigningDomain ex_mails [DoPoll ex_delivery])) (md_approvals (cdb c)) /\
  (a_verified <$> md_approvals (cdb c)) = [Some 160000000000].
Proof.
  intros c. split; [vm_compute; reflexivity|]. split; [vm_compute; reflexivity|]. split; [|vm_compute; reflexivity].
  apply Forall_forall. apply (approvals_recorded_once (UN := ascii_only) ex_mails [DoPoll ex_delivery] c ex_fresh). apply schedule_runs.
Defined.

Lemma polls_take_their_mail_witness :
  exists d' n, exec (Poll (UN := ascii_only) ex_delivery) ex_mails = (d', Ok n) /\ filter unread_match (md_box d') = [] /\
    exists d1, md_approvals d' = md_approvals d1 /\ taken_all (UN := ascii_only) ex_delivery (md_box ex_mails) ex_mails d1.
Proof.
  destruct (polls_take_their_mail (UN := ascii_only) ex_mails [] (start ex_mails []) ex_delivery ex_fresh) as (d' & n & He & _ & _ & Hu & Ht).
  - apply rtc_refl.
  - intros uid. discriminate.
  - exists d', n. split; [exact He|]. split; [apply Hu; vm_compute; lia|]. exact Ht.
Defined.
