(* ===== verification/MailText.v ===== *)
(** The text of the mail birdcage sends ([internal/mail]): the headers and
    their check ([header.go]), the bodies ([templates.go], [agentsbehind.go]),
    the message and the conversation with the submission server ([smtp.go]),
    what is kept of an error ([scrub] of [sender.go]) and the configuration
    ([config.go]).

    Dates in a message are formatted by the class [MailDate]; [net/mail]'s
    address parser is that of [MailLib]. The submission server is a record of
    what it answers to each command. *)
From S2P Require Import Prelude GoBase GoStrings GoRunes Sql Approval.
#[local] Open Scope Z_scope.

(** ** Headers *)

Definition safe_rune (r : Z) : bool :=
  negb (r =? RuneError) && negb ((r <? 32) || (r =? 127)) && negb ((128 <=? r) && (r <=? 159)).

Definition headerSafe (v : bytes) : bool := forallb (fun c => safe_rune c.1) (runes v).

(** A rune that is kept is written back as the bytes it was read from. *)
Definition stripControl (v : bytes) : bytes :=
  if headerSafe v then v else concat (snd <$> filter (fun c => safe_rune c.1 = true) (runes v)).

(** [RFC1123] and [RFC1123Z] of a time in UTC. *)
Class MailDate : Type := {
  FormatRFC1123 : Z -> bytes;
  FormatRFC1123Z : Z -> bytes;
  FormatRFC1123Z_safe t : headerSafe (FormatRFC1123Z t) = true;
}.

(** ** Bodies *)

Definition line (s : string) : bytes := lit s ++ [10].

Definition TokenConflictSubject : bytes := lit "birdcage: an agent presented a revoked credential".
Definition AgentsBehindSubject : bytes := lit "birdcage: one or more agents are running an out-of-date version".
Definition maxNameRunes : Z := 200.

Record TokenConflictAlert : Type := mkConflictAlert {
  tc_CanaryID : bytes;
  tc_CanaryName : bytes;
  tc_At : Z;
  tc_SuppressedCount : Z;
  tc_SuppressedSince : Z;
}.

Record AgentBehindEntry : Type := mkBehind {
  ab_CanaryID : bytes;
  ab_CanaryName : bytes;
  ab_Lane : bytes;
  ab_AgentVersion : bytes;
}.

Record AgentsBehindAlert : Type := mkBehindAlert {
  ab_BirdcageVersion : bytes;
  ab_Agents : list AgentBehindEntry;
  ab_At : Z;
}.

Definition suppressedPhrase (n : Z) : bytes :=
  if n =? 1 then lit "1 further alert was" else Itoa n ++ lit " further alerts were".

Definition agentCountPhrase (n : Z) : bytes :=
  if n =? 1 then lit "1 agent is" else Itoa n ++ lit " agents are".

Section bodies.
Context {UN : Unicode} {MD : MailDate}.

Definition displayName (raw : bytes) : option bytes :=
  if negb (ValidString raw) then None else
  let name := @TrimSpace UN (stripControl raw) in
  if bool_decide (name = []) || (maxNameRunes <? RuneCountInString name) then None else Some name.

Definition displayID (raw : bytes) : bytes := default (lit "(withheld)") (displayName raw).
Definition displayLane (raw : bytes) : bytes := default (lit "(withheld)") (displayName raw).

(** [SuppressedSince] is the zero time when it is 0. *)
Definition TokenConflictBody (a : TokenConflictAlert) : bytes :=
  line "An agent presented a credential birdcage had already revoked." ++ [10] ++
  line "What happened" ++
  match displayName (tc_CanaryName a) with
  | Some name => lit "  - Agent: " ++ name ++ lit " (id " ++ displayID (tc_CanaryID a) ++ line ")"
  | None =>
      lit "  - Agent id: " ++ displayID (tc_CanaryID a) ++ [10] ++
      line "  - The agent's name is withheld: it did not survive birdcage's own" ++
      line "    check on the text before sending it."
  end ++
  lit "  - When: " ++ FormatRFC1123 (tc_At a) ++ [10] ++
  (if (0 <? tc_SuppressedCount a) && negb (tc_SuppressedSince a =? 0)
   then lit "  - " ++ suppressedPhrase (tc_SuppressedCount a) ++ lit " suppressed since " ++
        FormatRFC1123 (tc_SuppressedSince a) ++ line "."
   else []) ++
  [10] ++ line "What it probably means" ++
  line "  - The token was stolen, and whoever took it rotated it before the" ++
  line "    agent did. The real agent is now holding the older credential." ++
  line "  - Or two machines are running as one agent: a clone, a restored" ++
  line "    snapshot, or the same install deployed twice." ++
  [10] ++ line "What to do" ++
  line "  - Look at that box now. This is the one state birdcage will wake you" ++
  line "    up for." ++
  line "  - Open birdcage the way you always do, and read the agent there." ++
  [10] ++ line "This message carries no link, no token and no detail of what was seen," ++
  line "on purpose: the mailbox it arrived in is outside birdcage's trust" ++
  line "boundary, so it points at the evidence rather than copying it.".

Definition behind_line (e : AgentBehindEntry) : bytes :=
  lit "  - " ++ default (lit "(name withheld)") (displayName (ab_CanaryName e)) ++
  lit " (id " ++ displayID (ab_CanaryID e) ++ lit "), lane " ++ displayLane (ab_Lane e) ++
  lit ": running " ++ ab_AgentVersion e ++ [10].

Definition AgentsBehindBody (a : AgentsBehindAlert) : bytes :=
  lit "birdcage is running " ++ ab_BirdcageVersion a ++ lit ". " ++ agentCountPhrase (zlen (ab_Agents a)) ++
  line " behind that version:" ++ [10] ++
  concat (behind_line <$> ab_Agents a) ++
  [10] ++ line "What to do" ++
  line "  - Open birdcage the way you always do, and open each agent's own" ++
  line "    page there: it names the command, run on the birdcage host, that" ++
  line "    prints that agent's upgrade command." ++
  [10] ++ line "This message carries no link and no upgrade command, on purpose: the" ++
  line "mailbox it arrived in is outside birdcage's trust boundary, so it" ++
  line "points at the evidence rather than copying it.".
End bodies.

(** ** Configuration *)

(** [net.SplitHostPort] *)
Definition LastIndexByte (s : bytes) (c : Z) : Z :=
  if IndexByte (reverse s) c <? 0 then -1 else zlen s - 1 - IndexByte (reverse s) c.

Definition SplitHostPort (s : bytes) : option (bytes * bytes) :=
  let i := LastIndexByte s 58 in
  if i <? 0 then None else
  let no_more (host : bytes) (j k : Z) :=
    if 0 <=? IndexByte (slice s j (zlen s)) 91 then None else
    if 0 <=? IndexByte (slice s k (zlen s)) 93 then None else
    Some (host, slice s (i + 1) (zlen s)) in
  if HasPrefix s [91] then
    let end_ := IndexByte s 93 in
    if end_ <? 0 then None else
    if negb (end_ + 1 =? i) then None else no_more (slice s 1 end_) 1 (end_ + 1)
  else
    if 0 <=? IndexByte (slice s 0 i) 58 then None else no_more (slice s 0 i) 0 0.

Definition EnvHost : bytes := lit "BIRDCAGE_MAIL_HOST".
Definition EnvSTARTTLS : bytes := lit "BIRDCAGE_MAIL_STARTTLS".
Definition EnvUsername : bytes := lit "BIRDCAGE_MAIL_USERNAME".
Definition EnvPasswordFile : bytes := lit "BIRDCAGE_MAIL_PASSWORD_FILE".
Definition EnvPassword : bytes := lit "BIRDCAGE_MAIL_PASSWORD".
Definition EnvFrom : bytes := lit "BIRDCAGE_MAIL_FROM".
Definition EnvTo : bytes := lit "BIRDCAGE_MAIL_TO".

Definition envNames : list bytes := [EnvHost; EnvSTARTTLS; EnvUsername; EnvPasswordFile; EnvPassword; EnvFrom; EnvTo].
Definition requiredEnvNames : list bytes := [EnvHost; EnvUsername; EnvFrom; EnvTo].

Record Config : Type := mkConfig {
  Host : bytes;
  STARTTLS : bool;
  Username : bytes;
  Password : bytes;
  From : bytes;
  To : bytes;
}.

Definition Hostname (c : Config) : bytes :=
  match SplitHostPort (Host c) with Some (host, _) => host | None => Host c end.

Inductive warning : Type :=
| FileAndVariable
| SubmissionWithoutSTARTTLS
| ImplicitTLSWithSTARTTLS.

Inductive config_error : Type :=
| ErrControlCharacter (name : bytes)
| ErrMissingField (missing present : bytes)
| ErrHostPort
| ErrSTARTTLS
| ErrAddress (name : bytes)
| ErrPasswordFile
| ErrNoPassword
| ErrPasswordControl.

(** [Loaded]: [None] when mail is off. *)
Definition Loaded : Type := option (Config * list warning).

(** [startcheck.SecretFile] over what reading the file gives. *)
Definition SecretFile (contents : option bytes) : option bytes :=
  match contents with
  | None => None
  | Some b =>
      let secret := TrimSuffix (TrimSuffix b [10]) [13] in
      if bool_decide (secret = []) then None else Some secret
  end.

Section load.
Context {UN : Unicode} {ML : MailLib}.

Definition validateHostPort (value : bytes) : bool :=
  match SplitHostPort value with
  | None => false
  | Some (host, port) =>
      if bool_decide (@TrimSpace UN host = []) then false else
      match Atoi port with None => false | Some n => (1 <=? n) && (n <=? 65535) end
  end.

Definition validateAddress (value : bytes) : option bytes :=
  match ParseAddress value with
  | None => None
  | Some addr => if negb (headerSafe addr) || bool_decide (@TrimSpace UN addr = []) then None else Some addr
  end.

Definition is_set (getenv : bytes -> bytes) (name : bytes) : bool := negb (bool_decide (getenv name = [])).

Definition missingField (getenv : bytes -> bytes) (missing : bytes) : config_error :=
  ErrMissingField missing (default [] (find (is_set getenv) envNames)).

(** The password and what is worth a warning about it. *)
Definition load_password (getenv : bytes -> bytes) (file : bytes -> option bytes) : res config_error (bytes * list warning) :=
  if is_set getenv EnvPasswordFile then
    match SecretFile (file (getenv EnvPasswordFile)) with
    | None => Err ErrPasswordFile
    | Some secret => Ok (secret, if is_set getenv EnvPassword then [FileAndVariable] else [])
    end
  else if is_set getenv EnvPassword then Ok (getenv EnvPassword, [])
  else Err ErrNoPassword.

Definition port_warnings (cfg : Config) : list warning :=
  match SplitHostPort (Host cfg) with
  | None => []
  | Some (_, port) =>
      (if bool_decide (port = lit "587") && negb (STARTTLS cfg) then [SubmissionWithoutSTARTTLS] else []) ++
      (if bool_decide (port = lit "465") && STARTTLS cfg then [ImplicitTLSWithSTARTTLS] else [])
  end.

Definition load_starttls (v : bytes) : option bool :=
  if bool_decide (v = []) || bool_decide (v = lit "0") then Some false
  else if bool_decide (v = lit "1") then Some true else None.

Definition Load (getenv : bytes -> bytes) (file : bytes -> option bytes) : res config_error Loaded :=
  if negb (existsb (is_set getenv) envNames) then Ok None else
  match find (fun name => negb (headerSafe (getenv name))) envNames with Some name => Err (ErrControlCharacter name) | None =>
  match find (fun name => negb (is_set getenv name)) requiredEnvNames with Some name => Err (missingField getenv name) | None =>
  if negb (validateHostPort (getenv EnvHost)) then Err ErrHostPort else
  match load_starttls (getenv EnvSTARTTLS) with None => Err ErrSTARTTLS | Some starttls =>
  match validateAddress (getenv EnvFrom) with None => Err (ErrAddress EnvFrom) | Some from =>
  match validateAddress (getenv EnvTo) with None => Err (ErrAddress EnvTo) | Some to =>
  match load_password getenv file with Err e => Err e | Ok (password, warnings) =>
  if negb (headerSafe password) then Err ErrPasswordControl else
  let cfg := mkConfig (getenv EnvHost) starttls (getenv EnvUsername) password from to in
  Ok (Some (cfg, warnings ++ port_warnings cfg))
  end end end end end end.
End load.

(** ** The message *)

(** [hex.EncodeToString] *)
Definition hex_digit (n : Z) : Z := if n <? 10 then 48 + n else 87 + n.
Definition hex_string (b : bytes) : bytes := x ← b; [hex_digit (x / 16); hex_digit (x mod 16)].

(** [newMessageID], given the sixteen random bytes or the clock when there are
    none. *)
Definition newMessageID (from : bytes) (random : bytes + Z) : bytes :=
  let '(_, at_, ok) := Cut from 64 in
  let domain := if ok && negb (bool_decide (at_ = [])) && headerSafe at_ then at_ else lit "birdcage.invalid" in
  match random with
  | inl buf => lit "<" ++ hex_string buf ++ lit "@" ++ domain ++ lit ">"
  | inr nanos => lit "<" ++ Itoa nanos ++ lit "@" ++ domain ++ lit ">"
  end.

Fixpoint write_headers (l : list (bytes * bytes)) (body : bytes) : res bytes bytes :=
  match l with
  | [] => Ok (10 :: body)
  | (name, v) :: l =>
      if negb (headerSafe v)
      then Err (lit "mail: refusing to send: the " ++ name ++ lit " header value contains a control character or a line break")
      else match write_headers l body with Ok m => Ok (name ++ lit ": " ++ v ++ [10] ++ m) | Err e => Err e end
  end.

Section message.
Context {MD : MailDate} (cfg : Config).

Definition headers (subject messageID : bytes) (now : Z) : list (bytes * bytes) :=
  [(lit "From", From cfg); (lit "To", To cfg); (lit "Subject", subject); (lit "Date", FormatRFC1123Z now);
   (lit "Message-ID", messageID); (lit "MIME-Version", lit "1.0"); (lit "Content-Type", lit "text/plain; charset=utf-8")].

(** [assemble]: the message, or the text of the error. *)
Definition assemble (subject body messageID : bytes) (now : Z) : res bytes bytes :=
  write_headers (headers subject messageID now) body.
End message.

(** ** The conversation with the server *)

Inductive command : Type :=
| DialTLS
| DialTCP
| SetDeadline
| NewClient
| StartTLS
| Auth (username password : bytes)
| Mail (from : bytes)
| Rcpt (to : bytes)
| Data
| WriteMessage (msg : bytes)
| CloseData
| Quit.

(** The error a command ends with, if any, and the [STARTTLS] extension. *)
Record server : Type := mkServer {
  answers : command -> option bytes;
  offers_starttls : bool;
}.

(** The commands given, and the text of the error. *)
Definition talk : Type := list command * option bytes.

Section deliver.
Context (cfg : Config) (srv : server).

(** One command, and what follows when it succeeds. *)
Definition give (c : command) (what : bytes) (k : talk) : talk :=
  match answers srv c with
  | Some e => ([c], Some (what ++ lit ": " ++ e))
  | None => (c :: k.1, k.2)
  end.

Definition upgrade (k : talk) : talk :=
  if STARTTLS cfg then
    if negb (offers_starttls srv) then
      ([], Some (Host cfg ++ lit " does not offer STARTTLS; refusing to continue in the clear (unset " ++ EnvSTARTTLS ++
                 lit " to use implicit TLS on port 465)"))
    else give StartTLS (lit "STARTTLS to " ++ Host cfg) k
  else k.

Definition deliver (msg : bytes) : talk :=
  (if STARTTLS cfg then give DialTCP (lit "connect to " ++ Host cfg) else give DialTLS (lit "TLS connect to " ++ Host cfg))
  (give SetDeadline (lit "set deadline")
  (give NewClient (lit "SMTP greeting from " ++ Host cfg)
  (upgrade
  (give (Auth (Username cfg) (Password cfg)) (lit "SMTP authentication as " ++ Username cfg)
  (give (Mail (From cfg)) (lit "MAIL FROM " ++ From cfg)
  (give (Rcpt (To cfg)) (lit "RCPT TO " ++ To cfg)
  (give Data (lit "DATA")
  (give (WriteMessage msg) (lit "write message")
  (give CloseData (lit "finish message")
  (give Quit (lit "QUIT") ([], None))))))))))).
End deliver.

(** The server has taken the message. *)
Definition taken (srv : server) (t : talk) : Prop := CloseData ∈ t.1 /\ answers srv CloseData = None.

(** ** What is kept of an error *)

(** [strings.ReplaceAll] for a non-empty [old], and the replacement of the
    credential. *)
Fixpoint replace_fuel (fuel : nat) (s old new : bytes) : bytes :=
  match fuel with
  | O => s
  | S fuel =>
      let '(before, after, found) := CutStr s old in
      if (found : bool) then before ++ new ++ replace_fuel fuel after old new else s
  end.

Definition ReplaceAll (s old new : bytes) : bytes := replace_fuel (length s) s old new.

Definition redacted : bytes := lit "[redacted]".

Definition scrub (cfg : Config) (msg : bytes) : bytes :=
  let msg := if bool_decide (Password cfg = []) then msg else ReplaceAll msg (Password cfg) redacted in
  if bool_decide (Username cfg = []) then msg else ReplaceAll msg (Username cfg) redacted.

(** ** What is safe *)

Lemma safe_rune_spec r : safe_rune r = true <-> r ≠ RuneError /\ ~ (r < 32) /\ r ≠ 127 /\ ~ (128 <= r <= 159).
Proof. unfold safe_rune. rewrite !andb_true_iff, !negb_true_iff. lia. Qed.

Lemma headerSafe_runes v : headerSafe v = true <-> Forall (fun c => safe_rune c.1 = true) (runes v).
Proof. unfold headerSafe. rewrite forallb_forall, Forall_forall. by setoid_rewrite list_elem_of_In. Qed.

(** A safe value has no control character: no carriage return, no line feed. *)
Lemma headerSafe_clean v b : headerSafe v = true -> b ∈ v -> 32 <= b /\ b ≠ 127.
Proof.
  rewrite headerSafe_runes. rewrite <- (runes_concat v) at 2. generalize (runes_read v). generalize (runes v). intros l Hr Hs Hb.
  induction l as [|c l IH]; [by apply elem_of_nil in Hb|]. apply Forall_cons in Hr as [Hc Hr], Hs as [Hs0 Hs].
  rewrite fmap_cons in Hb. simpl in Hb. apply elem_of_app in Hb as [Hb|Hb]; [|by apply IH].
  apply safe_rune_spec in Hs0. destruct Hc as [x Hx|b0 b1 H2|b0 b1 b2 H3|b0 b1 b2 b3 H4|x Hx]; cbn in *;
    rewrite ?elem_of_cons in Hb; unfold two, three, four, cont in *.
  all: repeat (destruct Hb as [->|Hb]; [lia|]); by apply elem_of_nil in Hb.
Qed.

Lemma headerSafe_app a b : headerSafe a = true -> headerSafe (a ++ b) = headerSafe b.
Proof.
  intros Ha. rewrite headerSafe_runes in Ha. unfold headerSafe at 1. rewrite <- (runes_concat a), runes_again_all, forallb_app.
  - assert (headerSafe a = true) as Hs by (by apply headerSafe_runes). unfold headerSafe in Hs. by rewrite Hs.
  - apply runes_read.
  - eapply Forall_impl; [exact Ha|]. intros c Hc%safe_rune_spec. tauto.
Qed.

Lemma headerSafe_ascii s : Forall (fun b => 32 <= b < 127) s -> headerSafe s = true.
Proof.
  induction 1 as [|b s Hb Hs IH]; [done|]. change (b :: s) with ([b] ++ s).
  rewrite headerSafe_app; [done|]. unfold headerSafe. cbn [runes]. rewrite (proj2 (Z.ltb_lt b 128)) by lia. cbn.
  rewrite (proj2 (safe_rune_spec b)); [done|]. unfold RuneError. lia.
Qed.

(** What is left of a name is safe, and is the name when the name was. *)
Lemma stripControl_safe v : headerSafe (stripControl v) = true.
Proof.
  unfold stripControl. destruct (headerSafe v) eqn:Hv; [done|]. set (l := filter _ (runes v)).
  assert (Forall (fun c => safe_rune c.1 = true) l) as Hl by (apply Forall_forall; by intros c [Hc _]%list_elem_of_filter).
  apply headerSafe_runes. rewrite <- (app_nil_r (concat _)), runes_again_all.
  - by rewrite app_nil_r.
  - apply Forall_forall. intros c [_ Hc]%list_elem_of_filter. by eapply (proj1 (Forall_forall _ _) (runes_read v)).
  - eapply Forall_impl; [exact Hl|]. intros c Hc%safe_rune_spec. tauto.
Qed.

Section names.
Context {UN : Unicode}.

(** [strings.TrimSpace] adds nothing. *)
Hypothesis trims : forall s b, b ∈ @TrimSpace UN s -> b ∈ s.

Lemma displayName_clean raw name b : displayName raw = Some name -> b ∈ name -> 32 <= b /\ b ≠ 127.
Proof.
  unfold displayName. destruct (negb _); [done|]. cbv zeta. destruct (_ || _); [done|]. intros [= <-] Hb%trims.
  by apply (headerSafe_clean _ _ (stripControl_safe raw)).
Qed.
End names.

(** ** The message *)

Definition header_line (h : bytes * bytes) : bytes := h.1 ++ lit ": " ++ h.2 ++ [10].

Lemma write_headers_ok l body m :
  write_headers l body = Ok m <-> Forall (fun h => headerSafe h.2 = true) l /\ m = concat (header_line <$> l) ++ 10 :: body.
Proof.
  revert m. induction l as [|[name v] l IH]; intros m; cbn [write_headers].
  { split; [intros [= <-]; split; [constructor|done]|by intros [_ ->]]. }
  rewrite Forall_cons, fmap_cons. cbn [snd concat]. unfold header_line at 1. cbn [fst snd]. destruct (headerSafe v); cbn [negb]; [|split; [done|by intros [[? _] _]]].
  destruct (write_headers l body) as [m'|e] eqn:Hw.
  - assert (Ok m' = Ok m' :> res bytes bytes) as Hm%IH by done. destruct Hm as [Hl ->]. split; [intros [= <-]|intros [_ ->]].
    + split; [done|]. by rewrite <- !app_assoc.
    + by rewrite <- !app_assoc.
  - split; [done|]. intros [[_ Hl] _]. assert (Err e = Ok (concat (header_line <$> l) ++ 10 :: body) :> res bytes bytes) as ?; [|done].
    by apply IH.
Qed.

Lemma hex_ascii b : wf_bytes b -> Forall (fun c => 32 <= c < 127) (hex_string b).
Proof.
  unfold hex_string. induction 1 as [|x b Hx Hb IH]; [constructor|]. rewrite bind_cons. apply Forall_app. split; [|done].
  unfold is_byte in Hx. assert (forall n, 0 <= n < 16 -> 32 <= hex_digit n < 127) as Hd
    by (intros n Hn; unfold hex_digit; destruct (Z.ltb_spec n 10); lia).
  repeat constructor; apply Hd; [split; [apply Z.div_pos; lia|apply Z.div_lt_upper_bound; lia]..|apply Z.mod_pos_bound; lia|apply Z.mod_pos_bound; lia].
Qed.

Lemma dec_ascii fuel : forall n acc, Forall (fun c => 32 <= c < 127) acc -> Forall (fun c => 32 <= c < 127) (dec_digits_fuel fuel n acc).
Proof.
  induction fuel as [|fuel IH]; intros n acc Ha; cbn [dec_digits_fuel]; [done|]. cbv zeta. pose proof (Z.mod_pos_bound n 10).
  destruct (_ =? 0); [|apply IH]; (constructor; [lia|done]).
Qed.

Lemma Itoa_ascii n : Forall (fun c => 32 <= c < 127) (Itoa n).
Proof. unfold Itoa. destruct (n <? 0); [constructor; [lia|]|]; by apply dec_ascii. Qed.

Lemma messageID_safe from random :
  match random with inl b => wf_bytes b | inr _ => True end -> headerSafe (newMessageID from random) = true.
Proof.
  intros Hr. unfold newMessageID. destruct (Cut from 64) as [[before at_] ok].
  set (d := if ok && negb (bool_decide (at_ = [])) && headerSafe at_ then at_ else lit "birdcage.invalid").
  assert (headerSafe d = true) as Hd.
  { unfold d. destruct (headerSafe at_) eqn:Ha; [|rewrite andb_false_r; by vm_compute]. destruct (_ && true); [done|by vm_compute]. }
  assert (forall mid, Forall (fun c => 32 <= c < 127) mid -> headerSafe (lit "<" ++ mid ++ lit "@" ++ d ++ lit ">") = true) as H.
  { intros mid Hm. rewrite headerSafe_app by by vm_compute. rewrite headerSafe_app by (by apply headerSafe_ascii).
    rewrite headerSafe_app by by vm_compute. rewrite headerSafe_app by done. by vm_compute. }
  destruct random; apply H; [by apply hex_ascii|apply Itoa_ascii].
Qed.

(** ** The configuration *)

Section loaded.
Context {UN : Unicode} {ML : MailLib}.

Lemma validateAddress_safe v a : validateAddress v = Some a -> headerSafe a = true /\ ParseAddress v = Some a.
Proof.
  unfold validateAddress. destruct (ParseAddress v) as [b|]; [|done]. destruct (headerSafe b) eqn:Hb; cbn [negb orb]; [|done].
  case_bool_decide; [done|]. by intros [= <-].
Qed.

(** A configuration that is loaded: nothing in it can split a header or a
    command. *)
Record usable (getenv : bytes -> bytes) (cfg : Config) : Prop := {
  us_host : Host cfg = getenv EnvHost /\ headerSafe (Host cfg) = true /\ validateHostPort (Host cfg) = true;
  us_user : Username cfg = getenv EnvUsername /\ headerSafe (Username cfg) = true /\ Username cfg ≠ [];
  us_from : headerSafe (From cfg) = true /\ ParseAddress (getenv EnvFrom) = Some (From cfg);
  us_to : headerSafe (To cfg) = true /\ ParseAddress (getenv EnvTo) = Some (To cfg);
  us_password : headerSafe (Password cfg) = true /\ Password cfg ≠ [];
}.

Lemma find_none_all {A} (p : A -> bool) l : find p l = None -> Forall (fun x => p x = false) l.
Proof. intros Hf. apply Forall_forall. intros x Hx. apply (find_none _ _ Hf). by apply list_elem_of_In. Qed.

Lemma load_password_nonempty getenv file p w : load_password getenv file = Ok (p, w) -> p ≠ [].
Proof.
  unfold load_password, is_set. case_bool_decide; cbn [negb].
  - case_bool_decide; cbn [negb]; [done|]. by intros [= <- _].
  - unfold SecretFile. destruct (file _) as [b|]; [|done]. cbv zeta. case_bool_decide; [done|]. by intros [= <- _].
Qed.

Lemma Load_usable getenv file cfg w : Load getenv file = Ok (Some (cfg, w)) -> usable getenv cfg.
Proof.
  unfold Load. destruct (negb (existsb _ _)); [done|].
  destruct (find _ envNames) eqn:Hc; [done|]. apply find_none_all in Hc.
  destruct (find _ requiredEnvNames) eqn:Hq; [done|]. apply find_none_all in Hq.
  destruct (validateHostPort (getenv EnvHost)) eqn:Hh; cbn [negb]; [|done].
  destruct (load_starttls _); [|done]. destruct (validateAddress (getenv EnvFrom)) as [from|] eqn:Hf; [|done].
  destruct (validateAddress (getenv EnvTo)) as [to|] eqn:Ht; [|done].
  destruct (load_password getenv file) as [[p ws]|e] eqn:Hp; [|done]. destruct (headerSafe p) eqn:Hps; cbn [negb]; [|done].
  intros [= <- _]. unfold envNames, requiredEnvNames in *. rewrite !Forall_cons in Hc, Hq.
  destruct Hc as (C1 & _ & C3 & _), Hq as (_ & Q2 & _). apply negb_false_iff in C1, C3, Q2. unfold is_set in Q2.
  apply negb_true_iff, bool_decide_eq_false in Q2.
  split; cbn; [done|done|by apply validateAddress_safe|by apply validateAddress_safe|]. split; [done|]. by eapply load_password_nonempty.
Qed.

(** Mail is off when nothing is set, and only then. *)
Lemma Load_off getenv file : Load getenv file = Ok None <-> forall name, name ∈ envNames -> getenv name = [].
Proof.
  unfold Load. destruct (existsb (is_set getenv) envNames) eqn:He; cbn [negb].
  - split.
    + repeat (case_match; try done).
    + intros H. apply existsb_exists in He as (n & Hn%list_elem_of_In & Hs). unfold is_set in Hs. apply negb_true_iff, bool_decide_eq_false in Hs.
      by destruct (Hs (H n Hn)).
  - split; [|done]. intros _ n Hn. destruct (decide (getenv n = [])) as [|Hne]; [done|]. exfalso.
    assert (existsb (is_set getenv) envNames = true) as ?; [|congruence]. apply existsb_exists. exists n.
    split; [by apply list_elem_of_In|]. unfold is_set. by rewrite bool_decide_eq_false_2.
Qed.
End loaded.

(** ** The credential *)

Definition occurs (c s : bytes) : Prop := exists a b, s = a ++ c ++ b.

Lemma occurs_app_l c a b : occurs c a -> occurs c (a ++ b).
Proof. intros (p & q & ->). exists p, (q ++ b). by rewrite <- !app_assoc. Qed.

Lemma occurs_app_r c a b : occurs c b -> occurs c (a ++ b).
Proof. intros (p & q & ->). exists (a ++ p), q. by rewrite <- !app_assoc. Qed.

(** A byte that is not part of [c] separates what is on its two sides. *)
Lemma occurs_split x c a b : x ∉ c -> occurs c (a ++ x :: b) -> occurs c a \/ occurs c b.
Proof.
  intros Hx (p & q & Heq). apply app_eq_inv in Heq as [(k & -> & Hk)|(k & -> & Hk)].
  - symmetry in Hk. apply app_eq_inv in Hk as [(k' & -> & Hk)|(k' & -> & Hk)].
    + left. exists p, k'. done.
    + destruct k' as [|y k']; [left; exists p, []; by rewrite !app_nil_r|]. injection Hk as <- _.
      destruct Hx. apply elem_of_app. right. by left.
  - destruct k as [|y k].
    + destruct c as [|y c]; [left; exists a, []; by rewrite !app_nil_r|]. injection Hk as <- _. destruct Hx. by left.
    + injection Hk as _ ->. right. by exists k, q.
Qed.

(** A credential that the replacement cannot make appear. *)
Definition hideable (c : bytes) : Prop := 91 ∉ c /\ 93 ∉ c /\ ~ occurs c (lit "redacted").

Lemma occurs_replaced c before after : hideable c -> occurs c (before ++ redacted ++ after) -> occurs c before \/ occurs c after.
Proof.
  intros (Ho & Hc & Hr). change (redacted ++ after) with (91 :: lit "redacted" ++ 93 :: after).
  intros H. apply (occurs_split 91 c) in H as [Hb|H]; [by left| |done].
  apply (occurs_split 93 c) in H as [Hm|Ha]; [done|by right|done].
Qed.

Lemma replace_keeps fuel : forall c s old, hideable c -> occurs c (replace_fuel fuel s old redacted) -> occurs c s.
Proof.
  induction fuel as [|fuel IH]; intros c s old Hh; cbn [replace_fuel]; [done|].
  pose proof (CutStr_spec s old) as Hs. destruct (CutStr s old) as [[before after] [|]]; [|done].
  destruct Hs as [-> _]. intros [Hb|Ha]%occurs_replaced; [by apply occurs_app_l| |done].
  apply occurs_app_r, occurs_app_r. by eapply IH.
Qed.

Lemma replace_hides fuel : forall s c, (length s <= fuel)%nat -> c ≠ [] -> hideable c -> ~ occurs c (replace_fuel fuel s c redacted).
Proof.
  induction fuel as [|fuel IH]; intros s c Hl Hne Hh; cbn [replace_fuel].
  { destruct s; [|simpl in Hl; lia]. intros (a & b & Hab). symmetry in Hab. apply app_eq_nil in Hab as [_ [? _]%app_eq_nil]. done. }
  pose proof (CutStr_spec s c) as Hs. destruct (CutStr s c) as [[before after] [|]].
  - destruct Hs as [-> Hmin]. intros [(a & b & ->)|Ha]%occurs_replaced; [| |done].
    + specialize (Hmin a (b ++ c ++ after)). rewrite <- !app_assoc, !length_app in Hmin. specialize (Hmin eq_refl). destruct c; [done|simpl in Hmin; lia].
    + revert Ha. apply IH; [|done|done]. rewrite !length_app in Hl. destruct c; [done|]. simpl in Hl. lia.
  - destruct Hs as (-> & -> & Hno). intros (a & b & Hab). by destruct (Hno a b).
Qed.

(** Neither half of the credential is left in an error. *)
Lemma scrub_hides cfg msg c :
  c ≠ [] -> hideable c -> c = Password cfg \/ c = Username cfg -> ~ occurs c (scrub cfg msg).
Proof.
  intros Hne Hh Hc. unfold scrub. set (m := if bool_decide (Password cfg = []) then msg else _). cbv zeta.
  assert (c = Password cfg -> ~ occurs c m) as Hp.
  { intros Hcp. unfold m. rewrite bool_decide_eq_false_2 by (by rewrite <- Hcp). rewrite <- Hcp. by apply replace_hides. }
  destruct Hc as [Hc|Hc].
  - case_bool_decide; [by apply Hp|]. intros Ho%replace_keeps; [|done]. by apply (Hp Hc).
  - rewrite bool_decide_eq_false_2 by (by rewrite <- Hc). rewrite <- Hc. by apply replace_hides.
Qed.

(** ** The conversation *)

Section talk.
Context (cfg : Config) (srv : server).

(** Every command but the last has been answered, so the commands are the
    beginning of [script]. *)
Definition follows (script : list command) (t : talk) : Prop :=
  t.1 `prefix_of` script /\
  (forall a x b, t.1 = a ++ x :: b -> Forall (fun c => answers srv c = None) a) /\
  (t.2 = None -> t.1 = script /\ Forall (fun c => answers srv c = None) script).

Lemma follows_give c what k script : follows script k -> follows (c :: script) (give srv c what k).
Proof.
  intros (Hp & Ha & Hn). unfold give. destruct (answers srv c) as [e|] eqn:Hc; unfold follows; cbn [fst snd].
  - split; [by apply prefix_cons, prefix_nil|]. split; [|done]. intros [|y a] x b Hab; [constructor|].
    injection Hab as _ Hab. symmetry in Hab. apply app_eq_nil in Hab as [_ ?]. done.
  - split; [by apply prefix_cons|]. split.
    + intros [|y a] x b Hab; [constructor|]. injection Hab as <- Hab. constructor; [done|]. by eapply Ha.
    + intros [H1 H2]%Hn. split; [by rewrite H1|]. by constructor.
Qed.

Lemma follows_end : follows [] ([], None).
Proof. split; [done|]. split; [|done]. intros a x b Hab. symmetry in Hab. apply app_eq_nil in Hab as [_ ?]. done. Qed.

(** Both ways to a connection, and what is said on it. *)
Definition encrypted : list command :=
  if STARTTLS cfg then [DialTCP; SetDeadline; NewClient; StartTLS] else [DialTLS; SetDeadline; NewClient].

Definition said (msg : bytes) : list command :=
  [Auth (Username cfg) (Password cfg); Mail (From cfg); Rcpt (To cfg); Data; WriteMessage msg; CloseData; Quit].

Lemma follows_deliver msg : follows (encrypted ++ said msg) (deliver cfg srv msg).
Proof.
  unfold deliver, encrypted, upgrade, said. destruct (STARTTLS cfg) eqn:Hs; cbn [app].
  - do 3 apply follows_give. destruct (offers_starttls srv); cbn [negb].
    + repeat apply follows_give. apply follows_end.
    + split; [apply prefix_nil|]. split; [|done]. intros a x b Hab. symmetry in Hab. apply app_eq_nil in Hab as [_ ?]. done.
  - repeat apply follows_give. apply follows_end.
Qed.

(** What is not said before the connection is encrypted. *)
Definition in_clear (c : command) : bool :=
  match c with DialTLS | DialTCP | SetDeadline | NewClient | StartTLS => true | _ => false end.

Lemma prefix_before {A} (s1 s2 a b : list A) x :
  x ∉ s1 -> a ++ x :: b `prefix_of` s1 ++ s2 -> s1 `prefix_of` a.
Proof.
  intros Hx [k Hk]. rewrite <- app_assoc in Hk. apply app_eq_inv in Hk as [(l & Hs1 & Hl)|(l & -> & Hl)].
  - destruct l as [|y l]; [rewrite app_nil_r in Hs1; subst; done|]. injection Hl as -> _. destruct Hx. rewrite Hs1.
    apply elem_of_app. right. by left.
  - by exists l.
Qed.

Lemma encrypted_in_clear x : x ∈ encrypted -> in_clear x = true.
Proof.
  intros Hx. assert (Forall (fun c => in_clear c = true) encrypted) as H by (unfold encrypted; by destruct (STARTTLS cfg); repeat constructor).
  rewrite Forall_forall in H. by apply H.
Qed.

(** Nothing but the greeting is said before a handshake has succeeded. *)
Lemma deliver_encrypted msg a x b :
  (deliver cfg srv msg).1 = a ++ x :: b -> in_clear x = false ->
  (if STARTTLS cfg then StartTLS else DialTLS) ∈ a /\ Forall (fun c => answers srv c = None) a.
Proof.
  intros Hd Hx. destruct (follows_deliver msg) as (Hp & Ha & _). split; [|by eapply Ha].
  rewrite Hd in Hp. apply prefix_before in Hp as [k ->]; [|by intros ?%encrypted_in_clear; congruence].
  apply elem_of_app. left. unfold encrypted. destruct (STARTTLS cfg); [do 3 right; left|left].
Qed.

(** A delivery without an error is one the server has taken. *)
Lemma deliver_taken msg : (deliver cfg srv msg).2 = None -> taken srv (deliver cfg srv msg).
Proof.
  intros Hn. destruct (follows_deliver msg) as (_ & _ & He). destruct (He Hn) as [H1 H2]. split.
  - rewrite H1. apply elem_of_app. right. do 5 right. left.
  - rewrite Forall_forall in H2. apply H2. apply elem_of_app. right. do 5 right. left.
Qed.
End talk.

Section contract.
Context {UN : Unicode} {ML : MailLib} {MD : MailDate}.

(** C16. With a configuration that loads, every alert is assembled into its seven
    headers and the body, and no header has a control character; nothing but a
    greeting is said to the server before a TLS handshake with it has succeeded,
    and a delivery without an error is one it has taken; the error that is kept
    has neither half of the credential, where that half has no square bracket
    and is no part of the word that replaces it, [hideable] ("red" or "a[r" can
    be read in what is left); and a name shown has no control character. *)
Theorem mail_gives_nothing_away getenv file cfg w :
  (forall s b, b ∈ @TrimSpace UN s -> b ∈ s) -> Load getenv file = Ok (Some (cfg, w)) ->
  (forall subject body random now,
     subject = TokenConflictSubject \/ subject = AgentsBehindSubject -> match random with inl b => wf_bytes b | inr _ => True end ->
     let id := newMessageID (From cfg) random in
     assemble cfg subject body id now = Ok (concat (header_line <$> headers cfg subject id now) ++ 10 :: body)) /\
  (forall subject body id now m h b,
     assemble cfg subject body id now = Ok m -> h ∈ headers cfg subject id now -> b ∈ h.2 -> 32 <= b /\ b ≠ 127) /\
  (forall srv msg a x b, (deliver cfg srv msg).1 = a ++ x :: b -> in_clear x = false ->
     (if STARTTLS cfg then StartTLS else DialTLS) ∈ a /\ Forall (fun c => answers srv c = None) a) /\
  (forall srv msg, (deliver cfg srv msg).2 = None -> taken srv (deliver cfg srv msg)) /\
  (forall msg c, c = Password cfg \/ c = Username cfg -> hideable c -> ~ occurs c (scrub cfg msg)) /\
  (forall raw name b, displayName raw = Some name -> b ∈ name -> 32 <= b /\ b ≠ 127).
Proof.
  intros Htrim [_ [_ [_ Hu]] [Hf _] [Ht _] [_ Hp]]%Load_usable. split_and!.
  - intros subject body random now Hs Hr id. apply write_headers_ok. split; [|done]. unfold headers. repeat constructor; cbn [snd]; try done.
    + by destruct Hs as [-> | ->]; vm_compute.
    + apply FormatRFC1123Z_safe.
    + by apply messageID_safe.
  - intros subject body id now m h b [Ha _]%write_headers_ok Hh Hb. rewrite Forall_forall in Ha. by apply (headerSafe_clean (h.2)); [apply Ha|].
  - intros srv msg a x b. apply deliver_encrypted.
  - intros srv msg. apply deliver_taken.
  - intros msg c Hc Hh. apply scrub_hides; [|done|done]. by destruct Hc as [-> | ->].
  - intros raw name b. by apply displayName_clean.
Qed.
End contract.

(** ** An execution *)

#[local] Existing Instance ex_mail.

#[local] Instance ex_dates : MailDate.
Proof. refine {| FormatRFC1123 _ := lit "a day"; FormatRFC1123Z _ := lit "a day" |}. intros _. by vm_compute. Defined.

Lemma ascii_trims s b : b ∈ @TrimSpace ascii_only s -> b ∈ s.
Proof.
  assert (forall r, b ∈ @trim_space_right ascii_only r -> b ∈ r) as Hr.
  { induction r as [|c r IH]; cbn [trim_space_right]; [done|]. destruct (128 <=? c); [intros H; change (b ∈ reverse (c :: r)) in H; by rewrite elem_of_reverse in H|].
    destruct (ascii_space c); [intros ?; right; by apply IH|intros H; by rewrite elem_of_reverse in H]. }
  induction s as [|c s IH]; cbn [TrimSpace]; [done|]. destruct (128 <=? c); [done|].
  destruct (ascii_space c); [intros ?; right; by apply IH|]. intros H%Hr. by rewrite elem_of_reverse in H.
Qed.

Definition ex_getenv (name : bytes) : bytes :=
  if bool_decide (name = EnvHost) then lit "smtp.example.net:587" else
  if bool_decide (name = EnvSTARTTLS) then lit "1" else
  if bool_decide (name = EnvUsername) then lit "birdcage" else
  if bool_decide (name = EnvPasswordFile) then lit "/run/secret" else
  if bool_decide (name = EnvFrom) then lit "alerts@example.net" else
  if bool_decide (name = EnvTo) then lit "admin@example.net" else [].

Definition ex_config : Config :=
  mkConfig (lit "smtp.example.net:587") true (lit "birdcage") (lit "s3cret") (lit "alerts@example.net") (lit "admin@example.net").

Lemma ex_loads : Load (UN := ascii_only) ex_getenv (fun _ => Some (lit "s3cret" ++ [10])) = Ok (Some (ex_config, [])).
Proof. vm_compute. reflexivity. Qed.

(** A server that quotes the password, and one that cannot say goodbye. *)
Lemma mail_gives_nothing_away_witness :
  ~ occurs (lit "s3cret") (scrub ex_config (lit "535 no such user: s3cret")) /\
  scrub ex_config (lit "535 no such user: s3cret") = lit "535 no such user: [redacted]" /\
  scrub ex_config (lit "535 AUTH PLAIN AGJpcmRjYWdlAHMzY3JldA==") = lit "535 AUTH PLAIN AGJpcmRjYWdlAHMzY3JldA==" /\
  (forall msg, let srv := mkServer (fun c => match c with Quit => Some (lit "EOF") | _ => None end) true in
     let t := deliver ex_config srv msg in taken srv t /\ t.2 = Some (lit "QUIT: EOF")).
Proof.
  destruct (mail_gives_nothing_away (UN := ascii_only) ex_getenv _ ex_config [] ascii_trims ex_loads) as (_ & _ & _ & _ & Hhide & _).
  split_and!.
  - apply (Hhide _ (lit "s3cret")); [by left|]. unfold hideable. split_and!.
    + apply (bool_decide_unpack _). vm_compute. exact I.
    + apply (bool_decide_unpack _). vm_compute. exact I.
    + intros H%ContainsStr_spec. vm_compute in H. discriminate H.
  - vm_compute. reflexivity.
  - vm_compute. reflexivity.
  - intros msg srv t. split; [split; [|done]|done]. cbn. do 9 right. left.
Defined.
