(* ===== verification/Outbox.v ===== *)
(** The outbox of the mail birdcage owes ([internal/store/mail.go]): the two
    alerts and their limits ([internal/mail/enqueue.go], [agentsbehind.go]), the
    sender ([sender.go]), the daily check of versions ([internal/driftsched]),
    and the recorder of the history with its hook
    ([cmd/birdcage/main.go]).

    The outbox and the submission server are one state: the messages the server
    has taken are kept beside the rows. What the server answers, and the
    identifiers of the messages, are given for each attempt. *)
From S2P Require Import Prelude GoBase GoStrings GoTime SelfTest Sql Settings ClientCerts Health ServerSettings Approval MailText History.
#[local] Open Scope Z_scope.

Definition perCanaryCooldown : Z := 3600 * GoTime.Second.
Definition fleetHourlyCap : Z := 20.
Definition fleetCapWindow : Z := 3600 * GoTime.Second.
Definition baseBackoff : Z := 60 * GoTime.Second.
Definition maxBackoff : Z := 3600 * GoTime.Second.

(** ** Data *)

Definition MailKindTokenConflict : bytes := lit "token_conflict".
Definition MailKindAgentsBehind : bytes := lit "agents_behind".
Definition mailKinds : list bytes := [MailKindTokenConflict; MailKindAgentsBehind].

Record MailMessage : Type := mkMessage {
  o_id : Z;
  o_kind : bytes;
  o_canary : option bytes;
  o_subject : bytes;
  o_body : bytes;
  o_created : Z;
  o_attempts : Z;
  o_next : Z;
  o_error : option bytes;
  o_sent : option Z;
  o_suppressed : Z;
}.

Record mail_db : Type := mkMailDB {
  mails : list MailMessage;
  next_mail : Z;
  accepted : list bytes;
}.

Definition put_mails (l : list MailMessage) (d : mail_db) : mail_db := mkMailDB l (next_mail d) (accepted d).

Inductive mail_error : Type :=
| ErrMailArgument
| ErrMailStore.

Abbreviation mail_prog A := (prog mail_db (res mail_error A)).

Definition stmt {R A : Type} (f : mail_db -> option (mail_db * R)) (k : R -> mail_prog A) : mail_prog A :=
  Stmt f (fun r => match r with None => Ret (Err ErrMailStore) | Some x => k x end).

Definition call {A B : Type} (p : mail_prog A) (k : A -> mail_prog B) : mail_prog B :=
  pbind p (fun r => match r with Err e => Ret (Err e) | Ok a => k a end).

(** ** The table *)

(** The row with the generated id, still owed. *)
Definition insert_mail (m : MailMessage) (d : mail_db) : option (mail_db * unit) :=
  Some (mkMailDB (mails d ++
          [mkMessage (next_mail d) (o_kind m) (o_canary m) (o_subject m) (o_body m) (o_created m) 0
             (if o_next m =? 0 then o_created m else o_next m) None None (if o_suppressed m <? 0 then 0 else o_suppressed m)])
          (next_mail d + 1) (accepted d), tt).

Definition EnqueueMail (m : MailMessage) : mail_prog unit :=
  if negb (bool_decide (o_kind m ∈ mailKinds)) then Ret (Err ErrMailArgument) else
  if o_created m =? 0 then Ret (Err ErrMailArgument) else
  if bool_decide (o_subject m = []) || bool_decide (o_body m = []) then Ret (Err ErrMailArgument) else
  stmt (insert_mail m) (fun _ => Ret (Ok tt)).

Definition due (now : Z) (m : MailMessage) : Prop := o_sent m = None /\ o_next m <= now.

#[export] Instance due_dec now m : Decision (due now m).
Proof. unfold due. apply and_dec; [destruct (o_sent m); [by right|by left]|apply _]. Defined.

Definition due_le (a b : MailMessage) : Prop := o_created a < o_created b \/ o_created a = o_created b /\ o_id a <= o_id b.

#[export] Instance due_le_dec a b : Decision (due_le a b).
Proof. unfold due_le. apply _. Defined.

Definition DueMail (now : Z) : mail_prog (list MailMessage) :=
  stmt (query (fun d => merge_sort due_le (filter (due now) (mails d)))) (fun l => Ret (Ok l)).

(** The rows of a kind, about one canary when its id is not empty. *)
Definition mailed (kind canaryID : bytes) (m : MailMessage) : Prop :=
  o_kind m = kind /\ (canaryID = [] \/ o_canary m = Some canaryID).

#[export] Instance mailed_dec kind canaryID m : Decision (mailed kind canaryID m).
Proof. unfold mailed. apply _. Defined.

Definition later_mail (latest m : MailMessage) : bool :=
  (o_created latest <? o_created m) || (o_created m =? o_created latest) && (o_id latest <? o_id m).

Definition latest_mail (kind canaryID : bytes) (l : list MailMessage) : option MailMessage :=
  foldl (keep_latest later_mail) None (filter (mailed kind canaryID) l).

Definition LatestMail (kind canaryID : bytes) : mail_prog (option MailMessage) :=
  stmt (query (fun d => latest_mail kind canaryID (mails d))) (fun m => Ret (Ok m)).

(** The scan the database narrows has every row the exact count takes. *)
Definition count_since (since : Z) (l : list MailMessage) : nat := length (filter (fun m => since <= o_created m) l).

Definition CountMailSince (since : Z) : mail_prog Z :=
  stmt (query (fun d => Z.of_nat (count_since since (mails d)))) (fun n => Ret (Ok n)).

(** [UPDATE mail_outbox SET ... WHERE id] *)
Definition update_mail (id : Z) (f : MailMessage -> MailMessage) (d : mail_db) : option (mail_db * unit) :=
  Some (put_mails ((fun m => if o_id m =? id then f m else m) <$> mails d) d, tt).

Definition set_status (attempts next : Z) (err : option bytes) (sent : option Z) (suppressed : Z) (m : MailMessage) : MailMessage :=
  mkMessage (o_id m) (o_kind m) (o_canary m) (o_subject m) (o_body m) (o_created m) attempts next err sent suppressed.

Definition bump (m : MailMessage) : MailMessage :=
  set_status (o_attempts m) (o_next m) (o_error m) (o_sent m) (o_suppressed m + 1) m.

Definition BumpMailSuppressed (id : Z) : mail_prog unit := stmt (update_mail id bump) (fun _ => Ret (Ok tt)).

(** [WHERE sent_at IS NULL] *)
Definition mark_sent (sentAt : Z) (m : MailMessage) : MailMessage :=
  match o_sent m with
  | None => set_status (o_attempts m) (o_next m) None (Some sentAt) (o_suppressed m) m
  | Some _ => m
  end.

Definition MarkMailSent (id sentAt : Z) : mail_prog unit :=
  if sentAt =? 0 then Ret (Err ErrMailArgument) else
  stmt (update_mail id (mark_sent sentAt)) (fun _ => Ret (Ok tt)).

Definition mark_failed (err : bytes) (next : Z) (m : MailMessage) : MailMessage :=
  match o_sent m with
  | None => set_status (o_attempts m + 1) next (Some err) None (o_suppressed m) m
  | Some _ => m
  end.

Definition RecordMailFailure (id : Z) (lastError : bytes) (nextAttemptAt : Z) : mail_prog unit :=
  if nextAttemptAt =? 0 then Ret (Err ErrMailArgument) else
  stmt (update_mail id (mark_failed lastError nextAttemptAt)) (fun _ => Ret (Ok tt)).

Record MailStatus : Type := mkStatus {
  LastSentAt : option Z;
  FailingSince : option Z;
  LastError : option bytes;
  Pending : Z;
  Suppressed : Z;
}.

(** One row of the loop of [GetMailStatus], with the oldest failing so far. *)
Definition add_status (acc : option Z * option MailMessage * Z * Z) (m : MailMessage) : option Z * option MailMessage * Z * Z :=
  let '(last, failing, pending, suppressed) := acc in
  let suppressed := suppressed + o_suppressed m in
  match o_sent m with
  | Some t => (match last with Some l => if l <? t then Some t else last | None => Some t end, failing, pending, suppressed)
  | None =>
      if o_attempts m =? 0 then (last, failing, pending + 1, suppressed) else
      (last, match failing with Some f => if o_created m <? o_created f then Some m else failing | None => Some m end,
       pending + 1, suppressed)
  end.

Definition GetMailStatus : mail_prog MailStatus :=
  stmt (query mails) (fun all =>
  let '(last, failing, pending, suppressed) := foldl add_status (None, None, 0, 0) all in
  Ret (Ok (mkStatus last (o_created <$> failing) (failing ≫= o_error) pending suppressed))).

(** ** Writing alerts *)

Section alerts.
Context {UN : Unicode} {MD : MailDate}.

Definition suppress (kind : bytes) (previous : option MailMessage) : mail_prog unit :=
  match previous with
  | Some p => BumpMailSuppressed (o_id p)
  | None =>
      call (LatestMail kind []) (fun latest =>
      match latest with None => Ret (Ok tt) | Some m => BumpMailSuppressed (o_id m) end)
  end.

Definition conflict_alert (canaryID canaryName : bytes) (now : Z) (previous : option MailMessage) : TokenConflictAlert :=
  match previous with
  | Some p => if 0 <? o_suppressed p then mkConflictAlert canaryID canaryName now (o_suppressed p) (o_created p)
              else mkConflictAlert canaryID canaryName now 0 0
  | None => mkConflictAlert canaryID canaryName now 0 0
  end.

(** A message to enqueue; its status is what [EnqueueMail] gives it. *)
Definition new_mail (kind : bytes) (canary : option bytes) (subject body : bytes) (at_ : Z) : MailMessage :=
  mkMessage 0 kind canary subject body at_ 0 at_ None None 0.

Definition conflict_mail (canaryID canaryName : bytes) (now : Z) (previous : option MailMessage) : MailMessage :=
  new_mail MailKindTokenConflict (Some canaryID) TokenConflictSubject
    (TokenConflictBody (conflict_alert canaryID canaryName now previous)) now.

Definition cooling (now : Z) (previous : option MailMessage) : bool :=
  match previous with Some p => time_sub now (o_created p) <? perCanaryCooldown | None => false end.

Definition EnqueueTokenConflict (canaryID canaryName : bytes) (now : Z) : mail_prog unit :=
  call (LatestMail MailKindTokenConflict canaryID) (fun previous =>
  if cooling now previous then suppress MailKindTokenConflict previous else
  call (CountMailSince (now - fleetCapWindow)) (fun recent =>
  if fleetHourlyCap <=? recent then suppress MailKindTokenConflict previous else
  EnqueueMail (conflict_mail canaryID canaryName now previous))).

Definition sameUTCDate (a b : Z) : bool := UTCDay a =? UTCDay b.

Definition EnqueueAgentsBehind (alert : AgentsBehindAlert) : mail_prog unit :=
  if bool_decide (ab_Agents alert = []) then Ret (Ok tt) else
  call (LatestMail MailKindAgentsBehind []) (fun previous =>
  if match previous with Some p => sameUTCDate (o_created p) (ab_At alert) | None => false end then Ret (Ok tt) else
  EnqueueMail (new_mail MailKindAgentsBehind None AgentsBehindSubject (AgentsBehindBody alert) (ab_At alert))).
End alerts.

(** ** The sender *)

(** The shift is that of a 64-bit duration. *)
Definition backoff (attempts : Z) : Z :=
  let attempts := if attempts <? 1 then 1 else attempts in
  if 16 <? attempts then maxBackoff else
  let d := i64 (Z.shiftl baseBackoff (attempts - 1)) in
  if maxBackoff <? d then maxBackoff else d.

#[export] Instance command_eq_dec : EqDecision command.
Proof. solve_decision. Defined.

#[export] Instance taken_dec srv t : Decision (taken srv t).
Proof. unfold taken. apply _. Defined.

(** One attempt of the sender: the clock, what the server answers and the
    identifier minted, for each message. *)
Record attempt : Type := mkAttempt {
  at_now : Z;
  at_server : Z -> server;
  at_message_id : Z -> bytes;
}.

Section sender.
Context {MD : MailDate} (cfg : Config).

(** The conversation; a shutdown closes the connection under it. *)
Definition submit (srv : server) (msg : bytes) (d : mail_db) : option (mail_db * option bytes) :=
  let t := deliver cfg srv msg in
  Some (mkMailDB (mails d) (next_mail d) (if decide (taken srv t) then accepted d ++ [msg] else accepted d), t.2).

Definition closed : bytes := lit "use of closed network connection".

Definition record_failure (m : MailMessage) (now : Z) (err : bytes) : mail_prog unit :=
  RecordMailFailure (o_id m) (scrub cfg (lit "could not send the " ++ o_kind m ++ lit " alert: " ++ err))
    (now + backoff (o_attempts m + 1)).

Definition sendOne (a : attempt) (m : MailMessage) : mail_prog unit :=
  match assemble cfg (o_subject m) (o_body m) (at_message_id a (o_id m)) (at_now a) with
  | Err e => record_failure m (at_now a) e
  | Ok msg =>
      Stmt (submit (at_server a (o_id m)) msg) (fun r =>
      match r with
      | Some None => MarkMailSent (o_id m) (at_now a)
      | Some (Some e) => record_failure m (at_now a) e
      | None => record_failure m (at_now a) closed
      end)
  end.

Fixpoint send_all (a : attempt) (l : list MailMessage) : mail_prog unit :=
  match l with
  | [] => Ret (Ok tt)
  | m :: l => call (sendOne a m) (fun _ => send_all a l)
  end.

(** [Sender.Tick] *)
Definition SenderTick (a : attempt) : mail_prog unit := call (DueMail (at_now a)) (send_all a).
End sender.

(** ** The loops of the server *)

Section server.
Context {TS : TokenSort} {EN : Engine} {UN : Unicode} {TT : TimeText} {MD : MailDate} (cfg : Config) (birdcageVersion : bytes).

(** The columns of a node no other part reads. *)
Context (Name Lane : canary_row -> bytes).

Abbreviation server_db := (hist_db mail_db).

(** The hook [main] installs. *)
Definition conflictHook (row : canary_row) (now : Z) (d : mail_db) : option mail_db :=
  match exec (EnqueueTokenConflict (h_id row) (Name row) now) d with
  | (d', Ok _) => Some d'
  | (_, Err _) => None
  end.

Definition behind_entry (c : Canary) : AgentBehindEntry :=
  mkBehind (h_id (Row c)) (Name (Row c)) (Lane (Row c)) (default [] (h_version (Row c))).

(** [Scheduler.Tick] *)
Definition DriftTick (now : Z) : prog server_db unit :=
  pbind (on_table health put_health (ListCanaries now 0 birdcageVersion)) (fun r =>
  match r with
  | Err _ => Ret tt
  | Ok canaries =>
      let behind := behind_entry <$> filter (fun c => StateAgentOutOfDate ∈ ActiveStates c) canaries in
      if bool_decide (behind = []) then Ret tt else
      pbind (on_table outbox put_outbox (EnqueueAgentsBehind (mkBehindAlert birdcageVersion behind now))) (fun _ => Ret tt)
  end).

(** [Run]: one tick after another. *)
Fixpoint DriftRun (nows : list Z) : prog server_db unit :=
  match nows with
  | [] => Ret tt
  | now :: nows => pbind (DriftTick now) (fun _ => DriftRun nows)
  end.

(** [runHistoryLoop]: the recorder's tick, then the sender's. *)
Fixpoint runHistoryLoop (ticks : list attempt) : prog server_db unit :=
  match ticks with
  | [] => Ret tt
  | a :: ticks =>
      pbind (Tick (Some conflictHook) birdcageVersion (at_now a)) (fun _ =>
      pbind (on_table outbox put_outbox (SenderTick cfg a)) (fun _ => runHistoryLoop ticks))
  end.

(** What runs beside each other: the loop of the history, after its start, and
    that of the daily check. *)
Inductive loop : Type :=
| HistoryLoop (start : Z) (ticks : list attempt)
| DriftLoop (nows : list Z).

Definition serve (l : loop) : prog server_db unit :=
  match l with
  | HistoryLoop start ticks => pbind (Start (Some conflictHook) birdcageVersion start) (fun _ => runHistoryLoop ticks)
  | DriftLoop nows => DriftRun nows
  end.
End server.

(** ** What the table keeps *)

Definition conflict (m : MailMessage) : Prop := o_kind m = MailKindTokenConflict.
Definition behind (m : MailMessage) : Prop := o_kind m = MailKindAgentsBehind.

#[export] Instance conflict_dec m : Decision (conflict m).
Proof. unfold conflict. apply _. Defined.

#[export] Instance behind_dec m : Decision (behind m).
Proof. unfold behind. apply _. Defined.

(** What a row says, which nothing changes once it is written. *)
Definition head (m : MailMessage) : Z * bytes * option bytes * bytes * bytes * Z :=
  (o_id m, o_kind m, o_canary m, o_subject m, o_body m, o_created m).

(** Fewer than the cap were created in the hour before a conflict mail. *)
Definition capped (l : list MailMessage) : Prop :=
  forall i m, l !! i = Some m -> conflict m -> Z.of_nat (count_since (o_created m - fleetCapWindow) (take i l)) < fleetHourlyCap.

(** Two conflict mails about one canary are a cooldown apart. *)
Definition spaced (l : list MailMessage) : Prop :=
  forall i j m m', (i < j)%nat -> l !! i = Some m -> l !! j = Some m' -> conflict m -> conflict m' -> o_canary m = o_canary m' ->
    o_created m + perCanaryCooldown <= o_created m'.

(** The days on which there was a mail about versions. *)
Definition days (l : list MailMessage) : list Z := (fun m => UTCDay (o_created m)) <$> filter behind l.

Lemma length_filter_impl {A} (P Q : A -> Prop) `{forall x, Decision (P x), forall x, Decision (Q x)} (l : list A) :
  (forall x, x ∈ l -> P x -> Q x) -> (length (filter P l) <= length (filter Q l))%nat.
Proof.
  induction l as [|x l IH]; intros Hl; [done|]. rewrite !filter_cons.
  assert (length (filter P l) <= length (filter Q l))%nat as IH' by (apply IH; intros y Hy; apply Hl; by right).
  pose proof (Hl x ltac:(left)). destruct (decide (P x)), (decide (Q x)); simpl; try tauto; lia.
Qed.

Section columns.
Context (f : MailMessage -> MailMessage) (Hf : forall m, head (f m) = head m).

Lemma head_kind m : o_kind (f m) = o_kind m.
Proof. by injection (Hf m). Qed.
Lemma head_created m : o_created (f m) = o_created m.
Proof. by injection (Hf m). Qed.
Lemma head_canary m : o_canary (f m) = o_canary m.
Proof. by injection (Hf m). Qed.

Lemma count_since_map since l : count_since since (f <$> l) = count_since since l.
Proof. apply length_filter_map. intros m _. by rewrite head_created. Qed.

Lemma capped_map l : capped l -> capped (f <$> l).
Proof.
  intros Hl i m Hi Hc. rewrite list_lookup_fmap in Hi. apply fmap_Some in Hi as (m0 & Hi & ->).
  rewrite <- fmap_take, count_since_map, head_created. apply (Hl i m0 Hi). unfold conflict in *. by rewrite head_kind in Hc.
Qed.

Lemma spaced_map l : spaced l -> spaced (f <$> l).
Proof.
  intros Hl i j m m' Hij Hi Hj. rewrite list_lookup_fmap in Hi, Hj. apply fmap_Some in Hi as (a & Hi & ->), Hj as (b & Hj & ->).
  unfold conflict. rewrite !head_kind, !head_canary, !head_created. by apply (Hl i j).
Qed.

Lemma days_map l : days (f <$> l) = days l.
Proof.
  unfold days. induction l as [|m l IH]; [done|]. rewrite fmap_cons, !filter_cons.
  assert (behind (f m) <-> behind m) as Hb by (unfold behind; by rewrite head_kind).
  destruct (decide (behind (f m))), (decide (behind m)); rewrite ?fmap_cons, ?head_created, ?IH; tauto.
Qed.
End columns.

Lemma lookup_snoc {A} (l : list A) x i y : (l ++ [x]) !! i = Some y -> (i < length l)%nat /\ l !! i = Some y \/ i = length l /\ x = y.
Proof. intros [Hi|[Hi [Hn ?]%list_lookup_singleton_Some]]%lookup_app_Some; [left; split; [by eapply lookup_lt_Some|done]|right; split; [lia|done]]. Qed.

Lemma capped_snoc l m :
  capped l -> (conflict m -> Z.of_nat (count_since (o_created m - fleetCapWindow) l) < fleetHourlyCap) -> capped (l ++ [m]).
Proof.
  intros Hl Hm i x Hi Hc. apply lookup_snoc in Hi as [[Hlt Hi]|[-> ->]].
  - rewrite take_app_le by lia. by apply Hl.
  - rewrite take_app_length. by apply Hm.
Qed.

Lemma spaced_snoc l m :
  spaced l -> (forall p, p ∈ l -> conflict p -> conflict m -> o_canary p = o_canary m -> o_created p + perCanaryCooldown <= o_created m) ->
  spaced (l ++ [m]).
Proof.
  intros Hl Hm i j p q Hij [[_ Hi]|[-> ->]]%lookup_snoc [[? Hj]|[-> ->]]%lookup_snoc; [by apply (Hl i j)| |lia|lia].
  intros. apply Hm; try done. by eapply list_elem_of_lookup_2.
Qed.

Lemma days_snoc l m : days (l ++ [m]) = days l ++ (if decide (behind m) then [UTCDay (o_created m)] else []).
Proof. unfold days. rewrite filter_app, fmap_app, filter_cons, filter_nil. by destruct (decide (behind m)). Qed.

(** The conflict mails created in one hour, whatever the hour. *)
Definition within (t : Z) (m : MailMessage) : Prop := t <= o_created m <= t + fleetCapWindow.

#[export] Instance within_dec t m : Decision (within t m).
Proof. unfold within. apply _. Defined.

Definition conflicts_within (t : Z) (l : list MailMessage) : nat := length (filter (fun m => conflict m /\ within t m) l).

Lemma capped_bound l t : capped l -> Z.of_nat (conflicts_within t l) <= fleetHourlyCap.
Proof.
  unfold conflicts_within. induction l as [|m l IH] using rev_ind; intros Hl; [done|].
  rewrite filter_app, length_app, filter_cons, filter_nil.
  assert (capped l) as Hl0.
  { intros i x Hi Hc. pose proof (lookup_lt_Some _ _ _ Hi). specialize (Hl i x). rewrite take_app_le in Hl by lia.
    apply Hl; [|done]. by apply lookup_app_l_Some. }
  destruct (decide (conflict m /\ within t m)) as [[Hc Hw]|]; [|simpl; specialize (IH Hl0); lia].
  specialize (Hl (length l) m). rewrite take_app_length in Hl. specialize (Hl ltac:(by apply list_lookup_middle) Hc).
  assert (length (filter (fun m => conflict m /\ within t m) l) <= count_since (o_created m - fleetCapWindow) l)%nat.
  { apply length_filter_impl. intros x _ [_ Hx]. unfold within in *. lia. }
  simpl. lia.
Qed.

(** *** The invariant *)

(** A minute, doubled with each failure after the first, an hour at most. *)
Definition doubled (k : Z) : Z := Z.min (baseBackoff * 2 ^ (k - 1)) maxBackoff.

Section invariant.
Context {MD : MailDate} (cfg : Config).

(** The times at which a sender ticks. *)
Context (clocks : Z -> Prop).

(** A row that is sent is one whose message the server has taken; one that has
    failed is next tried the doubled backoff of one of its attempts after a tick
    of the sender; an error that is kept has been scrubbed. *)
Record mail_ok (taken : list bytes) (m : MailMessage) : Prop := {
  mo_kind : conflict m \/ behind m;
  mo_canary : conflict m -> o_canary m ≠ None;
  mo_attempts : 0 <= o_attempts m;
  mo_suppressed : 0 <= o_suppressed m;
  mo_sent : forall t, o_sent m = Some t -> o_error m = None /\
    exists id msg, assemble cfg (o_subject m) (o_body m) id t = Ok msg /\ msg ∈ taken;
  mo_next : if o_attempts m =? 0 then o_next m = o_created m
    else exists t k, clocks t /\ 1 <= k <= o_attempts m /\ o_next m = t + doubled k;
  mo_error : forall e, o_error m = Some e -> exists text, e = scrub cfg text;
}.

Record mail_inv (d : mail_db) : Prop := {
  mi_ids : NoDup (o_id <$> mails d);
  mi_fresh : forall m, m ∈ mails d -> o_id m < next_mail d;
  mi_rows : forall m, m ∈ mails d -> mail_ok (accepted d) m;
  mi_capped : capped (mails d);
  mi_spaced : spaced (mails d);
}.

Definition mail_le1 (m m' : MailMessage) : Prop :=
  head m' = head m /\ o_attempts m <= o_attempts m' /\ o_suppressed m <= o_suppressed m' /\
  (forall t, o_sent m = Some t -> o_sent m' = Some t).

#[export] Instance mail_le1_preorder : PreOrder mail_le1.
Proof.
  split.
  - intros m. split_and!; auto; lia.
  - intros a b c (H1 & A1 & S1 & T1) (H2 & A2 & S2 & T2). split_and!; [congruence|lia|lia|auto].
Qed.

(** No row is deleted or rewritten; what the server has taken it has taken. *)
Record mail_le (d d' : mail_db) : Prop := {
  ml_rows : table_le mail_le1 (mails d) (mails d');
  ml_accepted : accepted d `prefix_of` accepted d';
}.

#[export] Instance outbox_le_preorder : PreOrder mail_le.
Proof.
  split; [intros d; split; reflexivity|]. intros a b c [R1 A1] [R2 A2]. split; by etransitivity.
Qed.

Lemma mail_ok_mono l l' m : l `prefix_of` l' -> mail_ok l m -> mail_ok l' m.
Proof.
  intros [k ->] [H0 H1 H2 H3 H4 H5 H6]. split; try done. intros t Ht. destruct (H4 t Ht) as (He & id & msg & Ha & Hm).
  split; [done|]. exists id, msg. split; [done|]. apply elem_of_app. by left.
Qed.

(** A change that adds no mail about versions. *)
Definition quiet (d d' : mail_db) : Prop := mail_le d d' /\ days (mails d') = days (mails d).

#[export] Instance quiet_preorder : PreOrder quiet.
Proof. split; [by intros d|]. intros a b c [L1 D1] [L2 D2]. split; [by etransitivity|congruence]. Qed.

(** One row changes its status. *)
Lemma update_kept id f d :
  mail_inv d ->
  (forall m, m ∈ mails d -> o_id m = id -> mail_ok (accepted d) (f m)) -> (forall m, mail_le1 m (f m)) ->
  mail_inv (put_mails ((fun m => if o_id m =? id then f m else m) <$> mails d) d) /\
  quiet d (put_mails ((fun m => if o_id m =? id then f m else m) <$> mails d) d).
Proof.
  intros [I1 I2 I3 I4 I5] Hok Hle. set (g := fun m => if o_id m =? id then f m else m).
  assert (forall m, mail_le1 m (g m)) as Hg by (intros m; unfold g; destruct (_ =? _); [done|reflexivity]).
  assert (forall m, head (g m) = head m) as Hh by apply Hg.
  assert (forall m, o_id (g m) = o_id m) as Hid by (intros m; by injection (Hh m)).
  split.
  - split; cbn.
    + by rewrite (table_column_map o_id g) by done.
    + intros m (m0 & -> & Hm)%list_elem_of_fmap. rewrite Hid. by apply I2.
    + intros m (m0 & -> & Hm)%list_elem_of_fmap. unfold g. destruct (Z.eqb_spec (o_id m0) id); [by apply Hok|by apply I3].
    + by apply capped_map.
    + by apply spaced_map.
  - split; [split; cbn; [|done]; apply table_le_map; intros m _; apply Hg|]. by apply days_map.
Qed.

(** A new row. *)
Lemma insert_kept m d :
  mail_inv d -> mail_ok (accepted d) m -> o_id m = next_mail d ->
  (conflict m -> Z.of_nat (count_since (o_created m - fleetCapWindow) (mails d)) < fleetHourlyCap) ->
  (forall p, p ∈ mails d -> conflict p -> conflict m -> o_canary p = o_canary m -> o_created p + perCanaryCooldown <= o_created m) ->
  mail_inv (mkMailDB (mails d ++ [m]) (next_mail d + 1) (accepted d)) /\
  mail_le d (mkMailDB (mails d ++ [m]) (next_mail d + 1) (accepted d)).
Proof.
  intros [I1 I2 I3 I4 I5] Hok Hid Hc Hs. split; split; cbn; try done.
  - apply NoDup_fmap_snoc; [done|]. intros y Hy Heq. specialize (I2 y Hy). lia.
  - intros x [Hx| ->%list_elem_of_singleton]%elem_of_app; [specialize (I2 x Hx)|]; lia.
  - intros x [Hx| ->%list_elem_of_singleton]%elem_of_app; [by apply I3|done].
  - by apply capped_snoc.
  - by apply spaced_snoc.
  - apply table_le_insert. apply _.
Qed.
End invariant.

(** ** Alerts *)

Definition mail_before (b a : MailMessage) : Prop := o_created b < o_created a \/ o_created b = o_created a /\ o_id b <= o_id a.

#[local] Instance mail_before_preorder : PreOrder mail_before.
Proof. unfold mail_before. split; [intros a; lia|intros a b c; lia]. Qed.

Lemma latest_mail_spec kind id l :
  match latest_mail kind id l with
  | Some p => p ∈ l /\ mailed kind id p /\ forall b, b ∈ l -> mailed kind id b -> o_created b <= o_created p
  | None => forall b, b ∈ l -> ~ mailed kind id b
  end.
Proof.
  unfold latest_mail. pose proof (keep_latest_spec later_mail mail_before (filter (mailed kind id) l)) as H.
  destruct (foldl _ None _) as [p|].
  - destruct H as [[Hm Hp]%list_elem_of_filter Hall]; [unfold later_mail, mail_before; intros x b; lia..|].
    split; [done|]. split; [done|]. intros b Hb Hmb. destruct (Hall b) as [?|[? _]]; [by apply list_elem_of_filter|lia|lia].
  - intros b Hb Hm. assert (b ∈ filter (mailed kind id) l) as Hin by (by apply list_elem_of_filter).
    rewrite H in Hin; [by apply elem_of_nil in Hin|unfold later_mail, mail_before; intros x c; lia..].
Qed.

Lemma exec_mail_call {A B : Type} (p : mail_prog A) (k : A -> mail_prog B) d :
  exec (call p k) d = match exec p d with (d', Ok a) => exec (k a) d' | (d', Err e) => (d', Err e) end.
Proof. unfold call. rewrite exec_pbind. by destruct (exec p d) as [d' [a|e]]. Qed.

Lemma backoff_doubled k : 1 <= k -> backoff k = doubled k.
Proof.
  intros Hk. unfold backoff. rewrite (proj2 (Z.ltb_ge k 1)) by done. destruct (Z.ltb_spec 16 k) as [Hbig|Hsmall].
  - unfold doubled. rewrite Z.min_r; [done|]. assert (2 ^ 16 <= 2 ^ (k - 1)) as Hp by (apply Z.pow_le_mono_r; lia).
    unfold maxBackoff, baseBackoff, GoTime.Second in *. change (2 ^ 16) with 65536 in Hp. lia.
  - assert (exists n, k = Z.of_nat n /\ (1 <= n <= 16)%nat) as (n & -> & Hn) by (exists (Z.to_nat k); lia). clear -Hn.
    do 17 (destruct n as [|n]; [first [lia|vm_compute; reflexivity]|]). lia.
Qed.

Lemma backoff_wait n : backoff n = doubled (Z.max 1 n).
Proof.
  rewrite <- backoff_doubled by lia. unfold backoff. destruct (Z.ltb_spec n 1); [by rewrite Z.max_l by lia|].
  rewrite Z.max_r by lia. by rewrite (proj2 (Z.ltb_ge n 1)).
Qed.

Lemma backoff_bounds n : baseBackoff <= backoff n <= maxBackoff.
Proof.
  rewrite backoff_wait. unfold doubled. assert (2 ^ 0 <= 2 ^ (Z.max 1 n - 1)) as Hp by (apply Z.pow_le_mono_r; lia).
  unfold maxBackoff, baseBackoff, GoTime.Second in *. change (2 ^ 0) with 1 in Hp. lia.
Qed.

(** The waits after the first six failures double, and are an hour from then
    on. *)
Lemma backoff_table : backoff <$> [1; 2; 3; 4; 5; 6; 7; 8; 100] = (fun m => m * 60 * GoTime.Second) <$> [1; 2; 4; 8; 16; 32; 60; 60; 60].
Proof. vm_compute. reflexivity. Qed.

Section enqueue.
Context {UN : Unicode} {MD : MailDate} (cfg : Config) (clocks : Z -> Prop).

Lemma conflict_body a : TokenConflictBody a ≠ [].
Proof. unfold TokenConflictBody. intros [H _]%app_eq_nil. vm_compute in H. discriminate H. Qed.

Lemma behind_body a : AgentsBehindBody a ≠ [].
Proof. unfold AgentsBehindBody. intros [H _]%app_eq_nil. vm_compute in H. discriminate H. Qed.

(** The row of a new mail. *)
Definition stored (kind : bytes) (canary : option bytes) (subject body : bytes) (at_ : Z) (d : mail_db) : MailMessage :=
  mkMessage (next_mail d) kind canary subject body at_ 0 at_ None None 0.

Lemma insert_new kind canary subject body at_ d :
  insert_mail (new_mail kind canary subject body at_) d =
    Some (mkMailDB (mails d ++ [stored kind canary subject body at_ d]) (next_mail d + 1) (accepted d), tt).
Proof. unfold insert_mail, new_mail, stored. cbn [o_kind o_canary o_subject o_body o_created o_next o_suppressed]. by destruct (at_ =? 0). Qed.

(** What one hook does: it adds a mail, or counts one on a conflict mail, or,
    when the hour's mails are all about something else, nothing. *)
Definition alerted (canaryID canaryName : bytes) (now : Z) (d d' : mail_db) : Prop :=
  (exists previous, previous = latest_mail MailKindTokenConflict canaryID (mails d) /\ cooling now previous = false /\
     Z.of_nat (count_since (now - fleetCapWindow) (mails d)) < fleetHourlyCap /\
     d' = mkMailDB (mails d ++ [stored MailKindTokenConflict (Some canaryID) TokenConflictSubject
            (TokenConflictBody (conflict_alert canaryID canaryName now previous)) now d]) (next_mail d + 1) (accepted d)) \/
  (exists m, m ∈ mails d /\ conflict m /\ update_mail (o_id m) bump d = Some (d', tt)) \/
  (d' = d /\ fleetHourlyCap <= Z.of_nat (count_since (now - fleetCapWindow) (mails d)) /\ forall m, m ∈ mails d -> ~ conflict m).

Lemma suppress_exec previous d :
  match previous with Some p => p ∈ mails d /\ conflict p | None => True end ->
  exists d', exec (suppress MailKindTokenConflict previous) d = (d', Ok tt) /\
    ((exists m, m ∈ mails d /\ conflict m /\ update_mail (o_id m) bump d = Some (d', tt)) \/
     d' = d /\ previous = None /\ forall m, m ∈ mails d -> ~ conflict m).
Proof.
  intros Hp. unfold suppress. destruct previous as [p|].
  - eexists. split; [reflexivity|]. left. exists p. by destruct Hp.
  - rewrite exec_mail_call. cbn [LatestMail stmt exec query]. pose proof (latest_mail_spec MailKindTokenConflict [] (mails d)) as Hl.
    destruct (latest_mail _ _ _) as [m|].
    + destruct Hl as (Hm & [Hk _] & _). eexists. split; [reflexivity|]. left. by exists m.
    + exists d. split; [done|]. right. split; [done|]. split; [done|]. intros m Hm Hc. apply (Hl m Hm). split; [done|by left].
Qed.

Lemma hook_exec canaryID canaryName now d :
  exists d' r, exec (EnqueueTokenConflict canaryID canaryName now) d = (d', r) /\
    (r = Ok tt -> alerted canaryID canaryName now d d') /\ (now ≠ 0 -> r = Ok tt).
Proof.
  unfold EnqueueTokenConflict. rewrite exec_mail_call. cbn [LatestMail stmt exec query].
  pose proof (latest_mail_spec MailKindTokenConflict canaryID (mails d)) as Hl.
  destruct (cooling now (latest_mail MailKindTokenConflict canaryID (mails d))) eqn:Hcool.
  - destruct (latest_mail MailKindTokenConflict canaryID (mails d)) as [p|] eqn:Hp; [|done]. destruct Hl as (Hin & [Hk _] & _).
    destruct (suppress_exec (Some p) d) as (d' & He & [Hb|(_ & ? & _)]); [done| |done]. exists d', (Ok tt). split; [done|]. split; [|done]. intros _. right. by left.
  - rewrite exec_mail_call. cbn [CountMailSince stmt exec query].
    destruct (Z.leb_spec fleetHourlyCap (Z.of_nat (count_since (now - fleetCapWindow) (mails d)))) as [Hfull|Hfew].
    + destruct (suppress_exec (latest_mail MailKindTokenConflict canaryID (mails d)) d) as (d' & He & [Hb|(-> & _ & Hno)]).
      * destruct (latest_mail _ _ _); [|done]. destruct Hl as (? & [? _] & _). by split.
      * exists d', (Ok tt). split; [done|]. split; [|done]. intros _. right. by left.
      * exists d, (Ok tt). split; [done|]. split; [|done]. intros _. right. right. done.
    + unfold EnqueueMail. rewrite bool_decide_eq_true_2 by (apply elem_of_cons; by left). cbn [negb conflict_mail new_mail o_created o_subject o_body].
      destruct (Z.eqb_spec now 0) as [->|Hnow]; [by exists d, (Err ErrMailArgument)|]. rewrite bool_decide_eq_false_2 by (vm_compute; discriminate).
      rewrite bool_decide_eq_false_2 by apply conflict_body. cbn [orb stmt exec]. unfold conflict_mail. rewrite insert_new. cbn [exec].
      eexists _, (Ok tt). split; [reflexivity|]. split; [|done]. intros _. left. eexists. split; [reflexivity|]. split; [done|]. split; [done|]. reflexivity.
Qed.

Lemma stored_ok kind canary subject body at_ d :
  kind ∈ mailKinds -> (kind = MailKindTokenConflict -> canary ≠ None) -> mail_ok cfg clocks (accepted d) (stored kind canary subject body at_ d).
Proof.
  intros Hk Hc. unfold stored. split; cbn [o_attempts o_suppressed o_sent o_error o_next o_created o_canary]; try done; try lia.
  unfold conflict, behind. cbn [o_kind]. unfold mailKinds in Hk. by rewrite !elem_of_cons, elem_of_nil in Hk; destruct Hk as [|[|]]; [left|right|].
Qed.

Lemma bump_ok l m : mail_ok cfg clocks l m -> mail_ok cfg clocks l (bump m).
Proof.
  intros [H0 H1 H2 H3 H4 H5 H6]. unfold bump, set_status.
  split; cbn [o_canary o_attempts o_suppressed o_sent o_error o_next o_created o_subject o_body];
    [exact H0|exact H1|exact H2|lia|exact H4|exact H5|exact H6].
Qed.

(** A hook keeps the table. *)
Lemma alerted_kept canaryID canaryName now d d' :
  mail_inv cfg clocks d -> alerted canaryID canaryName now d d' -> mail_inv cfg clocks d' /\ quiet d d'.
Proof.
  intros HI [(previous & Hp & Hcool & Hcap & ->)|[(m & Hm & Hc & [= <-])|(-> & _)]]; [| |done].
  - set (m := stored _ _ _ _ _ _). assert (mail_inv cfg clocks (mkMailDB (mails d ++ [m]) (next_mail d + 1) (accepted d)) /\
      mail_le d (mkMailDB (mails d ++ [m]) (next_mail d + 1) (accepted d))) as [HI' HL].
    2: { split; [done|]. split; [done|]. cbn [mails]. rewrite days_snoc, decide_False, app_nil_r; [done|].
         unfold m, stored, behind. cbn [o_kind]. vm_compute. discriminate. }
    apply insert_kept; [done|apply stored_ok; [by left|done]|done|done|]. unfold m, stored. cbn [o_canary o_created].
    intros p Hin Hk _ Hcan. pose proof (latest_mail_spec MailKindTokenConflict canaryID (mails d)) as Hl. rewrite <- Hp in Hl.
    assert (mailed MailKindTokenConflict canaryID p) as Hm by (split; [done|by right]).
    destruct previous as [q|]; [|by destruct (Hl p Hin)]. destruct Hl as (_ & _ & Hl). specialize (Hl p Hin Hm).
    unfold cooling in Hcool. apply Z.ltb_ge in Hcool. unfold time_sub, perCanaryCooldown, GoTime.Second in *. lia.
  - apply update_kept; [done| |].
    + intros x Hx _. apply bump_ok. by apply (mi_rows _ _ _ HI).
    + intros x. unfold bump, set_status. split_and!; cbn [o_attempts o_suppressed o_sent]; [reflexivity|lia|lia|auto].
Qed.

(** Every conflict is a mail, or counted on one. *)
Definition total (d : mail_db) : Z := zlen (filter conflict (mails d)) + sum_by o_suppressed (mails d).

Lemma sum_bump id l :
  NoDup (o_id <$> l) -> sum_by o_suppressed ((fun m => if o_id m =? id then bump m else m) <$> l) =
    sum_by o_suppressed l + (if decide (id ∈ o_id <$> l) then 1 else 0).
Proof.
  induction l as [|m l IH]; intros Hnd; [done|]. rewrite !fmap_cons, !sum_by_cons. rewrite fmap_cons in Hnd. apply NoDup_cons in Hnd as [Hm Hnd].
  rewrite IH by done. clear IH. destruct (Z.eqb_spec (o_id m) id) as [<-|Hne].
  - rewrite (decide_True (P := o_id m ∈ o_id m :: (o_id <$> l))) by left. rewrite decide_False by done. cbn. lia.
  - destruct (decide (id ∈ o_id <$> l)); [rewrite decide_True by (by right)|rewrite decide_False by (rewrite elem_of_cons; naive_solver)]; lia.
Qed.

Lemma alerted_total canaryID canaryName now d d' :
  mail_inv cfg clocks d -> (length (filter (fun m => behind m /\ within (now - fleetCapWindow) m) (mails d)) < 20)%nat ->
  (forall m, m ∈ mails d -> o_created m <= now) -> alerted canaryID canaryName now d d' -> total d' = total d + 1.
Proof.
  intros HI Hfew Hpast [(previous & _ & _ & _ & ->)|[(m & Hm & Hc & [= <-])|(-> & Hfull & Hno)]]; unfold total.
  - cbn [mails]. rewrite filter_app, zlen_app, sum_by_app. rewrite (filter_cons_True conflict) by done. cbn [sum_by foldr stored o_suppressed]. rewrite filter_nil. unfold zlen. simpl. lia.
  - cbn [put_mails mails]. rewrite sum_bump by apply HI. rewrite decide_True by (apply list_elem_of_fmap; by exists m).
    assert (zlen (filter conflict ((fun x => if o_id x =? o_id m then bump x else x) <$> mails d)) = zlen (filter conflict (mails d))) as ->; [|lia].
    unfold zlen. f_equal. apply length_filter_map. intros x _. by destruct (_ =? _).
  - exfalso. assert (count_since (now - fleetCapWindow) (mails d) <= length (filter (fun m => behind m /\ within (now - fleetCapWindow) m) (mails d)))%nat.
    { apply length_filter_impl. intros m Hm Hs. split; [destruct (mo_kind _ _ _ _ (mi_rows _ _ _ HI m Hm)); [by destruct (Hno m Hm)|done]|].
      unfold within. specialize (Hpast m Hm). lia. }
    unfold fleetHourlyCap in Hfull. lia.
Qed.
End enqueue.

(** ** The loops *)

Section loops.
Context {TS : TokenSort} {EN : Engine} {UN : Unicode} {TT : TimeText} {MD : MailDate} (cfg : Config) (birdcageVersion : bytes).
Context (Name Lane : canary_row -> bytes) (clocks : Z -> Prop).

(** What the others may do: at least what adds no mail about versions. *)
Context (RM : relation mail_db) `{!PreOrder RM}.
Context (RM_le : forall a b, RM a b -> mail_le a b) (quiet_RM : forall a b, quiet a b -> RM a b).

Definition any {A} (a : A) (o : list (mail_db * mail_db)) : Prop := True.
Abbreviation kept p o d := (valid (mail_inv cfg clocks) RM any p o d).

Lemma kept_call {A B} (p : mail_prog A) (k : A -> mail_prog B) o d :
  kept p o d -> (forall a o' d', RM d d' -> kept (k a) o' d') -> kept (call p k) o d.
Proof.
  intros Hp Hk. unfold call. eapply (valid_pbind (mail_inv cfg clocks) RM); [exact Hp|]. intros [a|e] o' d' HR _; [by apply Hk|done].
Qed.

Lemma kept_stmt {R A} (f : mail_db -> option (mail_db * R)) (k : R -> mail_prog A) o d :
  (forall d1 d2 r, RM d d1 -> mail_inv cfg clocks d1 -> f d1 = Some (d2, r) -> mail_inv cfg clocks d2 /\ RM d1 d2 /\ forall o', kept (k r) o' d2) ->
  kept (stmt f k) o d.
Proof.
  intros Hf d1 HR HI. split; [|done]. intros d2 r Hs. destruct (Hf d1 d2 r HR HI Hs) as (H1 & H2 & H3). split_and!; [done..|apply H3|done].
Qed.

Lemma kept_query {R A} (q : mail_db -> R) (k : R -> mail_prog A) o d :
  (forall d1 o', RM d d1 -> kept (k (q d1)) o' d1) -> kept (stmt (query q) k) o d.
Proof. intros Hk. apply kept_stmt. intros d1 d2 r HR HI [= <- <-]. split; [done|]. split; [reflexivity|]. intros o'. by apply Hk. Qed.

Lemma kept_update id f (k : unit -> mail_prog unit) o d :
  (forall d1 m, RM d d1 -> mail_inv cfg clocks d1 -> m ∈ mails d1 -> o_id m = id -> mail_ok cfg clocks (accepted d1) (f m)) ->
  (forall m, mail_le1 m (f m)) -> (forall o' d', kept (k tt) o' d') -> kept (stmt (update_mail id f) k) o d.
Proof.
  intros Hok Hle Hk. apply kept_stmt. intros d1 d2 [] HR HI [= <-].
  destruct (update_kept cfg clocks id f d1 HI) as [H1 H2]; [by intros m; apply Hok|done|]. split; [done|]. split; [by apply quiet_RM|done].
Qed.

(** *** The sender *)

(** A row that was read is still there, saying the same, with as many attempts
    at least. *)
Definition still (m : MailMessage) (d : mail_db) : Prop :=
  0 <= o_attempts m /\ exists m', m' ∈ mails d /\ head m' = head m /\ o_attempts m <= o_attempts m'.

Lemma still_le m d d' : RM d d' -> still m d -> still m d'.
Proof.
  intros [Hr _]%RM_le (H0 & m1 & Hm1 & Hh & Ha). destruct (table_le_in _ _ _ _ Hr Hm1) as (m2 & Hm2 & Hh2 & Ha2 & _). split; [done|].
  exists m2. split; [done|]. split; [congruence|lia].
Qed.

Lemma still_row m d x : mail_inv cfg clocks d -> still m d -> x ∈ mails d -> o_id x = o_id m ->
  head x = head m /\ 0 <= o_attempts m <= o_attempts x.
Proof.
  intros HI (H0 & m' & Hm' & Hh & Ha) Hx Hid. assert (x = m') as ->; [|done].
  eapply (NoDup_fmap_in o_id); [apply (mi_ids _ _ _ HI)|done|done|]. injection Hh. congruence.
Qed.

Lemma failure_kept m now err o d : clocks now -> still m d -> kept (record_failure cfg m now err) o d.
Proof.
  intros Hnow Hm. unfold record_failure, RecordMailFailure. destruct (_ =? 0); [done|]. apply kept_update; [| |done].
  - intros d1 x HR HI Hx Hid. pose proof (mi_rows _ _ _ HI x Hx) as Hok. unfold mark_failed. destruct (o_sent x) eqn:Hs; [done|].
    destruct (still_row m d1 x HI) as [_ Ha]; [by eapply still_le|done|done|].
    destruct Hok as [H0 H1 H2 H3 H4 H5 H6]. unfold set_status.
    split; cbn [o_canary o_attempts o_suppressed o_sent o_error o_next o_created o_subject o_body]; [exact H0|exact H1|lia|exact H3|done| |].
    + rewrite (proj2 (Z.eqb_neq (o_attempts x + 1) 0)) by lia. exists now, (o_attempts m + 1). rewrite backoff_doubled by lia.
      split; [done|]. split; [lia|done].
    + intros e [= <-]. by eexists.
  - intros x. unfold mark_failed. destruct (o_sent x) eqn:Hs; [reflexivity|].
    unfold set_status. split_and!; cbn [o_attempts o_suppressed o_sent]; [reflexivity|lia|lia|]. by rewrite Hs.
Qed.

Lemma sendOne_kept a m o d : clocks (at_now a) -> still m d -> kept (sendOne cfg a m) o d.
Proof.
  intros Hnow Hm. unfold sendOne. destruct (assemble _ _ _ _ _) as [msg|e] eqn:Hmsg; [|by apply failure_kept].
  intros d1 HR HI. assert (still m d1) as Hm1 by (by eapply still_le). split; [|by apply failure_kept].
  intros d2 r [= <- <-]. set (srv := at_server a (o_id m)).
  set (d2 := mkMailDB _ _ _). assert (accepted d1 `prefix_of` accepted d2) as Hacc
    by (unfold d2; cbn [accepted]; destruct (decide _); [by eexists|done]).
  assert (quiet d1 d2) as HQ by (split; [split; [reflexivity|done]|done]).
  assert (mail_inv cfg clocks d2) as HI2.
  { destruct HI as [I1 I2 I3 I4 I5]. split; try done. intros x Hx. eapply mail_ok_mono; [exact Hacc|]. by apply I3. }
  assert (still m d2) as Hm2 by (eapply still_le; [apply quiet_RM, HQ|done]).
  split; [done|]. split; [by apply quiet_RM|]. split; [|by apply failure_kept].
  destruct (deliver cfg srv msg).2 as [e|] eqn:Hd; [by apply failure_kept|].
  assert (msg ∈ accepted d2) as Hin.
  { unfold d2. cbn [accepted]. rewrite decide_True by (by apply deliver_taken). apply elem_of_app. right. by left. }
  unfold MarkMailSent. destruct (_ =? 0); [done|]. apply kept_update; [| |done].
  - intros d3 x HR3 HI3 Hx Hid. pose proof (mi_rows _ _ _ HI3 x Hx) as Hok. unfold mark_sent. destruct (o_sent x) eqn:Hs; [done|].
    destruct (still_row m d3 x HI3) as [Hh _]; [by eapply still_le|done|done|].
    destruct Hok as [H0 H1 H2 H3 H4 H5 H6]. unfold set_status.
    split; cbn [o_canary o_attempts o_suppressed o_sent o_error o_next o_created o_subject o_body]; [exact H0|exact H1|exact H2|exact H3| |exact H5|done].
    intros t [= <-]. split; [done|]. exists (at_message_id a (o_id m)), msg. injection Hh as _ _ _ -> -> _. split; [done|].
    apply RM_le in HR3 as [_ [k ->]]. apply elem_of_app. by left.
  - intros x. unfold mark_sent. destruct (o_sent x) eqn:Hs; [reflexivity|].
    unfold set_status. split_and!; cbn [o_attempts o_suppressed o_sent]; [reflexivity|lia|lia|]. by rewrite Hs.
Qed.

Lemma send_all_kept a l : clocks (at_now a) -> forall o d, Forall (fun m => still m d) l -> kept (send_all cfg a l) o d.
Proof.
  intros Hnow. induction l as [|m l IH]; intros o d Hl; cbn [send_all]; [done|]. apply Forall_cons in Hl as [Hm Hl].
  apply kept_call; [by apply sendOne_kept|]. intros _ o' d' HR. apply IH. eapply Forall_impl; [exact Hl|]. intros x. by apply still_le.
Qed.

Lemma SenderTick_kept a o d : clocks (at_now a) -> kept (SenderTick cfg a) o d.
Proof.
  intros Hnow. unfold SenderTick, DueMail, call, stmt. cbn [pbind]. intros d1 HR HI. split; [|done]. intros d2 r [= <- <-].
  split; [done|]. split; [reflexivity|]. split; [|done]. apply send_all_kept; [done|]. apply Forall_forall.
  intros m Hm. rewrite merge_sort_Permutation in Hm. apply list_elem_of_filter in Hm as [_ Hm].
  split; [apply (mo_attempts _ _ _ _ (mi_rows _ _ _ HI m Hm))|]. by exists m.
Qed.

(** *** The recorder *)

Definition hinv (h : hist_db mail_db) : Prop := mail_inv cfg clocks (outbox h).
Definition hR (a b : hist_db mail_db) : Prop := RM (outbox a) (outbox b).

#[export] Instance hR_preorder : PreOrder hR.
Proof. unfold hR. split; [intros a; reflexivity|]. intros a b c ? ?. by transitivity (outbox b). Qed.

(** A program keeps the table whatever was done before it. *)
Definition hkept {A} (p : prog (hist_db mail_db) A) : Prop := forall o h, valid hinv hR (fun _ _ => True) p o h.

Lemma hkept_ret {A} (a : A) : hkept (Ret a).
Proof. by intros o h. Qed.

Lemma hkept_pbind {A B} (p : prog (hist_db mail_db) B) (g : B -> prog (hist_db mail_db) A) :
  hkept p -> (forall b, hkept (g b)) -> hkept (pbind p g).
Proof. intros Hp Hg o h. eapply (valid_pbind hinv hR); [apply Hp|]. intros b o' h' _ _. apply Hg. Qed.

Lemma hkept_stmt {R A} (f : hist_db mail_db -> option (hist_db mail_db * R)) (k : option R -> prog (hist_db mail_db) A) :
  (forall h h' r, hinv h -> f h = Some (h', r) -> hinv h' /\ hR h h') -> (forall r, hkept (k r)) -> hkept (Stmt f k).
Proof.
  intros Hf Hk o h h1 HR HI. split; [|apply Hk]. intros h2 r Hs. destruct (Hf h1 h2 r HI Hs). split_and!; [done..|apply Hk|apply Hk].
Qed.

(** A statement on anything but the outbox. *)
Lemma hkept_elsewhere {R A} (f : hist_db mail_db -> option (hist_db mail_db * R)) (k : option R -> prog (hist_db mail_db) A) :
  (forall h h' r, f h = Some (h', r) -> outbox h' = outbox h) -> (forall r, hkept (k r)) -> hkept (Stmt f k).
Proof.
  intros Hf. apply hkept_stmt. intros h h' r HI Hs. unfold hinv, hR. rewrite (Hf h h' r Hs). split; [done|reflexivity].
Qed.

Lemma hkept_table {T A} (get : hist_db mail_db -> T) (put : T -> hist_db mail_db -> hist_db mail_db) (p : prog T A) :
  (forall t h, outbox (put t h) = outbox h) -> hkept (on_table get put p).
Proof.
  intros Hput. induction p as [a|U f k IH]; cbn [on_table]; [apply hkept_ret|]. apply hkept_elsewhere; [|done].
  intros h h' r. destruct (f (get h)) as [[t u]|]; [|done]. intros [= <- _]. apply Hput.
Qed.

Lemma hkept_outbox {A} (p : mail_prog A) : (forall o d, kept p o d) -> hkept (on_table outbox put_outbox p).
Proof.
  intros Hp o h. eapply (valid_on_table (mail_inv cfg clocks) RM hinv hR outbox put_outbox (fun _ => True)) with (ot := []); [done|done| |done|apply Hp].
  intros db t HI Ht HR. by split.
Qed.

Lemma hkept_transaction {A} (lost : history_error) (body : prog (hist_db mail_db) (res history_error A)) :
  hkept body -> hkept (in_transaction lost body).
Proof.
  intros Hb. apply hkept_stmt; [|intros r; apply hkept_ret]. intros h h' r HI. unfold transaction.
  destruct (valid_exec hinv hR _ body [] h HI (Hb [] h)) as (H1 & H2 & _); [by intros s ?%elem_of_nil|].
  destruct (exec body h) as [db [a|e]]; intros [= <- _]; [done|]. split; [done|]. unfold hR. reflexivity.
Qed.

Lemma hkept_call {A B} (p : prog (hist_db mail_db) (res history_error B)) (k : B -> prog (hist_db mail_db) (res history_error A)) :
  hkept p -> (forall b, hkept (k b)) -> hkept (History.call p k).
Proof. intros Hp Hk. apply hkept_pbind; [done|]. intros [b|e]; [apply Hk|apply hkept_ret]. Qed.

Lemma hkept_hstmt {R A} (f : hist_db mail_db -> option (hist_db mail_db * R)) (k : R -> prog (hist_db mail_db) (res history_error A)) :
  (forall h h' r, f h = Some (h', r) -> outbox h' = outbox h) -> (forall r, hkept (k r)) -> hkept (History.stmt f k).
Proof. intros Hf Hk. apply hkept_elsewhere; [done|]. intros [r|]; [apply Hk|apply hkept_ret]. Qed.

Lemma hook_kept row now d d' :
  conflictHook Name row now d = Some d' -> mail_inv cfg clocks d -> mail_inv cfg clocks d' /\ quiet d d'.
Proof.
  unfold conflictHook. intros He HI. destruct (hook_exec (h_id row) (Name row) now d) as (d1 & r & Hx & Ha & _). rewrite Hx in He.
  destruct r as [[]|e]; [|done]. injection He as <-. by apply (alerted_kept _ _ (h_id row) (Name row) now), Ha.
Qed.

Ltac elsewhere := intros ? ? ? [= <- _]; reflexivity.

Lemma open_kept c state now : hkept (openOrCollapse (Some (conflictHook Name)) c state now).
Proof.
  unfold openOrCollapse. apply hkept_call.
  - unfold open_or_collapse. apply hkept_call; [apply hkept_hstmt; [elsewhere|intros r; apply hkept_ret]|]. intros [p|].
    + apply hkept_hstmt; [elsewhere|intros r; apply hkept_ret].
    + unfold OpenStatePeriod. repeat (case_match; [apply hkept_ret|]). apply hkept_hstmt; [elsewhere|intros r; apply hkept_ret].
  - intros _. case_bool_decide; [|apply hkept_ret]. apply hkept_stmt; [|intros r; apply hkept_ret]. intros h h' r HI.
    destruct (conflictHook _ _ _ _) as [m|] eqn:Hh; [|done]. intros [= <- _].
    destruct (hook_kept _ _ _ _ Hh HI) as [HI' HQ]. split; [done|]. by apply quiet_RM.
Qed.

Lemma close_kept id at_ reason : hkept (CloseStatePeriod (M := mail_db) id at_ reason).
Proof. unfold CloseStatePeriod. repeat (case_match; [apply hkept_ret|]). apply hkept_hstmt; [elsewhere|intros r; apply hkept_ret]. Qed.

Lemma tick_body_kept canaries now : hkept (tick_body (Some (conflictHook Name)) canaries now).
Proof.
  unfold tick_body. apply hkept_call.
  - unfold reconcile. apply hkept_call; [apply hkept_hstmt; [elsewhere|intros r; apply hkept_ret]|]. intros open.
    apply hkept_call.
    + generalize (active_pairs canaries). intros l. induction l as [|x l IH]; cbn [open_new]; [apply hkept_ret|].
      case_bool_decide; [done|]. apply hkept_call; [apply open_kept|done].
    + intros _. generalize (pair_key <$> active_pairs canaries). intros k. induction open as [|p l IH]; cbn [close_stopped]; [apply hkept_ret|].
      case_bool_decide; [done|]. apply hkept_call; [apply close_kept|done].
  - intros _. unfold setting_call. apply hkept_pbind; [by apply hkept_table|]. intros [b|e]; apply hkept_ret.
Qed.

Lemma activeStates_kept now : hkept (activeStates (M := mail_db) birdcageVersion now).
Proof. unfold activeStates. apply hkept_pbind; [by apply hkept_table|]. intros [cs|e]; apply hkept_ret. Qed.

Lemma Tick_kept now : hkept (Tick (Some (conflictHook Name)) birdcageVersion now).
Proof. unfold Tick. apply hkept_call; [apply activeStates_kept|]. intros cs. apply hkept_transaction, tick_body_kept. Qed.

Lemma unobserved_kept lastTick now : hkept (recordUnobserved (M := mail_db) birdcageVersion lastTick now).
Proof.
  unfold recordUnobserved. apply hkept_call; [apply activeStates_kept|]. intros cs. apply hkept_transaction. unfold unobserved_body.
  apply hkept_call; [apply hkept_hstmt; [elsewhere|intros r; apply hkept_ret]|]. intros open. apply hkept_call.
  - induction open as [|p l IH]; cbn [close_all]; [apply hkept_ret|]. apply hkept_call; [apply close_kept|done].
  - intros _. induction cs as [|c l IH]; cbn [mark_unobserved]; [apply hkept_ret|]. apply hkept_call; [|done].
    unfold OpenStatePeriod. repeat (case_match; [apply hkept_ret|]). apply hkept_hstmt; [elsewhere|intros r; apply hkept_ret].
Qed.

Lemma Start_kept now : hkept (Start (Some (conflictHook Name)) birdcageVersion now).
Proof.
  unfold Start, setting_call. apply hkept_pbind; [by apply hkept_table|]. intros [raw|e]; [|apply hkept_ret].
  case_bool_decide; [apply Tick_kept|]. destruct (ParseTime raw); [|apply hkept_ret]. destruct (_ <? _); [|apply Tick_kept].
  apply hkept_call; [apply unobserved_kept|]. intros _. apply Tick_kept.
Qed.

(** The loop of the history adds no mail about versions. *)
Lemma HistoryLoop_kept start ticks : (forall a, a ∈ ticks -> clocks (at_now a)) -> hkept (serve cfg birdcageVersion Name Lane (HistoryLoop start ticks)).
Proof.
  intros Hnow. cbn [serve]. apply hkept_pbind; [apply Start_kept|]. intros _. induction ticks as [|a ticks IH]; cbn [runHistoryLoop]; [apply hkept_ret|].
  apply hkept_pbind; [apply Tick_kept|]. intros _. apply hkept_pbind; [|intros _; apply IH; intros b Hb; apply Hnow; by right].
  apply hkept_outbox. intros o d. apply SenderTick_kept, Hnow. by left.
Qed.

(** *** The daily check *)

Lemma behind_insert_kept subject body at_ d :
  mail_inv cfg clocks d ->
  let d' := mkMailDB (mails d ++ [stored MailKindAgentsBehind None subject body at_ d]) (next_mail d + 1) (accepted d) in
  mail_inv cfg clocks d' /\ mail_le d d'.
Proof.
  intros HI d'. assert (~ conflict (stored MailKindAgentsBehind None subject body at_ d)) as Hno
    by (unfold conflict, stored; cbn [o_kind]; vm_compute; discriminate).
  apply insert_kept; [done| |done|done|done]. apply stored_ok; [right; left|]. intros H. by destruct Hno.
Qed.

Lemma behind_kept alert o d : (forall a b, mail_le a b -> RM a b) -> kept (EnqueueAgentsBehind alert) o d.
Proof.
  intros Hall. unfold EnqueueAgentsBehind. case_bool_decide; [done|]. apply kept_call.
  { apply kept_query. done. }
  intros previous o' d' _. destruct (match previous with Some p => _ | None => false end); [done|].
  unfold EnqueueMail. repeat (case_match; [done|]). apply kept_stmt. intros d1 d2 [] HR HI. rewrite insert_new. intros Heq.
  assert (d2 = mkMailDB (mails d1 ++ [stored MailKindAgentsBehind None AgentsBehindSubject (AgentsBehindBody alert) (ab_At alert) d1])
    (next_mail d1 + 1) (accepted d1)) as -> by congruence.
  destruct (behind_insert_kept AgentsBehindSubject (AgentsBehindBody alert) (ab_At alert) d1 HI). split; [done|]. split; [by apply Hall|done].
Qed.

Lemma DriftLoop_kept nows : (forall a b, mail_le a b -> RM a b) -> hkept (serve cfg birdcageVersion Name Lane (DriftLoop nows)).
Proof.
  intros Hall. cbn [serve]. induction nows as [|now nows IH]; cbn [DriftRun]; [apply hkept_ret|]. apply hkept_pbind; [|done].
  unfold DriftTick. apply hkept_pbind; [by apply hkept_table|]. intros [cs|e]; [|apply hkept_ret]. cbv zeta. case_bool_decide; [apply hkept_ret|].
  apply hkept_pbind; [|intros b; apply hkept_ret]. apply hkept_outbox. intros o d. by apply behind_kept.
Qed.
End loops.

(** *** The only sender *)

Section only_sender.
Context {MD : MailDate} (cfg : Config) (now : Z).

Definition same_wait (m m' : MailMessage) : Prop := o_attempts m' = o_attempts m /\ o_next m' = o_next m.

(** A failure more, and the wait that is its own. *)
Definition waited (m m' : MailMessage) : Prop :=
  same_wait m m' \/ o_attempts m' = o_attempts m + 1 /\ o_next m' = now + doubled (Z.max 1 (o_attempts m + 1)).

(** Only the rows of [ids] may have failed. *)
Definition moved (ids : list Z) (d d' : mail_db) : Prop :=
  NoDup (o_id <$> mails d) -> NoDup (o_id <$> mails d') /\
  forall m, m ∈ mails d -> exists m', m' ∈ mails d' /\ o_id m' = o_id m /\
    if bool_decide (o_id m ∈ ids) then waited m m' else same_wait m m'.

(** What the rest of the server does to the outbox: no row leaves it or has an
    attempt counted. *)
Definition calm (d d' : mail_db) : Prop :=
  NoDup (o_id <$> mails d) -> NoDup (o_id <$> mails d') /\
  forall m, m ∈ mails d -> exists m', m' ∈ mails d' /\ o_id m' = o_id m /\ same_wait m m'.

Lemma calm_nil d d' : calm d d' <-> moved [] d d'.
Proof.
  unfold calm, moved. split; intros H Hnd; destruct (H Hnd) as [Hnd' G]; (split; [done|]); intros m Hm;
    destruct (G m Hm) as (x & Hx & Hi & S); exists x; (split; [done|]; split; [done|]).
  - by rewrite bool_decide_eq_false_2 by apply not_elem_of_nil.
  - by rewrite bool_decide_eq_false_2 in S by apply not_elem_of_nil.
Qed.

Lemma moved_trans l k d d1 d' : (forall i, i ∈ l -> i ∉ k) -> moved l d d1 -> moved k d1 d' -> moved (l ++ k) d d'.
Proof.
  intros Hlk H1 H2 Hnd. destruct (H1 Hnd) as [Hnd1 G1]. destruct (H2 Hnd1) as [Hnd2 G2]. split; [done|]. intros m Hm.
  destruct (G1 m Hm) as (x & Hx & Hix & Sx). destruct (G2 x Hx) as (y & Hy & Hiy & Sy). rewrite Hix in *. exists y.
  split; [done|]. split; [congruence|]. pose proof (Hlk (o_id m)) as Hl.
  destruct (decide (o_id m ∈ l)) as [Hml|Hml].
  - rewrite !(bool_decide_eq_true_2 (_ ∈ _)) in * by (rewrite ?elem_of_app; auto). rewrite bool_decide_eq_false_2 in Sy by auto.
    destruct Sy as [Sa Sn]. unfold waited, same_wait in *. by rewrite Sa, Sn.
  - rewrite (bool_decide_eq_false_2 (o_id m ∈ l)) in Sx by done. destruct Sx as [Sa Sn]. unfold waited, same_wait in *.
    rewrite Sa, Sn in Sy. rewrite (bool_decide_ext (o_id m ∈ l ++ k) (o_id m ∈ k)); [exact Sy|]. rewrite elem_of_app. tauto.
Qed.

#[local] Instance calm_preorder : PreOrder calm.
Proof.
  split.
  - intros d Hnd. split; [done|]. intros m Hm. exists m. by repeat split.
  - intros a b c H1%calm_nil H2%calm_nil. apply calm_nil, (moved_trans [] [] a b c); [by intros i ?%elem_of_nil|done|done].
Qed.

Lemma moved_sub l k d d' : (forall i, i ∈ l -> i ∈ k) -> moved l d d' -> moved k d d'.
Proof.
  intros Hlk H1 Hnd. destruct (H1 Hnd) as [Hnd1 G1]. split; [done|]. intros m Hm. destruct (G1 m Hm) as (x & Hx & Hix & Sx).
  exists x. split; [done|]. split; [done|]. pose proof (Hlk (o_id m)). repeat case_bool_decide; [done|tauto|by left|done].
Qed.

Lemma calm_moved l d d' : calm d d' -> moved l d d'.
Proof. rewrite calm_nil. apply moved_sub. by intros i ?%elem_of_nil. Qed.

Lemma calm_then l d d1 d' : calm d d1 -> moved l d1 d' -> moved l d d'.
Proof. intros H1%calm_nil H2. apply (moved_trans [] l d d1 d'); [by intros i ?%elem_of_nil|done|done]. Qed.

Lemma then_calm l d d1 d' : moved l d d1 -> calm d1 d' -> moved l d d'.
Proof.
  intros H1 H2%calm_nil. rewrite <- (app_nil_r l). apply (moved_trans l [] d d1 d'); [|done|done]. by intros i _ ?%elem_of_nil.
Qed.

(** The row still says what was read of it. *)
Definition current (m : MailMessage) (d : mail_db) : Prop :=
  NoDup (o_id <$> mails d) /\ exists x, x ∈ mails d /\ o_id x = o_id m /\ o_attempts x = o_attempts m.

Lemma current_moved m l d d' : o_id m ∉ l -> moved l d d' -> current m d -> current m d'.
Proof.
  intros Hl Hm [Hnd (x & Hx & Hi & Ha)]. destruct (Hm Hnd) as [Hnd' G]. split; [done|]. destruct (G x Hx) as (y & Hy & Hiy & S).
  rewrite Hi, bool_decide_eq_false_2 in S by done. destruct S as [S _]. exists y. split; [done|]. split; congruence.
Qed.

Lemma update_moved id f d :
  (forall m, m ∈ mails d -> o_id m = id -> o_id (f m) = id /\ waited m (f m)) ->
  moved [id] d (put_mails ((fun m => if o_id m =? id then f m else m) <$> mails d) d).
Proof.
  intros Hf Hnd. split.
  - cbn [put_mails mails]. rewrite <- list_fmap_compose. erewrite list_fmap_ext; [exact Hnd|]. intros i m Hm%list_elem_of_lookup_2. cbn.
    destruct (Z.eqb_spec (o_id m) id) as [He|]; [|done]. rewrite He. by apply Hf.
  - intros m Hm. exists (if o_id m =? id then f m else m). split.
    { cbn [put_mails mails]. apply list_elem_of_fmap. by exists m. }
    destruct (Z.eqb_spec (o_id m) id) as [He|He].
    + rewrite bool_decide_eq_true_2 by (rewrite He; left). destruct (Hf m Hm He) as [H1 H2]. by rewrite He.
    + rewrite bool_decide_eq_false_2 by (by rewrite list_elem_of_singleton). by split.
Qed.

Lemma alone_ret {A} (a : A) l d d' r : alone calm (Ret a) d d' r -> moved l d d'.
Proof. intros [Hc _]. by apply calm_moved. Qed.

(** A statement that is the last of its program. *)
Lemma alone_last {A} f (k : unit -> mail_prog A) l d d' r :
  (forall d0 d1, calm d d0 -> f d0 = Some (d1, tt) -> moved l d0 d1) -> (forall d1 d2 r, alone calm (k tt) d1 d2 r -> calm d1 d2) ->
  alone calm (stmt f k) d d' r -> moved l d d'.
Proof.
  intros Hf Hk. unfold stmt. cbn [alone]. intros (d0 & H0 & [[-> _]|[[H1 _]|(d1 & [] & Hs & Hx)]]).
  - by apply calm_moved.
  - apply calm_moved. by transitivity d0.
  - eapply calm_then; [exact H0|]. eapply then_calm; [by apply Hf|]. destruct Hx as [Hx|[Hx _]]; [by eapply Hk|done].
Qed.

Lemma failure_alone m err d d' r : current m d -> alone calm (record_failure cfg m now err) d d' r -> moved [o_id m] d d'.
Proof.
  intros Hm. unfold record_failure, RecordMailFailure. destruct (_ =? 0); [apply alone_ret|]. apply alone_last; [|by intros d1 d2 r' [Hc _]].
  intros d0 d1 Hc [= <-]. apply update_moved. intros x Hx Hi.
  assert (current m d0) as [Hnd (y & Hy & Hiy & Ha)] by (eapply current_moved; [by apply not_elem_of_nil|exact Hc|done]).
  assert (x = y) as -> by (eapply (NoDup_fmap_in o_id); [exact Hnd|done|done|congruence]).
  unfold mark_failed. destruct (o_sent y) as [s|]; [split; [done|by left]|]. split; [done|]. right. unfold set_status. cbn [o_attempts o_next].
  split; [done|]. by rewrite Ha, backoff_wait.
Qed.

Lemma sent_alone id at_ d d' r : alone calm (MarkMailSent id at_) d d' r -> moved [id] d d'.
Proof.
  unfold MarkMailSent. destruct (_ =? 0); [apply alone_ret|]. apply alone_last; [|by intros d1 d2 r' [Hc _]].
  intros d0 d1 _ [= <-]. apply update_moved. intros x _ <-. unfold mark_sent. destruct (o_sent x); (split; [done|by left]).
Qed.

Lemma sendOne_alone a m d d' r : at_now a = now -> current m d -> alone calm (sendOne cfg a m) d d' r -> moved [o_id m] d d'.
Proof.
  intros Ha Hm. unfold sendOne. rewrite Ha. destruct (assemble _ _ _ _ _) as [msg|e]; [|by apply failure_alone]. cbn [alone].
  intros (d0 & H0 & Hc). assert (current m d0) as Hm0 by (eapply current_moved; [by apply not_elem_of_nil|exact H0|done]).
  eapply calm_then; [exact H0|]. destruct Hc as [[-> _]|[Hf|(d1 & x & [= <- <-] & Hx)]].
  - apply calm_moved. reflexivity.
  - by eapply failure_alone.
  - set (d1 := mkMailDB _ _ _) in *. assert (calm d0 d1) as H1.
    { intros Hnd. split; [done|]. intros y Hy. exists y. by repeat split. }
    assert (current m d1) as Hm1 by (eapply current_moved; [by apply not_elem_of_nil|exact H1|done]).
    eapply calm_then; [exact H1|]. destruct Hx as [Hx|Hx]; [|by eapply failure_alone].
    destruct (deliver cfg _ msg).2 as [e|]; [by eapply failure_alone|by eapply sent_alone].
Qed.

Lemma send_all_alone a l : at_now a = now -> forall d d' r, NoDup (o_id <$> l) -> Forall (fun m => current m d) l ->
  alone calm (send_all cfg a l) d d' r -> moved (o_id <$> l) d d'.
Proof.
  intros Ha. induction l as [|m l IH]; intros d d' r Hnd Hl; cbn [send_all]; [apply alone_ret|].
  rewrite fmap_cons in Hnd |- *. apply NoDup_cons in Hnd as [Hm Hnd]. apply Forall_cons in Hl as [Hc Hl]. unfold call.
  intros Hp. apply alone_pbind in Hp as [(d1 & b & H1 & H2)|[H1 _]]; [|apply (moved_sub [o_id m]); [intros i ->%list_elem_of_singleton; left|by eapply sendOne_alone]|apply _].
  apply (moved_trans [o_id m] (o_id <$> l) d d1 d'); [by intros i ->%list_elem_of_singleton|by eapply sendOne_alone|].
  destruct b as [u|e]; [|by eapply alone_ret]. eapply IH; [done| |exact H2]. rewrite Forall_forall in Hl |- *. intros x Hx.
  eapply current_moved; [|by eapply sendOne_alone|by apply Hl]. rewrite list_elem_of_singleton. intros Heq. apply Hm. rewrite <- Heq.
  by apply list_elem_of_fmap_2.
Qed.

(** A tick of the only sender counts each failure once, with its own wait. *)
Lemma SenderTick_alone a d d' r : at_now a = now -> NoDup (o_id <$> mails d) -> alone calm (SenderTick cfg a) d d' r ->
  forall m, m ∈ mails d -> exists m', m' ∈ mails d' /\ o_id m' = o_id m /\ waited m m'.
Proof.
  intros Ha Hnd. unfold SenderTick, DueMail, call, stmt. cbn [pbind alone query]. intros Hp.
  assert (exists ids, moved ids d d') as [ids Hmv].
  { destruct Hp as (d0 & H0 & [[-> _]|[Hx|(d1 & l & [= <- <-] & Hx)]]).
    - exists []. by apply calm_nil.
    - exists []. eapply then_calm; [by apply calm_nil|]. by destruct Hx as [Hx _].
    - assert (NoDup (o_id <$> mails d0)) as Hnd0 by (by apply H0).
      destruct Hx as [Hx|[Hx _]]; [|exists []; eapply then_calm; [by apply calm_nil|done]]. eexists. eapply calm_then; [exact H0|].
      eapply send_all_alone; [done| | |exact Hx].
      + rewrite merge_sort_Permutation. by apply NoDup_fmap_filter.
      + apply Forall_forall. intros m Hm. rewrite merge_sort_Permutation in Hm. apply list_elem_of_filter in Hm as [_ Hm]. split; [done|by exists m]. }
  intros m Hm. destruct (Hmv Hnd) as [_ G]. destruct (G m Hm) as (x & Hx & Hi & S). exists x. split; [done|]. split; [done|].
  case_bool_decide; [done|by left].
Qed.
End only_sender.

(** *** The daily check beside the loop of the history *)

Definition any_time (t : Z) : Prop := True.

Section beside.
Context {TS : TokenSort} {EN : Engine} {UN : Unicode} {TT : TimeText} {MD : MailDate} (cfg : Config) (birdcageVersion : bytes).
Context (Name Lane : canary_row -> bytes).

(** What the rest of the server may do to the outbox: keep it, and add no mail
    about versions. *)
Definition beside (a b : hist_db mail_db) : Prop := mail_inv cfg any_time (outbox a) -> mail_inv cfg any_time (outbox b) /\ quiet (outbox a) (outbox b).

#[export] Instance beside_preorder : PreOrder beside.
Proof.
  split; [intros a Ha; split; [done|reflexivity]|]. intros a b c Hab Hbc Ha. destruct (Hab Ha) as [Hb Q1]. destruct (Hbc Hb) as [Hc Q2].
  split; [done|]. by transitivity (outbox b).
Qed.

Lemma beside_outbox a b : outbox b = outbox a -> beside a b.
Proof. intros Hab Ha. rewrite Hab. split; [done|reflexivity]. Qed.

Lemma listing_alone {A} (p : prog health_db A) : forall h h' r, alone beside (on_table health put_health p) h h' r -> beside h h'.
Proof.
  induction p as [a|U f k IH]; intros h h' r; cbn [on_table alone]; [by intros [H _]|].
  intros (h0 & H0 & [[-> _]|[Hn|(h1 & x & Hf & Hx)]]); [done|transitivity h0; [done|by eapply IH]|].
  assert (beside h0 h1) as H1. { destruct (f (health h0)) as [[t y]|]; [|done]. injection Hf as <- _. by apply beside_outbox. }
  transitivity h0; [done|]. transitivity h1; [done|]. destruct Hx as [Hx|Hx]; by eapply IH.
Qed.

(** At most one mail a day about versions until [t]. *)
Record daily (t : Z) (h : hist_db mail_db) : Prop := {
  da_inv : mail_inv cfg any_time (outbox h);
  da_days : StronglySorted Z.lt (days (mails (outbox h)));
  da_last : Forall (fun x => x <= UTCDay t) (days (mails (outbox h)));
}.

Lemma daily_beside t h h' : beside h h' -> daily t h -> daily t h'.
Proof. intros Hb [H1 H2 H3]. destruct (Hb H1) as [H4 [_ Hd]]. by split; rewrite ?Hd. Qed.

Lemma daily_later t t' h : t <= t' -> daily t h -> daily t' h.
Proof.
  intros Ht [H1 H2 H3]. split; [done|done|]. eapply Forall_impl; [exact H3|]. intros x Hx. pose proof (UTCDay_mono _ _ Ht). simpl in *. lia.
Qed.

Lemma StronglySorted_snoc (l : list Z) x : StronglySorted Z.lt l -> Forall (fun y => y < x) l -> StronglySorted Z.lt (l ++ [x]).
Proof.
  induction 1 as [|y l Hs IH Hy]; intros Hx; [repeat constructor|]. apply Forall_cons in Hx as [Hyx Hx]. simpl. constructor; [by apply IH|].
  apply Forall_app. split; [done|by constructor].
Qed.

(** The row is written on a day that has none. *)
Lemma daily_insert now h h0 h1 body :
  daily now h -> beside h h0 -> match latest_mail MailKindAgentsBehind [] (mails (outbox h)) with
    | Some p => sameUTCDate (o_created p) now | None => false end = false ->
  outbox h1 = mkMailDB (mails (outbox h0) ++ [stored MailKindAgentsBehind None AgentsBehindSubject body now (outbox h0)])
    (next_mail (outbox h0) + 1) (accepted (outbox h0)) -> daily now h1.
Proof.
  intros [H1 H2 H3] Hb Hl Ho. destruct (Hb H1) as [HI [_ Hd]]. destruct (behind_insert_kept cfg any_time AgentsBehindSubject body now (outbox h0) HI) as [HI' _].
  split; rewrite Ho; [done|..]; cbn [mails]; rewrite days_snoc, Hd, decide_True by done; unfold stored; cbn [o_created].
  - apply StronglySorted_snoc; [done|]. apply Forall_forall. intros x Hx. rewrite Forall_forall in H3. pose proof (H3 x Hx) as Hxd.
    pose proof (latest_mail_spec MailKindAgentsBehind [] (mails (outbox h))) as Hs. apply list_elem_of_fmap in Hx as (b & -> & [Hbe Hb0]%list_elem_of_filter).
    destruct (latest_mail _ _ _) as [p|].
    + destruct Hs as (Hp & [Hkp _] & Hall). specialize (Hall b Hb0 ltac:(split; [done|by left])). unfold sameUTCDate in Hl. apply Z.eqb_neq in Hl.
      pose proof (UTCDay_mono _ _ Hall).
      assert (UTCDay (o_created p) <= UTCDay now); [|lia]. apply H3. apply list_elem_of_fmap. exists p. split; [done|]. by apply list_elem_of_filter.
    + exfalso. apply (Hs b Hb0). split; [done|by left].
  - apply Forall_app. split; [done|]. by constructor.
Qed.

Lemma behind_alone now alert h h' r :
  daily now h -> ab_At alert = now -> alone beside (on_table outbox put_outbox (EnqueueAgentsBehind alert)) h h' r -> daily now h'.
Proof.
  intros Hd Hat. unfold EnqueueAgentsBehind. case_bool_decide; [intros [Hb _]; by eapply daily_beside|].
  unfold call, LatestMail, stmt. cbn [pbind on_table alone query]. intros (h0 & H0 & [[-> _]|[[H1 _]|(h1 & x & [= <- <-] & Hx)]]).
  { by eapply daily_beside. }
  { eapply daily_beside; [|exact Hd]. by transitivity h0. }
  assert (daily now h0) as Hd0 by (by eapply daily_beside). assert (put_outbox (outbox h0) h0 = h0) as Hput by (by destruct h0).
  rewrite Hput in Hx. clear Hput.
  destruct Hx as [Hx|[Hb _]]; [|by eapply daily_beside].
  destruct (match latest_mail _ _ _ with Some p => _ | None => false end) eqn:Hl; [destruct Hx as [Hb _]; by eapply daily_beside|].
  unfold EnqueueMail in Hx. repeat (case_match; [destruct Hx as [Hb _]; by eapply daily_beside|]).
  cbn [stmt on_table alone] in Hx. destruct Hx as (h2 & Hb2 & [[-> _]|[[Hb3 _]|(h3 & x & Hs & Hx)]]).
  { by eapply daily_beside. }
  { eapply daily_beside; [|exact Hd0]. by transitivity h2. }
  rewrite insert_new in Hs. assert (daily now h3) as Hd3.
  { eapply (daily_insert now h0 h2); [done|done|by rewrite <- Hat|]. rewrite Hat in Hs.
    assert (h3 = put_outbox (mkMailDB (mails (outbox h2) ++ [stored MailKindAgentsBehind None AgentsBehindSubject (AgentsBehindBody alert) now (outbox h2)])
      (next_mail (outbox h2) + 1) (accepted (outbox h2))) h2) as -> by congruence. reflexivity. }
  destruct Hx as [[Hb _]|[Hb _]]; by eapply daily_beside.
Qed.

Lemma DriftTick_alone t now h h' r :
  daily t h -> t <= now -> alone beside (DriftTick birdcageVersion Name Lane now) h h' r -> daily now h'.
Proof.
  intros Hd Ht Ha. apply (daily_later t now) in Hd; [|done]. unfold DriftTick in Ha.
  apply (alone_pbind beside) in Ha as [(h1 & b & Hl & Ha)|[Hl _]]; [|apply listing_alone in Hl; by eapply daily_beside].
  apply listing_alone in Hl. assert (daily now h1) as Hd1 by (by eapply daily_beside).
  destruct b as [cs|e]; [|destruct Ha as [Hb _]; by eapply daily_beside]. cbv zeta in Ha. case_bool_decide; [destruct Ha as [Hb _]; by eapply daily_beside|].
  apply (alone_pbind beside) in Ha as [(h2 & b & Hl2 & [Ha _])|[Hl2 _]].
  - eapply daily_beside; [exact Ha|]. eapply (behind_alone now _ h1); [done| |exact Hl2]. reflexivity.
  - eapply (behind_alone now _ h1); [done| |exact Hl2]. reflexivity.
Qed.

Lemma DriftRun_alone nows : forall t h h' r,
  daily t h -> Sorted Z.le (t :: nows) -> alone beside (DriftRun birdcageVersion Name Lane nows) h h' r -> exists t', daily t' h'.
Proof.
  induction nows as [|now nows IH]; intros t h h' r Hd Hs Ha; cbn [DriftRun] in Ha.
  { destruct Ha as [Hb _]. exists t. by eapply daily_beside. }
  apply Sorted_inv in Hs as [Hs Hh]. apply HdRel_inv in Hh.
  apply (alone_pbind beside) in Ha as [(h1 & b & Hl & Ha)|[Hl _]].
  - eapply IH; [|exact Hs|exact Ha]. by eapply DriftTick_alone.
  - exists now. by eapply DriftTick_alone.
Qed.
End beside.

(** ** A tick of the recorder and its alerts *)

Section accounting.
Context {TS : TokenSort} {EN : Engine} {UN : Unicode} {TT : TimeText} {MD : MailDate} (cfg : Config) (birdcageVersion : bytes).
Context (Name : canary_row -> bytes).

(** The hooks of a tick, in order. *)
Fixpoint hooks (l : list canary_row) (now : Z) (d : mail_db) : option mail_db :=
  match l with
  | [] => Some d
  | row :: l => match conflictHook Name row now d with Some d' => hooks l now d' | None => None end
  end.

Lemma conflictHook_total row now d : now ≠ 0 -> exists d', conflictHook Name row now d = Some d' /\ alerted (h_id row) (Name row) now d d'.
Proof.
  intros Hnow. unfold conflictHook. destruct (hook_exec (h_id row) (Name row) now d) as (d' & r & -> & Ha & Hr).
  rewrite (Hr Hnow) in *. exists d'. split; [done|]. by apply Ha.
Qed.

Definition raised (already : list (bytes * bytes)) (x : Canary * HealthState) : Prop :=
  pair_key x ∉ already /\ x.2 = StateTokenConflict.

#[local] Instance raised_dec already x : Decision (raised already x).
Proof. unfold raised. apply _. Defined.

Ltac quietly := split; [reflexivity|split; [reflexivity|discriminate]].

Lemma opened_exec c state now (h : hist_db mail_db) :
  exists h' r, exec (open_or_collapse c state now) h = (h', r) /\ outbox h' = outbox h /\ r ≠ Err ErrConflictHook.
Proof.
  unfold open_or_collapse. rewrite History.exec_call. cbn [LatestClosedStatePeriod History.stmt exec query].
  destruct (latest_closed _ _ _) as [p|].
  - eexists _, _. quietly.
  - unfold OpenStatePeriod. repeat (case_match; [eexists _, _; quietly|]). eexists _, _. quietly.
Qed.

Lemma open_new_hooks now l : forall already (h : hist_db mail_db), now ≠ 0 ->
  exists h' r, exec (open_new (Some (conflictHook Name)) l already now) h = (h', r) /\ r ≠ Err ErrConflictHook /\
    (r = Ok tt -> hooks ((fun x => Row x.1) <$> filter (raised already) l) now (outbox h) = Some (outbox h')).
Proof.
  induction l as [|x l IH]; intros already h Hnow; cbn [open_new]; [by exists h, (Ok tt)|].
  rewrite filter_cons. case_bool_decide as Hin.
  - rewrite decide_False by (intros [? _]; done). by apply IH.
  - rewrite History.exec_call. unfold openOrCollapse. rewrite History.exec_call.
    destruct (opened_exec x.1 (state_name x.2) now h) as (h1 & r1 & -> & Ho & Hr1). destruct r1 as [[]|e].
    2: { exists h1, (Err e). done. }
    case_bool_decide as Hc.
    + rewrite decide_True by done. rewrite fmap_cons. cbn [hooks]. unfold run_hook. cbn [exec]. rewrite Ho.
      destruct (conflictHook_total (Row x.1) now (outbox h) Hnow) as (d' & -> & _).
      destruct (IH already (put_outbox d' h1) Hnow) as (h' & r & He & Hr & Hh). exists h', r. done.
    + rewrite decide_False by (intros [_ ?]; done). rewrite <- Ho. by apply IH.
Qed.

Lemma close_stopped_quiet now l active : forall (h : hist_db mail_db),
  exists h' r, exec (close_stopped l active now) h = (h', r) /\ outbox h' = outbox h /\ r ≠ Err ErrConflictHook.
Proof.
  induction l as [|p l IH]; intros h; cbn [close_stopped]; [by exists h, (Ok tt)|]. case_bool_decide; [apply IH|].
  rewrite History.exec_call. unfold CloseStatePeriod. destruct (negb _); [eexists _, _; quietly|]. destruct (now =? 0); [eexists _, _; quietly|].
  cbn [History.stmt exec update_period]. destruct (IH (put_periods ((fun q => if p_id q =? p_id p then close_period now (end_reason (p_state p)) q else q) <$> periods h) h))
    as (h' & r & He & Ho & Hr). exists h', r. done.
Qed.

Lemma tick_body_hooks now cs (h : hist_db mail_db) : now ≠ 0 ->
  exists h' r, exec (tick_body (Some (conflictHook Name)) cs now) h = (h', r) /\ r ≠ Err ErrConflictHook /\
    (r = Ok tt -> hooks ((fun x => Row x.1) <$> filter (raised (open_keys (periods h))) (active_pairs cs)) now (outbox h) = Some (outbox h')).
Proof.
  intros Hnow. unfold tick_body, reconcile. rewrite !History.exec_call. cbn [OpenStatePeriods History.stmt exec query].
  rewrite History.exec_call. fold (open_keys (periods h)).
  destruct (open_new_hooks now (active_pairs cs) (open_keys (periods h)) h Hnow) as (h1 & r1 & He & Hr1 & Hh). rewrite He. clear He.
  destruct r1 as [[]|e]; [|by exists h1, (Err e)].
  destruct (close_stopped_quiet now (filter is_open (periods h)) (pair_key <$> active_pairs cs) h1) as (h2 & r2 & He & Ho & Hr2). rewrite He. clear He.
  destruct r2 as [[]|e]; [|by exists h2, (Err e)].
  unfold setting_call. rewrite exec_pbind, exec_on_table by (done || by intros []).
  destruct (exec (SetSetting SettingHistoryLastTick (FormatTime now) now) (settings h2)) as [s [[]|e]]; cbn [fst snd exec];
    [eexists _, (Ok tt)|eexists _, (Err _)]; (split; [reflexivity|]); split; try done.
  intros _. cbn [put_settings outbox]. rewrite Ho. by apply Hh.
Qed.

(** No more than two days meet within the hour. *)
Lemma few_behind d t :
  StronglySorted Z.lt (days (mails d)) -> (length (filter (fun m => behind m /\ within t m) (mails d)) < 20)%nat.
Proof.
  intros Hs. assert (NoDup (days (mails d))) as Hnd.
  { clear -Hs. induction Hs as [|x l Hs IH Hx]; constructor; [|done]. intros Hin. rewrite Forall_forall in Hx. specialize (Hx x Hin). lia. }
  set (l := filter (fun m => behind m /\ within t m) (mails d)).
  assert (l = filter (within t) (filter behind (mails d))) as Hl by (unfold l; rewrite list_filter_filter; apply list_filter_iff; tauto).
  assert (NoDup ((fun m => UTCDay (o_created m)) <$> l)) as Hndl.
  { rewrite Hl. by apply NoDup_fmap_filter. }
  assert ((fun m => UTCDay (o_created m)) <$> l ⊆ [UTCDay t; UTCDay t + 1]) as Hsub.
  { intros x (m & -> & [[_ Hw] _]%list_elem_of_filter)%list_elem_of_fmap. unfold within, fleetCapWindow in Hw.
    rewrite !elem_of_cons. assert (UTCDay t <= UTCDay (o_created m) <= UTCDay t + 1) as Hd; [|lia].
    split; [apply UTCDay_mono; lia|]. unfold UTCDay. rewrite <- (Z_div_plus_full t 1) by (by vm_compute). apply Z.div_le_mono; [by vm_compute|].
    unfold GoTime.Second in *. lia. }
  pose proof (submseteq_length _ _ (NoDup_submseteq _ _ Hndl Hsub)) as Hlen. rewrite length_fmap in Hlen. simpl in Hlen. lia.
Qed.

Lemma hooks_total now l : forall d d',
  mail_inv cfg any_time d -> StronglySorted Z.lt (days (mails d)) -> (forall m, m ∈ mails d -> o_created m <= now) -> now ≠ 0 ->
  hooks l now d = Some d' -> mail_inv cfg any_time d' /\ quiet d d' /\ total d' = total d + zlen l.
Proof.
  induction l as [|row l IH]; intros d d' HI Hs Hpast Hnow; cbn [hooks].
  { intros [= <-]. split; [done|]. split; [reflexivity|]. rewrite zlen_nil. lia. }
  destruct (conflictHook_total row now d Hnow) as (d1 & Hh & Ha). rewrite Hh. intros Hl.
  pose proof (alerted_kept cfg any_time _ _ _ _ _ HI Ha) as [HI1 HQ1].
  assert (total d1 = total d + 1) as Ht by (eapply alerted_total; [exact HI|by apply few_behind|done|exact Ha]).
  assert (forall m, m ∈ mails d1 -> o_created m <= now) as Hpast1.
  { destruct Ha as [(previous & _ & _ & _ & ->)|[(m & Hm & Hc & [= <-])|(-> & _)]]; [| |done].
    - intros m [Hm| ->%list_elem_of_singleton]%elem_of_app; [by apply Hpast|]. unfold stored. cbn [o_created]. lia.
    - intros x (y & -> & Hy)%list_elem_of_fmap. specialize (Hpast y Hy). by destruct (o_id y =? o_id m). }
  destruct (IH d1 d' HI1 ltac:(by rewrite (proj2 HQ1)) Hpast1 Hnow Hl) as (HI' & HQ' & Ht'). split; [done|]. split; [by transitivity d1|].
  rewrite zlen_cons. lia.
Qed.

(** The nodes whose conflict is new. *)
Definition new_conflict (h : hist_db mail_db) (now : Z) (row : canary_row) : Prop :=
  holds (health h) now birdcageVersion row StateTokenConflict = true /\ (h_id row, state_name StateTokenConflict) ∉ open_keys (periods h).

#[export] Instance new_conflict_dec h now row : Decision (new_conflict h now row).
Proof. unfold new_conflict. apply _. Defined.

Lemma length_filter_one {A} `{EqDecision A} (P : Prop) `{Decision P} (a : A) l :
  NoDup l -> length (filter (fun x => P /\ x = a) l) = if decide (P /\ a ∈ l) then 1%nat else 0%nat.
Proof.
  induction 1 as [|x l Hx Hnd IH].
  { rewrite decide_False; [done|]. intros [_ ?%elem_of_nil]. done. }
  rewrite filter_cons. destruct (decide (P /\ x = a)) as [[HP ->]|Hno].
  - rewrite decide_True by (split; [done|left]). simpl. rewrite IH, decide_False by tauto. done.
  - rewrite IH. destruct (decide (P /\ a ∈ l)) as [[HP Hin]|Hn].
    + rewrite decide_True; [done|]. split; [done|by right].
    + rewrite decide_False; [done|]. intros [HP [->|Hin]%elem_of_cons]; tauto.
Qed.

Lemma raised_count (h : hist_db mail_db) now cs :
  Permutation (Row <$> cs) (rows (health h)) -> Forall (tile (health h) now birdcageVersion) cs ->
  length (filter (raised (open_keys (periods h))) (active_pairs cs)) = length (filter (new_conflict h now) (rows (health h))).
Proof.
  intros Hp Hti. assert (length (filter (new_conflict h now) (rows (health h))) = length (filter (new_conflict h now) (Row <$> cs))) as ->
    by (by rewrite Hp).
  clear Hp. unfold active_pairs. induction Hti as [|c cs Hc Hti IH]; [done|].
  rewrite bind_cons, filter_app, length_app, IH, fmap_cons, filter_cons. set (P := (h_id (Row c), state_name StateTokenConflict) ∉ open_keys (periods h)).
  assert (length (filter (raised (open_keys (periods h))) ((c,.) <$> ActiveStates c)) =
    length (filter (fun s => P /\ s = StateTokenConflict) (ActiveStates c))) as ->.
  { apply length_filter_map. intros s _. unfold raised, P, pair_key. cbn [fst snd]. split; [intros [? ->]|intros [? ->]]; done. }
  rewrite length_filter_one by (eapply shows_nodup; exact Hc).
  assert (new_conflict h now (Row c) <-> P /\ StateTokenConflict ∈ ActiveStates c) as Hiff.
  { unfold new_conflict, P. rewrite (in_active _ _ _ _ _ Hc); [tauto|done..]. }
  destruct (decide (new_conflict h now (Row c))); [rewrite decide_True by tauto|rewrite decide_False by tauto]; done.
Qed.
End accounting.

(** ** A tick of the sender that nothing interrupts *)

Section sending.
Context {MD : MailDate} (cfg : Config).

(** What an attempt makes of a row. *)
Definition after_attempt (a : attempt) (m : MailMessage) : MailMessage :=
  let failed (err : bytes) :=
    mark_failed (scrub cfg (lit "could not send the " ++ o_kind m ++ lit " alert: " ++ err)) (at_now a + backoff (o_attempts m + 1)) m in
  match assemble cfg (o_subject m) (o_body m) (at_message_id a (o_id m)) (at_now a) with
  | Err e => failed e
  | Ok msg => match (deliver cfg (at_server a (o_id m)) msg).2 with None => mark_sent (at_now a) m | Some e => failed e end
  end.

Definition attempted (a : attempt) (m : MailMessage) : MailMessage := if decide (due (at_now a) m) then after_attempt a m else m.

Lemma after_attempt_le a m : mail_le1 m (after_attempt a m).
Proof.
  assert (forall e n, mail_le1 m (mark_failed e n m)) as Hf.
  { intros e n. unfold mark_failed. destruct (o_sent m) eqn:Hs; [reflexivity|]. unfold set_status.
    split_and!; cbn [o_attempts o_suppressed o_sent]; [reflexivity|lia|lia|]. by rewrite Hs. }
  unfold after_attempt. destruct (assemble _ _ _ _ _); [|apply Hf]. destruct (deliver _ _ _).2; [apply Hf|].
  unfold mark_sent. destruct (o_sent m) eqn:Hs; [reflexivity|]. unfold set_status.
  split_and!; cbn [o_attempts o_suppressed o_sent]; [reflexivity|lia|lia|]. by rewrite Hs.
Qed.

Lemma after_attempt_id a m : o_id (after_attempt a m) = o_id m.
Proof. destruct (after_attempt_le a m) as [Hh _]. by injection Hh. Qed.

Lemma update_one (l : list MailMessage) m f y :
  NoDup (o_id <$> l) -> m ∈ l -> f m = y ->
  (fun x => if o_id x =? o_id m then f x else x) <$> l = (fun x => if o_id x =? o_id m then y else x) <$> l.
Proof.
  intros Hnd Hm Hf. apply list_fmap_ext. intros i x Hx. destruct (Z.eqb_spec (o_id x) (o_id m)) as [Heq|]; [|done].
  rewrite (NoDup_fmap_in o_id l x m Hnd); [done|by eapply list_elem_of_lookup_2|done|done].
Qed.

Lemma sendOne_exec a m d :
  NoDup (o_id <$> mails d) -> m ∈ mails d -> 0 < at_now a ->
  exists d', exec (sendOne cfg a m) d = (d', Ok tt) /\
    mails d' = (fun x => if o_id x =? o_id m then after_attempt a m else x) <$> mails d.
Proof.
  intros Hnd Hm Hnow.
  assert (forall err d0, mails d0 = mails d -> (after_attempt a m =
      mark_failed (scrub cfg (lit "could not send the " ++ o_kind m ++ lit " alert: " ++ err)) (at_now a + backoff (o_attempts m + 1)) m) ->
    exists d', exec (record_failure cfg m (at_now a) err) d0 = (d', Ok tt) /\
      mails d' = (fun x => if o_id x =? o_id m then after_attempt a m else x) <$> mails d) as Hfail.
  { intros err d0 H0 He. unfold record_failure, RecordMailFailure. pose proof (backoff_bounds (o_attempts m + 1)) as Hb.
    rewrite (proj2 (Z.eqb_neq _ 0)) by (unfold baseBackoff, GoTime.Second in Hb; lia).
    eexists. split; [reflexivity|]. cbn [put_mails mails]. rewrite H0. by apply update_one. }
  unfold sendOne. destruct (assemble cfg (o_subject m) (o_body m) (at_message_id a (o_id m)) (at_now a)) as [msg|e] eqn:Hmsg.
  - cbn [exec submit]. destruct (deliver cfg (at_server a (o_id m)) msg).2 as [e|] eqn:Hd.
    + apply Hfail; [done|]. unfold after_attempt. by rewrite Hmsg, Hd.
    + unfold MarkMailSent. rewrite (proj2 (Z.eqb_neq (at_now a) 0)) by lia. eexists. split; [reflexivity|]. cbn [put_mails mails].
      apply update_one; [done|done|]. unfold after_attempt. by rewrite Hmsg, Hd.
  - apply Hfail; [done|]. unfold after_attempt. by rewrite Hmsg.
Qed.

(** One way or the other, what an attempt leaves. *)
Definition tried (a : attempt) (m m' : MailMessage) : Prop :=
  o_sent m' = Some (at_now a) /\ o_error m' = None /\ o_attempts m' = o_attempts m /\
    (exists msg, assemble cfg (o_subject m) (o_body m) (at_message_id a (o_id m)) (at_now a) = Ok msg /\
       (deliver cfg (at_server a (o_id m)) msg).2 = None) \/
  o_sent m' = None /\ is_Some (o_error m') /\ o_attempts m' = o_attempts m + 1 /\
    o_next m' = at_now a + doubled (Z.max 1 (o_attempts m + 1)).

Lemma after_attempt_tried a m : o_sent m = None -> tried a m (after_attempt a m).
Proof.
  intros Hs. unfold tried, after_attempt, mark_failed, mark_sent. rewrite Hs.
  destruct (assemble _ _ _ _ _) as [msg|e] eqn:Ha; [destruct (_.2) as [e|] eqn:He|]; cbn [set_status o_sent o_error o_attempts o_next];
    [right|left|right]; rewrite ?backoff_wait; split_and!; try done. by exists msg.
Qed.

Lemma send_all_exec a l : forall d,
  NoDup (o_id <$> mails d) -> NoDup (o_id <$> l) -> (forall m, m ∈ l -> m ∈ mails d) -> 0 < at_now a ->
  exists d', exec (send_all cfg a l) d = (d', Ok tt) /\
    mails d' = (fun x => if decide (o_id x ∈ o_id <$> l) then after_attempt a x else x) <$> mails d.
Proof.
  induction l as [|m l IH]; intros d Hnd Hl Hin Hnow; cbn [send_all].
  { exists d. split; [done|]. rewrite <- (list_fmap_id (mails d)) at 1. apply list_fmap_ext. intros i x _. by rewrite decide_False by apply not_elem_of_nil. }
  rewrite fmap_cons in Hl. apply NoDup_cons in Hl as [Hm Hl]. rewrite exec_mail_call.
  destruct (sendOne_exec a m d Hnd (Hin m ltac:(left)) Hnow) as (d1 & -> & H1).
  assert (o_id <$> mails d1 = o_id <$> mails d) as Hids.
  { rewrite H1. apply table_column_map. intros x _. destruct (Z.eqb_spec (o_id x) (o_id m)) as [->|]; [apply after_attempt_id|done]. }
  destruct (IH d1) as (d' & -> & H2); [by rewrite Hids|done| |done|].
  - intros x Hx. rewrite H1. apply list_elem_of_fmap. exists x. split; [|apply Hin; by right].
    destruct (Z.eqb_spec (o_id x) (o_id m)) as [Heq|]; [|done]. destruct Hm. rewrite <- Heq. apply list_elem_of_fmap. by exists x.
  - exists d'. split; [done|]. rewrite H2, H1, <- list_fmap_compose. apply list_fmap_ext. intros i x Hx. unfold compose.
    apply list_elem_of_lookup_2 in Hx. destruct (Z.eqb_spec (o_id x) (o_id m)) as [Heq|Hne].
    + assert (x = m) as -> by (by eapply (NoDup_fmap_in o_id); [exact Hnd|done|apply Hin; left|]).
      rewrite after_attempt_id, decide_False by done. by rewrite decide_True by (rewrite fmap_cons; left).
    + rewrite fmap_cons. destruct (decide (o_id x ∈ o_id <$> l)).
      * by rewrite decide_True by (by right).
      * rewrite decide_False; [done|]. by intros [?|?]%elem_of_cons.
Qed.

Lemma SenderTick_exec a d :
  NoDup (o_id <$> mails d) -> 0 < at_now a ->
  exists d', exec (SenderTick cfg a) d = (d', Ok tt) /\ mails d' = attempted a <$> mails d.
Proof.
  intros Hnd Hnow. unfold SenderTick. rewrite exec_mail_call. cbn [DueMail stmt exec query].
  set (l := merge_sort due_le (filter (due (at_now a)) (mails d))).
  assert (forall m, m ∈ l <-> due (at_now a) m /\ m ∈ mails d) as Hl by (intros m; unfold l; by rewrite merge_sort_Permutation, list_elem_of_filter).
  destruct (send_all_exec a l d Hnd) as (d' & -> & Hd'); [|by intros m [_ ?]%Hl|done|].
  - unfold l. rewrite merge_sort_Permutation. by apply NoDup_fmap_filter.
  - exists d'. split; [done|]. rewrite Hd'. apply list_fmap_ext. intros i x Hx%list_elem_of_lookup_2. unfold attempted.
    destruct (decide (due (at_now a) x)) as [Hdue|Hno].
    + rewrite decide_True; [done|]. apply list_elem_of_fmap. exists x. split; [done|]. by apply Hl.
    + rewrite decide_False; [done|]. intros (y & Hid & [Hdue Hy]%Hl)%list_elem_of_fmap. apply Hno.
      by rewrite (NoDup_fmap_in o_id _ x y Hnd Hx Hy Hid).
Qed.

(** A row that is owed waits for its next attempt, and no longer than it did or
    an hour. *)
Lemma attempted_owed a m :
  o_sent (attempted a m) = None -> at_now a < o_next (attempted a m) <= Z.max (o_next m) (at_now a + maxBackoff).
Proof.
  unfold attempted. destruct (decide (due (at_now a) m)) as [[Hs Hn]|Hno].
  - assert (forall e, o_next (mark_failed e (at_now a + backoff (o_attempts m + 1)) m) = at_now a + backoff (o_attempts m + 1)) as Hf
      by (intros e; unfold mark_failed; by rewrite Hs).
    pose proof (backoff_bounds (o_attempts m + 1)) as Hb. unfold baseBackoff, GoTime.Second in Hb. unfold after_attempt.
    destruct (assemble _ _ _ _ _); [destruct (deliver _ _ _).2|]; rewrite ?Hf; try lia. unfold mark_sent. rewrite Hs. done.
  - intros Hs. unfold due in Hno. destruct (decide (o_next m <= at_now a)); [tauto|]. lia.
Qed.

(** *** What the status page is told *)

Lemma status_scan l :
  let '(last, failing, pending, suppressed) := foldl add_status (None, None, 0, 0) l in
  pending = zlen (filter (fun m => o_sent m = None) l) /\ suppressed = sum_by o_suppressed l /\
  match failing with
  | Some f => f ∈ l /\ o_sent f = None /\ o_attempts f ≠ 0 /\
      forall m, m ∈ l -> o_sent m = None -> o_attempts m ≠ 0 -> o_created f <= o_created m
  | None => forall m, m ∈ l -> o_sent m = None -> o_attempts m = 0
  end /\
  match last with
  | Some t => (exists m, m ∈ l /\ o_sent m = Some t) /\ forall m s, m ∈ l -> o_sent m = Some s -> s <= t
  | None => forall m, m ∈ l -> o_sent m = None
  end.
Proof.
  induction l as [|m l IH] using rev_ind.
  { cbn. split_and!; [done|done|by intros m ?%elem_of_nil..]. }
  rewrite foldl_snoc. destruct (foldl _ _ l) as [[[last failing] pending] suppressed]. destruct IH as (-> & -> & Hf & Hl).
  assert (forall x, x ∈ l ++ [m] <-> x ∈ l \/ x = m) as Hin by (intros x; by rewrite elem_of_app, list_elem_of_singleton).
  cbn [add_status]. rewrite filter_app, zlen_app, sum_by_app, filter_cons, filter_nil.
  assert (sum_by o_suppressed [m] = o_suppressed m) as -> by (cbn; lia). destruct (o_sent m) as [t|] eqn:Hs.
  - rewrite decide_False by done. split; [rewrite zlen_nil; lia|]. split; [done|]. split.
    + destruct failing as [f|].
      * destruct Hf as (Hfl & H1 & H2 & H3). split_and!; [by apply Hin; left|done|done|]. intros x [Hx| ->]%Hin; [by apply H3|congruence].
      * intros x [Hx| ->]%Hin; [by apply Hf|congruence].
    + destruct last as [u|].
      * destruct Hl as [(x & Hx & Hxs) Hmax]. destruct (Z.ltb_spec u t).
        -- split; [exists m; by split; [apply Hin; right|]|]. intros y s [Hy| ->]%Hin Hys; [specialize (Hmax y s Hy Hys); lia|]. rewrite Hs in Hys. injection Hys as <-. lia.
        -- split; [exists x; by split; [apply Hin; left|]|]. intros y s [Hy| ->]%Hin Hys; [by apply (Hmax y)|]. rewrite Hs in Hys. injection Hys as <-. lia.
      * split; [exists m; by split; [apply Hin; right|]|]. intros y s [Hy| ->]%Hin Hys; [rewrite (Hl y Hy) in Hys; done|]. rewrite Hs in Hys. injection Hys as <-. lia.
  - rewrite decide_True by done.
    assert (match last with
      | Some t => (exists m0, m0 ∈ l ++ [m] /\ o_sent m0 = Some t) /\ forall m0 s, m0 ∈ l ++ [m] -> o_sent m0 = Some s -> s <= t
      | None => forall m0, m0 ∈ l ++ [m] -> o_sent m0 = None end) as Hl'.
    { destruct last as [u|].
      - destruct Hl as [(x & Hx & Hxs) Hmax]. split; [exists x; by split; [apply Hin; left|]|]. intros y s [Hy| ->]%Hin Hys; [by apply (Hmax y)|congruence].
      - intros y [Hy| ->]%Hin; [by apply Hl|done]. }
    destruct (Z.eqb_spec (o_attempts m) 0) as [Ha|Ha].
    + split; [by rewrite zlen_cons, zlen_nil|]. split; [done|]. split; [|done]. destruct failing as [f|].
      * destruct Hf as (Hfl & H1 & H2 & H3). split_and!; [by apply Hin; left|done|done|]. intros x [Hx| ->]%Hin; [by apply H3|done].
      * intros x [Hx| ->]%Hin; [by apply Hf|done].
    + split; [by rewrite zlen_cons, zlen_nil|]. split; [done|]. split; [|done]. destruct failing as [f|].
      * destruct Hf as (Hfl & H1 & H2 & H3). destruct (Z.ltb_spec (o_created m) (o_created f)).
        -- split_and!; [by apply Hin; right|done|done|]. intros x [Hx| ->]%Hin Hxs Hxa; [specialize (H3 x Hx Hxs Hxa)|]; lia.
        -- split_and!; [by apply Hin; left|done|done|]. intros x [Hx| ->]%Hin Hxs Hxa; [by apply H3|lia].
      * split_and!; [by apply Hin; right|done|done|]. intros x [Hx| ->]%Hin Hxs Hxa; [by destruct (Hxa (Hf x Hx Hxs))|lia].
Qed.

(** How many are owed, and the oldest that has failed, with its error. *)
Record status_of (l : list MailMessage) (s : MailStatus) : Prop := {
  st_pending : Pending s = zlen (filter (fun m => o_sent m = None) l);
  st_suppressed : Suppressed s = sum_by o_suppressed l;
  st_fine : FailingSince s = None <-> forall m, m ∈ l -> o_sent m = None -> o_attempts m = 0;
  st_failing since : FailingSince s = Some since ->
    exists m, m ∈ l /\ o_sent m = None /\ o_attempts m ≠ 0 /\ o_created m = since /\ LastError s = o_error m /\
      forall x, x ∈ l -> o_sent x = None -> o_attempts x ≠ 0 -> since <= o_created x;
  st_sent : match LastSentAt s with
    | Some t => (exists m, m ∈ l /\ o_sent m = Some t) /\ forall m u, m ∈ l -> o_sent m = Some u -> u <= t
    | None => forall m, m ∈ l -> o_sent m = None
    end;
}.

Lemma GetMailStatus_exec d : exists s, exec GetMailStatus d = (d, Ok s) /\ status_of (mails d) s.
Proof.
  unfold GetMailStatus. cbn [stmt exec query]. pose proof (status_scan (mails d)) as Hs.
  destruct (foldl add_status (None, None, 0, 0) (mails d)) as [[[last failing] pending] suppressed].
  destruct Hs as (-> & -> & Hf & Hl). eexists. split; [reflexivity|]. split; cbn [Pending Suppressed FailingSince LastError LastSentAt]; [done|done| | |done].
  - destruct failing as [f|]; cbn; [|done]. destruct Hf as (Hf1 & Hf2 & Hf3 & _). split; [done|]. intros Hall. by destruct (Hf3 (Hall f Hf1 Hf2)).
  - intros since. destruct failing as [f|]; cbn; [|done]. destruct Hf as (Hf1 & Hf2 & Hf3 & Hf4). intros [= <-]. exists f. split_and!; done.
Qed.
End sending.

(** ** Guarantees *)

Section guarantees.
Context {TS : TokenSort} {EN : Engine} {UN : Unicode} {TT : TimeText} {MD : MailDate} (cfg : Config) (birdcageVersion : bytes).
Context (Name Lane : canary_row -> bytes).

Lemma empty_inv clocks d : mails d = [] -> mail_inv cfg clocks d.
Proof.
  intros Hd. split; rewrite Hd; try done; [constructor|by intros m ?%elem_of_nil..].
Qed.

(** The times of the senders' ticks. *)
Definition ticked (loops : list loop) (t : Z) : Prop :=
  exists start ticks a, HistoryLoop start ticks ∈ loops /\ a ∈ ticks /\ t = at_now a.

(** C13. However the loops of the server interleave and whatever fails: no more
    than twenty conflict mails are created in any hour, and two about one node
    are an hour apart; a mail marked sent is one the submission server has taken,
    an error that is kept has been scrubbed, and a mail that has failed is next
    due, after a tick of a sender, the wait of one of its attempts: a minute,
    doubled with each failure after the first, an hour at most; and no mail is
    ever deleted, rewritten or unsent. With one sender, as the server has, the
    wait is that of the failure it counts: a tick that may fail, lose an answer
    or stop anywhere, the others writing between its statements but counting no
    attempt ([calm]), counts at most one failure more of a mail, and with it the
    mail waits twice as long as after the failure before. *)
Theorem mails_are_limited loops h0 c :
  mails (outbox h0) = [] -> runs (start h0 (serve cfg birdcageVersion Name Lane <$> loops)) c ->
  let d := outbox (cdb c) in
  (forall t, Z.of_nat (conflicts_within t (mails d)) <= fleetHourlyCap) /\
  spaced (mails d) /\
  (forall m, m ∈ mails d -> mail_ok cfg (ticked loops) (accepted d) m) /\
  (forall n i a b, ctrace c !! n = Some (i, (a, b)) -> mail_le (outbox a) (outbox b) /\ mail_le (outbox b) d) /\
  (forall a d1 d2 r, NoDup (o_id <$> mails d1) -> alone calm (SenderTick cfg a) d1 d2 r ->
     forall m, m ∈ mails d1 -> exists m', m' ∈ mails d2 /\ o_id m' = o_id m /\ waited (at_now a) m m').
Proof.
  intros Hd Hr d.
  destruct (runs_valid (hinv cfg (ticked loops)) (hR mail_le) (fun _ _ _ => True) h0 (serve cfg birdcageVersion Name Lane <$> loops) c Hr (empty_inv _ _ Hd))
    as ([I1 I2 I3 I4 I5] & Hch & _ & _).
  { intros i p Hi. rewrite list_lookup_fmap in Hi. apply fmap_Some in Hi as ([start ticks|nows] & Hi & ->).
    - apply HistoryLoop_kept; first [apply _|done|by intros a b [? _]|idtac].
      intros a Ha. exists start, ticks, a. split; [|done]. by eapply list_elem_of_lookup_2.
    - apply DriftLoop_kept; first [apply _|done|by intros a b [? _]]. }
  split; [intros t; by apply capped_bound|]. split; [done|]. split; [done|].
  split; [|intros a d1 d2 r Hnd Ha; by eapply SenderTick_alone]. intros n i a b Hn.
  split; [exact (chain_step _ (hR mail_le) _ _ _ _ _ _ _ Hch Hn)|exact (chain_after _ (hR mail_le) _ _ _ _ _ _ _ Hch Hn)].
Qed.


(** C15. A tick of the sender that nothing interrupts, on rows with an id each,
    tries every mail that is due, once, and no other: it is marked sent when the
    server answered without an error, and otherwise has one attempt more and
    waits a minute doubled with each failure before, an hour at most; so none
    stays due, none waits more than an hour longer, and the status page is told
    what is owed and since when it fails. *)
Theorem owed_mail_is_tried a d :
  NoDup (o_id <$> mails d) -> 0 < at_now a ->
  exists d' s, exec (SenderTick cfg a) d = (d', Ok tt) /\ mails d' = attempted cfg a <$> mails d /\
    (forall m, m ∈ mails d -> let m' := attempted cfg a m in mail_le1 m m' /\
       (due (at_now a) m -> tried cfg a m m') /\ (~ due (at_now a) m -> m' = m) /\
       (o_sent m' = None -> at_now a < o_next m' <= Z.max (o_next m) (at_now a + maxBackoff))) /\
    exec GetMailStatus d' = (d', Ok s) /\ status_of (mails d') s.
Proof.
  intros HI Hnow. destruct (SenderTick_exec cfg a d HI Hnow) as (d' & He & Hm).
  destruct (GetMailStatus_exec d') as (s & Hs & Hst). exists d', s. split; [done|]. split; [done|]. split; [|done].
  intros m _ m'. split_and!; [| | |apply attempted_owed]; unfold m', attempted; destruct (decide _) as [Hdue|]; try done.
  - apply after_attempt_le.
  - intros [Hsent _]. by apply after_attempt_tried.
Qed.
End guarantees.

(** ** An execution *)

#[local] Existing Instance ex_sort.
#[local] Existing Instance ex_julian.
#[local] Existing Instance ex_time.
#[local] Existing Instance ex_dates.

(** Both nodes presented a revoked token. *)
Definition ex_conflicts : health_db :=
  mkHealthDB (rows ex_health) []
    (mkCred (tokens (creds ex_health)) [] [] (sessions (creds ex_health)) []
       [mkAudit (lit "ingest.token_conflict") (lit "c1") [] [] 900; mkAudit (lit "ingest.token_conflict") (lit "c2") [] [] 950])
    (selftests ex_health) (scans ex_health) (upgrades ex_health).

Definition ex_server : hist_db mail_db := mkHist ex_conflicts [] 1 ∅ (mkMailDB [] 1 []).

Definition ex_names (row : canary_row) : bytes := lit "web " ++ h_id row.

(** A submission server that takes everything, and one that cannot be reached. *)
Definition ex_attempt (answer : command -> option bytes) (now : Z) : attempt :=
  mkAttempt now (fun _ => mkServer answer true) (fun id => newMessageID (From ex_config) (inr id)).

Definition ex_loops : list loop := [HistoryLoop 1000 [ex_attempt (fun _ => None) 2000]].

Definition ex_run : conf (hist_db mail_db) unit :=
  schedule (repeat 0%nat 60) (start ex_server (serve (UN := ascii_only) ex_config ex_version ex_names ex_names <$> ex_loops)).

Lemma ex_outbox_runs : runs (start ex_server (serve (UN := ascii_only) ex_config ex_version ex_names ex_names <$> ex_loops)) ex_run.
Proof. apply schedule_runs. Qed.

(** Two conflicts found at the start, and mailed. *)
Lemma mails_are_limited_witness :
  (o_sent <$> mails (outbox (cdb ex_run))) = [Some 2000; Some 2000] /\ zlen (accepted (outbox (cdb ex_run))) = 2 /\
  Z.of_nat (conflicts_within 0 (mails (outbox (cdb ex_run)))) <= fleetHourlyCap.
Proof.
  split; [vm_compute; reflexivity|]. split; [vm_compute; reflexivity|].
  destruct (mails_are_limited (UN := ascii_only) ex_config ex_version ex_names ex_names ex_loops ex_server ex_run eq_refl ex_outbox_runs) as (Hcap & _).
  exact (Hcap 0).
Defined.

Lemma ex_new_conflicts : zlen (filter (new_conflict ex_version ex_server 1000) (rows (health ex_server))) = 2.
Proof. vm_compute. reflexivity. Qed.

Lemma ex_nodes : NoDup (h_id <$> rows (health ex_server)).
Proof. apply (bool_decide_unpack _). vm_compute. exact I. Qed.


Definition ex_owed : mail_db := (exec (EnqueueTokenConflict (UN := ascii_only) (lit "c1") (lit "web") 1000) (mkMailDB [] 1 [])).1.

Lemma ex_owed_inv : mail_inv ex_config any_time ex_owed.
Proof.
  destruct (hook_exec (UN := ascii_only) (lit "c1") (lit "web") 1000 (mkMailDB [] 1 [])) as (d' & r & He & Ha & Hr).
  unfold ex_owed. rewrite He. specialize (Hr ltac:(lia)). subst r.
  apply (alerted_kept (UN := ascii_only) ex_config any_time (lit "c1") (lit "web") 1000 (mkMailDB [] 1 []) d'); [exact (empty_inv ex_config any_time (mkMailDB [] 1 []) eq_refl)|].
  exact (Ha eq_refl).
Qed.

Definition ex_down (c : command) : option bytes := match c with DialTCP => Some (lit "no route to host") | _ => None end.

(** It waits a minute, and the status page says why. *)
Lemma owed_mail_is_tried_witness :
  exists d' s, exec (SenderTick ex_config (ex_attempt ex_down 2000)) ex_owed = (d', Ok tt) /\
    (o_next <$> mails d') = [2000 + baseBackoff] /\ exec GetMailStatus d' = (d', Ok s) /\
    FailingSince s = Some 1000 /\
    LastError s = Some (lit "could not send the token_conflict alert: connect to smtp.example.net:587: no route to host").
Proof.
  destruct (owed_mail_is_tried ex_config (ex_attempt ex_down 2000) ex_owed (mi_ids _ _ _ ex_owed_inv)) as (d' & s & He & Hm & _ & Hs & _); [vm_compute; reflexivity|].
  exists d', s. split; [exact He|].
  assert (d' = (exec (SenderTick ex_config (ex_attempt ex_down 2000)) ex_owed).1) as Hd by (rewrite He; reflexivity).
  assert (s = match (exec GetMailStatus d').2 with Ok s => s | Err _ => s end) as Hss by (rewrite Hs; reflexivity).
  split; [rewrite Hm; vm_compute; reflexivity|]. split; [exact Hs|]. rewrite Hss, Hd. split; vm_compute; reflexivity.
Defined.
