(* ===== verification/NeverBlock.v ===== *)
(** The never-block floor ([internal/neverblock]): what no automated mitigation
    may touch, the check in front of each and the operator's additions.

    The words of a refusal are an operation of the class [RefusalText]; the audit
    log is that of [AuditLog], a table whose statement may fail. *)
From S2P Require Import Prelude GoBase GoStrings GoNet Sql SelfTest AuditLog.
#[local] Open Scope Z_scope.

Inductive Category : Type :=
| CategoryLoopback
| CategoryLinkLocal
| CategoryMulticast
| CategoryPrivateRFC1918
| CategoryUniqueLocal
| CategoryUnspecified
| CategorySharedAddress
| CategoryRouter
| CategoryBirdcageHost
| CategoryMikroviewHost
| CategoryOIDCProvider
| CategoryAdminSession
| CategoryOperatorAllow.

(** An entry of the floor; the zero [Prefix] is [None]. *)
Record entry : Type := mkEntry {
  e_prefix : option Prefix;
  e_category : Category;
  e_why : bytes;
}.

(** [netip.MustParsePrefix] of a constant. *)
Definition static (prefix : string) (cat : Category) (why : string) : entry := mkEntry (ParsePrefix (lit prefix)) cat (lit why).

Definition staticFloor : list entry :=
  [static "127.0.0.0/8" CategoryLoopback "IPv4 loopback";
   static "::1/128" CategoryLoopback "IPv6 loopback";
   static "169.254.0.0/16" CategoryLinkLocal "IPv4 link-local";
   static "fe80::/10" CategoryLinkLocal "IPv6 link-local";
   static "224.0.0.0/4" CategoryMulticast "IPv4 multicast";
   static "ff00::/8" CategoryMulticast "IPv6 multicast";
   static "10.0.0.0/8" CategoryPrivateRFC1918 "RFC1918 private range";
   static "172.16.0.0/12" CategoryPrivateRFC1918 "RFC1918 private range";
   static "192.168.0.0/16" CategoryPrivateRFC1918 "RFC1918 private range";
   static "fc00::/7" CategoryUniqueLocal "IPv6 unique local (private) range";
   mkEntry (ParsePrefix (lit "0.0.0.0/8")) CategoryUnspecified (lit "IPv4 " ++ [34] ++ lit "this network" ++ [34] ++ lit " / unspecified");
   static "::/128" CategoryUnspecified "IPv6 unspecified address";
   static "100.64.0.0/10" CategorySharedAddress "shared address space (RFC 6598: carrier-grade NAT, Tailscale)"].

(** The addresses a caller supplies; the zero [Addr] is [None]. *)
Record Inputs : Type := mkInputs {
  RouterAddresses : list (option Addr);
  BirdcageHost : list (option Addr);
  MikroviewHost : list (option Addr);
  OIDCProvider : list (option Addr);
  AdminSession : option Addr;
}.

Definition hostPrefix (a : Addr) : option Prefix :=
  let a := Unmap a in PrefixFrom a (BitLen a).

Definition addCategory (addrs : list (option Addr)) (cat : Category) (why : string) : list entry :=
  (fun a => mkEntry (a ≫= hostPrefix) cat (lit why)) <$> addrs.

Definition Floor : Type := list Prefix.

Definition entries (allow : Floor) (i : Inputs) : list entry :=
  staticFloor ++
  ((fun p => mkEntry (Some p) CategoryOperatorAllow (lit "operator allowlist entry")) <$> allow) ++
  addCategory (RouterAddresses i) CategoryRouter "the router's own address" ++
  addCategory (BirdcageHost i) CategoryBirdcageHost "birdcage's own host address" ++
  addCategory (MikroviewHost i) CategoryMikroviewHost "the Mikroview host's address" ++
  addCategory (OIDCProvider i) CategoryOIDCProvider "the OIDC provider's address" ++
  match AdminSession i with
  | Some a => [mkEntry (hostPrefix a) CategoryAdminSession (lit "the current admin session's address")]
  | None => []
  end.

Definition normalizePrefix (p : Prefix) : option Prefix :=
  let m := Masked p in
  if Is4In6 (p_addr m) then PrefixFrom (Unmap (p_addr m)) (p_bits m - 96) else Some m.

Inductive refusal : Type :=
| Unparseable
| OnFloor (e : entry).

Class RefusalText {UN : Unicode} : Type := {
  reason : bytes -> refusal -> bytes;
  reason_said target r : blank (reason target r) = false;
}.

Definition AuditAction : bytes := lit "refused: never-block floor".

Section floor.
Context {UN : Unicode}.

Definition parseTarget (raw : bytes) : option Prefix :=
  let raw := @TrimSpace UN raw in
  if bool_decide (raw = []) then None else
  if ContainsStr raw [47] then ParsePrefix raw ≫= normalizePrefix
  else ParseAddr raw ≫= hostPrefix.

Definition EnvAllow : bytes := lit "BIRDCAGE_NEVER_BLOCK_ALLOW".

(** The loop over the parts of the variable; [None] is the error that names a
    part. *)
Fixpoint load_parts (parts : list bytes) : option Floor :=
  match parts with
  | [] => Some []
  | part :: parts =>
      let part := @TrimSpace UN part in
      if bool_decide (part = []) then load_parts parts else
      match parseTarget part with
      | None => None
      | Some p => match load_parts parts with Some allow => Some (p :: allow) | None => None end
      end
  end.

Definition Load (getenv : bytes -> bytes) : option Floor :=
  let raw := @TrimSpace UN (getenv EnvAllow) in
  if bool_decide (raw = []) then Some [] else load_parts (Split raw 44).

Definition overlaps (p : Prefix) (e : entry) : bool :=
  match e_prefix e with Some o => Overlaps p o | None => false end.

Context {RT : RefusalText}.

(** The refusal, and whether the audit row was written. *)
Definition refuse (target triggeredBy : bytes) (now : Z) (r : refusal) : prog (list Entry) (option (refusal * bool)) :=
  pbind (Append (mkAudit AuditAction target (reason target r) triggeredBy now)) (fun written => Ret (Some (r, written))).

(** [Check]: nil, or the error. *)
Definition Check (allow : Floor) (target : bytes) (i : Inputs) (triggeredBy : bytes) (now : Z) :
    prog (list Entry) (option (refusal * bool)) :=
  match parseTarget target with
  | None => refuse target triggeredBy now Unparseable
  | Some tp =>
      match find (overlaps tp) (entries allow i) with
      | Some e => refuse target triggeredBy now (OnFloor e)
      | None => Ret None
      end
  end.
End floor.

(** ** What the floor is *)

Definition entry_valid (e : entry) : Prop := forall p, e_prefix e = Some p -> prefix_ok p.

Lemma staticFloor_valid : Forall entry_valid staticFloor.
Proof.
  assert (forall s cat why, entry_valid (mkEntry (ParsePrefix s) cat why)) as Hs by (intros s cat why p; apply ParsePrefix_ok).
  unfold staticFloor. repeat (apply Forall_cons; split; [apply Hs|]). by apply Forall_nil.
Qed.

(** A host's prefix has its address alone. *)
Lemma within_host a b : within b (mkPrefix (withValue a (value a)) (BitLen a)) <-> Is4 b = Is4 a /\ value b = value a.
Proof.
  unfold within; cbn [p_addr p_bits]. rewrite withValue_Is4, withValue_value.
  assert (forall w u, network w u w = u) as Hfull by (intros w u; unfold network; by rewrite Z.sub_diag, Z.shiftr_0_r, Z.shiftl_0_r).
  assert (Is4 b = Is4 a -> BitLen a = BitLen b) as Hl by (unfold BitLen; by intros ->).
  split; intros [H4 Hv]; (split; [done|]); rewrite Hl, ?Hfull in * by done; done.
Qed.

Lemma hostPrefix_eq a : hostPrefix a = Some (mkPrefix (withValue (Unmap a) (value (Unmap a))) (BitLen (Unmap a))).
Proof. unfold hostPrefix, PrefixFrom, BitLen. by destruct (Is4 (Unmap a)). Qed.

Lemma hostPrefix_ok a p : addr_ok a -> hostPrefix a = Some p -> prefix_ok p.
Proof. intros Ha%Unmap_ok. by apply PrefixFrom_ok. Qed.

Lemma normalizePrefix_ok p q : prefix_ok p -> normalizePrefix p = Some q -> prefix_ok q.
Proof.
  intros Hp. unfold normalizePrefix. destruct (Is4In6 _); [|intros [= <-]; by apply Masked_ok].
  apply PrefixFrom_ok, Unmap_ok, Masked_ok, Hp.
Qed.

(** The masked prefix is mapped when its bits keep the mark of a mapped address. *)
Lemma normalizePrefix_eq p : prefix_ok p ->
  normalizePrefix p = Some (Masked p) /\ (forall a, within a p -> 96 <= p_bits p -> Is4In6 a = false) \/
  exists n, p_addr (Masked p) = V6 n [] /\ mapped n = true /\ 96 <= p_bits p <= 128 /\
    normalizePrefix p = Some (mkPrefix (V4 (n mod 2 ^ 32)) (p_bits p - 96)).
Proof.
  intros Hp. pose proof (Masked_ok p Hp) as [_ Hb]. unfold normalizePrefix. destruct (p_addr (Masked p)) as [n|n z] eqn:Hm; cbn [Is4In6].
  { left. split; [done|]. intros a [H4 _]%(within_Masked a p Hp) _. rewrite Hm in H4. by destruct a. }
  assert (z = []) as ->.
  { unfold Masked, with_bits in Hm; cbn [p_addr] in Hm. destruct (p_addr p); cbn [withValue] in Hm; congruence. }
  change (p_bits (Masked p)) with (p_bits p) in *. cbn [BitLen Is4] in Hb.
  destruct (mapped n) eqn:Hn.
  - assert (96 <= p_bits p) as H96.
    { destruct (Z.le_gt_cases 96 (p_bits p)) as [|Hlt]; [done|]. exfalso. apply mapped_spec in Hn.
      unfold Masked, with_bits in Hm; cbn [p_addr] in Hm. destruct (p_addr p) as [v|v z]; cbn [withValue BitLen Is4 value] in Hm; [done|]. injection Hm as Hm.
      rewrite network_div in Hm by lia. replace (2 ^ (128 - p_bits p)) with (2 ^ (95 - p_bits p) * 2 * 2 ^ 32) in Hm
        by (rewrite <- Z.mul_assoc; change (2 * 2 ^ 32) with (2 ^ 33); rewrite <- Z.pow_add_r by lia; f_equal; lia).
      rewrite <- Hm, !Z.mul_assoc, Z.div_mul in Hn by lia. lia. }
    right. exists n. split_and!; [done|done|done|lia|]. cbn [Unmap]. rewrite Hn. unfold PrefixFrom; cbn [BitLen Is4 withValue value].
    destruct (Z.leb_spec 0 (p_bits p - 96)), (Z.leb_spec (p_bits p - 96) 32); try lia. done.
  - left. split; [done|]. intros a Ha H96. apply (within_Masked a p Hp) in Ha. destruct a as [v|v z]; [done|]. cbn [Is4In6].
    rewrite (within_mapped v z (Masked p) Ha ltac:(cbn; lia)), Hm. done.
Qed.

Section targets.
Context {UN : Unicode}.

(** The addresses a target names, as it is written. *)
Definition targeted (raw : bytes) (a : Addr) : Prop :=
  let raw := @TrimSpace UN raw in
  if ContainsStr raw [47] then exists p, ParsePrefix raw = Some p /\ within a p
  else exists b, ParseAddr raw = Some b /\ Is4 a = Is4 b /\ value a = value b.

(** A range of IPv6 addresses that is larger than the mapped ones. *)
Definition coarse (raw : bytes) : Prop :=
  let raw := @TrimSpace UN raw in
  ContainsStr raw [47] = true /\ exists p, ParsePrefix raw = Some p /\ p_bits p < 96.

Lemma parseTarget_ok raw p : parseTarget raw = Some p -> prefix_ok p.
Proof.
  unfold parseTarget. destruct (bool_decide _); [done|]. destruct (ContainsStr _ _).
  - destruct (ParsePrefix _) as [q|] eqn:Hq; cbn; [|done]. apply normalizePrefix_ok. by eapply ParsePrefix_ok.
  - destruct (ParseAddr _) as [a|] eqn:Ha; cbn; [|done]. apply hostPrefix_ok. by eapply ParseAddr_ok.
Qed.

Lemma Unmap_same a b : Is4 a = Is4 b -> value a = value b -> Is4 (Unmap a) = Is4 (Unmap b) /\ value (Unmap a) = value (Unmap b).
Proof. destruct a as [v|v z], b as [u|u y]; cbn [Is4 value Unmap]; intros H4 ->; try done. by destruct (mapped u). Qed.

Lemma parseTarget_covers raw p a :
  parseTarget raw = Some p -> targeted raw a -> (Is4In6 a = true -> ~ coarse raw) -> within (Unmap a) p.
Proof.
  unfold parseTarget, targeted, coarse. cbv zeta. destruct (bool_decide _); [done|]. destruct (ContainsStr _ _).
  - intros Hp (q & Hq & Ha) Hc. rewrite Hq in Hp. cbn in Hp. pose proof (ParsePrefix_ok _ _ Hq) as Hok.
    assert (Is4In6 a = true -> 96 <= p_bits q) as H96.
    { intros H6. destruct (Z.le_gt_cases 96 (p_bits q)); [done|]. destruct (Hc H6). split; [done|]. by exists q. }
    destruct (normalizePrefix_eq q Hok) as [[Hn H4]|(n & Hm & Hmap & Hb & Hn)]; rewrite Hn in Hp; injection Hp as <-.
    + assert (Unmap a = a) as ->; [|by apply within_Masked].
      destruct a as [v|v z]; [done|]. cbn [Unmap]. destruct (mapped v) eqn:Hv; [|done].
      specialize (H96 Hv). specialize (H4 _ Ha H96). cbn in H4. congruence.
    + apply (within_Masked a q Hok) in Ha. destruct (Masked q) as [ma mb] eqn:Hmq. cbn [p_addr] in Hm. subst ma.
      assert (mb = p_bits q) as -> by (change mb with (p_bits (mkPrefix (V6 n []) mb)); by rewrite <- Hmq).
      destruct a as [v|v z]; [by destruct Ha|]. pose proof (within_mapped v z _ Ha Hb) as Hv. cbn [p_addr value] in Hv. rewrite Hmap in Hv.
      cbn [Unmap]. rewrite Hv. by apply (within_Unmap v z n (p_bits q)).
  - intros Hp (b & Hb & H4 & Hv) _. rewrite Hb in Hp. cbn in Hp. rewrite hostPrefix_eq in Hp. injection Hp as <-. by apply within_host, Unmap_same.
Qed.

Lemma parseTarget_tight raw p b :
  parseTarget raw = Some p -> addr_ok b -> within b p -> exists a, targeted raw a /\ (b = a \/ b = Unmap a).
Proof.
  unfold parseTarget, targeted. cbv zeta. destruct (bool_decide _); [done|]. destruct (ContainsStr _ _).
  - destruct (ParsePrefix _) as [q|] eqn:Hq; cbn; [|done]. intros Hp Hb Hw. pose proof (ParsePrefix_ok _ _ Hq) as Hok.
    destruct (normalizePrefix_eq q Hok) as [[Hn H4]|(n & Hm & Hmap & Hbits & Hn)]; rewrite Hn in Hp; injection Hp as <-.
    + exists b. split; [|by left]. exists q. split; [done|]. by apply within_Masked.
    + destruct b as [v|v z]; [|by destruct Hw]. pose proof Hb as Hv. change (0 <= v < 2 ^ 32) in Hv.
      assert (mapped (65535 * 2 ^ 32 + v) = true) as Hmv by (apply mapped_spec; rewrite Z.div_add_l, Z.div_small by lia; lia).
      assert ((65535 * 2 ^ 32 + v) mod 2 ^ 32 = v) as Hmod by (rewrite Z.add_comm, Z.mod_add, Z.mod_small by lia; done).
      exists (V6 (65535 * 2 ^ 32 + v) []). split; [|right; cbn [Unmap]; by rewrite Hmv, Hmod]. exists q. split; [done|].
      apply within_Masked; [done|]. destruct (Masked q) as [ma mb] eqn:Hmq. cbn [p_addr] in Hm. subst ma.
      assert (mb = p_bits q) as -> by (change mb with (p_bits (mkPrefix (V6 n []) mb)); by rewrite <- Hmq).
      apply within_Unmap; [done|done|done|]. by rewrite Hmod.
  - destruct (ParseAddr _) as [a|] eqn:Ha; cbn; [|done]. rewrite hostPrefix_eq. intros [= <-] Hb [H4 Hv]%within_host.
    destruct (Is4In6 a) eqn:H6.
    + exists a. split; [by exists a|]. right. destruct a as [u|u z]; [done|]. cbn [Is4In6] in H6. cbn [Unmap] in *. rewrite H6 in *.
      destruct b as [v|v y]; [|done]. cbn [value] in Hv. by subst v.
    + exists b. split; [|by left]. exists a. split; [done|]. destruct a as [u|u z]; [done|]. cbn [Is4In6] in H6. cbn [Unmap] in *. by rewrite H6 in *.
Qed.

(** A whole configuration or none. *)
Lemma load_parts_ok parts : forall allow, load_parts parts = Some allow ->
  Forall prefix_ok allow /\ forall part, part ∈ parts -> @TrimSpace UN part ≠ [] ->
    exists p, parseTarget (@TrimSpace UN part) = Some p /\ p ∈ allow.
Proof.
  induction parts as [|part parts IH]; intros allow; cbn [load_parts].
  { intros [= <-]. split; [by constructor|]. by intros part ?%elem_of_nil. }
  case_bool_decide as He.
  { intros Hl. destruct (IH allow Hl) as [Hok Hin]. split; [done|]. intros x [-> |Hx]%elem_of_cons Hne; [done|by apply Hin]. }
  destruct (parseTarget _) as [p|] eqn:Hp; [|done]. destruct (load_parts parts) as [rest|]; [|done]. intros [= <-]. destruct (IH rest eq_refl) as [Hok Hin].
  split; [constructor; [by eapply parseTarget_ok|done]|]. intros x [-> |Hx]%elem_of_cons Hne; [exists p; split; [done|by left]|].
  destruct (Hin x Hx Hne) as (q & Hq & Hqin). exists q. split; [done|by right].
Qed.

(** ** The guarantee *)

Definition inputs_ok (i : Inputs) : Prop :=
  forall a, Some a ∈ RouterAddresses i \/ Some a ∈ BirdcageHost i \/ Some a ∈ MikroviewHost i \/ Some a ∈ OIDCProvider i \/
    AdminSession i = Some a -> addr_ok a.

Lemma addCategory_valid addrs cat why : (forall a, Some a ∈ addrs -> addr_ok a) -> Forall entry_valid (addCategory addrs cat why).
Proof.
  intros Ha. apply Forall_forall. intros e (o & -> & Ho)%list_elem_of_fmap p. destruct o as [a|]; cbn; [|done]. apply hostPrefix_ok. by apply Ha.
Qed.

Lemma entries_valid allow i : Forall prefix_ok allow -> inputs_ok i -> Forall entry_valid (entries allow i).
Proof.
  intros Hallow Hi. unfold entries, inputs_ok in *.
  rewrite !Forall_app. split_and!; [apply staticFloor_valid| |apply addCategory_valid..|]; try (intros a Ha; apply Hi; naive_solver).
  - apply Forall_forall. intros e (p & -> & Hp)%list_elem_of_fmap q [= <-]. rewrite Forall_forall in Hallow. by apply Hallow.
  - destruct (AdminSession i) as [a|] eqn:Ha; constructor; [|constructor]. intros p. apply hostPrefix_ok, Hi. by do 4 right.
Qed.

(** The addresses of the floor. *)
Definition on_floor (allow : Floor) (i : Inputs) (a : Addr) : Prop :=
  exists e p, e ∈ entries allow i /\ e_prefix e = Some p /\ within (Unmap a) p.

Lemma overlaps_entry tp e : prefix_ok tp -> entry_valid e -> overlaps tp e = true <->
  exists p b, e_prefix e = Some p /\ addr_ok b /\ within b tp /\ within b p.
Proof.
  intros Htp He. unfold overlaps. destruct (e_prefix e) as [o|] eqn:Ho; [|naive_solver].
  rewrite Overlaps_spec by (try done; by apply He). naive_solver.
Qed.

Lemma on_floor_overlaps allow i tp a : Forall entry_valid (entries allow i) -> prefix_ok tp -> addr_ok a ->
  on_floor allow i a -> within (Unmap a) tp -> exists e, find (overlaps tp) (entries allow i) = Some e.
Proof.
  intros Hv Htp Ha (e & p & He & Hp & Hw) Ht. rewrite Forall_forall in Hv. destruct (find _ _) as [e'|] eqn:Hf; [by exists e'|].
  apply list_elem_of_In in He as He'. pose proof (find_none _ _ Hf e He') as Hno.
  assert (overlaps tp e = true); [|congruence]. apply overlaps_entry; [done|by apply Hv|]. exists p, (Unmap a). split_and!; [done| |done|done]. by apply Unmap_ok.
Qed.

Context {RT : RefusalText}.

(** What an answer says, and what became of the audit log. *)
Definition recorded (target triggeredBy : bytes) (now : Z) (log log' : list Entry) (answer : option (refusal * bool)) : Prop :=
  match answer with
  | None => log' = log
  | Some (r, written) =>
      let e := mkAudit AuditAction target (reason target r) triggeredBy now in
      (log' = log ++ [in_seconds e] \/ log' = log /\ written = false) /\ (written = true -> entry_ok e = true)
  end.

(** What [Check] decides before it writes anything. *)
Definition decision (allow : Floor) (target : bytes) (i : Inputs) : option refusal :=
  match parseTarget target with
  | None => Some Unparseable
  | Some tp => OnFloor <$> find (overlaps tp) (entries allow i)
  end.

Lemma refuse_alone target by_ now r log log' answer :
  alone eq (refuse target by_ now r) log log' (Some answer) -> fst <$> answer = Some r /\ recorded target by_ now log log' answer.
Proof.
  unfold refuse, Append. destruct (entry_ok _) eqn:Hok; cbn [negb pbind alone].
  - intros (l0 & <- & Hc). unfold recorded. destruct Hc as [[_ ?]|[[<- [Ha|Ha]]|(l1 & x & Hi & Hc)]]; [done| |done|].
    + injection Ha as ->. split; [done|]. cbn. split; [by right|done].
    + injection Hi as <- <-. destruct Hc as [[<- [Ha|Ha]]|[<- [Ha|Ha]]]; [| done| |done]; injection Ha as ->; (split; [done|]); split; try done; by left.
  - intros [<- [Ha|Ha]]; [|done]. injection Ha as ->. split; [done|]. split; [by right|done].
Qed.

Lemma Check_alone allow target i by_ now log log' answer :
  alone eq (Check allow target i by_ now) log log' (Some answer) ->
  fst <$> answer = decision allow target i /\ recorded target by_ now log log' answer.
Proof.
  unfold Check, decision. destruct (parseTarget target) as [tp|]; [|apply refuse_alone].
  destruct (find _ _) as [e|]; [apply refuse_alone|]. intros [<- [Ha|Ha]]; [|done]. by injection Ha as ->.
Qed.

Lemma refuse_exec target by_ now r log : blank target = false -> blank by_ = false -> now ≠ 0 ->
  exec (refuse target by_ now r) log = (log ++ [in_seconds (mkAudit AuditAction target (reason target r) by_ now)], Some (r, true)).
Proof.
  intros Ht Hb Hn. unfold refuse, Append.
  assert (entry_ok (mkAudit AuditAction target (reason target r) by_ now) = true) as ->.
  { unfold entry_ok; cbn [Action AuditTarget Reason TriggeredBy EntryAt]. rewrite Ht, Hb, reason_said, (proj2 (Z.eqb_neq now 0) Hn).
    assert (blank AuditAction = false) as -> by (by vm_compute). done. }
  done.
Qed.

(** C17. Whatever happens to the audit log, a target is let through only if it
    parses and names no address of the floor, in whichever family it is written,
    except that a range of IPv6 larger than a /96 is not held against the IPv4
    addresses mapped into it ([coarse]: ::fffe:0:0/95 is let through); it is
    refused only if it does not parse or an address it names is one of an
    entry's; the floor has every address the operator's variable names, with the
    same exception, and never less than the fixed categories; and a refusal leaves one row that says so, or
    an error that says it left none, and the row where nothing fails and neither
    the target nor the caller is blank. *)
Theorem floor_is_never_blocked getenv allow i target by_ now log log' answer :
  Load getenv = Some allow -> inputs_ok i -> alone eq (Check allow target i by_ now) log log' (Some answer) ->
  (answer = None -> (exists tp, parseTarget target = Some tp) /\
     forall a, addr_ok a -> targeted target a -> (Is4In6 a = true -> ~ coarse target) -> ~ on_floor allow i a) /\
  (forall e written, answer = Some (OnFloor e, written) -> e ∈ entries allow i /\
     exists a b p, targeted target a /\ (b = a \/ b = Unmap a) /\ e_prefix e = Some p /\ within b p) /\
  (forall written, answer = Some (Unparseable, written) -> parseTarget target = None) /\
  (forall part a, part ∈ Split (@TrimSpace UN (getenv EnvAllow)) 44 -> @TrimSpace UN part ≠ [] ->
     let part := @TrimSpace UN part in targeted part a -> (Is4In6 a = true -> ~ coarse part) -> on_floor allow i a) /\
  staticFloor `prefix_of` entries allow i /\
  recorded target by_ now log log' answer /\
  (blank target = false -> blank by_ = false -> now ≠ 0 -> forall r, decision allow target i = Some r ->
     exec (Check allow target i by_ now) log =
       (log ++ [in_seconds (mkAudit AuditAction target (reason target r) by_ now)], Some (r, true))).
Proof.
  intros Hload Hi [Hd Hrec]%Check_alone.
  assert (Forall prefix_ok allow /\ forall part, part ∈ Split (@TrimSpace UN (getenv EnvAllow)) 44 -> @TrimSpace UN part ≠ [] ->
    exists p, parseTarget (@TrimSpace UN part) = Some p /\ p ∈ allow) as [Hallow Hparts].
  { unfold Load in Hload. case_bool_decide as He; [|by apply load_parts_ok]. injection Hload as <-. split; [by constructor|].
    rewrite He. intros part [-> |?%elem_of_nil]%elem_of_cons; done. }
  pose proof (entries_valid allow i Hallow Hi) as Hv. split_and!; [unfold decision in Hd..|done|].
  - intros ->. destruct (parseTarget target) as [tp|] eqn:Ht; [|done]. split; [by exists tp|]. intros a Ha Hta Hc Hf.
    destruct (on_floor_overlaps allow i tp a Hv (parseTarget_ok _ _ Ht) Ha Hf (parseTarget_covers _ _ _ Ht Hta Hc)) as [e He]. by rewrite He in Hd.
  - intros e w ->. destruct (parseTarget target) as [tp|] eqn:Ht; [|done]. destruct (find _ _) as [e'|] eqn:Hf; [|done]. cbn in Hd. injection Hd as <-.
    apply find_some in Hf as [Hin Ho]. apply list_elem_of_In in Hin. split; [done|]. rewrite Forall_forall in Hv.
    apply (overlaps_entry tp e (parseTarget_ok _ _ Ht) (Hv e Hin)) in Ho as (p & b & Hp & Hb & Hbt & Hbp).
    destruct (parseTarget_tight _ _ _ Ht Hb Hbt) as (a & Ha & Hab). by exists a, b, p.
  - intros w ->. destruct (parseTarget target) as [tp|]; [|done]. by destruct (find _ _).
  - intros part a Hin Hne part' Ha Hc. destruct (Hparts part Hin Hne) as (p & Hp & Hpin).
    exists (mkEntry (Some p) CategoryOperatorAllow (lit "operator allowlist entry")), p. split; [|split; [done|by eapply parseTarget_covers]].
    unfold entries. rewrite !elem_of_app. right. left. apply list_elem_of_fmap. by exists p.
  - unfold entries. by eexists.
  - intros Ht Hb Hn r. unfold decision, Check. destruct (parseTarget target) as [tp|]; [destruct (find _ _); [|done]|]; intros [= <-]; by apply refuse_exec.
Qed.
End targets.

(** ** An execution *)

#[local] Existing Instance ascii_only.

#[local] Instance ex_text : RefusalText.
Proof. refine {| reason _ r := match r with Unparseable => lit "unparseable" | OnFloor _ => lit "on the floor" end |}. intros _ [|e]; by vm_compute. Defined.

Definition ex_env (_ : bytes) : bytes := lit "203.0.113.0/24, 2001:db8::7".

Definition ex_allow : Floor := [mkPrefix (V4 3405803776) 24; mkPrefix (V6 42540766411282592856903984951653826567 []) 128].

Definition ex_inputs : Inputs := mkInputs [Some (V4 3221225985)] [] [] [] None.

Lemma ex_allow_loads : Load ex_env = Some ex_allow.
Proof. vm_compute. reflexivity. Qed.

Lemma ex_inputs_ok : inputs_ok ex_inputs.
Proof.
  intros a [Ha|[Ha|[Ha|[Ha|Ha]]]]; [|by apply elem_of_nil in Ha..|done]. apply list_elem_of_singleton in Ha. injection Ha as ->. by vm_compute.
Qed.

Definition ex_check (target : string) : list Entry * option (refusal * bool) :=
  exec (Check ex_allow (lit target) ex_inputs (lit "routeros/mitigate") 5000000000) [].

(** An address outside is let through and one of the operator's range, or one
    written as a mapped address, is not. A range that contains every mapped
    address is let through. *)
Lemma floor_is_never_blocked_witness :
  ~ on_floor ex_allow ex_inputs (V4 3325256711) /\ (ex_check "198.51.100.7").2 = None /\
  (ex_check "::ffff:203.0.113.9").2 = Some (OnFloor (mkEntry (Some (mkPrefix (V4 3405803776) 24)) CategoryOperatorAllow (lit "operator allowlist entry")), true) /\
  length (ex_check "::ffff:203.0.113.9").1 = 1%nat /\
  ex_check " " = ([], Some (Unparseable, false)) /\
  ((ex_check "::fffe:0:0/95").2 = None /\ targeted (lit "::fffe:0:0/95") (V6 281472812449793 []) /\
   on_floor ex_allow ex_inputs (V6 281472812449793 [])).
Proof.
  assert ((ex_check "198.51.100.7").2 = None) as H0 by (vm_compute; reflexivity).
  split_and!.
  - destruct (floor_is_never_blocked ex_env ex_allow ex_inputs (lit "198.51.100.7") (lit "routeros/mitigate") 5000000000 [] []
      None ex_allow_loads ex_inputs_ok) as (Hpass & _).
    + rewrite <- H0. exact (alone_exec eq (Check ex_allow (lit "198.51.100.7") ex_inputs (lit "routeros/mitigate") 5000000000) []).
    + apply (Hpass eq_refl); [by vm_compute| |done]. exists (V4 3325256711). split_and!; by vm_compute.
  - exact H0.
  - vm_compute. reflexivity.
  - vm_compute. reflexivity.
  - vm_compute. reflexivity.
  - vm_compute. reflexivity.
  - exists (mkPrefix (V6 281466386776064 []) 95). split; [|split]; by vm_compute.
  - exists (static "127.0.0.0/8" CategoryLoopback "IPv4 loopback"), (mkPrefix (V4 2130706432) 8). split; [by left|]. split; [|split]; by vm_compute.
Defined.
