(* ===== verification/Visitors.v ===== *)
(** What the dashboard reads of the alerts: the alerts themselves, page by page
    ([ListAlerts] of [internal/store/store.go] with its handler), and the
    visitors they come from ([visitor.go]): how each is classified, what it
    tried, and the pages of the listing ([internal/api/handlers.go]).

    A row's id grows with its place in the table. JSON is decoded by the class
    [LogJson]. *)
From S2P Require Import Prelude GoBase GoStrings GoTime GoNet SelfTest Sql.
#[local] Open Scope Z_scope.

(** ** The alerts *)

(** [Alert]: what was inserted, with the id it was given. *)
Record Alert : Type := mkStored { ID : Z; ins : AlertInsert }.

Class RowIds : Type := {
  row_id : nat -> Z;
  row_id_pos n : 0 < row_id n;
  row_id_mono i j : (i < j)%nat -> row_id i < row_id j;
}.

Definition defaultLimit : Z := 100.
Definition maxLimit : Z := 1000.

Definition NormalizeLimit (limit : Z) : Z :=
  if limit <=? 0 then defaultLimit else if maxLimit <? limit then maxLimit else limit.

(** A zero time is 0. *)
Record AlertFilter : Type := mkFilter {
  fInstanceID : bytes;
  fSourceIP : bytes;
  fService : bytes;
  fSince : Z;
  fUntil : Z;
  fBefore : Z;
  fLimit : Z;
}.

Section alerts.
Context {EN : Engine} {RI : RowIds}.

(** [scanAlerts] of the whole table. *)
Definition stored_alerts (d : store_db) : list Alert := imap (fun n row => mkStored (row_id n) (al_alert row)) (alerts d).

(** [timeCompare]: at the database's own resolution. *)
Definition not_before (t since : Z) : bool := instant since <=? instant t.

(** The conditions of the query but the cursor. *)
Definition selected (f : AlertFilter) (a : Alert) : bool :=
  (bool_decide (fInstanceID f = []) || bool_decide (InstanceID (ins a) = fInstanceID f)) &&
  (bool_decide (fSourceIP f = []) || bool_decide (SourceIP (ins a) = fSourceIP f)) &&
  (bool_decide (fService f = []) || bool_decide (Service (ins a) = fService f)) &&
  ((fSince f =? 0) || not_before (ReceivedAt (ins a)) (fSince f)) &&
  ((fUntil f =? 0) || not_before (fUntil f) (ReceivedAt (ins a))).

Definition before_cursor (f : AlertFilter) (a : Alert) : bool := if 0 <? fBefore f then ID a <? fBefore f else true.

Definition ListAlerts (f : AlertFilter) : prog store_db (res unit (list Alert)) :=
  Stmt (query (fun d => take (Z.to_nat (NormalizeLimit (fLimit f)))
                          (filter (fun a => selected f a && before_cursor f a = true) (reverse (stored_alerts d))))) (fun r =>
  Ret (match r with None => Err tt | Some l => Ok l end)).

(** The end of [handleAlerts]: the page and the cursor of the next one. *)
Definition alertsResponse (f : AlertFilter) : prog store_db (res unit (list Alert * option Z)) :=
  pbind (ListAlerts f) (fun r =>
  Ret (match r with
       | Err e => Err e
       | Ok l => Ok (l, if zlen l =? NormalizeLimit (fLimit f) then ID <$> last l else None)
       end)).

Definition at_cursor (f : AlertFilter) (before : Z) : AlertFilter :=
  mkFilter (fInstanceID f) (fSourceIP f) (fService f) (fSince f) (fUntil f) before (fLimit f).

(** [alertsInRange] *)
Definition in_range (since until : Z) (a : Alert) : bool :=
  not_before (ReceivedAt (ins a)) since && not_before until (ReceivedAt (ins a)) && negb (Synthetic (ins a)).

Definition alertsInRange (since until : Z) : prog store_db (res unit (list Alert)) :=
  Stmt (query (fun d => filter (fun a => in_range since until a = true) (reverse (stored_alerts d)))) (fun r =>
  Ret (match r with None => Err tt | Some l => Ok l end)).
End alerts.

(** ** Kinds of visitors *)

Inductive VisitorKind : Type := KindInside | KindSweep | KindRepeat | KindTouch.

Definition stillArrivingWindow : Z := 5 * 60 * Second.
Definition sweepWindow : Z := 15 * 60 * Second.
Definition repeatDays : Z := 3.

Record hitPoint : Type := mkHit { hp_At : Z; hp_CanaryID : bytes; hp_Service : bytes }.

(** The loop of [ParseInternalRanges]; [None] is its error. *)
Fixpoint parse_ranges {UN : Unicode} (parts : list bytes) : option (list IPNet) :=
  match parts with
  | [] => Some []
  | p :: parts =>
      let p := @TrimSpace UN p in
      if bool_decide (p = []) then parse_ranges parts else
      match ParseCIDR p with
      | None => None
      | Some n => match parse_ranges parts with Some rest => Some (n :: rest) | None => None end
      end
  end.

Definition ParseInternalRanges {UN : Unicode} (s : bytes) : option (list IPNet) :=
  let s := @TrimSpace UN s in
  if bool_decide (s = []) then Some [] else parse_ranges (Split s 44).

Definition isInside (sourceIP : bytes) (internalRanges : list IPNet) : bool :=
  match ParseIP sourceIP with
  | None => false
  | Some ip =>
      if IsPrivate ip || IsLinkLocalUnicast ip then true
      else existsb (fun r => GoNet.Contains r ip) internalRanges
  end.

Definition at_le (a b : hitPoint) : Prop := hp_At a <= hp_At b.

#[export] Instance at_le_dec a b : Decision (at_le a b).
Proof. unfold at_le. apply _. Defined.

(** The inner loop of [isSweep], from the canaries so far. *)
Fixpoint sweep_from (start : Z) (canaries : gset bytes) (rest : list hitPoint) : bool :=
  match rest with
  | [] => false
  | h :: rest =>
      if time_sub (hp_At h) start <=? sweepWindow then
        let canaries := {[hp_CanaryID h]} ∪ canaries in
        if (2 <=? size canaries)%nat then true else sweep_from start canaries rest
      else false
  end.

Fixpoint sweep_any (sorted : list hitPoint) : bool :=
  match sorted with
  | [] => false
  | h :: rest => sweep_from (hp_At h) {[hp_CanaryID h]} rest || sweep_any rest
  end.

Definition isSweep (hits : list hitPoint) : bool := sweep_any (merge_sort at_le hits).

(** The calendar days of each canary's hits. *)
Definition add_day (m : gmap bytes (gset Z)) (h : hitPoint) : gmap bytes (gset Z) :=
  <[hp_CanaryID h := {[UTCDay (hp_At h)]} ∪ default ∅ (m !! hp_CanaryID h)]> m.

Definition daysByCanary (hits : list hitPoint) : gmap bytes (gset Z) := foldl add_day ∅ hits.

Definition isRepeat (hits : list hitPoint) : bool :=
  existsb (fun e => repeatDays <=? Z.of_nat (size e.2)) (map_to_list (daysByCanary hits)).

Definition poisonerService : bytes := lit "poisoner".

Definition isPoisoner (hits : list hitPoint) : bool := existsb (fun h => bool_decide (hp_Service h = poisonerService)) hits.

Definition classifyKind (sourceIP : bytes) (hits : list hitPoint) (internalRanges : list IPNet) : VisitorKind :=
  if isPoisoner hits then KindInside else
  if isInside sourceIP internalRanges then KindInside else
  if isSweep hits then KindSweep else
  if isRepeat hits then KindRepeat else KindTouch.

(** ** What a visitor tried *)

Class LogJson : Type := {
  decode_logdata : bytes -> option (gmap bytes bytes);
  json_string : bytes -> option bytes;
  json_headers : bytes -> option (gmap bytes (list bytes));
}.

Definition emptyMark : bytes := lit "(empty)".

Definition displayCred (s : bytes) : bytes := if bool_decide (s = []) then emptyMark else s.

Section tried.
Context {LJ : LogJson}.

(** A nil map has no key. *)
Definition extractLogData (raw : bytes) : gmap bytes bytes :=
  let start := IndexByte raw 123 in
  if start <? 0 then ∅ else default ∅ (decode_logdata (slice raw start (zlen raw))).

Definition logString (logdata : gmap bytes bytes) (key : string) : option bytes := logdata !! lit key ≫= json_string.

Definition logHeader (logdata : gmap bytes bytes) (key : string) : option bytes :=
  match logdata !! lit "HEADERS" ≫= json_headers with
  | None => None
  | Some headers => headers !! lit key ≫= head
  end.

(** A value that is absent reads as the empty string. *)
Definition logText (logdata : gmap bytes bytes) (key : string) : bytes := default [] (logString logdata key).

Definition nonempty (s : option bytes) : option bytes :=
  match s with Some [] => None | s => s end.

Definition triedFor (service raw : bytes) : bytes :=
  let logdata := extractLogData raw in
  if bool_decide (service ∈ [lit "ssh"; lit "telnet"; lit "ftp"; lit "mysql"]) then
    match logString logdata "USERNAME" with
    | Some username => username ++ lit " / " ++ displayCred (logText logdata "PASSWORD")
    | None => service
    end
  else if bool_decide (service = lit "http") then
    match logString logdata "PATH" with
    | None => service
    | Some path =>
        match logString logdata "USERNAME" with
        | Some username => path ++ lit " " ++ username ++ lit " / " ++ displayCred (logText logdata "PASSWORD")
        | None => path
        end
    end
  else if bool_decide (service = lit "smb") then default (lit "smb") (nonempty (logString logdata "SHARENAME"))
  else if bool_decide (service = lit "rdp") then
    match logString logdata "USERNAME" with Some username => displayCred username | None => service end
  else if bool_decide (service = lit "tftp") then
    match logString logdata "FILENAME" with
    | None => service
    | Some filename =>
        let opcode := logText logdata "OPCODE" in
        let mode := logText logdata "MODE" in
        let tried := if bool_decide (opcode = []) then filename else opcode ++ lit " " ++ filename in
        if bool_decide (mode = []) then tried else tried ++ lit " (" ++ mode ++ lit ")"
    end
  else if bool_decide (service = lit "sip") then default service (nonempty (logHeader logdata "from"))
  else if bool_decide (service = lit "redis") then
    match logString logdata "CMD" with
    | Some cmd => cmd ++ lit " " ++ displayCred (logText logdata "ARGS")
    | None => service
    end
  else if bool_decide (service = lit "mssql") then
    match logString logdata "UserName" with
    | None => service
    | Some username =>
        let cred := username ++ lit " / " ++ displayCred (logText logdata "Password") in
        let appName := logText logdata "AppName" in
        if bool_decide (appName = []) then cred else appName ++ lit " " ++ cred
    end
  else if bool_decide (service = poisonerService) then default poisonerService (nonempty (logString logdata "PROTOCOL"))
  else service.

Record VisitorPoisoner : Type := mkPoisoner { vp_Name : bytes; vp_Protocol : bytes; vp_MAC : bytes }.

Definition poisoner_of (a : Alert) : option VisitorPoisoner :=
  if negb (bool_decide (Service (ins a) = poisonerService)) then None else
  let logdata := extractLogData (Raw (ins a)) in
  let name := logText logdata "NAME" in
  let protocol := logText logdata "PROTOCOL" in
  if bool_decide (name = []) && bool_decide (protocol = []) then None
  else Some (mkPoisoner name protocol (logText logdata "MAC")).

Fixpoint poisonerFor (hits : list Alert) : option VisitorPoisoner :=
  match hits with
  | [] => None
  | a :: hits => match poisoner_of a with Some p => Some p | None => poisonerFor hits end
  end.

(** The oldest first, until four differ; [seen] is what [out] holds. *)
Fixpoint tried_loop (oldest_first : list Alert) (out : list bytes) : list bytes :=
  match oldest_first with
  | [] => out
  | a :: rest =>
      if (4 <=? length out)%nat then out else
      let t := triedFor (Service (ins a)) (Raw (ins a)) in
      if bool_decide (t ∈ out) then tried_loop rest out else tried_loop rest (out ++ [t])
  end.

Definition triedSummaries (hits : list Alert) : list bytes := tried_loop (reverse hits) [].

(** ** The listing *)

Record Visitor : Type := mkVisitor {
  v_SourceIP : bytes;
  v_Kind : VisitorKind;
  v_FirstAt : Z;
  v_LastAt : Z;
  v_Hits : Z;
  v_Canaries : list (bytes * Z);
  v_Services : list bytes;
  v_Tried : list bytes;
  v_StillArriving : bool;
  v_Poisoner : option VisitorPoisoner;
}.

Definition text_before (a b : bytes) : Prop := text_le a b = true.

#[export] Instance text_before_dec a b : Decision (text_before a b).
Proof. unfold text_before. apply _. Defined.

(** [sort.Strings] of the keys of a map, in the order [range] visits them. *)
Definition sorted_keys {A} (m : gmap bytes A) : list bytes := merge_sort text_before ((map_to_list m).*1).

Definition count_canary (m : gmap bytes Z) (a : Alert) : gmap bytes Z :=
  <[InstanceID (ins a) := default 0 (m !! InstanceID (ins a)) + 1]> m.

Definition canaryHits (hits : list Alert) : gmap bytes Z := foldl count_canary ∅ hits.

Definition serviceSet (hits : list Alert) : gmap bytes unit := foldl (fun m a => <[Service (ins a) := tt]> m) ∅ hits.

Definition hit_of (a : Alert) : hitPoint := mkHit (ReceivedAt (ins a)) (InstanceID (ins a)) (Service (ins a)).

(** [None] is the panic of an empty history. *)
Definition buildVisitor (now : Z) (internalRanges : list IPNet) (sourceIP : bytes) (hits : list Alert) : option Visitor :=
  match head hits, last hits with
  | Some newest, Some oldest =>
      Some (mkVisitor sourceIP (classifyKind sourceIP (hit_of <$> hits) internalRanges)
        (ReceivedAt (ins oldest)) (ReceivedAt (ins newest)) (zlen hits)
        ((fun id => (id, default 0 (canaryHits hits !! id))) <$> sorted_keys (canaryHits hits))
        (sorted_keys (serviceSet hits)) (triedSummaries hits)
        (negb (ReceivedAt (ins newest) <? now - stillArrivingWindow)) (poisonerFor hits))
  | _, _ => None
  end.

Record VisitorFilter : Type := mkVisitorFilter { vf_Since : Z; vf_Until : Z; vf_Before : Z; vf_Limit : Z }.

Definition defaultVisitorLimit : Z := 100.
Definition maxVisitorLimit : Z := 1000.

Definition NormalizeVisitorLimit (limit : Z) : Z :=
  if limit <=? 0 then defaultVisitorLimit else if maxVisitorLimit <? limit then maxVisitorLimit else limit.

(** The alerts of each source, and the sources in the order they appear. *)
Definition bucket (acc : gmap bytes (list Alert) * list bytes) (a : Alert) : gmap bytes (list Alert) * list bytes :=
  let '(bySource, order) := acc in
  let ip := SourceIP (ins a) in
  match bySource !! ip with
  | None => (<[ip := [a]]> bySource, order ++ [ip])
  | Some l => (<[ip := l ++ [a]]> bySource, order)
  end.

Definition buckets (l : list Alert) : gmap bytes (list Alert) * list bytes := foldl bucket (∅, []) l.

(** The loop over the sources, up to a full page. *)
Fixpoint visitor_page (now before : Z) (internalRanges : list IPNet) (bySource : gmap bytes (list Alert)) (room : nat)
    (order : list bytes) : option (list Visitor) :=
  match order with
  | [] => Some []
  | ip :: order =>
      match buildVisitor now internalRanges ip (default [] (bySource !! ip)) with
      | None => None
      | Some v =>
          if negb (before =? 0) && negb (v_LastAt v <? before)
          then visitor_page now before internalRanges bySource room order
          else match room with
               | O | S O => Some [v]
               | S room => match visitor_page now before internalRanges bySource room order with Some l => Some (v :: l) | None => None end
               end
      end
  end.

Context {EN : Engine} {RI : RowIds}.

Definition list_visitors (now : Z) (f : VisitorFilter) (internalRanges : list IPNet) (l : list Alert) : option (list Visitor) :=
  let '(bySource, order) := buckets l in
  visitor_page now (vf_Before f) internalRanges bySource (Z.to_nat (NormalizeVisitorLimit (vf_Limit f))) order.

Definition ListVisitors (now : Z) (f : VisitorFilter) (internalRanges : list IPNet) : prog store_db (res unit (option (list Visitor))) :=
  pbind (alertsInRange (vf_Since f) (vf_Until f)) (fun r =>
  Ret (match r with Err e => Err e | Ok l => Ok (list_visitors now f internalRanges l) end)).

(** The end of [handleVisitors]. *)
Definition visitorsResponse (f : VisitorFilter) (vs : list Visitor) : list Visitor * option Z :=
  (vs, if zlen vs =? NormalizeVisitorLimit (vf_Limit f) then v_LastAt <$> last vs else None).
End tried.

(** ** Pages *)

(** A client that follows the cursor, over a listing that may grow at its newest
    end between two requests. *)
Section paging.
Context {A : Type} (key : A -> Z) (n : nat).
Implicit Types l p rest : list A.

Definition next_cursor p : option Z := if (length p =? n)%nat then key <$> last p else None.

(** The pages, and whether the last one said there are no more. *)
Fixpoint follow (page : nat -> Z -> list A) (fuel k : nat) (cursor : Z) : list (list A) * bool :=
  match fuel with
  | O => ([], false)
  | S fuel =>
      let p := page k cursor in
      match next_cursor p with
      | None => ([p], true)
      | Some c => let '(pages, finished) := follow page fuel (S k) c in (p :: pages, finished)
      end
  end.

Definition descending : list A -> Prop := StronglySorted (fun a b => key b < key a).

Definition older (cursor : Z) l : list A := filter (fun a => key a < cursor) l.

Lemma older_rest l1 a rest : descending (l1 ++ a :: rest) -> older (key a) (l1 ++ a :: rest) = rest.
Proof.
  unfold older, descending. induction l1 as [|b l1 IH]; cbn [app]; intros [Hs Hall]%StronglySorted_inv.
  - rewrite filter_cons_False by lia. apply filter_all. exact Hall.
  - rewrite filter_cons_False; [by apply IH|]. rewrite Forall_forall in Hall. specialize (Hall a ltac:(apply elem_of_app; right; by left)). lia.
Qed.

Lemma follow_rest l page fuel : (0 < n)%nat -> descending l ->
  (forall k a, a ∈ l -> page (S k) (key a) = take n (older (key a) l)) ->
  forall l1 a rest k, l = l1 ++ a :: rest -> (length rest / n < fuel)%nat ->
  let r := follow page fuel (S k) (key a) in
  concat r.1 = rest /\ r.2 = true /\ length r.1 = S (length rest / n).
Proof.
  intros Hn Hd Hp. induction fuel as [|fuel IH]; intros l1 a rest k Hl Hf; cbn [follow]; [lia|].
  rewrite (Hp k a) by (rewrite Hl; apply elem_of_app; right; by left). rewrite Hl, older_rest by (by rewrite <- Hl).
  unfold next_cursor. destruct (Nat.eqb_spec (length (take n rest)) n) as [Hfull|Hfull]; rewrite length_take in Hfull.
  - assert (take n rest ≠ []) as Hne by (intros Hz; apply (f_equal length) in Hz; rewrite length_take in Hz; cbn in Hz; lia).
    apply last_is_Some in Hne as Hlast. destruct Hlast as [b Hb]. rewrite Hb. cbn [fmap option_fmap option_map].
    apply last_Some in Hb as [q Hq].
    destruct (IH (l1 ++ a :: q) b (drop n rest) (S k)) as (Hc & Ht & Hlen).
    { rewrite Hl, <- app_assoc. cbn. f_equal. f_equal. rewrite <- (take_drop n rest) at 1. rewrite Hq. by rewrite <- app_assoc. }
    { rewrite length_drop. assert (length rest / n = S ((length rest - n) / n))%nat as E; [|lia].
      replace (length rest) with (1 * n + (length rest - n))%nat at 1 by lia. rewrite Nat.div_add_l by lia. lia. }
    destruct (follow page fuel (S (S k)) (key b)) as [pages finished]. cbn [fst snd concat length] in *. rewrite Hc, Hlen, length_drop. split_and!; [apply take_drop|done|].
    f_equal. symmetry. replace (length rest) with (1 * n + (length rest - n))%nat at 1 by lia. rewrite Nat.div_add_l by lia. lia.
  - cbn. rewrite app_nil_r, take_ge by lia. split_and!; [done|done|]. by rewrite Nat.div_small by lia.
Qed.

Lemma follow_all l page fuel : (0 < n)%nat -> descending l ->
  page 0%nat 0 = take n l -> (forall k a, a ∈ l -> page (S k) (key a) = take n (older (key a) l)) -> (length l / n < fuel)%nat ->
  let r := follow page fuel 0 0 in
  concat r.1 = l /\ r.2 = true /\ length r.1 = S (length l / n).
Proof.
  intros Hn Hd H0 Hp Hf. destruct fuel as [|fuel]; [lia|]. cbn [follow]. rewrite H0. unfold next_cursor.
  destruct (Nat.eqb_spec (length (take n l)) n) as [Hfull|Hfull]; rewrite length_take in Hfull.
  - assert (take n l ≠ []) as Hne by (intros Hz; apply (f_equal length) in Hz; rewrite length_take in Hz; cbn in Hz; lia).
    apply last_is_Some in Hne as [b Hb]. rewrite Hb. cbn [fmap option_fmap option_map]. apply last_Some in Hb as [q Hq].
    assert (length l / n = S (length (drop n l) / n))%nat as E.
    { rewrite length_drop. replace (length l) with (1 * n + (length l - n))%nat at 1 by lia. rewrite Nat.div_add_l by lia. lia. }
    destruct (follow_rest l page fuel Hn Hd Hp q b (drop n l) 0%nat) as (Hc & Ht & Hlen).
    { rewrite <- (take_drop n l) at 1. by rewrite Hq, <- app_assoc. }
    { lia. }
    destruct (follow page fuel 1 (key b)) as [pages finished]. cbn [fst snd concat length] in *. rewrite Hc, Hlen, E. split_and!; [apply take_drop|done|done].
  - cbn. rewrite app_nil_r, take_ge by lia. split_and!; [done|done|]. by rewrite Nat.div_small by lia.
Qed.
End paging.

(** ** Kinds, as conditions on the hits *)

(** Two canaries within a quarter of an hour. *)
Definition touches_two (hits : list hitPoint) : Prop :=
  exists a b, a ∈ hits /\ b ∈ hits /\ hp_CanaryID a ≠ hp_CanaryID b /\ hp_At a <= hp_At b <= hp_At a + sweepWindow.

(** One canary on three calendar days. *)
Definition comes_back (hits : list hitPoint) : Prop :=
  exists a b c, a ∈ hits /\ b ∈ hits /\ c ∈ hits /\ hp_CanaryID a = hp_CanaryID b /\ hp_CanaryID b = hp_CanaryID c /\
    UTCDay (hp_At a) ≠ UTCDay (hp_At b) /\ UTCDay (hp_At b) ≠ UTCDay (hp_At c) /\ UTCDay (hp_At a) ≠ UTCDay (hp_At c).

Definition answers_bait (hits : list hitPoint) : Prop := exists h, h ∈ hits /\ hp_Service h = poisonerService.

(** The rules in their order, the first that holds. *)
Definition kind_of (inside : bool) (hits : list hitPoint) (k : VisitorKind) : Prop :=
  match k with
  | KindInside => answers_bait hits \/ inside = true
  | KindSweep => ~ answers_bait hits /\ inside = false /\ touches_two hits
  | KindRepeat => ~ answers_bait hits /\ inside = false /\ ~ touches_two hits /\ comes_back hits
  | KindTouch => ~ answers_bait hits /\ inside = false /\ ~ touches_two hits /\ ~ comes_back hits
  end.

Lemma time_sub_window a b : time_sub a b <= sweepWindow <-> a - b <= sweepWindow.
Proof. unfold time_sub. assert (0 < sweepWindow < 2 ^ 63 - 1) by done. lia. Qed.

Lemma sweep_from_spec start c rest : StronglySorted at_le rest ->
  sweep_from start {[c]} rest = true <-> exists b, b ∈ rest /\ hp_CanaryID b ≠ c /\ hp_At b - start <= sweepWindow.
Proof.
  induction rest as [|h rest IH]; cbn [sweep_from].
  { intros _. split; [done|]. by intros (b & ?%elem_of_nil & _). }
  intros [Hs Hall]%StronglySorted_inv. rewrite Forall_forall in Hall. destruct (Z.leb_spec (time_sub (hp_At h) start) sweepWindow) as [Hw|Hw].
  - apply time_sub_window in Hw. destruct (decide (hp_CanaryID h = c)) as [He|Hne].
    + assert ({[hp_CanaryID h]} ∪ {[c]} =@{gset bytes} {[c]}) as -> by (rewrite He; set_solver).
      rewrite size_singleton. cbn [Nat.leb]. rewrite (IH Hs). setoid_rewrite elem_of_cons. naive_solver.
    + assert (size ({[hp_CanaryID h]} ∪ {[c]} : gset bytes) = 2%nat) as -> by (rewrite size_union by (by apply disjoint_singleton_l, not_elem_of_singleton); by rewrite !size_singleton).
      cbn [Nat.leb]. split; [|done]. intros _. exists h. split; [by left|done].
  - split; [done|]. intros (b & Hb & Hne & Hbw). exfalso. assert (hp_At h <= hp_At b).
    { apply elem_of_cons in Hb as [-> |Hb]; [lia|]. by apply (Hall b Hb). }
    assert (time_sub (hp_At h) start <= sweepWindow); [apply time_sub_window; lia|lia].
Qed.

Lemma sweep_any_spec l : StronglySorted at_le l -> sweep_any l = true <-> touches_two l.
Proof.
  unfold touches_two. induction l as [|h l IH]; cbn [sweep_any].
  { intros _. split; [done|]. by intros (a & b & ?%elem_of_nil & _). }
  intros [Hs Hall]%StronglySorted_inv. rewrite Forall_forall in Hall. rewrite orb_true_iff, (sweep_from_spec _ _ _ Hs), (IH Hs). split.
  - intros [(b & Hb & Hne & Hw)|(a & b & Ha & Hb & ?)].
    + exists h, b. pose proof (Hall b Hb). unfold at_le in *. split_and!; [by left|by right|by apply not_eq_sym|lia|lia].
    + exists a, b. split_and!; [by right|by right|naive_solver..].
  - intros (a & b & Ha & Hb & Hne & Hw). apply elem_of_cons in Ha as [-> |Ha].
    + apply elem_of_cons in Hb as [-> |Hb]; [done|]. left. exists b. split_and!; [done|by apply not_eq_sym|lia].
    + apply elem_of_cons in Hb as [-> |Hb]; [|right; exists a, b; done].
      pose proof (Hall a Ha) as Hle. unfold at_le in Hle. left. exists a. split_and!; [done|done|]. assert (0 < sweepWindow) by done. lia.
Qed.

#[local] Instance at_le_total : Total at_le.
Proof. intros a b. unfold at_le. lia. Qed.

#[local] Instance at_le_trans : Transitive at_le.
Proof. intros a b c. unfold at_le. lia. Qed.

(** The same for any order of the hits at one time. *)
Lemma isSweep_spec hits : isSweep hits = true <-> touches_two hits.
Proof.
  unfold isSweep. rewrite sweep_any_spec by apply (StronglySorted_merge_sort _).
  unfold touches_two. by setoid_rewrite (merge_sort_Permutation at_le hits).
Qed.

Lemma daysByCanary_lookup hits c :
  default ∅ (daysByCanary hits !! c) = list_to_set (C := gset Z) (UTCDay ∘ hp_At <$> filter (fun h => hp_CanaryID h = c) hits).
Proof.
  unfold daysByCanary. induction hits as [|h hits IH] using rev_ind; [done|]. rewrite foldl_snoc, filter_app, fmap_app, list_to_set_app_L, <- IH.
  unfold add_day. rewrite filter_cons, filter_nil. destruct (decide (hp_CanaryID h = c)) as [<-|Hne].
  - rewrite lookup_insert_eq. cbn. set_solver.
  - rewrite lookup_insert_ne by done. cbn. set_solver.
Qed.

Lemma three_of (s : gset Z) : (3 <= size s)%nat <-> exists x y z, x ∈ s /\ y ∈ s /\ z ∈ s /\ x ≠ y /\ y ≠ z /\ x ≠ z.
Proof.
  split.
  - unfold size, set_size. cbn. intros H. pose proof (NoDup_elements s) as Hnd.
    destruct (elements s) as [|x [|y [|z l]]] eqn:He; cbn in H; try lia. exists x, y, z. rewrite <- !(elem_of_elements s), He.
    rewrite !NoDup_cons, !elem_of_cons in Hnd. rewrite !elem_of_cons. naive_solver.
  - intros (x & y & z & Hx & Hy & Hz & Hxy & Hyz & Hxz). assert (size ({[x; y; z]} : gset Z) = 3%nat) as <-.
      { rewrite !size_union by (rewrite ?elem_of_disjoint; intros u; rewrite ?elem_of_union, !elem_of_singleton; naive_solver). by rewrite !size_singleton. }
    apply subseteq_size. set_solver.
Qed.

Lemma isRepeat_spec hits : isRepeat hits = true <-> comes_back hits.
Proof.
  unfold isRepeat. rewrite existsb_exists.
  assert ((exists e, In e (map_to_list (daysByCanary hits)) /\ (repeatDays <=? Z.of_nat (size e.2)) = true) <->
    exists c, (3 <= size (default ∅ (daysByCanary hits !! c)))%nat) as ->.
  { split.
    - intros ([c s] & Hin%list_elem_of_In%elem_of_map_to_list & Hs%Z.leb_le). exists c. rewrite Hin. cbn in *. unfold repeatDays in Hs. lia.
    - intros [c Hc]. destruct (daysByCanary hits !! c) as [s|] eqn:He; cbn in Hc; [|rewrite size_empty in Hc; lia].
      exists (c, s). split; [by apply list_elem_of_In, elem_of_map_to_list|]. apply Z.leb_le. unfold repeatDays. cbn. lia. }
  setoid_rewrite daysByCanary_lookup. setoid_rewrite three_of. setoid_rewrite elem_of_list_to_set. setoid_rewrite list_elem_of_fmap.
  setoid_rewrite list_elem_of_filter. unfold comes_back. cbn. split.
  - intros (c & x & y & z & (a & -> & Ha & Hain) & (b & -> & Hb & Hbin) & (d & -> & Hd & Hdin) & Hxy & Hyz & Hxz). exists a, b, d. split_and!; first [done|congruence].
  - intros (a & b & d & Ha & Hb & Hd & Hab & Hbd & Hne). exists (hp_CanaryID a), (UTCDay (hp_At a)), (UTCDay (hp_At b)), (UTCDay (hp_At d)).
    split_and!; [exists a|exists b|exists d|naive_solver..]; split_and!; congruence.
Qed.

Lemma isPoisoner_spec hits : isPoisoner hits = true <-> answers_bait hits.
Proof.
  unfold isPoisoner, answers_bait. rewrite existsb_exists. setoid_rewrite bool_decide_eq_true. by setoid_rewrite list_elem_of_In.
Qed.

Lemma classifyKind_spec sourceIP hits ranges k : classifyKind sourceIP hits ranges = k <-> kind_of (isInside sourceIP ranges) hits k.
Proof.
  unfold classifyKind. pose proof (isPoisoner_spec hits) as Hp. pose proof (isSweep_spec hits) as Hs. pose proof (isRepeat_spec hits) as Hr.
  destruct (isPoisoner hits), (isInside sourceIP ranges), (isSweep hits), (isRepeat hits), k; cbn [kind_of]; naive_solver.
Qed.

(** ** The listing *)

Section listing.
Context {LJ : LogJson} {EN : Engine} {RI : RowIds}.

Definition hits_of (ip : bytes) (l : list Alert) : list Alert := filter (fun a => SourceIP (ins a) = ip) l.

Lemma hits_of_snoc ip l a : hits_of ip (l ++ [a]) = hits_of ip l ++ (if decide (SourceIP (ins a) = ip) then [a] else []).
Proof. unfold hits_of. by rewrite filter_app, filter_cons, filter_nil. Qed.

Lemma buckets_spec l :
  (forall ip, (buckets l).1 !! ip = match hits_of ip l with [] => None | h => Some h end) /\
  NoDup (buckets l).2 /\ forall ip, ip ∈ (buckets l).2 <-> hits_of ip l ≠ [].
Proof.
  unfold buckets. induction l as [|a l (Hm & Hnd & Hin)] using rev_ind.
  { split; [|split]; [intros ip; apply lookup_empty|constructor|]. intros ip. cbn. rewrite elem_of_nil. unfold hits_of. naive_solver. }
  rewrite foldl_snoc. destruct (foldl bucket _ l) as [m o]. cbn [fst snd] in *. unfold bucket. rewrite (Hm (SourceIP (ins a))).
  destruct (hits_of (SourceIP (ins a)) l) as [|h hs] eqn:Hh; cbn [fst snd]; setoid_rewrite hits_of_snoc.
  - split; [|split].
    + intros ip. destruct (decide (SourceIP (ins a) = ip)) as [<-|Hne]; [by rewrite lookup_insert_eq, Hh|]. by rewrite lookup_insert_ne, Hm, app_nil_r by done.
    + apply NoDup_app. split_and!; [done| |apply NoDup_singleton]. intros x Hx ->%list_elem_of_singleton. by apply Hin in Hx.
    + intros ip. rewrite elem_of_app, list_elem_of_singleton, Hin. destruct (decide (SourceIP (ins a) = ip)) as [<-|Hne]; [rewrite Hh; naive_solver|].
      rewrite app_nil_r. naive_solver.
  - split; [|split; [done|]].
    + intros ip. destruct (decide (SourceIP (ins a) = ip)) as [<-|Hne]; [by rewrite lookup_insert_eq, Hh|]. by rewrite lookup_insert_ne, Hm, app_nil_r by done.
    + intros ip. rewrite Hin. destruct (decide (SourceIP (ins a) = ip)) as [<-|Hne]; [rewrite Hh; naive_solver|by rewrite app_nil_r].
Qed.

(** The newest first. *)
Definition newest_first : list Alert -> Prop := StronglySorted (fun a b => ReceivedAt (ins b) <= ReceivedAt (ins a)).

Definition newest_of (ip : bytes) (l : list Alert) : Z := from_option (fun a => ReceivedAt (ins a)) 0 (head (hits_of ip l)).

Lemma newest_of_snoc ip l a : hits_of ip l ≠ [] -> newest_of ip (l ++ [a]) = newest_of ip l.
Proof. unfold newest_of. rewrite hits_of_snoc. by destruct (hits_of ip l). Qed.

(** The sources come newest first. *)
Lemma order_newest l : newest_first l -> StronglySorted (fun i j => newest_of j l <= newest_of i l) (buckets l).2.
Proof.
  induction l as [|a l IH] using rev_ind; [constructor|]. intros Hs. apply StronglySorted_app in Hs as (Hall & Hs & _). specialize (IH Hs).
  destruct (buckets_spec l) as (Hm & _ & Hin).
  assert (StronglySorted (fun i j => newest_of j (l ++ [a]) <= newest_of i (l ++ [a])) (buckets l).2) as Hold.
  { assert (Forall (fun i => newest_of i (l ++ [a]) = newest_of i l) (buckets l).2) as Hsame.
    { apply Forall_forall. intros i Hi%Hin. by apply newest_of_snoc. }
    revert IH Hsame. generalize (buckets l).2. intros o Ho. induction Ho as [|i o Ho IHo Hio]; [constructor|]. intros [Hi Hrest]%Forall_cons.
    constructor; [by apply IHo|]. rewrite Forall_forall in *. intros j Hj. rewrite Hi, Hrest by done. by apply Hio. }
  unfold buckets. rewrite foldl_snoc. fold (buckets l). destruct (buckets l) as [m o]. cbn [fst snd] in *. unfold bucket.
  rewrite Hm. destruct (hits_of (SourceIP (ins a)) l) as [|h hs] eqn:Hh; cbn [snd]; [|done].
  apply StronglySorted_app_2; [|done|by repeat constructor]. intros i j Hi ->%list_elem_of_singleton. apply Hin in Hi.
  rewrite (newest_of_snoc i) by done. unfold newest_of at 1. rewrite hits_of_snoc, Hh, decide_True by done. cbn.
  unfold newest_of. destruct (hits_of i l) as [|b bs] eqn:Hb; [done|]. cbn. apply (Hall b a); [|by left].
  assert (b ∈ hits_of i l) as Hbin by (rewrite Hb; by left). by apply list_elem_of_filter in Hbin as [_ ?].
Qed.

(** Everybody, without pages. *)
Definition all_visitors (now : Z) (ranges : list IPNet) (l : list Alert) : list Visitor :=
  omap (fun ip => buildVisitor now ranges ip (hits_of ip l)) (buckets l).2.

Definition at_or_after (before : Z) (v : Visitor) : bool := negb (before =? 0) && negb (v_LastAt v <? before).

Lemma buildVisitor_some now ranges ip hits : hits ≠ [] -> exists v, buildVisitor now ranges ip hits = Some v.
Proof.
  intros Hne. unfold buildVisitor. destruct hits as [|h hs]; [done|]. cbn [head]. destruct (last (h :: hs)) eqn:Hl; [by eexists|].
  by apply last_None in Hl.
Qed.

Lemma visitor_page_spec now before ranges l order : (forall ip, ip ∈ order -> hits_of ip l ≠ []) -> forall room, (0 < room)%nat ->
  visitor_page now before ranges (buckets l).1 room order =
    Some (take room (filter (fun v => at_or_after before v = false) (omap (fun ip => buildVisitor now ranges ip (hits_of ip l)) order))).
Proof.
  destruct (buckets_spec l) as (Hm & _ & _). induction order as [|ip order IH]; intros Hin room Hroom; cbn [visitor_page omap list_omap]; [by rewrite filter_nil, take_nil|].
  rewrite (Hm ip). assert (default [] (match hits_of ip l with [] => None | h => Some h end) = hits_of ip l) as -> by (by destruct (hits_of ip l)).
  destruct (buildVisitor_some now ranges ip (hits_of ip l) (Hin ip ltac:(by left))) as [v Hv]. rewrite Hv, filter_cons.
  assert (forall r, (0 < r)%nat -> visitor_page now before ranges (buckets l).1 r order = Some (take r (filter (fun v => at_or_after before v = false)
    (omap (fun ip => buildVisitor now ranges ip (hits_of ip l)) order)))) as IH' by (intros r Hr; apply IH; [|done]; intros x Hx; apply Hin; by right).
  fold (at_or_after before v). destruct (at_or_after before v) eqn:Ha; [rewrite decide_False by done; by apply IH'|]. rewrite decide_True by done.
  destruct room as [|[|room]]; [lia|done|]. rewrite IH' by lia. done.
Qed.

(** *** One visitor *)

Lemma text_le_refl a : text_le a a = true.
Proof. induction a as [|x a IH]; [done|]. cbn [text_le]. rewrite Z.eqb_refl, IH. by destruct (x <? x). Qed.

#[local] Instance text_before_total : Total text_before.
Proof.
  intros a. unfold text_before. induction a as [|x a IH]; intros [|y b]; cbn [text_le]; [by left|by left|by right|].
  destruct (Z.ltb_spec x y); [by left|]. destruct (Z.eqb_spec x y) as [->|]; cbn [orb andb].
  - rewrite Z.ltb_irrefl, Z.eqb_refl. cbn. apply IH.
  - right. assert (y <? x = true) as -> by (apply Z.ltb_lt; lia). done.
Qed.

#[local] Instance text_before_trans : Transitive text_before.
Proof.
  intros a. unfold text_before. induction a as [|x a IH]; intros [|y b] [|z c]; cbn [text_le]; try done.
  intros Hab Hbc. destruct (Z.ltb_spec x y), (Z.ltb_spec y z), (Z.eqb_spec x y), (Z.eqb_spec y z); cbn [orb andb] in *; try done;
    destruct (Z.ltb_spec x z), (Z.eqb_spec x z); cbn [orb andb]; try done; try lia. by eapply IH.
Qed.

Lemma sorted_keys_spec {A} (m : gmap bytes A) :
  StronglySorted text_before (sorted_keys m) /\ NoDup (sorted_keys m) /\ forall k, k ∈ sorted_keys m <-> is_Some (m !! k).
Proof.
  unfold sorted_keys. split_and!.
  - apply (StronglySorted_merge_sort _).
  - rewrite merge_sort_Permutation. apply NoDup_fst_map_to_list.
  - intros k. rewrite merge_sort_Permutation, list_elem_of_fmap. split.
    + intros ([k' x] & -> & Hk%elem_of_map_to_list). by exists x.
    + intros [x Hx]. exists (k, x). split; [done|by apply elem_of_map_to_list].
Qed.

Lemma canaryHits_lookup hits id : canaryHits hits !! id =
  if decide (filter (fun a => InstanceID (ins a) = id) hits = []) then None else Some (zlen (filter (fun a => InstanceID (ins a) = id) hits)).
Proof.
  unfold canaryHits. induction hits as [|a hits IH] using rev_ind; [done|]. rewrite foldl_snoc, filter_app, filter_cons, filter_nil.
  unfold count_canary at 1. destruct (decide (InstanceID (ins a) = id)) as [<-|Hne].
  - rewrite lookup_insert_eq, IH. rewrite (decide_False (P := _ ++ [a] = [])) by (by destruct (filter _ hits)).
    rewrite zlen_app. destruct (decide _) as [->|]; done.
  - rewrite lookup_insert_ne, IH, app_nil_r by done. done.
Qed.

Lemma serviceSet_lookup hits s : is_Some (serviceSet hits !! s) <-> exists a, a ∈ hits /\ Service (ins a) = s.
Proof.
  unfold serviceSet. induction hits as [|a hits IH] using rev_ind.
  { split; [by intros [? ?]|]. by intros (a & ?%elem_of_nil & _). }
  rewrite foldl_snoc. setoid_rewrite elem_of_app. setoid_rewrite list_elem_of_singleton. destruct (decide (Service (ins a) = s)) as [<-|Hne].
  - rewrite lookup_insert_eq. split; [|by eexists]. intros _. exists a. split; [by right|done].
  - rewrite lookup_insert_ne by done. rewrite IH. naive_solver.
Qed.

Definition tried_of (a : Alert) : bytes := triedFor (Service (ins a)) (Raw (ins a)).

Lemma tried_loop_spec l : forall out, NoDup out -> (length out <= 4)%nat ->
  let r := tried_loop l out in
  NoDup r /\ (length r <= 4)%nat /\ (forall t, t ∈ r -> t ∈ out \/ exists a, a ∈ l /\ tried_of a = t) /\
  ((length r < 4)%nat -> forall a, a ∈ l -> tried_of a ∈ r) /\ (forall t, t ∈ out -> t ∈ r).
Proof.
  induction l as [|a l IH]; intros out Hnd Hlen; cbn [tried_loop].
  { split_and!; [done|done|by left| |done]. by intros _ a ?%elem_of_nil. }
  destruct (Nat.leb_spec 4 (length out)) as [Hfull|Hroom]; [split_and!; [done|done|by left|lia|done]|]. fold (tried_of a).
  case_bool_decide as Hin.
  - destruct (IH out Hnd Hlen) as (H1 & H2 & H3 & H4 & H5). split_and!; [done|done| | |done].
    + intros t [Ht|(b & Hb & Ht)]%H3; [by left|]. right. exists b. split; [by right|done].
    + intros Hr b [-> |Hb]%elem_of_cons; [by apply H5|by apply H4].
  - destruct (IH (out ++ [tried_of a])) as (H1 & H2 & H3 & H4 & H5).
    { apply NoDup_app. split_and!; [done| |apply NoDup_singleton]. by intros x Hx ->%list_elem_of_singleton. }
    { rewrite length_app. cbn. lia. }
    split_and!; [done|done| | |].
    + intros t [[Ht|Ht%list_elem_of_singleton]%elem_of_app|(b & Hb & Ht)]%H3; [by left|right; exists a; split; [by left|done]|].
      right. exists b. split; [by right|done].
    + intros Hr b [-> |Hb]%elem_of_cons; [apply H5, elem_of_app; right; by left|by apply H4].
    + intros t Ht. apply H5, elem_of_app. by left.
Qed.

(** What a visitor says of the hits of its source, which are given latest
    stored first. *)
Record visitor_ok (ranges : list IPNet) (hits : list Alert) (v : Visitor) : Prop := {
  vo_kind : kind_of (isInside (v_SourceIP v) ranges) (hit_of <$> hits) (v_Kind v);
  vo_hits : v_Hits v = zlen hits;
  vo_last : exists a, head hits = Some a /\ v_LastAt v = ReceivedAt (ins a);
  vo_first : exists a, last hits = Some a /\ v_FirstAt v = ReceivedAt (ins a);
  vo_canaries : StronglySorted text_before (v_Canaries v).*1 /\ NoDup (v_Canaries v).*1 /\
    forall id n, (id, n) ∈ v_Canaries v <-> n = zlen (filter (fun a => InstanceID (ins a) = id) hits) /\ 0 < n;
  vo_services : StronglySorted text_before (v_Services v) /\ NoDup (v_Services v) /\
    forall s, s ∈ v_Services v <-> exists a, a ∈ hits /\ Service (ins a) = s;
  vo_tried : NoDup (v_Tried v) /\ (length (v_Tried v) <= 4)%nat /\ (forall t, t ∈ v_Tried v -> exists a, a ∈ hits /\ tried_of a = t) /\
    ((length (v_Tried v) < 4)%nat -> forall a, a ∈ hits -> tried_of a ∈ v_Tried v);
}.

(** And of their times, where the rows are stored in the order received. *)
Record visitor_timed (now : Z) (hits : list Alert) (v : Visitor) : Prop := {
  vt_last : (exists a, a ∈ hits /\ ReceivedAt (ins a) = v_LastAt v) /\ forall a, a ∈ hits -> ReceivedAt (ins a) <= v_LastAt v;
  vt_first : (exists a, a ∈ hits /\ ReceivedAt (ins a) = v_FirstAt v) /\ forall a, a ∈ hits -> v_FirstAt v <= ReceivedAt (ins a);
  vt_arriving : v_StillArriving v = true <-> exists a, a ∈ hits /\ now - stillArrivingWindow <= ReceivedAt (ins a);
}.

Lemma newest_first_ends l a b : newest_first l -> head l = Some a -> last l = Some b ->
  forall x, x ∈ l -> ReceivedAt (ins b) <= ReceivedAt (ins x) <= ReceivedAt (ins a).
Proof.
  intros Hs Ha Hb x Hx. split.
  - apply last_Some in Hb as [q ->]. apply StronglySorted_app in Hs as (Hall & _ & _).
    apply elem_of_app in Hx as [Hx|Hx%list_elem_of_singleton]; [apply Hall; [done|by left]|subst; lia].
  - destruct l as [|y l]; [done|]. injection Ha as ->. apply StronglySorted_inv in Hs as [_ Hall]. rewrite Forall_forall in Hall.
    apply elem_of_cons in Hx as [-> |Hx]; [lia|by apply Hall].
Qed.

Lemma buildVisitor_ok now ranges ip hits v : buildVisitor now ranges ip hits = Some v ->
  v_SourceIP v = ip /\ v_LastAt v = from_option (fun a => ReceivedAt (ins a)) 0 (head hits) /\ visitor_ok ranges hits v.
Proof.
  unfold buildVisitor. destruct (head hits) as [a|] eqn:Ha; [|done]. destruct (last hits) as [b|] eqn:Hb; [|done]. intros [= <-].
  split; [done|]. split; [done|].
  destruct (sorted_keys_spec (canaryHits hits)) as (Hcs & Hcn & Hci). destruct (sorted_keys_spec (serviceSet hits)) as (Hss & Hsn & Hsi).
  destruct (tried_loop_spec (reverse hits) [] ltac:(constructor) ltac:(cbn; lia)) as (Ht1 & Ht2 & Ht3 & Ht4 & _).
  split; cbn [v_SourceIP v_Kind v_FirstAt v_LastAt v_Hits v_Canaries v_Services v_Tried v_StillArriving].
  - by apply classifyKind_spec.
  - done.
  - by exists a.
  - by exists b.
  - rewrite <- list_fmap_compose. assert (forall l : list bytes, fst ∘ (fun id => (id, default 0 (canaryHits hits !! id))) <$> l = l) as Hid
      by (intros l; rewrite <- (list_fmap_id l) at 2; by apply list_fmap_ext).
    rewrite Hid. split_and!; [done|done|]. intros id n. rewrite list_elem_of_fmap. setoid_rewrite Hci. setoid_rewrite canaryHits_lookup. split.
    + intros (i & [= -> ->] & [x Hx]). destruct (decide _) as [|Hne] in *; [done|]. cbn. split; [done|]. by apply zlen_pos.
    + intros [-> Hn]. exists id. assert (filter (fun a => InstanceID (ins a) = id) hits ≠ []) as Hne by (intros Hz; rewrite Hz in Hn; by vm_compute in Hn).
      rewrite decide_False by done. split; [done|by eexists].
  - split_and!; [done|done|]. intros s. rewrite Hsi. apply serviceSet_lookup.
  - unfold triedSummaries. split_and!; [done|done| |].
    + intros t Ht. destruct (Ht3 t Ht) as [Hn|(x & Hx & Heq)]; [by apply elem_of_nil in Hn|]. exists x. by rewrite <- elem_of_reverse.
    + intros Hl x Hx. apply Ht4; [done|by apply elem_of_reverse].
Qed.

Lemma buildVisitor_timed now ranges ip hits v : newest_first hits -> buildVisitor now ranges ip hits = Some v -> visitor_timed now hits v.
Proof.
  intros Hs. unfold buildVisitor. destruct (head hits) as [a|] eqn:Ha; [|done]. destruct (last hits) as [b|] eqn:Hb; [|done]. intros [= <-].
  pose proof (newest_first_ends hits a b Hs Ha Hb) as Hends. assert (a ∈ hits) as Hain by (by apply head_Some_elem_of).
  assert (b ∈ hits) as Hbin by (by apply last_Some_elem_of). split; cbn [v_LastAt v_FirstAt v_StillArriving].
  - split; [by exists a|]. intros x Hx. by apply Hends.
  - split; [by exists b|]. intros x Hx. by apply Hends.
  - rewrite negb_true_iff, Z.ltb_ge. split; [intros H; by exists a|]. intros (x & Hx & H). pose proof (Hends x Hx). lia.
Qed.

(** *** The table *)

Lemma stored_alerts_elem d a : a ∈ stored_alerts d -> exists n row, alerts d !! n = Some row /\ a = mkStored (row_id n) (al_alert row).
Proof. unfold stored_alerts. rewrite elem_of_lookup_imap. naive_solver. Qed.

Lemma stored_ids l : forall k, StronglySorted (fun a b => ID a < ID b) (imap (fun n row => mkStored (row_id (k + n)) (al_alert row)) l).
Proof.
  induction l as [|row l IH] using rev_ind; intros k; [constructor|]. rewrite imap_app. apply StronglySorted_app_2; [|by apply IH|by repeat constructor].
  intros a b Ha Hb. apply elem_of_lookup_imap in Ha as (i & r & -> & Hi). apply elem_of_lookup_imap in Hb as (j & r' & -> & Hj).
  apply list_lookup_singleton_Some in Hj as [-> _]. cbn [ID]. apply lookup_lt_Some in Hi. apply row_id_mono. lia.
Qed.

Lemma sorted_reverse {A} (R : A -> A -> Prop) l : StronglySorted R l -> StronglySorted (fun a b => R b a) (reverse l).
Proof.
  induction 1 as [|x l Hl IH Hx]; [constructor|]. rewrite reverse_cons. apply StronglySorted_app_2; [|done|by repeat constructor].
  intros a b Ha Hb. apply list_elem_of_singleton in Hb as ->. rewrite Forall_forall in Hx. apply Hx. by apply elem_of_reverse.
Qed.

(** Rows were inserted in the order they were received. *)
Definition received_in_order (d : store_db) : Prop :=
  StronglySorted (fun a b => ReceivedAt (al_alert a) <= ReceivedAt (al_alert b)) (alerts d).

Lemma stored_newest_first d : received_in_order d -> newest_first (reverse (stored_alerts d)).
Proof.
  intros Hd. apply sorted_reverse. unfold stored_alerts, received_in_order in *. generalize row_id. revert Hd. generalize (alerts d). intros l Hl.
  induction Hl as [|row l Hl IH Hrow]; intros f; [constructor|]. rewrite imap_cons. constructor; [exact (IH (fun n => f (S n)))|].
  apply Forall_forall. intros b (i & r & -> & Hi)%elem_of_lookup_imap. rewrite Forall_forall in Hrow. apply Hrow. by eapply list_elem_of_lookup_2.
Qed.

(** *** Following the pages of the alerts *)

(** A table that only grows, as each request finds it. *)
Definition grows (states : nat -> store_db) : Prop := forall k, exists more, alerts (states k) = alerts (states 0%nat) ++ more.

Definition alerts_page (f : AlertFilter) (states : nat -> store_db) (k : nat) (cursor : Z) : list Alert :=
  match (exec (alertsResponse (at_cursor f cursor)) (states k)).2 with Ok (l, _) => l | Err _ => [] end.

Definition page_size (f : AlertFilter) : nat := Z.to_nat (NormalizeLimit (fLimit f)).

Lemma NormalizeLimit_range n : 0 < NormalizeLimit n <= 1000.
Proof. unfold NormalizeLimit, maxLimit, defaultLimit. destruct (Z.leb_spec n 0), (Z.ltb_spec 1000 n); lia. Qed.

Lemma alertsResponse_exec f d : exists p, exec (alertsResponse f) d = (d, Ok (p, next_cursor ID (page_size f) p)) /\
  p = take (page_size f) (filter (fun a => selected f a && before_cursor f a = true) (reverse (stored_alerts d))).
Proof.
  eexists. split; [|reflexivity]. unfold alertsResponse, ListAlerts. cbn [pbind exec query]. do 3 f_equal. unfold next_cursor, page_size.
  pose proof (NormalizeLimit_range (fLimit f)). set (p := take _ _). unfold zlen.
  destruct (Z.eqb_spec (Z.of_nat (length p)) (NormalizeLimit (fLimit f))), (Nat.eqb_spec (length p) (Z.to_nat (NormalizeLimit (fLimit f)))); first [done|lia].
Qed.

(** What the filter selects of the first state. *)
Definition selection (f : AlertFilter) (d : store_db) : list Alert := filter (fun a => selected f a = true) (reverse (stored_alerts d)).

Lemma selection_elem f d a : a ∈ selection f d <-> a ∈ stored_alerts d /\ selected f a = true.
Proof. unfold selection. rewrite list_elem_of_filter, elem_of_reverse. tauto. Qed.

Lemma selection_descending f d : descending ID (selection f d).
Proof. apply sorted_filter, sorted_reverse. exact (stored_ids (alerts d) 0). Qed.

(** C18. Following the cursors from the first page yields every alert that was
    there and fits, once, newest first, in as many pages as are needed and one
    that ends, whatever is inserted between two requests. *)
Theorem alerts_are_paged_once f states fuel :
  fBefore f = 0 -> grows states ->
  let sel := selection f (states 0%nat) in
  let n := page_size f in
  (length sel / n < fuel)%nat ->
  (0 < n <= 1000)%nat /\
  (forall k c, exec (alertsResponse (at_cursor f c)) (states k) =
     (states k, Ok (alerts_page f states k c, next_cursor ID n (alerts_page f states k c)))) /\
  (forall a, a ∈ sel <-> a ∈ stored_alerts (states 0%nat) /\ selected f a = true) /\ descending ID sel /\
  let r := follow ID n (alerts_page f states) fuel 0 (fBefore f) in
  concat r.1 = sel /\ r.2 = true /\ length r.1 = S (length sel / n).
Proof.
  intros Hb Hg sel n Hf. pose proof (NormalizeLimit_range (fLimit f)) as Hl. assert (0 < n <= 1000)%nat as Hn by (unfold n, page_size; lia).
  split; [done|]. split.
  { intros k c. unfold alerts_page. destruct (alertsResponse_exec (at_cursor f c) (states k)) as (p & He & _). rewrite He. done. }
  split; [intros a; apply selection_elem|].
  split; [apply selection_descending|]. rewrite Hb.
  assert (forall k c, alerts_page f states k c = take n (filter (fun a => before_cursor (at_cursor f c) a = true) (selection f (states k)))) as Hpage.
  { intros k c. unfold alerts_page. destruct (alertsResponse_exec (at_cursor f c) (states k)) as (p & He & ->). rewrite He. cbn [snd].
    unfold page_size, selection. cbn [at_cursor fLimit]. rewrite list_filter_filter. f_equal. apply list_filter_iff. intros a. rewrite andb_true_iff.
    unfold selected, at_cursor. cbn. tauto. }
  apply follow_all; [lia|apply selection_descending| | |done].
  - rewrite Hpage. f_equal. apply filter_all, Forall_forall. done.
  - intros k a Ha. rewrite Hpage. f_equal. destruct (Hg (S k)) as [more Hmore].
    assert (0 < ID a) as Hpos.
    { apply selection_elem in Ha as [Ha _]. apply stored_alerts_elem in Ha as (i & row & _ & ->). apply row_id_pos. }
    transitivity (older ID (ID a) (selection f (states (S k)))).
    { unfold older. apply list_filter_iff. intros b. unfold before_cursor. cbn [at_cursor fBefore].
      assert (0 <? ID a = true) as -> by (by apply Z.ltb_lt). apply Z.ltb_lt. }
    unfold selection, stored_alerts, older, sel. rewrite Hmore, imap_app, reverse_app, !filter_app.
    rewrite (filter_none (fun b => ID b < ID a) (filter _ (reverse (imap _ more)))); [done|]. apply Forall_forall.
    intros b Hbin. apply list_elem_of_filter in Hbin as [_ Hbin]. rewrite elem_of_reverse in Hbin. apply elem_of_lookup_imap in Hbin as (i & row & -> & Hi).
    apply selection_elem in Ha as [Ha _]. apply stored_alerts_elem in Ha as (j & row' & Hj & ->).
    cbn [ID]. apply lookup_lt_Some in Hj. pose proof (row_id_mono j (length (alerts (states 0%nat)) + i) ltac:(lia)). lia.
Qed.

(** *** The visitors of a range *)

Lemma omap_all {A B} (f : A -> option B) l : (forall x, x ∈ l -> is_Some (f x)) -> Forall2 (fun x y => f x = Some y) l (omap f l).
Proof.
  induction l as [|x l IH]; intros Hf; [constructor|]. destruct (Hf x ltac:(by left)) as [y Hy]. cbn. rewrite Hy. constructor; [done|].
  apply IH. intros z Hz. apply Hf. by right.
Qed.

Lemma hits_of_nil ip l : hits_of ip l ≠ [] <-> exists a, a ∈ l /\ SourceIP (ins a) = ip.
Proof.
  unfold hits_of. split.
  - intros Hne. destruct (filter _ l) as [|a k] eqn:Hf; [done|]. exists a. assert (a ∈ filter (fun a => SourceIP (ins a) = ip) l) as Ha by (rewrite Hf; by left).
    by apply list_elem_of_filter in Ha as [??].
  - intros (a & Ha & Hip) Hz. assert (a ∈ filter (fun a => SourceIP (ins a) = ip) l) as Hin by (by apply list_elem_of_filter). rewrite Hz in Hin. by apply elem_of_nil in Hin.
Qed.

Lemma all_visitors_each now ranges l :
  Forall2 (fun ip v => v_SourceIP v = ip /\ v_LastAt v = newest_of ip l /\ visitor_ok ranges (hits_of ip l) v /\
    (newest_first l -> visitor_timed now (hits_of ip l) v)) (buckets l).2 (all_visitors now ranges l).
Proof.
  destruct (buckets_spec l) as (_ & _ & Hin). eapply Forall2_impl; [apply omap_all|].
  - intros ip Hip%Hin. destruct (buildVisitor_some now ranges ip _ Hip) as [v Hv]. by exists v.
  - intros ip v Hv. destruct (buildVisitor_ok _ _ _ _ _ Hv) as (? & ? & ?). split_and!; try done.
    intros Hs. apply (buildVisitor_timed now ranges ip (hits_of ip l) v); [by apply sorted_filter|done].
Qed.

Lemma all_visitors_sources now ranges l : v_SourceIP <$> all_visitors now ranges l = (buckets l).2.
Proof.
  pose proof (all_visitors_each now ranges l) as Hs. revert Hs. generalize (all_visitors now ranges l), (buckets l).2. intros vs o H.
  induction H as [|ip v o vs (Hv & _) _ IH]; [done|]. cbn. by rewrite Hv, IH.
Qed.

Lemma all_visitors_sorted now ranges l : newest_first l -> StronglySorted (fun a b => v_LastAt b <= v_LastAt a) (all_visitors now ranges l).
Proof.
  intros Hs. pose proof (order_newest l Hs) as Ho. pose proof (all_visitors_each now ranges l) as Heach. revert Ho Heach.
  generalize (all_visitors now ranges l), (buckets l).2. intros vs o Ho H. revert Ho.
  induction H as [|ip v o vs (_ & Hv & _) Hrest IH]; intros Ho; [constructor|]. apply StronglySorted_inv in Ho as [Ho Hall]. constructor; [by apply IH|].
  apply Forall_forall. intros w [i Hw]%list_elem_of_lookup. destruct (Forall2_lookup_r _ _ _ _ _ Hrest Hw) as (jp & Hj & (_ & Hwl & _)).
  rewrite Hv, Hwl. rewrite Forall_forall in Hall. apply Hall. by eapply list_elem_of_lookup_2.
Qed.

Definition at_visitor_cursor (f : VisitorFilter) (before : Z) : VisitorFilter := mkVisitorFilter (vf_Since f) (vf_Until f) before (vf_Limit f).

Definition visitors_page (now : Z) (f : VisitorFilter) (ranges : list IPNet) (d : store_db) (_ : nat) (cursor : Z) : list Visitor :=
  match (exec (ListVisitors now (at_visitor_cursor f cursor) ranges) d).2 with Ok (Some l) => l | _ => [] end.

Lemma NormalizeVisitorLimit_range n : 0 < NormalizeVisitorLimit n <= 1000.
Proof. unfold NormalizeVisitorLimit, maxVisitorLimit, defaultVisitorLimit. destruct (Z.leb_spec n 0), (Z.ltb_spec 1000 n); lia. Qed.

(** The alerts a listing looks at. *)
Definition range_of (f : VisitorFilter) (d : store_db) : list Alert :=
  filter (fun a => in_range (vf_Since f) (vf_Until f) a = true) (reverse (stored_alerts d)).

Lemma ListVisitors_exec now f ranges d : exec (ListVisitors now f ranges) d =
  (d, Ok (Some (take (Z.to_nat (NormalizeVisitorLimit (vf_Limit f)))
                  (filter (fun v => at_or_after (vf_Before f) v = false) (all_visitors now ranges (range_of f d)))))).
Proof.
  unfold ListVisitors, alertsInRange. cbn [pbind exec query]. do 2 f_equal. fold (range_of f d). unfold list_visitors, all_visitors.
  pose proof (NormalizeVisitorLimit_range (vf_Limit f)). destruct (buckets_spec (range_of f d)) as (_ & _ & Hin).
  rewrite <- (visitor_page_spec now (vf_Before f) ranges (range_of f d)) by first [lia|intros ip; apply Hin]. by destruct (buckets (range_of f d)).
Qed.

Lemma strictly_sorted {A} (key : A -> Z) l : StronglySorted (fun a b => key b <= key a) l -> NoDup (key <$> l) -> descending key l.
Proof.
  unfold descending. induction 1 as [|x l Hl IH Hx]; intros Hnd; [constructor|]. cbn in Hnd. apply NoDup_cons in Hnd as [Hn Hnd]. constructor; [by apply IH|].
  rewrite Forall_forall in *. intros y Hy. specialize (Hx y Hy). assert (key x ≠ key y); [|lia]. intros He. apply Hn. rewrite He. by apply list_elem_of_fmap_2.
Qed.

(** C19. Every source of a real alert in the range is one visitor, told apart
    by the conditions of its kind, with its counts per canary, its services,
    up to four things it tried, and as its first and last hit the times of the
    rows of it stored first and last; a listing is the page of them its cursor
    asks for. Where the rows are stored in the order they were received these
    times are those of its earliest and latest hit, the visitors come latest
    first, and following the cursors yields each once, provided no two were
    last seen at the same instant. *)
Theorem visitors_are_told_apart now f ranges d :
  let l := range_of f d in
  let vs := all_visitors now ranges l in
  let n := Z.to_nat (NormalizeVisitorLimit (vf_Limit f)) in
  (forall a, a ∈ l <-> a ∈ stored_alerts d /\ Synthetic (ins a) = false /\
     instant (vf_Since f) <= instant (ReceivedAt (ins a)) <= instant (vf_Until f)) /\
  NoDup (v_SourceIP <$> vs) /\ (forall ip, ip ∈ v_SourceIP <$> vs <-> exists a, a ∈ l /\ SourceIP (ins a) = ip) /\
  (forall v, v ∈ vs -> visitor_ok ranges (hits_of (v_SourceIP v) l) v) /\
  exec (ListVisitors now f ranges) d = (d, Ok (Some (take n (filter (fun v => at_or_after (vf_Before f) v = false) vs)))) /\
  (forall p, visitorsResponse f p = (p, next_cursor v_LastAt n p)) /\
  (received_in_order d ->
     (forall v, v ∈ vs -> visitor_timed now (hits_of (v_SourceIP v) l) v) /\
     StronglySorted (fun a b => v_LastAt b <= v_LastAt a) vs /\
     (NoDup (v_LastAt <$> vs) -> Forall (fun v => 0 < v_LastAt v) vs -> forall fuel, (length vs / n < fuel)%nat ->
        let r := follow v_LastAt n (visitors_page now f ranges d) fuel 0 0 in
        concat r.1 = vs /\ r.2 = true /\ length r.1 = S (length vs / n))).
Proof.
  intros l vs n. pose proof (NormalizeVisitorLimit_range (vf_Limit f)) as Hn. destruct (buckets_spec l) as (_ & Hnd & Hin).
  pose proof (all_visitors_sources now ranges l) as Hsrc. split_and!.
  - intros a. unfold l, range_of. rewrite list_elem_of_filter, elem_of_reverse. unfold in_range, not_before. rewrite !andb_true_iff, !Z.leb_le, negb_true_iff. tauto.
  - unfold vs. by rewrite Hsrc.
  - intros ip. unfold vs. rewrite Hsrc, Hin. apply hits_of_nil.
  - intros v [i Hv]%list_elem_of_lookup. destruct (Forall2_lookup_r _ _ _ _ _ (all_visitors_each now ranges l) Hv) as (ip & _ & (-> & _ & Hok & _)). exact Hok.
  - apply ListVisitors_exec.
  - intros p. unfold visitorsResponse, next_cursor. f_equal. unfold n, zlen.
    destruct (Z.eqb_spec (Z.of_nat (length p)) (NormalizeVisitorLimit (vf_Limit f))), (Nat.eqb_spec (length p) (Z.to_nat (NormalizeVisitorLimit (vf_Limit f)))); first [done|lia].
  - intros Hd. assert (newest_first l) as Hs by (apply sorted_filter, stored_newest_first, Hd). split; [|split; [by apply all_visitors_sorted|]].
    { intros v [i Hv]%list_elem_of_lookup. destruct (Forall2_lookup_r _ _ _ _ _ (all_visitors_each now ranges l) Hv) as (ip & _ & (-> & _ & _ & Hok)). by apply Hok. }
    intros Hdist Hpos fuel Hf. assert (descending v_LastAt vs) as Hdesc by (apply strictly_sorted; [by apply all_visitors_sorted|done]).
    assert (forall k c, visitors_page now f ranges d k c = take n (filter (fun v => at_or_after c v = false) vs)) as Hpage.
    { intros k c. unfold visitors_page. by rewrite ListVisitors_exec. }
    apply follow_all; [lia|done| | |done].
    + rewrite Hpage. f_equal. apply filter_all, Forall_forall. done.
    + intros k v Hv. rewrite Hpage. f_equal. unfold older. apply list_filter_iff. intros w. unfold at_or_after.
      rewrite Forall_forall in Hpos. specialize (Hpos v Hv). rewrite (proj2 (Z.eqb_neq (v_LastAt v) 0)) by lia. cbn [negb andb].
      rewrite negb_false_iff. apply Z.ltb_lt.
Qed.
End listing.

(** ** An execution *)

#[local] Instance ex_rows : RowIds.
Proof. refine {| row_id n := Z.of_nat n + 1 |}; lia. Defined.

#[local] Instance ex_exact : Engine.
Proof. refine {| instant t := t; resolution := 1 |}; lia. Defined.

#[local] Instance ex_json : LogJson :=
  {| decode_logdata _ := Some {[ lit "USERNAME" := lit "root" ]}; json_string s := Some s; json_headers _ := None |}.

Definition ex_alert (canary source service : string) (at_ : Z) (synthetic : bool) : alert_row :=
  mkAlertRow (mkAlert (lit canary) (lit source) 22 (lit service) (lit "{}") at_ [] synthetic) None.

(** A sweep of two canaries, a host inside, a self-test, and two hosts at one
    instant. *)
Definition ex_table : store_db :=
  mkStore [] [] []
    [] [ex_alert "c1" "203.0.113.9" "ssh" 1000 false; ex_alert "c2" "203.0.113.9" "ssh" 2000 false;
        ex_alert "c1" "192.168.1.7" "http" 3000 false; ex_alert "c1" "192.168.1.7" "http" 3500 true;
        ex_alert "c1" "198.51.100.1" "ssh" 4000 false; ex_alert "c1" "198.51.100.2" "ssh" 4000 false] [].

Definition ex_filter (limit : Z) : AlertFilter := mkFilter [] [] (lit "ssh") 0 0 0 limit.

Lemma ex_grows : grows (fun _ => ex_table).
Proof. intros k. exists []. by rewrite app_nil_r. Qed.

(** Four alerts over ssh, in pages of three. *)
Lemma alerts_are_paged_once_witness :
  let r := follow ID 3 (alerts_page (ex_filter 3) (fun _ => ex_table)) 2 0 0 in
  (ID <$> concat r.1) = [6; 5; 2; 1] /\ r.2 = true /\ length r.1 = 2%nat.
Proof.
  destruct (alerts_are_paged_once (ex_filter 3) (fun _ => ex_table) 2 eq_refl ex_grows) as (_ & _ & _ & _ & Hc & Ht & Hl); [by vm_compute; lia|].
  split; [|split; [exact Ht|exact Hl]]. cbn zeta. change (page_size (ex_filter 3)) with 3%nat in Hc. change (fBefore (ex_filter 3)) with 0 in Hc.
  rewrite Hc. vm_compute. reflexivity.
Defined.

Definition ex_range (limit : Z) : VisitorFilter := mkVisitorFilter 1 5000 0 limit.

Lemma ex_in_order : received_in_order ex_table.
Proof. unfold received_in_order. cbn. repeat constructor; cbn; lia. Qed.

(** Who they are; and with pages of one, the older of two hosts last seen at one
    instant is on no page. *)
Lemma visitors_are_told_apart_witness :
  let vs := all_visitors 5000 [] (range_of (ex_range 10) ex_table) in
  (v_Kind <$> vs) = [KindTouch; KindTouch; KindInside; KindSweep] /\
  exec (ListVisitors 5000 (ex_range 10) []) ex_table = (ex_table, Ok (Some vs)) /\
  (v_SourceIP <$> concat (follow v_LastAt 1 (visitors_page 5000 (ex_range 1) [] ex_table) 10 0 0).1) =
    [lit "198.51.100.2"; lit "192.168.1.7"; lit "203.0.113.9"] /\
  NoDup (v_SourceIP <$> vs) /\ StronglySorted (fun a b => v_LastAt b <= v_LastAt a) vs.
Proof.
  destruct (visitors_are_told_apart 5000 (ex_range 10) [] ex_table) as (_ & Hnd & _ & _ & He & _ & Hord).
  destruct (Hord ex_in_order) as (_ & Hsort & _).
  split; [vm_compute; reflexivity|]. split; [rewrite He; vm_compute; reflexivity|]. split; [vm_compute; reflexivity|]. split; [exact Hnd|exact Hsort].
Defined.
